(* ===== verification/_CoqProject ===== *)
-Q . S2P
Prelude.v
Containers.v
Transaction.v
PendingPool.v
ReadyPool.v
PoolIter.v
Pool.v
PoolSpec.v
Fees.v
Env.v
TimeManager.v
Cheats.v
Validate.v
Api.v
Estimate.v
BlockStates.v
Block.v
Chain.v
Executor.v
Mine.v
Miner.v
Service.v
Liveness.v
Query.v
Send.v
MemDb.v
Reorg.v
Snapshot.v
Linker.v
Ic.v
FuzzInt.v
MockCall.v
Prank.v
Filters.v
FoldedTrace.v
ExpectEmit.v
FmtText.v
FmtConfig.v
ExpectRevert.v
Coverage.v
FsPermissions.v
Shrink.v
MultiFork.v
ForkBackend.v
ForkSafety.v
ForkSwitch.v
StateDiff.v
FuzzDict.v
GasMeter.v
SafeMemory.v
ZkLinker.v
Broadcast.v
SlotRecording.v
ArbitraryStorage.v
MineApi.v
Digits.v
ConsoleFmt.v
CastBase.v
