(* ===== verification/Prelude.v ===== *)
(** * Verification of the core of foundry-zksync

    Anvil (src/foundry-zksync/crates/anvil) is a local Ethereum node.  This
    library models the part of it that carries its logic, from a request of a
    client to a block of the chain and back by snapshots and reorganisations,
    and proves what makes it correct.  It also models self-contained parts of
    the test tool forge: the library linkers of the EVM and of zkSync, the maps
    of program counters, the integer strategies and the dictionary of the fuzzer,
    the cheatcodes that change or expect calls, logs and reverts, that record
    state changes and storage accesses, meter gas, guard memory or record the
    transactions of a script, the forks and snapshots of the test backend, line
    coverage, folded traces, the permissions of cheatcodes for files, shrinking
    of call sequences, the formatting of console logs, the scanners and directives
    of the formatter, and the number conversions of the tool cast.

    ** The program and its parts

    A request ([EthApi], src/eth/api.rs) is completed with a nonce, fees and a
    gas limit, validated ([TransactionValidator], src/eth/backend/mem/mod.rs)
    and put into the pool ([Pool], src/eth/pool).  The pool keeps transactions
    whose dependencies are missing in a waiting queue and the others in a ready
    queue; a transaction depends on the one with the preceding nonce of its
    sender, which is expressed by opaque markers.  The service
    (src/service.rs) polls the miner (src/eth/miner.rs), which draws ready
    transactions from the pool, and hands them to the block producer, which
    lets the backend mine one block at a time: fees (src/eth/fees.rs) and clock
    (src/eth/backend/time.rs) set up the environment, the executor
    (src/eth/backend/executor.rs) runs the transactions with revm, and the block
    goes to the storage (src/eth/backend/mem/storage.rs), while the state before
    it is archived ([InMemoryBlockStates], same file).  The outcome goes back
    to the pool, which drops what was mined and what turned out invalid.
    Queries read the database at the best, a past or the pending block.  A
    client can take a snapshot of the state and revert to it, roll the chain
    back to a block, or replace its end; it can also mine blocks by hand and move
    the clock.

    A forge test runs contracts with revm under an inspector
    (crates/cheatcodes/src/inspector.rs): its hooks at the start and end of each
    call, and around each instruction, consult and update the state that
    cheatcodes set up; under a broadcast, the calls a script makes are recorded as
    transactions to be sent.  Before a test, the linker (crates/linking) finds the
    libraries of a contract and their addresses; the fuzzer (crates/evm/fuzz)
    generates arguments, partly from a dictionary of values it has seen, and
    shrinks failing ones, and an invariant test shrinks the calls that broke it
    (crates/evm/evm).  The
    contracts see the state through the backend (crates/evm/core/src/backend),
    which keeps an in-memory database, the forks a test created and its
    snapshots, and swaps databases and journals when a fork is selected; forks
    are made by a handler all tests of a run share (crates/evm/core/src/fork).
    A collector counts executed instructions for the coverage report
    (crates/evm/coverage), a decoded trace can be folded into the lines of a
    flame graph (crates/evm/traces).  The formatter (crates/fmt) finds comments
    and quoted text, and the directives in comments that switch it off.

    ** The files

    - [Prelude]: outcomes and results, loops with their total-correctness
      rules ([foldM_spec], [run_spec]), returns unless a stated condition for a
      panic holds ([ensures]), machine integers, vectors, byte
      strings, tactics and the hint database [anvil].
    - [Containers]: [BTreeSet] as a sorted list, and the iteration order of
      [HashMap] and [HashSet] as a class [HashOrder] of which only the set of
      elements is known; every theorem holds for every order.
    - [Transaction]: typed transactions, requests and the environment of a
      transaction (crates/anvil/core/src/eth/transaction/mod.rs).
    - [PendingPool], [ReadyPool], [PoolIter]: the two queues and the iterator
      over ready transactions (src/eth/pool/transactions.rs).
    - [Pool], [PoolSpec]: the pool (src/eth/pool/mod.rs), its invariant
      [pool_inv] over an interface [TxPolicy] of what users submit, the pool as
      a state machine [pool_step], and the properties of pool and queues.
    - [Fees], [TimeManager], [Cheats]: fee manager and fee history, clock,
      impersonation and signature overrides (src/eth/backend/cheats.rs).
    - [Env], [Validate]: the EVM environment and the validation of
      transactions.
    - [Api], [Estimate]: completion of requests, markers, and the estimation
      of gas (src/eth/api.rs).
    - [BlockStates], [Block], [Chain]: archived states with their files on disk
      (src/eth/backend/mem/cache.rs), headers and blocks
      (crates/anvil/core/src/eth/block.rs), and the storage of the chain.
    - [Executor]: the executor, against the interfaces [RevmDb] (database and
      interpreter) and [TransactionValidator]; [backend_validator] is the
      instance the node uses.
    - [Mine]: [do_mine_block], which puts fees, clock, states, executor and
      storage together; [node_inv] is the invariant of the backend.
    - [Miner], [Service], [Liveness]: mining modes, block producer and node
      service, with the whole node as a step relation [service_step], and its
      infinite runs [execution].
    - [Query]: block ids and the database at a block (src/eth/backend/mem/mod.rs).
    - [Send]: the handlers that submit transactions, in a monad of state, errors
      and panics, with the signers (src/eth/api.rs, src/eth/sign.rs).
    - [MemDb]: numbered snapshots (crates/evm/core/src/state_snapshot.rs) and the
      in-memory database (src/eth/backend/db.rs, mem/in_memory_db.rs); an
      instance of the interface [StateDbOps] of archived states.
    - [Reorg], [Snapshot]: rollback and reorganisation, [evm_snapshot] and
      [evm_revert], on a backend with that database.
    - [Filters]: filters a client polls and subscriptions the node pushes
      (src/filter.rs, src/pubsub.rs), against the channels of the crate futures
      ([Receiver]) and the matching of alloy's filters ([FilterOps]).
    - [MineApi]: the handlers that mine by hand, move the clock and summarise the
      pool (src/eth/api.rs), over the pool and the backend of the node.
    - [Linker]: crates/linking/src/lib.rs, against the interface [BytecodeOps].
    - [ZkLinker]: crates/linking/src/zksync.rs, on top of it, with the linker of
      zkSync and the hash of a bytecode as [ZkOps].
    - [Ic]: crates/evm/core/src/ic.rs, against the table of opcodes.
    - [FuzzInt]: crates/evm/fuzz/src/strategies/uint.rs and int.rs, two instances
      of the class [ValueTree].
    - [MockCall], [Prank]: mocked and expected calls (crates/cheatcodes/src/evm/mock.rs,
      test/expect.rs) and pranks (evm/prank.rs) with their parts of the hooks.
    - [ExpectEmit], [ExpectRevert]: expected logs and expected or assumed reverts
      (crates/cheatcodes/src/test/expect.rs, revert_handlers.rs, assume.rs) with
      their parts of the hooks.
    - [StateDiff]: the recording of state changes (crates/cheatcodes/src/inspector.rs,
      evm.rs), through the hooks of instructions, calls and creations, against a
      specification by the tree of calls.
    - [GasMeter], [SafeMemory]: pausing, resetting and measuring gas, and the check
      of memory accesses against the announced ranges (same files).
    - [Broadcast]: the recording of transactions of a script
      (crates/cheatcodes/src/script.rs, strategy.rs, inspector.rs).
    - [SlotRecording]: recorded storage accesses and the slots of mappings
      (crates/cheatcodes/common/src/record.rs, crates/common/src/mapping_slots.rs).
    - [ArbitraryStorage]: storage that takes arbitrary values and copies of it, and
      expected creations (crates/cheatcodes/src/inspector.rs, utils.rs).
    - [FuzzDict]: the dictionary of the fuzzer (crates/evm/fuzz/src/strategies/state.rs)
      and the end of a bytecode's code (crates/common/src/utils.rs).
    - [MultiFork]: the handler of forks (crates/evm/core/src/fork/multi.rs), with
      shared cells for the counters that give forks their names.
    - [ForkBackend]: the backend of a test (crates/evm/core/src/backend/mod.rs,
      strategy.rs, snapshot.rs) over the interface [RevmOps]; [ForkSafety]: its
      operations [op_step], its invariant [backend_wf] and that nothing panics;
      [ForkSwitch]: what selecting, leaving and reverting do to the state.
    - [FoldedTrace]: crates/evm/traces/src/folded_stack_trace.rs.
    - [Coverage]: crates/evm/coverage/src/lib.rs and inspector.rs, the pointer of
      the collector into its moving table included.
    - [FsPermissions]: crates/config/src/fs_permissions.rs and the check of a path
      (crates/cheatcodes/src/config.rs, crates/common/src/fs.rs).
    - [Shrink]: crates/evm/evm/src/executors/invariant/shrink.rs.
    - [FmtText], [FmtConfig]: crates/fmt/src/string.rs, comments.rs and
      inline_config.rs.
    - [Digits]: numbers in positional notation; [ConsoleFmt]: the format strings of
      console logs (crates/common/fmt/src/console.rs); [CastBase]: numbers in a base
      (crates/cast/src/base.rs), with the reading of 256-bit numbers as
      [ParseRadix].

    ** How the code is modelled

    A function that can panic or loops returns an [outcome]: [Ret], [Panic] or
    [OutOfFuel].  [Result] is [result], with [x ←? r ; k] for the question mark.
    Integers are [Z] with the wrapping or saturation of the source written out
    (release profile, overflow checks off; the debug assertion of the parser of
    console formats is under an argument [debug]).  Hash maps and sets are [gmap] and
    [gset], vectors are lists, 256-bit hashes and addresses are [Z].  Locks and
    [Arc] are left out: each operation of the source holds the lock for its
    whole body, and [service_step] interleaves operations.  Code that is not in
    the repository (alloy, revm, chrono, futures, the file system) appears as class
    parameters ([TxExternals], [BlockExternals], [RevmTypes], [RevmDb],
    [BackendExternals], [StateDbOps], [FileSystem], [SignExternals],
    [DatabaseRef], [CacheOps], [BytecodeOps], [OpcodeTable], ...), with what is
    relied upon as named laws ([RevmLaws]: a transaction uses at most its gas limit,
    fails with a header error only if the environment lacks the field named, and
    with an error of a precompile only if there is one that can fail;
    [BackendExternals]: chrono has dates up to some number of seconds;
    [FileSystem]: a file holds only what some task was told to write, which may
    happen late or fail; [HeaderHash]: headers of different numbers have
    different hashes; [CacheOps]: what revm's insertion
    of an account and a slot does; [SnapshotsKept]: execution leaves the
    snapshots of the database alone; [BytecodeLaws]: linking a library removes
    its references and nothing else).  The theorems of rollback, reorganisation
    and snapshots are about a node that does not fork, with the database in
    memory.  Random numbers and the wall clock are arguments.

    Panics the source can reach are part of the model, and the theorems state
    when they are not reached: a failing precompile of a factory and an incomplete
    environment in the executor, a timestamp beyond chrono's last date when a
    mined block is logged ([late_block_panics]), a mint of 2^128 or more, code or
    addresses of libraries that cannot be read.  Each property says under which
    conditions it holds; what the code does outside of them is shown by the
    deviations listed below.

    ** Loops and fuel

    Loops over a list are structural.  A [while] loop is [run] with fuel that is
    computed from the state and proved sufficient: the removal loop of the ready
    queue, pruning ([prune_fuel]) and promotion decrease the number of
    transactions or links; [iter_next] removes an element per turn;
    the eviction loops shorten a queue; the executor consumes its list; the
    gas search of [Estimate] halves an interval below 2^128 and gets 131 turns.
    Collecting the ready transactions takes a fuel argument; it is shown to end
    on pools whose markers are ranked ([ready_iterator_terminates]), which the
    markers of submitted transactions are ([submitted_transaction_ranked]).
    The search for libraries gets one level more than there are artifacts
    ([search_fuel]), the CREATE2 loop one turn more than there are libraries,
    a walk over bytecode one turn more than there are bytes, and a poll of a
    channel one more (two for a log subscription) than it holds; shrinking an
    integer takes at most 259 rounds, since each halves an interval below 2^256.
    The fork handler takes one turn per request and per task, walking the call
    tree of a trace takes one level more than there are nodes, and the shrinking
    of a sequence is bounded by the limit of the configuration.  The search and
    the queue of the zkSync linker use [search_fuel] as well, the walk over pushed
    bytes gets one turn more than there are bytes, and filing a mapping slot one
    level more than there are hashes.  A request to mine is shown to end for all
    fuel above some bound ([foldM_eventually]).
    Where a loop does not end, that is a theorem too ([insert_state_diverges],
    [estimate_search_diverges], [requeue_diverges]).

    ** What the theorems show

    - Node: every reachable state of the service is consistent, block
      production extends the chain by one executed block at a time and keeps
      the pool in step ([Service]); mining keeps the invariant of the backend
      ([Mine]); a block respects the gas limits and its receipts add up
      ([Executor]).
    - Pool: every operation returns without panic and keeps [pool_inv]; the
      answers say exactly what entered and left; ready transactions come out by
      priority and after what unlocks them.
    - Backend: validation accepts exactly the transactions that meet its
      conditions; archived states move from memory to disk and out within the
      limits, and a lookup never yields the state of another block; the chain is indexed
      consistently, survives dump and load, and unwinds.
    - Requests: types, fees, nonces and environments agree with the request;
      gas estimates are tight.
    - Clock and fees: timestamps do not go back, the fee history is a window.
    - Time: what the miner hands over is mined in the end in every fair run; a
      past block is queried with its own state; a rollback restores an archived
      block, a reorganisation builds a linked chain on it, and a revert undoes
      everything since its snapshot.
    - Submission: a handler leaves the node as it was or adds one transaction,
      with the right nonce and markers, and answers what the pool says.
    - Mining by hand: a request appends exactly the blocks asked for, the first with
      the timestamp asked for, and keeps node and pool consistent.
    - Notification: filters and subscriptions deliver every matching log exactly
      once and in order.
    - Linking: the search is exactly reachability along the references it sees,
      both linkers give every library found an address and deploy only fully
      linked code; the one of zkSync also follows the contracts a contract deploys.
    - Bytecode and fuzzing: the maps of counters are inverse and agree with the
      decoder; generated integers have their type and shrink to the least
      failing one; the dictionary keeps its limits, and after a run it
      has the state values it had before it.
    - Cheatcodes: the most specific mock answers, expectations are counted
      exactly, and a prank covers the calls it is meant for and no other; the
      verdict on expected logs is that they were met in their order, and expected
      reverts are demanded of as many calls as announced.
    - Recording: the recorded state changes, storage accesses, mapping slots and
      transactions of a script are those of a specification over the tree of
      calls; paused gas stays constant and a measured section costs what it used;
      an access to memory passes exactly when it is in range.
    - Forks: names are never given twice and every request is answered once; no
      operation of the backend panics and every issued number leads to its own
      fork; selecting a fork changes only persistent accounts and the sender, a
      fork that was left is found as it was, and a snapshot restores its fork the first time
      it is reverted.
    - Tools: instructions are counted as often as executed and items gain the
      hits of their anchors; a folded trace is its call tree; access to a file is
      decided by the longest permission above it; shrinking keeps the failure
      and is minimal; comments and disabled regions are those of the text; format
      strings are read as their grammar says, exponents denote the number, and a
      number that cast prints is read back.
    - Deviations: where the code does not do what it means to, a theorem shows
      a run that does so ([creation_reference_lost], [evm_revert_stale],
      [rollback_loses_code], [default_nonce_reordered], [prank_origin_leaks],
      [create_end_loses_origin], [expect_call_value_merged], [cyclic_dropped],
      [late_block_panics], [full_takes_nothing], [halt_has_no_reverter],
      [subscription_stalls], [second_absence_unchecked],
      [any_emitter_counts_one], [no_revert_output_lost], [fork_env_leaks],
      [revert_keeps_later], [memory_snapshot_keeps_fork],
      [limit_of_length_loses_failure], [next_line_takes_two],
      [empty_comments_swallow], [new_file_below_link], [halt_not_marked],
      [announced_revert_not_marked], [mocked_revert_marks_caller],
      [resumed_for_caller], [reverted_balance_reported], [typed_values_stay],
      [second_snapshot_counts_gap], [stop_without_snapshot_panics],
      [load_across_end_passes], [empty_write_judged],
      [short_cheatcode_call_panics], [factory_reference_lost], [nonce_truncated],
      [unlinked_target_dropped], [foreign_delegation_nonce_gap],
      [nested_stop_leaks_origin], [other_caller_ends_broadcast],
      [copy_read_overwrites_source], [set_time_answers_thousandth],
      [queued_listed_as_pending], [set_block_misnumbers],
      [large_precision_panics], [precision_rewritten], [zero_hex_empty],
      [large_negative_misread], [format_zero_empty], [other_prefix_dropped],
      [signed_base_truncated]).

    ** Not modelled

    The RPC server, its dispatch and serialization are input and output around
    the handlers.  The forking mode of anvil, wallets, typed-data signing, the commands of
    cast, chisel, verification and the scripts of forge drive remote providers, keys and
    external compilers, whose answers decide what they do; the executors, the
    decoding of traces and the zkSync strategy are glue around revm and the zkSync
    virtual machine.  The formatter proper, the linter, the documentation
    generator and the analysis behind coverage work on syntax trees of parsers
    that are not in the repository, and configuration is a set of records filled
    by a library.  Of anvil, the detailed answers of mining and of the pool, the
    conversion of transactions for [anvil_reorg] (the reorganisation itself is in
    [Reorg]), tracing and the state dump are left out; of the test backend, the
    replay of transactions on a fork and the loading of allocations; of the
    cheatcodes, those that only call the file system, an environment, a parser or
    a provider. *)

From stdpp Require Import prelude gmap list.

(** ** Outcomes

    A Rust function that can panic ([assert!], [expect], slice indexing) or
    that runs a [while] loop returns an [outcome]: [Ret] for a normal return,
    [Panic] for a panic (which aborts the process, so no state survives it)
    and [OutOfFuel] for a loop that was not given enough iterations.  The
    theorems of the development show that [OutOfFuel] is never the outcome of
    an operation. *)

Inductive outcome (A : Type) : Type :=
| Ret (a : A)
| Panic
| OutOfFuel.
Arguments Ret {A} a.
Arguments Panic {A}.
Arguments OutOfFuel {A}.

#[export] Instance outcome_ret : MRet outcome := λ A a, Ret a.
#[export] Instance outcome_bind : MBind outcome := λ A B f m,
  match m with
  | Ret a => f a
  | Panic => Panic
  | OutOfFuel => OutOfFuel
  end.
#[export] Instance outcome_fmap : FMap outcome := λ A B f m,
  match m with
  | Ret a => Ret (f a)
  | Panic => Panic
  | OutOfFuel => OutOfFuel
  end.

(** [Result<T, E>] of the source. *)
Inductive result (T E : Type) : Type :=
| Ok (t : T)
| Err (e : E).
Arguments Ok {T E} t.
Arguments Err {T E} e.

Definition is_ok {T E} (r : result T E) : bool :=
  match r with Ok _ => true | Err _ => false end.

(** [r?]: propagate the error of [r]. *)
Definition and_then {T U E} (r : result T E) (f : T → result U E) : result U E :=
  match r with Ok t => f t | Err e => Err e end.

(** [if c { return Err(e) }]. *)
Definition err_if {E} (c : bool) (e : E) : result unit E := if c then Err e else Ok tt.

Notation "x ←? r ; k" := (and_then r (λ x, k))
  (at level 20, r at level 100, k at level 200, only parsing) : stdpp_scope.

Lemma and_then_Ok {T U E} (r : result T E) (f : T → result U E) u :
  and_then r f = Ok u ↔ ∃ t, r = Ok t ∧ f t = Ok u.
Proof. destruct r; simpl; naive_solver. Qed.

Lemma err_if_Ok {E} c (e : E) u : err_if c e = Ok u ↔ c = false.
Proof. destruct c, u; simpl; naive_solver. Qed.

(** An error no part of a sequence raises is not raised by the sequence. *)
Lemma and_then_not_err {T U E} (r : result T E) (f : T → result U E) e :
  r ≠ Err e → (∀ t, f t ≠ Err e) → and_then r f ≠ Err e.
Proof. destruct r; simpl; [auto|congruence]. Qed.

Lemma err_if_not_err {E} c (e e' : E) : e ≠ e' → err_if c e ≠ Err e'.
Proof. destruct c; simpl; congruence. Qed.

(** Split "this error is not raised" along a sequence of checks. *)
Ltac not_err :=
  repeat (apply and_then_not_err; [|intros _]); try (by apply err_if_not_err).

(** [opt.expect(..)] and [assert!(c)]. *)
Definition expect {A} (o : option A) : outcome A :=
  match o with Some a => Ret a | None => Panic end.
Definition assert_ (c : bool) : outcome unit := if c then Ret tt else Panic.

Lemma bind_Ret {A B} (f : A → outcome B) a : (Ret a ≫= f) = f a.
Proof. done. Qed.

Lemma bind_Ret_inv {A B} (f : A → outcome B) m b :
  (m ≫= f) = Ret b → ∃ a, m = Ret a ∧ f a = Ret b.
Proof. destruct m; try done. eauto. Qed.

(** ** Loops *)

(** [for x in l { .. }] with a body that may panic. *)
Fixpoint foldM {A B} (f : B → A → outcome B) (b : B) (l : list A) : outcome B :=
  match l with
  | [] => Ret b
  | x :: l => f b x ≫= λ b', foldM f b' l
  end.

(** [while cond { .. }]: one iteration either continues or leaves the loop. *)
Inductive flow (S R : Type) : Type :=
| Continue (s : S)
| Break (r : R).
Arguments Continue {S R} s.
Arguments Break {S R} r.

Fixpoint run {S R} (fuel : nat) (body : S → outcome (flow S R)) (s : S) : outcome R :=
  match fuel with
  | O => OutOfFuel
  | Datatypes.S n =>
      body s ≫= λ c, match c with Continue s' => run n body s' | Break r => Ret r end
  end.

(** Total-correctness rule for [foldM]: the invariant sees the elements
    already processed. *)
Lemma foldM_spec {A B} (f : B → A → outcome B) (P : list A → B → Prop) l b :
  P [] b →
  (∀ done x rest b, l = done ++ x :: rest → P done b →
     ∃ b', f b x = Ret b' ∧ P (done ++ [x]) b') →
  ∃ b', foldM f b l = Ret b' ∧ P l b'.
Proof.
  intros HP Hstep.
  enough (∀ pre suf b, l = pre ++ suf → P pre b →
            ∃ b', foldM f b suf = Ret b' ∧ P l b') as H by (by apply (H [])).
  clear b HP. intros pre suf. revert pre.
  induction suf as [|x suf IH]; intros pre b Hl HP; simpl.
  - exists b. by rewrite Hl, app_nil_r.
  - destruct (Hstep pre x suf b Hl HP) as (b' & -> & HP').
    rewrite bind_Ret. apply (IH (pre ++ [x])); [|done].
    by rewrite <- app_assoc.
Qed.

(** The turns of [for i in 0..m]. *)
Lemma seqZ_middle (m x : Z) (done rest : list Z) :
  seqZ 0 m = done ++ x :: rest → (x = Z.of_nat (length done) ∧ Z.of_nat (length done) < m)%Z.
Proof.
  intros El. assert (seqZ 0 m !! length done = Some x) as Hx%lookup_seqZ
    by (rewrite El, lookup_app_r, Nat.sub_diag by lia; done). lia.
Qed.

(** The same for a body with a fuel argument: enough fuel for every turn is
    enough for the loop. *)
Lemma foldM_eventually {A B} (f : nat → B → A → outcome B) (P : list A → B → Prop) l b :
  P [] b →
  (∀ done x rest b, l = done ++ x :: rest → P done b →
     ∃ fuel b', (∀ m, (fuel ≤ m)%nat → f m b x = Ret b') ∧ P (done ++ [x]) b') →
  ∃ fuel b', (∀ m, (fuel ≤ m)%nat → foldM (f m) b l = Ret b') ∧ P l b'.
Proof.
  intros HP Hstep.
  enough (∀ pre suf b, l = pre ++ suf → P pre b →
      ∃ fuel b', (∀ m, (fuel ≤ m)%nat → foldM (f m) b suf = Ret b') ∧ P l b') as H
    by (by apply (H [])).
  clear b HP. intros pre suf. revert pre.
  induction suf as [|x suf IH]; intros pre b Hl HP; simpl.
  - exists 0%nat, b. by rewrite Hl, app_nil_r.
  - destruct (Hstep pre x suf b Hl HP) as (f1 & b1 & H1 & HP1).
    destruct (IH (pre ++ [x]) b1) as (f2 & b2 & H2 & HP2); [by rewrite <- app_assoc|done|].
    exists (Nat.max f1 f2), b2. split; [|done]. intros m Hm. rewrite H1 by lia. simpl.
    apply H2. lia.
Qed.

(** Simulation of one loop by another over the same list. *)
Lemma foldM_sim {A B C} (f : B → A → outcome B) (g : C → A → outcome C) (R : B → C → Prop) l b c b' :
  (∀ x b c b', R b c → f b x = Ret b' → ∃ c', g c x = Ret c' ∧ R b' c') →
  R b c → foldM f b l = Ret b' → ∃ c', foldM g c l = Ret c' ∧ R b' c'.
Proof.
  intros Hstep. revert b c. induction l as [|x l IH]; intros b c HR; simpl.
  { intros [= <-]. eauto. }
  intros (b1 & E1 & E2)%bind_Ret_inv. destruct (Hstep x b c b1 HR E1) as (c1 & -> & HR1).
  rewrite bind_Ret. by eapply IH.
Qed.

Lemma foldM_app {A B} (f : B → A → outcome B) l1 l2 b :
  foldM f b (l1 ++ l2) = foldM f b l1 ≫= λ b', foldM f b' l2.
Proof.
  revert b. induction l1 as [|x l1 IH]; intros b; [done|]; simpl.
  by destruct (f b x); simpl.
Qed.

(** Total-correctness rule for [run]: an invariant, a measure that decreases
    at every [Continue], and a postcondition established at every [Break]. *)
Lemma run_spec {S R} (I : S → Prop) (Q : R → Prop) (μ : S → nat)
    (body : S → outcome (flow S R)) :
  (∀ s, I s →
     (∃ s', body s = Ret (Continue s') ∧ I s' ∧ μ s' < μ s) ∨
     (∃ r, body s = Ret (Break r) ∧ Q r)) →
  ∀ fuel s, I s → μ s < fuel → ∃ r, run fuel body s = Ret r ∧ Q r.
Proof.
  intros Hbody fuel. induction fuel as [|fuel IH]; intros s HI Hμ; [lia|]; simpl.
  destruct (Hbody s HI) as [(s' & -> & HI' & Hlt) | (r & -> & HQ)]; simpl.
  - apply IH; [done|lia].
  - eauto.
Qed.

(** Partial-correctness rule, for what a loop that is known to end keeps. *)
Lemma run_keeps {S R} (I : S → Prop) (Q : R → Prop) (body : S → outcome (flow S R)) :
  (∀ s f, I s → body s = Ret f → match f with Continue s' => I s' | Break r => Q r end) →
  ∀ fuel s r, I s → run fuel body s = Ret r → Q r.
Proof.
  intros Hbody fuel. induction fuel as [|fuel IH]; intros s r HI Hr; [done|]; simpl in Hr.
  apply bind_Ret_inv in Hr as (f & Ef & Hr). pose proof (Hbody s f HI Ef) as Hf.
  destruct f; [by eapply IH|by injection Hr as <-].
Qed.

(** A result satisfies [Q], and when [safe] holds there is one: partial
    correctness with the condition under which the code does not panic. *)
Definition ensures {A} (safe : Prop) (o : outcome A) (Q : A → Prop) : Prop :=
  match o with Ret a => Q a | Panic => ¬ safe | OutOfFuel => False end.

Lemma ensures_Ret {A} safe (o : outcome A) Q a : ensures safe o Q → o = Ret a → Q a.
Proof. by intros H ->. Qed.

Lemma ensures_total {A} (safe : Prop) (o : outcome A) Q :
  ensures safe o Q → safe → ∃ a, o = Ret a ∧ Q a.
Proof. destruct o as [a| |]; simpl; [eauto|done|done]. Qed.

Lemma ensures_mono {A} (safe safe' : Prop) (o : outcome A) (Q Q' : A → Prop) :
  ensures safe o Q → (safe' → safe) → (∀ a, Q a → Q' a) → ensures safe' o Q'.
Proof. destruct o; simpl; auto. Qed.

Lemma ensures_bind {A B} safe (o : outcome A) (f : A → outcome B) P Q :
  ensures safe o P → (∀ a, P a → ensures safe (f a) Q) → ensures safe (o ≫= f) Q.
Proof. destruct o; simpl; auto. Qed.

Lemma run_ensures {S R} safe (I : S → Prop) (Q : R → Prop) (μ : S → nat)
    (body : S → outcome (flow S R)) :
  (∀ s, I s → ensures safe (body s)
     (λ f, match f with Continue s' => I s' ∧ μ s' < μ s | Break r => Q r end)) →
  ∀ fuel s, I s → μ s < fuel → ensures safe (run fuel body s) Q.
Proof.
  intros Hbody fuel. induction fuel as [|fuel IH]; intros s HI Hμ; [lia|]; simpl.
  eapply ensures_bind; [by apply Hbody|]. intros [s'|r] Hf; [|done].
  apply IH; [apply Hf|lia].
Qed.

(** More fuel never changes an answer. *)
Lemma run_mono {S R} (body : S → outcome (flow S R)) n m s :
  n ≤ m → run n body s ≠ OutOfFuel → run m body s = run n body s.
Proof.
  revert m s. induction n as [|n IH]; intros m s Hle Hne; [done|].
  destruct m as [|m]; [lia|]. simpl in *.
  destruct (body s) as [[s'|r]| |]; simpl in *; try done.
  apply IH; [lia|done].
Qed.

(** ** Machine integers

    A [w]-bit unsigned integer is a [Z] in [0, 2^w).  The [release] profile of
    the workspace leaves overflow checks off, so the plain operators wrap. *)

Declare Scope rust_scope.
Delimit Scope rust_scope with rust.
Open Scope Z_scope.

Definition umax (w : Z) : Z := 2 ^ w - 1.
Definition is_u (w x : Z) : Prop := 0 ≤ x ≤ umax w.
Definition wrap (w x : Z) : Z := x mod 2 ^ w.
Definition saturating_add (w a b : Z) : Z := Z.min (a + b) (umax w).
Definition saturating_sub (a b : Z) : Z := Z.max (a - b) 0.
Definition saturating_mul (w a b : Z) : Z := Z.min (a * b) (umax w).
Definition checked_add (w a b : Z) : option Z :=
  if a + b <=? umax w then Some (a + b) else None.

Notation "a +w[ w ] b" := (wrap w (a + b)) (at level 50, left associativity) : rust_scope.
Notation "a *w[ w ] b" := (wrap w (a * b)) (at level 40, left associativity) : rust_scope.
Notation "a +s[ w ] b" := (saturating_add w a b) (at level 50, left associativity) : rust_scope.
Notation "a *s[ w ] b" := (saturating_mul w a b) (at level 40, left associativity) : rust_scope.
Open Scope rust_scope.

Lemma wrap_small w x : is_u w x → wrap w x = x.
Proof. unfold is_u, umax, wrap. intros. apply Z.mod_small. lia. Qed.

Lemma wrap_add_l w x y : 0 ≤ w → wrap w (wrap w x + y) = wrap w (x + y).
Proof. intros Hw. unfold wrap. apply Z.add_mod_idemp_l. lia. Qed.
Lemma wrap_is_u w x : 0 ≤ w → is_u w (wrap w x).
Proof.
  unfold is_u, umax, wrap. intros Hw.
  pose proof (Z.mod_pos_bound x (2 ^ w) ltac:(apply Z.pow_pos_nonneg; lia)). lia.
Qed.

Lemma saturating_add_is_u w a b : 0 ≤ umax w → is_u w a → is_u w b → is_u w (a +s[w] b).
Proof. unfold is_u, saturating_add. lia. Qed.

Lemma saturating_sub_is_u w a b : is_u w a → 0 ≤ b → is_u w (saturating_sub a b).
Proof. unfold is_u, saturating_sub. lia. Qed.

(** Little- and big-endian byte strings of a fixed length. *)
Fixpoint le_bytes (n : nat) (x : Z) : list Z :=
  match n with
  | O => []
  | S n => x mod 256 :: le_bytes n (x / 256)
  end.
Definition be_bytes (n : nat) (x : Z) : list Z := rev (le_bytes n x).

Fixpoint le_value (l : list Z) : Z :=
  match l with
  | [] => 0
  | b :: l => b + 256 * le_value l
  end.

Lemma length_le_bytes n x : length (le_bytes n x) = n.
Proof. revert x. induction n; intros; simpl; [done|]. by rewrite IHn. Qed.

Lemma le_value_bytes n x :
  0 ≤ x < 256 ^ Z.of_nat n → le_value (le_bytes n x) = x.
Proof.
  revert x. induction n as [|n IH]; intros x Hx; simpl.
  - rewrite Z.pow_0_r in Hx. lia.
  - rewrite IH; [pose proof (Z.div_mod x 256); lia|].
    rewrite Nat2Z.inj_succ, Z.pow_succ_r in Hx by lia.
    split; [apply Z.div_pos; lia|]. apply Z.div_lt_upper_bound; lia.
Qed.

(** ** Lists, options and finite maps *)

Close Scope Z_scope.

(** The sum of a measure over the values of a finite map. *)
Definition map_sum `{Countable K} {A} (f : A → nat) (m : gmap K A) : nat :=
  map_fold (λ _ x n, f x + n) 0 m.

Section map_sum.
Context `{Countable K} {A : Type} (f : A → nat).
Implicit Types m : gmap K A.

Lemma map_sum_insert_new m k x :
  m !! k = None → map_sum f (<[k := x]> m) = f x + map_sum f m.
Proof.
  intros Hk. unfold map_sum. rewrite map_fold_insert_L; [done| |done].
  intros; lia.
Qed.

Lemma map_sum_delete m k x :
  m !! k = Some x → map_sum f m = f x + map_sum f (delete k m).
Proof.
  intros Hk. rewrite <- (map_sum_insert_new _ k); [|apply lookup_delete_eq].
  by rewrite insert_delete_id.
Qed.

Lemma map_sum_insert m k x y :
  m !! k = Some x → map_sum f (<[k := y]> m) + f x = map_sum f m + f y.
Proof.
  intros Hk. rewrite (map_sum_delete m k x Hk).
  rewrite <- insert_delete_eq, map_sum_insert_new; [lia|apply lookup_delete_eq].
Qed.

Lemma map_sum_lookup_le m k x : m !! k = Some x → f x ≤ map_sum f m.
Proof. intros Hk. rewrite (map_sum_delete m k x Hk). lia. Qed.
End map_sum.

Lemma map_sum_fmap `{Countable K} {A B} (f : B → nat) (g : A → B) (m : gmap K A) :
  map_sum f (g <$> m) = map_sum (f ∘ g) m.
Proof.
  induction m as [|k x m Hk IH] using map_ind; [done|].
  rewrite fmap_insert, !map_sum_insert_new; [by rewrite IH|done|].
  by rewrite lookup_fmap, Hk.
Qed.

(** Case analysis on the conditions of the source. *)
Ltac case_bool :=
  match goal with
  | |- context [if ?b then _ else _] => destruct b eqn:?
  | H : context [if ?b then _ else _] |- _ => destruct b eqn:?
  end.

(** The same on the goal, naming the equation. *)
Tactic Notation "case_if" ident(H) :=
  match goal with |- context [if ?b then _ else _] => destruct b eqn:H end.

(** Simplify monadic hypotheses of the form [(m ≫= f) = Ret b]. *)
Ltac outcome_inv :=
  repeat match goal with
  | H : (_ ≫= _) = Ret _ |- _ => apply bind_Ret_inv in H as (? & ? & ?)
  | H : Ret _ = Ret _ |- _ => injection H as H; subst
  end.

(** ** Vectors *)

(** [Vec::pop]: removes and returns the last element. *)
Definition vec_pop {A} (l : list A) : option (list A * A) :=
  match last l with
  | Some x => Some (take (length l - 1) l, x)
  | None => None
  end.

(** [Vec::swap_remove]: the last element takes the place of the removed one. *)
Definition swap_remove {A} (i : nat) (l : list A) : list A :=
  match last l with
  | Some x => take (length l - 1) (<[i := x]> l)
  | None => l
  end.

(** [iter().position(|y| y == x)]. *)
Definition position `{EqDecision A} (x : A) (l : list A) : option nat :=
  fst <$> list_find (x =.) l.

Lemma vec_pop_snoc {A} (l : list A) x : vec_pop (l ++ [x]) = Some (l, x).
Proof.
  unfold vec_pop. rewrite last_snoc, length_app; simpl.
  rewrite Nat.add_sub, take_app_length. done.
Qed.

Lemma vec_pop_nil {A} : vec_pop (@nil A) = None.
Proof. done. Qed.

Lemma position_None `{EqDecision A} (x : A) l : x ∉ l → position x l = None.
Proof.
  intros Hx. unfold position. rewrite (proj2 (list_find_None _ _)); [done|].
  apply Forall_forall. intros y Hy ->. done.
Qed.

Lemma length_swap_remove {A} i (l : list A) : length (swap_remove i l) ≤ length l.
Proof.
  unfold swap_remove. destruct (last l); [|done].
  rewrite length_take, length_insert. lia.
Qed.

Lemma swap_remove_perm {A} (v : list A) i y :
  v !! i = Some y → y :: swap_remove i v ≡ₚ v.
Proof.
  intros Hy. pose proof (lookup_lt_Some _ _ _ Hy) as Hlt. unfold swap_remove.
  destruct (last v) as [x|] eqn:El; [|by apply last_None in El; subst].
  apply last_Some in El as [v' ->]. rewrite length_app in *; simpl in *.
  rewrite Nat.add_sub. destruct (decide (i = length v')) as [->|Hne].
  - rewrite list_lookup_middle in Hy by done. injection Hy as ->.
    rewrite insert_app_r_alt, Nat.sub_diag by lia. simpl. rewrite take_app_length.
    apply Permutation_cons_append.
  - rewrite lookup_app_l in Hy by lia. rewrite insert_app_l by lia.
    rewrite take_app_le by (rewrite length_insert; lia).
    rewrite take_ge by (rewrite length_insert; lia).
    rewrite insert_take_drop by lia. pose proof (take_drop_middle v' i y Hy) as Hv.
    trans ((take i v' ++ y :: drop (S i) v') ++ [x]); [solve_Permutation|by rewrite Hv].
Qed.

Lemma swap_remove_subseteq {A} i (l : list A) : swap_remove i l ⊆ l.
Proof.
  unfold swap_remove. destruct (last l) as [x|] eqn:Hx; [|done].
  intros y Hy%elem_of_take. destruct Hy as (j & Hj & _).
  destruct (decide (i = j)) as [->|Hne].
  - destruct (decide (j < length l)).
    + rewrite list_lookup_insert_eq in Hj by done. simplify_eq. by apply last_Some_elem_of.
    + rewrite list_insert_ge in Hj by lia. by eapply list_elem_of_lookup_2.
  - rewrite list_lookup_insert_ne in Hj by done. by eapply list_elem_of_lookup_2.
Qed.

Lemma subseteq_take {A} n (l : list A) : take n l ⊆ l.
Proof. intros x (i & Hi & _)%elem_of_take. by eapply list_elem_of_lookup_2. Qed.

Lemma NoDup_take_drop {A} n (l : list A) x : NoDup l → x ∈ take n l → x ∈ drop n l → False.
Proof.
  intros Hnd. rewrite <- (take_drop n l) in Hnd.
  apply NoDup_app in Hnd as (_ & Hnd & _). apply Hnd.
Qed.

(** ** Automation

    [eauto with anvil] discharges membership in parts of lists, the width of
    the results of machine operations and the freshness of singletons;
    [autorewrite with anvil] runs a program whose first operations returned. *)

Create HintDb anvil.

Lemma elem_of_take_in {A} n (l : list A) x : x ∈ take n l → x ∈ l.
Proof. apply subseteq_take. Qed.
Lemma elem_of_drop_in {A} n (l : list A) x : x ∈ drop n l → x ∈ l.
Proof. apply subseteq_drop. Qed.
Lemma elem_of_app_l {A} (l k : list A) x : x ∈ l → x ∈ l ++ k.
Proof. rewrite elem_of_app. auto. Qed.
Lemma elem_of_app_r {A} (l k : list A) x : x ∈ k → x ∈ l ++ k.
Proof. rewrite elem_of_app. auto. Qed.

#[export] Hint Resolve elem_of_take_in elem_of_drop_in elem_of_app_l elem_of_app_r
  NoDup_singleton list_elem_of_fmap_2 : anvil.
#[export] Hint Resolve wrap_is_u saturating_add_is_u saturating_sub_is_u : anvil.
#[export] Hint Rewrite @bind_Ret : anvil.
