(* ===== verification/Containers.v ===== *)
(** * Containers of the Rust standard library used by the node

    [BTreeSet] as a strictly sorted list over a comparison ([Ord] of the
    source, which need not be Leibniz equality), and the unspecified iteration
    order of [HashMap]/[HashSet] as a class the theorems quantify over. *)

From stdpp Require Import prelude gmap list sorting.
From S2P Require Import Prelude.

(** ** [Ord] *)

(** [Ord::cmp] with the laws the documentation of [Ord] requires. *)
Class RustOrd (A : Type) := {
  ord_cmp : A → A → comparison;
  ord_refl : ∀ x, ord_cmp x x = Eq;
  ord_opp : ∀ x y, ord_cmp y x = CompOpp (ord_cmp x y);
  ord_lt_trans : ∀ x y z, ord_cmp x y = Lt → ord_cmp y z = Lt → ord_cmp x z = Lt;
  ord_eq_lt : ∀ x y z, ord_cmp x y = Eq → ord_cmp x z = ord_cmp y z
}.

(** Deleting a list of keys from a map. *)
Lemma foldl_delete_lookup `{Countable K} {A} (m : gmap K A) (l : list K) i :
  foldl (λ m i, delete i m) m l !! i = if decide (i ∈ l) then None else m !! i.
Proof.
  revert m. induction l as [|j l IH]; intros m; simpl; [done|].
  rewrite IH, lookup_delete. repeat case_decide; set_solver.
Qed.

(** Positions in a sorted list. *)
Lemma sorted_lookup {A} (R : A → A → Prop) l i j x y :
  StronglySorted R l → i < j → l !! i = Some x → l !! j = Some y → R x y.
Proof.
  intros Hs. revert i j. induction Hs as [|z l Hs IH Hall]; intros i j Hij Hi Hj; [by destruct i|].
  destruct j as [|j]; [lia|]. destruct i as [|i]; simpl in *; [|by eapply (IH i j); [lia|..]].
  simplify_eq. rewrite Forall_forall in Hall. by eapply Hall, list_elem_of_lookup_2.
Qed.

Section btree.
Context `{RustOrd A}.
Implicit Types (x y : A) (l : list A).

Definition ord_lt x y : Prop := ord_cmp x y = Lt.
Definition ord_equal x y : Prop := ord_cmp x y = Eq.

(** [BTreeSet::insert]: an element that compares equal is kept. *)
Fixpoint bt_insert x l : list A :=
  match l with
  | [] => [x]
  | y :: l' =>
      match ord_cmp x y with
      | Lt => x :: l
      | Eq => l
      | Gt => y :: bt_insert x l'
      end
  end.

(** [BTreeSet::remove] (and [take]): removes the element that compares equal. *)
Fixpoint bt_remove x l : list A :=
  match l with
  | [] => []
  | y :: l' =>
      match ord_cmp x y with
      | Eq => l'
      | _ => y :: bt_remove x l'
      end
  end.

(** [BTreeSet::iter().next_back()]: the greatest element. *)
Definition bt_last l : option A := last l.

Definition bt_sorted l : Prop := StronglySorted ord_lt l.

Lemma ord_equal_sym x y : ord_equal x y → ord_equal y x.
Proof. unfold ord_equal. intros E. by rewrite ord_opp, E. Qed.

Lemma ord_eq_r x y z : ord_equal x y → ord_cmp z x = ord_cmp z y.
Proof.
  intros E. rewrite (ord_opp x z), (ord_opp y z). f_equal. by apply ord_eq_lt.
Qed.

Lemma ord_lt_irrefl x : ¬ ord_lt x x.
Proof. unfold ord_lt. by rewrite ord_refl. Qed.

Lemma bt_insert_elem_of x y l : y ∈ bt_insert x l → y = x ∨ y ∈ l.
Proof.
  induction l as [|z l IH]; simpl; [set_solver|].
  destruct (ord_cmp x z); set_solver.
Qed.

Lemma bt_insert_subset x y l : y ∈ l → y ∈ bt_insert x l.
Proof.
  induction l as [|z l IH]; simpl; [set_solver|].
  destruct (ord_cmp x z); set_solver.
Qed.

(** After an insertion the set holds an element that compares equal. *)
Lemma bt_insert_equal x l : ∃ y, y ∈ bt_insert x l ∧ ord_equal x y.
Proof.
  induction l as [|z l IH]; simpl.
  - exists x. split; [set_solver|apply ord_refl].
  - destruct (ord_cmp x z) eqn:E.
    + exists z. split; [set_solver|done].
    + exists x. split; [set_solver|apply ord_refl].
    + destruct IH as (y & Hy & Hxy). exists y. split; [set_solver|done].
Qed.

Lemma bt_remove_elem_of x y l : y ∈ bt_remove x l → y ∈ l.
Proof.
  induction l as [|z l IH]; simpl; [done|].
  destruct (ord_cmp x z); set_solver.
Qed.

Lemma bt_remove_keep x y l : y ∈ l → ¬ ord_equal x y → y ∈ bt_remove x l.
Proof.
  unfold ord_equal.
  induction l as [|z l IH]; simpl; [done|].
  intros [->|Hy]%elem_of_cons Hne; destruct (ord_cmp x z) eqn:E; set_solver.
Qed.

Lemma bt_insert_sorted x l : bt_sorted l → bt_sorted (bt_insert x l).
Proof.
  unfold bt_sorted. induction 1 as [|y l Hs IH Hall]; simpl.
  - repeat constructor.
  - destruct (ord_cmp x y) eqn:E.
    + by constructor.
    + constructor; [by constructor|]. constructor; [done|].
      eapply Forall_impl; [exact Hall|]. intros z. by apply ord_lt_trans.
    + constructor; [done|]. apply Forall_forall. intros z Hz.
      apply bt_insert_elem_of in Hz as [->|Hz].
      * unfold ord_lt. by rewrite ord_opp, E.
      * rewrite Forall_forall in Hall. by apply Hall.
Qed.

Lemma bt_remove_sorted x l : bt_sorted l → bt_sorted (bt_remove x l).
Proof.
  unfold bt_sorted. induction 1 as [|y l Hs IH Hall]; simpl; [constructor|].
  assert (Forall (ord_lt y) (bt_remove x l)).
  { rewrite Forall_forall in Hall |- *. intros z Hz.
    apply Hall. by eapply bt_remove_elem_of. }
  destruct (ord_cmp x y); [done|by constructor..].
Qed.

(** A removed element is gone, up to the comparison. *)
Lemma bt_remove_gone x y l : bt_sorted l → y ∈ bt_remove x l → ¬ ord_equal x y.
Proof.
  unfold bt_sorted. induction 1 as [|z l Hs IH Hall]; simpl; [set_solver|].
  rewrite Forall_forall in Hall.
  destruct (ord_cmp x z) eqn:E; intros Hy Hxy.
  - apply Hall in Hy. unfold ord_lt in Hy.
    rewrite <- (ord_eq_lt x z y E) in Hy. unfold ord_equal in Hxy. congruence.
  - apply elem_of_cons in Hy as [->|Hy]; [unfold ord_equal in Hxy; congruence|].
    by apply IH.
  - apply elem_of_cons in Hy as [->|Hy]; [unfold ord_equal in Hxy; congruence|].
    by apply IH.
Qed.

Lemma bt_last_greatest x y l :
  bt_sorted l → bt_last l = Some x → y ∈ l → y = x ∨ ord_lt y x.
Proof.
  unfold bt_sorted, bt_last. induction 1 as [|z l Hs IH Hall]; [done|].
  destruct l as [|w l]; simpl in *.
  - intros [= ->]. set_solver.
  - intros Hlast [->|Hy]%elem_of_cons; [|by apply IH].
    right. rewrite Forall_forall in Hall. apply Hall.
    by apply last_Some_elem_of.
Qed.
End btree.

(** ** Iteration order of hash tables

    [HashMap] and [HashSet] iterate in an unspecified order.  [set_iter] is
    that order; only that it enumerates the set is known. *)

Class HashOrder (K : Type) `{Countable K} := {
  set_iter : gset K → list K;
  set_iter_perm : ∀ X, set_iter X ≡ₚ elements X
}.

(** The keys of a map and its values in iteration order. *)
Definition map_iter `{HashOrder K} {A} (m : gmap K A) : list A :=
  omap (λ k, m !! k) (set_iter (dom m)).

(** The order used to run the model on concrete inputs. *)
#[export] Instance elements_order (K : Type) `{Countable K} : HashOrder K | 100 := {|
  set_iter := elements;
  set_iter_perm X := reflexivity _
|}.

Section hash_order.
Context `{HashOrder K}.

Lemma set_iter_elem_of (X : gset K) k : k ∈ set_iter X ↔ k ∈ X.
Proof. by rewrite set_iter_perm, elem_of_elements. Qed.

Lemma set_iter_NoDup (X : gset K) : NoDup (set_iter X).
Proof. rewrite set_iter_perm. apply NoDup_elements. Qed.

Lemma map_iter_elem_of {A} (m : gmap K A) x :
  x ∈ map_iter m ↔ ∃ k, m !! k = Some x.
Proof.
  unfold map_iter. rewrite list_elem_of_omap. setoid_rewrite set_iter_elem_of.
  setoid_rewrite elem_of_dom. naive_solver.
Qed.

(** The values of a map in which no value is bound twice. *)
Lemma map_iter_NoDup {A} (m : gmap K A) :
  (∀ k1 k2 x, m !! k1 = Some x → m !! k2 = Some x → k1 = k2) → NoDup (map_iter m).
Proof.
  intros Hinj. unfold map_iter. induction (set_iter_NoDup (dom m)) as [|k l Hk _ IH]; simpl.
  - constructor.
  - destruct (m !! k) as [x|] eqn:E; [|done]. constructor; [|done].
    intros (k' & Hk' & E')%list_elem_of_omap. by rewrite (Hinj _ _ _ E E') in Hk.
Qed.
End hash_order.

(** The entries of a map in iteration order. *)
Definition map_pairs `{HashOrder K} {A} (m : gmap K A) : list (K * A) :=
  omap (λ k, (k,.) <$> m !! k) (set_iter (dom m)).

Section map_pairs.
Context `{HashOrder K} {A : Type}.
Implicit Types m : gmap K A.

Lemma map_pairs_elem m k x : (k, x) ∈ map_pairs m ↔ m !! k = Some x.
Proof.
  unfold map_pairs. rewrite list_elem_of_omap. setoid_rewrite set_iter_elem_of.
  setoid_rewrite elem_of_dom. split.
  - intros (k' & _ & E). destruct (m !! k') eqn:E'; simplify_eq/=. done.
  - intros E. exists k. rewrite E. eauto.
Qed.

Lemma map_pairs_NoDup m : NoDup (map_pairs m).*1.
Proof.
  unfold map_pairs. induction (set_iter_NoDup (dom m)) as [|k l Hk _ IH]; simpl; [constructor|].
  destruct (m !! k) as [x|] eqn:E; simpl; [|done]. constructor; [|done].
  intros ([k' x'] & -> & Hin)%list_elem_of_fmap. apply Hk. simpl.
  apply list_elem_of_omap in Hin as (k2 & ? & E2). by destruct (m !! k2); simplify_eq/=.
Qed.

Lemma map_pairs_list_to_map m : list_to_map (map_pairs m) = m.
Proof.
  apply map_eq. intros k. destruct (m !! k) as [x|] eqn:E.
  - apply elem_of_list_to_map; [apply map_pairs_NoDup|by apply map_pairs_elem].
  - apply not_elem_of_list_to_map. intros ([k' x] & -> & Hin)%list_elem_of_fmap.
    apply map_pairs_elem in Hin. naive_solver.
Qed.
Lemma map_pairs_perm m : map_pairs m ≡ₚ map_to_list m.
Proof. by rewrite <-(map_to_list_to_map _ (map_pairs_NoDup m)), map_pairs_list_to_map. Qed.

Lemma map_iter_pairs m : map_iter m = (map_pairs m).*2.
Proof.
  unfold map_iter, map_pairs. induction (set_iter (dom m)) as [|k l IH]; simpl; [done|].
  destruct (m !! k) eqn:E; simpl; [f_equal|]; exact IH.
Qed.

Lemma map_iter_empty : map_iter (∅ : gmap K A) = [].
Proof.
  unfold map_iter. pose proof (set_iter_perm (dom (∅ : gmap K A))) as Hp.
  rewrite dom_empty_L, elements_empty in Hp. apply Permutation_nil_r in Hp.
  by rewrite dom_empty_L, Hp.
Qed.

(** The values of a map, the one of a key first. *)
Lemma map_iter_split m k x :
  m !! k = Some x → map_iter m ≡ₚ x :: map_iter (delete k m).
Proof.
  intros E. rewrite !map_iter_pairs, !map_pairs_perm, <-(map_to_list_delete m k x E). done.
Qed.

Lemma map_iter_insert m k x : map_iter (<[k:=x]> m) ≡ₚ x :: map_iter (delete k m).
Proof. rewrite (map_iter_split _ k x) by apply lookup_insert_eq. by rewrite delete_insert_eq. Qed.
End map_pairs.

(** Removing the greatest element of a sorted set removes the last one. *)
Lemma bt_remove_last `{RustOrd A} (x : A) l :
  bt_sorted (l ++ [x]) → bt_remove x (l ++ [x]) = l.
Proof.
  unfold bt_sorted. induction l as [|y l IH]; simpl.
  - intros _. by rewrite ord_refl.
  - intros Hs. inversion Hs as [|? ? Hs' Hall]; subst. rewrite Forall_forall in Hall.
    assert (ord_cmp x y = Gt) as ->.
    { rewrite ord_opp. by rewrite (Hall x ltac:(set_solver) : ord_cmp y x = Lt). }
    by rewrite IH.
Qed.

Lemma bt_insert_sum `{RustOrd A} (w : A → nat) (x : A) l :
  sum_list_with w (bt_insert x l) ≤ w x + sum_list_with w l.
Proof.
  induction l as [|y l IH]; simpl; [lia|].
  destruct (ord_cmp x y); simpl; lia.
Qed.
