(* ===== verification/Transaction.v ===== *)
(** * Typed transactions (crates/anvil/core/src/eth/transaction/mod.rs)

    The transaction types Anvil stores and executes: [TypedTransaction] with
    its accessors, the impersonation wrapper, [PendingTransaction], the
    conversion to the EVM's transaction environment and the classification of
    RPC requests.  The payload types ([TxLegacy], ...) are the records of
    alloy-consensus with the fields the source reads. *)

From stdpp Require Import prelude.
From S2P Require Import Prelude.

Open Scope Z_scope.

(** ** Primitive types of alloy-primitives *)

Abbreviation Address := Z.   (* 160 bits *)
Abbreviation B256 := Z.      (* 256 bits *)
Abbreviation TxHash := Z.
Abbreviation Bytes := (list Z).

Inductive TxKind : Type :=
| Create
| Call (to : Address).

Definition kind_to (k : TxKind) : option Address :=
  match k with Call a => Some a | Create => None end.

(** [AccessList] and the signed authorization list are only carried around. *)
Abbreviation AccessList := (list (Address * list B256)).
Abbreviation AuthorizationList := (list Bytes).
Abbreviation BlobSidecar := (list Bytes).

(** ** Payloads *)

Record TxLegacy := {
  leg_chain_id : option Z;
  leg_nonce : Z;
  leg_gas_price : Z;
  leg_gas_limit : Z;
  leg_to : TxKind;
  leg_value : Z;
  leg_input : Bytes
}.

Record TxEip2930 := {
  e2930_chain_id : Z;
  e2930_nonce : Z;
  e2930_gas_price : Z;
  e2930_gas_limit : Z;
  e2930_to : TxKind;
  e2930_value : Z;
  e2930_access_list : AccessList;
  e2930_input : Bytes
}.

Record TxEip1559 := {
  e1559_chain_id : Z;
  e1559_nonce : Z;
  e1559_gas_limit : Z;
  e1559_max_fee_per_gas : Z;
  e1559_max_priority_fee_per_gas : Z;
  e1559_to : TxKind;
  e1559_value : Z;
  e1559_access_list : AccessList;
  e1559_input : Bytes
}.

Record TxEip4844 := {
  e4844_chain_id : Z;
  e4844_nonce : Z;
  e4844_gas_limit : Z;
  e4844_max_fee_per_gas : Z;
  e4844_max_priority_fee_per_gas : Z;
  e4844_to : Address;
  e4844_value : Z;
  e4844_access_list : AccessList;
  e4844_blob_versioned_hashes : list B256;
  e4844_max_fee_per_blob_gas : Z;
  e4844_input : Bytes
}.

Inductive TxEip4844Variant : Type :=
| TxEip4844Plain (tx : TxEip4844)
| TxEip4844WithSidecar (tx : TxEip4844) (sidecar : BlobSidecar).

(** [TxEip4844Variant::tx()]. *)
Definition variant_tx (v : TxEip4844Variant) : TxEip4844 :=
  match v with TxEip4844Plain tx => tx | TxEip4844WithSidecar tx _ => tx end.

Record TxEip7702 := {
  e7702_chain_id : Z;
  e7702_nonce : Z;
  e7702_gas_limit : Z;
  e7702_max_fee_per_gas : Z;
  e7702_max_priority_fee_per_gas : Z;
  e7702_to : Address;
  e7702_value : Z;
  e7702_access_list : AccessList;
  e7702_authorization_list : AuthorizationList;
  e7702_input : Bytes
}.

Record TxDeposit := {
  dep_source_hash : B256;
  dep_from : Address;
  dep_to : TxKind;
  dep_mint : Z;
  dep_value : Z;
  dep_gas_limit : Z;
  dep_is_system_transaction : bool;
  dep_input : Bytes
}.

(** [Signature] as its two scalars and the parity; [Signed<T>] pairs a payload
    with its signature and its hash. *)
Record Signature := { sig_r : B256; sig_s : B256; sig_parity : bool }.

Record Signed (T : Type) := {
  signed_tx : T;
  signed_signature : Signature;
  signed_hash : B256
}.
Arguments signed_tx {T} _.
Arguments signed_signature {T} _.
Arguments signed_hash {T} _.

(** ** [TypedTransaction] *)

Inductive TypedTransaction : Type :=
| Legacy (t : Signed TxLegacy)
| EIP2930 (t : Signed TxEip2930)
| EIP1559 (t : Signed TxEip1559)
| EIP4844 (t : Signed TxEip4844Variant)
| EIP7702 (t : Signed TxEip7702)
| Deposit (t : TxDeposit).

(** Code of alloy and op-alloy the source calls: signature recovery, hashing
    and encoding, the blob gas of a payload, a deposit's hash and chain id. *)
Class TxExternals := {
  recover_signer : ∀ T : Type, Signed T → result Address unit;
  keccak256 : Bytes → B256;
  encode_2718 : TypedTransaction → Bytes;
  rlp_string_header : Z → Bytes;
  tx4844_blob_gas : TxEip4844 → Z;
  deposit_tx_hash : TxDeposit → B256;
  deposit_chain_id : TxDeposit → option Z
}.

Record TransactionEssentials := {
  ess_kind : TxKind;
  ess_input : Bytes;
  ess_nonce : Z;
  ess_gas_limit : Z;
  ess_gas_price : option Z;
  ess_max_fee_per_gas : option Z;
  ess_max_priority_fee_per_gas : option Z;
  ess_max_fee_per_blob_gas : option Z;
  ess_blob_versioned_hashes : option (list B256);
  ess_value : Z;
  ess_chain_id : option Z;
  ess_access_list : AccessList
}.

Section typed_transaction.
Context `{TxExternals}.
Implicit Types tx : TypedTransaction.

Definition is_dynamic_fee tx : bool :=
  match tx with EIP1559 _ | EIP4844 _ | EIP7702 _ => true | _ => false end.

Definition gas_price tx : Z :=
  match tx with
  | Legacy t => leg_gas_price (signed_tx t)
  | EIP2930 t => e2930_gas_price (signed_tx t)
  | EIP1559 t => e1559_max_fee_per_gas (signed_tx t)
  | EIP4844 t => e4844_max_fee_per_gas (variant_tx (signed_tx t))
  | EIP7702 t => e7702_max_fee_per_gas (signed_tx t)
  | Deposit _ => 0
  end.

Definition gas_limit tx : Z :=
  match tx with
  | Legacy t => leg_gas_limit (signed_tx t)
  | EIP2930 t => e2930_gas_limit (signed_tx t)
  | EIP1559 t => e1559_gas_limit (signed_tx t)
  | EIP4844 t => e4844_gas_limit (variant_tx (signed_tx t))
  | EIP7702 t => e7702_gas_limit (signed_tx t)
  | Deposit t => dep_gas_limit t
  end.

Definition value tx : Z :=
  match tx with
  | Legacy t => leg_value (signed_tx t)
  | EIP2930 t => e2930_value (signed_tx t)
  | EIP1559 t => e1559_value (signed_tx t)
  | EIP4844 t => e4844_value (variant_tx (signed_tx t))
  | EIP7702 t => e7702_value (signed_tx t)
  | Deposit t => dep_value t
  end.

Definition data tx : Bytes :=
  match tx with
  | Legacy t => leg_input (signed_tx t)
  | EIP2930 t => e2930_input (signed_tx t)
  | EIP1559 t => e1559_input (signed_tx t)
  | EIP4844 t => e4844_input (variant_tx (signed_tx t))
  | EIP7702 t => e7702_input (signed_tx t)
  | Deposit t => dep_input t
  end.

(** [r#type]: [None] for legacy transactions. *)
Definition type_ tx : option Z :=
  match tx with
  | Legacy _ => None
  | EIP2930 _ => Some 1
  | EIP1559 _ => Some 2
  | EIP4844 _ => Some 3
  | EIP7702 _ => Some 4
  | Deposit _ => Some 0x7E
  end.

Definition blob_gas tx : option Z :=
  match tx with
  | EIP4844 t => Some (tx4844_blob_gas (variant_tx (signed_tx t)))
  | _ => None
  end.

Definition sidecar tx : option BlobSidecar :=
  match tx with
  | EIP4844 t =>
      match signed_tx t with
      | TxEip4844WithSidecar _ s => Some s
      | TxEip4844Plain _ => None
      end
  | _ => None
  end.

Definition max_fee_per_blob_gas tx : option Z :=
  match tx with
  | EIP4844 t => Some (e4844_max_fee_per_blob_gas (variant_tx (signed_tx t)))
  | _ => None
  end.

Definition is_legacy tx : bool := match tx with Legacy _ => true | _ => false end.
Definition is_eip1559 tx : bool := match tx with EIP1559 _ => true | _ => false end.
Definition is_eip2930 tx : bool := match tx with EIP2930 _ => true | _ => false end.
Definition is_eip4844 tx : bool := match tx with EIP4844 _ => true | _ => false end.
Definition is_eip7702 tx : bool := match tx with EIP7702 _ => true | _ => false end.

Definition as_legacy tx : option (Signed TxLegacy) :=
  match tx with Legacy t => Some t | _ => None end.

(** Max cost of the transaction: the gas cost saturates, the blob cost is a
    plain [u128] multiplication, their sum saturates. *)
Definition max_cost tx : Z :=
  let max_cost := gas_limit tx *s[128] gas_price tx in
  if is_eip4844 tx then
    max_cost +s[128]
      (default 0 (blob_gas tx) *w[128] default 0 (max_fee_per_blob_gas tx))
  else max_cost.

Definition essentials tx : TransactionEssentials :=
  match tx with
  | Legacy t =>
      let p := signed_tx t in
      {| ess_kind := leg_to p; ess_input := leg_input p; ess_nonce := leg_nonce p;
         ess_gas_limit := leg_gas_limit p; ess_gas_price := Some (leg_gas_price p);
         ess_max_fee_per_gas := None; ess_max_priority_fee_per_gas := None;
         ess_max_fee_per_blob_gas := None; ess_blob_versioned_hashes := None;
         ess_value := leg_value p; ess_chain_id := leg_chain_id p;
         ess_access_list := [] |}
  | EIP2930 t =>
      let p := signed_tx t in
      {| ess_kind := e2930_to p; ess_input := e2930_input p; ess_nonce := e2930_nonce p;
         ess_gas_limit := e2930_gas_limit p; ess_gas_price := Some (e2930_gas_price p);
         ess_max_fee_per_gas := None; ess_max_priority_fee_per_gas := None;
         ess_max_fee_per_blob_gas := None; ess_blob_versioned_hashes := None;
         ess_value := e2930_value p; ess_chain_id := Some (e2930_chain_id p);
         ess_access_list := e2930_access_list p |}
  | EIP1559 t =>
      let p := signed_tx t in
      {| ess_kind := e1559_to p; ess_input := e1559_input p; ess_nonce := e1559_nonce p;
         ess_gas_limit := e1559_gas_limit p; ess_gas_price := None;
         ess_max_fee_per_gas := Some (e1559_max_fee_per_gas p);
         ess_max_priority_fee_per_gas := Some (e1559_max_priority_fee_per_gas p);
         ess_max_fee_per_blob_gas := None; ess_blob_versioned_hashes := None;
         ess_value := e1559_value p; ess_chain_id := Some (e1559_chain_id p);
         ess_access_list := e1559_access_list p |}
  | EIP4844 t =>
      let p := variant_tx (signed_tx t) in
      {| ess_kind := Call (e4844_to p); ess_input := e4844_input p;
         ess_nonce := e4844_nonce p;
         ess_gas_limit := e4844_gas_limit p; ess_gas_price := None;
         ess_max_fee_per_gas := Some (e4844_max_fee_per_gas p);
         ess_max_priority_fee_per_gas := Some (e4844_max_priority_fee_per_gas p);
         ess_max_fee_per_blob_gas := Some (e4844_max_fee_per_blob_gas p);
         ess_blob_versioned_hashes := Some (e4844_blob_versioned_hashes p);
         ess_value := e4844_value p; ess_chain_id := Some (e4844_chain_id p);
         ess_access_list := e4844_access_list p |}
  | EIP7702 t =>
      let p := signed_tx t in
      {| ess_kind := Call (e7702_to p); ess_input := e7702_input p;
         ess_nonce := e7702_nonce p;
         ess_gas_limit := e7702_gas_limit p; ess_gas_price := None;
         ess_max_fee_per_gas := Some (e7702_max_fee_per_gas p);
         ess_max_priority_fee_per_gas := Some (e7702_max_priority_fee_per_gas p);
         ess_max_fee_per_blob_gas := None; ess_blob_versioned_hashes := None;
         ess_value := e7702_value p; ess_chain_id := Some (e7702_chain_id p);
         ess_access_list := e7702_access_list p |}
  | Deposit p =>
      {| ess_kind := dep_to p; ess_input := dep_input p; ess_nonce := 0;
         ess_gas_limit := dep_gas_limit p; ess_gas_price := Some 0;
         ess_max_fee_per_gas := None; ess_max_priority_fee_per_gas := None;
         ess_max_fee_per_blob_gas := None; ess_blob_versioned_hashes := None;
         ess_value := dep_value p; ess_chain_id := deposit_chain_id p;
         ess_access_list := [] |}
  end.

Definition nonce tx : Z :=
  match tx with
  | Legacy t => leg_nonce (signed_tx t)
  | EIP2930 t => e2930_nonce (signed_tx t)
  | EIP1559 t => e1559_nonce (signed_tx t)
  | EIP4844 t => e4844_nonce (variant_tx (signed_tx t))
  | EIP7702 t => e7702_nonce (signed_tx t)
  | Deposit _ => 0
  end.

Definition chain_id tx : option Z :=
  match tx with
  | Legacy t => leg_chain_id (signed_tx t)
  | EIP2930 t => Some (e2930_chain_id (signed_tx t))
  | EIP1559 t => Some (e1559_chain_id (signed_tx t))
  | EIP4844 t => Some (e4844_chain_id (variant_tx (signed_tx t)))
  | EIP7702 t => Some (e7702_chain_id (signed_tx t))
  | Deposit t => deposit_chain_id t
  end.

Definition hash tx : B256 :=
  match tx with
  | Legacy t => signed_hash t
  | EIP2930 t => signed_hash t
  | EIP1559 t => signed_hash t
  | EIP4844 t => signed_hash t
  | EIP7702 t => signed_hash t
  | Deposit t => deposit_tx_hash t
  end.

(** [Encodable::encode]: typed transactions get an RLP string header. *)
Definition encode tx : Bytes :=
  (if is_legacy tx then [] else rlp_string_header (Z.of_nat (length (encode_2718 tx))))
    ++ encode_2718 tx.

(** The hash of an impersonated transaction: the sender is appended to the
    encoding before hashing. *)
Definition impersonated_hash tx (sender : Address) : B256 :=
  keccak256 (encode tx ++ be_bytes 20 sender).

Definition recover tx : result Address unit :=
  match tx with
  | Legacy t => recover_signer _ t
  | EIP2930 t => recover_signer _ t
  | EIP1559 t => recover_signer _ t
  | EIP4844 t => recover_signer _ t
  | EIP7702 t => recover_signer _ t
  | Deposit t => Ok (dep_from t)
  end.

Definition kind tx : TxKind :=
  match tx with
  | Legacy t => leg_to (signed_tx t)
  | EIP2930 t => e2930_to (signed_tx t)
  | EIP1559 t => e1559_to (signed_tx t)
  | EIP4844 t => Call (e4844_to (variant_tx (signed_tx t)))
  | EIP7702 t => Call (e7702_to (signed_tx t))
  | Deposit t => dep_to t
  end.

Definition to tx : option Address := kind_to (kind tx).

Definition signature tx : Signature :=
  match tx with
  | Legacy t => signed_signature t
  | EIP2930 t => signed_signature t
  | EIP1559 t => signed_signature t
  | EIP4844 t => signed_signature t
  | EIP7702 t => signed_signature t
  | Deposit _ => {| sig_r := 1; sig_s := 1; sig_parity := false |}
  end.
End typed_transaction.

(** ** Impersonation and pending transactions *)

Record MaybeImpersonatedTransaction := {
  mit_transaction : TypedTransaction;
  mit_impersonated_sender : option Address
}.

(** A queued transaction with its recovered sender and its hash. *)
Record PendingTransaction := {
  pt_transaction : MaybeImpersonatedTransaction;
  pt_sender : Address;
  pt_hash : TxHash
}.

Section pending_transaction.
Context `{TxExternals}.

Definition mit_new (t : TypedTransaction) : MaybeImpersonatedTransaction :=
  {| mit_transaction := t; mit_impersonated_sender := None |}.

Definition mit_impersonated (t : TypedTransaction) (sender : Address) :=
  {| mit_transaction := t; mit_impersonated_sender := Some sender |}.

Definition mit_recover (m : MaybeImpersonatedTransaction) : result Address unit :=
  match mit_impersonated_sender m with
  | Some sender => Ok sender
  | None => recover (mit_transaction m)
  end.

Definition mit_is_impersonated (m : MaybeImpersonatedTransaction) : bool :=
  match mit_impersonated_sender m with Some _ => true | None => false end.

Definition mit_hash (m : MaybeImpersonatedTransaction) : B256 :=
  match mit_impersonated_sender m with
  | Some sender => impersonated_hash (mit_transaction m) sender
  | None => hash (mit_transaction m)
  end.

Definition pending_new (t : TypedTransaction) : result PendingTransaction unit :=
  match recover t with
  | Ok sender =>
      Ok {| pt_transaction := mit_new t; pt_sender := sender; pt_hash := hash t |}
  | Err e => Err e
  end.

Definition pending_with_impersonated (t : TypedTransaction) (sender : Address)
    : PendingTransaction :=
  {| pt_transaction := mit_impersonated t sender;
     pt_sender := sender;
     pt_hash := impersonated_hash t sender |}.

Definition pending_from_maybe_impersonated (m : MaybeImpersonatedTransaction)
    : result PendingTransaction unit :=
  match mit_impersonated_sender m with
  | Some sender => Ok (pending_with_impersonated (mit_transaction m) sender)
  | None => pending_new (mit_transaction m)
  end.

Definition pt_nonce (p : PendingTransaction) : Z :=
  nonce (mit_transaction (pt_transaction p)).
End pending_transaction.

(** ** The EVM transaction environment

    [TxEnv] of revm with the fields the conversion sets; a field a branch does
    not set has the value of [TxEnv::default()], which is a parameter. *)

Record TxEnv := {
  env_tx_type : Z;
  env_caller : Address;
  env_gas_limit : Z;
  env_gas_price : Z;
  env_kind : TxKind;
  env_value : Z;
  env_data : Bytes;
  env_nonce : Z;
  env_chain_id : option Z;
  env_access_list : AccessList;
  env_gas_priority_fee : option Z;
  env_blob_hashes : list B256;
  env_max_fee_per_blob_gas : Z;
  env_authorization_list : AuthorizationList
}.

Record DepositTransactionParts := {
  dtp_source_hash : B256;
  dtp_mint : option Z;
  dtp_is_system_transaction : bool
}.

Record OpTransaction := {
  op_base : TxEnv;
  op_enveloped_tx : option Bytes;
  op_deposit : DepositTransactionParts
}.

Section revm_env.
Context `{TxExternals}.

(** [TxEnv::default()] and [OpTransaction::new]. *)
Context (txenv_default : TxEnv) (op_new : TxEnv → OpTransaction).

Definition transact_to (k : TxKind) : TxKind :=
  match k with Call c => Call c | Create => Create end.

Definition to_revm_tx_env (p : PendingTransaction) : OpTransaction :=
  let caller := pt_sender p in
  let dflt := txenv_default in
  match mit_transaction (pt_transaction p) with
  | Legacy t =>
      let tx := signed_tx t in
      op_new {| env_tx_type := 0; env_caller := caller;
        env_gas_limit := leg_gas_limit tx; env_gas_price := leg_gas_price tx;
        env_kind := transact_to (leg_to tx); env_value := leg_value tx;
        env_data := leg_input tx; env_nonce := leg_nonce tx;
        env_chain_id := leg_chain_id tx; env_access_list := [];
        env_gas_priority_fee := None; env_blob_hashes := env_blob_hashes dflt;
        env_max_fee_per_blob_gas := env_max_fee_per_blob_gas dflt;
        env_authorization_list := env_authorization_list dflt |}
  | EIP2930 t =>
      let tx := signed_tx t in
      op_new {| env_tx_type := 1; env_caller := caller;
        env_gas_limit := e2930_gas_limit tx; env_gas_price := e2930_gas_price tx;
        env_kind := transact_to (e2930_to tx); env_value := e2930_value tx;
        env_data := e2930_input tx; env_nonce := e2930_nonce tx;
        env_chain_id := Some (e2930_chain_id tx);
        env_access_list := e2930_access_list tx;
        env_gas_priority_fee := None; env_blob_hashes := env_blob_hashes dflt;
        env_max_fee_per_blob_gas := env_max_fee_per_blob_gas dflt;
        env_authorization_list := env_authorization_list dflt |}
  | EIP1559 t =>
      let tx := signed_tx t in
      op_new {| env_tx_type := 2; env_caller := caller;
        env_gas_limit := e1559_gas_limit tx; env_gas_price := e1559_max_fee_per_gas tx;
        env_kind := transact_to (e1559_to tx); env_value := e1559_value tx;
        env_data := e1559_input tx; env_nonce := e1559_nonce tx;
        env_chain_id := Some (e1559_chain_id tx);
        env_access_list := e1559_access_list tx;
        env_gas_priority_fee := Some (e1559_max_priority_fee_per_gas tx);
        env_blob_hashes := env_blob_hashes dflt;
        env_max_fee_per_blob_gas := env_max_fee_per_blob_gas dflt;
        env_authorization_list := env_authorization_list dflt |}
  | EIP4844 t =>
      let tx := variant_tx (signed_tx t) in
      op_new {| env_tx_type := 3; env_caller := caller;
        env_gas_limit := e4844_gas_limit tx; env_gas_price := e4844_max_fee_per_gas tx;
        env_kind := Call (e4844_to tx); env_value := e4844_value tx;
        env_data := e4844_input tx; env_nonce := e4844_nonce tx;
        env_chain_id := Some (e4844_chain_id tx);
        env_access_list := e4844_access_list tx;
        env_gas_priority_fee := Some (e4844_max_priority_fee_per_gas tx);
        env_blob_hashes := e4844_blob_versioned_hashes tx;
        env_max_fee_per_blob_gas := e4844_max_fee_per_blob_gas tx;
        env_authorization_list := env_authorization_list dflt |}
  | EIP7702 t =>
      let tx := signed_tx t in
      op_new {| env_tx_type := 4; env_caller := caller;
        env_gas_limit := e7702_gas_limit tx; env_gas_price := e7702_max_fee_per_gas tx;
        env_kind := Call (e7702_to tx); env_value := e7702_value tx;
        env_data := e7702_input tx; env_nonce := e7702_nonce tx;
        env_chain_id := Some (e7702_chain_id tx);
        env_access_list := e7702_access_list tx;
        env_gas_priority_fee := Some (e7702_max_priority_fee_per_gas tx);
        env_blob_hashes := env_blob_hashes dflt;
        env_max_fee_per_blob_gas := env_max_fee_per_blob_gas dflt;
        env_authorization_list := e7702_authorization_list tx |}
  | Deposit tx =>
      let base := {| env_tx_type := 0x7E; env_caller := caller;
        env_gas_limit := dep_gas_limit tx; env_gas_price := 0;
        env_kind := transact_to (dep_to tx); env_value := dep_value tx;
        env_data := dep_input tx; env_nonce := 0;
        env_chain_id := deposit_chain_id tx; env_access_list := [];
        env_gas_priority_fee := None; env_blob_hashes := env_blob_hashes dflt;
        env_max_fee_per_blob_gas := env_max_fee_per_blob_gas dflt;
        env_authorization_list := env_authorization_list dflt |} in
      {| op_base := base; op_enveloped_tx := None;
         op_deposit := {| dtp_source_hash := dep_source_hash tx;
                          dtp_mint := Some (dep_mint tx);
                          dtp_is_system_transaction := dep_is_system_transaction tx |} |}
  end.
End revm_env.

(** ** RPC requests *)

Record TransactionRequest := {
  req_from : option Address;
  req_to : option TxKind;
  req_gas_price : option Z;
  req_max_fee_per_gas : option Z;
  req_max_priority_fee_per_gas : option Z;
  req_max_fee_per_blob_gas : option Z;
  req_blob_versioned_hashes : option (list B256);
  req_gas : option Z;
  req_value : option Z;
  req_input : option Bytes;
  req_nonce : option Z;
  req_access_list : option AccessList;
  req_sidecar : option BlobSidecar;
  req_transaction_type : option Z;
  req_authorization_list : option AuthorizationList;
  req_chain_id : option Z
}.

(** [OtherFields], the request's unknown JSON fields, as the three fields the
    source looks up: absent, or present with the outcome of deserializing it. *)
Record OtherFields := {
  other_source_hash : option (result B256 unit);
  other_mint : option (result Z unit);
  other_is_system_tx : option (result bool unit)
}.

Inductive TypedTransactionRequest : Type :=
| ReqLegacy (t : TxLegacy)
| ReqEIP2930 (t : TxEip2930)
| ReqEIP1559 (t : TxEip1559)
| ReqEIP7702 (t : TxEip7702)
| ReqEIP4844 (t : TxEip4844Variant)
| ReqDeposit (t : TxDeposit).

Definition has_optimism_fields (o : OtherFields) : bool :=
  bool_decide (is_Some (other_source_hash o)) &&
  bool_decide (is_Some (other_mint o)) &&
  bool_decide (is_Some (other_is_system_tx o)).

Section request_to_typed.
Variable r : TransactionRequest.

(** The payloads the branches build; missing fields get their default. *)
Definition req_legacy : TxLegacy :=
  {| leg_chain_id := None;
     leg_nonce := default 0 (req_nonce r);
     leg_gas_price := default 0 (req_gas_price r);
     leg_gas_limit := default 0 (req_gas r);
     leg_to := default Create (req_to r);
     leg_value := default 0 (req_value r);
     leg_input := default [] (req_input r) |}.

Definition req_eip2930 : TxEip2930 :=
  {| e2930_chain_id := 0;
     e2930_nonce := default 0 (req_nonce r);
     e2930_gas_price := default 0 (req_gas_price r);
     e2930_gas_limit := default 0 (req_gas r);
     e2930_to := default Create (req_to r);
     e2930_value := default 0 (req_value r);
     e2930_access_list := default [] (req_access_list r);
     e2930_input := default [] (req_input r) |}.

Definition req_eip1559 : TxEip1559 :=
  {| e1559_chain_id := 0;
     e1559_nonce := default 0 (req_nonce r);
     e1559_gas_limit := default 0 (req_gas r);
     e1559_max_fee_per_gas := default 0 (req_max_fee_per_gas r);
     e1559_max_priority_fee_per_gas := default 0 (req_max_priority_fee_per_gas r);
     e1559_to := default Create (req_to r);
     e1559_value := default 0 (req_value r);
     e1559_access_list := default [] (req_access_list r);
     e1559_input := default [] (req_input r) |}.

Definition req_eip4844 : TxEip4844 :=
  {| e4844_chain_id := 0;
     e4844_nonce := default 0 (req_nonce r);
     e4844_gas_limit := default 0 (req_gas r);
     e4844_max_fee_per_gas := default 0 (req_max_fee_per_gas r);
     e4844_max_priority_fee_per_gas := default 0 (req_max_priority_fee_per_gas r);
     e4844_to := match default Create (req_to r) with Call to => to | Create => 0 end;
     e4844_value := default 0 (req_value r);
     e4844_access_list := default [] (req_access_list r);
     e4844_blob_versioned_hashes := default [] (req_blob_versioned_hashes r);
     e4844_max_fee_per_blob_gas := default 0 (req_max_fee_per_blob_gas r);
     e4844_input := default [] (req_input r) |}.

Definition req_eip7702 (to : Address) : TxEip7702 :=
  {| e7702_chain_id := 0;
     e7702_nonce := default 0 (req_nonce r);
     e7702_gas_limit := default 0 (req_gas r);
     e7702_max_fee_per_gas := default 0 (req_max_fee_per_gas r);
     e7702_max_priority_fee_per_gas := default 0 (req_max_priority_fee_per_gas r);
     e7702_to := to;
     e7702_value := default 0 (req_value r);
     e7702_access_list := default [] (req_access_list r);
     e7702_authorization_list := default [] (req_authorization_list r);
     e7702_input := default [] (req_input r) |}.

Definition req_deposit (mint : Z) (source_hash : B256) (is_system : bool) : TxDeposit :=
  {| dep_source_hash := source_hash;
     dep_from := default 0 (req_from r);
     dep_to := default Create (req_to r);
     dep_mint := mint;
     dep_value := default 0 (req_value r);
     dep_gas_limit := default 0 (req_gas r);
     dep_is_system_transaction := is_system;
     dep_input := default [] (req_input r) |}.
End request_to_typed.

(** Converts a request; [None] when the fields fit no transaction type.  The
    [mint] field is narrowed with [U256::to::<u128>], which panics when the
    value does not fit. *)
Definition transaction_request_to_typed (r : TransactionRequest) (other : OtherFields)
    : outcome (option TypedTransactionRequest) :=
  if bool_decide (req_transaction_type r = Some 0x7E) || has_optimism_fields other then
    match other_mint other with
    | Some (Ok m) =>
        if m <=? umax 128 then
          match other_source_hash other, other_is_system_tx other with
          | Some (Ok source_hash), Some (Ok is_system) =>
              Ret (Some (ReqDeposit (req_deposit r m source_hash is_system)))
          | _, _ => Ret None
          end
        else Panic
    | _ => Ret None
    end
  else if bool_decide (req_transaction_type r = Some 4)
          || bool_decide (is_Some (req_authorization_list r)) then
    match req_to r with
    | Some (Call to) => Ret (Some (ReqEIP7702 (req_eip7702 r to)))
    | _ => Ret None
    end
  else
    Ret
      match req_transaction_type r, req_gas_price r, req_max_fee_per_gas r,
            req_max_priority_fee_per_gas r, req_access_list r,
            req_max_fee_per_blob_gas r, req_blob_versioned_hashes r, req_sidecar r with
      | Some 0, _, None, None, None, None, None, None
      | None, Some _, None, None, None, None, None, None =>
          Some (ReqLegacy (req_legacy r))
      | Some 1, _, None, None, _, None, None, None
      | None, _, None, None, Some _, None, None, None =>
          Some (ReqEIP2930 (req_eip2930 r))
      | Some 2, None, _, _, _, _, None, None
      | None, None, Some _, _, _, _, None, None
      | None, None, _, Some _, _, _, None, None
      | None, None, None, None, None, _, None, None =>
          Some (ReqEIP1559 (req_eip1559 r))
      | Some 3, None, _, _, _, _, Some _, sidecar =>
          match sidecar with
          | Some s => Some (ReqEIP4844 (TxEip4844WithSidecar (req_eip4844 r) s))
          | None => Some (ReqEIP4844 (TxEip4844Plain (req_eip4844 r)))
          end
      | _, _, _, _, _, _, _, _ => None
      end.

(** The transaction type a typed request stands for. *)
Definition request_type (t : TypedTransactionRequest) : Z :=
  match t with
  | ReqLegacy _ => 0
  | ReqEIP2930 _ => 1
  | ReqEIP1559 _ => 2
  | ReqEIP4844 _ => 3
  | ReqEIP7702 _ => 4
  | ReqDeposit _ => 0x7E
  end.

(** ** Properties *)

(** The accessors agree with [essentials] on every variant. *)
Definition essentials_agree `{TxExternals} (tx : TypedTransaction) : Prop :=
  let e := essentials tx in
  ess_nonce e = nonce tx ∧ ess_gas_limit e = gas_limit tx ∧ ess_value e = value tx ∧
  ess_input e = data tx ∧ ess_kind e = kind tx ∧ ess_chain_id e = chain_id tx ∧
  ess_max_fee_per_blob_gas e = max_fee_per_blob_gas tx ∧
  gas_price tx = default 0 (ess_gas_price e) + default 0 (ess_max_fee_per_gas e) ∧
  (is_dynamic_fee tx = true ↔ is_Some (ess_max_priority_fee_per_gas e)).

Lemma essentials_agree_all `{TxExternals} tx : essentials_agree tx.
Proof.
  unfold essentials_agree, is_Some.
  destruct tx as [t|t|t|t|t|t]; simpl; repeat split; try lia; naive_solver.
Qed.

(** the environment handed to the EVM carries the sender and, for every kind
    of transaction, exactly the type, nonce, gas limit, gas price, target,
    value, input, chain id, access list and priority fee that the accessors of
    the transaction report. *)
Theorem to_revm_tx_env_agrees `{TxExternals} (dflt : TxEnv) (op_new : TxEnv → OpTransaction)
    (p : PendingTransaction) :
  (∀ e, op_base (op_new e) = e) →
  let tx := mit_transaction (pt_transaction p) in
  let env := op_base (to_revm_tx_env dflt op_new p) in
  env_caller env = pt_sender p ∧ env_tx_type env = default 0 (type_ tx) ∧
  env_nonce env = nonce tx ∧ env_gas_limit env = gas_limit tx ∧
  env_gas_price env = gas_price tx ∧ env_kind env = kind tx ∧
  env_value env = value tx ∧ env_data env = data tx ∧ env_chain_id env = chain_id tx ∧
  env_access_list env = ess_access_list (essentials tx) ∧
  env_gas_priority_fee env = ess_max_priority_fee_per_gas (essentials tx).
Proof.
  intros Hop tx env. subst tx env. unfold to_revm_tx_env.
  destruct (mit_transaction (pt_transaction p)) as [t|t|t|t|t|t];
    rewrite ?Hop; simpl; repeat split; try done;
    match goal with |- transact_to ?k = _ => by destruct k end.
Qed.

(** The nonce a typed request carries ([None] for deposits). *)
Definition request_nonce_of (t : TypedTransactionRequest) : option Z :=
  match t with
  | ReqLegacy t => Some (leg_nonce t)
  | ReqEIP2930 t => Some (e2930_nonce t)
  | ReqEIP1559 t => Some (e1559_nonce t)
  | ReqEIP4844 t => Some (e4844_nonce (variant_tx t))
  | ReqEIP7702 t => Some (e7702_nonce t)
  | ReqDeposit _ => None
  end.

(** The type of a request that does not name one. *)
Definition inferred_type (r : TransactionRequest) : Z :=
  if bool_decide (is_Some (req_gas_price r)) then
    if bool_decide (is_Some (req_access_list r)) then 1 else 0
  else if bool_decide (is_Some (req_access_list r)) &&
          bool_decide (req_max_fee_per_gas r = None) &&
          bool_decide (req_max_priority_fee_per_gas r = None)
  then 1 else 2.

(** A request that is accepted gets the type it names; deposit fields make
    it a deposit and an authorization list an EIP-7702 transaction, and otherwise
    the fee fields and the access list decide; its nonce is kept, 0 when there is
    none (a deposit has no nonce). *)
Theorem request_to_typed_type (r : TransactionRequest) (o : OtherFields)
    (t : TypedTransactionRequest) :
  transaction_request_to_typed r o = Ret (Some t) →
  request_type t =
    (if has_optimism_fields o then 0x7E
     else if bool_decide (req_transaction_type r = Some 0x7E) then 0x7E
     else if bool_decide (is_Some (req_authorization_list r)) then 4
     else default (inferred_type r) (req_transaction_type r)) ∧
  (request_nonce_of t = None ∨ request_nonce_of t = Some (default 0 (req_nonce r))).
Proof.
  unfold transaction_request_to_typed. intros Ht.
  destruct (has_optimism_fields o), (bool_decide (req_transaction_type r = Some 0x7E));
    simpl in Ht; try (repeat case_match; simplify_eq; simpl; by auto).
  destruct (bool_decide_reflect (is_Some (req_authorization_list r))).
  - rewrite orb_true_r in Ht. repeat case_match; simplify_eq; simpl; by auto.
  - rewrite orb_false_r in Ht. case_bool_decide as E4.
    + rewrite E4. repeat case_match; simplify_eq; simpl; by auto.
    + repeat case_match; simplify_eq; (split; [|by auto]); unfold inferred_type;
        repeat match goal with H : _ r = _ |- _ => rewrite H end; simpl;
        repeat case_bool_decide; done.
Qed.

(** A request with a priority fee and no type. *)
Definition ex_fee_request : TransactionRequest :=
  {| req_from := Some 5; req_to := Some (Call 7); req_gas_price := None;
     req_max_fee_per_gas := None; req_max_priority_fee_per_gas := Some 2;
     req_max_fee_per_blob_gas := None; req_gas := None; req_value := None; req_input := None;
     req_nonce := Some 9; req_chain_id := None; req_access_list := None;
     req_transaction_type := None; req_blob_versioned_hashes := None; req_sidecar := None;
     req_authorization_list := None |}.

Lemma request_to_typed_type_witness : request_type (ReqEIP1559 (req_eip1559 ex_fee_request)) = 2.
Proof.
  destruct (request_to_typed_type ex_fee_request
    {| other_source_hash := None; other_mint := None; other_is_system_tx := None |}
    (ReqEIP1559 (req_eip1559 ex_fee_request)) eq_refl) as [H _].
  rewrite H. reflexivity.
Defined.

(** A mint that fits into 128 bits is always converted. *)
Lemma request_to_typed_total (r : TransactionRequest) (o : OtherFields) :
  (∀ m, other_mint o = Some (Ok m) → m ≤ umax 128) →
  ∃ t, transaction_request_to_typed r o = Ret t.
Proof.
  intros Hm. unfold transaction_request_to_typed.
  repeat case_match; eauto; simplify_eq;
    match goal with Hle : (_ <=? _) = false |- _ =>
      apply Z.leb_gt in Hle; specialize (Hm _ eq_refl); lia end.
Qed.

(** Converting a request panics exactly when it is a deposit whose minted
    amount does not fit into 128 bits; the conversion of the amount is not
    checked. *)
Theorem request_to_typed_panics (r : TransactionRequest) (o : OtherFields) :
  transaction_request_to_typed r o = Panic ↔
  (req_transaction_type r = Some 0x7E ∨ has_optimism_fields o = true) ∧
  ∃ m, other_mint o = Some (Ok m) ∧ umax 128 < m.
Proof.
  unfold transaction_request_to_typed.
  destruct (has_optimism_fields o), (bool_decide_reflect (req_transaction_type r = Some 0x7E));
    simpl; split; intros Hp;
    try (destruct Hp as [Ho (m & Hm & Hlt)]; rewrite ?Hm in *;
         rewrite (proj2 (Z.leb_gt _ _)) by lia; done);
    try (destruct Hp as [[?|?] _]; congruence);
    try (repeat case_match; simplify_eq; split; [by auto|]; eexists; split; [done|];
         match goal with Hle : (_ <=? _) = false |- _ => apply Z.leb_gt in Hle; lia end).
  repeat case_match; simplify_eq.
Qed.

(** *** Examples *)

(** Constant externals, to run the model. *)
Definition ex_externals : TxExternals :=
  {| recover_signer T s := Ok 5; keccak256 b := Z.of_nat (length b); encode_2718 t := [];
     rlp_string_header n := []; tx4844_blob_gas t := 0; deposit_tx_hash t := 0;
     deposit_chain_id t := None |}.

Definition ex_pending (nonce : Z) : PendingTransaction :=
  {| pt_transaction :=
       {| mit_transaction :=
            Legacy {| signed_tx := {| leg_chain_id := Some 31337; leg_nonce := nonce;
                                      leg_gas_price := 10; leg_gas_limit := 30000;
                                      leg_to := Call 7; leg_value := 1; leg_input := [] |};
                      signed_signature := {| sig_r := 1; sig_s := 1; sig_parity := false |};
                      signed_hash := 0 |};
          mit_impersonated_sender := None |};
     pt_sender := 5; pt_hash := 100 |}.

Definition ex_txenv : TxEnv :=
  {| env_tx_type := 0; env_caller := 0; env_gas_limit := 0; env_gas_price := 0;
     env_kind := Create; env_value := 0; env_data := []; env_nonce := 0; env_chain_id := None;
     env_access_list := []; env_gas_priority_fee := None; env_blob_hashes := [];
     env_max_fee_per_blob_gas := 0; env_authorization_list := [] |}.

Definition ex_op_new (base : TxEnv) : OpTransaction :=
  {| op_base := base; op_enveloped_tx := None;
     op_deposit := {| dtp_source_hash := 0; dtp_mint := None; dtp_is_system_transaction := false |} |}.

Lemma to_revm_tx_env_agrees_witness :
  env_nonce (op_base (to_revm_tx_env (H := ex_externals) ex_txenv ex_op_new (ex_pending 3))) = 3.
Proof.
  destruct (to_revm_tx_env_agrees (H := ex_externals) ex_txenv ex_op_new (ex_pending 3)
    (λ e, eq_refl)) as (_ & _ & H & _).
  exact H.
Defined.
