(* ===== verification/PendingPool.v ===== *)
(** * Pool transactions and the waiting queue
    (crates/anvil/src/eth/pool/transactions.rs, first half)

    Markers, [PoolTransaction], [PendingPoolTransaction] and
    [PendingTransactions], the queue of transactions that wait for markers
    other transactions provide.  The invariant [pending_inv] ties the index of
    required markers to the missing markers of the queued transactions; every
    operation preserves it, and under it [mark_and_unlock] never panics. *)

From stdpp Require Import prelude gmap list.
From S2P Require Import Prelude Containers Transaction.

Open Scope Z_scope.

(** ** Markers *)

Abbreviation TxMarker := (list Z).

(** Eight little-endian nonce bytes followed by the twenty address bytes. *)
Definition to_marker (nonce : Z) (from : Address) : TxMarker :=
  le_bytes 8 nonce ++ be_bytes 20 from.

(** ** Transactions of the pool *)

Inductive TransactionOrder : Type := Fifo | Fees.

Definition order_priority (o : TransactionOrder) (tx : TypedTransaction) : Z :=
  match o with Fifo => 0 | Fees => gas_price tx end.

Record PoolTransaction := {
  pending_transaction : PendingTransaction;
  requires : list TxMarker;
  provides : list TxMarker;
  priority : Z
}.

Definition pool_tx_new (t : PendingTransaction) : PoolTransaction :=
  {| pending_transaction := t; requires := []; provides := []; priority := 0 |}.

Definition ptx_hash (t : PoolTransaction) : TxHash := pt_hash (pending_transaction t).
Definition ptx_gas_price (t : PoolTransaction) : Z :=
  gas_price (mit_transaction (pt_transaction (pending_transaction t))).
Definition ptx_type (t : PoolTransaction) : Z :=
  default 0 (type_ (mit_transaction (pt_transaction (pending_transaction t)))).
Definition ptx_sender (t : PoolTransaction) : Address := pt_sender (pending_transaction t).

Inductive PoolError : Type :=
| CyclicTransaction
| ReplacementUnderpriced (t : PoolTransaction)
| AlreadyImported (t : PoolTransaction).

(** ** [PendingPoolTransaction] *)

Record PendingPoolTransaction := {
  ppt_transaction : PoolTransaction;
  missing_markers : gset TxMarker;
  added_at : Z
}.

(** [now] is the value of [Instant::now()]. *)
Definition pending_pool_new (now : Z) (t : PoolTransaction)
    (provided : gmap TxMarker TxHash) : PendingPoolTransaction :=
  {| ppt_transaction := t;
     missing_markers :=
       list_to_set (filter (λ m, provided !! m = None) (requires t));
     added_at := now |}.

Definition mark (p : PendingPoolTransaction) (m : TxMarker) : PendingPoolTransaction :=
  {| ppt_transaction := ppt_transaction p;
     missing_markers := missing_markers p ∖ {[m]};
     added_at := added_at p |}.

Definition is_ready (p : PendingPoolTransaction) : bool :=
  bool_decide (missing_markers p = ∅).

Definition ppt_hash (p : PendingPoolTransaction) : TxHash := ptx_hash (ppt_transaction p).

(** ** [PendingTransactions] *)

Record PendingTransactions := {
  required_markers : gmap TxMarker (gset TxHash);
  waiting_markers : gmap (list TxMarker) TxHash;
  waiting_queue : gmap TxHash PendingPoolTransaction
}.

Definition pending_default : PendingTransactions :=
  {| required_markers := ∅; waiting_markers := ∅; waiting_queue := ∅ |}.

Section pending.
Context {order : HashOrder TxHash}.
Implicit Types (st : PendingTransactions) (tx : PendingPoolTransaction) (h : TxHash).

Definition pending_len st : nat := size (waiting_queue st).
Definition pending_is_empty st : bool := bool_decide (waiting_queue st = ∅).
Definition pending_clear st : PendingTransactions := pending_default.
Definition pending_contains st h : bool := bool_decide (is_Some (waiting_queue st !! h)).
Definition pending_get st h : option PendingPoolTransaction := waiting_queue st !! h.

(** The transactions of the queue, in the map's iteration order. *)
Definition pending_transactions st : list PoolTransaction :=
  ppt_transaction <$> map_iter (waiting_queue st).

(** [required_markers.entry(marker).or_default().insert(hash)]. *)
Definition require_marker h (req : gmap TxMarker (gset TxHash)) (m : TxMarker) :=
  <[m := {[h]} ∪ default ∅ (req !! m)]> req.

Definition pending_insert st tx : PendingTransactions :=
  {| required_markers :=
       foldl (require_marker (ppt_hash tx)) (required_markers st)
         (elements (missing_markers tx));
     waiting_markers :=
       <[provides (ppt_transaction tx) := ppt_hash tx]> (waiting_markers st);
     waiting_queue := <[ppt_hash tx := tx]> (waiting_queue st) |}.

(** Adds a transaction to the queue.  A queued transaction with the same
    [provides] only makes the call fail when it pays more. *)
Definition pending_add_transaction st tx
    : outcome (PendingTransactions * result unit PoolError) :=
  assert_ (negb (is_ready tx)) ≫= λ _,
  assert_ (negb (pending_contains st (ppt_hash tx))) ≫= λ _,
  match waiting_markers st !! provides (ppt_transaction tx)
          ≫= λ h, waiting_queue st !! h with
  | Some replace =>
      if ptx_gas_price (ppt_transaction tx) <? ptx_gas_price (ppt_transaction replace)
      then Ret (st, Err (ReplacementUnderpriced (ppt_transaction tx)))
      else Ret (pending_insert st tx, Ok tt)
  | None => Ret (pending_insert st tx, Ok tt)
  end.

(** The body of the inner loop of [mark_and_unlock]: checks off [m] for the
    transaction [h] and moves it to the unlocked list when it is ready. *)
Definition mark_hash (m : TxMarker)
    (s : PendingTransactions * list PendingPoolTransaction) h
    : outcome (PendingTransactions * list PendingPoolTransaction) :=
  let '(st, unlocked) := s in
  expect (waiting_queue st !! h) ≫= λ tx,
  let tx := mark tx m in
  if is_ready tx then
    Ret ({| required_markers := required_markers st;
            waiting_markers := delete (provides (ppt_transaction tx)) (waiting_markers st);
            waiting_queue := delete h (waiting_queue st) |},
         unlocked ++ [tx])
  else
    Ret ({| required_markers := required_markers st;
            waiting_markers := waiting_markers st;
            waiting_queue := <[h := tx]> (waiting_queue st) |},
         unlocked).

Definition mark_marker (s : PendingTransactions * list PendingPoolTransaction)
    (m : TxMarker) : outcome (PendingTransactions * list PendingPoolTransaction) :=
  let '(st, unlocked) := s in
  match required_markers st !! m with
  | Some hashes =>
      foldM (mark_hash m)
        ({| required_markers := delete m (required_markers st);
            waiting_markers := waiting_markers st;
            waiting_queue := waiting_queue st |}, unlocked)
        (set_iter hashes)
  | None => Ret s
  end.

(** Checks off the markers and returns the transactions that got unlocked. *)
Definition mark_and_unlock st (markers : list TxMarker)
    : outcome (PendingTransactions * list PendingPoolTransaction) :=
  foldM mark_marker (st, []) markers.

(** The bookkeeping of [remove] for one marker of a removed transaction. *)
Definition release_marker h (req : gmap TxMarker (gset TxHash)) (m : TxMarker) :=
  match req !! m with
  | Some required =>
      let required := required ∖ {[h]} in
      if bool_decide (required = ∅) then delete m req else <[m := required]> req
  | None => req
  end.

Definition pending_remove_one (s : PendingTransactions * list PoolTransaction) h
    : PendingTransactions * list PoolTransaction :=
  let '(st, removed) := s in
  match waiting_queue st !! h with
  | Some tx =>
      ({| required_markers :=
            foldl (release_marker h) (required_markers st) (elements (missing_markers tx));
          waiting_markers := delete (provides (ppt_transaction tx)) (waiting_markers st);
          waiting_queue := delete h (waiting_queue st) |},
       removed ++ [ppt_transaction tx])
  | None => s
  end.

(** Removes the transactions with the given hashes, returning them. *)
Definition pending_remove st (hashes : list TxHash)
    : PendingTransactions * list PoolTransaction :=
  foldl pending_remove_one (st, []) hashes.
End pending.

(** ** Invariant *)

(** [h] is queued and still misses [m]. *)
Definition waits_for (st : PendingTransactions) (m : TxMarker) (h : TxHash) : Prop :=
  ∃ tx, waiting_queue st !! h = Some tx ∧ m ∈ missing_markers tx.

(** A queued transaction is filed under its hash and misses a marker, the index
    of required markers lists exactly the transactions that miss a marker, and
    the index of provided marker lists points into the queue. *)
Record pending_inv (st : PendingTransactions) : Prop := {
  pi_hash : ∀ h tx, waiting_queue st !! h = Some tx → ppt_hash tx = h;
  pi_missing : ∀ h tx, waiting_queue st !! h = Some tx → missing_markers tx ≠ ∅;
  pi_required : ∀ m h, h ∈ default ∅ (required_markers st !! m) ↔ waits_for st m h;
  pi_nonempty : ∀ m X, required_markers st !! m = Some X → X ≠ ∅;
  pi_waiting : ∀ p h, waiting_markers st !! p = Some h →
    ∃ tx, waiting_queue st !! h = Some tx ∧ provides (ppt_transaction tx) = p
}.

(** The abstract effect of checking off a set of markers on a transaction. *)
Definition unmark (ms : gset TxMarker) (tx : PendingPoolTransaction) : PendingPoolTransaction :=
  {| ppt_transaction := ppt_transaction tx;
     missing_markers := missing_markers tx ∖ ms;
     added_at := added_at tx |}.

(** The contract of [mark_and_unlock]: the transactions whose missing markers
    are all in [ms] leave the queue and are returned, once each; the others
    stay with [ms] checked off; the index forgets [ms]. *)
Record marked (ms : gset TxMarker) (st st' : PendingTransactions)
    (unlocked : list PendingPoolTransaction) : Prop := {
  mk_queue : ∀ h, waiting_queue st' !! h =
    waiting_queue st !! h ≫= λ tx,
      if decide (missing_markers tx ⊆ ms) then None else Some (unmark ms tx);
  mk_unlocked : ∀ t, t ∈ unlocked ↔
    ∃ h tx, waiting_queue st !! h = Some tx ∧ missing_markers tx ⊆ ms ∧ t = unmark ms tx;
  mk_nodup : NoDup (ppt_hash <$> unlocked);
  mk_required : ∀ m, required_markers st' !! m =
    if decide (m ∈ ms) then None else required_markers st !! m;
  mk_inv : pending_inv st'
}.

Lemma ppt_hash_unmark ms tx : ppt_hash (unmark ms tx) = ppt_hash tx.
Proof. done. Qed.

Lemma unmark_empty tx : unmark ∅ tx = tx.
Proof. destruct tx. unfold unmark; simpl. f_equal. set_solver. Qed.

Lemma unmark_id ms tx : missing_markers tx ## ms → unmark ms tx = tx.
Proof. destruct tx. unfold unmark; simpl. intros. f_equal. set_solver. Qed.

Lemma unmark_unmark ms1 ms2 tx : unmark ms2 (unmark ms1 tx) = unmark (ms1 ∪ ms2) tx.
Proof. unfold unmark; simpl. f_equal. set_solver. Qed.

Lemma is_ready_unmark ms tx :
  is_ready (unmark ms tx) = bool_decide (missing_markers tx ⊆ ms).
Proof.
  unfold is_ready, unmark; simpl. apply bool_decide_ext.
  split; intros Hs; [|set_solver]. intros m Hm.
  destruct (decide (m ∈ ms)); [done|]. set_solver.
Qed.

Lemma pending_default_inv : pending_inv pending_default.
Proof.
  split; simpl; try (intros *; rewrite lookup_empty; done).
  intros m h. rewrite lookup_empty. unfold waits_for; simpl.
  setoid_rewrite lookup_empty. set_solver.
Qed.

Lemma marked_nil st : pending_inv st → marked ∅ st st [].
Proof.
  intros Hi. split; [| | constructor | | done].
  - intros h. destruct (waiting_queue st !! h) as [tx|] eqn:Hq; simpl; [|done].
    pose proof (pi_missing _ Hi _ _ Hq). case_decide; [set_solver|]. by rewrite unmark_empty.
  - intros t. split; [set_solver|]. intros (h & tx & Hq & Hs & _).
    pose proof (pi_missing _ Hi _ _ Hq). set_solver.
  - intros m. case_decide; set_solver.
Qed.

Lemma marked_trans ms1 ms2 st st1 st2 l1 l2 :
  pending_inv st → marked ms1 st st1 l1 → marked ms2 st1 st2 l2 →
  marked (ms1 ∪ ms2) st st2 (l1 ++ l2).
Proof.
  intros Hi M1 M2.
  assert (∀ t, t ∈ l1 ↔ ∃ h tx, waiting_queue st !! h = Some tx ∧
            missing_markers tx ⊆ ms1 ∧ t = unmark (ms1 ∪ ms2) tx) as Hl1.
  { intros t. rewrite (mk_unlocked _ _ _ _ M1). 
    split; intros (h & tx & Hq & Hs & ->); exists h, tx; split_and!; try done;
      unfold unmark; f_equal; set_solver. }
  assert (∀ t, t ∈ l2 ↔ ∃ h tx, waiting_queue st !! h = Some tx ∧
            ¬ missing_markers tx ⊆ ms1 ∧ missing_markers tx ⊆ ms1 ∪ ms2 ∧
            t = unmark (ms1 ∪ ms2) tx) as Hl2.
  { intros t. rewrite (mk_unlocked _ _ _ _ M2). setoid_rewrite (mk_queue _ _ _ _ M1).
    split.
    - intros (h & tx & Hq & Hs & ->). destruct (waiting_queue st !! h) as [tx0|] eqn:Hq0;
        simpl in Hq; [|done]. case_decide; [done|]. simplify_eq.
      exists h, tx0. rewrite unmark_unmark. split_and!; try done.
      intros m Hm. destruct (decide (m ∈ ms1)); [set_solver|].
      apply elem_of_union_r, Hs. unfold unmark; simpl. set_solver.
    - intros (h & tx & Hq & Hn & Hs & ->). exists h, (unmark ms1 tx).
      rewrite Hq, unmark_unmark; simpl. rewrite decide_False by done.
      split_and!; [done| |done]. unfold unmark; simpl. set_solver. }
  split.
  - intros h. rewrite (mk_queue _ _ _ _ M2), (mk_queue _ _ _ _ M1).
    destruct (waiting_queue st !! h) as [tx|]; simpl; [|done].
    destruct (decide (missing_markers tx ⊆ ms1)); simpl.
    + rewrite decide_True; [done|set_solver].
    + rewrite unmark_unmark. apply decide_ext. unfold unmark; simpl.
      split; [|set_solver]. intros Hs m Hm. destruct (decide (m ∈ ms1)); set_solver.
  - intros t. rewrite elem_of_app, Hl1, Hl2. split.
    + intros [(h & tx & Hq & Hs & ->)|(h & tx & Hq & _ & Hs & ->)]; exists h, tx; set_solver.
    + intros (h & tx & Hq & Hs & ->). destruct (decide (missing_markers tx ⊆ ms1)); eauto 10.
  - rewrite fmap_app. apply NoDup_app. split_and!; [apply M1| |apply M2].
    intros h Hh1 Hh2.
    apply list_elem_of_fmap in Hh1 as (t1 & -> & (h1 & tx1 & Hq1 & Hs1 & ->)%Hl1).
    apply list_elem_of_fmap in Hh2 as (t2 & E & (h2 & tx2 & Hq2 & Hn2 & _ & ->)%Hl2).
    rewrite !ppt_hash_unmark in E. rewrite (pi_hash _ Hi _ _ Hq1), (pi_hash _ Hi _ _ Hq2) in E.
    congruence.
  - intros m. rewrite (mk_required _ _ _ _ M2), (mk_required _ _ _ _ M1).
    repeat case_decide; set_solver.
  - apply M2.
Qed.

(** ** [mark_and_unlock] meets its contract *)

Section mark_spec.
Context {order : HashOrder TxHash}.
Implicit Types (st : PendingTransactions) (tx : PendingPoolTransaction) (h : TxHash).

Lemma mark_unmark tx m : mark tx m = unmark {[m]} tx.
Proof. done. Qed.

(** The state of the inner loop of [mark_and_unlock] after the hashes [done]. *)
Record marking (m : TxMarker) st (done : list TxHash)
    (cur : PendingTransactions) (new : list PendingPoolTransaction) : Prop := {
  mg_queue : ∀ h, waiting_queue cur !! h =
    if decide (h ∈ done) then
      waiting_queue st !! h ≫= λ tx,
        if decide (missing_markers tx ⊆ {[m]}) then None else Some (unmark {[m]} tx)
    else waiting_queue st !! h;
  mg_new : ∀ t, t ∈ new ↔ ∃ h tx, h ∈ done ∧ waiting_queue st !! h = Some tx ∧
    missing_markers tx ⊆ {[m]} ∧ t = unmark {[m]} tx;
  mg_nodup : NoDup (ppt_hash <$> new);
  mg_required : required_markers cur = delete m (required_markers st);
  mg_waiting : ∀ p h, waiting_markers cur !! p = Some h →
    ∃ tx, waiting_queue cur !! h = Some tx ∧ provides (ppt_transaction tx) = p
}.

(** One step of the inner loop; the step never panics on a queued hash. *)
(** A transaction that waits for nothing else is unlocked. *)
Lemma marking_unlock m st done cur new h tx :
  pending_inv st → marking m st done cur new → h ∉ done →
  waiting_queue st !! h = Some tx → waiting_queue cur !! h = Some tx →
  missing_markers tx ⊆ {[m]} →
  marking m st (done ++ [h])
    {| required_markers := required_markers cur;
       waiting_markers := delete (provides (ppt_transaction tx)) (waiting_markers cur);
       waiting_queue := delete h (waiting_queue cur) |} (new ++ [unmark {[m]} tx]).
Proof.
  intros Hi M Hh Hq Hc Hs. split; simpl.
  - intros h'. destruct (decide (h' = h)) as [->|Hne].
    + rewrite lookup_delete_eq, decide_True by set_solver.
      rewrite Hq; simpl. by rewrite decide_True.
    + rewrite lookup_delete_ne by done. rewrite (mg_queue _ _ _ _ _ M).
      apply decide_ext. set_solver.
  - intros t. rewrite elem_of_app, list_elem_of_singleton, (mg_new _ _ _ _ _ M).
    split.
    + intros [(h' & tx' & Hd & ?)| ->]; [exists h', tx'|exists h, tx]; set_solver.
    + intros (h' & tx' & Hd & Hq' & Hs' & ->).
      apply elem_of_app in Hd as [Hd|Hd%list_elem_of_singleton]; [left; by exists h', tx'|].
      right. by simplify_eq.
  - rewrite fmap_app; simpl. apply NoDup_app. split_and!; [apply M| |apply NoDup_singleton].
    intros h' Hh'. rewrite list_elem_of_singleton. intros ->.
    apply list_elem_of_fmap in Hh' as (t & E & Ht).
    apply (mg_new _ _ _ _ _ M) in Ht as (h' & tx' & Hd & Hq' & _ & ->).
    rewrite !ppt_hash_unmark, (pi_hash _ Hi _ _ Hq), (pi_hash _ Hi _ _ Hq') in E.
    congruence.
  - apply M.
  - intros p h' Hp. apply lookup_delete_Some in Hp as [Hne Hp].
    destruct (mg_waiting _ _ _ _ _ M _ _ Hp) as (tx' & Hq' & <-).
    exists tx'. split; [|done]. apply lookup_delete_Some. split; [|done].
    intros ->. congruence.
Qed.

(** Another one loses the marker and keeps waiting. *)
Lemma marking_keep m st done cur new h tx :
  marking m st done cur new →
  waiting_queue st !! h = Some tx → waiting_queue cur !! h = Some tx →
  ¬ missing_markers tx ⊆ {[m]} →
  marking m st (done ++ [h])
    {| required_markers := required_markers cur; waiting_markers := waiting_markers cur;
       waiting_queue := <[h := unmark {[m]} tx]> (waiting_queue cur) |} new.
Proof.
  intros M Hq Hc Hs. split; simpl.
  - intros h'. destruct (decide (h' = h)) as [->|Hne].
    + rewrite lookup_insert_eq, decide_True by set_solver.
      rewrite Hq; simpl. by rewrite decide_False.
    + rewrite lookup_insert_ne by done. rewrite (mg_queue _ _ _ _ _ M).
      apply decide_ext. set_solver.
  - intros t. rewrite (mg_new _ _ _ _ _ M). split.
    { intros (h' & tx' & Hd & ?). exists h', tx'. set_solver. }
    intros (h' & tx' & Hd & Hq' & Hs' & ->). exists h', tx'.
    apply elem_of_app in Hd as [?|Hd%list_elem_of_singleton]; [done|].
    subst. congruence.
  - apply M.
  - apply M.
  - intros p h' Hp. destruct (mg_waiting _ _ _ _ _ M _ _ Hp) as (tx' & Hq' & <-).
    destruct (decide (h' = h)) as [->|Hne].
    + exists (unmark {[m]} tx). rewrite lookup_insert_eq. by simplify_eq.
    + exists tx'. by rewrite lookup_insert_ne.
Qed.

Lemma mark_hash_step m st done cur new un h tx :
  pending_inv st → marking m st done cur new → h ∉ done →
  waiting_queue st !! h = Some tx →
  ∃ cur' new', mark_hash m (cur, un ++ new) h = Ret (cur', un ++ new') ∧
               marking m st (done ++ [h]) cur' new'.
Proof.
  intros Hi M Hh Hq.
  assert (waiting_queue cur !! h = Some tx) as Hc.
  { rewrite (mg_queue _ _ _ _ _ M). by rewrite decide_False. }
  unfold mark_hash. rewrite Hc; simpl. rewrite mark_unmark, is_ready_unmark.
  case_bool_decide as Hs.
  - eexists _, _. rewrite <- app_assoc. split; [reflexivity|]. by apply marking_unlock.
  - eexists _, _. split; [reflexivity|]. by apply marking_keep.
Qed.

(** The queue after a finished inner loop. *)
Lemma marking_queue m st X cur new :
  pending_inv st → required_markers st !! m = Some X → marking m st (set_iter X) cur new →
  (∀ h, h ∈ set_iter X ↔ waits_for st m h) ∧
  ∀ h, waiting_queue cur !! h = waiting_queue st !! h ≫= λ tx,
    if decide (missing_markers tx ⊆ {[m]}) then None else Some (unmark {[m]} tx).
Proof.
  intros Hi HX M.
  assert (∀ h, h ∈ set_iter X ↔ waits_for st m h) as HXw.
  { intros h. rewrite set_iter_elem_of, <- (pi_required _ Hi), HX. done. }
  split; [done|]. intros h. rewrite (mg_queue _ _ _ _ _ M). case_decide as Hd; [done|].
  destruct (waiting_queue st !! h) as [tx|] eqn:Hq; simpl; [|done].
  pose proof (pi_missing _ Hi _ _ Hq) as Hne. rewrite HXw in Hd.
  assert (m ∉ missing_markers tx) by (intros ?; apply Hd; by exists tx).
  rewrite decide_False by set_solver. rewrite unmark_id; [done|set_solver].
Qed.

(** It is consistent again. *)
Lemma marking_inv m st X cur new :
  pending_inv st → required_markers st !! m = Some X → marking m st (set_iter X) cur new →
  pending_inv cur.
Proof.
  intros Hi HX M. destruct (marking_queue _ _ _ _ _ Hi HX M) as [HXw Hqueue]. split.
  - intros h tx. rewrite Hqueue. destruct (waiting_queue st !! h) as [tx0|] eqn:Hq; [|done].
    simpl. case_decide; [done|]. intros [= <-]. rewrite ppt_hash_unmark.
    by apply (pi_hash _ Hi).
  - intros h tx. rewrite Hqueue. destruct (waiting_queue st !! h) as [tx0|] eqn:Hq; [|done].
    simpl. case_decide as Hs; [done|]. intros [= <-]. unfold unmark; simpl. intros E.
    apply Hs. intros m' Hm'. destruct (decide (m' ∈ ({[m]} : gset TxMarker))); [done|].
    set_solver.
  - intros m' h. rewrite (mg_required _ _ _ _ _ M), lookup_delete.
    case_decide as Hm'; simpl.
    + subst m'. split; [set_solver|]. intros (tx & Hq & Hm). rewrite Hqueue in Hq.
      destruct (waiting_queue st !! h); simpl in Hq; [|done]. case_decide; simplify_eq.
      unfold unmark in Hm; simpl in Hm. set_solver.
    + rewrite (pi_required _ Hi). unfold waits_for. rewrite Hqueue. split.
      * intros (tx & -> & Hm); simpl. rewrite decide_False by set_solver.
        exists (unmark {[m]} tx). split; [done|]. unfold unmark; simpl. set_solver.
      * intros (tx & Hq & Hm). destruct (waiting_queue st !! h) as [tx0|]; simpl in Hq; [|done].
        case_decide; simplify_eq. exists tx0. unfold unmark in Hm; simpl in Hm. set_solver.
  - intros m' Y. rewrite (mg_required _ _ _ _ _ M). intros [_ HY]%lookup_delete_Some.
    by eapply pi_nonempty.
  - apply M.
Qed.

(** A finished inner loop establishes the contract for the single marker. *)
Lemma marking_marked m st X cur new :
  pending_inv st → required_markers st !! m = Some X →
  marking m st (set_iter X) cur new → marked {[m]} st cur new.
Proof.
  intros Hi HX M. destruct (marking_queue _ _ _ _ _ Hi HX M) as [HXw Hqueue]. split.
  - done.
  - intros t. rewrite (mg_new _ _ _ _ _ M). split.
    + intros (h & tx & _ & ?). by exists h, tx.
    + intros (h & tx & Hq & Hs & ->). exists h, tx. split_and!; try done.
      apply HXw. exists tx. split; [done|]. pose proof (pi_missing _ Hi _ _ Hq).
      destruct (set_choose_L (missing_markers tx)) as [m' Hm']; [done|set_solver].
  - apply M.
  - intros m'. rewrite (mg_required _ _ _ _ _ M), lookup_delete.
    repeat case_decide; set_solver.
  - by eapply marking_inv.
Qed.

Lemma mark_marker_spec st un m :
  pending_inv st →
  ∃ st' new, mark_marker (st, un) m = Ret (st', un ++ new) ∧ marked {[m]} st st' new.
Proof.
  intros Hi. unfold mark_marker.
  destruct (required_markers st !! m) as [X|] eqn:HX.
  - set (st0 := {| required_markers := delete m (required_markers st);
                   waiting_markers := waiting_markers st;
                   waiting_queue := waiting_queue st |}).
    destruct (foldM_spec (mark_hash m)
      (λ d s, ∃ new, s.2 = un ++ new ∧ marking m st d s.1 new) (set_iter X) (st0, un))
      as ([cur un'] & E & new & Hun & M).
    + exists []. rewrite app_nil_r. split; [done|]. split.
      * intros h. rewrite decide_False; [done|apply not_elem_of_nil].
      * intros t. split; [set_solver|]. intros (h & tx & Hh & _). set_solver.
      * constructor.
      * done.
      * apply Hi.
    + intros d h rest [cur un'] Hl (new & Hun & M); simpl in *. subst un'.
      pose proof (set_iter_NoDup X) as Hnd. rewrite Hl in Hnd.
      apply NoDup_app in Hnd as (_ & Hnd & _).
      assert (h ∉ d) as Hd by (intros ?; apply (Hnd h); set_solver).
      assert (waits_for st m h) as (tx & Hq & _).
      { rewrite <- (pi_required _ Hi), HX; simpl. apply set_iter_elem_of. rewrite Hl.
        set_solver. }
      destruct (mark_hash_step m st d cur new un h tx Hi M Hd Hq) as (cur' & new' & E & M').
      eexists. split; [exact E|]. by exists new'.
    + simpl in *. subst un'. exists cur, new. split; [done|]. by eapply marking_marked.
  - exists st, []. rewrite app_nil_r. split; [done|].
    assert (∀ h tx, waiting_queue st !! h = Some tx → m ∉ missing_markers tx) as Hm.
    { intros h tx Hq Hm. assert (waits_for st m h) as Hw by (by exists tx).
      rewrite <- (pi_required _ Hi), HX in Hw. set_solver. }
    assert (∀ h tx, waiting_queue st !! h = Some tx → ¬ missing_markers tx ⊆ {[m]}) as Hn.
    { intros h tx Hq. pose proof (pi_missing _ Hi _ _ Hq). pose proof (Hm _ _ Hq).
      set_solver. }
    split; [| |constructor| |done].
    + intros h. destruct (waiting_queue st !! h) as [tx|] eqn:Hq; simpl; [|done].
      rewrite decide_False by eauto. rewrite unmark_id; [done|].
      pose proof (Hm _ _ Hq). set_solver.
    + intros t. split; [set_solver|]. intros (h & tx & Hq & Hs & _). by destruct (Hn h tx).
    + intros m'. case_decide; [|done]. set_solver.
Qed.

(** Checking off markers never panics and does what its contract says. *)
Lemma mark_and_unlock_spec st markers :
  pending_inv st →
  ∃ st' unlocked, mark_and_unlock st markers = Ret (st', unlocked) ∧
                  marked (list_to_set markers) st st' unlocked.
Proof.
  intros Hi. unfold mark_and_unlock.
  destruct (foldM_spec mark_marker (λ d s, marked (list_to_set d) st s.1 s.2) markers (st, []))
    as ([st' un] & E & M).
  - by apply marked_nil.
  - intros d m rest [cur un] _ M; simpl in *.
    destruct (mark_marker_spec cur un m) as (cur' & new & E & M'); [apply M|].
    exists (cur', un ++ new). split; [done|]; simpl.
    rewrite list_to_set_app_L. simpl. rewrite union_empty_r_L.
    by apply (marked_trans _ _ st cur).
  - by exists st', un.
Qed.
End mark_spec.

(** ** Insertion and removal *)

Section pending_ops.
Context {order : HashOrder TxHash}.
Implicit Types (st : PendingTransactions) (tx : PendingPoolTransaction) (h : TxHash).

Lemma require_markers_elem h req l m h' :
  h' ∈ default ∅ (foldl (require_marker h) req l !! m) ↔
  h' ∈ default ∅ (req !! m) ∨ (h' = h ∧ m ∈ l).
Proof.
  revert req. induction l as [|m0 l IH]; intros req; simpl; [set_solver|].
  rewrite IH. unfold require_marker. destruct (decide (m0 = m)) as [->|Hne].
  - rewrite lookup_insert_eq; simpl. set_solver.
  - rewrite lookup_insert_ne by done. set_solver.
Qed.

Lemma require_markers_nonempty h req l :
  (∀ m X, req !! m = Some X → X ≠ ∅) →
  ∀ m X, foldl (require_marker h) req l !! m = Some X → X ≠ ∅.
Proof.
  revert req. induction l as [|m0 l IH]; intros req Hreq; simpl; [done|].
  apply IH. intros m X. unfold require_marker. rewrite lookup_insert.
  case_decide; [|apply Hreq]. intros [= <-]. set_solver.
Qed.

Lemma release_markers_elem h req l m h' :
  h' ∈ default ∅ (foldl (release_marker h) req l !! m) ↔
  h' ∈ default ∅ (req !! m) ∧ ¬ (h' = h ∧ m ∈ l).
Proof.
  revert req. induction l as [|m0 l IH]; intros req; simpl; [set_solver|].
  rewrite IH. enough (h' ∈ default ∅ (release_marker h req m0 !! m) ↔
    h' ∈ default ∅ (req !! m) ∧ ¬ (h' = h ∧ m = m0)) as -> by set_solver.
  unfold release_marker. destruct (req !! m0) as [X|] eqn:E.
  - case_bool_decide as Hx; destruct (decide (m0 = m)) as [->|Hne];
      rewrite ?lookup_delete_eq, ?lookup_insert_eq, ?lookup_delete_ne, ?lookup_insert_ne
        by done; rewrite ?E; simpl; set_solver.
  - destruct (decide (m0 = m)) as [->|]; [rewrite E; simpl|]; set_solver.
Qed.

Lemma release_markers_nonempty h req l :
  (∀ m X, req !! m = Some X → X ≠ ∅) →
  ∀ m X, foldl (release_marker h) req l !! m = Some X → X ≠ ∅.
Proof.
  revert req. induction l as [|m0 l IH]; intros req Hreq; simpl; [done|].
  apply IH. intros m X. unfold release_marker.
  destruct (req !! m0) as [Y|]; [|apply Hreq]. case_bool_decide.
  - intros [_ ?]%lookup_delete_Some. by eapply Hreq.
  - rewrite lookup_insert. case_decide; [|apply Hreq]. by intros [= <-].
Qed.

Lemma pending_insert_inv st tx :
  pending_inv st → waiting_queue st !! ppt_hash tx = None → missing_markers tx ≠ ∅ →
  pending_inv (pending_insert st tx).
Proof.
  intros Hi Hq Hm. unfold pending_insert. split; simpl.
  - intros h t. rewrite lookup_insert. case_decide; [naive_solver|apply Hi].
  - intros h t. rewrite lookup_insert. case_decide; [naive_solver|apply Hi].
  - intros m h. rewrite require_markers_elem, elem_of_elements, (pi_required _ Hi).
    unfold waits_for; simpl. rewrite lookup_insert. case_decide as Hh; [|naive_solver].
    subst h. rewrite Hq. naive_solver.
  - apply require_markers_nonempty, Hi.
  - intros p h. rewrite lookup_insert. case_decide.
    + intros [= <-]. exists tx. by rewrite lookup_insert_eq.
    + intros (t & Ht & ?)%(pi_waiting _ Hi). exists t. rewrite lookup_insert_ne; [done|].
      congruence.
Qed.

(** [pending_add_transaction] panics only on a transaction that is ready or
    already queued; otherwise it inserts it or refuses it unchanged. *)
Lemma pending_add_transaction_spec st tx :
  pending_inv st → waiting_queue st !! ppt_hash tx = None → missing_markers tx ≠ ∅ →
  (pending_add_transaction st tx = Ret (pending_insert st tx, Ok tt) ∧
   pending_inv (pending_insert st tx)) ∨
  (pending_add_transaction st tx =
     Ret (st, Err (ReplacementUnderpriced (ppt_transaction tx))) ∧
   ∃ h replace, waiting_queue st !! h = Some replace ∧
     provides (ppt_transaction replace) = provides (ppt_transaction tx) ∧
     ptx_gas_price (ppt_transaction tx) < ptx_gas_price (ppt_transaction replace)).
Proof.
  intros Hi Hq Hm. pose proof (pending_insert_inv st tx Hi Hq Hm) as Hins.
  unfold pending_add_transaction, pending_contains.
  rewrite Hq, (bool_decide_eq_false_2 (is_Some None)) by (by intros []).
  assert (is_ready tx = false) as -> by (by apply bool_decide_eq_false_2).
  simpl. destruct (waiting_markers st !! provides (ppt_transaction tx)) as [h|] eqn:Hw;
    simpl; [|by auto].
  destruct (pi_waiting _ Hi _ _ Hw) as (r & Hr & Hp). rewrite Hr; simpl.
  case_bool; [|by auto]. right. split; [done|]. exists h, r. split_and!; try done. lia.
Qed.

Lemma pending_remove_one_inv st removed h :
  pending_inv st → pending_inv (pending_remove_one (st, removed) h).1.
Proof.
  intros Hi. unfold pending_remove_one.
  destruct (waiting_queue st !! h) as [tx|] eqn:Hq; [|done].
  split; simpl.
  - intros h' t [_ ?]%lookup_delete_Some. by apply Hi.
  - intros h' t [_ ?]%lookup_delete_Some. by eapply pi_missing.
  - intros m h'. rewrite release_markers_elem, elem_of_elements, (pi_required _ Hi).
    unfold waits_for; simpl. rewrite lookup_delete. case_decide as Hh; [|naive_solver].
    subst h'. rewrite Hq. naive_solver.
  - apply release_markers_nonempty, Hi.
  - intros p h' [Hne Hp]%lookup_delete_Some.
    destruct (pi_waiting _ Hi _ _ Hp) as (t & Ht & <-). exists t.
    rewrite lookup_delete_ne; [done|]. congruence.
Qed.

(** Removal takes exactly the listed transactions out of the queue. *)
Lemma pending_remove_spec st hashes :
  pending_inv st →
  let '(st', removed) := pending_remove st hashes in
  pending_inv st' ∧
  (∀ h, waiting_queue st' !! h =
     if decide (h ∈ hashes) then None else waiting_queue st !! h) ∧
  (∀ t, t ∈ removed ↔
     ∃ h tx, h ∈ hashes ∧ waiting_queue st !! h = Some tx ∧ t = ppt_transaction tx) ∧
  (∀ m h, waits_for st' m h → waits_for st m h).
Proof.
  intros Hi. unfold pending_remove.
  induction hashes as [|h hashes IH] using rev_ind; cbn [foldl].
  { split_and!; [done| | |done].
    - intros h. rewrite decide_False; [done|apply not_elem_of_nil].
    - intros t. split; [set_solver|]. intros (h & tx & Hh & _). set_solver. }
  rewrite foldl_app; simpl.
  destruct (foldl pending_remove_one (st, []) hashes) as [cur removed].
  destruct IH as (Hi' & Hq' & Hr' & Hw').
  pose proof (pending_remove_one_inv cur removed h Hi') as Hinv.
  unfold pending_remove_one in *.
  destruct (waiting_queue cur !! h) as [tx|] eqn:Hc; simpl in *.
  - rewrite Hq' in Hc. case_decide as Hh; [done|].
    split_and!; [done| | |].
    + intros h'. rewrite lookup_delete, Hq'. repeat case_decide; set_solver.
    + intros t. rewrite elem_of_app, list_elem_of_singleton, Hr'. split.
      * intros [(h' & tx' & Hin & ?)| ->]; [exists h', tx'|exists h, tx]; set_solver.
      * intros (h' & tx' & Hin & Ht & ->).
        apply elem_of_app in Hin as [Hin|Hin%list_elem_of_singleton];
          [left; by exists h', tx'|right; by simplify_eq].
    + intros m h' (t & Ht & Hm). apply Hw'. exists t. simpl in Ht.
      apply lookup_delete_Some in Ht as [_ Ht]. done.
  - split_and!; [done| | |done].
    + intros h'. rewrite Hq'. destruct (decide (h' = h)) as [->|];
        [|repeat case_decide; set_solver].
      rewrite Hq' in Hc. repeat case_decide; set_solver.
    + intros t. rewrite Hr'. split.
      * intros (h' & tx' & Hin & ?). exists h', tx'. set_solver.
      * intros (h' & tx' & Hin & Ht & ->). exists h', tx'. split_and!; try done.
        apply elem_of_app in Hin as [Hin|Hin%list_elem_of_singleton]; [done|]. subst h'.
        rewrite Hq' in Hc. case_decide; [done|congruence].
Qed.
End pending_ops.

(** ** Markers identify a sender and a nonce *)

Lemma to_marker_inj n1 n2 a1 a2 :
  is_u 64 n1 → is_u 64 n2 → is_u 160 a1 → is_u 160 a2 →
  to_marker n1 a1 = to_marker n2 a2 → n1 = n2 ∧ a1 = a2.
Proof.
  unfold is_u, umax, to_marker, be_bytes. intros Hn1 Hn2 Ha1 Ha2 E.
  apply app_inj_1 in E as [En Ea]; [|by rewrite !length_le_bytes].
  apply rev_inj in Ea. split.
  - rewrite <- (le_value_bytes 8 n1), <- (le_value_bytes 8 n2), En; [done|simpl; lia..].
  - rewrite <- (le_value_bytes 20 a1), <- (le_value_bytes 20 a2), Ea; [done|simpl; lia..].
Qed.
