(* ===== verification/ReadyPool.v ===== *)
(** * The ready queue (crates/anvil/src/eth/pool/transactions.rs, second half)

    [ReadyTransactions]: the transactions that can be included in a block, the
    markers they provide, the links from a transaction to those it unlocks and
    the set of independent transactions ordered by priority.  The invariant
    [markers_inv] says that the marker index is exactly the one the queued
    transactions induce; every operation preserves it and no operation panics
    under it. *)

From stdpp Require Import prelude gmap list.
From S2P Require Import Prelude Containers Transaction PendingPool.

Open Scope Z_scope.

(** ** Data *)

Record PoolTransactionRef := { ref_transaction : PoolTransaction; ref_id : Z }.

(** [Ord for PoolTransactionRef]: by priority, then the older id first. *)
Definition ref_cmp (a b : PoolTransactionRef) : comparison :=
  match priority (ref_transaction a) ?= priority (ref_transaction b) with
  | Eq => ref_id b ?= ref_id a
  | c => c
  end.

#[export] Program Instance ref_ord : RustOrd PoolTransactionRef := {| ord_cmp := ref_cmp |}.
Next Obligation. intros x. unfold ref_cmp. by rewrite !Z.compare_refl. Qed.
Next Obligation.
  intros x y. unfold ref_cmp. rewrite (Z.compare_antisym (priority (ref_transaction x))).
  destruct (priority (ref_transaction x) ?= priority (ref_transaction y)); simpl; try done.
  by rewrite <- Z.compare_antisym.
Qed.
Next Obligation.
  intros x y z. unfold ref_cmp.
  destruct (Z.compare_spec (priority (ref_transaction x)) (priority (ref_transaction y))),
    (Z.compare_spec (priority (ref_transaction y)) (priority (ref_transaction z))),
    (Z.compare_spec (priority (ref_transaction x)) (priority (ref_transaction z)));
    rewrite ?Z.compare_lt_iff; try done; lia.
Qed.
Next Obligation.
  intros x y z. unfold ref_cmp.
  destruct (Z.compare_spec (priority (ref_transaction x)) (priority (ref_transaction y)))
    as [->| |]; try done.
  by intros ->%Z.compare_eq_iff.
Qed.

Definition ref_hash (x : PoolTransactionRef) : TxHash := ptx_hash (ref_transaction x).

Record ReadyTransaction := {
  rt_transaction : PoolTransactionRef;
  unlocks : list TxHash;
  requires_offset : nat
}.

Definition rt_tx (r : ReadyTransaction) : PoolTransaction :=
  ref_transaction (rt_transaction r).
Definition rt_provides (r : ReadyTransaction) : list TxMarker := provides (rt_tx r).
Definition rt_gas_price (r : ReadyTransaction) : Z := ptx_gas_price (rt_tx r).

Definition set_unlocks (l : list TxHash) (r : ReadyTransaction) : ReadyTransaction :=
  {| rt_transaction := rt_transaction r; unlocks := l;
     requires_offset := requires_offset r |}.

Definition incr_offset (r : ReadyTransaction) : ReadyTransaction :=
  {| rt_transaction := rt_transaction r; unlocks := unlocks r;
     requires_offset := S (requires_offset r) |}.

Record ReadyTransactions := {
  next_id_ : Z;
  provided_markers : gmap TxMarker TxHash;
  ready_tx : gmap TxHash ReadyTransaction;
  independent_transactions : list PoolTransactionRef
}.

Definition ready_default : ReadyTransactions :=
  {| next_id_ := 0; provided_markers := ∅; ready_tx := ∅; independent_transactions := [] |}.

(** ** Operations *)

Definition ready_clear (st : ReadyTransactions) : ReadyTransactions :=
  {| next_id_ := next_id_ st; provided_markers := ∅; ready_tx := ∅;
     independent_transactions := [] |}.

Definition ready_contains (st : ReadyTransactions) (h : TxHash) : bool :=
  bool_decide (is_Some (ready_tx st !! h)).

Definition ready_get (st : ReadyTransactions) (h : TxHash) : option ReadyTransaction :=
  ready_tx st !! h.

(** [next_id]: the identifiers wrap around at 64 bits. *)
Definition next_id (st : ReadyTransactions) : Z * ReadyTransactions :=
  (next_id_ st,
   {| next_id_ := next_id_ st +w[64] 1; provided_markers := provided_markers st;
      ready_tx := ready_tx st; independent_transactions := independent_transactions st |}).

Section ready.
Context {order : HashOrder TxHash}.
Implicit Types st : ReadyTransactions.

(** The "remove from unlocks" step of [remove_with_markers] for one required
    marker.  The name [hash] the search compares with is the one the marker
    is bound to: the hash of the transaction that provides it. *)
Definition unlink_marker (provided : gmap TxMarker TxHash)
    (ready : gmap TxHash ReadyTransaction) (m : TxMarker) : gmap TxHash ReadyTransaction :=
  match provided !! m with
  | Some hash =>
      match ready !! hash with
      | Some tx =>
          match position hash (unlocks tx) with
          | Some idx => <[hash := set_unlocks (swap_remove idx (unlocks tx)) tx]> ready
          | None => ready
          end
      | None => ready
      end
  | None => ready
  end.

Definition marker_invalidated (marker_filter : option (gset TxMarker)) (m : TxMarker) : bool :=
  match marker_filter with
  | Some f => negb (bool_decide (m ∈ f))
  | None => true
  end.

Abbreviation rwm_state := (ReadyTransactions * list TxHash * list PoolTransaction)%type.

Definition remove_body (marker_filter : option (gset TxMarker)) (s : rwm_state)
    : outcome (flow rwm_state (ReadyTransactions * list PoolTransaction)) :=
  let '(st, tx_hashes, removed) := s in
  match vec_pop tx_hashes with
  | None => Ret (Break (st, removed))
  | Some (tx_hashes, hash) =>
      match ready_tx st !! hash with
      | None => Ret (Continue (st, tx_hashes, removed))
      | Some tx =>
          let ready := delete hash (ready_tx st) in
          let invalidated := filter (marker_invalidated marker_filter) (rt_provides tx) in
          let removed_some_marks := negb (bool_decide (invalidated = [])) in
          let provided := foldl (λ (p : gmap TxMarker TxHash) m, delete m p) (provided_markers st) invalidated in
          let ready := foldl (unlink_marker provided) ready (requires (rt_tx tx)) in
          let st' :=
            {| next_id_ := next_id_ st; provided_markers := provided; ready_tx := ready;
               independent_transactions :=
                 bt_remove (rt_transaction tx) (independent_transactions st) |} in
          let tx_hashes :=
            if removed_some_marks then tx_hashes ++ unlocks tx else tx_hashes in
          Ret (Continue (st', tx_hashes, removed ++ [rt_tx tx]))
      end
  end.

(** Removes transactions and those that depend on them; with a filter, the
    markers of the filter stay in the index. *)
Definition remove_with_markers st (tx_hashes : list TxHash)
    (marker_filter : option (gset TxMarker))
    : outcome (ReadyTransactions * list PoolTransaction) :=
  run (S (length tx_hashes + map_sum (length ∘ unlocks) (ready_tx st)))
    (remove_body marker_filter) (st, tx_hashes, []).

Definition clear_transactions st (tx_hashes : list TxHash) :=
  remove_with_markers st tx_hashes None.

(** The loop of [replaced_transactions] over the transactions to remove:
    collects what they unlock, or stops at one that must not be replaced. *)
Fixpoint collect_unlocked (tx : PoolTransaction) (rs : list ReadyTransaction)
    (acc : list TxHash) : result (list TxHash) PoolError :=
  match rs with
  | [] => Ok acc
  | r :: rs =>
      if bool_decide (rt_provides r = provides tx) && (ptx_gas_price tx <=? rt_gas_price r)
      then Err (ReplacementUnderpriced tx)
      else collect_unlocked tx rs (acc ++ unlocks r)
  end.

(** Removes and returns the transactions that [tx] replaces, with the hashes
    of the transactions they unlocked. *)
Definition replaced_transactions st (tx : PoolTransaction)
    : outcome (ReadyTransactions * result (list PoolTransaction * list TxHash) PoolError) :=
  let remove_hashes : gset TxHash :=
    list_to_set (omap (λ m, provided_markers st !! m) (provides tx)) in
  if bool_decide (remove_hashes = ∅) then Ret (st, Ok ([], []))
  else
    let rs := omap (λ h, ready_tx st !! h) (set_iter remove_hashes) in
    match collect_unlocked tx rs [] with
    | Err e => Ret (st, Err e)
    | Ok unlocked_tx =>
        remove_with_markers st (set_iter remove_hashes) (Some (list_to_set (provides tx)))
          ≫= λ '(st', removed_tx), Ret (st', Ok (removed_tx, unlocked_tx))
    end.

(** The loop of [add_transaction] over the required markers: links the
    transactions that unlock the new one. *)
Definition link_marker (provided : gmap TxMarker TxHash) (hash : TxHash)
    (s : gmap TxHash ReadyTransaction * bool * nat) (m : TxMarker)
    : outcome (gmap TxHash ReadyTransaction * bool * nat) :=
  let '(ready, independent, requires_offset) := s in
  match provided !! m with
  | Some other =>
      expect (ready !! other) ≫= λ tx,
      Ret (<[other := set_unlocks (unlocks tx ++ [hash]) tx]> ready, false, requires_offset)
  | None => Ret (ready, independent, S requires_offset)
  end.

(** The rest of [add_transaction] once the links are made: the markers, the
    independent set and the entry of the new transaction. *)
Definition insert_ready st (tx : PendingPoolTransaction) (id : Z) (unlocks : list TxHash)
    (s : gmap TxHash ReadyTransaction * bool * nat) : ReadyTransactions :=
  let '(ready, independent, requires_offset) := s in
  let hash := ppt_hash tx in
  let provided :=
    foldl (λ (p : gmap TxMarker TxHash) m, <[m := hash]> p) (provided_markers st)
      (provides (ppt_transaction tx)) in
  let transaction := {| ref_transaction := ppt_transaction tx; ref_id := id |} in
  {| next_id_ := next_id_ st;
     provided_markers := provided;
     ready_tx := <[hash := {| rt_transaction := transaction; unlocks := unlocks;
                              requires_offset := requires_offset |}]> ready;
     independent_transactions :=
       if independent then bt_insert transaction (independent_transactions st)
       else independent_transactions st |}.

(** Adds a transaction whose markers are all satisfied. *)
Definition ready_add_transaction st (tx : PendingPoolTransaction)
    : outcome (ReadyTransactions * result (list PoolTransaction) PoolError) :=
  assert_ (is_ready tx) ≫= λ _,
  assert_ (negb (ready_contains st (ppt_hash tx))) ≫= λ _,
  replaced_transactions st (ppt_transaction tx) ≫= λ '(st, r),
  match r with
  | Err e => Ret (st, Err e)
  | Ok (replaced_tx, unlocks) =>
      let '(id, st) := next_id st in
      foldM (link_marker (provided_markers st) (ppt_hash tx)) (ready_tx st, true, 0%nat)
        (requires (ppt_transaction tx)) ≫= λ s,
      Ret (insert_ready st tx id unlocks s, Ok replaced_tx)
  end.

(** [previous_markers] and its caller: drops [hash] from the unlocks of the
    transaction that provides [m]; when nothing is left to unlock, the
    markers of that transaction are to be pruned too. *)
Definition prune_previous (provided : gmap TxMarker TxHash) (hash : TxHash)
    (s : gmap TxHash ReadyTransaction * list TxMarker) (m : TxMarker)
    : gmap TxHash ReadyTransaction * list TxMarker :=
  let '(ready, remove) := s in
  match provided !! m ≫= λ prev_hash, (pair prev_hash) <$> ready !! prev_hash with
  | Some (prev_hash, tx2) =>
      let l := match position hash (unlocks tx2) with
               | Some idx => swap_remove idx (unlocks tx2)
               | None => unlocks tx2
               end in
      let ready := <[prev_hash := set_unlocks l tx2]> ready in
      if bool_decide (l = []) then (ready, remove ++ rt_provides tx2) else (ready, remove)
  | None => (ready, remove)
  end.

(** One step of "add the transactions that just got unlocked". *)
Definition unlock_one (s : gmap TxHash ReadyTransaction * list PoolTransactionRef)
    (hash : TxHash) : gmap TxHash ReadyTransaction * list PoolTransactionRef :=
  let '(ready, indep) := s in
  match ready !! hash with
  | Some tx =>
      let tx := incr_offset tx in
      (<[hash := tx]> ready,
       if bool_decide (requires_offset tx = length (requires (rt_tx tx)))
       then bt_insert (rt_transaction tx) indep else indep)
  | None => s
  end.

(** Removal of the pruned transaction's markers, with its [assert_eq!]. *)
Definition prune_provided (current_marker : TxMarker) (hash : TxHash)
    (provided : gmap TxMarker TxHash) (m : TxMarker) : outcome (gmap TxMarker TxHash) :=
  assert_ (bool_decide (provided !! m =
             if bool_decide (current_marker = m) then None else Some hash)) ≫= λ _,
  Ret (delete m provided).

Abbreviation prune_state := (ReadyTransactions * list TxMarker * list PoolTransaction)%type.

Definition prune_body (s : prune_state)
    : outcome (flow prune_state (ReadyTransactions * list PoolTransaction)) :=
  let '(st, remove, removed_tx) := s in
  match vec_pop remove with
  | None => Ret (Break (st, removed_tx))
  | Some (remove, marker) =>
      let provided := delete marker (provided_markers st) in
      match provided_markers st !! marker
              ≫= λ hash, (pair hash) <$> ready_tx st !! hash with
      | None =>
          Ret (Continue
            ({| next_id_ := next_id_ st; provided_markers := provided;
                ready_tx := ready_tx st;
                independent_transactions := independent_transactions st |},
             remove, removed_tx))
      | Some (h, tx) =>
          let ready := delete h (ready_tx st) in
          let indep := bt_remove (rt_transaction tx) (independent_transactions st) in
          let hash := ptx_hash (rt_tx tx) in
          let '(ready, remove) :=
            foldl (prune_previous provided hash) (ready, remove) (requires (rt_tx tx)) in
          let '(ready, indep) := foldl unlock_one (ready, indep) (unlocks tx) in
          foldM (prune_provided marker hash) provided (rt_provides tx) ≫= λ provided,
          Ret (Continue
            ({| next_id_ := next_id_ st; provided_markers := provided; ready_tx := ready;
                independent_transactions := indep |},
             remove, removed_tx ++ [rt_tx tx]))
      end
  end.

Definition prune_fuel (ready : gmap TxHash ReadyTransaction) : nat :=
  map_sum (λ r, length (requires (rt_tx r)) * map_sum (length ∘ rt_provides) ready)%nat ready.

(** Removes the transaction that provides the marker and the transactions
    that led to it. *)
Definition prune_tags st (marker : TxMarker)
    : outcome (ReadyTransactions * list PoolTransaction) :=
  run (S (S (prune_fuel (ready_tx st)))) prune_body (st, [marker], []).
End ready.

(** ** The marker index *)

(** The references and the transactions of the queue, forgetting the links. *)
Definition refs (ready : gmap TxHash ReadyTransaction) : gmap TxHash PoolTransactionRef :=
  rt_transaction <$> ready.
Definition txs (ready : gmap TxHash ReadyTransaction) : gmap TxHash PoolTransaction :=
  ref_transaction <$> refs ready.

(** Every transaction is filed under its hash and provides distinct markers,
    and a marker is bound to a hash exactly when that transaction provides it.
    [F] holds markers whose binding may dangle, in the middle of a replacement. *)
Record markers_inv (F : gset TxMarker) (T : gmap TxHash PoolTransaction)
    (provided : gmap TxMarker TxHash) : Prop := {
  mi_hash : ∀ h t, T !! h = Some t → ptx_hash t = h;
  mi_nodup : ∀ h t, T !! h = Some t → NoDup (provides t);
  mi_provides : ∀ h t m, T !! h = Some t → m ∈ provides t → provided !! m = Some h;
  mi_provided : ∀ m h, provided !! m = Some h →
    m ∈ F ∨ ∃ t, T !! h = Some t ∧ m ∈ provides t
}.

(** The independent set is sorted and its references are those of the queue. *)
Record order_inv (st : ReadyTransactions) : Prop := {
  oi_sorted : bt_sorted (independent_transactions st);
  oi_refs : ∀ x, x ∈ independent_transactions st →
    refs (ready_tx st) !! ref_hash x = Some x
}.

(** [h] unlocks [h']. *)
Definition link (ready : gmap TxHash ReadyTransaction) (h h' : TxHash) : Prop :=
  ∃ r, ready !! h = Some r ∧ h' ∈ unlocks r.

Abbreviation ready_inv st := (markers_inv ∅ (txs (ready_tx st)) (provided_markers st)).

Lemma txs_lookup ready h : txs ready !! h = rt_tx <$> ready !! h.
Proof. unfold txs, refs. rewrite !lookup_fmap. by destruct (ready !! h). Qed.

Lemma txs_lookup_Some ready h t :
  txs ready !! h = Some t ↔ ∃ r, ready !! h = Some r ∧ t = rt_tx r.
Proof. rewrite txs_lookup. destruct (ready !! h); naive_solver. Qed.

Lemma refs_lookup_Some ready h x :
  refs ready !! h = Some x ↔ ∃ r, ready !! h = Some r ∧ x = rt_transaction r.
Proof. unfold refs. rewrite lookup_fmap. destruct (ready !! h); naive_solver. Qed.

(** Updating the links of an entry changes no reference. *)
Lemma refs_update ready h r r' :
  ready !! h = Some r → rt_transaction r' = rt_transaction r →
  refs (<[h := r']> ready) = refs ready.
Proof.
  intros Hr E. unfold refs. rewrite fmap_insert, E. apply insert_id.
  by rewrite lookup_fmap, Hr.
Qed.

Lemma txs_refs ready ready' : refs ready = refs ready' → txs ready = txs ready'.
Proof. unfold txs. by intros ->. Qed.

Lemma refs_delete ready h : refs (delete h ready) = delete h (refs ready).
Proof. apply fmap_delete. Qed.

Lemma txs_delete ready h : txs (delete h ready) = delete h (txs ready).
Proof. unfold txs. by rewrite refs_delete, fmap_delete. Qed.

Lemma txs_insert ready h r : txs (<[h := r]> ready) = <[h := rt_tx r]> (txs ready).
Proof. unfold txs, refs. by rewrite !fmap_insert. Qed.

Lemma foldl_insert_lookup (p : gmap TxMarker TxHash) h l m :
  foldl (λ (p : gmap TxMarker TxHash) m, <[m := h]> p) p l !! m =
  if decide (m ∈ l) then Some h else p !! m.
Proof.
  revert p. induction l as [|m0 l IH]; intros p; cbn [foldl].
  - by rewrite decide_False by apply not_elem_of_nil.
  - rewrite IH, lookup_insert. repeat case_decide; set_solver.
Qed.

(** Folding a step that preserves a property of the map preserves it. *)
Lemma foldl_preserve {A B} (P : A → Prop) (f : A → B → A) l a :
  (∀ a b, P a → P (f a b)) → P a → P (foldl f a l).
Proof. intros Hf. revert a. induction l; simpl; auto. Qed.

Lemma link_update ready h0 r0 l h h' :
  ready !! h0 = Some r0 → l ⊆ unlocks r0 →
  link (<[h0 := set_unlocks l r0]> ready) h h' → link ready h h'.
Proof.
  intros Hr0 Hl (r & Hr & Hin). rewrite lookup_insert in Hr. case_decide; [|by exists r].
  simplify_eq. exists r0. split; [done|]. by apply Hl.
Qed.

Section ready_spec.
Context {order : HashOrder TxHash}.
Implicit Types (st : ReadyTransactions) (ready : gmap TxHash ReadyTransaction).

Lemma unlink_refs p ready m : refs (unlink_marker p ready m) = refs ready.
Proof.
  unfold unlink_marker. destruct (p !! m) as [h|]; [|done].
  destruct (ready !! h) as [r|] eqn:Hr; [|done].
  destruct (position h (unlocks r)); [|done]. by eapply refs_update.
Qed.

Lemma unlink_all_refs p ready l : refs (foldl (unlink_marker p) ready l) = refs ready.
Proof.
  apply (foldl_preserve (λ r, refs r = refs ready)); [|done].
  intros r m <-. apply unlink_refs.
Qed.

Lemma unlink_all_sum p ready l :
  (map_sum (length ∘ unlocks) (foldl (unlink_marker p) ready l) ≤
   map_sum (length ∘ unlocks) ready)%nat.
Proof.
  apply (foldl_preserve
    (λ r, map_sum (length ∘ unlocks) r ≤ map_sum (length ∘ unlocks) ready)%nat); [|lia].
  intros r m Hle. etrans; [|exact Hle]. unfold unlink_marker.
  destruct (p !! m) as [h|]; [|lia]. destruct (r !! h) as [t|] eqn:Hr; [|lia].
  destruct (position h (unlocks t)) as [i|]; [|lia].
  pose proof (map_sum_insert (length ∘ unlocks) r h t
    (set_unlocks (swap_remove i (unlocks t)) t) Hr) as Hs.
  pose proof (length_swap_remove i (unlocks t)). simpl in Hs. lia.
Qed.

Lemma unlink_all_link p ready l h h' :
  link (foldl (unlink_marker p) ready l) h h' → link ready h h'.
Proof.
  apply (foldl_preserve (λ r, link r h h' → link ready h h')); [|done].
  intros r m Hr Hl. apply Hr. revert Hl. unfold unlink_marker.
  destruct (p !! m) as [h0|]; [|done]. destruct (r !! h0) as [r0|] eqn:Hr0; [|done].
  destruct (position h0 (unlocks r0)); [|done].
  apply link_update; [done|apply swap_remove_subseteq].
Qed.

Lemma link_delete ready h0 h h' : link (delete h0 ready) h h' → link ready h h'.
Proof. intros (r & [_ ?]%lookup_delete_Some & ?). by exists r. Qed.

(** No queued transaction unlocks itself. *)
Definition no_self_unlock ready : Prop := ∀ h r, ready !! h = Some r → h ∉ unlocks r.

(** The comparison in [unlink_marker] only ever finds a transaction that
    unlocks itself: otherwise the step changes nothing. *)
Lemma unlink_all_id p ready l :
  no_self_unlock ready → foldl (unlink_marker p) ready l = ready.
Proof.
  intros Hs. induction l as [|m l IH]; simpl; [done|].
  enough (unlink_marker p ready m = ready) as -> by done.
  unfold unlink_marker. destruct (p !! m) as [h|]; [|done].
  destruct (ready !! h) as [r|] eqn:Hr; [|done].
  by rewrite position_None by eauto.
Qed.

(** The contract of [remove_with_markers]; [F] is the filter ([∅] for none). *)
Record removal (F : gset TxMarker) (hs : list TxHash) st st'
    (removed : list PoolTransaction) : Prop := {
  rm_txs : txs (ready_tx st') ⊆ txs (ready_tx st);
  rm_gone : ∀ h, h ∈ hs → txs (ready_tx st') !! h = None;
  rm_removed : ∀ t, t ∈ removed ↔
    ∃ h, txs (ready_tx st) !! h = Some t ∧ txs (ready_tx st') !! h = None;
  rm_provided : provided_markers st' ⊆ provided_markers st;
  rm_keep : ∀ m, m ∈ F → provided_markers st' !! m = provided_markers st !! m;
  rm_inv : markers_inv F (txs (ready_tx st')) (provided_markers st');
  rm_links : no_self_unlock (ready_tx st) → ready_tx st' ⊆ ready_tx st;
  rm_id : next_id_ st' = next_id_ st;
  rm_order : order_inv st → order_inv st';
  rm_link : ∀ h h', link (ready_tx st') h h' → link (ready_tx st) h h'
}.

Lemma marker_invalidated_spec f m :
  marker_invalidated f m = true ↔ m ∉ (default ∅ f : gset TxMarker).
Proof.
  destruct f as [f|]; simpl; [|set_solver].
  rewrite negb_true_iff, bool_decide_eq_false. done.
Qed.

(** Deleting a transaction together with its invalidated markers keeps the
    index correct up to the filter. *)
Lemma markers_inv_delete F T p h t f :
  default ∅ f = F → markers_inv F T p → T !! h = Some t →
  markers_inv F (delete h T)
    (foldl (λ (p : gmap TxMarker TxHash) m, delete m p) p
       (filter (marker_invalidated f) (provides t))).
Proof.
  intros <- Hi Ht.
  assert (∀ m, m ∈ filter (marker_invalidated f) (provides t) ↔
            m ∈ provides t ∧ m ∉ (default ∅ f : gset TxMarker)) as Hfil.
  { intros m. rewrite list_elem_of_filter, Is_true_true, marker_invalidated_spec.
    naive_solver. }
  split.
  - intros h' t' [_ ?]%lookup_delete_Some. by eapply mi_hash.
  - intros h' t' [_ ?]%lookup_delete_Some. by eapply mi_nodup.
  - intros h' t' m [Hne Ht']%lookup_delete_Some Hm. rewrite foldl_delete_lookup.
    pose proof (mi_provides _ _ _ Hi _ _ _ Ht' Hm) as Hp. case_decide as Hin; [|done].
    apply Hfil in Hin as [Hin _]. pose proof (mi_provides _ _ _ Hi _ _ _ Ht Hin). congruence.
  - intros m h'. rewrite foldl_delete_lookup. case_decide as Hin; [done|]. intros Hp.
    destruct (mi_provided _ _ _ Hi _ _ Hp) as [?|(t' & Ht' & Hm)]; [by left|].
    destruct (decide (h' = h)) as [->|Hne].
    + left. simplify_eq. rewrite Hfil in Hin. destruct (decide (m ∈ (default ∅ f : gset _)));
        [done|]. naive_solver.
    + right. exists t'. by rewrite lookup_delete_ne.
Qed.

(** The state after one transaction left the queue. *)
Definition remove_step (f : option (gset TxMarker)) st (h : TxHash) (r : ReadyTransaction)
    : ReadyTransactions :=
  let provided := foldl (λ (p : gmap TxMarker TxHash) m, delete m p) (provided_markers st)
    (filter (marker_invalidated f) (rt_provides r)) in
  {| next_id_ := next_id_ st; provided_markers := provided;
     ready_tx := foldl (unlink_marker provided) (delete h (ready_tx st)) (requires (rt_tx r));
     independent_transactions :=
       bt_remove (rt_transaction r) (independent_transactions st) |}.

Lemma order_inv_take f st h r :
  ready_tx st !! h = Some r → order_inv st → order_inv (remove_step f st h r).
Proof.
  intros Hr [Hs Ho]. split; simpl; [by apply bt_remove_sorted|].
  intros x Hx. rewrite unlink_all_refs, refs_delete.
  pose proof (Ho x (bt_remove_elem_of _ _ _ Hx)) as Hl. rewrite lookup_delete_ne; [done|].
  intros ->. unfold refs in Hl. rewrite lookup_fmap, Hr in Hl. simplify_eq/=.
  by eapply bt_remove_gone, ord_refl.
Qed.

Lemma removal_step F f dn st cur removed h r :
  default ∅ f = F → removal F dn st cur removed → ready_tx cur !! h = Some r →
  removal F (h :: dn) st (remove_step f cur h r) (removed ++ [rt_tx r]).
Proof.
  intros HF R Hr.
  assert (txs (ready_tx (remove_step f cur h r)) = delete h (txs (ready_tx cur))) as ET.
  { unfold remove_step; simpl. rewrite <- txs_delete. apply txs_refs, unlink_all_refs. }
  assert (txs (ready_tx cur) !! h = Some (rt_tx r)) as Ht by (by rewrite txs_lookup, Hr).
  pose proof (rm_txs _ _ _ _ _ R) as Hsub.
  assert (txs (ready_tx st) !! h = Some (rt_tx r)) as Ht0 by (by eapply lookup_weaken).
  split.
  - rewrite ET. etrans; [apply delete_subseteq|done].
  - intros h' Hh'. rewrite ET, lookup_delete_None.
    apply elem_of_cons in Hh' as [->|?]; [by left|right]. by apply (rm_gone _ _ _ _ _ R).
  - intros t. rewrite elem_of_app, list_elem_of_singleton, (rm_removed _ _ _ _ _ R), ET.
    setoid_rewrite lookup_delete_None. split.
    + intros [(h' & ? & ?)| ->]; [exists h'|exists h]; auto.
    + intros (h' & Ht' & [<-|Hn]); [right; congruence|left; eauto].
  - apply map_subseteq_spec. intros m h'. unfold remove_step; simpl.
    rewrite foldl_delete_lookup. case_decide; [done|]. intros Hm.
    eapply lookup_weaken; [exact Hm|apply R].
  - intros m Hm. unfold remove_step; simpl.
    rewrite foldl_delete_lookup, decide_False; [by apply (rm_keep _ _ _ _ _ R)|].
    rewrite list_elem_of_filter, Is_true_true, marker_invalidated_spec, HF. tauto.
  - rewrite ET. apply markers_inv_delete; [done|apply R|done].
  - intros Hs. pose proof (rm_links _ _ _ _ _ R Hs) as Hl. unfold remove_step; simpl.
    rewrite unlink_all_id.
    + etrans; [apply delete_subseteq|done].
    + intros h' r' [_ Hr']%lookup_delete_Some. eapply Hs. by eapply lookup_weaken.
  - apply R.
  - intros Ho. by apply order_inv_take, (rm_order _ _ _ _ _ R).
  - intros h0 h' ?%unlink_all_link%link_delete. by apply (rm_link _ _ _ _ _ R).
Qed.

Lemma remove_with_markers_spec F st hs f :
  default ∅ f = F → markers_inv F (txs (ready_tx st)) (provided_markers st) →
  ∃ st' removed, remove_with_markers st hs f = Ret (st', removed) ∧
                 removal F hs st st' removed.
Proof.
  intros HF Hi.
  set (I := λ s : ReadyTransactions * list TxHash * list PoolTransaction,
    let '(st', rest, removed) := s in
    ∃ done, removal F done st st' removed ∧ ∀ h, h ∈ hs → h ∈ done ∨ h ∈ rest).
  set (μ := λ s : ReadyTransactions * list TxHash * list PoolTransaction,
    let '(st', rest, _) := s in
    (length rest + map_sum (length ∘ unlocks) (ready_tx st'))%nat).
  destruct (run_spec I (λ r, removal F hs st r.1 r.2) μ (remove_body f)) with
    (fuel := S (length hs + map_sum (length ∘ unlocks) (ready_tx st)))
    (s := (st, hs, @nil PoolTransaction)) as ([st' removed] & E & R).
  - intros [[cur rest] removed] (dn & R & Hrest). unfold remove_body.
    destruct rest as [|h rest _] using rev_ind.
    { right. exists (cur, removed). split; [done|]; simpl. destruct R; split; try done.
      intros h Hh. destruct (Hrest h Hh) as [?|?]; [auto|set_solver]. }
    left. rewrite vec_pop_snoc. destruct (ready_tx cur !! h) as [r|] eqn:Hr.
    + eexists (_, _, _). split; [done|]. split.
      * exists (h :: dn). split; [by apply (removal_step F f)|].
        intros h' Hh'. specialize (Hrest h' Hh'). case_match; set_solver.
      * unfold μ; simpl. rewrite (map_sum_delete _ _ _ _ Hr).
        match goal with |- context [foldl (unlink_marker ?p) ?rd ?l] =>
          pose proof (unlink_all_sum p rd l) end.
        case_match; rewrite !length_app; simpl; lia.
    + eexists (_, _, _). split; [done|]. split; [|unfold μ; rewrite length_app; simpl; lia].
      exists (h :: dn). split; [|set_solver]. destruct R; split; try done.
      intros h' [->|?]%elem_of_cons; [|auto]. by rewrite txs_lookup, Hr.
  - exists []. split; [|auto]. split; try done; [set_solver|].
    intros t. split; [set_solver|]. intros (h & ? & ?). congruence.
  - unfold μ. lia.
  - by exists st', removed.
Qed.
Lemma markers_inv_weaken F T p : markers_inv ∅ T p → markers_inv F T p.
Proof.
  intros Hi. split; [apply Hi..|]. intros m h Hp.
  destruct (mi_provided _ _ _ Hi _ _ Hp) as [?|?]; [set_solver|auto].
Qed.

Lemma removal_refl F st :
  markers_inv F (txs (ready_tx st)) (provided_markers st) → removal F [] st st [].
Proof.
  intros Hi. split; try done; [set_solver|].
  intros t. split; [set_solver|]. intros (h & ? & ?). congruence.
Qed.

Lemma collect_unlocked_spec tx rs acc :
  match collect_unlocked tx rs acc with
  | Ok ul =>
      (∀ r, r ∈ rs → rt_provides r = provides tx → rt_gas_price r < ptx_gas_price tx) ∧
      ∀ h, h ∈ ul ↔ h ∈ acc ∨ ∃ r, r ∈ rs ∧ h ∈ unlocks r
  | Err e => e = ReplacementUnderpriced tx ∧
      ∃ r, r ∈ rs ∧ rt_provides r = provides tx ∧ ptx_gas_price tx ≤ rt_gas_price r
  end.
Proof.
  revert acc. induction rs as [|r rs IH]; intros acc; simpl; [set_solver|].
  case_bool_decide as Hp; simpl; [case_bool|].
  { split; [done|]. exists r. split_and!; [set_solver|done|lia]. }
  all: specialize (IH (acc ++ unlocks r)); destruct (collect_unlocked _ _ _);
    [|destruct IH as [? (r' & ? & ?)]; split; [done|]; exists r'; set_solver].
  all: destruct IH as [IH1 IH2]; split;
    [intros r' [->|?]%elem_of_cons; [first [done|lia]|auto]|].
  all: intros h; rewrite IH2, elem_of_app; split;
    [intros [[?|?]|(r' & ? & ?)]; [by left|right; exists r; set_solver|right; exists r'; set_solver]
    |intros [?|(r' & [->|?]%elem_of_cons & ?)]; eauto].
Qed.

(** The transactions whose markers the new transaction takes over. *)
Definition replaces st (t : PoolTransaction) (h : TxHash) : Prop :=
  ∃ m, m ∈ provides t ∧ provided_markers st !! m = Some h.

Lemma replaced_transactions_spec st t :
  ready_inv st →
  (replaced_transactions st t = Ret (st, Err (ReplacementUnderpriced t)) ∧
   ∃ h r, replaces st t h ∧ ready_tx st !! h = Some r ∧ rt_provides r = provides t ∧
          ptx_gas_price t ≤ rt_gas_price r) ∨
  (∃ st' removed unlocked hs,
     replaced_transactions st t = Ret (st', Ok (removed, unlocked)) ∧
     removal (list_to_set (provides t)) hs st st' removed ∧
     (∀ h, h ∈ hs ↔ replaces st t h) ∧
     (∀ h, h ∈ unlocked → ∃ h0, replaces st t h0 ∧ link (ready_tx st) h0 h) ∧
     ∀ h r, replaces st t h → ready_tx st !! h = Some r → rt_provides r = provides t →
            rt_gas_price r < ptx_gas_price t).
Proof.
  intros Hi. unfold replaced_transactions.
  set (X := list_to_set (omap (λ m, provided_markers st !! m) (provides t)) : gset TxHash).
  assert (∀ h, h ∈ X ↔ replaces st t h) as HX.
  { intros h. unfold X, replaces. rewrite elem_of_list_to_set, list_elem_of_omap. done. }
  case_bool_decide as HX0.
  { right. exists st, [], [], []. split_and!; [done| | | |].
    - by apply removal_refl, markers_inv_weaken.
    - intros h. rewrite <- HX, HX0. set_solver.
    - intros h Hh. by apply elem_of_nil in Hh.
    - intros h r Hh%HX. set_solver. }
  set (rs := omap (λ h, ready_tx st !! h) (set_iter X)).
  assert (∀ r, r ∈ rs ↔ ∃ h, replaces st t h ∧ ready_tx st !! h = Some r) as Hrs.
  { intros r. unfold rs. rewrite list_elem_of_omap. setoid_rewrite set_iter_elem_of.
    by setoid_rewrite HX. }
  pose proof (collect_unlocked_spec t rs []) as Hc.
  destruct (collect_unlocked t rs []) as [ul|e].
  - right. destruct (remove_with_markers_spec (list_to_set (provides t)) st (set_iter X)
      (Some (list_to_set (provides t)))) as (st' & removed & E & R);
      [done|by apply markers_inv_weaken|].
    exists st', removed, ul, (set_iter X). rewrite E. split_and!; [done|done| | |].
    + intros h. by rewrite set_iter_elem_of.
    + intros h [Hh|(r & (h0 & ? & ?)%Hrs & ?)]%(proj2 Hc); [by apply elem_of_nil in Hh|].
      exists h0. split; [done|]. by exists r.
    + intros h r Hh Hr. apply Hc, Hrs. eauto.
  - left. destruct Hc as [-> (r & (h & ? & ?)%Hrs & ? & ?)]. split; [done|]. by exists h, r.
Qed.

(** Linking never panics when the index only dangles outside the required
    markers; it counts the markers nobody in the queue provides. *)
Lemma link_markers_spec p h ready reqs :
  (∀ m h', m ∈ reqs → p !! m = Some h' → is_Some (txs ready !! h')) →
  ∃ ready' indep off,
    foldM (link_marker p h) (ready, true, 0%nat) reqs = Ret (ready', indep, off) ∧
    refs ready' = refs ready ∧
    (∀ h1 h2, link ready' h1 h2 → link ready h1 h2 ∨
       (h2 = h ∧ ∃ m, m ∈ reqs ∧ p !! m = Some h1)) ∧
    off = length (filter (λ m, p !! m = None) reqs) ∧
    indep = bool_decide (Forall (λ m, p !! m = None) reqs).
Proof.
  intros Hp.
  destruct (foldM_spec (link_marker p h)
    (λ dn s, refs s.1.1 = refs ready ∧
             (∀ h1 h2, link s.1.1 h1 h2 → link ready h1 h2 ∨
                (h2 = h ∧ ∃ m, m ∈ dn ∧ p !! m = Some h1)) ∧ s.2 = length (filter (λ m, p !! m = None) dn) ∧
             s.1.2 = bool_decide (Forall (λ m, p !! m = None) dn)) reqs (ready, true, 0%nat))
    as ([[ready' indep] off] & E & HT & Hlink & Hoff & Hind).
  - split_and!; [done|auto|done|]. symmetry. apply bool_decide_eq_true_2. constructor.
  - intros dn m rest [[cur ind] off] Hl (HT & Hlink & Hoff & Hind); simpl in *.
    rewrite filter_app, length_app; simpl.
    destruct (p !! m) as [h'|] eqn:Hm.
    + destruct (Hp m h') as [t Ht]; [rewrite Hl; set_solver|done|].
      rewrite <- (txs_refs _ _ HT) in Ht.
      apply txs_lookup_Some in Ht as (r & Hr & _). rewrite Hr; simpl.
      eexists. split; [done|]; simpl. split_and!.
      * rewrite <- HT. by eapply refs_update.
      * intros h1 h2 (r1 & Hr1 & Hin). rewrite lookup_insert in Hr1. case_decide as Eh.
        -- simplify_eq/=. apply elem_of_app in Hin as [Hin|Hin%list_elem_of_singleton].
           ++ destruct (Hlink h1 h2) as [?|[? (m' & ? & ?)]]; [by exists r|by left|right].
              split; [done|]. exists m'. set_solver.
           ++ right. split; [done|]. exists m. set_solver.
        -- destruct (Hlink h1 h2) as [?|[? (m' & ? & ?)]]; [by exists r1|by left|right].
           split; [done|]. exists m'. set_solver.
      * rewrite filter_cons_False, filter_nil by (by rewrite Hm). simpl. lia.
      * symmetry. apply bool_decide_eq_false_2. rewrite Forall_app, Forall_singleton, Hm.
        by intros [_ ?].
    + eexists. split; [done|]; simpl. split_and!; [done| | |].
      * intros h1 h2 Hl'. destruct (Hlink h1 h2 Hl') as [?|[? (m' & ? & ?)]]; [by left|right].
        split; [done|]. exists m'. set_solver.
      * rewrite filter_cons_True, filter_nil by done. simpl. lia.
      * rewrite Hind. apply bool_decide_ext. rewrite Forall_app, Forall_singleton. tauto.
  - simpl in *. by exists ready', indep, off.
Qed.
(** A transaction the queue accepts: distinct provided markers, none of
    which it requires itself. *)
Definition tx_wf (t : PoolTransaction) : Prop :=
  NoDup (provides t) ∧ ∀ m, m ∈ provides t → m ∉ requires t.

(** The effect of a successful [ready_add_transaction]. *)
Record ready_added (t : PoolTransaction) st st' (replaced : list PoolTransaction) : Prop := {
  ra_new : txs (ready_tx st') !! ptx_hash t = Some t;
  ra_old : ∀ h t', h ≠ ptx_hash t → txs (ready_tx st') !! h = Some t' →
    txs (ready_tx st) !! h = Some t';
  ra_replaced : ∀ t', t' ∈ replaced ↔
    ∃ h, txs (ready_tx st) !! h = Some t' ∧ txs (ready_tx st') !! h = None;
  ra_gone : ∀ h, replaces st t h → txs (ready_tx st') !! h = None;
  ra_price : ∀ h r, replaces st t h → ready_tx st !! h = Some r →
    rt_provides r = provides t → rt_gas_price r < ptx_gas_price t;
  ra_provided : ∀ m, is_Some (provided_markers st' !! m) →
    m ∈ provides t ∨ is_Some (provided_markers st !! m);
  ra_inv : ready_inv st';
  ra_order : order_inv st → order_inv st';
  ra_link : ∀ h h', link (ready_tx st') h h' →
    link (ready_tx st) h h' ∨
    (h = ptx_hash t ∧ ∃ h0, replaces st t h0 ∧ link (ready_tx st) h0 h') ∨
    (h' = ptx_hash t ∧ ∃ m, m ∈ requires t ∧ provided_markers st !! m = Some h)
}.

Lemma insert_ready_inv T p t :
  markers_inv (list_to_set (provides t)) T p → T !! ptx_hash t = None →
  NoDup (provides t) →
  (∀ h t' m, T !! h = Some t' → m ∈ provides t' → m ∉ provides t) →
  markers_inv ∅ (<[ptx_hash t := t]> T)
    (foldl (λ (p : gmap TxMarker TxHash) m, <[m := ptx_hash t]> p) p (provides t)).
Proof.
  intros Hi HT Hnd Hdis. split.
  - intros h t'. rewrite lookup_insert. case_decide; [naive_solver|apply Hi].
  - intros h t'. rewrite lookup_insert. case_decide; [naive_solver|apply Hi].
  - intros h t' m. rewrite lookup_insert, foldl_insert_lookup. case_decide as Hh.
    + intros [= ->] Hm. rewrite decide_True by done. by subst.
    + intros Ht' Hm. rewrite decide_False by eauto. by eapply mi_provides.
  - intros m h. rewrite foldl_insert_lookup. case_decide as Hm.
    + intros [= <-]. right. exists t. by rewrite lookup_insert_eq.
    + intros Hp. destruct (mi_provided _ _ _ Hi _ _ Hp) as [?|(t' & Ht' & ?)]; [set_solver|].
      right. exists t'. rewrite lookup_insert_ne; [done|]. congruence.
Qed.

Lemma insert_ready_order mid tx id ul ready' indep off :
  order_inv mid → txs (ready_tx mid) !! ppt_hash tx = None → refs ready' = refs (ready_tx mid) →
  order_inv (insert_ready mid tx id ul (ready', indep, off)).
Proof.
  intros [Hs Ho] Hh HR.
  assert (refs (ready_tx (insert_ready mid tx id ul (ready', indep, off))) =
    <[ppt_hash tx := {| ref_transaction := ppt_transaction tx; ref_id := id |}]>
      (refs (ready_tx mid))) as ER by (simpl; unfold refs in *; by rewrite fmap_insert, HR).
  assert (∀ x, x ∈ independent_transactions mid → ref_hash x ≠ ppt_hash tx) as Hne.
  { intros x Hx E. apply Ho in Hx. unfold txs in Hh. rewrite E in Hx.
    by rewrite lookup_fmap, Hx in Hh. }
  split.
  - simpl. destruct indep; [by apply bt_insert_sorted|done].
  - intros x Hx. rewrite ER. simpl in Hx.
    assert (x = {| ref_transaction := ppt_transaction tx; ref_id := id |} ∨
            x ∈ independent_transactions mid) as [->|Hin].
    { destruct indep; [|by right]. by apply bt_insert_elem_of in Hx. }
    + apply lookup_insert_eq.
    + rewrite lookup_insert_ne; [by apply Ho|]. intros E. by apply (Hne x).
Qed.

(** The insertion after the replaced transactions are gone. *)
Lemma insert_ready_added st tx mid removed ul hs ready' indep off :
  let t := ppt_transaction tx in
  ready_inv st → tx_wf t → txs (ready_tx st) !! ptx_hash t = None →
  txs (ready_tx mid) !! ptx_hash t = None →
  removal (list_to_set (provides t)) hs st mid removed → (∀ h, h ∈ hs ↔ replaces st t h) →
  (∀ h, h ∈ ul → ∃ h0, replaces st t h0 ∧ link (ready_tx st) h0 h) →
  (∀ h r, replaces st t h → ready_tx st !! h = Some r → rt_provides r = provides t →
     rt_gas_price r < ptx_gas_price t) →
  (∀ h t' m, txs (ready_tx mid) !! h = Some t' → m ∈ provides t' → m ∉ provides t) →
  refs ready' = refs (ready_tx mid) →
  (∀ h1 h2, link ready' h1 h2 → link (ready_tx mid) h1 h2 ∨
     (h2 = ptx_hash t ∧ ∃ m, m ∈ requires t ∧ provided_markers mid !! m = Some h1)) →
  ready_added t st (insert_ready (next_id mid).2 tx (next_id mid).1 ul (ready', indep, off)) removed.
Proof.
  intros t Hi [Hnd Hdis] Hh Hmid R Hhs Hul Hprice Hfree HR Hlink.
  pose proof (txs_refs _ _ HR) as HT. change (ppt_hash tx) with (ptx_hash t) in *.
  split; simpl; rewrite ?txs_insert, ?HT; change (rt_tx _) with t.
  - apply lookup_insert_eq.
  - intros h t' Hne. rewrite lookup_insert_ne by done. intros ?.
    by eapply lookup_weaken; [|apply R].
  - intros t'. rewrite (rm_removed _ _ _ _ _ R). setoid_rewrite lookup_insert.
    split; intros (h & Ht' & Hn); exists h; (split; [done|]).
    + case_decide as E; [|done]. change (ppt_hash tx) with (ptx_hash t) in E. congruence.
    + case_decide; [done|]. done.
  - intros h Hr. rewrite lookup_insert. change (ppt_hash tx) with (ptx_hash t).
    case_decide as E.
    + destruct Hr as (m & _ & Hp). destruct (mi_provided _ _ _ Hi _ _ Hp) as [?|(t' & Ht' & _)];
        [set_solver|]. congruence.
    + by apply (rm_gone _ _ _ _ _ R), Hhs.
  - done.
  - intros m. rewrite foldl_insert_lookup. case_decide; [by left|]. intros [h Hp]. right.
    exists h. eapply lookup_weaken; [done|apply R].
  - apply insert_ready_inv; [apply R|done..].
  - intros Ho. refine (insert_ready_order (next_id mid).2 tx (next_id_ mid) ul ready' indep _ _ _ _);
      [|done..].
    destruct (rm_order _ _ _ _ _ R Ho). by split.
  - intros h h' (r & Hr & Hin). rewrite lookup_insert in Hr. case_decide as E.
    + simplify_eq/=. right; left. split; [done|by apply Hul].
    + destruct (Hlink h h') as [Hl|[-> (m & Hmr & Hp)]]; [by exists r| |].
      * left. by apply (rm_link _ _ _ _ _ R).
      * right; right. split; [done|]. exists m. split; [done|].
        by eapply lookup_weaken; [|apply R].
Qed.

Lemma ready_add_transaction_spec st tx :
  ready_inv st → missing_markers tx = ∅ → tx_wf (ppt_transaction tx) →
  txs (ready_tx st) !! ppt_hash tx = None →
  (ready_add_transaction st tx =
     Ret (st, Err (ReplacementUnderpriced (ppt_transaction tx))) ∧
   ∃ h r, replaces st (ppt_transaction tx) h ∧ ready_tx st !! h = Some r ∧
     rt_provides r = provides (ppt_transaction tx) ∧
     ptx_gas_price (ppt_transaction tx) ≤ rt_gas_price r) ∨
  (∃ st' replaced, ready_add_transaction st tx = Ret (st', Ok replaced) ∧
     ready_added (ppt_transaction tx) st st' replaced).
Proof.
  intros Hi Hm Hwf Hh. set (t := ppt_transaction tx) in *.
  unfold ready_add_transaction.
  assert (is_ready tx = true) as -> by (by apply bool_decide_eq_true_2).
  assert (ready_contains st (ppt_hash tx) = false) as ->.
  { apply bool_decide_eq_false_2. rewrite txs_lookup in Hh.
    destruct (ready_tx st !! ppt_hash tx); [done|by intros []]. }
  cbn [assert_ negb]. rewrite !bind_Ret. fold t.
  destruct (replaced_transactions_spec st t Hi)
    as [[-> Hex]|(mid & removed & ul & hs & -> & R & Hhs & Hul & Hprice)]; [by left|right].
  rewrite bind_Ret. unfold next_id; cbn [provided_markers ready_tx].
  assert (txs (ready_tx mid) !! ppt_hash tx = None) as Hmid.
  { destruct (txs (ready_tx mid) !! ppt_hash tx) eqn:E; [|done].
    eapply lookup_weaken in E; [|apply R]. unfold t in *. congruence. }
  destruct (link_markers_spec (provided_markers mid) (ppt_hash tx) (ready_tx mid) (requires t))
    as (ready' & indep & off & -> & HR & Hlink & -> & ->).
  { intros m h' Hm' Hp.
    destruct (mi_provided _ _ _ (rm_inv _ _ _ _ _ R) _ _ Hp) as [Hf|(t' & -> & _)]; [|done].
    exfalso. eapply Hwf; [|done]. set_solver. }
  rewrite bind_Ret. eexists _, removed. split; [done|].
  eapply insert_ready_added; try done.
  intros h t' m Ht' Hm' Hmt.
  pose proof (mi_provides _ _ _ (rm_inv _ _ _ _ _ R) _ _ _ Ht' Hm') as Hp.
  rewrite (rm_keep _ _ _ _ _ R) in Hp by set_solver.
  assert (h ∈ hs) as Hin by (apply Hhs; by exists m).
  pose proof (rm_gone _ _ _ _ _ R _ Hin). congruence.
Qed.

(** *** Pruning *)

Lemma prune_previous_spec p h K l ready remove :
  (∀ h' t, txs ready !! h' = Some t → (length (provides t) ≤ K)%nat) →
  let s := foldl (prune_previous p h) (ready, remove) l in
  refs s.1 = refs ready ∧ (length s.2 ≤ length remove + length l * K)%nat ∧ remove ⊆ s.2.
Proof.
  revert ready remove. induction l as [|m l IH]; intros ready remove HK; cbn [foldl].
  { simpl. split_and!; [done|lia|done]. }
  assert (∃ ready' remove', prune_previous p h (ready, remove) m = (ready', remove') ∧
    refs ready' = refs ready ∧ (length remove' ≤ length remove + K)%nat ∧ remove ⊆ remove')
    as (ready' & remove' & -> & ET & Hlen & Hincl).
  { unfold prune_previous. destruct (p !! m) as [h'|]; simpl;
      [|exists ready, remove; split_and!; [done..|lia|done]].
    destruct (ready !! h') as [r|] eqn:Hr; simpl;
      [|exists ready, remove; split_and!; [done..|lia|done]].
    assert (length (rt_provides r) ≤ K)%nat by (apply (HK h'); by rewrite txs_lookup, Hr).
    case_bool_decide; eexists _, _; (split; [done|]); split_and!;
      try (by eapply refs_update); rewrite ?length_app; try lia; set_solver. }
  simpl. destruct (IH ready' remove') as (ET' & Hlen' & Hincl');
    [by rewrite (txs_refs _ _ ET)|].
  split_and!; [by rewrite ET', ET|lia|set_solver].
Qed.

Lemma prune_previous_link p h l s h1 h2 :
  link (foldl (prune_previous p h) s l).1 h1 h2 → link s.1 h1 h2.
Proof.
  apply (foldl_preserve (λ s', link s'.1 h1 h2 → link s.1 h1 h2)); [|done].
  intros [ready remove] m Hr Hl. apply Hr. revert Hl. unfold prune_previous; simpl.
  destruct (p !! m) as [h'|]; simpl; [|done].
  destruct (ready !! h') as [r|] eqn:Hr'; simpl; [|done].
  assert ((match position h (unlocks r) with
           | Some idx => swap_remove idx (unlocks r) | None => unlocks r end) ⊆ unlocks r).
  { destruct (position _ _); [apply swap_remove_subseteq|done]. }
  case_bool_decide; by apply link_update.
Qed.

Lemma unlock_one_link s l h1 h2 :
  link (foldl unlock_one s l).1 h1 h2 → link s.1 h1 h2.
Proof.
  apply (foldl_preserve (λ s', link s'.1 h1 h2 → link s.1 h1 h2)); [|done].
  intros [ready indep] h Hr Hl. apply Hr. revert Hl. unfold unlock_one; simpl.
  destruct (ready !! h) as [r|] eqn:Hr'; simpl; [|done].
  intros (r1 & Hr1 & Hin). rewrite lookup_insert in Hr1.
  case_decide; [|by exists r1]. simplify_eq. by exists r.
Qed.

Lemma unlock_one_refs s l : refs (foldl unlock_one s l).1 = refs s.1.
Proof.
  apply (foldl_preserve (λ s', refs s'.1 = refs s.1)); [|done].
  intros [ready indep] h <-. unfold unlock_one.
  destruct (ready !! h) as [r|] eqn:Hr; simpl; [|done]. by eapply refs_update.
Qed.

(** The assertion on the pruned transaction's markers always holds. *)
Lemma prune_provided_spec marker h p l :
  NoDup l → (∀ m, m ∈ l → p !! m = Some h) →
  ∃ p', foldM (prune_provided marker h) (delete marker p) l = Ret p' ∧
        ∀ m, p' !! m = if decide (m = marker ∨ m ∈ l) then None else p !! m.
Proof.
  intros Hnd Hp.
  destruct (foldM_spec (prune_provided marker h)
    (λ dn p', ∀ m, p' !! m = if decide (m = marker ∨ m ∈ dn) then None else p !! m)
    l (delete marker p)) as (p' & E & H'); [| |by exists p'].
  - intros m. rewrite lookup_delete. repeat case_decide; set_solver.
  - intros dn m rest p' Hl IH. unfold prune_provided.
    rewrite Hl in Hnd. apply NoDup_app in Hnd as (_ & Hnd & _).
    assert (m ∉ dn) by (intros ?; apply (Hnd m); set_solver).
    rewrite (bool_decide_eq_true_2 (p' !! m = _)).
    + simpl. eexists. split; [done|]. intros m'. rewrite lookup_delete, IH.
      repeat case_decide; set_solver.
    + rewrite IH. assert (p !! m = Some h) as Hpm by (apply Hp; rewrite Hl; set_solver).
      repeat case_decide; repeat case_bool_decide; set_solver.
Qed.

(** The contract of [prune_tags]: the provider of the marker is gone, what
    was removed is returned, and the index stays exact. *)
Record pruned (marker : TxMarker) st st' (removed : list PoolTransaction) : Prop := {
  pr_txs : txs (ready_tx st') ⊆ txs (ready_tx st);
  pr_removed : ∀ t, t ∈ removed ↔
    ∃ h, txs (ready_tx st) !! h = Some t ∧ txs (ready_tx st') !! h = None;
  pr_provided : provided_markers st' ⊆ provided_markers st;
  pr_marker : provided_markers st' !! marker = None;
  pr_inv : ready_inv st';
  pr_id : next_id_ st' = next_id_ st;
  pr_order : order_inv st → order_inv st';
  pr_link : ∀ h h', link (ready_tx st') h h' → link (ready_tx st) h h'
}.

(** One transaction leaves the queue. *)
Lemma prune_take st cur dn h t p' :
  txs (ready_tx cur) ⊆ txs (ready_tx st) → ready_inv cur →
  (∀ t, t ∈ dn ↔ ∃ h, txs (ready_tx st) !! h = Some t ∧ txs (ready_tx cur) !! h = None) →
  txs (ready_tx cur) !! h = Some t →
  (∀ m, p' !! m = if decide (m ∈ provides t) then None else provided_markers cur !! m) →
  delete h (txs (ready_tx cur)) ⊆ txs (ready_tx st) ∧
  markers_inv ∅ (delete h (txs (ready_tx cur))) p' ∧
  ∀ t', t' ∈ dn ++ [t] ↔
    ∃ h', txs (ready_tx st) !! h' = Some t' ∧ delete h (txs (ready_tx cur)) !! h' = None.
Proof.
  intros Hsub Hi Hdn Ht Hp'. split_and!.
  - etrans; [apply delete_subseteq|done].
  - assert (p' = foldl (λ (p : gmap TxMarker TxHash) m, delete m p) (provided_markers cur)
      (filter (marker_invalidated None) (provides t))) as ->.
    { apply map_eq. intros m. rewrite Hp', foldl_delete_lookup. apply decide_ext.
      rewrite list_elem_of_filter, Is_true_true, marker_invalidated_spec. set_solver. }
    by apply markers_inv_delete.
  - intros t'. rewrite elem_of_app, list_elem_of_singleton, Hdn.
    setoid_rewrite lookup_delete_None.
    assert (txs (ready_tx st) !! h = Some t) by (by eapply lookup_weaken).
    split.
    + intros [(h' & ? & ?)| ->]; [exists h'|exists h]; auto.
    + intros (h' & Ht' & [<-|Hn]); [right; congruence|left; eauto].
Qed.

(** Unlocking puts references of the queue into the independent set. *)
Lemma unlock_all_order ready indep l :
  (∀ h t, txs ready !! h = Some t → ptx_hash t = h) →
  bt_sorted indep → (∀ x, x ∈ indep → refs ready !! ref_hash x = Some x) →
  let s := foldl unlock_one (ready, indep) l in
  bt_sorted s.2 ∧ ∀ x, x ∈ s.2 → refs s.1 !! ref_hash x = Some x.
Proof.
  intros Hi Hs Ho. simpl.
  enough (txs (foldl unlock_one (ready, indep) l).1 = txs ready ∧
    bt_sorted (foldl unlock_one (ready, indep) l).2 ∧
    ∀ x, x ∈ (foldl unlock_one (ready, indep) l).2 →
      refs (foldl unlock_one (ready, indep) l).1 !! ref_hash x = Some x) by tauto.
  apply (foldl_preserve (λ s, txs s.1 = txs ready ∧ bt_sorted s.2 ∧
    ∀ x, x ∈ s.2 → refs s.1 !! ref_hash x = Some x)); [|done].
  clear Hs Ho indep. intros [cur indep] h (ET & Hs & Ho). unfold unlock_one; simpl in *.
  destruct (cur !! h) as [r|] eqn:Hr; simpl; [|done].
  assert (refs (<[h := incr_offset r]> cur) = refs cur) as ER by (by eapply refs_update).
  rewrite ER, (txs_refs _ _ ER). split; [done|].
  assert (refs cur !! ref_hash (rt_transaction r) = Some (rt_transaction r)) as Hrr.
  { assert (txs cur !! h = Some (rt_tx r)) as Ht by (by rewrite txs_lookup, Hr).
    rewrite ET in Ht. change (ref_hash _) with (ptx_hash (rt_tx r)). rewrite (Hi _ _ Ht).
    unfold refs. by rewrite lookup_fmap, Hr. }
  case_bool_decide; [|done]. split; [by apply bt_insert_sorted|].
  intros x [->|?]%bt_insert_elem_of; [done|auto].
Qed.

(** The state of the pruning loop. *)
Record pruning (marker : TxMarker) st (cur : ReadyTransactions) (rest : list TxMarker)
    (removed : list PoolTransaction) : Prop := {
  pg_txs : txs (ready_tx cur) ⊆ txs (ready_tx st);
  pg_inv : ready_inv cur;
  pg_removed : ∀ t, t ∈ removed ↔
    ∃ h, txs (ready_tx st) !! h = Some t ∧ txs (ready_tx cur) !! h = None;
  pg_provided : provided_markers cur ⊆ provided_markers st;
  pg_marker : provided_markers cur !! marker = None ∨ marker ∈ rest;
  pg_id : next_id_ cur = next_id_ st;
  pg_order : order_inv st → order_inv cur;
  pg_link : ∀ h h', link (ready_tx cur) h h' → link (ready_tx st) h h'
}.

Abbreviation prune_weight K := (λ t : PoolTransaction, (length (requires t) * K)%nat).

(** A marker that is bound: its provider is pruned. *)
Lemma prune_body_take marker st cur rest m removed h r K :
  pruning marker st cur (rest ++ [m]) removed →
  provided_markers cur !! m = Some h → ready_tx cur !! h = Some r →
  (∀ h t, txs (ready_tx st) !! h = Some t → (length (provides t) ≤ K)%nat) →
  ∃ cur' rest', prune_body (cur, rest ++ [m], removed) =
      Ret (Continue (cur', rest', removed ++ [rt_tx r])) ∧
    pruning marker st cur' rest' (removed ++ [rt_tx r]) ∧
    (length rest' + map_sum (prune_weight K) (txs (ready_tx cur')) ≤
     length rest + map_sum (prune_weight K) (txs (ready_tx cur)))%nat.
Proof.
  intros [Hsub Hc Hrm Hps Hmk Hid Hord Hlk] Hm Hr HK.
  assert (txs (ready_tx cur) !! h = Some (rt_tx r)) as Ht by (by rewrite txs_lookup, Hr).
  unfold prune_body. rewrite vec_pop_snoc, Hm; simpl. rewrite Hr; simpl.
  rewrite (mi_hash _ _ _ Hc _ _ Ht). set (p := delete m (provided_markers cur)).
  destruct (prune_previous_spec p h K (requires (rt_tx r)) (delete h (ready_tx cur)) rest)
    as (ET1 & Hlen & Hincl).
  { intros h' t. rewrite txs_delete. intros [_ Ht']%lookup_delete_Some.
    eapply HK. by eapply lookup_weaken. }
  pose proof (prune_previous_link p h (requires (rt_tx r)) (delete h (ready_tx cur), rest)) as Hl1.
  destruct (foldl (prune_previous p h) _ _) as [ready1 remove1]; simpl in ET1, Hlen, Hincl, Hl1.
  set (indep1 := bt_remove (rt_transaction r) (independent_transactions cur)).
  pose proof (unlock_one_refs (ready1, indep1) (unlocks r)) as ET2.
  pose proof (unlock_one_link (ready1, indep1) (unlocks r)) as Hl2.
  assert (order_inv st → let s := foldl unlock_one (ready1, indep1) (unlocks r) in
    bt_sorted s.2 ∧ ∀ x, x ∈ s.2 → refs s.1 !! ref_hash x = Some x) as Hord2.
  { intros Ho. destruct (order_inv_take None cur h r Hr (Hord Ho)) as [Hs' Ho'].
    simpl in Hs', Ho'. rewrite unlink_all_refs in Ho'.
    apply unlock_all_order; [|exact Hs'|by rewrite ET1].
    rewrite (txs_refs _ _ ET1), txs_delete. intros h' t [_ ?]%lookup_delete_Some.
    by apply (mi_hash _ _ _ Hc). }
  destruct (foldl unlock_one _ _) as [ready2 indep2]; simpl in ET2, Hord2, Hl2.
  destruct (prune_provided_spec m h (provided_markers cur) (rt_provides r)) as (p' & E & Hp');
    [by eapply mi_nodup|intros m' ?; by eapply mi_provides|].
  unfold p. rewrite E, bind_Ret. eexists _, _. split; [done|].
  assert (txs ready2 = delete h (txs (ready_tx cur))) as ET
    by (rewrite <- txs_delete; apply txs_refs; by rewrite ET2, ET1).
  assert (m ∈ rt_provides r) as Hmt.
  { destruct (mi_provided _ _ _ Hc _ _ Hm) as [?|(t & Ht' & ?)]; [set_solver|].
    unfold rt_provides. congruence. }
  destruct (prune_take st cur removed h (rt_tx r) p') as (H1 & H2 & H3); try done.
  { intros m'. rewrite Hp'. apply decide_ext. unfold rt_provides in *. naive_solver. }
  split; [split; simpl; rewrite ?ET; try done|simpl; rewrite ET].
  - apply map_subseteq_spec. intros m' h'. rewrite Hp'. case_decide; [done|].
    intros ?. by eapply lookup_weaken.
  - rewrite Hp'. case_decide as Hd; [by left|]. destruct Hmk as [?|Hmk]; [by left|].
    apply elem_of_app in Hmk as [?|Hmk%list_elem_of_singleton]; [|naive_solver].
    right. by apply Hincl.
  - intros Ho. destruct (Hord2 Ho). by split.
  - intros h1 h2 Hx. by eapply Hlk, link_delete, Hl1, Hl2.
  - rewrite (map_sum_delete (prune_weight K) _ _ _ Ht). lia.
Qed.

Lemma prune_tags_spec st marker :
  ready_inv st →
  ∃ st' removed, prune_tags st marker = Ret (st', removed) ∧ pruned marker st st' removed.
Proof.
  intros Hi. set (K := map_sum (length ∘ rt_provides) (ready_tx st)).
  assert (∀ h t, txs (ready_tx st) !! h = Some t → (length (provides t) ≤ K)%nat) as HK.
  { intros h t (r & Hr & ->)%txs_lookup_Some.
    apply (map_sum_lookup_le (length ∘ rt_provides) _ _ _ Hr). }
  destruct (run_spec (λ s, pruning marker st s.1.1 s.1.2 s.2)
    (λ r, pruned marker st r.1 r.2)
    (λ s, length s.1.2 + map_sum (prune_weight K) (txs (ready_tx s.1.1)))%nat prune_body) with
    (fuel := S (S (prune_fuel (ready_tx st)))) (s := (st, [marker], @nil PoolTransaction))
    as ([st' removed] & E & R).
  - intros [[cur rest] removed] Hp; simpl in Hp.
    destruct rest as [|m rest _] using rev_ind.
    { right. exists (cur, removed). split; [done|]. destruct Hp as [???? Hmk ???].
      split; try done. destruct Hmk; [done|set_solver]. }
    left. destruct (provided_markers cur !! m) as [h|] eqn:Hm.
    + destruct (mi_provided _ _ _ (pg_inv _ _ _ _ _ Hp) _ _ Hm) as [?|(t & Ht & _)];
        [set_solver|]. apply txs_lookup_Some in Ht as (r & Hr & _).
      destruct (prune_body_take _ _ _ _ _ _ _ _ K Hp Hm Hr HK) as (cur' & rest' & E & Hp' & ?).
      eexists. split; [exact E|]. split; [done|]. simpl. rewrite length_app; simpl. lia.
    + unfold prune_body. rewrite vec_pop_snoc, Hm; simpl.
      eexists. split; [done|]. rewrite (delete_id _ _ Hm); simpl.
      split; [|rewrite length_app; simpl; lia]. destruct Hp as [???? Hmk ? Hord ?].
      split; try done; simpl; [|intros Ho; destruct (Hord Ho); by split].
      destruct Hmk as [?|Hmk]; [by left|].
      apply elem_of_app in Hmk as [?|Hmk%list_elem_of_singleton]; [by right|left; by subst].
  - split; try done; simpl; [|right; set_solver].
    intros t. split; [set_solver|]. intros (h & ? & ?). congruence.
  - simpl. assert (map_sum (prune_weight K) (txs (ready_tx st)) = prune_fuel (ready_tx st)) as ->;
      [|lia]. unfold txs, refs. by rewrite !map_sum_fmap.
  - by exists st', removed.
Qed.
End ready_spec.
