(* ===== verification/PoolIter.v ===== *)
(** * The iterator over ready transactions
    (crates/anvil/src/eth/pool/transactions.rs, [TransactionsIterator])

    The miner takes transactions from this iterator.  It repeatedly takes the
    greatest independent transaction (priority first, then age) and releases
    the transactions it unlocks.  Shown here: [next] returns the greatest
    independent transaction, a transaction is only yielded once the unlock
    links of the transactions yielded before it cover its requirements, and
    collecting the iterator terminates when the unlock links admit a weight
    (in particular when they are acyclic). *)

From stdpp Require Import prelude gmap list.
From S2P Require Import Prelude Containers Transaction PendingPool ReadyPool.

Open Scope nat_scope.

Record TransactionsIterator := {
  it_all : gmap TxHash ReadyTransaction;
  it_awaiting : gmap TxHash (nat * PoolTransactionRef);
  it_independent : list PoolTransactionRef
}.

(** [ReadyTransactions::get_transactions]. *)
Definition get_transactions (st : ReadyTransactions) : TransactionsIterator :=
  {| it_all := ready_tx st; it_awaiting := ∅;
     it_independent := independent_transactions st |}.

Definition independent_or_awaiting (it : TransactionsIterator) (satisfied : nat)
    (tx_ref : PoolTransactionRef) : TransactionsIterator :=
  if length (requires (ref_transaction tx_ref)) <=? satisfied then
    {| it_all := it_all it; it_awaiting := it_awaiting it;
       it_independent := bt_insert tx_ref (it_independent it) |}
  else
    {| it_all := it_all it;
       it_awaiting := <[ref_hash tx_ref := (satisfied, tx_ref)]> (it_awaiting it);
       it_independent := it_independent it |}.

(** The body of the loop over [ready.unlocks]: the counter of a waiting
    transaction goes up, or the transaction is fetched from the pool. *)
Definition unlock_hash (it : TransactionsIterator) (hash : TxHash) : TransactionsIterator :=
  match it_awaiting it !! hash with
  | Some (satisfied, tx_ref) =>
      independent_or_awaiting
        {| it_all := it_all it; it_awaiting := delete hash (it_awaiting it);
           it_independent := it_independent it |} (S satisfied) tx_ref
  | None =>
      match it_all it !! hash with
      | Some next =>
          independent_or_awaiting it (S (requires_offset next)) (rt_transaction next)
      | None => it
      end
  end.

(** One turn of the loop of [next]. *)
Definition next_body (it : TransactionsIterator)
    : outcome (flow TransactionsIterator (TransactionsIterator * option PoolTransaction)) :=
  match bt_last (it_independent it) with
  | None => Ret (Break (it, None))
  | Some best =>
      let it := {| it_all := it_all it; it_awaiting := it_awaiting it;
                   it_independent := bt_remove best (it_independent it) |} in
      match it_all it !! ref_hash best with
      | None => Ret (Continue it)
      | Some ready =>
          Ret (Break (foldl unlock_hash it (unlocks ready), Some (ref_transaction best)))
      end
  end.

(** [Iterator::next]; every turn takes an element out of the independent set. *)
Definition iter_next (it : TransactionsIterator)
    : outcome (TransactionsIterator * option PoolTransaction) :=
  run (S (length (it_independent it))) next_body it.

(** [collect()]: runs the iterator to its end. *)
Definition collect_body (s : TransactionsIterator * list PoolTransaction)
    : outcome (flow (TransactionsIterator * list PoolTransaction) (list PoolTransaction)) :=
  let '(it, acc) := s in
  iter_next it ≫= λ '(it, o),
  match o with
  | Some t => Ret (Continue (it, acc ++ [t]))
  | None => Ret (Break acc)
  end.

Definition iter_collect (fuel : nat) (it : TransactionsIterator) : outcome (list PoolTransaction) :=
  run fuel collect_body (it, []).

(** ** [next] *)

(** The references of an iterator are those of the pool. *)
Record iter_inv (it : TransactionsIterator) : Prop := {
  ii_sorted : bt_sorted (it_independent it);
  ii_indep : ∀ x, x ∈ it_independent it →
    ∃ r, it_all it !! ref_hash x = Some r ∧ rt_transaction r = x;
  ii_awaiting : ∀ h s x, it_awaiting it !! h = Some (s, x) →
    ∃ r, it_all it !! h = Some r ∧ rt_transaction r = x;
  ii_hash : ∀ h r, it_all it !! h = Some r → ref_hash (rt_transaction r) = h
}.

Lemma independent_or_awaiting_all it s x : it_all (independent_or_awaiting it s x) = it_all it.
Proof. unfold independent_or_awaiting. by case_bool. Qed.

Lemma unlock_hash_all it h : it_all (unlock_hash it h) = it_all it.
Proof.
  unfold unlock_hash. destruct (it_awaiting it !! h) as [[s x]|].
  - by rewrite independent_or_awaiting_all.
  - destruct (it_all it !! h); [by rewrite independent_or_awaiting_all|done].
Qed.

Lemma unlock_all_all it l : it_all (foldl unlock_hash it l) = it_all it.
Proof.
  apply (foldl_preserve (λ i, it_all i = it_all it)); [|done].
  intros i h <-. apply unlock_hash_all.
Qed.

Lemma independent_or_awaiting_inv it s r h :
  iter_inv it → it_all it !! h = Some r →
  iter_inv (independent_or_awaiting it s (rt_transaction r)).
Proof.
  intros Hi Hr. pose proof (ii_hash _ Hi _ _ Hr) as Hh. unfold independent_or_awaiting.
  case_bool; split; simpl; try apply Hi.
  - by apply bt_insert_sorted, Hi.
  - intros x [->|?]%bt_insert_elem_of; [|by apply Hi]. exists r. by rewrite Hh.
  - intros h' s' x. rewrite Hh, lookup_insert. case_decide; [|apply Hi].
    intros [= <- <-]. subst. eauto.
Qed.

Lemma unlock_hash_inv it h : iter_inv it → iter_inv (unlock_hash it h).
Proof.
  intros Hi. unfold unlock_hash. destruct (it_awaiting it !! h) as [[s x]|] eqn:Ha.
  - destruct (ii_awaiting _ Hi _ _ _ Ha) as (r & Hr & <-).
    eapply independent_or_awaiting_inv; [|exact Hr].
    split; simpl; try apply Hi. intros h' s' x [_ ?]%lookup_delete_Some. by eapply ii_awaiting.
  - destruct (it_all it !! h) eqn:Hr; [|done]. by eapply independent_or_awaiting_inv.
Qed.

Lemma take_inv it best :
  iter_inv it →
  iter_inv {| it_all := it_all it; it_awaiting := it_awaiting it;
              it_independent := bt_remove best (it_independent it) |}.
Proof.
  intros Hi. split; simpl; try apply Hi.
  - by apply bt_remove_sorted, Hi.
  - intros x ?%bt_remove_elem_of. by apply Hi.
Qed.

(** [next] as an equation: the greatest independent transaction is taken and
    what it unlocks is released. *)
Lemma iter_next_eq it :
  iter_inv it →
  iter_next it =
    match bt_last (it_independent it) with
    | None => Ret (it, None)
    | Some best =>
        Ret (foldl unlock_hash
               {| it_all := it_all it; it_awaiting := it_awaiting it;
                  it_independent := bt_remove best (it_independent it) |}
               (from_option unlocks [] (it_all it !! ref_hash best)),
             Some (ref_transaction best))
    end.
Proof.
  intros Hi. unfold iter_next; simpl. unfold next_body.
  destruct (bt_last (it_independent it)) as [best|] eqn:Hl; simpl; [|done].
  destruct (ii_indep _ Hi best) as (r & Hr & _); [by apply last_Some_elem_of|].
  by rewrite Hr.
Qed.

Lemma iter_next_inv it it' o : iter_inv it → iter_next it = Ret (it', o) → iter_inv it'.
Proof.
  intros Hi. rewrite iter_next_eq by done.
  destruct (bt_last (it_independent it)) as [best|]; intros [= <- <-]; [|done].
  apply foldl_preserve; [intros; by apply unlock_hash_inv|]. by apply take_inv.
Qed.

Lemma iter_next_all it it' o : iter_inv it → iter_next it = Ret (it', o) → it_all it' = it_all it.
Proof.
  intros Hi. rewrite iter_next_eq by done.
  destruct (bt_last (it_independent it)) as [best|]; intros [= <- <-]; [|done].
  by rewrite unlock_all_all.
Qed.

(** the iterator yields the greatest independent transaction: the highest
    priority first and, among equal priorities, the one that entered the queue
    first; it ends only when no independent transaction is left. *)
Theorem iter_next_greatest it :
  iter_inv it →
  (it_independent it = [] → iter_next it = Ret (it, None)) ∧
  (it_independent it ≠ [] →
   ∃ it' best, iter_next it = Ret (it', Some (ref_transaction best)) ∧
     best ∈ it_independent it ∧
     ∀ x, x ∈ it_independent it → x = best ∨
       (priority (ref_transaction x) < priority (ref_transaction best))%Z ∨
       (priority (ref_transaction x) = priority (ref_transaction best) ∧
        ref_id best < ref_id x)%Z).
Proof.
  intros Hi. rewrite iter_next_eq by done. split.
  - by intros ->.
  - intros Hne. destruct (bt_last (it_independent it)) as [best|] eqn:Hl;
      [|by apply last_None in Hl].
    eexists _, best. split; [done|]. split; [by apply last_Some_elem_of|].
    intros x Hx. destruct (bt_last_greatest best x _ (ii_sorted _ Hi) Hl Hx) as [|Hlt]; [by left|].
    right. unfold ord_lt in Hlt; simpl in Hlt. unfold ref_cmp in Hlt.
    destruct (Z.compare_spec (priority (ref_transaction x)) (priority (ref_transaction best)));
      [right|by left|done]. by rewrite Z.compare_lt_iff in Hlt.
Qed.

Lemma get_transactions_inv st : ready_inv st → order_inv st → iter_inv (get_transactions st).
Proof.
  intros Hi [Hs Ho]. split; simpl; [done| | |].
  - intros x Hx. apply Ho, refs_lookup_Some in Hx as (r & ? & ->). eauto.
  - intros *. by rewrite lookup_empty.
  - intros h r Hr. apply (mi_hash _ _ _ Hi). by rewrite txs_lookup, Hr.
Qed.

(** ** Termination

    A weight that decreases along the links bounds the number of transactions
    the iterator can yield. *)

Section weight.
Context (w : TxHash → nat).

Definition indep_weight (it : TransactionsIterator) : nat :=
  sum_list_with (w ∘ ref_hash) (it_independent it).

Definition weighted (all : gmap TxHash ReadyTransaction) : Prop :=
  ∀ h r, all !! h = Some r → sum_list_with w (unlocks r) < w h.

Lemma independent_or_awaiting_weight it s x :
  indep_weight (independent_or_awaiting it s x) ≤ w (ref_hash x) + indep_weight it.
Proof.
  unfold independent_or_awaiting, indep_weight. case_bool; simpl; [|lia].
  apply (bt_insert_sum (w ∘ ref_hash)).
Qed.

Lemma unlock_hash_weight it h :
  iter_inv it → indep_weight (unlock_hash it h) ≤ w h + indep_weight it.
Proof.
  intros Hi. unfold unlock_hash. destruct (it_awaiting it !! h) as [[s x]|] eqn:Ha.
  - destruct (ii_awaiting _ Hi _ _ _ Ha) as (r & Hr & <-).
    rewrite independent_or_awaiting_weight, (ii_hash _ Hi _ _ Hr). done.
  - destruct (it_all it !! h) as [r|] eqn:Hr; [|lia].
    rewrite independent_or_awaiting_weight, (ii_hash _ Hi _ _ Hr). done.
Qed.

Lemma unlock_all_weight it l :
  iter_inv it →
  indep_weight (foldl unlock_hash it l) ≤ sum_list_with w l + indep_weight it.
Proof.
  revert it. induction l as [|h l IH]; intros it Hi; simpl; [lia|].
  etrans; [by apply IH, unlock_hash_inv|]. pose proof (unlock_hash_weight it h Hi). lia.
Qed.

Lemma iter_next_weight it it' t :
  iter_inv it → weighted (it_all it) → iter_next it = Ret (it', Some t) →
  indep_weight it' < indep_weight it.
Proof.
  intros Hi Hw. rewrite iter_next_eq by done.
  destruct (bt_last (it_independent it)) as [best|] eqn:Hl; [|done]. intros [= <- _].
  destruct (ii_indep _ Hi best) as (r & Hr & _); [by apply last_Some_elem_of|].
  pose proof (ii_sorted _ Hi) as Hs. apply last_Some in Hl as [l Hl].
  eapply Nat.le_lt_trans; [by apply unlock_all_weight, take_inv|].
  rewrite Hr; simpl. pose proof (Hw _ _ Hr). unfold indep_weight; simpl.
  rewrite Hl in *. rewrite bt_remove_last by done. rewrite sum_list_with_app; simpl. lia.
Qed.

Lemma iter_collect_total it fuel :
  iter_inv it → weighted (it_all it) → indep_weight it < fuel →
  ∃ l, iter_collect fuel it = Ret l.
Proof.
  intros Hi Hw Hf. unfold iter_collect.
  destruct (run_spec (λ s, iter_inv s.1 ∧ weighted (it_all s.1)) (λ _, True)
    (λ s : TransactionsIterator * list PoolTransaction, indep_weight s.1) collect_body) with
    (fuel := fuel) (s := (it, @nil PoolTransaction)) as (l & E & _); [|done|done|eauto].
  clear it Hi Hw Hf. intros [it acc] [Hi Hw]; simpl in *.
  pose proof (iter_next_eq it Hi) as E. destruct (bt_last (it_independent it)) as [best|].
  - left. rewrite E, bind_Ret. eexists. split; [done|]; simpl. split_and!.
    + by eapply iter_next_inv.
    + by rewrite unlock_all_all.
    + by eapply iter_next_weight.
  - right. rewrite E, bind_Ret. eauto.
Qed.
End weight.

(** Links that go up a ranking admit a weight. *)
Lemma ranked_weighted (rank : TxHash → nat) (all : gmap TxHash ReadyTransaction) :
  (∀ h h', link all h h' → rank h < rank h') →
  ∃ w, weighted w all.
Proof.
  intros Hr.
  set (L := map_sum (length ∘ unlocks) all).
  set (B := S (map_fold (λ h (_ : ReadyTransaction) n, rank h + n) 0 all)).
  exists (λ h, (S (S L)) ^ (B - rank h)). intros h r Hh.
  assert (length (unlocks r) ≤ L) as HL by apply (map_sum_lookup_le (length ∘ unlocks) _ _ _ Hh).
  assert (rank h < B) as HB.
  { unfold B. rewrite (map_fold_delete_L _ _ h r) by (done || (intros; lia)). lia. }
  assert (∀ l, (∀ h', h' ∈ l → rank h < rank h') →
    sum_list_with (λ h, (S (S L)) ^ (B - rank h)) l ≤ length l * (S (S L)) ^ (B - S (rank h)))
    as Hsum.
  { induction l as [|h' l IH]; intros Hl; [simpl; lia|]. cbn [sum_list_with length].
    assert ((S (S L)) ^ (B - rank h') ≤ (S (S L)) ^ (B - S (rank h))).
    { apply Nat.pow_le_mono_r; [lia|]. pose proof (Hl h' ltac:(set_solver)). lia. }
    specialize (IH ltac:(set_solver)). lia. }
  specialize (Hsum (unlocks r) ltac:(intros h' ?; apply Hr; by exists r)).
  replace (B - rank h) with (S (B - S (rank h))) by lia. rewrite Nat.pow_succ_r'.
  assert (1 ≤ (S (S L)) ^ (B - S (rank h))) by (apply Nat.neq_0_lt_0, Nat.pow_nonzero; lia).
  nia.
Qed.

(** ** Order of the yielded transactions *)

(** How often the transactions of [l] unlock [h]. *)
Definition unlock_count (all : gmap TxHash ReadyTransaction) (l : list PoolTransaction)
    (h : TxHash) : nat :=
  sum_list_with (λ t, length (filter (h =.) (from_option unlocks [] (all !! ptx_hash t)))) l.

(** [x] may be yielded once [c h] links to each [h] were followed: it was
    independent from the start, or the links cover the markers that the queue
    itself has to provide. *)
Definition covered_tx (st : ReadyTransactions) (c : TxHash → nat) (x : PoolTransaction) : Prop :=
  x ∈ ref_transaction <$> independent_transactions st ∨
  ∃ r, ready_tx st !! ptx_hash x = Some r ∧
    length (requires x) ≤ requires_offset r + c (ptx_hash x).

Record covered (st : ReadyTransactions) (c : TxHash → nat) (it : TransactionsIterator) : Prop := {
  cv_inv : iter_inv it;
  cv_all : it_all it = ready_tx st;
  cv_indep : ∀ x, x ∈ it_independent it → covered_tx st c (ref_transaction x);
  cv_awaiting : ∀ h s x, it_awaiting it !! h = Some (s, x) →
    ∃ r, ready_tx st !! h = Some r ∧ s ≤ requires_offset r + c h
}.

Lemma covered_tx_mono st c c' x :
  (∀ h, c h ≤ c' h) → covered_tx st c x → covered_tx st c' x.
Proof.
  intros Hc [?|(r & Hr & ?)]; [by left|right]. exists r. split; [done|].
  specialize (Hc (ptx_hash x)). lia.
Qed.

(** Following one more link. *)
Lemma unlock_hash_covered st c h it :
  covered st c it →
  covered st (λ h', c h' + if decide (h' = h) then 1 else 0) (unlock_hash it h).
Proof.
  intros [Hi Ha Hind Hw].
  assert (∀ it', it_all it' = ready_tx st → iter_inv (unlock_hash it h) →
    (∀ x, x ∈ it_independent it' → x ∈ it_independent it) →
    (∀ h' s x, it_awaiting it' !! h' = Some (s, x) → it_awaiting it !! h' = Some (s, x)) →
    ∀ r s, ready_tx st !! h = Some r → s ≤ requires_offset r + S (c h) →
    iter_inv (independent_or_awaiting it' s (rt_transaction r)) →
    covered st (λ h', c h' + if decide (h' = h) then 1 else 0)
      (independent_or_awaiting it' s (rt_transaction r))) as Hstep.
  { intros it' Ha' _ Hin Haw r s Hr Hs Hi'.
    assert (ref_hash (rt_transaction r) = h) as Eh by (apply (ii_hash _ Hi); by rewrite Ha).
    split; [done|by rewrite independent_or_awaiting_all|..];
      unfold independent_or_awaiting; case_bool; simpl.
    - intros x [->|Hx]%bt_insert_elem_of.
      + right. exists r. change (ptx_hash (ref_transaction (rt_transaction r)))
          with (ref_hash (rt_transaction r)). rewrite Eh, decide_True by done.
        apply Nat.leb_le in Heqb. split; [done|lia].
      + eapply covered_tx_mono; [|by apply Hind, Hin]. intros; simpl; lia.
    - intros x Hx. eapply covered_tx_mono; [|by apply Hind, Hin]. intros; simpl; lia.
    - intros h' s' x Hx. destruct (Hw h' s' x) as (r' & ? & ?); [by apply Haw|].
      exists r'. split; [done|lia].
    - intros h' s' x. rewrite Eh, lookup_insert. case_decide as E.
      + intros [= <- <-]. subst h'. exists r. rewrite decide_True by done. split; [done|lia].
      + intros Hx. destruct (Hw h' s' x) as (r' & ? & ?); [by apply Haw|].
        exists r'. split; [done|lia]. }
  pose proof (unlock_hash_inv it h Hi) as Hi'. unfold unlock_hash in *.
  destruct (it_awaiting it !! h) as [[s x]|] eqn:Hah.
  - destruct (ii_awaiting _ Hi _ _ _ Hah) as (r & Hr & <-).
    destruct (Hw _ _ _ Hah) as (r' & Hr' & Hs). rewrite Ha in Hr. simplify_eq.
    eapply (Hstep {| it_all := it_all it; it_awaiting := delete h (it_awaiting it);
                     it_independent := it_independent it |}); try done; simpl; [|lia].
    by intros h' s' x [_ ?]%lookup_delete_Some.
  - destruct (it_all it !! h) as [r|] eqn:Hr.
    + apply Hstep; try done; [by rewrite <- Ha|lia].
    + split; try done.
      * intros x Hx. eapply covered_tx_mono; [|by apply Hind]. intros; simpl; lia.
      * intros h' s x Hx. destruct (Hw _ _ _ Hx) as (r & ? & ?). exists r. split; [done|lia].
Qed.

Lemma covered_ext st c c' it : (∀ h, c h = c' h) → covered st c it → covered st c' it.
Proof.
  intros Hc [Hi Ha Hind Hw]. split; try done.
  - intros x Hx. eapply covered_tx_mono; [|by apply Hind]. intros h. by rewrite Hc.
  - intros h s x Hx. rewrite <- Hc. by eapply Hw.
Qed.

Lemma unlock_all_covered st c l it :
  covered st c it →
  covered st (λ h, c h + length (filter (h =.) l)) (foldl unlock_hash it l).
Proof.
  revert c it. induction l as [|h l IH]; intros c it Hc; simpl.
  - eapply covered_ext; [|done]. intros; lia.
  - eapply covered_ext; [|by apply IH, unlock_hash_covered]. intros h'; simpl.
    rewrite filter_cons. repeat case_decide; simpl; try done; try lia.
Qed.

(** Every transaction the iterator yields is covered by those before it. *)
Lemma iter_collect_covered st fuel l :
  ready_inv st → order_inv st →
  iter_collect fuel (get_transactions st) = Ret l →
  ∀ i t, l !! i = Some t → covered_tx st (unlock_count (ready_tx st) (take i l)) t.
Proof.
  intros Hi Ho. unfold iter_collect.
  assert (∀ fuel it acc, covered st (unlock_count (ready_tx st) acc) it →
    (∀ i t, acc !! i = Some t → covered_tx st (unlock_count (ready_tx st) (take i acc)) t) →
    run fuel collect_body (it, acc) = Ret l →
    ∀ i t, l !! i = Some t → covered_tx st (unlock_count (ready_tx st) (take i l)) t) as H.
  { clear fuel. induction fuel as [|fuel IH]; intros it acc Hc Hacc; [done|]; simpl.
    pose proof (cv_inv _ _ _ Hc) as Hii. rewrite iter_next_eq by done.
    destruct (bt_last (it_independent it)) as [best|] eqn:Hl; simpl; [|by intros [= <-]].
    assert (best ∈ it_independent it) as Hb by (by apply last_Some_elem_of).
    apply IH.
    - eapply covered_ext; [|apply unlock_all_covered]; [|].
      2: { destruct Hc as [_ Ha Hind Hw]. split; simpl; try done; [by apply take_inv|].
           intros x ?%bt_remove_elem_of. by apply Hind. }
      intros h; simpl. unfold unlock_count. rewrite sum_list_with_app; simpl.
      rewrite (cv_all _ _ _ Hc). change (ptx_hash (ref_transaction best)) with (ref_hash best).
      lia.
    - intros i t Ht. apply lookup_app_Some in Ht as [Ht|[Hle Ht]].
      + rewrite take_app_le; [by apply Hacc|]. apply lookup_lt_Some in Ht. lia.
      + apply list_lookup_singleton_Some in Ht as [Hn <-].
        rewrite take_app_ge, Hn by lia. simpl. rewrite app_nil_r.
        by apply (cv_indep _ _ _ Hc). }
  apply H; [|done]. split; simpl; try done.
  - by apply get_transactions_inv.
  - intros x Hx. left. by apply list_elem_of_fmap_2.
Qed.
