(* ===== verification/Pool.v ===== *)
(** * The transaction pool (crates/anvil/src/eth/pool/mod.rs)

    [PoolInner] couples the waiting queue and the ready queue; [Pool] adds the
    listeners that are told about ready transactions.  [pool_inv] is the
    representation invariant of the pair.  Every operation is total under it
    (no assertion of the source fails, no loop runs out of iterations) and
    preserves it. *)

From stdpp Require Import prelude gmap list.
From S2P Require Import Prelude Containers Transaction PendingPool ReadyPool PoolIter.

Open Scope nat_scope.

(** ** Data *)

Record PoolInner := {
  pool_ready : ReadyTransactions;
  pool_pending : PendingTransactions
}.

Definition pool_default : PoolInner :=
  {| pool_ready := ready_default; pool_pending := pending_default |}.

(** [pool::ReadyTransaction]: what happened when a transaction became ready. *)
Record ReadyInfo := {
  ri_hash : TxHash;
  promoted : list TxHash;
  discarded : list TxHash;
  ri_removed : list PoolTransaction
}.

Definition ready_info_new (hash : TxHash) : ReadyInfo :=
  {| ri_hash := hash; promoted := []; discarded := []; ri_removed := [] |}.

Inductive AddedTransaction : Type :=
| AddedReady (info : ReadyInfo)
| AddedPending (hash : TxHash).

Definition added_hash (a : AddedTransaction) : TxHash :=
  match a with AddedReady info => ri_hash info | AddedPending h => h end.

Record PruneResult := {
  pres_promoted : list AddedTransaction;
  pres_failed : list TxHash;
  pres_pruned : list PoolTransaction
}.

(** The fields of [MinedBlockOutcome] the pool reads. *)
Record MinedBlockOutcome := {
  block_number : Z;
  included : list PoolTransaction;
  invalid : list PoolTransaction
}.

Section pool.
Context {order : HashOrder TxHash}.
Implicit Types p : PoolInner.

(** ** [PoolInner] *)

Definition pool_clear p : PoolInner :=
  {| pool_ready := ready_clear (pool_ready p); pool_pending := pending_clear (pool_pending p) |}.

Definition get_transaction p (hash : TxHash) : option PendingTransaction :=
  match pending_get (pool_pending p) hash with
  | Some pending => Some (pending_transaction (ppt_transaction pending))
  | None => (λ r, pending_transaction (rt_tx r)) <$> ready_get (pool_ready p) hash
  end.

Definition contains p (hash : TxHash) : bool :=
  pending_contains (pool_pending p) hash || ready_contains (pool_ready p) hash.

(** The transactions of a sender; [fuel] bounds the length of the iterator. *)
Definition transactions_by_sender (fuel : nat) p (sender : Address)
    : outcome (list PoolTransaction) :=
  iter_collect fuel (get_transactions (pool_ready p)) ≫= λ ready_txs,
  let by_sender := filter (λ t, ptx_sender t = sender) in
  Ret (by_sender (pending_transactions (pool_pending p)) ++ by_sender ready_txs).

Abbreviation art_state := (PoolInner * list PendingPoolTransaction * ReadyInfo * bool)%type.

(** One turn of the loop of [add_ready_transaction]. *)
Definition add_ready_body (s : art_state)
    : outcome (flow art_state (PoolInner * result ReadyInfo PoolError)) :=
  let '(p, tx_queue, info, is_new_tx) := s in
  match tx_queue with
  | [] => Ret (Break (p, Ok info))
  | current_tx :: tx_queue =>
      mark_and_unlock (pool_pending p) (provides (ppt_transaction current_tx))
        ≫= λ '(pending, unlocked),
      let tx_queue := tx_queue ++ unlocked in
      let current_hash := ppt_hash current_tx in
      ready_add_transaction (pool_ready p) current_tx ≫= λ '(ready, r),
      let p := {| pool_ready := ready; pool_pending := pending |} in
      match r with
      | Ok replaced =>
          let info :=
            {| ri_hash := ri_hash info;
               promoted := if is_new_tx then promoted info else promoted info ++ [current_hash];
               discarded := discarded info;
               ri_removed := ri_removed info ++ replaced |} in
          Ret (Continue (p, tx_queue, info, false))
      | Err err =>
          if is_new_tx then Ret (Break (p, Err err))
          else
            let info :=
              {| ri_hash := ri_hash info; promoted := promoted info;
                 discarded := discarded info ++ [current_hash];
                 ri_removed := ri_removed info |} in
            Ret (Continue (p, tx_queue, info, false))
      end
  end.

(** The check for a cycle after the loop. *)
Definition finish_ready (hash : TxHash) p (info : ReadyInfo)
    : outcome (PoolInner * result AddedTransaction PoolError) :=
  if existsb (λ t, bool_decide (ptx_hash t = hash)) (ri_removed info) then
    clear_transactions (pool_ready p) (promoted info) ≫= λ '(ready, _),
    Ret ({| pool_ready := ready; pool_pending := pool_pending p |}, Err CyclicTransaction)
  else Ret (p, Ok (AddedReady info)).

Definition add_ready_transaction p (tx : PendingPoolTransaction)
    : outcome (PoolInner * result AddedTransaction PoolError) :=
  let hash := ppt_hash tx in
  run (S (S (pending_len (pool_pending p)))) add_ready_body
    (p, [tx], ready_info_new hash, true) ≫= λ '(p, r),
  match r with
  | Err e => Ret (p, Err e)
  | Ok info => finish_ready hash p info
  end.

Definition add_transaction (now : Z) p (tx : PoolTransaction)
    : outcome (PoolInner * result AddedTransaction PoolError) :=
  if contains p (ptx_hash tx) then Ret (p, Err (AlreadyImported tx))
  else
    let tx := pending_pool_new now tx (provided_markers (pool_ready p)) in
    if is_ready tx then add_ready_transaction p tx
    else
      pending_add_transaction (pool_pending p) tx ≫= λ '(pending, r),
      let p := {| pool_ready := pool_ready p; pool_pending := pending |} in
      match r with
      | Err e => Ret (p, Err e)
      | Ok _ => Ret (p, Ok (AddedPending (ppt_hash tx)))
      end.

(** The first loop of [prune_markers]. *)
Definition prune_marker (s : PoolInner * list PendingPoolTransaction * list PoolTransaction)
    (marker : TxMarker)
    : outcome (PoolInner * list PendingPoolTransaction * list PoolTransaction) :=
  let '(p, imports, pruned) := s in
  mark_and_unlock (pool_pending p) [marker] ≫= λ '(pending, unlocked),
  prune_tags (pool_ready p) marker ≫= λ '(ready, removed),
  Ret ({| pool_ready := ready; pool_pending := pending |}, imports ++ unlocked,
       pruned ++ removed).

(** The second loop: what got unlocked becomes ready. *)
Definition promote (s : PoolInner * list AddedTransaction * list TxHash)
    (tx : PendingPoolTransaction) : outcome (PoolInner * list AddedTransaction * list TxHash) :=
  let '(p, promoted, failed) := s in
  let hash := ppt_hash tx in
  add_ready_transaction p tx ≫= λ '(p, r),
  match r with
  | Ok res => Ret (p, promoted ++ [res], failed)
  | Err _ => Ret (p, promoted, failed ++ [hash])
  end.

Definition prune_markers p (markers : list TxMarker) : outcome (PoolInner * PruneResult) :=
  foldM prune_marker (p, [], []) markers ≫= λ '(p, imports, pruned),
  foldM promote (p, [], []) imports ≫= λ '(p, promoted, failed),
  Ret (p, {| pres_promoted := promoted; pres_failed := failed; pres_pruned := pruned |}).

(** Removal of a list of hashes from both queues. *)
Definition remove_hashes p (tx_hashes : list TxHash)
    : outcome (PoolInner * list PoolTransaction) :=
  remove_with_markers (pool_ready p) tx_hashes None ≫= λ '(ready, removed),
  let '(pending, more) := pending_remove (pool_pending p) tx_hashes in
  Ret ({| pool_ready := ready; pool_pending := pending |}, removed ++ more).

Definition remove_invalid p (tx_hashes : list TxHash)
    : outcome (PoolInner * list PoolTransaction) :=
  if bool_decide (tx_hashes = []) then Ret (p, []) else remove_hashes p tx_hashes.

Definition remove_transactions_by_address (fuel : nat) p (sender : Address)
    : outcome (PoolInner * list PoolTransaction) :=
  transactions_by_sender fuel p sender ≫= λ txs,
  let tx_hashes := ptx_hash <$> txs in
  if bool_decide (tx_hashes = []) then Ret (p, []) else remove_hashes p tx_hashes.

(** ** [Pool] *)

Definition drop_transaction p (tx : TxHash) : outcome (PoolInner * option PoolTransaction) :=
  remove_with_markers (pool_ready p) [tx] None ≫= λ '(ready, removed),
  Ret ({| pool_ready := ready; pool_pending := pool_pending p |},
       snd <$> list_find (λ t, ptx_hash t = tx) removed).

Definition on_mined_block p (o : MinedBlockOutcome) : outcome (PoolInner * PruneResult) :=
  remove_invalid p (ptx_hash <$> invalid o) ≫= λ '(p, _),
  prune_markers p (included o ≫= provides).

(** [(pending, queued)] of [TxpoolStatus]. *)
Definition txpool_status (fuel : nat) p : outcome (Z * Z) :=
  iter_collect fuel (get_transactions (pool_ready p)) ≫= λ ready,
  let count (n : Z) := if (n <=? umax 64)%Z then n else 0%Z in
  Ret (count (Z.of_nat (length ready)), count (Z.of_nat (pending_len (pool_pending p)))).
End pool.

(** ** Listeners

    [Sender] and its [try_send] belong to the [futures] crate: a parameter.
    [try_send] returns the sender and, on failure, whether the channel was
    full. *)
Section listeners.
Context {Sender : Type} (try_send : Sender → TxHash → Sender * result unit bool).

(** A full channel keeps its listener, a closed one loses it. *)
Definition notify_one (hash : TxHash) (listener_tx : Sender) : option Sender :=
  let '(listener_tx, r) := try_send listener_tx hash in
  match r with
  | Ok _ => Some listener_tx
  | Err is_full => if is_full then Some listener_tx else None
  end.

(** [for n in (0..listener.len()).rev()]: from index [n - 1] down to 0. *)
Fixpoint notify_from (hash : TxHash) (n : nat) (listener : list Sender)
    : outcome (list Sender) :=
  match n with
  | O => Ret listener
  | S n =>
      expect (listener !! n) ≫= λ listener_tx,
      let rest := swap_remove n listener in
      notify_from hash n
        (match notify_one hash listener_tx with
         | Some listener_tx => rest ++ [listener_tx]
         | None => rest
         end)
  end.

Definition notify_listener (hash : TxHash) (listener : list Sender) : outcome (list Sender) :=
  notify_from hash (length listener) listener.

(** [Pool::add_transaction]: the ready transaction and the promoted ones are
    announced. *)
Definition pool_add_transaction {order : HashOrder TxHash} (now : Z)
    (s : PoolInner * list Sender) (tx : PoolTransaction)
    : outcome (PoolInner * list Sender * result AddedTransaction PoolError) :=
  let '(p, listener) := s in
  add_transaction now p tx ≫= λ '(p, r),
  match r with
  | Ok (AddedReady info) =>
      foldM (λ l h, notify_listener h l) listener (ri_hash info :: promoted info)
        ≫= λ listener, Ret (p, listener, r)
  | _ => Ret (p, listener, r)
  end.
End listeners.

(** ** Invariant *)

(** What the users of the pool promise about the transactions they submit, and
    the relation between linked transactions that follows from it.  The
    theorems about the pool are proved for every such policy. *)
Class TxPolicy := {
  pol_tx : PoolTransaction → Prop;
  pol_link : TxHash → TxHash → Prop;
  pol_wf : ∀ t, pol_tx t → tx_wf t;
  pol_require : ∀ t t' m, pol_tx t → pol_tx t' → m ∈ provides t → m ∈ requires t' →
    pol_link (ptx_hash t) (ptx_hash t');
  pol_replace : ∀ t t' m h, pol_tx t → pol_tx t' → m ∈ provides t → m ∈ provides t' →
    pol_link (ptx_hash t) h → pol_link (ptx_hash t') h
}.

(** The weakest policy: well-formed transactions. *)
#[export] Program Instance any_policy : TxPolicy | 100 :=
  {| pol_tx := tx_wf; pol_link := λ _ _, True |}.
Solve Obligations with done.

(** Both queues satisfy their invariants, hold distinct hashes and well-formed
    transactions, and no waiting transaction waits for a marker that the ready
    queue provides. *)
Record pool_inv `{TxPolicy} (p : PoolInner) : Prop := {
  pl_ready : ready_inv (pool_ready p);
  pl_order : order_inv (pool_ready p);
  pl_pending : pending_inv (pool_pending p);
  pl_disjoint : ∀ h, is_Some (txs (ready_tx (pool_ready p)) !! h) →
    waiting_queue (pool_pending p) !! h = None;
  pl_markers : ∀ m, is_Some (provided_markers (pool_ready p) !! m) →
    required_markers (pool_pending p) !! m = None;
  pl_wf : ∀ h tx, waiting_queue (pool_pending p) !! h = Some tx → pol_tx (ppt_transaction tx);
  pl_good : ∀ h t, txs (ready_tx (pool_ready p)) !! h = Some t → pol_tx t;
  pl_links : ∀ h h', link (ready_tx (pool_ready p)) h h' → pol_link h h'
}.

(** [h] is the hash of a transaction of the pool. *)
Definition in_pool (p : PoolInner) (h : TxHash) : Prop :=
  is_Some (txs (ready_tx (pool_ready p)) !! h) ∨ is_Some (waiting_queue (pool_pending p) !! h).

Lemma contains_spec p h : contains p h = true ↔ in_pool p h.
Proof.
  unfold contains, pending_contains, ready_contains, in_pool.
  rewrite orb_true_iff, !bool_decide_eq_true, txs_lookup, fmap_is_Some. tauto.
Qed.

Lemma pool_default_inv `{TxPolicy} : pool_inv pool_default.
Proof.
  split; simpl; try done; [..|by intros h h' (r & ? & _)].
  - split; simpl; [constructor|]. intros x Hx. by apply elem_of_nil in Hx.
  - apply pending_default_inv.
Qed.

Section marked_facts.
Context {order : HashOrder TxHash}.
Implicit Types st : PendingTransactions.

(** Checking off a marker nobody waits for does nothing. *)
Lemma mark_and_unlock_noop st ms :
  (∀ m, m ∈ ms → required_markers st !! m = None) → mark_and_unlock st ms = Ret (st, []).
Proof.
  unfold mark_and_unlock. induction ms as [|m ms IH]; intros Hm; simpl; [done|].
  rewrite (Hm m) by set_solver. simpl. apply IH. set_solver.
Qed.

Lemma marked_dom ms st st' un h :
  marked ms st st' un → is_Some (waiting_queue st' !! h) → is_Some (waiting_queue st !! h).
Proof.
  intros M. rewrite (mk_queue _ _ _ _ M). destruct (waiting_queue st !! h); [eauto|by intros []].
Qed.

(** What is unlocked leaves the queue, and nothing else does. *)
Lemma marked_unlocked ms st st' un :
  pending_inv st → marked ms st st' un →
  ∀ h, h ∈ ppt_hash <$> un ↔
    is_Some (waiting_queue st !! h) ∧ waiting_queue st' !! h = None.
Proof.
  intros Hi M h. rewrite list_elem_of_fmap. setoid_rewrite (mk_unlocked _ _ _ _ M).
  rewrite (mk_queue _ _ _ _ M). split.
  - intros (t & -> & h' & tx & Hq & Hs & ->). rewrite ppt_hash_unmark, (pi_hash _ Hi _ _ Hq).
    rewrite Hq; simpl. rewrite decide_True by done. eauto.
  - intros [[tx Hq] Hn]. rewrite Hq in Hn; simpl in Hn. case_decide; [|done].
    exists (unmark ms tx). rewrite ppt_hash_unmark, (pi_hash _ Hi _ _ Hq). eauto 10.
Qed.

Lemma marked_size ms st st' un :
  pending_inv st → marked ms st st' un →
  pending_len st' + length un = pending_len st.
Proof.
  intros Hi M. unfold pending_len.
  assert (dom (waiting_queue st') ⊆ dom (waiting_queue st)) as Hsub.
  { intros h. rewrite !elem_of_dom. by apply (marked_dom ms st st' un). }
  assert (size (dom (waiting_queue st) ∖ dom (waiting_queue st')) = length un) as Hsz.
  { rewrite <- (length_fmap ppt_hash), <- (size_list_to_set (C := gset TxHash)) by apply M.
    f_equal. apply set_eq. intros h. rewrite elem_of_list_to_set, (marked_unlocked _ _ _ _ Hi M).
    rewrite elem_of_difference, !elem_of_dom, eq_None_not_Some. done. }
  rewrite size_difference in Hsz by done.
  pose proof (subseteq_size _ _ Hsub). rewrite !size_dom in *. lia.
Qed.
End marked_facts.

(** ** Adding a ready transaction *)

Section add_ready.
Context {order : HashOrder TxHash} {pol : TxPolicy}.
Implicit Types (p : PoolInner) (tx : PendingPoolTransaction).

(** A transaction that may enter the ready queue of [p]. *)
Record admissible p tx : Prop := {
  am_missing : missing_markers tx = ∅;
  am_wf : pol_tx (ppt_transaction tx);
  am_new : ¬ in_pool p (ppt_hash tx)
}.

Lemma unmark_wf h ms tx p :
  pool_inv p → waiting_queue (pool_pending p) !! h = Some tx →
  pol_tx (ppt_transaction (unmark ms tx)).
Proof. intros Hi. apply (pl_wf _ Hi h tx). Qed.

Lemma provided_tx p m h :
  pool_inv p → provided_markers (pool_ready p) !! m = Some h →
  ∃ t, ptx_hash t = h ∧ m ∈ provides t ∧ pol_tx t.
Proof.
  intros Hi Hm. destruct (mi_provided _ _ _ (pl_ready _ Hi) _ _ Hm) as [?|(t & Ht & ?)];
    [set_solver|]. exists t. split_and!; [|done|by eapply pl_good].
  by apply (mi_hash _ _ _ (pl_ready _ Hi)).
Qed.

(** The links of a new transaction respect the policy. *)
Lemma link_added p t ready' replaced h h' :
  pool_inv p → pol_tx t → ready_added t (pool_ready p) ready' replaced →
  link (ready_tx ready') h h' → pol_link h h'.
Proof.
  intros Hi Ht R Hl.
  destruct (ra_link _ _ _ _ R h h' Hl) as [?|[(-> & h0 & (m & Hm & Hp) & Hl0)|(-> & m & Hm & Hp)]].
  - by apply (pl_links _ Hi).
  - destruct (provided_tx _ _ _ Hi Hp) as (t0 & <- & Hm0 & Ht0).
    eapply (pol_replace t0 t m); try done. by apply (pl_links _ Hi).
  - destruct (provided_tx _ _ _ Hi Hp) as (t0 & <- & Hm0 & Ht0).
    by eapply (pol_require t0 t m).
Qed.

(** The pool once the markers of an admissible transaction are checked off
    and the transaction has entered the ready queue. *)
Lemma pool_inv_added p tx ready' pending' un replaced :
  pool_inv p → admissible p tx →
  marked (list_to_set (provides (ppt_transaction tx))) (pool_pending p) pending' un →
  ready_added (ppt_transaction tx) (pool_ready p) ready' replaced →
  pool_inv {| pool_ready := ready'; pool_pending := pending' |}.
Proof.
  intros Hi Ha M R. split; simpl.
  - apply R.
  - apply R, Hi.
  - apply M.
  - intros h [t Ht].
    destruct (waiting_queue pending' !! h) as [w|] eqn:Hw; [exfalso|done].
    destruct (marked_dom _ _ _ _ h M) as [w' Hw']; [by rewrite Hw|].
    destruct (decide (h = ppt_hash tx)) as [->|Hne].
    + apply (am_new _ _ Ha). right. by rewrite Hw'.
    + assert (is_Some (txs (ready_tx (pool_ready p)) !! h)) as Hr
        by (eexists; by eapply (ra_old _ _ _ _ R)).
      rewrite (pl_disjoint _ Hi _ Hr) in Hw'. done.
  - intros m Hm. rewrite (mk_required _ _ _ _ M).
    destruct (ra_provided _ _ _ _ R m Hm) as [Hin|Hp].
    + rewrite decide_True; [done|by apply elem_of_list_to_set].
    + case_decide; [done|]. by apply (pl_markers _ Hi).
  - intros h w. rewrite (mk_queue _ _ _ _ M).
    destruct (waiting_queue (pool_pending p) !! h) as [w0|] eqn:Hw; simpl; [|done].
    case_decide; [done|]. intros [= <-]. by eapply unmark_wf.
  - intros h t Ht. destruct (decide (h = ppt_hash tx)) as [->|Hne].
    + rewrite (ra_new _ _ _ _ R : _ !! ppt_hash tx = _) in Ht. simplify_eq. apply Ha.
    + eapply (pl_good _ Hi). by apply (ra_old _ _ _ _ R).
  - intros h h' Hl. by eapply link_added; [|apply (am_wf _ _ Ha)|..].
Qed.

(** The transactions it unlocked are admissible in turn. *)
Lemma unlocked_admissible p tx ready' pending' un replaced q :
  pool_inv p → admissible p tx →
  marked (list_to_set (provides (ppt_transaction tx))) (pool_pending p) pending' un →
  ready_added (ppt_transaction tx) (pool_ready p) ready' replaced →
  q ∈ un → admissible {| pool_ready := ready'; pool_pending := pending' |} q.
Proof.
  intros Hi Ha M R Hq.
  assert (ppt_hash q ∈ ppt_hash <$> un) as Hh by (by apply list_elem_of_fmap_2).
  apply (marked_unlocked _ _ _ _ (pl_pending _ Hi) M) in Hh as [Hw Hn].
  apply (mk_unlocked _ _ _ _ M) in Hq as (h & w & Hqw & Hs & ->). split.
  - simpl. set_solver.
  - by eapply unmark_wf.
  - intros [[t Ht]|Hx]; simpl in *; [|rewrite Hn in Hx; by destruct Hx].
    destruct (decide (ppt_hash (unmark (list_to_set (provides (ppt_transaction tx))) w)
      = ppt_hash tx)) as [E|Hne].
    + apply (am_new _ _ Ha). right. by rewrite <- E.
    + apply (ra_old _ _ _ _ R) in Ht; [|done]. destruct Hw as [? Hw].
      by rewrite (pl_disjoint _ Hi) in Hw.
Qed.

(** The state of the loop of [add_ready_transaction] started at [p0]. *)
Record adding (t0 : PoolTransaction) p0 p (queue : list PendingPoolTransaction)
    (info : ReadyInfo) : Prop := {
  ad_inv : pool_inv p;
  ad_nodup : NoDup (ppt_hash <$> queue);
  ad_queue : ∀ q, q ∈ queue → admissible p q;
  ad_from : ∀ h, in_pool p h ∨ h ∈ ppt_hash <$> queue → in_pool p0 h ∨ h = ptx_hash t0;
  ad_kept : ∀ h, in_pool p0 h →
    in_pool p h ∨ h ∈ ppt_hash <$> queue ∨ h ∈ discarded info ∨
    h ∈ ptx_hash <$> ri_removed info;
  ad_pending : ∀ h, is_Some (waiting_queue (pool_pending p) !! h) →
    is_Some (waiting_queue (pool_pending p0) !! h);
  ad_promoted : ∀ h, h ∈ promoted info → is_Some (waiting_queue (pool_pending p0) !! h);
  ad_hash : ri_hash info = ptx_hash t0;
  ad_fresh : ¬ in_pool p0 (ptx_hash t0)
}.

(** After the first turn: what is queued was waiting, and the new
    transaction is ready or was removed again. *)
Record settled (t0 : PoolTransaction) p0 p (queue : list PendingPoolTransaction)
    (info : ReadyInfo) : Prop := {
  se_queue : ∀ q, q ∈ queue → is_Some (waiting_queue (pool_pending p0) !! ppt_hash q);
  se_tx : txs (ready_tx (pool_ready p)) !! ptx_hash t0 =
    if decide (ptx_hash t0 ∈ ptx_hash <$> ri_removed info) then None else Some t0
}.

(** A successful turn keeps the loop invariant. *)
Lemma adding_ok t0 p0 p tx queue info info' ready' pending' un replaced :
  adding t0 p0 p (tx :: queue) info →
  marked (list_to_set (provides (ppt_transaction tx))) (pool_pending p) pending' un →
  ready_added (ppt_transaction tx) (pool_ready p) ready' replaced →
  ri_hash info' = ri_hash info → discarded info' = discarded info →
  ri_removed info' = ri_removed info ++ replaced →
  (∀ h, h ∈ promoted info' → h ∈ promoted info ∨
     is_Some (waiting_queue (pool_pending p0) !! h)) →
  adding t0 p0 {| pool_ready := ready'; pool_pending := pending' |} (queue ++ un) info'.
Proof.
  intros [Hi Hnd Hq Hfrom Hkept Hpend Hprom Hhash Hfresh] M R Ehash Edisc Erem Hprom'.
  assert (admissible p tx) as Ha by (apply Hq; set_solver).
  pose proof (marked_unlocked _ _ _ _ (pl_pending _ Hi) M) as Hun.
  apply NoDup_cons in Hnd as [Htx Hnd].
  assert (∀ h, in_pool {| pool_ready := ready'; pool_pending := pending' |} h →
            in_pool p h ∨ h = ppt_hash tx) as Hback.
  { intros h [[t Ht]|Hw]; simpl in *.
    - destruct (decide (h = ppt_hash tx)); [by right|left; left].
      eexists. by eapply (ra_old _ _ _ _ R).
    - left; right. by eapply marked_dom. }
  split; simpl.
  - by eapply pool_inv_added.
  - rewrite fmap_app. apply NoDup_app. split_and!; [done| |apply M].
    intros h (q & -> & Hin)%list_elem_of_fmap Hu. apply Hun in Hu as [Hw _].
    apply (am_new _ _ (Hq q ltac:(set_solver))). by right.
  - intros q [Hin|Hin]%elem_of_app; [|by eapply unlocked_admissible].
    destruct (Hq q ltac:(set_solver)) as [Hm Hw Hn]. split; [done..|].
    intros [?|E]%Hback; [done|]. apply Htx. rewrite <- E. by apply list_elem_of_fmap_2.
  - intros h. rewrite fmap_app, elem_of_app, Hun. intros [[?| ->]%Hback|[?|[? _]]];
      apply Hfrom; [by left|right; set_solver|right; set_solver|left; by right].
  - intros h Hh. rewrite fmap_app, elem_of_app, Hun, Erem, fmap_app, elem_of_app, Edisc.
    destruct (Hkept h Hh) as [[[t Ht]|Hw]|[Hin|[?|?]]]; [| | |tauto..].
    + destruct (txs (ready_tx ready') !! h) eqn:E; [left; left; by eexists|].
      right; right; right; right. apply list_elem_of_fmap. exists t.
      split; [by rewrite (mi_hash _ _ _ (pl_ready _ Hi) _ _ Ht)|].
      apply (ra_replaced _ _ _ _ R). eauto.
    + destruct (waiting_queue pending' !! h) eqn:E; [left; right; by eexists|tauto].
    + apply elem_of_cons in Hin as [->|?]; [|tauto]. left; left.
      eexists. apply (ra_new _ _ _ _ R).
  - intros h Hw. apply Hpend. by eapply marked_dom.
  - intros h [?|?]%Hprom'; auto.
  - congruence.
  - done.
Qed.

(** A ready transaction with the same markers pays at least as much. *)
Definition underpriced p (t : PoolTransaction) : Prop :=
  ∃ h r, ready_tx (pool_ready p) !! h = Some r ∧ rt_provides r = provides t ∧
         (ptx_gas_price t ≤ rt_gas_price r)%Z.

(** One turn either refuses the transaction and changes nothing, or moves it
    into the ready queue. *)
Lemma add_turn p tx :
  pool_inv p → admissible p tx →
  (mark_and_unlock (pool_pending p) (provides (ppt_transaction tx)) =
     Ret (pool_pending p, []) ∧
   ready_add_transaction (pool_ready p) tx =
     Ret (pool_ready p, Err (ReplacementUnderpriced (ppt_transaction tx))) ∧
   underpriced p (ppt_transaction tx)) ∨
  (∃ pending' un ready' replaced,
     mark_and_unlock (pool_pending p) (provides (ppt_transaction tx)) = Ret (pending', un) ∧
     ready_add_transaction (pool_ready p) tx = Ret (ready', Ok replaced) ∧
     marked (list_to_set (provides (ppt_transaction tx))) (pool_pending p) pending' un ∧
     ready_added (ppt_transaction tx) (pool_ready p) ready' replaced).
Proof.
  intros Hi Ha.
  assert (txs (ready_tx (pool_ready p)) !! ppt_hash tx = None) as Hn.
  { apply eq_None_not_Some. intros ?. apply (am_new _ _ Ha). by left. }
  destruct (ready_add_transaction_spec (pool_ready p) tx (pl_ready _ Hi) (am_missing _ _ Ha)
    (pol_wf _ (am_wf _ _ Ha)) Hn) as [(E & h & r & _ & Hr & Hp & Hg)|(ready' & replaced & E & R)].
  - left. split_and!; [|done|by exists h, r]. apply mark_and_unlock_noop.
    intros m Hm. apply (pl_markers _ Hi). exists h.
    eapply (mi_provides _ _ _ (pl_ready _ Hi)); [by rewrite txs_lookup, Hr|].
    change (m ∈ rt_provides r). by rewrite Hp.
  - right. destruct (mark_and_unlock_spec (pool_pending p)
      (provides (ppt_transaction tx)) (pl_pending _ Hi)) as (pending' & un & E' & M).
    by exists pending', un, ready', replaced.
Qed.

(** The loop invariant; the first turn works on the given transaction. *)
Definition add_loop p0 tx0 (s : PoolInner * list PendingPoolTransaction * ReadyInfo * bool)
    : Prop :=
  let '(p, queue, info, is_new) := s in
  adding (ppt_transaction tx0) p0 p queue info ∧
  if is_new then p = p0 ∧ queue = [tx0] ∧ info = ready_info_new (ppt_hash tx0)
  else settled (ppt_transaction tx0) p0 p queue info.

Definition add_loop_post p0 tx0 (r : PoolInner * result ReadyInfo PoolError) : Prop :=
  match r.2 with
  | Err e => r.1 = p0 ∧ e = ReplacementUnderpriced (ppt_transaction tx0) ∧
      underpriced p0 (ppt_transaction tx0)
  | Ok info => adding (ppt_transaction tx0) p0 r.1 [] info ∧
      settled (ppt_transaction tx0) p0 r.1 [] info
  end.

Lemma adding_start p tx :
  pool_inv p → admissible p tx →
  adding (ppt_transaction tx) p p [tx] (ready_info_new (ppt_hash tx)).
Proof.
  intros Hi Ha. split; simpl; try done.
  - apply NoDup_singleton.
  - by intros q ->%list_elem_of_singleton.
  - intros h [?|?%list_elem_of_singleton]; auto.
  - auto.
  - intros h Hh. by apply elem_of_nil in Hh.
  - apply (am_new _ _ Ha).
Qed.

(** A refused transaction of the queue is discarded. *)
Lemma adding_discard t0 p0 p tx queue info :
  adding t0 p0 p (tx :: queue) info →
  adding t0 p0 p queue
    {| ri_hash := ri_hash info; promoted := promoted info;
       discarded := discarded info ++ [ppt_hash tx]; ri_removed := ri_removed info |}.
Proof.
  intros [Hi Hnd Hq Hfrom Hkept Hpend Hprom Hhash Hfresh]. split; simpl; try done.
  - by apply NoDup_cons in Hnd as [_ ?].
  - intros q ?. apply Hq. set_solver.
  - intros h [?|?]; apply Hfrom; [by left|right; set_solver].
  - intros h Hh. destruct (Hkept h Hh) as [?|[[->|?]%elem_of_cons|[?|?]]];
      [by left| |by right; left| |by right; right; right]; right; right; left; set_solver.
Qed.

(** The hashes of the replaced transactions are those that left the queue. *)
Lemma replaced_hashes p t ready' replaced h :
  pool_inv p → ready_added t (pool_ready p) ready' replaced →
  h ∈ ptx_hash <$> replaced ↔
    is_Some (txs (ready_tx (pool_ready p)) !! h) ∧ txs (ready_tx ready') !! h = None.
Proof.
  intros Hi R. rewrite list_elem_of_fmap. setoid_rewrite (ra_replaced _ _ _ _ R). split.
  - intros (t' & -> & h' & Ht' & Hn). rewrite (mi_hash _ _ _ (pl_ready _ Hi) _ _ Ht'). eauto.
  - intros [[t' Ht'] Hn]. exists t'.
    rewrite (mi_hash _ _ _ (pl_ready _ Hi) _ _ Ht'). eauto.
Qed.

Lemma settled_ok p0 tx0 p tx queue info is_new ready' pending' un replaced :
  add_loop p0 tx0 (p, tx :: queue, info, is_new) →
  marked (list_to_set (provides (ppt_transaction tx))) (pool_pending p) pending' un →
  ready_added (ppt_transaction tx) (pool_ready p) ready' replaced →
  ∀ info', ri_removed info' = ri_removed info ++ replaced →
  settled (ppt_transaction tx0) p0 {| pool_ready := ready'; pool_pending := pending' |}
    (queue ++ un) info'.
Proof.
  intros [Had Hs] M R info' Erem. pose proof (ad_inv _ _ _ _ _ Had) as Hi. split; simpl.
  - intros q [Hq|Hq]%elem_of_app.
    + destruct is_new; [destruct Hs as (_ & [= _ ->] & _); by apply elem_of_nil in Hq|].
      apply (se_queue _ _ _ _ _ Hs). set_solver.
    + apply (ad_pending _ _ _ _ _ Had).
      apply (marked_unlocked _ _ _ _ (pl_pending _ Hi) M). by apply list_elem_of_fmap_2.
  - rewrite Erem. destruct is_new.
    + destruct Hs as (-> & [= -> ->] & ->); simpl. rewrite decide_False.
      * apply (ra_new _ _ _ _ R).
      * intros Hin. apply (replaced_hashes _ _ _ _ _ Hi R) in Hin as [Ht _].
        apply (am_new _ _ (ad_queue _ _ _ _ _ Had tx0 ltac:(set_solver))). by left.
    + assert (ptx_hash (ppt_transaction tx0) ≠ ppt_hash tx) as Hne.
      { intros E. apply (ad_fresh _ _ _ _ _ Had). rewrite E. right.
        apply (se_queue _ _ _ _ _ Hs). set_solver. }
      pose proof (se_tx _ _ _ _ _ Hs) as Htx.
      destruct (txs (ready_tx ready') !! ptx_hash (ppt_transaction tx0)) as [t|] eqn:E.
      * pose proof (ra_old _ _ _ _ R _ _ Hne E) as Ht. rewrite Ht in Htx.
        case_decide as Hold; [done|]. rewrite decide_False; [done|].
        rewrite fmap_app, elem_of_app. intros [?|[_ ?]%(replaced_hashes _ _ _ _ _ Hi R)]; congruence.
      * rewrite decide_True; [done|]. rewrite fmap_app, elem_of_app.
        case_decide; [by left|right]. apply (replaced_hashes _ _ _ _ _ Hi R). by rewrite Htx.
Qed.

Lemma add_loop_spec p tx :
  pool_inv p → admissible p tx →
  ∃ r, run (S (S (pending_len (pool_pending p)))) add_ready_body
         (p, [tx], ready_info_new (ppt_hash tx), true) = Ret r ∧ add_loop_post p tx r.
Proof.
  intros Hi Ha. eapply (run_spec (add_loop p tx) _
    (λ s, length s.1.1.2 + pending_len (pool_pending s.1.1.1))); [| |simpl; lia].
  - intros [[[cur queue] info] is_new] [Had Hs]. unfold add_ready_body.
    destruct queue as [|q queue].
    { right. eexists. split; [done|]. destruct is_new; [by destruct Hs as (_ & ? & _)|].
      by split. }
    destruct (add_turn cur q) as [(-> & -> & Hu)|(pending' & un & ready' & replaced & -> & -> & M & R)];
      [apply Had|apply Had; set_solver|..]; rewrite !bind_Ret.
    + destruct is_new.
      * right. eexists. split; [done|]. destruct Hs as (-> & [= -> _] & _).
        split_and!; [by destruct p|done..].
      * left. eexists. split; [done|]. rewrite app_nil_r. simpl. split; [|lia].
        assert ({| pool_ready := pool_ready cur; pool_pending := pool_pending cur |} = cur)
          as -> by (by destruct cur).
        split; [by apply adding_discard|]. split; simpl; [|apply (se_tx _ _ _ _ _ Hs)].
        intros q' ?. apply (se_queue _ _ _ _ _ Hs). set_solver.
    + left. eexists. split; [done|]. split; simpl.
      * split; [|by eapply settled_ok]. eapply adding_ok; try done.
        intros h. destruct is_new; [by left|]. intros [?|Hh%list_elem_of_singleton]%elem_of_app;
          [by left|right]. subst h. apply (se_queue _ _ _ _ _ Hs). set_solver.
      * pose proof (marked_size _ _ _ _ (pl_pending _ (ad_inv _ _ _ _ _ Had)) M).
        rewrite length_app. lia.
  - simpl. split; [by apply adding_start|done].
Qed.
End add_ready.

(** ** Contracts of the pool operations *)

Section pool_ops.
Context {order : HashOrder TxHash} {pol : TxPolicy}.
Implicit Types (p : PoolInner) (tx : PendingPoolTransaction).

(** Removing ready transactions keeps the invariant. *)
Lemma pool_inv_removed p hs ready' removed :
  pool_inv p → removal ∅ hs (pool_ready p) ready' removed →
  pool_inv {| pool_ready := ready'; pool_pending := pool_pending p |}.
Proof.
  intros Hi R. split; simpl.
  - apply R.
  - apply R, Hi.
  - apply Hi.
  - intros h [t Ht]. apply (pl_disjoint _ Hi). exists t. by eapply lookup_weaken; [|apply R].
  - intros m [h Hm]. apply (pl_markers _ Hi). exists h. by eapply lookup_weaken; [|apply R].
  - apply Hi.
  - intros h t Ht. eapply (pl_good _ Hi). by eapply lookup_weaken; [|apply R].
  - intros h h' ?%(rm_link _ _ _ _ _ R). by apply (pl_links _ Hi).
Qed.

(** Removing waiting transactions keeps the invariant. *)
Lemma pool_inv_pending_removed p hs pending' removed :
  pool_inv p → pending_remove (pool_pending p) hs = (pending', removed) →
  pool_inv {| pool_ready := pool_ready p; pool_pending := pending' |}.
Proof.
  intros Hi E. pose proof (pending_remove_spec (pool_pending p) hs (pl_pending _ Hi)) as H.
  rewrite E in H. destruct H as (Hi' & Hq & _ & Hw). split; simpl.
  - apply Hi.
  - apply Hi.
  - done.
  - intros h Hr. rewrite Hq, (pl_disjoint _ Hi) by done. by case_decide.
  - intros m Hm. apply (pl_markers _ Hi) in Hm.
    destruct (required_markers pending' !! m) as [X|] eqn:HX; [exfalso|done].
    destruct (set_choose_L X) as [h Hh]; [by eapply (pi_nonempty _ Hi')|].
    assert (waits_for pending' m h) as Hwf by (apply (pi_required _ Hi'); by rewrite HX).
    apply Hw, (pi_required _ (pl_pending _ Hi)) in Hwf. rewrite Hm in Hwf. set_solver.
  - intros h w. rewrite Hq. case_decide; [done|]. apply (pl_wf _ Hi).
  - apply Hi.
  - apply Hi.
Qed.

(** What [add_ready_transaction] promises. *)
Definition ready_outcome p0 (t : PoolTransaction) p'
    (r : result AddedTransaction PoolError) : Prop :=
  match r with
  | Ok (AddedReady info) =>
      ri_hash info = ptx_hash t ∧
      txs (ready_tx (pool_ready p')) !! ptx_hash t = Some t ∧
      (∀ h, h ∈ promoted info → is_Some (waiting_queue (pool_pending p0) !! h)) ∧
      ∀ h, in_pool p0 h →
        in_pool p' h ∨ h ∈ discarded info ∨ h ∈ ptx_hash <$> ri_removed info
  | Err (ReplacementUnderpriced t') => t' = t ∧ p' = p0 ∧ underpriced p0 t
  | Err CyclicTransaction => ¬ in_pool p' (ptx_hash t)
  | _ => False
  end.

Lemma add_ready_transaction_spec p tx :
  pool_inv p → admissible p tx →
  ∃ p' r, add_ready_transaction p tx = Ret (p', r) ∧ pool_inv p' ∧
    (∀ h, in_pool p' h → in_pool p h ∨ h = ppt_hash tx) ∧
    ready_outcome p (ppt_transaction tx) p' r.
Proof.
  intros Hi Ha. unfold add_ready_transaction.
  destruct (add_loop_spec p tx Hi Ha) as ([p' [info|e]] & -> & Hpost); rewrite bind_Ret.
  - destruct Hpost as [Had Hs]; simpl in Had, Hs. unfold finish_ready.
    pose proof (se_tx _ _ _ _ _ Hs) as Htx.
    assert (existsb (λ t, bool_decide (ptx_hash t = ppt_hash tx)) (ri_removed info) =
      bool_decide (ptx_hash (ppt_transaction tx) ∈ ptx_hash <$> ri_removed info)) as ->.
    { apply eq_bool_prop_intro. rewrite !Is_true_true, existsb_exists, bool_decide_eq_true.
      rewrite list_elem_of_fmap. setoid_rewrite bool_decide_eq_true.
      setoid_rewrite <- list_elem_of_In. unfold ppt_hash. naive_solver. }
    case_bool_decide as Hc.
    + destruct (remove_with_markers_spec ∅ (pool_ready p') (promoted info) None)
        as (ready' & removed & E & R); [done|apply Had|].
      unfold clear_transactions. rewrite E, bind_Ret. rewrite decide_True in Htx by done.
      assert (∀ h, in_pool {| pool_ready := ready'; pool_pending := pool_pending p' |} h →
                in_pool p' h) as Hback.
      { intros h [[t Ht]|?]; [left; exists t; simpl in Ht; by eapply lookup_weaken; [|apply R]|].
        by right. }
      eexists _, _. split; [done|]. split_and!.
      * eapply pool_inv_removed; [apply Had|done].
      * intros h ?%Hback. apply (ad_from _ _ _ _ _ Had). by left.
      * intros [[t Ht]|Hw]%Hback; [congruence|]. apply (ad_fresh _ _ _ _ _ Had). right.
        by apply (ad_pending _ _ _ _ _ Had).
    + rewrite decide_False in Htx by done. eexists _, _. split; [done|].
      split_and!; [apply Had| |simpl; split_and!; [apply Had|done|apply Had|]].
      * intros h ?. apply (ad_from _ _ _ _ _ Had). by left.
      * intros h Hh. destruct (ad_kept _ _ _ _ _ Had h Hh) as [?|[?%elem_of_nil|?]]; tauto.
  - destruct Hpost as (Ep & Ee & Hu); simpl in Ep, Ee. subst. eexists _, _. split; [done|].
    split_and!; [done|by left|done].
Qed.

(** The contract of [add_transaction]; nothing is promised about where the
    transaction is after [CyclicTransaction] ([cyclic_dropped] says where). *)
Definition added p0 (t : PoolTransaction) p' (r : result AddedTransaction PoolError) : Prop :=
  match r with
  | Err (AlreadyImported t') => t' = t ∧ p' = p0 ∧ in_pool p0 (ptx_hash t)
  | Err (ReplacementUnderpriced t') => t' = t ∧ p' = p0 ∧
      (underpriced p0 t ∨
       ∃ h w, waiting_queue (pool_pending p0) !! h = Some w ∧
         provides (ppt_transaction w) = provides t ∧
         (ptx_gas_price t < ptx_gas_price (ppt_transaction w))%Z)
  | Ok (AddedPending h) => h = ptx_hash t ∧
      (∃ w, waiting_queue (pool_pending p') !! h = Some w ∧ ppt_transaction w = t) ∧
      ∀ h', in_pool p0 h' → in_pool p' h'
  | Err CyclicTransaction => True
  | _ => ready_outcome p0 t p' r
  end.

Lemma pool_inv_waiting p now (t : PoolTransaction) (w := pending_pool_new now t (provided_markers (pool_ready p))) :
  pool_inv p → pol_tx t → ¬ in_pool p (ptx_hash t) →
  pending_inv (pending_insert (pool_pending p) w) →
  pool_inv {| pool_ready := pool_ready p; pool_pending := pending_insert (pool_pending p) w |}.
Proof.
  intros Hi Hwf Hn Hinv. split; simpl; try apply Hi; [done|..].
  - intros h Hr. rewrite lookup_insert_ne; [by apply (pl_disjoint _ Hi)|].
    intros <-. apply Hn. by left.
  - intros m Hm.
    change (required_markers (pending_insert (pool_pending p) w) !! m = None).
    destruct (required_markers _ !! m) as [X|] eqn:HX; [exfalso|done].
    destruct (set_choose_L X) as [h Hh]; [by eapply (pi_nonempty _ Hinv)|].
    assert (h ∈ default ∅ (required_markers (pending_insert (pool_pending p) w) !! m)) as Hx
      by (by rewrite HX).
    apply require_markers_elem in Hx as [Hx|[_ Hx]].
    + rewrite (pl_markers _ Hi) in Hx by done. set_solver.
    + apply elem_of_elements in Hx. unfold w in Hx; simpl in Hx.
      apply elem_of_list_to_set, list_elem_of_filter in Hx as [Hx _].
      rewrite Hx in Hm. by destruct Hm.
  - intros h w'. rewrite lookup_insert. case_decide; [by intros [= <-]|]. apply (pl_wf _ Hi).
Qed.

Lemma add_transaction_spec now p t :
  pool_inv p → pol_tx t →
  ∃ p' r, add_transaction now p t = Ret (p', r) ∧ pool_inv p' ∧
    (∀ h, in_pool p' h → in_pool p h ∨ h = ptx_hash t) ∧ added p t p' r.
Proof.
  intros Hi Hwf. unfold add_transaction.
  destruct (contains p (ptx_hash t)) eqn:Hc.
  { apply contains_spec in Hc. eexists _, _. split; [done|]. split_and!; auto. by split_and!. }
  assert (¬ in_pool p (ptx_hash t)) as Hn by (rewrite <- contains_spec; congruence).
  set (w := pending_pool_new now t (provided_markers (pool_ready p))).
  destruct (is_ready w) eqn:Hr.
  - apply bool_decide_eq_true in Hr.
    destruct (add_ready_transaction_spec p w Hi) as (p' & r & -> & Hi' & Hfrom & Hout).
    { by split. }
    exists p', r. split_and!; try done. destruct r as [[]|[]]; try done.
    destruct Hout as (-> & -> & ?). split_and!; auto.
  - apply bool_decide_eq_false in Hr.
    assert (waiting_queue (pool_pending p) !! ptx_hash t = None) as Hq.
    { apply eq_None_not_Some. intros ?. apply Hn. by right. }
    destruct (pending_add_transaction_spec (pool_pending p) w (pl_pending _ Hi) Hq Hr)
      as [[-> Hinv]|[-> Hu]]; rewrite bind_Ret.
    + eexists _, _. split; [done|]. split_and!.
      * by apply pool_inv_waiting.
      * intros h [?|Hw]; [left; by left|]. simpl in Hw. rewrite lookup_insert in Hw.
        case_decide; [by right|left; by right].
      * split_and!; [done|exists w; simpl; by rewrite lookup_insert_eq|].
        intros h [?|?]; [by left|right]; simpl. rewrite lookup_insert. by case_decide.
    + eexists _, _. split; [done|]. destruct p. split_and!; try done; [by left|].
      split_and!; [done..|by right].
Qed.

(** A transaction that is part of a cycle is in neither queue afterwards. *)
Lemma cyclic_dropped now p t p' :
  pool_inv p → pol_tx t → add_transaction now p t = Ret (p', Err CyclicTransaction) →
  ¬ in_pool p' (ptx_hash t).
Proof.
  intros Hi Hwf. unfold add_transaction. destruct (contains p (ptx_hash t)) eqn:Hc; [done|].
  assert (¬ in_pool p (ptx_hash t)) as Hn by (rewrite <- contains_spec; congruence).
  set (w := pending_pool_new now t (provided_markers (pool_ready p))).
  destruct (is_ready w) eqn:Hr.
  - apply bool_decide_eq_true in Hr.
    destruct (add_ready_transaction_spec p w Hi) as (p1 & r & -> & _ & _ & Hout); [by split|].
    by intros [= -> ->].
  - apply bool_decide_eq_false in Hr.
    assert (waiting_queue (pool_pending p) !! ptx_hash t = None) as Hq.
    { apply eq_None_not_Some. intros ?. apply Hn. by right. }
    destruct (pending_add_transaction_spec (pool_pending p) w (pl_pending _ Hi) Hq Hr)
      as [[-> _]|[-> _]]; by rewrite bind_Ret.
Qed.

(** *** Pruning *)

Lemma admissible_shrink p p' tx :
  (∀ h, h = ppt_hash tx → in_pool p' h → in_pool p h) → admissible p tx → admissible p' tx.
Proof. intros Hs [Hm Hw Hn]. split; [done..|]. intros ?. apply Hn. by apply Hs. Qed.

(** The state of the first loop of [prune_markers]. *)
Record pruning_pool p0 (dn : list TxMarker) p (imports : list PendingPoolTransaction)
    (removed : list PoolTransaction) : Prop := {
  pp_inv : pool_inv p;
  pp_nodup : NoDup (ppt_hash <$> imports);
  pp_imports : ∀ q, q ∈ imports → admissible p q;
  pp_waiting : ∀ h, h ∈ ppt_hash <$> imports ∨ is_Some (waiting_queue (pool_pending p) !! h) →
    is_Some (waiting_queue (pool_pending p0) !! h);
  pp_ready : txs (ready_tx (pool_ready p)) ⊆ txs (ready_tx (pool_ready p0));
  pp_removed : ∀ t, t ∈ removed ↔ ∃ h, txs (ready_tx (pool_ready p0)) !! h = Some t ∧
    txs (ready_tx (pool_ready p)) !! h = None;
  pp_done : ∀ m, m ∈ dn → provided_markers (pool_ready p) !! m = None
}.

Lemma pruned_unlocked_admissible p m pending' un ready' removed q :
  pool_inv p → marked {[m]} (pool_pending p) pending' un →
  pruned m (pool_ready p) ready' removed → q ∈ un →
  admissible {| pool_ready := ready'; pool_pending := pending' |} q.
Proof.
  intros Hi M R Hq.
  assert (ppt_hash q ∈ ppt_hash <$> un) as Hh by (by apply list_elem_of_fmap_2).
  apply (marked_unlocked _ _ _ _ (pl_pending _ Hi) M) in Hh as [Hw Hn].
  apply (mk_unlocked _ _ _ _ M) in Hq as (h & w & Hqw & Hs & ->). split.
  - simpl. set_solver.
  - by eapply unmark_wf.
  - intros [[t Ht]|Hx]; simpl in *; [|rewrite Hn in Hx; by destruct Hx].
    destruct Hw as [? Hw]. rewrite (pl_disjoint _ Hi) in Hw; [done|]. exists t.
    by eapply lookup_weaken; [|apply R].
Qed.

Lemma pool_inv_pruned p m pending' un ready' removed :
  pool_inv p → marked {[m]} (pool_pending p) pending' un →
  pruned m (pool_ready p) ready' removed →
  pool_inv {| pool_ready := ready'; pool_pending := pending' |}.
Proof.
  intros Hi M R. split; simpl.
  - apply R.
  - apply R, Hi.
  - apply M.
  - intros h [t Ht]. apply eq_None_not_Some. intros [w Hw]%(marked_dom _ _ _ _ _ M).
    rewrite (pl_disjoint _ Hi) in Hw; [done|]. exists t. by eapply lookup_weaken; [|apply R].
  - intros m' [h Hm]. rewrite (mk_required _ _ _ _ M). case_decide; [done|].
    apply (pl_markers _ Hi). exists h. by eapply lookup_weaken; [|apply R].
  - intros h w. rewrite (mk_queue _ _ _ _ M).
    destruct (waiting_queue (pool_pending p) !! h) as [w0|] eqn:Hw; simpl; [|done].
    case_decide; [done|]. intros [= <-]. by eapply unmark_wf.
  - intros h t Ht. eapply (pl_good _ Hi). by eapply lookup_weaken; [|apply R].
  - intros h h' ?%(pr_link _ _ _ _ R). by apply (pl_links _ Hi).
Qed.

Lemma prune_marker_step p0 dn p imports removed m :
  pruning_pool p0 dn p imports removed →
  ∃ p' imports' removed', prune_marker (p, imports, removed) m = Ret (p', imports', removed') ∧
    pruning_pool p0 (dn ++ [m]) p' imports' removed'.
Proof.
  intros [Hi Hnd Himp Hw Hr Hrem Hdn]. unfold prune_marker.
  destruct (mark_and_unlock_spec (pool_pending p) [m] (pl_pending _ Hi))
    as (pending' & un & -> & M); rewrite bind_Ret.
  destruct (prune_tags_spec (pool_ready p) m (pl_ready _ Hi)) as (ready' & rem & -> & R);
    rewrite bind_Ret.
  simpl in M. rewrite union_empty_r_L in M.
  pose proof (marked_unlocked _ _ _ _ (pl_pending _ Hi) M) as Hun.
  eexists _, _, _. split; [done|]. split; simpl.
  - by eapply pool_inv_pruned.
  - rewrite fmap_app. apply NoDup_app. split_and!; [done| |apply M].
    intros h (q & -> & Hin)%list_elem_of_fmap Hu. apply Hun in Hu as [Hu _].
    apply (am_new _ _ (Himp q Hin)). by right.
  - intros q [Hin|Hin]%elem_of_app; [|by eapply pruned_unlocked_admissible].
    eapply admissible_shrink; [|by apply Himp]. intros h _ [[t Ht]|?]; simpl in *.
    + left. exists t. by eapply lookup_weaken; [|apply R].
    + right. by eapply marked_dom.
  - intros h. rewrite fmap_app, elem_of_app, Hun. intros [[?|[? _]]|Hx]; apply Hw; [by left|by right|].
    right. by eapply marked_dom.
  - etrans; [apply R|done].
  - intros t. rewrite elem_of_app, Hrem, (pr_removed _ _ _ _ R). split.
    + intros [(h & Ht & Hn)|(h & Ht & Hn)]; exists h; (split; [|]); try done.
      * apply eq_None_not_Some. intros [t' Ht']. eapply lookup_weaken in Ht'; [|apply R].
        congruence.
      * by eapply lookup_weaken.
    + intros (h & Ht & Hn). destruct (txs (ready_tx (pool_ready p)) !! h) as [t'|] eqn:E.
      * right. exists h. split; [|done]. eapply lookup_weaken in E as E'; [|done]. congruence.
      * left. eauto.
  - intros m' [Hm'|Hm'%list_elem_of_singleton]%elem_of_app; [|subst; apply R].
    apply eq_None_not_Some. intros [h Hh]. eapply lookup_weaken in Hh; [|apply R].
    rewrite (Hdn _ Hm') in Hh. done.
Qed.

(** The state of the second loop, with [rest] of the imports to promote; the
    pool stays within [P]. *)
Record promoting (P : TxHash → Prop) (rest : list PendingPoolTransaction) p : Prop := {
  po_inv : pool_inv p;
  po_nodup : NoDup (ppt_hash <$> rest);
  po_rest : ∀ q, q ∈ rest → admissible p q;
  po_from : ∀ h, in_pool p h → P h
}.

Lemma promote_step (P : TxHash → Prop) q rest p pr fl :
  promoting P (q :: rest) p → P (ppt_hash q) →
  ∃ p' pr' fl', promote (p, pr, fl) q = Ret (p', pr', fl') ∧ promoting P rest p'.
Proof.
  intros [Hi Hnd Ha Hfrom] Hq. apply NoDup_cons in Hnd as [Hx Hnd]. unfold promote.
  destruct (add_ready_transaction_spec p q Hi) as (p' & r & -> & Hi' & Hf & _);
    [apply Ha; set_solver|]. rewrite bind_Ret.
  assert (promoting P rest p') as Hp.
  { split; [done..| |].
    - intros q' Hin. eapply admissible_shrink; [|apply Ha; set_solver].
      intros h -> [?|E]%Hf; [done|]. exfalso. apply Hx. rewrite <- E.
      by apply list_elem_of_fmap_2.
    - intros h [?| ->]%Hf; auto. }
  destruct r; eexists _, _, _; eauto.
Qed.

Lemma promote_all (P : TxHash → Prop) rest p pr fl :
  promoting P rest p → (∀ h, h ∈ ppt_hash <$> rest → P h) →
  ∃ p' pr' fl', foldM promote (p, pr, fl) rest = Ret (p', pr', fl') ∧ promoting P [] p'.
Proof.
  revert p pr fl. induction rest as [|q rest IH]; intros p pr fl Hp HP; cbn [foldM].
  { eauto 10. }
  destruct (promote_step P q rest p pr fl Hp) as (p' & pr' & fl' & -> & Hp');
    [apply HP; set_solver|]. rewrite bind_Ret. apply IH; [done|]. intros h ?.
  apply HP. set_solver.
Qed.

(** The contract of [prune_markers]. *)
Record pool_pruned p0 (markers : list TxMarker) p' (res : PruneResult) : Prop := {
  pd_inv : pool_inv p';
  pd_from : ∀ h, in_pool p' h → in_pool p0 h;
  pd_gone : ∀ h t m, txs (ready_tx (pool_ready p0)) !! h = Some t → m ∈ provides t →
    m ∈ markers → t ∈ pres_pruned res;
  pd_pruned : ∀ t, t ∈ pres_pruned res →
    txs (ready_tx (pool_ready p0)) !! ptx_hash t = Some t ∧ ¬ in_pool p' (ptx_hash t)
}.

Lemma prune_markers_spec p markers :
  pool_inv p →
  ∃ p' res, prune_markers p markers = Ret (p', res) ∧ pool_pruned p markers p' res.
Proof.
  intros Hi. unfold prune_markers.
  destruct (foldM_spec prune_marker (λ dn s, pruning_pool p dn s.1.1 s.1.2 s.2) markers
    (p, [], [])) as ([[p1 imports] removed] & -> & Hp).
  { split; simpl; try done.
    - constructor.
    - intros q Hq. by apply elem_of_nil in Hq.
    - intros h [Hh|?]; [by apply elem_of_nil in Hh|done].
    - intros t. split; [intros Ht; by apply elem_of_nil in Ht|].
      intros (h & ? & ?). congruence.
    - intros m Hm. by apply elem_of_nil in Hm. }
  { intros dn m rest [[cur imports] removed] _ H.
    destruct (prune_marker_step _ _ _ _ _ m H) as (p' & i' & r' & E & H').
    by exists (p', i', r'). }
  rewrite bind_Ret; simpl in Hp.
  set (P h := is_Some (txs (ready_tx (pool_ready p1)) !! h) ∨
              is_Some (waiting_queue (pool_pending p) !! h)).
  destruct (promote_all P imports p1 [] []) as (p' & pr & fl & -> & Hq).
  { destruct Hp. split; try done. intros h [?|?]; [by left|right]. auto. }
  { intros h Hh. right. apply (pp_waiting _ _ _ _ _ Hp). by left. }
  rewrite bind_Ret. eexists _, _. split; [done|]. split; simpl.
  - apply Hq.
  - intros h [[t Ht]|?]%(po_from _ _ _ Hq); [left|by right].
    exists t. by eapply lookup_weaken; [|apply Hp].
  - intros h t m Ht Hm Hin. apply (pp_removed _ _ _ _ _ Hp). exists h. split; [done|].
    apply eq_None_not_Some. intros [t' Ht'].
    pose proof (lookup_weaken _ _ _ _ Ht' (pp_ready _ _ _ _ _ Hp)). simplify_eq.
    pose proof (mi_provides _ _ _ (pl_ready _ (pp_inv _ _ _ _ _ Hp)) _ _ _ Ht' Hm) as E.
    rewrite (pp_done _ _ _ _ _ Hp) in E; done.
  - intros t (h & Ht & Hn)%(pp_removed _ _ _ _ _ Hp).
    rewrite (mi_hash _ _ _ (pl_ready _ Hi) _ _ Ht). split; [done|].
    intros [[? ?]|[? Hw]]%(po_from _ _ _ Hq); [congruence|].
    rewrite (pl_disjoint _ Hi) in Hw; done.
Qed.
End pool_ops.

(** ** Removal *)

Section removal_ops.
Context {order : HashOrder TxHash} {pol : TxPolicy}.
Implicit Types p : PoolInner.

(** The contract of the removals: the hashes are gone, nothing is added, and
    exactly what left the pool is returned. *)
Record pool_removed p0 (hs : list TxHash) p' (removed : list PoolTransaction) : Prop := {
  rv_inv : pool_inv p';
  rv_gone : ∀ h, h ∈ hs → ¬ in_pool p' h;
  rv_ready : txs (ready_tx (pool_ready p')) ⊆ txs (ready_tx (pool_ready p0));
  rv_waiting : ∀ h, is_Some (waiting_queue (pool_pending p') !! h) →
    is_Some (waiting_queue (pool_pending p0) !! h);
  rv_removed : ∀ h, in_pool p0 h → ¬ in_pool p' h → h ∈ ptx_hash <$> removed;
  rv_only : ∀ t, t ∈ removed → in_pool p0 (ptx_hash t) ∧ ¬ in_pool p' (ptx_hash t)
}.

Lemma remove_hashes_spec p hs :
  pool_inv p → ∃ p' removed, remove_hashes p hs = Ret (p', removed) ∧
                             pool_removed p hs p' removed.
Proof.
  intros Hi. unfold remove_hashes.
  destruct (remove_with_markers_spec ∅ (pool_ready p) hs None)
    as (ready' & removed & -> & R); [done|apply Hi|]. rewrite bind_Ret.
  pose proof (pool_inv_removed _ _ _ _ Hi R) as Hi1.
  destruct (pending_remove (pool_pending p) hs) as [pending' more] eqn:E.
  pose proof (pool_inv_pending_removed _ _ _ _ Hi1 E) as Hi2. simpl in Hi2.
  pose proof (pending_remove_spec (pool_pending p) hs (pl_pending _ Hi)) as Hp.
  rewrite E in Hp. destruct Hp as (_ & Hq & Hmore & _).
  eexists _, _. split; [done|]. split; [done|..]; unfold in_pool; simpl.
  - intros h Hh. rewrite (rm_gone _ _ _ _ _ R h Hh), Hq, decide_True by done.
    by intros [[? ?]|[? ?]].
  - apply R.
  - intros h. rewrite Hq. case_decide; [by intros []|done].
  - intros h Hin Hn. rewrite fmap_app, elem_of_app.
    destruct Hin as [[t Ht]|[w Hw]]; [left|right].
    + apply list_elem_of_fmap. exists t.
      split; [by rewrite (mi_hash _ _ _ (pl_ready _ Hi) _ _ Ht)|].
      apply (rm_removed _ _ _ _ _ R). exists h. split; [done|].
      apply eq_None_not_Some. tauto.
    + apply list_elem_of_fmap. exists (ppt_transaction w).
      split; [symmetry; by apply (pi_hash _ (pl_pending _ Hi))|]. apply Hmore.
      exists h, w. split_and!; try done. rewrite Hq in Hn. case_decide; [done|].
      exfalso. apply Hn. right. by rewrite Hw.
  - intros t [Ht|Ht]%elem_of_app.
    + apply (rm_removed _ _ _ _ _ R) in Ht as (h & Ht & Hn).
      rewrite (mi_hash _ _ _ (pl_ready _ Hi) _ _ Ht). split; [left; eauto|].
      rewrite Hn, Hq, (pl_disjoint _ Hi) by eauto. intros [[? ?]|Hx]; [done|].
      case_decide; by destruct Hx.
    + apply Hmore in Ht as (h & w & Hh & Hw & ->).
      change (ptx_hash (ppt_transaction w)) with (ppt_hash w).
      rewrite (pi_hash _ (pl_pending _ Hi) _ _ Hw). split; [right; eauto|].
      rewrite (rm_gone _ _ _ _ _ R h Hh), Hq, decide_True by done. by intros [[? ?]|[? ?]].
Qed.

Lemma pool_removed_from p hs p' removed h :
  pool_removed p hs p' removed → in_pool p' h → in_pool p h.
Proof.
  intros R [[t Ht]|?]; [left; exists t|right; by apply (rv_waiting _ _ _ _ R)].
  by eapply lookup_weaken; [|apply R].
Qed.

Lemma pool_removed_nil p : pool_inv p → pool_removed p [] p [].
Proof.
  intros Hi. split; try done; intros h Hh; by apply elem_of_nil in Hh.
Qed.

Lemma remove_invalid_spec p hs :
  pool_inv p → ∃ p' removed, remove_invalid p hs = Ret (p', removed) ∧
                             pool_removed p hs p' removed.
Proof.
  intros Hi. unfold remove_invalid. case_bool_decide as E; [|by apply remove_hashes_spec].
  subst. eexists _, _. split; [done|]. by apply pool_removed_nil.
Qed.

Lemma drop_transaction_spec p h :
  pool_inv p →
  ∃ p' o, drop_transaction p h = Ret (p', o) ∧ pool_inv p' ∧
    (∀ h', in_pool p' h' → in_pool p h') ∧
    txs (ready_tx (pool_ready p')) !! h = None ∧
    pool_pending p' = pool_pending p ∧
    o = txs (ready_tx (pool_ready p)) !! h.
Proof.
  intros Hi. unfold drop_transaction.
  destruct (remove_with_markers_spec ∅ (pool_ready p) [h] None)
    as (ready' & removed & -> & R); [done|apply Hi|]. rewrite bind_Ret.
  assert (txs (ready_tx ready') !! h = None) as Hn by (apply (rm_gone _ _ _ _ _ R); set_solver).
  eexists _, _. split; [done|]. split_and!; simpl; try done.
  - by eapply pool_inv_removed.
  - intros h' [[t Ht]|?]; [left; exists t|by right]. by eapply lookup_weaken; [|apply R].
  - destruct (list_find _ removed) as [[i t]|] eqn:E; simpl.
    + apply list_find_Some in E as (Ht & Hh & _).
      apply list_elem_of_lookup_2, (rm_removed _ _ _ _ _ R) in Ht as (h' & Ht & _).
      rewrite (mi_hash _ _ _ (pl_ready _ Hi) _ _ Ht) in Hh. by subst.
    + apply list_find_None in E. rewrite Forall_forall in E.
      destruct (txs (ready_tx (pool_ready p)) !! h) as [t|] eqn:Ht; [exfalso|done].
      apply (E t); [|by apply (mi_hash _ _ _ (pl_ready _ Hi))].
      apply (rm_removed _ _ _ _ _ R). eauto.
Qed.

Lemma pool_clear_inv p : pool_inv (pool_clear p).
Proof.
  pose proof pool_default_inv as [H1 H2 H3 H4 H5 H6 H7 H8]. split; try done.
  by destruct H2 as [H2 H2']; split.
Qed.
End removal_ops.

(** ** The pool as a state machine *)

(** The operations of [Pool] that change its state. *)
Inductive pool_step {order : HashOrder TxHash} {pol : TxPolicy} : PoolInner → PoolInner → Prop :=
| step_add now p t p' r :
    pol_tx t → add_transaction now p t = Ret (p', r) → pool_step p p'
| step_mined p o p' res :
    on_mined_block p o = Ret (p', res) → pool_step p p'
| step_remove p hs p' removed :
    remove_invalid p hs = Ret (p', removed) → pool_step p p'
| step_remove_sender fuel p sender p' removed :
    remove_transactions_by_address fuel p sender = Ret (p', removed) → pool_step p p'
| step_drop p h p' o :
    drop_transaction p h = Ret (p', o) → pool_step p p'
| step_clear p : pool_step p (pool_clear p).

Section machine.
Context {order : HashOrder TxHash} {pol : TxPolicy}.
Implicit Types p : PoolInner.

(** The contract of [on_mined_block]. *)
Lemma on_mined_block_spec p o :
  pool_inv p →
  ∃ p' res, on_mined_block p o = Ret (p', res) ∧ pool_inv p' ∧
    (∀ h, in_pool p' h → in_pool p h) ∧
    (∀ t, t ∈ invalid o → ¬ in_pool p' (ptx_hash t)) ∧
    (∀ h t m, txs (ready_tx (pool_ready p)) !! h = Some t → m ∈ provides t →
       m ∈ (included o ≫= provides) → ¬ in_pool p' h).
Proof.
  intros Hi. unfold on_mined_block.
  destruct (remove_invalid_spec p (ptx_hash <$> invalid o) Hi) as (p1 & removed & -> & R1).
  rewrite bind_Ret.
  destruct (prune_markers_spec p1 (included o ≫= provides) (rv_inv _ _ _ _ R1))
    as (p2 & res & -> & R2).
  eexists _, _. split; [done|]. split_and!.
  - apply R2.
  - intros h Hh. by eapply (pool_removed_from p), (pd_from _ _ _ _ R2).
  - intros t Ht Hin%(pd_from _ _ _ _ R2). apply (rv_gone _ _ _ _ R1 (ptx_hash t)); [|done].
    by apply list_elem_of_fmap_2.
  - intros h t m Ht Hm Hin Hp2.
    assert (txs (ready_tx (pool_ready p1)) !! h = Some t) as Ht1.
    { destruct (pd_from _ _ _ _ R2 _ Hp2) as [[t' Ht']|[w Hw]%(rv_waiting _ _ _ _ R1)].
      - pose proof (lookup_weaken _ _ _ _ Ht' (rv_ready _ _ _ _ R1)). congruence.
      - by rewrite (pl_disjoint _ Hi) in Hw. }
    apply (pd_pruned _ _ _ _ R2 t); [by eapply (pd_gone _ _ _ _ R2)|].
    by rewrite (mi_hash _ _ _ (pl_ready _ Hi) _ _ Ht).
Qed.

Lemma remove_by_address_inv fuel p sender p' removed :
  pool_inv p → remove_transactions_by_address fuel p sender = Ret (p', removed) → pool_inv p'.
Proof.
  intros Hi. unfold remove_transactions_by_address.
  destruct (transactions_by_sender fuel p sender); simpl; [|done..].
  case_bool_decide; [by intros [= <- _]|].
  destruct (remove_hashes_spec p (ptx_hash <$> a) Hi) as (p1 & r & -> & R).
  intros [= <- _]. apply R.
Qed.

Lemma pool_step_inv p p' : pool_inv p → pool_step p p' → pool_inv p'.
Proof.
  intros Hi Hs. revert Hi.
  destruct Hs as [now q t q' r Ht E|q o q' res E|q hs q' rm E|fuel q sd q' rm E|q h q' o E|q];
    intros Hi.
  - destruct (add_transaction_spec now q t Hi Ht) as (? & ? & E' & ? & _). by rewrite E in E'; simplify_eq.
  - destruct (on_mined_block_spec q o Hi) as (? & ? & E' & ? & _). by rewrite E in E'; simplify_eq.
  - destruct (remove_invalid_spec q hs Hi) as (? & ? & E' & R). rewrite E in E'; simplify_eq. apply R.
  - by eapply remove_by_address_inv.
  - destruct (drop_transaction_spec q h Hi) as (? & ? & E' & ? & _). by rewrite E in E'; simplify_eq.
  - apply pool_clear_inv.
Qed.
End machine.
