(* ===== verification/PoolSpec.v ===== *)
(** * Properties of the transaction pool

    The statements about the pool that its users rely on: what each operation
    does on every branch, the invariant of the reachable pools, the order in
    which ready transactions are handed to the miner and that the iterator over
    them ends, and the listeners. *)

From stdpp Require Import prelude gmap list relations.
From S2P Require Import Prelude Containers Transaction PendingPool ReadyPool PoolIter Pool.

Open Scope nat_scope.

(** ** Ranked transactions

    Transactions whose markers carry a rank (the nonce, for the transactions
    the node builds): what a transaction requires ranks below what it provides. *)

Section ranked.
Context (hrank : TxHash → nat) (mrank : TxMarker → nat).

Definition ranked (t : PoolTransaction) : Prop :=
  NoDup (provides t) ∧
  (∀ m, m ∈ provides t → mrank m = hrank (ptx_hash t)) ∧
  (∀ m, m ∈ requires t → mrank m < hrank (ptx_hash t)).

Program Definition ranked_policy : TxPolicy :=
  {| pol_tx := ranked; pol_link := λ h h', hrank h < hrank h' |}.
Next Obligation.
  intros t (Hnd & Hp & Hr). split; [done|]. intros m ?%Hp ?%Hr. lia.
Qed.
Next Obligation. intros t t' m (_ & Hp & _) (_ & _ & Hr) ?%Hp ?%Hr. lia. Qed.
Next Obligation. intros t t' m h (_ & Hp & _) (_ & Hp' & _) ?%Hp ?%Hp' ?. lia. Qed.

Lemma ranked_iter_terminates p :
  pool_inv (H := ranked_policy) p →
  ∃ fuel l, ∀ n, fuel ≤ n → iter_collect n (get_transactions (pool_ready p)) = Ret l.
Proof.
  intros Hi. destruct (ranked_weighted hrank (ready_tx (pool_ready p))) as [w Hw].
  { apply (pl_links _ Hi). }
  pose proof (get_transactions_inv _ (pl_ready _ Hi) (pl_order _ Hi)) as Hg.
  set (fuel := S (indep_weight w (get_transactions (pool_ready p)))).
  destruct (iter_collect_total w _ fuel Hg Hw) as [l Hl]; [lia|].
  exists fuel, l. intros n Hn. rewrite <- Hl. apply run_mono; [done|].
  change (iter_collect fuel (get_transactions (pool_ready p)) ≠ OutOfFuel). by rewrite Hl.
Qed.
End ranked.

(** ** The listeners *)

Section listeners_spec.
Context {Sender : Type} (try_send : Sender → TxHash → Sender * result unit bool).

Lemma swap_remove_mid {A} (l1 l2 : list A) x :
  ∃ r, swap_remove (length l1) (l1 ++ x :: l2) = l1 ++ r ∧ r ≡ₚ l2.
Proof.
  unfold swap_remove. destruct l2 as [|y l2 _] using rev_ind.
  - exists []. rewrite last_snoc, length_app; simpl. rewrite Nat.add_sub.
    rewrite insert_app_r_alt, Nat.sub_diag by lia. simpl.
    by rewrite take_app_length, app_nil_r.
  - exists (y :: l2). rewrite app_comm_cons, app_assoc, last_snoc, !length_app; simpl.
    replace (length l1 + S (length l2) + 1 - 1) with (length l1 + S (length l2)) by lia.
    rewrite <- app_assoc; simpl. rewrite insert_app_r_alt, Nat.sub_diag by lia; simpl.
    rewrite take_app_add; simpl. rewrite take_app_length. split; [done|].
    by rewrite Permutation_cons_append.
Qed.

Lemma notify_from_spec h l1 l2 :
  ∃ l', notify_from try_send h (length l1) (l1 ++ l2) = Ret l' ∧
        l' ≡ₚ omap (notify_one try_send h) l1 ++ l2.
Proof.
  revert l2. induction l1 as [|x l1 IH] using rev_ind; intros l2; [by exists l2|].
  rewrite length_app, Nat.add_comm, omap_app; simpl. rewrite <- app_assoc; simpl.
  rewrite list_lookup_middle by done. simpl.
  destruct (swap_remove_mid l1 l2 x) as (r & -> & Hr).
  destruct (notify_one try_send h x) as [x'|].
  - rewrite <- app_assoc. destruct (IH (r ++ [x'])) as (l' & -> & Hl').
    exists l'. split; [done|]. rewrite Hl', Hr. rewrite <- app_assoc.
    by rewrite (Permutation_app_comm l2).
  - destruct (IH r) as (l' & -> & Hl'). exists l'. split; [done|].
    by rewrite Hl', Hr, app_nil_r.
Qed.
End listeners_spec.

(** Every listener is notified exactly once, whatever the order the loop
    leaves them in: a full channel keeps its listener and a closed one drops
    it, and the index into the list is always in range. *)
Theorem notify_listener_once {Sender : Type}
    (try_send : Sender → TxHash → Sender * result unit bool) (h : TxHash) (l : list Sender) :
  ∃ l', notify_listener try_send h l = Ret l' ∧ l' ≡ₚ omap (notify_one try_send h) l.
Proof.
  unfold notify_listener. destruct (notify_from_spec try_send h l []) as (l' & E & Hl').
  rewrite !app_nil_r in *. eauto.
Qed.

(** ** Concrete pools

    Two transfers of one account, used to run the model. *)

Definition ex_payload (nonce price : Z) : TypedTransaction :=
  Legacy {| signed_tx := {| leg_chain_id := Some 1%Z; leg_nonce := nonce; leg_gas_price := price;
                            leg_gas_limit := 21000%Z; leg_to := Call 7%Z; leg_value := 1%Z;
                            leg_input := [] |};
            signed_signature := {| sig_r := 1%Z; sig_s := 1%Z; sig_parity := false |};
            signed_hash := 0%Z |}.

Definition ex_tx (h : TxHash) (nonce price : Z) (reqs : list TxMarker) : PoolTransaction :=
  {| pending_transaction :=
       {| pt_transaction := {| mit_transaction := ex_payload nonce price;
                               mit_impersonated_sender := None |};
          pt_sender := 5%Z; pt_hash := h |};
     requires := reqs;
     provides := [to_marker nonce 5];
     priority := price |}.

Definition ex_tx0 : PoolTransaction := ex_tx 100 0 10 [].
Definition ex_tx1 : PoolTransaction := ex_tx 101 1 10 [to_marker 0 5].
(** Pays more than [ex_tx0] for the same nonce. *)
Definition ex_tx0' : PoolTransaction := ex_tx 102 0 20 [].

Definition pool_of (o : outcome (PoolInner * result AddedTransaction PoolError)) : PoolInner :=
  match o with Ret (p, _) => p | _ => pool_default end.

(** The second transfer arrives first and waits. *)
Definition ex_pool1 : PoolInner := pool_of (add_transaction 0 pool_default ex_tx1).
Definition ex_pool2 : PoolInner := pool_of (add_transaction 0 ex_pool1 ex_tx0).

Definition ex_hrank (h : TxHash) : nat := if decide (h = 101%Z) then 1 else 0.
Definition ex_mrank (m : TxMarker) : nat := Z.to_nat (le_value (take 8 m)).

Lemma ex_wf h nonce price reqs :
  to_marker nonce 5 ∉ reqs → tx_wf (ex_tx h nonce price reqs).
Proof.
  intros Hn. split; simpl; [apply NoDup_singleton|]. by intros m ->%list_elem_of_singleton.
Qed.

Lemma ex_add_inv (pol : TxPolicy) p t :
  pool_inv p → pol_tx t → pool_inv (pool_of (add_transaction 0 p t)).
Proof.
  intros Hi Ht. by destruct (add_transaction_spec 0 p t Hi Ht) as (p' & r & -> & Hi' & _).
Qed.

Lemma ex_tx1_wf : tx_wf ex_tx1.
Proof. apply ex_wf. by vm_compute; intros [?|?%elem_of_nil]%elem_of_cons. Qed.

Lemma ex_tx0_wf : tx_wf ex_tx0.
Proof. apply ex_wf. apply not_elem_of_nil. Qed.

Lemma ex_pool1_inv : pool_inv ex_pool1.
Proof. apply ex_add_inv; [apply pool_default_inv|apply ex_tx1_wf]. Qed.

Lemma ex_pool2_inv : pool_inv ex_pool2.
Proof. apply ex_add_inv; [apply ex_pool1_inv|apply ex_tx0_wf]. Qed.

Lemma ex_ranked1 : ranked ex_hrank ex_mrank ex_tx1.
Proof.
  split_and!; simpl; [apply NoDup_singleton|..]; intros m ->%list_elem_of_singleton;
    vm_compute; lia.
Qed.

Lemma ex_ranked0 : ranked ex_hrank ex_mrank ex_tx0.
Proof.
  split_and!; simpl; [apply NoDup_singleton|..].
  - intros m ->%list_elem_of_singleton. by vm_compute.
  - intros m Hm. by apply elem_of_nil in Hm.
Qed.

Lemma ex_pool2_ranked : pool_inv (H := ranked_policy ex_hrank ex_mrank) ex_pool2.
Proof.
  apply (ex_add_inv (ranked_policy ex_hrank ex_mrank)); [|apply ex_ranked0].
  apply (ex_add_inv (ranked_policy ex_hrank ex_mrank)); [apply pool_default_inv|apply ex_ranked1].
Qed.

(** ** Properties *)

(** C4: [add_transaction] never panics and its loop ends; it keeps the pool
    invariant, brings in no transaction but the given one, and answers as
    [added] says: a known hash or an underpriced replacement is refused with
    the pool unchanged, a transaction that misses markers waits, a ready one is
    ready afterwards and every transaction that left the pool is reported as
    discarded or removed.  (Where a transaction is that was refused with
    [CyclicTransaction] is not part of this property.) *)
Theorem add_transaction_correct {order : HashOrder TxHash} {pol : TxPolicy}
    (now : Z) (p : PoolInner) (t : PoolTransaction) :
  pool_inv p → pol_tx t →
  ∃ p' r, add_transaction now p t = Ret (p', r) ∧ pool_inv p' ∧
    (∀ h, in_pool p' h → in_pool p h ∨ h = ptx_hash t) ∧ added p t p' r.
Proof. apply add_transaction_spec. Qed.

Lemma add_transaction_correct_witness :
  ∃ p' r, add_transaction 0 ex_pool1 ex_tx0 = Ret (p', r) ∧ pool_inv p' ∧
    (∀ h, in_pool p' h → in_pool ex_pool1 h ∨ h = 100%Z) ∧ added ex_pool1 ex_tx0 p' r.
Proof. apply (add_transaction_correct 0 ex_pool1 ex_tx0 ex_pool1_inv ex_tx0_wf). Defined.

(** A transaction that was accepted is found under its hash, in whichever
    queue it is. *)
Theorem add_then_get {order : HashOrder TxHash} {pol : TxPolicy}
    (now : Z) (p p' : PoolInner) (t : PoolTransaction) (a : AddedTransaction) :
  pool_inv p → pol_tx t → add_transaction now p t = Ret (p', Ok a) →
  added_hash a = ptx_hash t ∧ contains p' (ptx_hash t) = true ∧
  get_transaction p' (ptx_hash t) = Some (pending_transaction t).
Proof.
  intros Hi Ht E. destruct (add_transaction_spec now p t Hi Ht) as (p1 & r & E' & Hi' & _ & Ha).
  rewrite E in E'. simplify_eq. rewrite contains_spec. unfold in_pool, get_transaction, ready_get,
    pending_get. destruct a as [info|h]; simpl in *.
  - destruct Ha as (Hh & Hr & _). split_and!; [done|left; eauto|].
    rewrite (pl_disjoint _ Hi') by eauto. apply txs_lookup_Some in Hr as (r & -> & ->). done.
  - destruct Ha as (-> & (w & Hw & <-) & _). rewrite Hw. eauto.
Qed.

Lemma add_then_get_witness :
  get_transaction ex_pool2 100%Z = Some (pending_transaction ex_tx0).
Proof.
  eapply (add_then_get 0 ex_pool1 ex_pool2 ex_tx0); [apply ex_pool1_inv|apply ex_tx0_wf|].
  vm_compute. reflexivity.
Defined.

(** every pool reached from the empty one by the operations of the pool
    satisfies the invariant; in particular no transaction is in both queues,
    every marker is bound to the one ready transaction that provides it, and no
    waiting transaction waits for a marker that the ready queue provides. *)
Theorem pool_reachable_inv {order : HashOrder TxHash} {pol : TxPolicy} (p : PoolInner) :
  rtc pool_step pool_default p → pool_inv p.
Proof.
  intros Hr. enough (∀ p1, rtc pool_step p1 p → pool_inv p1 → pool_inv p) as H
    by (eapply H; [done|apply pool_default_inv]).
  clear Hr. induction 1 as [|p1 p2 p3 Hs _ IH]; [done|]. intros Hi.
  apply IH. by eapply pool_step_inv.
Qed.

Lemma pool_reachable_inv_witness : pool_inv ex_pool2.
Proof.
  apply pool_reachable_inv. eapply rtc_l; [|eapply rtc_l; [|apply rtc_refl]].
  - apply (step_add 0 _ ex_tx1 ex_pool1 (Ok (AddedPending 101))); [apply ex_tx1_wf|].
    vm_compute. reflexivity.
  - eapply (step_add 0 _ ex_tx0); [apply ex_tx0_wf|]. vm_compute. reflexivity.
Defined.

(** C5: after a block is mined, the pool update never panics and ends; no
    invalid transaction is left, no transaction that was ready and provides a
    marker of an included transaction is left, and nothing new appears. *)
Theorem on_mined_block_correct {order : HashOrder TxHash} {pol : TxPolicy}
    (p : PoolInner) (o : MinedBlockOutcome) :
  pool_inv p →
  ∃ p' res, on_mined_block p o = Ret (p', res) ∧ pool_inv p' ∧
    (∀ h, in_pool p' h → in_pool p h) ∧
    (∀ t, t ∈ invalid o → ¬ in_pool p' (ptx_hash t)) ∧
    (∀ h t m, txs (ready_tx (pool_ready p)) !! h = Some t → m ∈ provides t →
       m ∈ (included o ≫= provides) → ¬ in_pool p' h).
Proof. apply on_mined_block_spec. Qed.

Definition ex_mined : MinedBlockOutcome :=
  {| block_number := 1; included := [ex_tx0]; invalid := [] |}.

Lemma on_mined_block_correct_witness :
  ∃ p' res, on_mined_block ex_pool2 ex_mined = Ret (p', res) ∧ ¬ in_pool p' 100%Z.
Proof.
  destruct (on_mined_block_correct ex_pool2 ex_mined ex_pool2_inv)
    as (p' & res & E & _ & _ & _ & Hgone).
  exists p', res. split; [exact E|].
  apply (Hgone 100%Z ex_tx0 (to_marker 0 5)); [by vm_compute|by left|by left].
Defined.

(** Pruning the markers of a block returns exactly transactions that were
    ready and leave the pool, among them every ready provider of a marker. *)
Theorem prune_markers_correct {order : HashOrder TxHash} {pol : TxPolicy}
    (p : PoolInner) (markers : list TxMarker) :
  pool_inv p →
  ∃ p' res, prune_markers p markers = Ret (p', res) ∧ pool_pruned p markers p' res.
Proof. apply prune_markers_spec. Qed.

Lemma prune_markers_correct_witness :
  ∃ p' res, prune_markers ex_pool2 [to_marker 0 5] = Ret (p', res) ∧
            pool_pruned ex_pool2 [to_marker 0 5] p' res.
Proof. apply (prune_markers_correct ex_pool2 [to_marker 0 5] ex_pool2_inv). Defined.

(** Removing transactions takes the given hashes out of both queues,
    together with what depended on them, and returns exactly the transactions
    that left the pool. *)
Theorem remove_invalid_correct {order : HashOrder TxHash} {pol : TxPolicy}
    (p : PoolInner) (hs : list TxHash) :
  pool_inv p →
  ∃ p' removed, remove_invalid p hs = Ret (p', removed) ∧ pool_removed p hs p' removed.
Proof. apply remove_invalid_spec. Qed.

Lemma remove_invalid_correct_witness :
  ∃ p' removed, remove_invalid ex_pool2 [100%Z] = Ret (p', removed) ∧
                pool_removed ex_pool2 [100%Z] p' removed.
Proof. apply (remove_invalid_correct ex_pool2 [100%Z] ex_pool2_inv). Defined.

(** Dropping a transaction returns it when it was ready, takes it out of
    the ready queue and leaves the waiting queue alone. *)
Theorem drop_transaction_correct {order : HashOrder TxHash} {pol : TxPolicy}
    (p : PoolInner) (h : TxHash) :
  pool_inv p →
  ∃ p' o, drop_transaction p h = Ret (p', o) ∧ pool_inv p' ∧
    (∀ h', in_pool p' h' → in_pool p h') ∧
    txs (ready_tx (pool_ready p')) !! h = None ∧
    pool_pending p' = pool_pending p ∧
    o = txs (ready_tx (pool_ready p)) !! h.
Proof. apply drop_transaction_spec. Qed.

Lemma drop_transaction_correct_witness :
  ∃ p', drop_transaction ex_pool2 100%Z = Ret (p', Some ex_tx0) ∧ pool_inv p'.
Proof.
  destruct (drop_transaction_correct ex_pool2 100%Z ex_pool2_inv)
    as (p' & o & E & Hi & _ & _ & _ & Ho).
  exists p'. split; [|exact Hi]. rewrite E, Ho. vm_compute. reflexivity.
Defined.

(** C25: the iterator over the ready transactions ends on every pool of ranked
    transactions, so the miner, the status call and the removal by sender
    return. *)
Theorem ready_iterator_terminates (hrank : TxHash → nat) (mrank : TxMarker → nat)
    (p : PoolInner) :
  pool_inv (H := ranked_policy hrank mrank) p →
  ∃ fuel l, ∀ n, fuel ≤ n → iter_collect n (get_transactions (pool_ready p)) = Ret l.
Proof. apply ranked_iter_terminates. Qed.

Lemma ready_iterator_terminates_witness :
  ∃ fuel l, ∀ n, fuel ≤ n → iter_collect n (get_transactions (pool_ready ex_pool2)) = Ret l.
Proof. apply (ready_iterator_terminates ex_hrank ex_mrank ex_pool2 ex_pool2_ranked). Defined.

(** the order of the yielded transactions respects the dependencies: a
    transaction was independent from the start, or the transactions yielded
    before it unlock it often enough to cover every marker that the queue has
    to provide. *)
Theorem yielded_after_dependencies {order : HashOrder TxHash} {pol : TxPolicy}
    (p : PoolInner) (fuel : nat) (l : list PoolTransaction) :
  pool_inv p → iter_collect fuel (get_transactions (pool_ready p)) = Ret l →
  ∀ i t, l !! i = Some t →
    covered_tx (pool_ready p) (unlock_count (ready_tx (pool_ready p)) (take i l)) t.
Proof. intros Hi. apply iter_collect_covered; apply Hi. Qed.

Lemma yielded_after_dependencies_witness :
  covered_tx (pool_ready ex_pool2)
    (unlock_count (ready_tx (pool_ready ex_pool2)) [ex_tx0]) ex_tx1.
Proof.
  apply (yielded_after_dependencies ex_pool2 5 [ex_tx0; ex_tx1] ex_pool2_inv
    ltac:(vm_compute; reflexivity) 1 ex_tx1 eq_refl).
Defined.

Lemma iter_next_greatest_witness :
  ∃ it', iter_next (get_transactions (pool_ready ex_pool2)) = Ret (it', Some ex_tx0).
Proof.
  destruct (iter_next_greatest (get_transactions (pool_ready ex_pool2))
    (get_transactions_inv _ (pl_ready _ ex_pool2_inv) (pl_order _ ex_pool2_inv))) as [_ H].
  destruct H as (it' & best & E & _); [by vm_compute|].
  exists it'. pose proof E as E2. vm_compute in E2. injection E2 as _ E2.
  rewrite E. destruct best as [t i]. simpl in *. by rewrite <- E2.
Defined.
