(* ===== verification/Fees.v ===== *)
(** * Fees (crates/anvil/src/eth/fees.rs)

    [FeeManager] (the base fee, gas price and blob fee of the next block),
    [FeeDetails] (the fee fields of a request) and the bookkeeping of the fee
    history cache.  [FeeManager::elasticity] is set once by [new] and only
    read, and is left out, as are the two ratios of a cache item (floating
    point numbers that are only stored). *)

From stdpp Require Import prelude gmap list.
From S2P Require Import Prelude Transaction.

Open Scope Z_scope.

(** ** Hardforks

    [SpecId] of revm by its discriminant, with the order of the hardforks the
    node compares with. *)
Class SpecIds := {
  SPURIOUS_DRAGON : Z;
  BERLIN : Z;
  LONDON : Z;
  MERGE : Z;
  SHANGHAI : Z;
  CANCUN : Z;
  PRAGUE : Z;
  OSAKA : Z;
  spec_order : SPURIOUS_DRAGON < BERLIN ∧ BERLIN < LONDON ∧ LONDON < MERGE ∧ MERGE < SHANGHAI ∧
    SHANGHAI < CANCUN ∧ CANCUN < PRAGUE ∧ PRAGUE < OSAKA
}.

(** ** [FeeManager] *)

Record BlobExcessGasAndPrice := { excess_blob_gas : Z; blob_gasprice : Z }.

Record FeeManager := {
  fm_spec_id : Z;
  fm_base_fee : Z;
  fm_is_min_priority_fee_enforced : bool;
  fm_blob_excess_gas_and_price : BlobExcessGasAndPrice;
  fm_gas_price : Z
}.

Definition fee_manager_new (spec_id base_fee : Z) (enforced : bool) (gas_price : Z)
    (blob : BlobExcessGasAndPrice) : FeeManager :=
  {| fm_spec_id := spec_id; fm_base_fee := base_fee;
     fm_is_min_priority_fee_enforced := enforced;
     fm_blob_excess_gas_and_price := blob; fm_gas_price := gas_price |}.

Section fee_manager.
Context {specs : SpecIds}.
Implicit Types fm : FeeManager.

Definition fm_is_eip1559 fm : bool := LONDON <=? fm_spec_id fm.
Definition fm_is_eip4844 fm : bool := CANCUN <=? fm_spec_id fm.

Definition base_fee fm : Z := if fm_is_eip1559 fm then fm_base_fee fm else 0.

Definition base_fee_per_blob_gas fm : Z :=
  if fm_is_eip4844 fm then blob_gasprice (fm_blob_excess_gas_and_price fm) else 0.

Definition blob_gas_price fm : Z :=
  if fm_is_eip4844 fm then base_fee_per_blob_gas fm else 0.

Definition raw_gas_price fm : Z := fm_gas_price fm.

Definition excess_blob_gas_and_price fm : option BlobExcessGasAndPrice :=
  if fm_is_eip4844 fm then Some (fm_blob_excess_gas_and_price fm) else None.

Definition set_gas_price fm (price : Z) : FeeManager :=
  {| fm_spec_id := fm_spec_id fm; fm_base_fee := fm_base_fee fm;
     fm_is_min_priority_fee_enforced := fm_is_min_priority_fee_enforced fm;
     fm_blob_excess_gas_and_price := fm_blob_excess_gas_and_price fm;
     fm_gas_price := price |}.

Definition set_base_fee fm (fee : Z) : FeeManager :=
  {| fm_spec_id := fm_spec_id fm; fm_base_fee := fee;
     fm_is_min_priority_fee_enforced := fm_is_min_priority_fee_enforced fm;
     fm_blob_excess_gas_and_price := fm_blob_excess_gas_and_price fm;
     fm_gas_price := fm_gas_price fm |}.

Definition set_blob_excess_gas_and_price fm (b : BlobExcessGasAndPrice) : FeeManager :=
  {| fm_spec_id := fm_spec_id fm; fm_base_fee := fm_base_fee fm;
     fm_is_min_priority_fee_enforced := fm_is_min_priority_fee_enforced fm;
     fm_blob_excess_gas_and_price := b; fm_gas_price := fm_gas_price fm |}.

(** The formulas of EIP-1559 and EIP-4844 are code of alloy. *)
Context (calc_next_block_base_fee : Z → Z → Z → Z) (calc_excess_blob_gas : Z → Z → Z).

(** The parameters are named in the other order than alloy's. *)
Definition get_next_block_blob_excess_gas (blob_gas_used blob_excess_gas : Z) : Z :=
  calc_excess_blob_gas blob_gas_used blob_excess_gas.

Definition calculate_next_block_base_fee (gas_used gas_limit fee : Z) : Z :=
  calc_next_block_base_fee gas_used gas_limit fee.

(** A base fee of 0 was set by the user and stays. *)
Definition get_next_block_base_fee_per_gas fm (gas_used gas_limit last_fee_per_gas : Z) : Z :=
  if base_fee fm =? 0 then 0
  else calculate_next_block_base_fee gas_used gas_limit last_fee_per_gas.
End fee_manager.

(** ** [FeeDetails] *)

Record FeeDetails := {
  fd_gas_price : option Z;
  fd_max_fee_per_gas : option Z;
  fd_max_priority_fee_per_gas : option Z;
  fd_max_fee_per_blob_gas : option Z
}.

(** The errors of [BlockchainError] these files use. *)
Inductive FeeError : Type := InvalidFeeInput.

Definition fee_details_zero : FeeDetails :=
  {| fd_gas_price := Some 0; fd_max_fee_per_gas := Some 0;
     fd_max_priority_fee_per_gas := Some 0; fd_max_fee_per_blob_gas := None |}.

Definition or_zero_fees (d : FeeDetails) : FeeDetails :=
  let no_fees := bool_decide (fd_gas_price d = None) && bool_decide (fd_max_fee_per_gas d = None) in
  {| fd_gas_price := if no_fees then Some 0 else fd_gas_price d;
     fd_max_fee_per_gas := if no_fees then Some 0 else fd_max_fee_per_gas d;
     fd_max_priority_fee_per_gas := fd_max_priority_fee_per_gas d;
     fd_max_fee_per_blob_gas := if no_fees then None else fd_max_fee_per_blob_gas d |}.

Definition fee_split (d : FeeDetails) : option Z * option Z * option Z * option Z :=
  (fd_gas_price d, fd_max_fee_per_gas d, fd_max_priority_fee_per_gas d,
   fd_max_fee_per_blob_gas d).

(** The two EIP-1559 branches of [FeeDetails::new]. *)
Definition fee_details_1559 (max_fee max_priority max_fee_per_blob_gas : option Z)
    : result FeeDetails FeeError :=
  let ok := {| fd_gas_price := max_fee; fd_max_fee_per_gas := max_fee;
               fd_max_priority_fee_per_gas := max_priority;
               fd_max_fee_per_blob_gas := max_fee_per_blob_gas |} in
  match max_priority with
  | Some max_priority =>
      if default 0 max_fee <? max_priority then Err InvalidFeeInput else Ok ok
  | None => Ok ok
  end.

Definition fee_details_new (request_gas_price request_max_fee request_priority
    max_fee_per_blob_gas : option Z) : result FeeDetails FeeError :=
  match request_gas_price, request_max_fee, request_priority, max_fee_per_blob_gas with
  | gas_price, None, None, None =>
      Ok {| fd_gas_price := gas_price; fd_max_fee_per_gas := gas_price;
            fd_max_priority_fee_per_gas := gas_price; fd_max_fee_per_blob_gas := None |}
  | _, max_fee, max_priority, None => fee_details_1559 max_fee max_priority None
  | _, max_fee, max_priority, max_fee_per_blob_gas =>
      fee_details_1559 max_fee max_priority max_fee_per_blob_gas
  end.

(** ** The fee history *)

(** The reward of a transaction over the base fee, as the fee history counts
    it (the [match] of [create_cache_entry]). *)
Definition effective_reward (base_fee : Z) (tx : option TypedTransaction) : Z :=
  match tx with
  | Some (Legacy t) => saturating_sub (leg_gas_price (signed_tx t)) base_fee
  | Some (EIP2930 t) => saturating_sub (e2930_gas_price (signed_tx t)) base_fee
  | Some (EIP1559 t) =>
      Z.min (e1559_max_priority_fee_per_gas (signed_tx t))
        (saturating_sub (e1559_max_fee_per_gas (signed_tx t)) base_fee)
  | Some (EIP4844 t) =>
      Z.min (e4844_max_priority_fee_per_gas (variant_tx (signed_tx t)))
        (saturating_sub (e4844_max_fee_per_gas (variant_tx (signed_tx t))) base_fee)
  | Some (EIP7702 t) =>
      Z.min (e7702_max_priority_fee_per_gas (signed_tx t))
        (saturating_sub (e7702_max_fee_per_gas (signed_tx t)) base_fee)
  | Some (Deposit _) => 0
  | None => 0
  end.

(** The first reward whose running gas total reaches the target ([sum_gas] is
    a [u64]). *)
Fixpoint percentile_reward (target_gas sum_gas : Z) (l : list (Z * Z)) : option Z :=
  match l with
  | [] => None
  | (gas_used, reward) :: l =>
      let sum_gas := sum_gas +w[64] gas_used in
      if target_gas <=? sum_gas then Some reward else percentile_reward target_gas sum_gas l
  end.

Section cache.
Context {Item : Type}.
(** [MAX_FEE_HISTORY_CACHE_SIZE]. *)
Definition fee_history_limit : Z := 2048.

(** [for num in 0..num_remove { cache.remove(&(pop_next - num)) }]. *)
Definition pop_entry (pop_next : Z) (cache : gmap Z Item) (num : nat) : gmap Z Item :=
  delete (wrap 64 (pop_next - Z.of_nat num)) cache.

Definition insert_cache_entry (cache : gmap Z Item) (item : Item) (block_number : option Z)
    : gmap Z Item :=
  match block_number with
  | None => cache
  | Some block_number =>
      let cache := <[block_number := item]> cache in
      let pop_next := saturating_sub block_number fee_history_limit in
      let num_remove := saturating_sub (Z.of_nat (size cache)) fee_history_limit in
      foldl (pop_entry pop_next) cache (seq 0 (Z.to_nat num_remove))
  end.
End cache.

(** ** Properties *)

(** The cache holds the blocks [a .. n-1] and no others. *)
Definition cache_window {Item} (cache : gmap Z Item) (a n : Z) : Prop :=
  ∀ k, is_Some (cache !! k) ↔ a ≤ k < n.

Lemma window_size {Item} (cache : gmap Z Item) a n :
  a ≤ n → cache_window cache a n → Z.of_nat (size cache) = n - a.
Proof.
  intros Han Hw.
  assert (dom cache = list_to_set (seqZ a (n - a))) as Hd.
  { apply set_eq. intros k. rewrite elem_of_dom, (Hw k), elem_of_list_to_set, elem_of_seqZ. lia. }
  rewrite <- size_dom, Hd, size_list_to_set by apply NoDup_seqZ. rewrite length_seqZ. lia.
Qed.

(** inserting the next block into a cache that holds a window of
    consecutive blocks of at most the limit gives such a window again, ending
    with the new block: the cache never outgrows its limit and only the oldest
    entry is dropped. *)
Theorem insert_cache_entry_window {Item : Type} (cache : gmap Z Item) (item : Item) (a n : Z) :
  0 ≤ a ≤ n → n - a ≤ fee_history_limit → n ≤ umax 64 → cache_window cache a n →
  let cache' := insert_cache_entry cache item (Some n) in
  let a' := if n - a =? fee_history_limit then a + 1 else a in
  cache_window cache' a' (n + 1) ∧ n + 1 - a' ≤ fee_history_limit ∧
  cache' !! n = Some item.
Proof.
  intros Ha Hlim Hn Hw; simpl.
  assert (cache_window (<[n := item]> cache) a (n + 1)) as Hw1.
  { intros k. rewrite lookup_insert_is_Some, (Hw k). lia. }
  rewrite (window_size _ a (n + 1)) by (done || lia).
  unfold saturating_sub, fee_history_limit in *.
  destruct (Z.eqb_spec (n - a) 2048) as [E|E].
  - replace (Z.to_nat (Z.max (n + 1 - a - 2048) 0)) with 1%nat by lia. simpl.
    unfold pop_entry. rewrite Z.sub_0_r, wrap_small by (unfold is_u; lia).
    replace (Z.max (n - 2048) 0) with a by lia. split_and!; [|lia|].
    + intros k. rewrite lookup_delete_is_Some, (Hw1 k). lia.
    + rewrite lookup_delete_ne, lookup_insert_eq by lia. done.
  - replace (Z.to_nat (Z.max (n + 1 - a - 2048) 0)) with 0%nat by lia. simpl.
    split_and!; [done|lia|]. apply lookup_insert_eq.
Qed.

Lemma insert_cache_entry_window_witness :
  let cache' := insert_cache_entry (∅ : gmap Z nat) 7%nat (Some 5) in
  cache_window cache' 5 6 ∧ 6 - 5 ≤ fee_history_limit ∧ cache' !! 5 = Some 7%nat.
Proof.
  apply (insert_cache_entry_window ∅ 7%nat 5 5); unfold fee_history_limit, umax; try lia.
  intros k. rewrite lookup_empty. split; [by intros []|lia].
Defined.

(** The fees of a request: they are accepted exactly when the tip does not
    exceed the fee cap (a missing cap counts as 0), a plain request uses the gas
    price for every field, and [or_zero_fees] then gives every accepted request
    a gas price and a fee cap. *)
Theorem fee_details_new_spec (gas_price max_fee priority blob : option Z) :
  match fee_details_new gas_price max_fee priority blob with
  | Ok d =>
      (max_fee = None ∧ priority = None ∧ blob = None →
         fd_gas_price d = gas_price ∧ fd_max_fee_per_gas d = gas_price ∧
         fd_max_priority_fee_per_gas d = gas_price) ∧
      (is_Some max_fee ∨ is_Some priority ∨ is_Some blob →
         fd_gas_price d = max_fee ∧ fd_max_fee_per_gas d = max_fee ∧
         fd_max_priority_fee_per_gas d = priority ∧
         default 0 priority ≤ Z.max 0 (default 0 max_fee)) ∧
      fd_max_fee_per_blob_gas d = blob ∧
      is_Some (fd_gas_price (or_zero_fees d)) ∧ is_Some (fd_max_fee_per_gas (or_zero_fees d))
  | Err _ => ∃ p, priority = Some p ∧ default 0 max_fee < p
  end.
Proof.
  unfold fee_details_new, fee_details_1559, or_zero_fees.
  destruct gas_price as [g|], max_fee as [m|], priority as [q|], blob as [b|]; simpl;
    try (destruct (Z.ltb_spec m q)); try (destruct (Z.ltb_spec 0 q)); simpl;
    try (eexists; split; [done|lia]);
    repeat split; try done; try lia; intros; destruct_or?; destruct_and?;
    repeat match goal with H : is_Some None |- _ => destruct H; done end; done.
Qed.

(** The reward of a transaction never exceeds what it pays over the base
    fee, and is never negative when its fees are not. *)
Theorem effective_reward_bound `{TxExternals} (fee : Z) (tx : TypedTransaction) :
  effective_reward fee (Some tx) ≤ saturating_sub (gas_price tx) fee ∧
  (0 ≤ default 0 (ess_max_priority_fee_per_gas (essentials tx)) →
   0 ≤ effective_reward fee (Some tx)).
Proof.
  unfold saturating_sub. destruct tx as [t|t|t|t|t|t]; simpl; unfold saturating_sub; lia.
Qed.
