(* ===== verification/Env.v ===== *)
(** * The EVM environment

    The configuration and the block environment of revm, with the fields the
    node reads or sets, and what of them a header is made of. *)

From stdpp Require Import prelude list.
From S2P Require Import Prelude Transaction Fees.

Open Scope Z_scope.

(** [cfg_tx_gas_limit_cap] is the field and [cfg_cap] the value of the method
    of the same name. *)
Record CfgEnv := {
  cfg_spec : Z;
  cfg_chain_id : Z;
  cfg_disable_block_gas_limit : bool;
  cfg_disable_base_fee : bool;
  cfg_tx_gas_limit_cap : option Z;
  cfg_cap : Z
}.

Record BlockEnv := {
  blk_number : Z;                    (* U256 *)
  blk_beneficiary : Address;
  blk_timestamp : Z;                 (* U256 *)
  blk_gas_limit : Z;
  blk_basefee : Z;
  blk_difficulty : Z;                (* U256 *)
  blk_prevrandao : option B256;
  blk_blob_excess_gas_and_price : option BlobExcessGasAndPrice
}.

Record EvmEnv := { env_cfg : CfgEnv; env_blk : BlockEnv }.

(** [BlockEnv::blob_excess_gas]. *)
Definition blk_blob_excess_gas (b : BlockEnv) : option Z :=
  excess_blob_gas <$> blk_blob_excess_gas_and_price b.
