(* ===== verification/TimeManager.v ===== *)
(** * Block time (crates/anvil/src/eth/backend/time.rs)

    [TimeManager] computes the timestamp of the next block from the wall clock,
    an offset, an interval or an exact timestamp the user asked for.  The wall
    clock ([duration_since_unix_epoch]) is an argument of the operations. *)

From stdpp Require Import prelude.
From S2P Require Import Prelude.

Open Scope Z_scope.

Record TimeManager := {
  tm_offset : Z;                        (* i128 *)
  tm_last_timestamp : Z;                (* u64 *)
  tm_next_exact_timestamp : option Z;   (* u64 *)
  tm_interval : option Z                (* u64 *)
}.

Inductive TimeError : Type := TimestampError (timestamp : Z).

(** [i128::saturating_add]. *)
Definition i128_saturating_add (a b : Z) : Z :=
  Z.max (- 2 ^ 127) (Z.min (2 ^ 127 - 1) (a + b)).

Section time.
Implicit Types (tm : TimeManager) (now : Z).

Definition time_reset now tm (start_timestamp : Z) : TimeManager :=
  {| tm_offset := start_timestamp - now; tm_last_timestamp := start_timestamp;
     tm_next_exact_timestamp := None; tm_interval := tm_interval tm |}.

Definition time_new now (start_timestamp : Z) : TimeManager :=
  time_reset now
    {| tm_offset := 0; tm_last_timestamp := 0; tm_next_exact_timestamp := None;
       tm_interval := None |} start_timestamp.

Definition add_offset tm (offset : Z) : TimeManager * Z :=
  let next := i128_saturating_add (tm_offset tm) offset in
  ({| tm_offset := next; tm_last_timestamp := tm_last_timestamp tm;
      tm_next_exact_timestamp := tm_next_exact_timestamp tm;
      tm_interval := tm_interval tm |}, next).

Definition increase_time tm (seconds : Z) : TimeManager * Z := add_offset tm seconds.

Definition set_next_block_timestamp tm (timestamp : Z) : TimeManager * result unit TimeError :=
  if timestamp <? tm_last_timestamp tm then (tm, Err (TimestampError timestamp))
  else
    ({| tm_offset := tm_offset tm; tm_last_timestamp := tm_last_timestamp tm;
        tm_next_exact_timestamp := Some timestamp; tm_interval := tm_interval tm |}, Ok tt).

Definition set_block_timestamp_interval tm (interval : Z) : TimeManager :=
  {| tm_offset := tm_offset tm; tm_last_timestamp := tm_last_timestamp tm;
     tm_next_exact_timestamp := tm_next_exact_timestamp tm; tm_interval := Some interval |}.

Definition remove_block_timestamp_interval tm : TimeManager * bool :=
  ({| tm_offset := tm_offset tm; tm_last_timestamp := tm_last_timestamp tm;
      tm_next_exact_timestamp := tm_next_exact_timestamp tm; tm_interval := None |},
   bool_decide (is_Some (tm_interval tm))).

(** The cast [as u64] of an [i128] keeps the low 64 bits. *)
Definition compute_next_timestamp now tm : Z * option Z :=
  let last_timestamp := tm_last_timestamp tm in
  let '(next_timestamp, update_offset) :=
    match tm_next_exact_timestamp tm with
    | Some next => (next, true)
    | None =>
        match tm_interval tm with
        | Some interval => (last_timestamp +s[64] interval, false)
        | None => (wrap 64 (i128_saturating_add now (tm_offset tm)), false)
        end
    end in
  let next_timestamp :=
    if next_timestamp <? last_timestamp then last_timestamp +w[64] 1 else next_timestamp in
  (next_timestamp, if update_offset then Some (next_timestamp - now) else None).

Definition next_timestamp now tm : TimeManager * Z :=
  let '(next, next_offset) := compute_next_timestamp now tm in
  ({| tm_offset := default (tm_offset tm) next_offset;
      tm_last_timestamp := next;
      tm_next_exact_timestamp := None;
      tm_interval := tm_interval tm |}, next).

Definition current_call_timestamp now tm : Z := (compute_next_timestamp now tm).1.
End time.

(** ** Properties *)

(** The fields have their machine width. *)
Record time_wf (tm : TimeManager) : Prop := {
  tw_last : is_u 64 (tm_last_timestamp tm);
  tw_exact : ∀ t, tm_next_exact_timestamp tm = Some t → is_u 64 t;
  tw_interval : ∀ i, tm_interval tm = Some i → is_u 64 i
}.

(** The next timestamp does not go back, is a [u64] and becomes the last one. *)
Lemma next_timestamp_spec (now : Z) (tm : TimeManager) :
  time_wf tm → tm_last_timestamp tm < umax 64 →
  let '(tm', t) := next_timestamp now tm in
  tm_last_timestamp tm ≤ t ∧ is_u 64 t ∧ tm_last_timestamp tm' = t ∧ time_wf tm' ∧
  t = current_call_timestamp now tm.
Proof.
  intros [Hl He Hv] Hmax. unfold next_timestamp, current_call_timestamp.
  destruct (compute_next_timestamp now tm) as [t o] eqn:E; simpl.
  assert (tm_last_timestamp tm ≤ t ∧ is_u 64 t) as [? ?].
  { unfold compute_next_timestamp in E. unfold is_u in *.
    assert (∀ x, 0 ≤ x ≤ umax 64 → tm_last_timestamp tm ≤
      (if x <? tm_last_timestamp tm then wrap 64 (tm_last_timestamp tm + 1) else x) ∧
      0 ≤ (if x <? tm_last_timestamp tm then wrap 64 (tm_last_timestamp tm + 1) else x) ≤ umax 64)
      as Hx.
    { intros x Hx. destruct (Z.ltb_spec x (tm_last_timestamp tm)); [|lia].
      rewrite wrap_small by (unfold is_u; lia). lia. }
    destruct (tm_next_exact_timestamp tm) as [n|]; [|destruct (tm_interval tm) as [i|]];
      injection E as <- _; apply Hx.
    - by apply He.
    - unfold saturating_add. specialize (Hv i eq_refl). lia.
    - apply (wrap_is_u 64). lia. }
  by split_and!.
Qed.

(** After a reset to [ts] at the instant [now], a clock that has moved at most
    [w] since gives timestamps that exceed the last one by at most the interval
    or one, unless they are the elapsed time itself. *)
Definition time_step (tm : TimeManager) : Z := Z.max 1 (default 0 (tm_interval tm)).

Lemma next_timestamp_bound (now now0 ts w : Z) (tm : TimeManager) :
  tm_next_exact_timestamp tm = None → tm_offset tm = ts - now0 →
  now0 ≤ now ≤ now0 + w → 0 ≤ ts → ts + w ≤ umax 64 →
  0 ≤ tm_last_timestamp tm < umax 64 →
  let '(tm', t) := next_timestamp now tm in
  t ≤ Z.max (ts + w) (tm_last_timestamp tm + time_step tm) ∧
  tm_next_exact_timestamp tm' = None ∧ tm_offset tm' = ts - now0 ∧ tm_interval tm' = tm_interval tm.
Proof.
  intros He Ho Hnow Hts Hmax Hl. unfold next_timestamp, compute_next_timestamp, time_step.
  rewrite He. unfold umax in *.
  destruct (tm_interval tm) as [i|]; simpl; (split; [|by rewrite ?Ho]).
  - case_bool; [rewrite wrap_small by (unfold is_u, umax; lia); lia|].
    unfold saturating_add, umax. lia.
  - rewrite Ho. unfold i128_saturating_add.
    rewrite !wrap_small by (unfold is_u, umax; lia). case_bool; lia.
Qed.

(** C37: the timestamps of consecutive blocks never go back, as long as the
    last one is not the largest [u64]; the next timestamp is a [u64], becomes
    the last one, and is the one a call would have seen. *)
Theorem next_timestamp_monotone (now : Z) (tm : TimeManager) :
  time_wf tm → tm_last_timestamp tm < umax 64 →
  let '(tm', t) := next_timestamp now tm in
  tm_last_timestamp tm ≤ t ∧ is_u 64 t ∧ tm_last_timestamp tm' = t ∧ time_wf tm' ∧
  t = current_call_timestamp now tm.
Proof. apply next_timestamp_spec. Qed.

Lemma next_timestamp_monotone_witness :
  let '(tm', t) := next_timestamp 1005 (time_new 1000 500) in
  500 ≤ t ∧ is_u 64 t ∧ tm_last_timestamp tm' = t ∧ time_wf tm' ∧
  t = current_call_timestamp 1005 (time_new 1000 500).
Proof.
  apply (next_timestamp_monotone 1005 (time_new 1000 500)); [|by vm_compute].
  split; [unfold is_u, umax; simpl; lia|done..].
Defined.

(** An exact timestamp that was accepted is the timestamp of the next
    block and only of that block: later blocks continue from it, one second
    per second of the wall clock. *)
Theorem exact_timestamp_used (now now' ts : Z) (tm tm1 : TimeManager) :
  time_wf tm → is_u 64 ts → tm_interval tm = None → 0 ≤ now ≤ now' → ts + (now' - now) ≤ umax 64 →
  set_next_block_timestamp tm ts = (tm1, Ok tt) →
  let '(tm2, t2) := next_timestamp now tm1 in
  let '(_, t3) := next_timestamp now' tm2 in
  t2 = ts ∧ tm_next_exact_timestamp tm2 = None ∧ t3 = ts + (now' - now).
Proof.
  intros [Hl _ _] Hts Hint Hnow Hfit. unfold set_next_block_timestamp.
  destruct (Z.ltb_spec ts (tm_last_timestamp tm)) as [|Hge]; [by intros [=]|]. intros [= <-].
  unfold next_timestamp, compute_next_timestamp; simpl.
  rewrite (proj2 (Z.ltb_ge _ _) Hge). simpl. rewrite Hint.
  unfold is_u, umax, i128_saturating_add in *.
  replace (Z.max (- 2 ^ 127) (Z.min (2 ^ 127 - 1) (now' + (ts - now))))
    with (ts + (now' - now)) by lia.
  rewrite wrap_small by (unfold is_u, umax; lia).
  rewrite (proj2 (Z.ltb_ge _ _)) by lia. done.
Qed.

Lemma exact_timestamp_used_witness :
  let '(tm2, t2) := next_timestamp 1000
    {| tm_offset := -500; tm_last_timestamp := 500; tm_next_exact_timestamp := Some 2000;
       tm_interval := None |} in
  let '(_, t3) := next_timestamp 1007 tm2 in
  t2 = 2000 ∧ tm_next_exact_timestamp tm2 = None ∧ t3 = 2000 + (1007 - 1000).
Proof.
  apply (exact_timestamp_used 1000 1007 2000 (time_new 1000 500)); try (by vm_compute).
Defined.

(** An exact timestamp equal to the last one is accepted, and two blocks then
    carry the same timestamp. *)
Example equal_timestamp_accepted :
  let '(tm1, r) := set_next_block_timestamp (time_new 1000 500) 500 in
  r = Ok tt ∧ (next_timestamp 1000 tm1).2 = tm_last_timestamp (time_new 1000 500).
Proof. by vm_compute. Qed.
