(* ===== verification/Cheats.v ===== *)
(** * Cheats (crates/anvil/src/eth/backend/cheats.rs)

    [CheatsManager]: impersonated accounts and signature overrides, and the
    [ecrecover] precompile that honours the overrides.  revm's [ec_recover_run]
    and [right_pad] are parameters. *)

From stdpp Require Import prelude gmap list.
From S2P Require Import Prelude Transaction.

Open Scope Z_scope.

Record CheatsState := {
  impersonated_accounts_ : gset Address;
  auto_impersonate_accounts_ : bool;
  signature_overrides : gmap Bytes Address
}.

Definition cheats_default : CheatsState :=
  {| impersonated_accounts_ := ∅; auto_impersonate_accounts_ := false;
     signature_overrides := ∅ |}.

Section cheats.
Implicit Types (st : CheatsState) (addr : Address).

(** [HashSet::insert] returns whether the element is new. *)
Definition impersonate st addr : CheatsState * bool :=
  if decide (addr ∈ impersonated_accounts_ st) then (st, true)
  else
    ({| impersonated_accounts_ := {[addr]} ∪ impersonated_accounts_ st;
        auto_impersonate_accounts_ := auto_impersonate_accounts_ st;
        signature_overrides := signature_overrides st |}, true).

Definition stop_impersonating st addr : CheatsState :=
  {| impersonated_accounts_ := impersonated_accounts_ st ∖ {[addr]};
     auto_impersonate_accounts_ := auto_impersonate_accounts_ st;
     signature_overrides := signature_overrides st |}.

Definition auto_impersonate_accounts st : bool := auto_impersonate_accounts_ st.

Definition is_impersonated st addr : bool :=
  if auto_impersonate_accounts st then true
  else bool_decide (addr ∈ impersonated_accounts_ st).

Definition set_auto_impersonate_account st (enabled : bool) : CheatsState :=
  {| impersonated_accounts_ := impersonated_accounts_ st;
     auto_impersonate_accounts_ := enabled;
     signature_overrides := signature_overrides st |}.

Definition impersonated_accounts st : gset Address := impersonated_accounts_ st.

Definition add_recover_override st (sig : Bytes) addr : CheatsState :=
  {| impersonated_accounts_ := impersonated_accounts_ st;
     auto_impersonate_accounts_ := auto_impersonate_accounts_ st;
     signature_overrides := <[sig := addr]> (signature_overrides st) |}.

Definition get_recover_override st (sig : Bytes) : option Address :=
  signature_overrides st !! sig.

Definition has_recover_overrides st : bool :=
  negb (bool_decide (signature_overrides st = ∅)).

(** [Backend::skip_blob_validation] of backend/mem/mod.rs. *)
Definition skip_blob_validation st (impersonator : option Address) : bool :=
  auto_impersonate_accounts st ||
  match impersonator with
  | Some addr => bool_decide (addr ∈ impersonated_accounts st)
  | None => false
  end.
End cheats.

(** ** The precompile *)

Inductive PrecompileError : Type := OutOfGas | OtherPrecompileError.

Record PrecompileOutput := { po_gas_used : Z; po_bytes : Bytes }.

Section ecrecover.
Context (ec_recover_run : Bytes → Z → result PrecompileOutput PrecompileError)
  (right_pad : nat → Bytes → Bytes).

Definition ECRECOVER_BASE : Z := 3000.

(** Bytes 64..128 of the padded input followed by byte 63, the layout of a
    65-byte signature. *)
Definition sig_bytes (padded : Bytes) : outcome Bytes :=
  expect (padded !! 63%nat) ≫= λ v,
  assert_ (bool_decide (length padded = 128%nat)) ≫= λ _,
  Ret (take 64 (drop 64 padded) ++ [v]).

Definition cheat_ecrecover (st : CheatsState) (data : Bytes) (gas : Z)
    : outcome (result PrecompileOutput PrecompileError) :=
  if negb (has_recover_overrides st) then Ret (ec_recover_run data gas)
  else if gas <? ECRECOVER_BASE then Ret (Err OutOfGas)
  else
    sig_bytes (right_pad 128 data) ≫= λ sig,
    match get_recover_override st sig with
    | Some addr =>
        Ret (Ok {| po_gas_used := ECRECOVER_BASE;
                   po_bytes := replicate 12 0 ++ be_bytes 20 addr |})
    | None => Ret (ec_recover_run data gas)
    end.

(** The layout of the precompile's input: hash, recovery id, and the two
    signature scalars, 32 bytes each. *)
Definition ecrecover_input (hash : Bytes) (v : Z) (rs : Bytes) : Bytes :=
  hash ++ (replicate 31 0 ++ [v]) ++ rs.

(** [right_pad::<128>] leaves 128 bytes alone. *)
Hypothesis right_pad_full : ∀ d, length d = 128%nat → right_pad 128 d = d.
Hypothesis right_pad_length : ∀ d, length (right_pad 128 d) = 128%nat.

Lemma sig_bytes_total d : ∃ s, sig_bytes (right_pad 128 d) = Ret s ∧ length s = 65%nat.
Proof.
  unfold sig_bytes. pose proof (right_pad_length d) as Hl.
  destruct (lookup_lt_is_Some_2 (right_pad 128 d) 63) as [v Hv]; [rewrite Hl; lia|].
  rewrite Hv; simpl. rewrite bool_decide_eq_true_2 by done. simpl. eexists. split; [done|].
  by rewrite length_app, length_take, length_drop, Hl.
Qed.

Lemma sig_bytes_input hash v rs :
  length hash = 32%nat → length rs = 64%nat →
  sig_bytes (right_pad 128 (ecrecover_input hash v rs)) = Ret (rs ++ [v]).
Proof.
  intros Hh Hr. unfold ecrecover_input.
  assert (length (hash ++ (replicate 31 0 ++ [v]) ++ rs) = 128%nat) as Hl
    by (rewrite !length_app, length_replicate; simpl; lia).
  rewrite right_pad_full by done. unfold sig_bytes.
  assert ((hash ++ (replicate 31 0 ++ [v]) ++ rs) !! 63%nat = Some v) as ->.
  { rewrite lookup_app_r by lia. rewrite Hh. done. }
  cbn [expect]. rewrite bind_Ret, bool_decide_eq_true_2 by done. cbn [assert_].
  rewrite bind_Ret, app_assoc, drop_app_length'
    by (rewrite !length_app, length_replicate; simpl; lia).
  by rewrite take_ge by lia.
Qed.

Lemma override_nonempty st sig addr :
  has_recover_overrides (add_recover_override st sig addr) = true.
Proof.
  unfold has_recover_overrides. rewrite bool_decide_eq_false_2; [done|]. apply insert_non_empty.
Qed.

(** The precompile with an override, without one, and when it never panics. *)
Lemma cheat_ecrecover_spec st hash v rs addr gas :
  length hash = 32%nat → length rs = 64%nat → ECRECOVER_BASE ≤ gas →
  let st' := add_recover_override st (rs ++ [v]) addr in
  cheat_ecrecover st' (ecrecover_input hash v rs) gas =
    Ret (Ok {| po_gas_used := ECRECOVER_BASE;
               po_bytes := replicate 12 0 ++ be_bytes 20 addr |}) ∧
  (∀ d, (∀ s, sig_bytes (right_pad 128 d) = Ret s → s ∉ dom (signature_overrides st)) →
        (has_recover_overrides st = false ∨ ECRECOVER_BASE ≤ gas) →
        cheat_ecrecover st d gas = Ret (ec_recover_run d gas)).
Proof.
  intros Hh Hr Hg; simpl. unfold cheat_ecrecover. rewrite override_nonempty; simpl.
  rewrite (proj2 (Z.ltb_ge _ _)) by lia. split.
  - rewrite sig_bytes_input by done. rewrite bind_Ret. unfold get_recover_override; simpl.
    by rewrite lookup_insert_eq.
  - intros d Hd Hgas. destruct (has_recover_overrides st) eqn:Ho; simpl; [|done].
    destruct (sig_bytes_total d) as (s & Hs & _). rewrite Hs, bind_Ret.
    unfold get_recover_override. by rewrite (not_elem_of_dom_1 _ _ (Hd s Hs)).
Qed.
End ecrecover.

(** ** Properties *)

(** An override for a signature makes the precompile return its address,
    right-aligned in 32 bytes, for the price of [ecrecover]; an input whose
    signature has no override is recovered as usual. *)
Theorem ecrecover_override
    (ec_recover_run : Bytes → Z → result PrecompileOutput PrecompileError)
    (right_pad : nat → Bytes → Bytes) (st : CheatsState) (hash rs : Bytes) (v : Z)
    (addr : Address) (gas : Z) :
  (∀ d, length d = 128%nat → right_pad 128%nat d = d) →
  (∀ d, length (right_pad 128%nat d) = 128%nat) →
  length hash = 32%nat → length rs = 64%nat → ECRECOVER_BASE ≤ gas →
  cheat_ecrecover ec_recover_run right_pad (add_recover_override st (rs ++ [v]) addr)
    (ecrecover_input hash v rs) gas =
    Ret (Ok {| po_gas_used := ECRECOVER_BASE;
               po_bytes := replicate 12 0 ++ be_bytes 20 addr |}) ∧
  (∀ d, (∀ s, sig_bytes (right_pad 128%nat d) = Ret s → s ∉ dom (signature_overrides st)) →
        (has_recover_overrides st = false ∨ ECRECOVER_BASE ≤ gas) →
        cheat_ecrecover ec_recover_run right_pad st d gas = Ret (ec_recover_run d gas)).
Proof. intros Hf Hl. by apply cheat_ecrecover_spec. Qed.

(** Right-padding and truncation to a fixed length. *)
Definition ex_right_pad (n : nat) (d : Bytes) : Bytes := take n (d ++ replicate (n - length d) 0).

Lemma ecrecover_override_witness :
  cheat_ecrecover (λ _ _, Err OtherPrecompileError) ex_right_pad
    (add_recover_override cheats_default (replicate 64 1 ++ [27]) 5)
    (ecrecover_input (replicate 32 9) 27 (replicate 64 1)) 5000 =
    Ret (Ok {| po_gas_used := 3000; po_bytes := replicate 31 0 ++ [5] |}).
Proof.
  apply (ecrecover_override (λ _ _, Err OtherPrecompileError) ex_right_pad cheats_default
    (replicate 32 9) (replicate 64 1) 27 5 5000); try done.
  - intros d Hd. unfold ex_right_pad. by rewrite Hd, app_nil_r, take_ge by lia.
  - intros d. unfold ex_right_pad. rewrite length_take, length_app, length_replicate. lia.
Defined.

(** Impersonation: an account is impersonated after [impersonate] and
    until [stop_impersonating], other accounts are not affected, the automatic
    mode covers every account without touching the list, and the answer of
    [impersonate] is always [true], whether or not the account was already
    impersonated. *)
Theorem impersonation_spec (st : CheatsState) (a b : Address) :
  is_impersonated (impersonate st a).1 a = true ∧
  (impersonate st a).2 = true ∧
  is_impersonated (stop_impersonating st a) a = auto_impersonate_accounts st ∧
  (a ≠ b → is_impersonated (impersonate st a).1 b = is_impersonated st b ∧
           is_impersonated (stop_impersonating st a) b = is_impersonated st b) ∧
  is_impersonated (set_auto_impersonate_account st true) b = true ∧
  impersonated_accounts (set_auto_impersonate_account st true) = impersonated_accounts st ∧
  (skip_blob_validation st (Some a) = is_impersonated st a).
Proof.
  unfold impersonate, is_impersonated, stop_impersonating, skip_blob_validation,
    auto_impersonate_accounts, impersonated_accounts.
  destruct (auto_impersonate_accounts_ st) eqn:Ha; case_decide; simpl; rewrite ?Ha;
    split_and!; try done; repeat case_bool_decide; try done; try set_solver;
    intros; split; try done; repeat case_bool_decide; set_solver.
Qed.
