(* ===== verification/Validate.v ===== *)
(** * Transaction validation
    (crates/anvil/src/eth/backend/mem/mod.rs, [TransactionValidator])

    The checks a transaction passes before it enters the pool
    ([validate_pool_transaction_for]) and before it is executed
    ([validate_for]).  The blob checks of alloy, the parameters of the hardfork
    and the environment are arguments. *)

From stdpp Require Import prelude list.
From S2P Require Import Prelude Transaction Fees Env Cheats.

Open Scope Z_scope.

(** ** Errors (crates/anvil/src/eth/error.rs) *)

Inductive GasTooHighDetail : Type :=
| AboveBlockGasLimit
| AboveTxGasLimitCap
| CallerGasLimitMoreThanBlockDetail
| CallGasCostMoreThanGasLimitDetail
| GasFloorMoreThanGasLimitDetail.

Section errors.
(** The error types of alloy and revm. *)
Context (BlobError RevmError : Type).

Inductive InvalidTransactionError : Type :=
| NonceTooLow
| NonceTooHigh
| NonceMaxValue
| InsufficientFundsForTransfer
| MaxInitCodeSizeExceeded
| InsufficientFunds
| GasUintOverflow
| GasTooLow
| GasTooHigh (detail : GasTooHighDetail)
| TipAboveFeeCap
| FeeCapTooLow
| BasicOutOfGas (gas : Z)
| RevertError (out : option Bytes)
| SenderNoEOA
| InvalidChainId
| IncompatibleEIP155
| AccessListNotSupported
| BlobFeeCapTooLow
| BlobVersionedHashesNotSupported
| MaxFeePerBlobGasNotSupported
| NoBlobHashes
| TooManyBlobs (have max : Z)
| BlobTransactionValidationError (e : BlobError)
| BlobCreateTransaction
| BlobVersionNotSupported
| EmptyBlobs
| AuthorizationListNotSupported
| TxGasLimitGreaterThanCap (gas_limit cap : Z)
| Revm (e : RevmError)
| DepositTxErrorPostRegolith.
End errors.
Arguments NonceTooLow {_ _}.
Arguments NonceTooHigh {_ _}.
Arguments InsufficientFunds {_ _}.
Arguments GasTooLow {_ _}.
Arguments GasTooHigh {_ _}.
Arguments TipAboveFeeCap {_ _}.
Arguments FeeCapTooLow {_ _}.
Arguments BasicOutOfGas {_ _}.
Arguments RevertError {_ _}.
Arguments InvalidChainId {_ _}.
Arguments NonceMaxValue {_ _}.
Arguments MaxInitCodeSizeExceeded {_ _}.
Arguments GasUintOverflow {_ _}.
Arguments SenderNoEOA {_ _}.
Arguments AccessListNotSupported {_ _}.
Arguments BlobVersionedHashesNotSupported {_ _}.
Arguments MaxFeePerBlobGasNotSupported {_ _}.
Arguments BlobCreateTransaction {_ _}.
Arguments BlobVersionNotSupported {_ _}.
Arguments EmptyBlobs {_ _}.
Arguments AuthorizationListNotSupported {_ _}.
Arguments TxGasLimitGreaterThanCap {_ _}.
Arguments Revm {_ _}.
Arguments DepositTxErrorPostRegolith {_ _}.
Arguments IncompatibleEIP155 {_ _}.
Arguments BlobFeeCapTooLow {_ _}.
Arguments NoBlobHashes {_ _}.
Arguments TooManyBlobs {_ _}.
Arguments BlobTransactionValidationError {_ _}.

(** ** Environment *)

Record AccountInfo := { acc_nonce : Z; acc_balance : Z }.

(** What the checks read of the backend. *)
Record ValidationBackend := {
  be_chain_id : Z;                  (* U256 *)
  be_cheats : CheatsState;
  be_max_blob_count : Z;
  be_disable_pool_balance_checks : bool
}.

Definition MIN_TRANSACTION_GAS : Z := 21000.
Definition MIN_CREATE_GAS : Z := 53000.

Definition is_deposit (tx : TypedTransaction) : bool :=
  match tx with Deposit _ => true | _ => false end.

Section validate.
Context {ext : TxExternals} {specs : SpecIds} {BlobError RevmError : Type}
  (blob_validate : TxEip4844Variant → result unit BlobError).
Abbreviation Error := (InvalidTransactionError BlobError RevmError).
Implicit Types (be : ValidationBackend) (env : EvmEnv) (account : AccountInfo).

(** The chain id check; the legacy branch only rejects a transaction without
    a chain id. *)
Definition check_chain_id be env (tx : TypedTransaction) : result unit Error :=
  match chain_id tx with
  | Some tx_chain_id =>
      if be_chain_id be =? tx_chain_id then Ok tt
      else
        match as_legacy tx with
        | Some legacy =>
            err_if ((SPURIOUS_DRAGON <=? cfg_spec (env_cfg env)) &&
                    bool_decide (leg_chain_id (signed_tx legacy) = None)) IncompatibleEIP155
        | None => Err InvalidChainId
        end
  | None => Ok tt
  end.

Definition check_blobs be env (pending : PendingTransaction) : result unit Error :=
  match mit_transaction (pt_transaction pending) with
  | EIP4844 t =>
      if CANCUN <=? cfg_spec (env_cfg env) then
        let blob_tx := signed_tx t in
        let blob_count := Z.of_nat (length (e4844_blob_versioned_hashes (variant_tx blob_tx))) in
        _ ←? err_if (blob_count =? 0) NoBlobHashes;
        _ ←? err_if (be_max_blob_count be <? blob_count)
               (TooManyBlobs blob_count (be_max_blob_count be));
        if skip_blob_validation (be_cheats be) (Some (pt_sender pending)) then Ok tt
        else match blob_validate blob_tx with
             | Ok _ => Ok tt
             | Err err => Err (BlobTransactionValidationError err)
             end
      else Ok tt
  | _ => Ok tt
  end.

Definition check_gas env (tx : TypedTransaction) : result unit Error :=
  _ ←? err_if (gas_limit tx <? MIN_TRANSACTION_GAS) GasTooLow;
  _ ←? err_if (negb (cfg_disable_block_gas_limit (env_cfg env)) && (blk_gas_limit (env_blk env) <? gas_limit tx))
         (GasTooHigh AboveBlockGasLimit);
  err_if (bool_decide (cfg_tx_gas_limit_cap (env_cfg env) = None) && (cfg_cap (env_cfg env) <? gas_limit tx))
    (GasTooHigh AboveTxGasLimitCap).

Definition check_fees env (tx : TypedTransaction) : result unit Error :=
  if LONDON <=? cfg_spec (env_cfg env) then
    _ ←? err_if ((gas_price tx <? blk_basefee (env_blk env)) && negb (is_deposit tx)) FeeCapTooLow;
    match ess_max_priority_fee_per_gas (essentials tx), ess_max_fee_per_gas (essentials tx) with
    | Some max_priority_fee_per_gas, Some max_fee_per_gas =>
        err_if (max_fee_per_gas <? max_priority_fee_per_gas) TipAboveFeeCap
    | _, _ => Ok tt
    end
  else Ok tt.

Definition check_blob_fee env (tx : TypedTransaction) : result unit Error :=
  match ess_max_fee_per_blob_gas (essentials tx), blk_blob_excess_gas_and_price (env_blk env) with
  | Some max_fee_per_blob_gas, Some blob_gas_and_price =>
      err_if ((CANCUN <=? cfg_spec (env_cfg env)) && is_eip4844 tx &&
              (max_fee_per_blob_gas <? blob_gasprice blob_gas_and_price)) BlobFeeCapTooLow
  | _, _ => Ok tt
  end.

(** [value.saturating_to::<u128>()] and [max_cost.checked_add]; the sum of
    the deposit branch is on 256 bits. *)
Definition check_funds account (tx : TypedTransaction) : result unit Error :=
  match tx with
  | Deposit deposit_tx =>
      err_if (acc_balance account +w[256] dep_mint deposit_tx <? value tx) InsufficientFunds
  | _ =>
      match checked_add 128 (max_cost tx) (Z.min (value tx) (umax 128)) with
      | None => Err InsufficientFunds
      | Some req_funds => err_if (acc_balance account <? req_funds) InsufficientFunds
      end
  end.

(** [chain_id.to::<u64>()] panics on a chain id that does not fit. *)
Definition validate_pool_transaction_for be (pending : PendingTransaction) account env
    : outcome (result unit Error) :=
  let tx := mit_transaction (pt_transaction pending) in
  assert_ (bool_decide (chain_id tx = None) || (be_chain_id be <=? umax 64)) ≫= λ _,
  Ret (
    _ ←? check_chain_id be env tx;
    _ ←? err_if ((nonce tx <? acc_nonce account) && negb (is_deposit tx)) NonceTooLow;
    _ ←? check_blobs be env pending;
    if be_disable_pool_balance_checks be then Ok tt
    else
      _ ←? check_gas env tx;
      _ ←? check_fees env tx;
      _ ←? check_blob_fee env tx;
      check_funds account tx).

Definition validate_for be (pending : PendingTransaction) account env
    : outcome (result unit Error) :=
  validate_pool_transaction_for be pending account env ≫= λ r,
  Ret (_ ←? r; err_if (acc_nonce account <? pt_nonce pending) NonceTooHigh).
End validate.

(** ** Properties *)

Section validate_spec.
Context {ext : TxExternals} {specs : SpecIds} {BlobError RevmError : Type}
  (blob_validate : TxEip4844Variant → result unit BlobError).
Implicit Types (be : ValidationBackend) (env : EvmEnv) (account : AccountInfo).

(** What a transaction can cost its sender at most: gas, blobs and value. *)
Definition tx_cost (tx : TypedTransaction) : Z :=
  gas_limit tx * gas_price tx +
  (if is_eip4844 tx
   then default 0 (blob_gas tx) *w[128] default 0 (max_fee_per_blob_gas tx) else 0) +
  value tx.

(** What the checks of gas, fees and funds ask for. *)
Record payable account env (tx : TypedTransaction) : Prop := {
  py_gas : MIN_TRANSACTION_GAS ≤ gas_limit tx;
  py_block_gas : cfg_disable_block_gas_limit (env_cfg env) = false →
    gas_limit tx ≤ blk_gas_limit (env_blk env);
  py_cap : cfg_tx_gas_limit_cap (env_cfg env) = None → gas_limit tx ≤ cfg_cap (env_cfg env);
  py_basefee : LONDON ≤ cfg_spec (env_cfg env) → is_deposit tx = false →
    blk_basefee (env_blk env) ≤ gas_price tx;
  py_tip : LONDON ≤ cfg_spec (env_cfg env) →
    ∀ tip cap, ess_max_priority_fee_per_gas (essentials tx) = Some tip →
      ess_max_fee_per_gas (essentials tx) = Some cap → tip ≤ cap;
  py_blob_fee : CANCUN ≤ cfg_spec (env_cfg env) → is_eip4844 tx = true →
    ∀ cap price, ess_max_fee_per_blob_gas (essentials tx) = Some cap →
      blk_blob_excess_gas_and_price (env_blk env) = Some price → blob_gasprice price ≤ cap;
  py_deposit : ∀ d, tx = Deposit d → value tx ≤ acc_balance account +w[256] dep_mint d;
  py_funds : is_deposit tx = false →
    max_cost tx + Z.min (value tx) (umax 128) ≤ Z.min (umax 128) (acc_balance account)
}.

(** The conditions a transaction has to meet; deposits are not held to the
    account's nonce from below, and with the balance checks disabled neither gas
    nor fees nor funds count. *)
Record valid_tx be account env (pending : PendingTransaction) (tx : TypedTransaction) : Prop := {
  vt_nonce : nonce tx ≤ acc_nonce account ∧
    (is_deposit tx = false → nonce tx = acc_nonce account);
  vt_chain : ∀ id, chain_id tx = Some id → id = be_chain_id be;
  vt_blobs : CANCUN ≤ cfg_spec (env_cfg env) → ∀ t, tx = EIP4844 t →
    0 < Z.of_nat (length (e4844_blob_versioned_hashes (variant_tx (signed_tx t))))
      ≤ be_max_blob_count be ∧
    (skip_blob_validation (be_cheats be) (Some (pt_sender pending)) = true ∨
     blob_validate (signed_tx t) = Ok tt);
  vt_pays : be_disable_pool_balance_checks be = false → payable account env tx
}.

Abbreviation passes r := (r = Ok tt :> result unit (InvalidTransactionError BlobError RevmError)).

Lemma check_funds_ok account tx :
  passes (check_funds account tx) ↔
  (∀ d, tx = Deposit d → value tx ≤ acc_balance account +w[256] dep_mint d) ∧
  (is_deposit tx = false →
   max_cost tx + Z.min (value tx) (umax 128) ≤ Z.min (umax 128) (acc_balance account)).
Proof.
  assert (passes (match checked_add 128 (max_cost tx) (Z.min (value tx) (umax 128)) with
    | None => Err InsufficientFunds
    | Some req_funds => err_if (acc_balance account <? req_funds) InsufficientFunds
    end) ↔ max_cost tx + Z.min (value tx) (umax 128) ≤ Z.min (umax 128) (acc_balance account)) as Hf.
  { unfold checked_add. destruct (Z.leb_spec (max_cost tx + Z.min (value tx) (umax 128)) (umax 128)).
    - rewrite err_if_Ok, Z.ltb_ge. lia.
    - split; [done|lia]. }
  destruct tx as [t|t|t|t|t|d]; unfold check_funds;
    try (rewrite Hf; split; [intros ?; split; [done|by intros _]|by intros [_ H]; apply H]).
  rewrite err_if_Ok, Z.ltb_ge. split; [|naive_solver]. intros H. split; [|done]. by intros ? [= <-].
Qed.

(** The funds cover what the transaction can cost. *)
Lemma payable_cost account env tx :
  payable account env tx → is_deposit tx = false → 0 ≤ value tx → 0 ≤ gas_price tx →
  Z.min (tx_cost tx) (umax 128) ≤ acc_balance account.
Proof.
  intros Hp Hd Hv Hgp. pose proof (py_funds _ _ _ Hp Hd) as Hf.
  pose proof (py_gas _ _ _ Hp) as Hgas. unfold MIN_TRANSACTION_GAS in Hgas.
  assert (0 ≤ default 0 (blob_gas tx) *w[128] default 0 (max_fee_per_blob_gas tx)) as Hb
    by (apply wrap_is_u; lia).
  assert (0 ≤ umax 128) by (unfold umax; lia).
  assert (0 ≤ gas_limit tx * gas_price tx) as Hg by nia.
  assert (Z.min (gas_limit tx * gas_price tx +
    (if is_eip4844 tx
     then default 0 (blob_gas tx) *w[128] default 0 (max_fee_per_blob_gas tx) else 0)) (umax 128)
    = max_cost tx) as Hmax.
  { unfold max_cost, saturating_mul, saturating_add. destruct (is_eip4844 tx); lia. }
  unfold tx_cost. set (B := if is_eip4844 tx then _ else 0) in *.
  assert (0 ≤ B) by (unfold B; destruct (is_eip4844 tx); lia).
  set (C := max_cost tx) in *. set (G := gas_limit tx * gas_price tx) in *.
  clearbody B C G. clear Hb Hp. lia.
Qed.

Lemma check_fees_ok env tx :
  passes (check_fees env tx) ↔
  (LONDON ≤ cfg_spec (env_cfg env) → is_deposit tx = false →
     blk_basefee (env_blk env) ≤ gas_price tx) ∧
  (LONDON ≤ cfg_spec (env_cfg env) →
     ∀ tip cap, ess_max_priority_fee_per_gas (essentials tx) = Some tip →
       ess_max_fee_per_gas (essentials tx) = Some cap → tip ≤ cap).
Proof.
  unfold check_fees. destruct (Z.leb_spec LONDON (cfg_spec (env_cfg env))) as [Hl|Hl];
    [|split; [intros _; split; lia|done]].
  rewrite and_then_Ok. setoid_rewrite err_if_Ok.
  split.
  - intros ([] & Hb & Hc). split.
    + intros _ Hd. rewrite Hd, andb_true_r in Hb. lia.
    + intros _ tip cap E1 E2. rewrite E1, E2, err_if_Ok in Hc. lia.
  - intros [H1 H2]. exists tt. split.
    + destruct (is_deposit tx); [by rewrite andb_false_r|]. specialize (H1 Hl eq_refl).
      rewrite (proj2 (Z.ltb_ge _ _)) by lia. done.
    + destruct (ess_max_priority_fee_per_gas _) as [tip|]; [|done].
      destruct (ess_max_fee_per_gas _) as [cap|]; [|done].
      rewrite err_if_Ok. specialize (H2 Hl tip cap eq_refl eq_refl). lia.
Qed.

Lemma check_blob_fee_ok env tx :
  passes (check_blob_fee env tx) ↔
  (CANCUN ≤ cfg_spec (env_cfg env) → is_eip4844 tx = true →
    ∀ cap price, ess_max_fee_per_blob_gas (essentials tx) = Some cap →
      blk_blob_excess_gas_and_price (env_blk env) = Some price → blob_gasprice price ≤ cap).
Proof.
  unfold check_blob_fee. destruct (ess_max_fee_per_blob_gas _) as [cap|]; [|naive_solver].
  destruct (blk_blob_excess_gas_and_price _) as [price|]; [|naive_solver].
  rewrite err_if_Ok. destruct (Z.leb_spec CANCUN (cfg_spec (env_cfg env))) as [Hl|Hl];
    [|split; [lia|done]].
  destruct (is_eip4844 tx); [|by split]. simpl. rewrite Z.ltb_ge. split; [|naive_solver].
  by intros H _ _ ? ? [= <-] [= <-].
Qed.

Lemma check_blobs_ok be env pending :
  passes (check_blobs blob_validate be env pending) ↔
  (CANCUN ≤ cfg_spec (env_cfg env) → ∀ t, mit_transaction (pt_transaction pending) = EIP4844 t →
    0 < Z.of_nat (length (e4844_blob_versioned_hashes (variant_tx (signed_tx t))))
      ≤ be_max_blob_count be ∧
    (skip_blob_validation (be_cheats be) (Some (pt_sender pending)) = true ∨
     blob_validate (signed_tx t) = Ok tt)).
Proof.
  unfold check_blobs. destruct (mit_transaction (pt_transaction pending)) as [| | |t| |];
    try (split; [done|by intros _]).
  destruct (Z.leb_spec CANCUN (cfg_spec (env_cfg env))) as [Hl|Hl]; [|split; [lia|done]].
  rewrite and_then_Ok. setoid_rewrite err_if_Ok. setoid_rewrite and_then_Ok.
  setoid_rewrite err_if_Ok. split.
  - intros ([] & H1 & [] & H2 & Hc) _ ? [= <-]. split; [lia|].
    destruct (skip_blob_validation _ _); [by left|right].
    by destruct (blob_validate (signed_tx t)) as [[]|].
  - intros H. destruct (H Hl t eq_refl) as [H1 H2]. exists tt. split; [lia|]. exists tt.
    split; [lia|]. destruct (skip_blob_validation _ _); [done|].
    destruct H2 as [H2|H2]; [done|by rewrite H2].
Qed.

Lemma check_gas_ok env tx :
  passes (check_gas env tx) ↔
  MIN_TRANSACTION_GAS ≤ gas_limit tx ∧
  (cfg_disable_block_gas_limit (env_cfg env) = false → gas_limit tx ≤ blk_gas_limit (env_blk env)) ∧
  (cfg_tx_gas_limit_cap (env_cfg env) = None → gas_limit tx ≤ cfg_cap (env_cfg env)).
Proof.
  unfold check_gas. rewrite and_then_Ok. setoid_rewrite err_if_Ok. setoid_rewrite and_then_Ok.
  setoid_rewrite err_if_Ok. split.
  - intros ([] & H1 & [] & H2 & H3). split_and!; [lia| |].
    + intros E. rewrite E in H2; simpl in H2. lia.
    + intros E. rewrite bool_decide_eq_true_2 in H3 by done. simpl in H3. lia.
  - intros (H1 & H2 & H3). exists tt. split; [lia|]. exists tt. split.
    + destruct (cfg_disable_block_gas_limit _); [done|]. simpl. specialize (H2 eq_refl). lia.
    + case_bool_decide as E; [|done]. specialize (H3 E). simpl. lia.
Qed.

Lemma check_chain_id_ok be env tx :
  passes (check_chain_id be env tx) ↔
  (is_legacy tx = false → ∀ id, chain_id tx = Some id → id = be_chain_id be).
Proof.
  unfold check_chain_id. destruct (chain_id tx) as [id|] eqn:Hid; [|naive_solver].
  destruct (Z.eqb_spec (be_chain_id be) id) as [->|Hne]; [naive_solver|].
  destruct tx as [t|t|t|t|t|d]; simpl in *; try (split; [done|intros H; naive_solver]).
  rewrite Hid, bool_decide_eq_false_2, andb_false_r by done. done.
Qed.

Lemma checks_payable account env tx :
  passes (_ ←? check_gas env tx; _ ←? check_fees env tx; _ ←? check_blob_fee env tx;
          check_funds account tx) ↔ payable account env tx.
Proof.
  split.
  - intros ([] & (G1 & G2 & G3)%check_gas_ok & Hc)%and_then_Ok.
    apply and_then_Ok in Hc as ([] & [F1 F2]%check_fees_ok & Hc).
    apply and_then_Ok in Hc as ([] & B & [D1 D2]%check_funds_ok).
    pose proof (proj1 (check_blob_fee_ok _ _) B). by split.
  - intros []. apply and_then_Ok. exists tt. split; [by apply check_gas_ok|].
    apply and_then_Ok. exists tt. split; [by apply check_fees_ok|].
    apply and_then_Ok. exists tt. split; [by apply (proj2 (check_blob_fee_ok _ _))|by apply check_funds_ok].
Qed.
End validate_spec.


(** A concrete instance: the discriminants of the hardforks. *)
Definition ex_specs : SpecIds :=
  {| SPURIOUS_DRAGON := 6; BERLIN := 11; LONDON := 12; MERGE := 15; SHANGHAI := 16;
     CANCUN := 17; PRAGUE := 18; OSAKA := 19;
     spec_order := ltac:(split_and!; reflexivity) |}.

Definition ex_legacy (chain : Z) : PendingTransaction :=
  {| pt_transaction :=
       {| mit_transaction :=
            Legacy {| signed_tx := {| leg_chain_id := Some chain; leg_nonce := 3;
                                      leg_gas_price := 10; leg_gas_limit := 30000;
                                      leg_to := Call 7; leg_value := 1; leg_input := [] |};
                      signed_signature := {| sig_r := 1; sig_s := 1; sig_parity := false |};
                      signed_hash := 0 |};
          mit_impersonated_sender := None |};
     pt_sender := 5; pt_hash := 100 |}.

Definition ex_backend : ValidationBackend :=
  {| be_chain_id := 31337; be_cheats := cheats_default; be_max_blob_count := 6;
     be_disable_pool_balance_checks := false |}.

Definition ex_venv : EvmEnv :=
  {| env_cfg :=
       {| cfg_spec := 17; cfg_chain_id := 31337; cfg_disable_block_gas_limit := false;
          cfg_disable_base_fee := false; cfg_tx_gas_limit_cap := None; cfg_cap := 2 ^ 64 - 1 |};
     env_blk :=
       {| blk_number := 1; blk_beneficiary := 0; blk_timestamp := 100; blk_gas_limit := 30000000;
          blk_basefee := 7; blk_difficulty := 0; blk_prevrandao := Some 0;
          blk_blob_excess_gas_and_price :=
            Some {| excess_blob_gas := 0; blob_gasprice := 1 |} |} |}.


(** The check for legacy transactions of another chain never rejects:
    whatever its chain id, a legacy transaction passes the chain id check, and
    no transaction is refused as incompatible with EIP-155. *)
Theorem legacy_chain_id_unchecked {ext : TxExternals} {specs : SpecIds}
    {BlobError RevmError : Type} (blob_validate : TxEip4844Variant → result unit BlobError)
    (be : ValidationBackend) (pending : PendingTransaction) (account : AccountInfo)
    (env : EvmEnv) (t : Signed TxLegacy) :
  check_chain_id (BlobError := BlobError) (RevmError := RevmError) be env (Legacy t) = Ok tt ∧
  validate_for (RevmError := RevmError) blob_validate be pending account env ≠
    Ret (Err IncompatibleEIP155).
Proof.
  split.
  - unfold check_chain_id; simpl. destruct (leg_chain_id (signed_tx t)) eqn:E; [|done].
    by destruct (be_chain_id be =? z); simpl; rewrite ?E, ?andb_false_r.
  - unfold validate_for, validate_pool_transaction_for.
    destruct (assert_ _); simpl; [|done..]. intros [= Hr]. revert Hr.
    set (tx := mit_transaction (pt_transaction pending)).
    not_err.
    + unfold check_chain_id. destruct (chain_id tx) eqn:Hid; [|done].
      destruct (be_chain_id be =? z); [done|]. destruct tx; simpl in *; try done.
      rewrite Hid, bool_decide_eq_false_2 by done. by rewrite andb_false_r.
    + unfold check_blobs. destruct (mit_transaction (pt_transaction pending)); try done.
      destruct (CANCUN <=? cfg_spec (env_cfg env)); [|done].
      not_err.
      destruct (skip_blob_validation _ _); [done|]. by destruct (blob_validate _).
    + destruct (be_disable_pool_balance_checks be); [done|].
      not_err.
      * unfold check_fees. destruct (LONDON <=? cfg_spec (env_cfg env)); [|done].
        not_err.
        repeat case_match; try done; by apply err_if_not_err.
      * unfold check_blob_fee. repeat case_match; try done; by apply err_if_not_err.
      * unfold check_funds. destruct tx; try (by apply err_if_not_err);
          (destruct (checked_add _ _ _); [by apply err_if_not_err|done]).
Qed.
