(* ===== verification/Api.v ===== *)
(** * Requests (crates/anvil/src/eth/api.rs)

    How the node turns a request into a pool transaction: nonce and fee
    defaults ([build_typed_tx_request]), the markers that order the
    transactions of an account, and the estimation of the gas limit by binary
    search.  The EVM call, the state and the configuration are arguments. *)

From stdpp Require Import prelude gmap list.
From S2P Require Import Prelude Containers Transaction PendingPool ReadyPool PoolIter Pool PoolSpec Fees Cheats Validate.

Open Scope Z_scope.

(** ** Markers *)

Definition required_marker (provided_nonce on_chain_nonce : Z) (from : Address)
    : list TxMarker :=
  if provided_nonce =? on_chain_nonce then []
  else
    let prev_nonce := saturating_sub provided_nonce 1 in
    if on_chain_nonce <=? prev_nonce then [to_marker prev_nonce from] else [].

(** [transaction_priority]. *)
Definition transaction_priority (order : TransactionOrder) (tx : TypedTransaction) : Z :=
  order_priority order tx.

(** The pool transaction [add_pending_transaction] submits. *)
Definition pending_pool_transaction (order : TransactionOrder) (pending : PendingTransaction)
    (reqs provs : list TxMarker) : PoolTransaction :=
  {| pending_transaction := pending; requires := reqs; provides := provs;
     priority := transaction_priority order (mit_transaction (pt_transaction pending)) |}.

(** The pool transaction of [send_transaction] and
    [eth_send_unsigned_transaction]. *)
Definition sent_pool_transaction (order : TransactionOrder) (pending : PendingTransaction)
    (nonce on_chain_nonce : Z) (from : Address) : PoolTransaction :=
  pending_pool_transaction order pending (required_marker nonce on_chain_nonce from)
    [to_marker nonce from].

(** The pool transaction of [send_raw_transaction]. *)
Definition raw_pool_transaction (order : TransactionOrder)
    (pending : PendingTransaction) (on_chain_nonce : Z) : PoolTransaction :=
  let from := pt_sender pending in
  let nonce := pt_nonce pending in
  {| pending_transaction := pending;
     requires := required_marker nonce on_chain_nonce from;
     provides := [to_marker nonce (pt_sender pending)];
     priority := transaction_priority order (mit_transaction (pt_transaction pending)) |}.

(** [request_nonce]: the nonce of the request and the next nonce of the
    account. *)
Definition request_nonce (r : TransactionRequest) (highest_nonce : Z) : Z * Z :=
  (default highest_nonce (req_nonce r), highest_nonce).

(** ** Fees and defaults *)

Definition MIN_SUGGESTED_PRIORITY_FEE : Z := 1000000000.

(** [iter().min()]. *)
Definition min_of (l : list Z) : option Z :=
  match l with [] => None | x :: l => Some (foldr Z.min x l) end.

(** [lowest_suggestion_tip]; the cache maps a block number to its rewards. *)
Definition lowest_suggestion_tip (cache : gmap Z (list Z)) (best_number : Z) : Z :=
  let fee :=
    match cache !! best_number with
    | Some rewards => min_of rewards
    | None => min_of (concat (snd <$> map_to_list cache))
    end in
  default MIN_SUGGESTED_PRIORITY_FEE ((λ fee, Z.max fee MIN_SUGGESTED_PRIORITY_FEE) <$> fee).

Definition api_gas_price {specs : SpecIds} (fm : FeeManager) (cache : gmap Z (list Z))
    (best_number : Z) : Z :=
  if fm_is_eip1559 fm then
    if fm_is_min_priority_fee_enforced fm
    then base_fee fm +s[128] lowest_suggestion_tip cache best_number
    else base_fee fm
  else raw_gas_price fm.

Inductive ApiError : Type := FailedToDecodeTransaction.

(** The configuration [build_typed_tx_request] reads. *)
Record TxDefaults := {
  df_chain_id : Z;
  df_gas_limit : Z;
  df_gas_price : Z;
  df_blob : option BlobExcessGasAndPrice;
  df_cheats : CheatsState
}.

Definition build_4844 (d : TxDefaults) (r : TransactionRequest) (nonce : Z) (tx : TxEip4844)
    : TxEip4844 :=
  {| e4844_chain_id := default (df_chain_id d) (req_chain_id r);
     e4844_nonce := nonce;
     e4844_gas_limit := default (df_gas_limit d) (req_gas r);
     e4844_max_fee_per_gas :=
       match req_max_fee_per_gas r with None => df_gas_price d | _ => e4844_max_fee_per_gas tx end;
     e4844_max_priority_fee_per_gas := e4844_max_priority_fee_per_gas tx;
     e4844_to := e4844_to tx;
     e4844_value := e4844_value tx;
     e4844_access_list := e4844_access_list tx;
     e4844_blob_versioned_hashes := e4844_blob_versioned_hashes tx;
     e4844_max_fee_per_blob_gas :=
       match req_max_fee_per_blob_gas r with
       | None => match df_blob d with Some g => blob_gasprice g | None => 0 end
       | _ => e4844_max_fee_per_blob_gas tx
       end;
     e4844_input := e4844_input tx |}.

Definition build_typed_tx_request (d : TxDefaults) (r : TransactionRequest)
    (other : OtherFields) (nonce : Z) : outcome (result TypedTransactionRequest ApiError) :=
  let chain_id := default (df_chain_id d) (req_chain_id r) in
  let gas_limit := default (df_gas_limit d) (req_gas r) in
  transaction_request_to_typed r other ≫= λ typed,
  Ret
    match typed with
    | Some (ReqLegacy m) =>
        Ok (ReqLegacy
          {| leg_chain_id := Some chain_id; leg_nonce := nonce;
             leg_gas_price :=
               match req_gas_price r with None => df_gas_price d | _ => leg_gas_price m end;
             leg_gas_limit := gas_limit; leg_to := leg_to m; leg_value := leg_value m;
             leg_input := leg_input m |})
    | Some (ReqEIP2930 m) =>
        Ok (ReqEIP2930
          {| e2930_chain_id := chain_id; e2930_nonce := nonce;
             e2930_gas_price :=
               match req_gas_price r with None => df_gas_price d | _ => e2930_gas_price m end;
             e2930_gas_limit := gas_limit; e2930_to := e2930_to m; e2930_value := e2930_value m;
             e2930_access_list := e2930_access_list m; e2930_input := e2930_input m |})
    | Some (ReqEIP1559 m) =>
        Ok (ReqEIP1559
          {| e1559_chain_id := chain_id; e1559_nonce := nonce; e1559_gas_limit := gas_limit;
             e1559_max_fee_per_gas :=
               match req_max_fee_per_gas r with
               | None => df_gas_price d | _ => e1559_max_fee_per_gas m end;
             e1559_max_priority_fee_per_gas := e1559_max_priority_fee_per_gas m;
             e1559_to := e1559_to m; e1559_value := e1559_value m;
             e1559_access_list := e1559_access_list m; e1559_input := e1559_input m |})
    | Some (ReqEIP7702 m) =>
        Ok (ReqEIP7702
          {| e7702_chain_id := chain_id; e7702_nonce := nonce; e7702_gas_limit := gas_limit;
             e7702_max_fee_per_gas :=
               match req_max_fee_per_gas r with
               | None => df_gas_price d | _ => e7702_max_fee_per_gas m end;
             e7702_max_priority_fee_per_gas := e7702_max_priority_fee_per_gas m;
             e7702_to := e7702_to m; e7702_value := e7702_value m;
             e7702_access_list := e7702_access_list m;
             e7702_authorization_list := e7702_authorization_list m;
             e7702_input := e7702_input m |})
    | Some (ReqEIP4844 (TxEip4844WithSidecar m s)) =>
        Ok (ReqEIP4844 (TxEip4844WithSidecar (build_4844 d r nonce m) s))
    | Some (ReqEIP4844 (TxEip4844Plain tx)) =>
        if skip_blob_validation (df_cheats d) (req_from r)
        then Ok (ReqEIP4844 (TxEip4844Plain (build_4844 d r nonce tx)))
        else Err FailedToDecodeTransaction
    | Some (ReqDeposit m) =>
        Ok (ReqDeposit
          {| dep_source_hash := dep_source_hash m; dep_from := dep_from m; dep_to := dep_to m;
             dep_mint := dep_mint m; dep_value := dep_value m; dep_gas_limit := gas_limit;
             dep_is_system_transaction := dep_is_system_transaction m;
             dep_input := dep_input m |})
    | None => Err FailedToDecodeTransaction
    end.

(** [determine_base_gas_by_kind]; the cost of an authorization is a constant
    of EIP-7702. *)
Definition PER_EMPTY_ACCOUNT_COST : Z := 25000.

Definition kind_base_gas (k : TxKind) : Z :=
  match k with Call _ => MIN_TRANSACTION_GAS | Create => MIN_CREATE_GAS end.

Definition determine_base_gas_by_kind (r : TransactionRequest) (other : OtherFields)
    : outcome Z :=
  transaction_request_to_typed r other ≫= λ typed,
  Ret
    match typed with
    | Some (ReqLegacy req) => kind_base_gas (leg_to req)
    | Some (ReqEIP1559 req) => kind_base_gas (e1559_to req)
    | Some (ReqEIP7702 req) =>
        MIN_TRANSACTION_GAS +w[128]
          (Z.of_nat (length (e7702_authorization_list req)) *w[128] PER_EMPTY_ACCOUNT_COST)
    | Some (ReqEIP2930 req) => kind_base_gas (e2930_to req)
    | Some (ReqEIP4844 _) => MIN_TRANSACTION_GAS
    | Some (ReqDeposit req) => kind_base_gas (dep_to req)
    | None => MIN_CREATE_GAS
    end.

(** ** Properties *)

Lemma required_marker_eq n oc from :
  0 ≤ n → 0 ≤ oc →
  required_marker n oc from = if oc <? n then [to_marker (n - 1) from] else [].
Proof.
  intros Hn Hoc. unfold required_marker, saturating_sub.
  destruct (Z.eqb_spec n oc), (Z.ltb_spec oc n); try lia; [done|..].
  - replace (Z.max (n - 1) 0) with (n - 1) by lia. by rewrite (proj2 (Z.leb_le _ _)) by lia.
  - by rewrite (proj2 (Z.leb_gt _ _)) by lia.
Qed.

(** The nonce a marker carries. *)
Definition nonce_rank (m : TxMarker) : nat := Z.to_nat (le_value (take 8 m)).

Lemma nonce_rank_marker n from : is_u 64 n → nonce_rank (to_marker n from) = Z.to_nat n.
Proof.
  intros Hn. unfold nonce_rank, to_marker.
  rewrite take_app_length' by (by rewrite length_le_bytes).
  rewrite le_value_bytes; [done|]. unfold is_u, umax in Hn. simpl. lia.
Qed.

(** The requests' accessors used below. *)
Definition request_gas_limit_of (t : TypedTransactionRequest) : Z :=
  match t with
  | ReqLegacy t => leg_gas_limit t
  | ReqEIP2930 t => e2930_gas_limit t
  | ReqEIP1559 t => e1559_gas_limit t
  | ReqEIP4844 t => e4844_gas_limit (variant_tx t)
  | ReqEIP7702 t => e7702_gas_limit t
  | ReqDeposit t => dep_gas_limit t
  end.

Definition request_chain_id_of (t : TypedTransactionRequest) : option Z :=
  match t with
  | ReqLegacy t => leg_chain_id t
  | ReqEIP2930 t => Some (e2930_chain_id t)
  | ReqEIP1559 t => Some (e1559_chain_id t)
  | ReqEIP4844 t => Some (e4844_chain_id (variant_tx t))
  | ReqEIP7702 t => Some (e7702_chain_id t)
  | ReqDeposit _ => None
  end.

Definition request_price_of (t : TypedTransactionRequest) : option Z :=
  match t with
  | ReqLegacy t => Some (leg_gas_price t)
  | ReqEIP2930 t => Some (e2930_gas_price t)
  | ReqEIP1559 t => Some (e1559_max_fee_per_gas t)
  | ReqEIP4844 t => Some (e4844_max_fee_per_gas (variant_tx t))
  | ReqEIP7702 t => Some (e7702_max_fee_per_gas t)
  | ReqDeposit _ => None
  end.

(** The markers of the transactions the node submits: a transaction
    requires the marker of the preceding nonce exactly when the account's nonce
    is still below its own, it never requires what it provides, and ranking
    markers by nonce makes every pool of such transactions one whose ready
    iterator ends. *)
Theorem submitted_transaction_ranked (order : TransactionOrder)
    (pending : PendingTransaction) (nonce on_chain : Z) (from : Address)
    (hrank : TxHash → nat) :
  is_u 64 nonce → is_u 64 on_chain → hrank (pt_hash pending) = Z.to_nat nonce →
  let t := sent_pool_transaction order pending nonce on_chain from in
  requires t = (if on_chain <? nonce then [to_marker (nonce - 1) from] else []) ∧
  requires t ≠ provides t ∧ ranked hrank nonce_rank t ∧
  (pt_nonce pending = nonce → pt_sender pending = from →
   raw_pool_transaction order pending on_chain = t).
Proof.
  intros Hn Hoc Hh; simpl. rewrite required_marker_eq by (unfold is_u in *; lia).
  assert (∀ m, m ∈ (if on_chain <? nonce then [to_marker (nonce - 1) from] else []) →
            (nonce_rank m < Z.to_nat nonce)%nat) as Hr.
  { intros m. destruct (Z.ltb_spec on_chain nonce); [|intros Hm; by apply elem_of_nil in Hm].
    intros ->%list_elem_of_singleton. rewrite nonce_rank_marker; unfold is_u in *; lia. }
  split_and!; [done| | |].
  - intros E. pose proof (nonce_rank_marker nonce from Hn) as Hm.
    specialize (Hr (to_marker nonce from)). rewrite E in Hr. 
    specialize (Hr ltac:(set_solver)). lia.
  - unfold ranked, ptx_hash; simpl. rewrite required_marker_eq by (unfold is_u in *; lia).
    rewrite Hh. split_and!; [apply NoDup_singleton| |done].
    intros m ->%list_elem_of_singleton. by apply nonce_rank_marker.
  - intros <- <-. done.
Qed.

Lemma submitted_transaction_ranked_witness :
  let t := sent_pool_transaction Fees (pending_transaction ex_tx1) 1 0 5 in
  requires t = [to_marker 0 5] ∧ requires t ≠ provides t ∧ ranked ex_hrank nonce_rank t ∧
  (pt_nonce (pending_transaction ex_tx1) = 1 →
   pt_sender (pending_transaction ex_tx1) = 5 →
   raw_pool_transaction Fees (pending_transaction ex_tx1) 0 = t).
Proof.
  apply (submitted_transaction_ranked Fees (pending_transaction ex_tx1) 1 0 5
    ex_hrank); [unfold is_u, umax; lia|unfold is_u, umax; lia|reflexivity].
Defined.

(** A request that is built keeps its type and gets the node's nonce,
    chain id and gas limit where it named none (deposits carry neither nonce
    nor chain id), and the node's gas price where it named no price. *)
Theorem build_typed_tx_request_spec (d : TxDefaults) (r : TransactionRequest)
    (o : OtherFields) (nonce : Z) (t : TypedTransactionRequest) :
  build_typed_tx_request d r o nonce = Ret (Ok t) →
  (∃ t0, transaction_request_to_typed r o = Ret (Some t0) ∧ request_type t = request_type t0) ∧
  (request_nonce_of t = None ∨ request_nonce_of t = Some nonce) ∧
  request_gas_limit_of t = default (df_gas_limit d) (req_gas r) ∧
  (request_chain_id_of t = None ∨
   request_chain_id_of t = Some (default (df_chain_id d) (req_chain_id r))) ∧
  (req_gas_price r = None → req_max_fee_per_gas r = None →
   request_price_of t = None ∨ request_price_of t = Some (df_gas_price d)).
Proof.
  unfold build_typed_tx_request. intros Hb. apply bind_Ret_inv in Hb as (typed & Ht & Hb).
  destruct typed as [[m|m|m|m|[tx|tx s]|m]|]; simpl in Hb;
    try (destruct (skip_blob_validation _ _)); simplify_eq/=;
    (split; [eexists; by split; [exact Ht|]|]);
    split_and!; auto; intros Hg Hm; rewrite ?Hg, ?Hm; auto.
Qed.

Definition ex_defaults : TxDefaults :=
  {| df_chain_id := 31337; df_gas_limit := 30000000; df_gas_price := 7; df_blob := None;
     df_cheats := cheats_default |}.

Definition ex_plain_request : TransactionRequest :=
  {| req_from := Some 5; req_to := Some (Call 7); req_gas_price := None;
     req_max_fee_per_gas := None; req_max_priority_fee_per_gas := None;
     req_max_fee_per_blob_gas := None; req_blob_versioned_hashes := None; req_gas := None;
     req_value := None; req_input := None; req_nonce := None; req_access_list := None;
     req_sidecar := None; req_transaction_type := None; req_authorization_list := None;
     req_chain_id := None |}.

Lemma build_typed_tx_request_spec_witness :
  ∃ t, build_typed_tx_request ex_defaults ex_plain_request
         {| other_source_hash := None; other_mint := None; other_is_system_tx := None |} 4 =
         Ret (Ok t) ∧
       request_gas_limit_of t = 30000000.
Proof.
  eexists. split; [reflexivity|].
  apply (build_typed_tx_request_spec ex_defaults ex_plain_request
    {| other_source_hash := None; other_mint := None; other_is_system_tx := None |} 4).
  reflexivity.
Defined.
