(* ===== verification/Estimate.v ===== *)
(** * Gas estimation (crates/anvil/src/eth/api.rs, [do_estimate_gas_with_state])

    The lowest gas limit a request succeeds with, by binary search between the
    base gas of the transaction kind and the gas the sender can afford.  The EVM
    call (with the conversion of its outcome), the code and the balance lookup
    are arguments. *)

From stdpp Require Import prelude list.
From S2P Require Import Prelude Transaction Fees Validate Api.

Open Scope Z_scope.

(** [GasEstimationCallResult]. *)
Inductive GasEstimationCallResult : Type :=
| Success (gas : Z)
| CallOutOfGas
| CallRevert (output : option Bytes)
| CallEvmError.

Section estimate.
Context {E : Type} (call : Z → result GasEstimationCallResult E)
  (get_code : Address → result Bytes E) (get_balance : Address → result Z E).

Inductive EstimateError : Type :=
| EstInvalidFeeInput
| EstInsufficientFunds
| EstBasicOutOfGas (limit : Z)
| EstRevert (output : option Bytes)
| EstEvmError
| EstBackend (e : E).

(** One turn of the binary search over [(highest, lowest, mid)]; the
    arithmetic is on [u128], the gas of a request is a [u64]. *)
Definition search_body (s : Z * Z * Z) : outcome (flow (Z * Z * Z) (result Z EstimateError)) :=
  let '(highest, lowest, mid) := s in
  if 1 <? wrap 128 (highest - lowest) then
    match call (wrap 64 mid) with
    | Err e => Ret (Break (Err (EstBackend e)))
    | Ok r =>
        let '(highest, lowest) :=
          match r with Success _ => (mid, lowest) | _ => (highest, mid) end in
        Ret (Continue (highest, lowest, (highest +w[128] lowest) / 2))
    end
  else Ret (Break (Ok highest)).

Definition search_fuel : nat := 131.

(** The check for a plain transfer to an account without code. *)
Definition is_transfer (r : TransactionRequest) : bool :=
  let maybe_transfer :=
    bool_decide (default [] (req_input r) = []) &&
    bool_decide (req_authorization_list r = None) &&
    bool_decide (req_access_list r = None) &&
    bool_decide (req_blob_versioned_hashes r = None) in
  match req_to r ≫= kind_to with
  | Some to =>
      maybe_transfer &&
      match get_code to with Ok code => bool_decide (code = []) | Err _ => false end
  | None => false
  end.

(** The cap by what the sender can afford. *)
Definition affordable_gas (r : TransactionRequest) (gas_price highest : Z)
    : result Z EstimateError :=
  match req_from r with
  | Some from =>
      if 0 <? gas_price then
        match get_balance from with
        | Err e => Err (EstBackend e)
        | Ok funds =>
            _ ←? err_if (funds <? default 0 (req_value r)) EstInsufficientFunds;
            let allowance := (funds - default 0 (req_value r)) / gas_price in
            Ok (Z.min highest (Z.min allowance (umax 128)))
        end
      else Ok highest
  | None => Ok highest
  end.

Definition first_call (highest : Z) : result Z EstimateError :=
  match call (wrap 64 highest) with
  | Err e => Err (EstBackend e)
  | Ok (Success gas) => Ok gas
  | Ok CallOutOfGas => Err (EstBasicOutOfGas highest)
  | Ok (CallRevert output) => Err (EstRevert output)
  | Ok CallEvmError => Err EstEvmError
  end.

Definition do_estimate_gas_with_state (r : TransactionRequest) (other : OtherFields)
    (block_gas_limit : Z) : outcome (result Z EstimateError) :=
  if is_transfer r then Ret (Ok MIN_TRANSACTION_GAS)
  else
    match fee_details_new (req_gas_price r) (req_max_fee_per_gas r)
            (req_max_priority_fee_per_gas r) (req_max_fee_per_blob_gas r) with
    | Err _ => Ret (Err EstInvalidFeeInput)
    | Ok fees =>
        let gas_price := default 0 (fd_gas_price (or_zero_fees fees)) in
        match affordable_gas r gas_price (default block_gas_limit (req_gas r)) with
        | Err e => Ret (Err e)
        | Ok highest =>
            match first_call highest with
            | Err e => Ret (Err e)
            | Ok gas_used =>
                determine_base_gas_by_kind r other ≫= λ lowest,
                run search_fuel search_body
                  (highest, lowest,
                   Z.min (gas_used *w[128] 3) ((highest +w[128] lowest) / 2))
            end
        end
    end.

(** ** The binary search *)

Definition succeeds (g : Z) : Prop := ∃ u, call g = Ok (Success u).

Lemma log2_up_half d d' : 1 < d → 0 ≤ d' ≤ (d + 1) / 2 → Z.log2_up d' < Z.log2_up d.
Proof.
  intros Hd Hd'. pose proof (Z.log2_up_spec d Hd) as [_ Hu].
  pose proof (Z.log2_up_pos d Hd).
  assert (d' ≤ 2 ^ Z.pred (Z.log2_up d)).
  { assert (2 ^ Z.log2_up d = 2 * 2 ^ Z.pred (Z.log2_up d)) as E'.
    { rewrite <- Z.pow_succ_r by lia. f_equal. lia. }
    pose proof (Z.div_mod (d + 1) 2 ltac:(lia)). pose proof (Z.mod_pos_bound (d + 1) 2 ltac:(lia)).
    lia. }
  pose proof (Z.log2_up_le_mono d' (2 ^ Z.pred (Z.log2_up d)) ltac:(done)) as Hm.
  rewrite Z.log2_up_pow2 in Hm by lia. lia.
Qed.

(** The invariant of the search started between [l] and [h]. *)
Record searching (l h : Z) (s : Z * Z * Z) : Prop := {
  sg_bounds : l ≤ s.1.2 ≤ s.1.1 ∧ s.1.1 ≤ h;
  sg_high : s.1.1 = h ∨ succeeds s.1.1;
  sg_low : s.1.2 = l ∨ ¬ succeeds s.1.2;
  sg_mid : s.1.2 ≤ s.2 ≤ (s.1.1 + s.1.2) / 2;
  sg_strict : s.1.2 < s.1.1 ∨ s.1.1 = l;
  sg_first : 1 < s.1.1 - s.1.2 → s.1.2 < s.2 ∨ s.1.2 = l
}.

Definition search_measure (s : Z * Z * Z) : nat :=
  Z.to_nat (Z.log2_up (s.1.1 - s.1.2)) +
  (if decide (s.2 = (s.1.1 + s.1.2) / 2) then 0 else 1).

(** A failed try halves the interval, or used up the guess of the start. *)
Lemma search_fail_measure hi lo mid :
  1 < hi - lo → lo ≤ mid ≤ (hi + lo) / 2 →
  (search_measure (hi, mid, (hi + mid) / 2)%Z < search_measure (hi, lo, mid)%Z)%nat.
Proof.
  intros Hd Hmid. unfold search_measure; simpl. rewrite decide_True by done.
  pose proof (Z.div_mod (hi + lo) 2 ltac:(lia)).
  pose proof (Z.mod_pos_bound (hi + lo) 2 ltac:(lia)).
  pose proof (Z.log2_up_nonneg (hi - mid)). case_decide as Em.
  - pose proof (log2_up_half (hi - lo) (hi - mid) Hd) as Hlg.
    pose proof (Z.div_mod (hi - lo + 1) 2 ltac:(lia)).
    pose proof (Z.mod_pos_bound (hi - lo + 1) 2 ltac:(lia)). lia.
  - pose proof (Z.log2_up_le_mono (hi - mid) (hi - lo) ltac:(lia)). lia.
Qed.

(** The answer of a search: a limit that is known to work, below which (down
    to [l]) the last point tried failed. *)
Definition search_answer (l h g : Z) : Prop :=
  l ≤ g ≤ h ∧ (g = h ∨ succeeds g) ∧ (g ≤ l + 1 ∨ ¬ succeeds (g - 1)).

Lemma search_step l h s :
  0 ≤ l → h ≤ umax 64 → (∀ g, ∃ r, call g = Ok r) → searching l h s →
  (∃ s', search_body s = Ret (Continue s') ∧ searching l h s' ∧
     (search_measure s' < search_measure s)%nat) ∨
  (∃ g, search_body s = Ret (Break (Ok g)) ∧ search_answer l h g).
Proof.
  intros Hl Hh Hcall. destruct s as [[hi lo] mid]. intros [Hb Hhi Hlo Hmid Hst Hfst]; simpl in *.
  assert (umax 64 = 2 ^ 64 - 1) as HU by done.
  assert (is_u 128 (hi - lo)) by (unfold is_u, umax in *; lia).
  rewrite wrap_small by done. destruct (Z.ltb_spec 1 (hi - lo)) as [Hd|Hd].
  - left. pose proof (Z.div_mod (hi + lo) 2 ltac:(lia)).
    pose proof (Z.mod_pos_bound (hi + lo) 2 ltac:(lia)).
    rewrite (wrap_small 64) by (unfold is_u; lia).
    assert (∀ a b, l ≤ b → b ≤ a → a ≤ h → wrap 128 (a + b) = a + b) as Hw.
    { intros. apply wrap_small. unfold is_u, umax in *. lia. }
    assert (∀ a b, l ≤ b → b ≤ a → a ≤ h → b ≤ (a + b) / 2 ≤ (a + b) / 2 ∧
      (1 < a - b → b < (a + b) / 2 ∨ b = l)) as Hm.
    { intros a b ???. split_and!; [apply Z.div_le_lower_bound; lia|done|].
      intros ?. left. apply Z.lt_le_trans with (((b + 1) + (b + 1)) / 2); [|].
      - rewrite Z.add_diag, Z.mul_comm, Z.div_mul; lia.
      - apply Z.div_le_mono; lia. }
    specialize (Hfst Hd). destruct (Hcall mid) as [r Hr]. rewrite Hr.
    assert (searching l h (mid, lo, (mid + lo) / 2) ∨ ¬ succeeds mid) as Hs1.
    { destruct r as [u| | |]; [left|right; intros [? ?]; congruence..].
      destruct (Hm mid lo) as [? ?]; [lia..|]. split; simpl; try done; try lia.
      right. by exists u. }
    assert (¬ succeeds mid → searching l h (hi, mid, (hi + mid) / 2)) as Hs2.
    { intros Hn. destruct (Hm hi mid) as [? ?]; [lia..|]. split; simpl; auto; lia. }
    assert (¬ succeeds mid → ∃ s', Ret (Continue (hi, mid, (hi +w[128] mid) / 2)) =
      Ret (Continue s') :> outcome (flow _ (result Z EstimateError)) ∧ searching l h s' ∧
      (search_measure s' < search_measure (hi, lo, mid)%Z)%nat) as Hfail.
    { intros Hn. eexists. split; [done|]. rewrite Hw by lia.
      split; [by apply Hs2|]. by apply search_fail_measure. }
    destruct r as [u| | |]; [|apply Hfail; intros [? ?]; congruence..].
    destruct Hs1 as [Hs1|[]]; [|by exists u]. eexists. split; [done|]. rewrite Hw by lia.
    split; [done|]. unfold search_measure; simpl. rewrite decide_True by done.
    pose proof (log2_up_half (hi - lo) (mid - lo) Hd) as Hlg.
    pose proof (Z.log2_up_nonneg (mid - lo)).
    pose proof (Z.div_mod (hi - lo + 1) 2 ltac:(lia)).
    pose proof (Z.mod_pos_bound (hi - lo + 1) 2 ltac:(lia)). case_decide; lia.
  - right. exists hi. split; [done|]. split_and!; [lia..|done|].
    destruct Hst as [?|?]; [|left; lia]. destruct Hlo as [?|Hn]; [left; lia|right].
    by replace (hi - 1) with lo by lia.
Qed.
End estimate.

Section estimate_spec.
Context {E : Type} (call : Z → result GasEstimationCallResult E)
  (get_code : Address → result Bytes E) (get_balance : Address → result Z E).

Lemma search_total l h mid :
  0 ≤ l ≤ h → h ≤ umax 64 → (∀ g, ∃ r, call g = Ok r) → l ≤ mid ≤ (h + l) / 2 →
  ∃ g, run search_fuel (search_body call) (h, l, mid) = Ret (Ok g) ∧ search_answer call l h g.
Proof.
  intros Hl Hh Hcall Hmid.
  destruct (run_spec (searching call l h) (λ r, ∃ g, r = Ok g ∧ search_answer call l h g)
    search_measure (search_body call)) with (fuel := search_fuel) (s := (h, l, mid))
    as (r & Hrun & g & -> & Hg).
  - intros s Hs. destruct (search_step call l h s) as [?|(g & Eg & Hg)]; try done; [lia|by left|].
    right. exists (Ok g). eauto.
  - split; simpl; try done; try lia; auto.
  - unfold search_measure, search_fuel; simpl.
    pose proof (Z.log2_up_le_mono (h - l) (2 ^ 64) ltac:(unfold umax in *; lia)) as Hlg.
    rewrite Z.log2_up_pow2 in Hlg by lia. case_decide; lia.
  - eauto.
Qed.

(** When more gas never hurts, the answer is the lowest limit that works. *)
Lemma search_answer_least l h g :
  (∀ a b, a ≤ b → succeeds call a → succeeds call b) → search_answer call l h g →
  ∀ g', l < g' < g → ¬ succeeds call g'.
Proof.
  intros Hmono (_ & _ & [?|Hn]) g' Hg' Hs; [lia|]. apply Hn. eapply Hmono; [|done]. lia.
Qed.

Lemma search_diverges fuel hi lo mid :
  0 ≤ hi < lo → lo ≤ umax 64 → hi ≤ mid < lo →
  (∀ g, hi ≤ g < lo → succeeds call g) →
  run fuel (search_body call) (hi, lo, mid) = OutOfFuel.
Proof.
  revert hi mid. induction fuel as [|fuel IH]; intros hi mid Hhi Hlo Hmid Hs; [done|]; simpl.
  assert (umax 64 = 2 ^ 64 - 1) as HU by done.
  assert (wrap 128 (hi - lo) = 2 ^ 128 + (hi - lo)) as ->.
  { unfold wrap. symmetry. apply (Z.mod_unique_pos _ _ (-1)); lia. }
  rewrite (proj2 (Z.ltb_lt _ _)) by lia.
  rewrite (wrap_small 64) by (unfold is_u; lia).
  destruct (Hs mid) as [u ->]; [lia|]; simpl.
  rewrite (wrap_small 128) by (unfold is_u, umax in *; lia).
  pose proof (Z.div_mod (mid + lo) 2 ltac:(lia)). pose proof (Z.mod_pos_bound (mid + lo) 2 ltac:(lia)).
  apply IH; [lia..|]. intros g ?. apply Hs. lia.
Qed.
End estimate_spec.

(** ** Properties *)

(** C30: for a request that is no plain transfer, has consistent fees and can
    afford [highest] gas, when every call returns, the call with [highest]
    succeeds using [gas_used], and the base gas is at most [highest] and at most
    three times [gas_used]: the estimation returns a gas limit from the base gas
    to [highest] with which the call succeeds.  The call with a limit just below
    it does not succeed, unless the limit is at most one above the base gas; so
    if more gas never hurts, no limit between the base gas and it succeeds. *)
Theorem estimate_gas_correct {E : Type} (call : Z → result GasEstimationCallResult E)
    (get_code : Address → result Bytes E) (get_balance : Address → result Z E)
    (r : TransactionRequest) (other : OtherFields)
    (block_gas_limit lowest highest gas_used : Z) (fees : FeeDetails) :
  is_transfer get_code r = false →
  fee_details_new (req_gas_price r) (req_max_fee_per_gas r) (req_max_priority_fee_per_gas r)
    (req_max_fee_per_blob_gas r) = Ok fees →
  affordable_gas get_balance r (default 0 (fd_gas_price (or_zero_fees fees)))
    (default block_gas_limit (req_gas r)) = Ok highest →
  call highest = Ok (Success gas_used) →
  determine_base_gas_by_kind r other = Ret lowest →
  (∀ g, ∃ r, call g = Ok r) →
  0 ≤ lowest ≤ highest → highest ≤ umax 64 → lowest ≤ gas_used * 3 ≤ umax 128 →
  ∃ g, do_estimate_gas_with_state call get_code get_balance r other block_gas_limit = Ret (Ok g) ∧
    lowest ≤ g ≤ highest ∧ succeeds call g ∧
    (g ≤ lowest + 1 ∨ ¬ succeeds call (g - 1)) ∧
    ((∀ a b, a ≤ b → succeeds call a → succeeds call b) →
     ∀ g', lowest < g' < g → ¬ succeeds call g').
Proof.
  intros Ht Hf Ha Hcall Hb Htot Hl Hh Hg. unfold do_estimate_gas_with_state, first_call.
  assert (umax 64 = 2 ^ 64 - 1) as HU by done. assert (umax 128 = 2 ^ 128 - 1) as HU' by done.
  rewrite Ht, Hf, Ha, (wrap_small 64), Hcall, Hb, bind_Ret by (unfold is_u; lia).
  rewrite !(wrap_small 128) by (unfold is_u; lia).
  destruct (search_total call lowest highest (Z.min (gas_used * 3) ((highest + lowest) / 2)))
    as (g & Eg & Hg'); try done.
  { pose proof (Z.div_mod (highest + lowest) 2 ltac:(lia)).
    pose proof (Z.mod_pos_bound (highest + lowest) 2 ltac:(lia)). lia. }
  exists g. split; [exact Eg|]. pose proof Hg' as (Hb1 & Hb2 & Hb3).
  split_and!; try done; [lia|lia| |by intros; eapply search_answer_least].
  destruct Hb2 as [->|?]; [by exists gas_used|done].
Qed.

(** A contract call that needs 25 000 gas, by a request that offers [gas]. *)
Definition ex_call (g : Z) : result GasEstimationCallResult unit :=
  if g <? 25000 then Ok CallOutOfGas else Ok (Success 24000).

Definition ex_request (ty : option Z) (gas : Z) : TransactionRequest :=
  {| req_from := None; req_to := Some (Call 7); req_gas_price := Some 1;
     req_max_fee_per_gas := None; req_max_priority_fee_per_gas := None;
     req_max_fee_per_blob_gas := None; req_blob_versioned_hashes := None; req_gas := Some gas;
     req_value := None; req_input := Some [1]; req_nonce := None; req_access_list := None;
     req_sidecar := None; req_transaction_type := ty; req_authorization_list := None;
     req_chain_id := None |}.

Definition no_other : OtherFields :=
  {| other_source_hash := None; other_mint := None; other_is_system_tx := None |}.

Lemma estimate_gas_correct_witness :
  ∃ g, do_estimate_gas_with_state ex_call (λ _, Ok []) (λ _, Ok 0) (ex_request (Some 0) 100000)
         no_other 30000000 = Ret (Ok g) ∧ succeeds ex_call g.
Proof.
  destruct (estimate_gas_correct ex_call (λ _, Ok []) (λ _, Ok 0) (ex_request (Some 0) 100000)
    no_other 30000000 21000 100000 24000
    {| fd_gas_price := Some 1; fd_max_fee_per_gas := Some 1;
       fd_max_priority_fee_per_gas := Some 1; fd_max_fee_per_blob_gas := None |})
    as (g & Hg & _ & Hs & _);
    [reflexivity|reflexivity|reflexivity|reflexivity|reflexivity| |lia|unfold umax; lia
    |unfold umax; lia|exists g; exact (conj Hg Hs)].
  intros g. unfold ex_call. destruct (g <? 25000); eexists; reflexivity.
Defined.

(** when the request offers less gas than the base gas of its kind and
    the call still succeeds, the subtraction of the two wraps around, the search
    raises its upper bound forever and never returns. *)
Theorem estimate_search_diverges {E : Type} (call : Z → result GasEstimationCallResult E)
    (fuel : nat) (highest lowest mid : Z) :
  0 ≤ highest < lowest → lowest ≤ umax 64 → highest ≤ mid < lowest →
  (∀ g, highest ≤ g < lowest → succeeds call g) →
  run fuel (search_body call) (highest, lowest, mid) = OutOfFuel.
Proof. apply search_diverges. Qed.

(** A request that offers 30 000 gas with a type and a gas price that do not
    fit together: its base gas is that of a contract creation. *)
Lemma estimate_search_diverges_witness :
  determine_base_gas_by_kind (ex_request (Some 2) 30000) no_other = Ret 53000 ∧
  ∀ fuel, run fuel (search_body ex_call) (30000, 53000, 41500) = OutOfFuel.
Proof.
  split; [by vm_compute|]. intros fuel.
  apply (estimate_search_diverges ex_call fuel 30000 53000 41500); try (unfold umax; lia).
  intros g Hg. exists 24000. unfold ex_call. by rewrite (proj2 (Z.ltb_ge _ _)) by lia.
Defined.
