(* ===== verification/BlockStates.v ===== *)
(** * Historical states (crates/anvil/src/eth/backend/mem/storage.rs,
    [InMemoryBlockStates])

    The states of past blocks, the most recent ones in memory and older ones on
    disk, in the files of the [DiskStateCache] of backend/mem/cache.rs.  The
    database of a block is a component with an interface of its own.  Of the
    file system and of the tasks that write the files nothing is assumed but
    that a file holds what was written to it: a task may run late or fail, and a
    file may be unreadable. *)

From stdpp Require Import prelude gmap list.
From S2P Require Import Prelude Transaction.

Open Scope nat_scope.

(** ** Interfaces *)

(** [StateDb] with [clear_into_state_snapshot] and [init_from_state_snapshot]:
    a database emptied into a snapshot is restored by it, up to what can be
    observed of a database ([MemDb] has the node's instance). *)
Class StateDbOps (StateDb Snapshot : Type) := {
  clear_into : StateDb → StateDb * Snapshot;
  init_from : StateDb → Snapshot → StateDb;
  sdb_equiv :: Equiv StateDb;
  sdb_equivalence :: Equivalence (≡@{StateDb});
  init_clear : ∀ s, init_from (clear_into s).1 (clear_into s).2 ≡ s;
  init_init : ∀ s n, init_from (init_from s n) n ≡ init_from s n
}.

(** The file system with the tasks that write to it: making the temporary
    directory, which may fail; handing the writing of a file to a task; what a
    file reads as now, if it does; removing a file; and the passage of time, in
    which tasks run.  [fs_spawned d h n] says that a task was handed [n] for the
    file of [h]: a file only ever holds such an [n], and a new directory is
    empty. *)
Class FileSystem (Disk Snapshot : Type) := {
  fs_tempdir : Disk → Disk * bool;
  fs_spawn_write : Disk → B256 → Snapshot → Disk;
  fs_read_json : Disk → B256 → option Snapshot;
  fs_remove_file : Disk → B256 → Disk;
  fs_passes : Disk → Disk → Prop;
  fs_spawned : Disk → B256 → Snapshot → Prop;
  fs_read_spawned : ∀ d h n, fs_read_json d h = Some n → fs_spawned d h n;
  fs_tempdir_spawned : ∀ d h n, fs_spawned (fs_tempdir d).1 h n → fs_spawned d h n;
  fs_tempdir_empty : ∀ d h, (fs_tempdir d).2 = true → fs_read_json (fs_tempdir d).1 h = None;
  fs_write_spawned : ∀ d h n h' n', fs_spawned (fs_spawn_write d h n) h' n' →
    fs_spawned d h' n' ∨ (h' = h ∧ n' = n);
  fs_remove_spawned : ∀ d h h' n, fs_spawned (fs_remove_file d h) h' n → fs_spawned d h' n;
  fs_passes_spawned : ∀ d d' h n, fs_passes d d' → fs_spawned d' h n → fs_spawned d h n
}.

(** ** The cache on disk (crates/anvil/src/eth/backend/mem/cache.rs) *)

(** [temp_dir] says whether the directory was made. *)
Record DiskStateCache (Disk : Type) := { temp_dir : bool; dsc_disk : Disk }.
Arguments Build_DiskStateCache {_} _ _.
Arguments temp_dir {_} _.
Arguments dsc_disk {_} _.

Section disk_cache.
Context {Disk Snapshot : Type} {fs : FileSystem Disk Snapshot}.
Implicit Types c : DiskStateCache Disk.

(** [with_cache_file] makes the directory first, if there is none. *)
Definition with_cache_dir c : DiskStateCache Disk :=
  if temp_dir c then c
  else let '(d, made) := fs_tempdir (dsc_disk c) in {| temp_dir := made; dsc_disk := d |}.

Definition disk_write c (hash : B256) (state : Snapshot) : DiskStateCache Disk :=
  let c := with_cache_dir c in
  if temp_dir c
  then {| temp_dir := true; dsc_disk := fs_spawn_write (dsc_disk c) hash state |} else c.

Definition disk_read c (hash : B256) : DiskStateCache Disk * option Snapshot :=
  let c := with_cache_dir c in
  (c, if temp_dir c then fs_read_json (dsc_disk c) hash else None).

Definition disk_remove c (hash : B256) : DiskStateCache Disk :=
  let c := with_cache_dir c in
  if temp_dir c
  then {| temp_dir := true; dsc_disk := fs_remove_file (dsc_disk c) hash |} else c.

Lemma with_cache_dir_spawned c h n :
  fs_spawned (dsc_disk (with_cache_dir c)) h n → fs_spawned (dsc_disk c) h n.
Proof.
  unfold with_cache_dir. destruct (temp_dir c); [done|].
  pose proof (fs_tempdir_spawned (dsc_disk c) h n) as Hl. by destruct (fs_tempdir _).
Qed.

Lemma disk_write_spawned c h n h' n' :
  fs_spawned (dsc_disk (disk_write c h n)) h' n' →
  fs_spawned (dsc_disk c) h' n' ∨ (h' = h ∧ n' = n).
Proof.
  unfold disk_write. case_match; simpl.
  - intros [?%with_cache_dir_spawned|]%fs_write_spawned; auto.
  - intros ?%with_cache_dir_spawned. auto.
Qed.

Lemma disk_read_spawned c h n : (disk_read c h).2 = Some n → fs_spawned (dsc_disk c) h n.
Proof.
  unfold disk_read; simpl. case_match; [|done].
  intros ?%fs_read_spawned. by apply with_cache_dir_spawned.
Qed.

Lemma disk_remove_spawned c h h' n :
  fs_spawned (dsc_disk (disk_remove c h)) h' n → fs_spawned (dsc_disk c) h' n.
Proof.
  unfold disk_remove. case_match; simpl;
    [intros ?%fs_remove_spawned|intros ?]; by apply with_cache_dir_spawned.
Qed.

(** Reading once does not change what reading finds. *)
Lemma disk_read_again c h : (disk_read (with_cache_dir c) h).2 = (disk_read c h).2.
Proof.
  unfold disk_read, with_cache_dir. simpl. destruct (temp_dir c) eqn:E; [by repeat (rewrite E; simpl)|].
  destruct (fs_tempdir (dsc_disk c)) as [d []]; simpl; [done|].
  pose proof (fs_tempdir_empty d h) as He. destruct (fs_tempdir d) as [d' []]; simpl in *; auto.
Qed.
End disk_cache.

(** ** Data *)

Definition DEFAULT_HISTORY_LIMIT : nat := 500.
Definition MIN_HISTORY_LIMIT : nat := 10.

Section states.
Context {StateDb Snapshot Disk : Type} {db : StateDbOps StateDb Snapshot}
  {dc : FileSystem Disk Snapshot}.

Record BlockStates := {
  states : gmap B256 StateDb;
  on_disk_states : gmap B256 StateDb;
  in_memory_limit : nat;
  min_in_memory_limit : nat;
  max_on_disk_limit : nat;
  oldest_on_disk : list B256;
  present : list B256;
  disk_cache : DiskStateCache Disk
}.

(** [DiskStateCache::default()] has no directory yet; [disk] is the file system. *)
Definition states_new (disk : Disk) (in_memory on_disk : nat) : BlockStates :=
  {| states := ∅; on_disk_states := ∅; in_memory_limit := in_memory;
     min_in_memory_limit := min in_memory MIN_HISTORY_LIMIT;
     max_on_disk_limit := on_disk; oldest_on_disk := []; present := [];
     disk_cache := {| temp_dir := false; dsc_disk := disk |} |}.

Definition memory_only (st : BlockStates) : BlockStates :=
  {| states := states st; on_disk_states := on_disk_states st;
     in_memory_limit := in_memory_limit st; min_in_memory_limit := min_in_memory_limit st;
     max_on_disk_limit := 0; oldest_on_disk := oldest_on_disk st; present := present st;
     disk_cache := disk_cache st |}.

Definition is_memory_only (st : BlockStates) : bool := Nat.eqb (max_on_disk_limit st) 0.

Definition set_cache_limit (st : BlockStates) (limit : nat) : BlockStates :=
  {| states := states st; on_disk_states := on_disk_states st; in_memory_limit := limit;
     min_in_memory_limit := min_in_memory_limit st;
     max_on_disk_limit := max_on_disk_limit st; oldest_on_disk := oldest_on_disk st;
     present := present st; disk_cache := disk_cache st |}.

(** One turn of the first loop of [enforce_limits]. *)
Definition evict_memory_body (st : BlockStates) : outcome (flow BlockStates BlockStates) :=
  if in_memory_limit st <=? length (present st) then
    match present st with
    | [] => Ret (Continue st)
    | hash :: rest =>
        Ret (Continue
          match states st !! hash with
          | Some state =>
              if is_memory_only st then
                {| states := delete hash (states st); on_disk_states := on_disk_states st;
                   in_memory_limit := in_memory_limit st;
                   min_in_memory_limit := min_in_memory_limit st;
                   max_on_disk_limit := max_on_disk_limit st;
                   oldest_on_disk := oldest_on_disk st; present := rest;
                   disk_cache := disk_cache st |}
              else
                let '(cleared, snapshot) := clear_into state in
                {| states := delete hash (states st);
                   on_disk_states := <[hash := cleared]> (on_disk_states st);
                   in_memory_limit := in_memory_limit st;
                   min_in_memory_limit := min_in_memory_limit st;
                   max_on_disk_limit := max_on_disk_limit st;
                   oldest_on_disk := oldest_on_disk st ++ [hash]; present := rest;
                   disk_cache := disk_write (disk_cache st) hash snapshot |}
          | None =>
              {| states := states st; on_disk_states := on_disk_states st;
                 in_memory_limit := in_memory_limit st;
                 min_in_memory_limit := min_in_memory_limit st;
                 max_on_disk_limit := max_on_disk_limit st;
                 oldest_on_disk := oldest_on_disk st; present := rest;
                 disk_cache := disk_cache st |}
          end)
    end
  else Ret (Break st).

(** One turn of the second loop. *)
Definition evict_disk_body (st : BlockStates) : outcome (flow BlockStates BlockStates) :=
  if negb (is_memory_only st) && (max_on_disk_limit st <=? length (oldest_on_disk st)) then
    match oldest_on_disk st with
    | [] => Ret (Continue st)
    | hash :: rest =>
        Ret (Continue
          {| states := states st; on_disk_states := delete hash (on_disk_states st);
             in_memory_limit := in_memory_limit st;
             min_in_memory_limit := min_in_memory_limit st;
             max_on_disk_limit := max_on_disk_limit st; oldest_on_disk := rest;
             present := present st; disk_cache := disk_remove (disk_cache st) hash |})
    end
  else Ret (Break st).

Definition enforce_limits (st : BlockStates) : outcome BlockStates :=
  run (S (length (present st))) evict_memory_body st ≫= λ st,
  run (S (length (oldest_on_disk st))) evict_disk_body st.

(** The limit decreases gradually once it is reached. *)
Definition decrease_limit (st : BlockStates) : BlockStates :=
  if negb (is_memory_only st) && (in_memory_limit st <=? length (present st)) then
    set_cache_limit st (max (in_memory_limit st - 1) (min_in_memory_limit st))
  else st.

Definition insert_state (st : BlockStates) (hash : B256) (state : StateDb)
    : outcome BlockStates :=
  enforce_limits (decrease_limit st) ≫= λ st,
  Ret {| states := <[hash := state]> (states st); on_disk_states := on_disk_states st;
         in_memory_limit := in_memory_limit st;
         min_in_memory_limit := min_in_memory_limit st;
         max_on_disk_limit := max_on_disk_limit st; oldest_on_disk := oldest_on_disk st;
         present := present st ++ [hash]; disk_cache := disk_cache st |}.

Definition with_disk (st : BlockStates) (on_disk : gmap B256 StateDb)
    (cache : DiskStateCache Disk) : BlockStates :=
  {| states := states st; on_disk_states := on_disk; in_memory_limit := in_memory_limit st;
     min_in_memory_limit := min_in_memory_limit st;
     max_on_disk_limit := max_on_disk_limit st; oldest_on_disk := oldest_on_disk st;
     present := present st; disk_cache := cache |}.

(** A state found on disk is restored in place. *)
Definition get_state (st : BlockStates) (hash : B256) : BlockStates * option StateDb :=
  match states st !! hash with
  | Some s => (st, Some s)
  | None =>
      match on_disk_states st !! hash with
      | Some s =>
          match disk_read (disk_cache st) hash with
          | (cache, Some cached) =>
              let s := init_from s cached in
              (with_disk st (<[hash := s]> (on_disk_states st)) cache, Some s)
          | (cache, None) => (with_disk st (on_disk_states st) cache, None)
          end
      | None => (st, None)
      end
  end.

Definition states_clear (st : BlockStates) : BlockStates :=
  {| states := ∅; on_disk_states := ∅; in_memory_limit := in_memory_limit st;
     min_in_memory_limit := min_in_memory_limit st;
     max_on_disk_limit := max_on_disk_limit st; oldest_on_disk := []; present := [];
     disk_cache := foldl disk_remove (disk_cache st) (oldest_on_disk st) |}.

(** [block_time] in seconds. *)
Definition update_interval_mine_block_time (st : BlockStates) (block_time : Z)
    : outcome BlockStates :=
  if (block_time <=? 2)%Z then enforce_limits (set_cache_limit st (DEFAULT_HISTORY_LIMIT * 3))
  else Ret st.

(** [load_states]; [empty_db] is [StateDb::new(MemDb::default())]. *)
Definition load_states (empty_db : StateDb) (st : BlockStates)
    (l : list (B256 * Snapshot)) : outcome BlockStates :=
  foldM (λ st e, insert_state st e.1 (init_from empty_db e.2)) st l.

(** ** Specification *)

(** The state a lookup finds now: the abstract contents of the store. *)
Definition content (st : BlockStates) (hash : B256) : option StateDb :=
  match states st !! hash with
  | Some s => Some s
  | None =>
      match on_disk_states st !! hash, (disk_read (disk_cache st) hash).2 with
      | Some s, Some cached => Some (init_from s cached)
      | _, _ => None
      end
  end.

(** A snapshot was handed to a task that writes the file of [hash]. *)
Definition spawned (st : BlockStates) (hash : B256) (snapshot : Snapshot) : Prop :=
  fs_spawned (dsc_disk (disk_cache st)) hash snapshot.

(** A lookup may find this state for the block, now or after some time. *)
Definition may_find (st : BlockStates) (hash : B256) (s : StateDb) : Prop :=
  match states st !! hash with
  | Some s' => s ≡ s'
  | None => ∃ cleared snapshot, on_disk_states st !! hash = Some cleared ∧
      spawned st hash snapshot ∧ s ≡ init_from cleared snapshot
  end.

(** The store or its directory has seen the block. *)
Definition known (st : BlockStates) (hash : B256) : Prop :=
  hash ∈ present st ++ oldest_on_disk st ∨ ∃ n, spawned st hash n.

(** The queues list the stored blocks, each once; a block was written at most
    once, and not while it is in memory. *)
Record states_inv (st : BlockStates) : Prop := {
  si_nodup : NoDup (present st ++ oldest_on_disk st);
  si_present : ∀ h, is_Some (states st !! h) ↔ h ∈ present st;
  si_disk : ∀ h, is_Some (on_disk_states st !! h) ↔ h ∈ oldest_on_disk st;
  si_unwritten : ∀ h n, h ∈ present st → ¬ spawned st h n;
  si_once : ∀ h n n', spawned st h n → spawned st h n' → n = n';
  si_limit : 1 ≤ in_memory_limit st;
  si_min : 1 ≤ min_in_memory_limit st
}.

(** What a lookup finds it may find. *)
Lemma content_may_find st h s : content st h = Some s → may_find st h s.
Proof.
  unfold content, may_find. destruct (states st !! h); [by intros [= ->]|].
  destruct (on_disk_states st !! h) as [c|]; [|done].
  destruct (disk_read _ _) as [? [n|]] eqn:E; [|done]. intros [= <-].
  exists c, n. split_and!; [done| |done].
  apply disk_read_spawned. by rewrite E.
Qed.

(** There is room for a state, which is enough for the loops to end. *)
Definition states_live (st : BlockStates) : Prop :=
  1 ≤ in_memory_limit st ∧ 1 ≤ min_in_memory_limit st.

Lemma states_inv_live st : states_inv st → states_live st.
Proof. intros Hi. split; apply Hi. Qed.

(** The first loop moved [k] states out of memory. *)
Record evicted (k : nat) (st cur : BlockStates) : Prop := {
  ev_inv : states_inv cur;
  ev_le : k ≤ length (present st);
  ev_present : present cur = drop k (present st);
  ev_disk : oldest_on_disk cur =
    oldest_on_disk st ++ (if is_memory_only st then [] else take k (present st));
  ev_limits : in_memory_limit cur = in_memory_limit st ∧
    min_in_memory_limit cur = min_in_memory_limit st ∧
    max_on_disk_limit cur = max_on_disk_limit st;
  ev_kept : ∀ h, h ∈ present cur → states cur !! h = states st !! h;
  ev_known : ∀ h, known cur h → known st h;
  ev_found : ∀ h s, may_find cur h s → may_find st h s
}.

(** Moving one state to disk: a lookup may find nothing but that state. *)
Lemma evict_one st hash rest state :
  states_inv st → present st = hash :: rest → states st !! hash = Some state →
  let st' :=
    {| states := delete hash (states st);
       on_disk_states := <[hash := (clear_into state).1]> (on_disk_states st);
       in_memory_limit := in_memory_limit st; min_in_memory_limit := min_in_memory_limit st;
       max_on_disk_limit := max_on_disk_limit st;
       oldest_on_disk := oldest_on_disk st ++ [hash]; present := rest;
       disk_cache := disk_write (disk_cache st) hash (clear_into state).2 |} in
  states_inv st' ∧ (∀ h, known st' h → known st h) ∧ ∀ h s, may_find st' h s → may_find st h s.
Proof.
  intros [Hnd Hp Hd Hu Ho Hl Hm] Hpr Hs; simpl. unfold known, spawned in *. rewrite Hpr in Hnd, Hp, Hu |- *.
  apply NoDup_cons in Hnd as [Hin Hnd]. rewrite elem_of_app in Hin.
  split; [split; unfold spawned; simpl; try done|split].
  - rewrite app_assoc. apply NoDup_app. split_and!; [done| |apply NoDup_singleton].
    intros h Hh. rewrite list_elem_of_singleton. intros ->. apply elem_of_app in Hh. tauto.
  - intros h. rewrite lookup_delete_is_Some, Hp, elem_of_cons. split; [naive_solver|].
    intros Hh. split; [|auto]. intros <-. tauto.
  - intros h. rewrite lookup_insert_is_Some', Hd, elem_of_app, list_elem_of_singleton. naive_solver.
  - intros h n Hh [Hn|[-> _]]%disk_write_spawned; [|tauto].
    by apply (Hu h n); [set_solver|].
  - intros h n n' [H1|[-> ->]]%disk_write_spawned [H2|[E ->]]%disk_write_spawned;
      [by eapply Ho|subst; by destruct (Hu hash n ltac:(set_solver))| |done].
    by destruct (Hu hash n' ltac:(set_solver)).
  - intros h [Hh|(n & [Hn|[-> _]]%disk_write_spawned)]; [left; set_solver|eauto|left; set_solver].
  - intros h s. unfold may_find, spawned; simpl. destruct (decide (h = hash)) as [->|Hne].
    + rewrite lookup_delete_eq, lookup_insert_eq, Hs.
      intros (c & n & [= <-] & [Hn|[_ ->]]%disk_write_spawned & ->); [|apply init_clear].
      by destruct (Hu hash n ltac:(set_solver)).
    + rewrite lookup_delete_ne, lookup_insert_ne by done. case_match; [done|].
      intros (c & n & E & [Hn|[-> _]]%disk_write_spawned & Hs'); [by exists c, n|done].
Qed.

(** Dropping one state from memory. *)
Lemma drop_one st hash rest :
  states_inv st → present st = hash :: rest →
  let st' :=
    {| states := delete hash (states st); on_disk_states := on_disk_states st;
       in_memory_limit := in_memory_limit st; min_in_memory_limit := min_in_memory_limit st;
       max_on_disk_limit := max_on_disk_limit st; oldest_on_disk := oldest_on_disk st;
       present := rest; disk_cache := disk_cache st |} in
  states_inv st' ∧ (∀ h, known st' h → known st h) ∧ ∀ h s, may_find st' h s → may_find st h s.
Proof.
  intros [Hnd Hp Hd Hu Ho Hl Hm] Hpr; simpl. unfold known, spawned in *. rewrite Hpr in Hnd, Hp, Hu |- *.
  apply NoDup_cons in Hnd as [Hin Hnd]. rewrite elem_of_app in Hin.
  split; [split; unfold spawned; simpl; try done|split].
  - intros h. rewrite lookup_delete_is_Some, Hp, elem_of_cons. split; [naive_solver|].
    intros Hh. split; [|auto]. intros <-. tauto.
  - intros h n Hh. apply Hu. set_solver.
  - intros h [Hh|Hh]; [left; set_solver|eauto].
  - intros h s. unfold may_find; simpl. destruct (decide (h = hash)) as [->|Hne].
    + rewrite lookup_delete_eq. intros (c & n & E & _).
      exfalso. apply Hin. right. apply Hd. eauto.
    + by rewrite lookup_delete_ne.
Qed.

Lemma evict_memory_step k st cur :
  evicted k st cur → in_memory_limit cur ≤ length (present cur) →
  ∃ cur', evict_memory_body cur = Ret (Continue cur') ∧ evicted (S k) st cur'.
Proof.
  intros [Hi Hle Hp Hd (El & Em & Ex) Hkp Hkn Hc] Hlen. unfold evict_memory_body.
  rewrite (proj2 (Nat.leb_le _ _) Hlen). pose proof (si_limit _ Hi).
  destruct (present cur) as [|hash rest] eqn:Ep; [simpl in Hlen; lia|].
  assert (present st !! k = Some hash) as Hk.
  { by rewrite <- (Nat.add_0_r k), <- lookup_drop, <- Hp. }
  assert (rest = drop (S k) (present st)) as Hrest.
  { rewrite (drop_S _ _ _ Hk) in Hp. by injection Hp. }
  assert (take (S k) (present st) = take k (present st) ++ [hash]) as Htake by by apply take_S_r.
  destruct (proj2 (si_present _ Hi hash)) as [state Hs]; [rewrite Ep; set_solver|].
  rewrite Hs. assert (is_memory_only cur = is_memory_only st) as Eo
    by (unfold is_memory_only; by rewrite Ex). rewrite Eo.
  assert (∀ h, h ∈ rest → delete hash (states cur) !! h = states st !! h) as Hkp'.
  { intros h Hh. pose proof (si_nodup _ Hi) as Hnd. rewrite Ep in Hnd.
    apply NoDup_cons in Hnd as [Hnd _]. rewrite elem_of_app in Hnd.
    rewrite lookup_delete_ne by (intros ->; tauto). apply Hkp. set_solver. }
  apply lookup_lt_Some in Hk. destruct (is_memory_only st) eqn:Emo.
  - destruct (drop_one cur hash rest Hi Ep) as (Hi' & Hk' & Hc').
    eexists. split; [done|]. split; [exact Hi'|lia|exact Hrest|by rewrite Emo|done|done| |];
      auto.
  - destruct (evict_one cur hash rest state Hi Ep Hs) as (Hi' & Hk' & Hc').
    destruct (clear_into state) as [cl snap]; simpl in *.
    eexists. split; [done|]. split; [exact Hi'|lia|exact Hrest| |done|done| |]; rewrite ?Emo; auto.
    cbn [oldest_on_disk]. by rewrite Hd, Htake, <- app_assoc.
Qed.

Lemma evict_memory_total st :
  states_inv st →
  ∃ k st', run (S (length (present st))) evict_memory_body st = Ret st' ∧ evicted k st st' ∧
    length (present st') < in_memory_limit st.
Proof.
  intros Hi.
  destruct (run_spec (λ cur, ∃ k, evicted k st cur)
    (λ st', ∃ k, evicted k st st' ∧ length (present st') < in_memory_limit st)
    (λ cur, length (present cur)) evict_memory_body) with
    (fuel := S (length (present st))) (s := st) as (st' & E & k & He & Hlt).
  - intros cur (k & He). destruct (decide (in_memory_limit cur ≤ length (present cur))) as [Hle|Hgt].
    + left. destruct (evict_memory_step k st cur He Hle) as (cur' & E & He').
      exists cur'. split; [done|]. split; [eauto|].
      rewrite (ev_present _ _ _ He), (ev_present _ _ _ He'), !length_drop.
      pose proof (ev_le _ _ _ He'). lia.
    + right. exists cur. unfold evict_memory_body.
      rewrite (proj2 (Nat.leb_gt _ _)) by lia. split; [done|]. exists k. split; [done|].
      destruct (ev_limits _ _ _ He) as [<- _]. lia.
  - exists 0. split; try done; [lia|by destruct (is_memory_only st); rewrite app_nil_r].
  - simpl. lia.
  - by exists k, st'.
Qed.

(** The second loop purged the [j] oldest states from disk. *)
Record purged (j : nat) (st cur : BlockStates) : Prop := {
  pu_inv : states_inv cur;
  pu_le : j ≤ length (oldest_on_disk st);
  pu_disk : oldest_on_disk cur = drop j (oldest_on_disk st);
  pu_same : present cur = present st ∧ in_memory_limit cur = in_memory_limit st ∧
    min_in_memory_limit cur = min_in_memory_limit st ∧
    max_on_disk_limit cur = max_on_disk_limit st ∧ states cur = states st;
  pu_known : ∀ h, known cur h → known st h;
  pu_found : ∀ h s, may_find cur h s → may_find st h s
}.

Lemma purge_one st hash rest :
  states_inv st → oldest_on_disk st = hash :: rest →
  let st' :=
    {| states := states st; on_disk_states := delete hash (on_disk_states st);
       in_memory_limit := in_memory_limit st; min_in_memory_limit := min_in_memory_limit st;
       max_on_disk_limit := max_on_disk_limit st; oldest_on_disk := rest;
       present := present st; disk_cache := disk_remove (disk_cache st) hash |} in
  states_inv st' ∧ (∀ h, known st' h → known st h) ∧ ∀ h s, may_find st' h s → may_find st h s.
Proof.
  intros [Hnd Hp Hd Hu Hon Hl Hm] Ho; simpl. unfold known, spawned in *. rewrite Ho in Hnd, Hd |- *.
  apply NoDup_app in Hnd as (Hnd1 & Hdis & [Hin Hnd2]%NoDup_cons).
  split; [split; unfold spawned; simpl; try done|split].
  - apply NoDup_app. split_and!; [done| |done]. intros h ? ?. apply (Hdis h); set_solver.
  - intros h. rewrite lookup_delete_is_Some, Hd, elem_of_cons. split; [naive_solver|].
    intros Hh. split; [|auto]. by intros <-.
  - intros h n Hh Hn%disk_remove_spawned. by apply (Hu h n).
  - intros h n n' Hn%disk_remove_spawned Hn'%disk_remove_spawned. by apply (Hon h).
  - intros h [Hh|(n & Hn%disk_remove_spawned)]; [left; set_solver|eauto].
  - intros h s. unfold may_find, spawned; simpl. case_match; [done|].
    intros (c & n & [_ E]%lookup_delete_Some & Hn%disk_remove_spawned & Hs). by exists c, n.
Qed.

Lemma evict_disk_step j st cur :
  purged j st cur → is_memory_only cur = false →
  max_on_disk_limit cur ≤ length (oldest_on_disk cur) →
  ∃ cur', evict_disk_body cur = Ret (Continue cur') ∧ purged (S j) st cur'.
Proof.
  intros [Hi Hle Hd (Ep & El & Em & Ex & Es) Hkn Hc] Hmo Hlen. unfold evict_disk_body.
  rewrite Hmo, (proj2 (Nat.leb_le _ _) Hlen). simpl.
  apply Nat.eqb_neq in Hmo.
  destruct (oldest_on_disk cur) as [|hash rest] eqn:Eo; [simpl in Hlen; lia|].
  assert (oldest_on_disk st !! j = Some hash) as Hj
    by (by rewrite <- (Nat.add_0_r j), <- lookup_drop, <- Hd).
  assert (rest = drop (S j) (oldest_on_disk st)) as Hrest.
  { rewrite (drop_S _ _ _ Hj) in Hd. by injection Hd. }
  assert (take (S j) (oldest_on_disk st) = take j (oldest_on_disk st) ++ [hash]) as Htake
    by by apply take_S_r.
  apply lookup_lt_Some in Hj.
  destruct (purge_one cur hash rest Hi Eo) as (Hi' & Hk' & Hc').
  eexists. split; [done|]. split; [exact Hi'|lia|exact Hrest|done| |]; auto.
Qed.

Lemma evict_disk_total st :
  states_inv st →
  ∃ j st', run (S (length (oldest_on_disk st))) evict_disk_body st = Ret st' ∧ purged j st st' ∧
    (is_memory_only st = false → length (oldest_on_disk st') < max_on_disk_limit st).
Proof.
  intros Hi.
  destruct (run_spec (λ cur, ∃ j, purged j st cur)
    (λ st', ∃ j, purged j st st' ∧
       (is_memory_only st = false → length (oldest_on_disk st') < max_on_disk_limit st))
    (λ cur, length (oldest_on_disk cur)) evict_disk_body) with
    (fuel := S (length (oldest_on_disk st))) (s := st) as (st' & E & j & He & Hlt).
  - intros cur (j & He). destruct (pu_same _ _ _ He) as (_ & _ & _ & Ex & _).
    assert (is_memory_only cur = is_memory_only st) as Eo
      by (unfold is_memory_only; by rewrite Ex).
    destruct (decide (is_memory_only st = false ∧
      max_on_disk_limit cur ≤ length (oldest_on_disk cur))) as [[Hmo Hle]|Hn].
    + left. destruct (evict_disk_step j st cur He) as (cur' & E & He'); [congruence|done|].
      exists cur'. split; [done|]. split; [eauto|].
      rewrite (pu_disk _ _ _ He), (pu_disk _ _ _ He'), !length_drop.
      pose proof (pu_le _ _ _ He'). lia.
    + right. exists cur. unfold evict_disk_body. rewrite Eo. split; [|exists j; split; [done|]].
      * destruct (is_memory_only st); simpl; [done|].
        rewrite (proj2 (Nat.leb_gt _ _)); [done|]. apply Nat.nle_gt. naive_solver.
      * intros Hmo. rewrite <- Ex. apply Nat.nle_gt. naive_solver.
  - exists 0. split; try done; try lia.
  - simpl. lia.
  - by exists j, st'.
Qed.

Lemma decrease_limit_spec st :
  states_inv st →
  states_inv (decrease_limit st) ∧ (∀ h s, may_find (decrease_limit st) h s ↔ may_find st h s) ∧
  (∀ h, known (decrease_limit st) h ↔ known st h) ∧ states (decrease_limit st) = states st ∧
  in_memory_limit (decrease_limit st) ≤ max (in_memory_limit st) (min_in_memory_limit st) ∧
  present (decrease_limit st) = present st ∧ oldest_on_disk (decrease_limit st) = oldest_on_disk st ∧
  max_on_disk_limit (decrease_limit st) = max_on_disk_limit st ∧
  is_memory_only (decrease_limit st) = is_memory_only st.
Proof.
  intros Hi. unfold decrease_limit. case_bool; [|split_and!; try done; lia].
  split; [destruct Hi; split; simpl; try done; lia|].
  split_and!; try done. simpl. lia.
Qed.

(** The contract of [insert_state]: the [k] oldest states left memory (for
    disk, unless there is none) and the [j] oldest left the disk; the new state
    and the ones still in memory are found; and whatever time passes on the disk
    [d], a lookup of another block finds nothing or a state it could find
    before, and nothing for a block that is not listed. *)
Record inserted (st : BlockStates) (hash : B256) (state : StateDb) (st' : BlockStates)
    (k j : nat) : Prop := {
  in_inv : states_inv st';
  in_memory : length (present st') ≤ in_memory_limit st';
  in_on_disk : is_memory_only st = false →
    length (oldest_on_disk st') < max_on_disk_limit st';
  in_present : present st' = drop k (present st) ++ [hash];
  in_oldest : oldest_on_disk st' = drop j (oldest_on_disk st ++
    (if is_memory_only st then [] else take k (present st)));
  in_limit : in_memory_limit st' ≤ max (in_memory_limit st) (min_in_memory_limit st);
  in_new : content st' hash = Some state;
  in_kept : ∀ h, h ∈ present st' → h ≠ hash → content st' h = content st h;
  in_known : ∀ h, known st' h → h = hash ∨ known st h;
  in_found : ∀ d h s, fs_passes (dsc_disk (disk_cache st')) d → h ≠ hash →
    content (with_disk st' (on_disk_states st')
      {| temp_dir := temp_dir (disk_cache st'); dsc_disk := d |}) h = Some s →
    h ∈ present st' ++ oldest_on_disk st' ∧ may_find st h s
}.

(** Time passes: files appear or stay away, and lookups find no other states. *)
Lemma passes_may_find st d h s :
  fs_passes (dsc_disk (disk_cache st)) d →
  may_find (with_disk st (on_disk_states st)
    {| temp_dir := temp_dir (disk_cache st); dsc_disk := d |}) h s → may_find st h s.
Proof.
  intros Hd. unfold may_find, spawned; simpl. case_match; [done|].
  intros (c & n & E & Hn & Hs). exists c, n. split_and!; [done| |done].
  by eapply fs_passes_spawned.
Qed.

Lemma may_find_listed st h s :
  states_inv st → may_find st h s → h ∈ present st ++ oldest_on_disk st.
Proof.
  intros Hi. unfold may_find. rewrite elem_of_app, <- (si_present _ Hi), <- (si_disk _ Hi).
  case_match; [eauto|]. intros (c & n & -> & _). eauto.
Qed.

(** A state in memory is what a lookup finds. *)
Lemma content_memory st st' h :
  states_inv st → h ∈ present st → states st' !! h = states st !! h → content st' h = content st h.
Proof.
  intros Hi [s E]%(si_present _ Hi) Hs. unfold content. by rewrite Hs, E.
Qed.

(** The last step of an insertion. *)
Lemma insert_fresh st hash state :
  states_inv st → ¬ known st hash →
  let st' :=
    {| states := <[hash := state]> (states st); on_disk_states := on_disk_states st;
       in_memory_limit := in_memory_limit st; min_in_memory_limit := min_in_memory_limit st;
       max_on_disk_limit := max_on_disk_limit st; oldest_on_disk := oldest_on_disk st;
       present := present st ++ [hash]; disk_cache := disk_cache st |} in
  states_inv st' ∧ (∀ h, known st' h → h = hash ∨ known st h) ∧
  ∀ h s, h ≠ hash → may_find st' h s → may_find st h s.
Proof.
  intros [Hnd Hp Hd Hu Ho Hl Hm] Hf; simpl. unfold known in *.
  assert (hash ∉ present st ∧ hash ∉ oldest_on_disk st) as [Hf1 Hf2] by set_solver.
  split; [split; unfold spawned in *; simpl; try done|split].
  - rewrite <- app_assoc. apply NoDup_app in Hnd as (? & Hdis & ?). apply NoDup_app.
    split_and!; [done| |by apply NoDup_cons]. intros h ? [->|?]%elem_of_cons; [done|].
    by apply (Hdis h).
  - intros h. rewrite lookup_insert_is_Some', Hp, elem_of_app, list_elem_of_singleton. naive_solver.
  - intros h n [Hh|Hh]%elem_of_app Hn; [by apply (Hu h n)|].
    apply list_elem_of_singleton in Hh as ->. naive_solver.
  - intros h. simpl. unfold spawned; simpl. set_solver.
  - intros h s Hne. unfold may_find, spawned; simpl. by rewrite lookup_insert_ne.
Qed.

Lemma insert_state_spec st hash state :
  states_inv st → ¬ known st hash →
  ∃ st' k j, insert_state st hash state = Ret st' ∧ inserted st hash state st' k j.
Proof.
  intros Hi Hn. unfold insert_state, enforce_limits.
  destruct (decrease_limit_spec st Hi) as (Hi0 & Hc0 & Hn0 & Hs0 & Hl0 & Ep0 & Eo0 & Ex0 & Em0).
  set (st0 := decrease_limit st) in *.
  destruct (evict_memory_total st0 Hi0) as (k & st1 & -> & Hev & Hlt1).
  destruct Hev as [Hi1 Hk Hp1 Hd1 (El1 & En1 & Ex1) Hkp1 Hkn1 Hf1]. rewrite bind_Ret.
  destruct (evict_disk_total st1 Hi1) as (j & st2 & -> & Hpu & Hlt2).
  destruct Hpu as [Hi2 Hj Hd2 (Ep2 & El2 & En2 & Ex2 & Es2) Hkn2 Hf2]. rewrite bind_Ret.
  assert (is_memory_only st1 = is_memory_only st) as Em1
    by (rewrite <- Em0; unfold is_memory_only; by rewrite Ex1).
  rewrite Em0, Eo0, Ep0 in Hd1.
  assert (∀ h, known st2 h → known st h) as Hkn by (intros h Hh; apply Hn0; auto).
  destruct (insert_fresh st2 hash state Hi2) as (Hi3 & Hkn3 & Hf3); [auto|].
  eexists _, k, j. split; [done|]. set (st3 := Build_BlockStates _ _ _ _ _ _ _ _) in *. split.
  - exact Hi3.
  - simpl. rewrite length_app, Ep2, El2, El1; simpl. lia.
  - intros Hmo. simpl. rewrite Ex2. apply Hlt2. congruence.
  - simpl. by rewrite Ep2, Hp1, Ep0.
  - simpl. by rewrite Hd2, Hd1.
  - simpl. rewrite El2, El1. done.
  - unfold content; simpl. by rewrite lookup_insert_eq.
  - simpl. intros h Hh Hne. assert (h ∈ present st1) as Hh1 by (rewrite <- Ep2; set_solver).
    apply content_memory; [done| |].
    + rewrite Hp1, Ep0 in Hh1. eauto with anvil.
    + simpl. by rewrite lookup_insert_ne, Es2, Hkp1, Hs0.
  - intros h [->|Hh]%Hkn3; auto.
  - intros d h s Hd Hne Hc%content_may_find. apply passes_may_find in Hc; [|done].
    split; [by eapply may_find_listed|]. apply Hc0, Hf1, Hf2, Hf3; done.
Qed.

(** With room for a state, an insertion ends and stores the state, whatever
    the queues list. *)
Lemma evict_memory_live st :
  states_live st →
  ∃ st', run (S (length (present st))) evict_memory_body st = Ret st' ∧
    in_memory_limit st' = in_memory_limit st ∧ min_in_memory_limit st' = min_in_memory_limit st.
Proof.
  intros [Hl Hm].
  destruct (run_spec (λ cur, in_memory_limit cur = in_memory_limit st ∧
      min_in_memory_limit cur = min_in_memory_limit st)
    (λ cur, in_memory_limit cur = in_memory_limit st ∧
      min_in_memory_limit cur = min_in_memory_limit st)
    (λ cur, length (present cur)) evict_memory_body) with
    (fuel := S (length (present st))) (s := st) as (st' & E & Hst); [|done|lia|by exists st'].
  intros cur [E1 E2]. unfold evict_memory_body.
  destruct (Nat.leb_spec (in_memory_limit cur) (length (present cur))); [left|right; eauto].
  destruct (present cur) as [|hash rest] eqn:Ep; [simpl in *; lia|].
  eexists. split; [reflexivity|].
  destruct (states cur !! hash); [destruct (is_memory_only cur); [|destruct (clear_into _)]|];
    simpl; auto.
Qed.

Lemma evict_disk_live st :
  ∃ st', run (S (length (oldest_on_disk st))) evict_disk_body st = Ret st' ∧
    in_memory_limit st' = in_memory_limit st ∧ min_in_memory_limit st' = min_in_memory_limit st.
Proof.
  destruct (run_spec (λ cur, in_memory_limit cur = in_memory_limit st ∧
      min_in_memory_limit cur = min_in_memory_limit st)
    (λ cur, in_memory_limit cur = in_memory_limit st ∧
      min_in_memory_limit cur = min_in_memory_limit st)
    (λ cur, length (oldest_on_disk cur)) evict_disk_body) with
    (fuel := S (length (oldest_on_disk st))) (s := st) as (st' & E & Hst); [|done|lia|by exists st'].
  intros cur [E1 E2]. unfold evict_disk_body, is_memory_only.
  destruct (Nat.eqb_spec (max_on_disk_limit cur) 0); simpl; [right; eauto|].
  destruct (Nat.leb_spec (max_on_disk_limit cur) (length (oldest_on_disk cur))); [left|right; eauto].
  destruct (oldest_on_disk cur) as [|hash rest] eqn:Ep; [simpl in *; lia|].
  eexists. split; [reflexivity|]. simpl. auto.
Qed.

Lemma insert_state_live st hash state :
  states_live st →
  ∃ st', insert_state st hash state = Ret st' ∧ states_live st' ∧ content st' hash = Some state.
Proof.
  intros Hl. unfold insert_state, enforce_limits.
  assert (states_live (decrease_limit st)) as Hl'.
  { unfold decrease_limit. case_bool; [|done]. destruct Hl. split; simpl; lia. }
  destruct (evict_memory_live _ Hl') as (st1 & -> & E1 & E2). rewrite bind_Ret.
  destruct (evict_disk_live st1) as (st2 & -> & E3 & E4). rewrite bind_Ret.
  eexists. split; [reflexivity|]. destruct Hl'. split; [split; simpl; lia|].
  unfold content; simpl. by rewrite lookup_insert_eq.
Qed.
End states.
Arguments BlockStates : clear implicits.

(** ** Properties *)

(** C31: inserting the state of a block the store has not seen ends and keeps
    the store consistent: the new state is found; at most [in_memory_limit]
    states stay in memory and fewer than [max_on_disk_limit] on disk; the states
    that leave are the oldest ones, first from memory to disk (unless the store
    is in memory only) and then for good; the states still in memory are found
    as before; and whatever the file system does from then on (writing late,
    failing to write or to read), a lookup of a block finds nothing, or a state
    it could find before the insertion, and only if the block is still listed. *)
Theorem insert_state_correct {StateDb Snapshot Disk : Type} {db : StateDbOps StateDb Snapshot}
    {dc : FileSystem Disk Snapshot} (st : BlockStates StateDb Disk) (hash : B256)
    (state : StateDb) :
  states_inv st → ¬ known st hash →
  ∃ st' k j, insert_state st hash state = Ret st' ∧ inserted st hash state st' k j.
Proof. apply insert_state_spec. Qed.

(** A store of numbers; a "disk" in memory for any snapshots. *)
#[export] Program Instance ex_db : StateDbOps (option nat) (option nat) :=
  {| clear_into s := (None, s); init_from _ n := n; sdb_equiv := (=) |}.
Solve Obligations with done.

#[export] Program Instance ex_disk {A : Type} : FileSystem (gmap Z A) A :=
  {| fs_tempdir _ := (∅, true); fs_spawn_write d h n := <[h := n]> d; fs_read_json d h := d !! h;
     fs_remove_file d h := delete h d; fs_passes d d' := d' ⊆ d;
     fs_spawned d h n := d !! h = Some n |}.
Next Obligation. done. Qed.
Next Obligation. done. Qed.
Next Obligation. done. Qed.
Next Obligation. intros A d h n h' n' [[-> ->]|[_ ?]]%lookup_insert_Some; auto. Qed.
Next Obligation. by intros A d h h' n [_ ?]%lookup_delete_Some. Qed.
Next Obligation. intros A d d' h n Hd Hn. simpl in *. by eapply lookup_weaken. Qed.

Lemma states_new_inv {StateDb Snapshot Disk : Type} {db : StateDbOps StateDb Snapshot}
    {dc : FileSystem Disk Snapshot} (disk : Disk) m d :
  1 ≤ m → (∀ h n, ¬ fs_spawned disk h n) → states_inv (states_new (StateDb := StateDb) disk m d).
Proof.
  intros Hm Hd. split; unfold spawned; simpl; try done.
  - constructor.
  - intros h. rewrite lookup_empty. split; [by intros []|]. intros Hh. by apply elem_of_nil in Hh.
  - intros h. rewrite lookup_empty. split; [by intros []|]. intros Hh. by apply elem_of_nil in Hh.
  - intros h n n' Hn. by destruct (Hd h n).
  - unfold MIN_HISTORY_LIMIT. lia.
Qed.

Lemma insert_state_correct_witness :
  ∃ st' k j, insert_state (states_new (∅ : gmap Z (option nat)) 2 1) 7%Z (Some 3) = Ret st' ∧
    inserted (states_new ∅ 2 1) 7%Z (Some 3) st' k j.
Proof.
  apply (insert_state_correct (states_new (∅ : gmap Z (option nat)) 2 1) 7%Z (Some 3)).
  - apply states_new_inv; [lia|done].
  - intros [Hh|[n Hn]]; [by apply not_elem_of_nil in Hh|done].
Defined.

(** Reading: the contents, also from disk, and no change to them. *)
Lemma get_state_spec {StateDb Snapshot Disk : Type} {db : StateDbOps StateDb Snapshot}
    {dc : FileSystem Disk Snapshot} (st : BlockStates StateDb Disk) (hash : B256) :
  let '(st', o) := get_state st hash in
  o = content st hash ∧ (∀ h, content st' h ≡ content st h) ∧
  (∀ h, known st' h → known st h) ∧
  (states_inv st → states_inv st' ∧ (is_Some o → hash ∈ present st ++ oldest_on_disk st)).
Proof.
  pose proof (disk_read_again (disk_cache st)) as Hag.
  pose proof (λ h n, with_cache_dir_spawned (disk_cache st) h n) as Hsp.
  pose proof (content_may_find st hash) as Hcm.
  assert (states_inv st → is_Some (content st hash) → hash ∈ present st ++ oldest_on_disk st)
    as Hfound by (intros Hi [s Hs]; eapply may_find_listed; eauto).
  unfold get_state. unfold content in Hfound |- *.
  destruct (states st !! hash) as [s|] eqn:Hs; [by split_and!; auto|].
  destruct (on_disk_states st !! hash) as [s|] eqn:Ho; [|by split_and!; auto].
  unfold disk_read at 1 2. unfold disk_read at 1 in Hfound. simpl in *.
  unfold known, spawned. destruct (if temp_dir _ then _ else _) as [n|] eqn:Hr; simpl.
  - split_and!; [done| | |].
    + intros h. rewrite Hag. destruct (decide (h = hash)) as [->|Hne].
      * rewrite Hs, lookup_insert_eq, Ho. unfold disk_read; simpl. by rewrite Hr, init_init.
      * by rewrite lookup_insert_ne.
    + intros h [?|[m ?]]; eauto.
    + intros Hi. split; [|by apply Hfound]. destruct Hi as [Hnd Hp Hd Hu Hon Hl Hm].
      unfold spawned in *. split; unfold spawned; simpl; try done; [|naive_solver|naive_solver].
      intros h. rewrite lookup_insert_is_Some', Hd.
      split; [|auto]. intros [<-|?]; [|done]. apply Hd. eauto.
  - split_and!; [done| | |].
    + intros h. by rewrite Hag.
    + intros h [?|[m ?]]; eauto.
    + intros Hi. split; [|by intros []]. destruct Hi as [Hnd Hp Hd Hu Hon Hl Hm].
      unfold spawned in *. split; unfold spawned; simpl; try done; naive_solver.
Qed.

(** A lookup returns the contents of the store, also when it has to
    restore the state from disk, and changes nothing that later lookups see. *)
Theorem get_state_correct {StateDb Snapshot Disk : Type} {db : StateDbOps StateDb Snapshot}
    {dc : FileSystem Disk Snapshot} (st : BlockStates StateDb Disk) (hash : B256) :
  let '(st', o) := get_state st hash in
  o = content st hash ∧ (∀ h, content st' h ≡ content st h) ∧
  (∀ h, known st' h → known st h) ∧
  (states_inv st → states_inv st' ∧ (is_Some o → hash ∈ present st ++ oldest_on_disk st)).
Proof. apply get_state_spec. Qed.

(** A store configured with no room in memory never returns from an
    insertion: the first loop pops from an empty queue forever. *)
Theorem insert_state_diverges {StateDb Snapshot Disk : Type} {db : StateDbOps StateDb Snapshot}
    {dc : FileSystem Disk Snapshot} (disk : Disk) (fuel d : nat) (hash : B256)
    (state : StateDb) :
  run fuel evict_memory_body (decrease_limit (states_new (StateDb := StateDb) disk 0 d)) =
    OutOfFuel ∧
  insert_state (states_new disk 0 d) hash state = OutOfFuel.
Proof.
  assert (∀ n, run n evict_memory_body (decrease_limit (states_new (StateDb := StateDb) disk 0 d))
    = OutOfFuel) as H.
  { unfold decrease_limit. case_bool; induction n as [|n IH]; simpl in *; done. }
  split; [done|]. unfold insert_state, enforce_limits. by rewrite H.
Qed.
