(* ===== verification/Block.v ===== *)
(** * Blocks (crates/anvil/core/src/eth/block.rs)

    Headers, partial headers and blocks.  The root of the transaction trie and
    the hash of the empty list of uncles are alloy's. *)

From stdpp Require Import prelude list.
From S2P Require Import Prelude Transaction.

Open Scope Z_scope.

(** [Header] of alloy. *)
Record Header := {
  h_parent_hash : B256;
  h_beneficiary : Address;
  h_ommers_hash : B256;
  h_state_root : B256;
  h_transactions_root : B256;
  h_receipts_root : B256;
  h_logs_bloom : Bytes;
  h_difficulty : Z;
  h_number : Z;
  h_gas_limit : Z;
  h_gas_used : Z;
  h_timestamp : Z;
  h_extra_data : Bytes;
  h_mix_hash : B256;
  h_withdrawals_root : option B256;
  h_blob_gas_used : option Z;
  h_excess_blob_gas : option Z;
  h_parent_beacon_block_root : option B256;
  h_nonce : Z;
  h_base_fee_per_gas : option Z;
  h_requests_hash : option B256
}.

(** A header without the hash of the uncles and the root of the transactions. *)
Record PartialHeader := {
  ph_parent_hash : B256;
  ph_beneficiary : Address;
  ph_state_root : B256;
  ph_receipts_root : B256;
  ph_logs_bloom : Bytes;
  ph_difficulty : Z;
  ph_number : Z;
  ph_gas_limit : Z;
  ph_gas_used : Z;
  ph_timestamp : Z;
  ph_extra_data : Bytes;
  ph_mix_hash : B256;
  ph_blob_gas_used : option Z;
  ph_excess_blob_gas : option Z;
  ph_parent_beacon_block_root : option B256;
  ph_nonce : Z;
  ph_base_fee : option Z;
  ph_withdrawals_root : option B256;
  ph_requests_hash : option B256
}.

Record Block := {
  blk_header : Header;
  blk_transactions : list MaybeImpersonatedTransaction;
  blk_ommers : list Header
}.

Definition hd_number (b : Block) : Z := h_number (blk_header b).
Definition hd_difficulty (b : Block) : Z := h_difficulty (blk_header b).

(** Constants and functions of alloy: [EMPTY_OMMER_ROOT_HASH],
    [EMPTY_WITHDRAWALS], [EMPTY_REQUESTS_HASH], the root of the transaction
    trie and the hash of a header. *)
Class BlockExternals := {
  empty_ommer_root_hash : B256;
  empty_withdrawals : B256;
  empty_requests_hash : B256;
  empty_bloom : Bytes;
  calculate_transaction_root : list TypedTransaction → B256;
  header_hash_slow : Header → B256
}.

Section block.
Context {bext : BlockExternals}.

(** [Block::new]. *)
Definition block_new (p : PartialHeader) (transactions : list MaybeImpersonatedTransaction)
    : Block :=
  {| blk_header :=
       {| h_parent_hash := ph_parent_hash p;
          h_beneficiary := ph_beneficiary p;
          h_ommers_hash := empty_ommer_root_hash;
          h_state_root := ph_state_root p;
          h_transactions_root := calculate_transaction_root (mit_transaction <$> transactions);
          h_receipts_root := ph_receipts_root p;
          h_logs_bloom := ph_logs_bloom p;
          h_difficulty := ph_difficulty p;
          h_number := ph_number p;
          h_gas_limit := ph_gas_limit p;
          h_gas_used := ph_gas_used p;
          h_timestamp := ph_timestamp p;
          h_extra_data := ph_extra_data p;
          h_mix_hash := ph_mix_hash p;
          h_withdrawals_root := ph_withdrawals_root p;
          h_blob_gas_used := ph_blob_gas_used p;
          h_excess_blob_gas := ph_excess_blob_gas p;
          h_parent_beacon_block_root := ph_parent_beacon_block_root p;
          h_nonce := ph_nonce p;
          h_base_fee_per_gas := ph_base_fee p;
          h_requests_hash := ph_requests_hash p |};
     blk_transactions := transactions;
     blk_ommers := [] |}.
End block.

(** [From<Header> for PartialHeader]. *)
Definition partial_header_from (h : Header) : PartialHeader :=
  {| ph_parent_hash := h_parent_hash h;
     ph_beneficiary := h_beneficiary h;
     ph_state_root := h_state_root h;
     ph_receipts_root := h_receipts_root h;
     ph_logs_bloom := h_logs_bloom h;
     ph_difficulty := h_difficulty h;
     ph_number := h_number h;
     ph_gas_limit := h_gas_limit h;
     ph_gas_used := h_gas_used h;
     ph_timestamp := h_timestamp h;
     ph_extra_data := h_extra_data h;
     ph_mix_hash := h_mix_hash h;
     ph_blob_gas_used := h_blob_gas_used h;
     ph_excess_blob_gas := h_excess_blob_gas h;
     ph_parent_beacon_block_root := h_parent_beacon_block_root h;
     ph_nonce := h_nonce h;
     ph_base_fee := h_base_fee_per_gas h;
     ph_withdrawals_root := h_withdrawals_root h;
     ph_requests_hash := h_requests_hash h |}.

(** Building a block from a partial header loses nothing of it. *)
Lemma partial_header_block_new {bext : BlockExternals} p txs :
  partial_header_from (blk_header (block_new p txs)) = p.
Proof. by destruct p. Qed.

(** A header with its number and default values elsewhere, to run the model. *)
Definition ex_header (n : Z) : Header :=
  {| h_parent_hash := 0; h_beneficiary := 0; h_ommers_hash := 0; h_state_root := 0;
     h_transactions_root := 0; h_receipts_root := 0; h_logs_bloom := []; h_difficulty := 0;
     h_number := n; h_gas_limit := 0; h_gas_used := 0; h_timestamp := 0; h_extra_data := [];
     h_mix_hash := 0; h_withdrawals_root := None; h_blob_gas_used := None;
     h_excess_blob_gas := None; h_parent_beacon_block_root := None; h_nonce := 0;
     h_base_fee_per_gas := None; h_requests_hash := None |}.

Definition ex_block_externals : BlockExternals :=
  {| empty_ommer_root_hash := 1; empty_withdrawals := 2; empty_requests_hash := 3;
     empty_bloom := []; calculate_transaction_root := λ l, Z.of_nat (length l);
     header_hash_slow := λ h, 1000 + h_number h |}.
