(* ===== verification/Chain.v ===== *)
(** * The blockchain storage (crates/anvil/src/eth/backend/mem/storage.rs,
    [BlockchainStorage]; backend/mem/mod.rs, the storing half of
    [do_mine_block])

    Blocks by hash, hashes by number, mined transactions by hash and the best
    block.  The hash of a block ([hash_slow]) and the contents of a mined
    transaction are parameters. *)

From stdpp Require Import prelude gmap list.
From S2P Require Import Prelude Containers Transaction Fees Env Block.

Open Scope Z_scope.

Inductive BlockNumberOrTag : Type :=
| Latest | Earliest | Pending | Safe | Finalized
| Number (n : Z).

Inductive BlockId : Type := BlockIdHash (h : B256) | BlockIdNumber (n : BlockNumberOrTag).

(** The header of the genesis block; a field that is not set has its default
    value. *)
Definition genesis_header {specs : SpecIds} {bext : BlockExternals} (env : BlockEnv)
    (spec_id : Z) (base_fee : option Z) (timestamp genesis_number : Z) : PartialHeader :=
  let is_shanghai := SHANGHAI <=? spec_id in
  let is_cancun := CANCUN <=? spec_id in
  let is_prague := PRAGUE <=? spec_id in
  {| ph_parent_hash := 0;
     ph_beneficiary := blk_beneficiary env;
     ph_state_root := 0;
     ph_receipts_root := 0;
     ph_logs_bloom := empty_bloom;
     ph_difficulty := blk_difficulty env;
     ph_number := genesis_number;
     ph_gas_limit := blk_gas_limit env;
     ph_gas_used := 0;
     ph_timestamp := timestamp;
     ph_extra_data := [];
     ph_mix_hash := 0;
     ph_blob_gas_used := (λ _, 0) <$> blk_blob_excess_gas_and_price env;
     ph_excess_blob_gas := blk_blob_excess_gas env;
     ph_parent_beacon_block_root := if is_cancun then Some 0 else None;
     ph_nonce := 0;
     ph_base_fee := base_fee;
     ph_withdrawals_root := if is_shanghai then Some empty_withdrawals else None;
     ph_requests_hash := if is_prague then Some empty_requests_hash else None |}.

Definition genesis_block {specs : SpecIds} {bext : BlockExternals} (env : BlockEnv)
    (spec_id : Z) (base_fee : option Z) (timestamp genesis_number : Z) : Block :=
  block_new (genesis_header env spec_id base_fee timestamp genesis_number) [].

Section storage.
Context {ext : TxExternals} {Mined : Type} (mined_hash : Mined → B256)
  (hash_slow : Block → B256).

Record BlockchainStorage := {
  blocks : gmap B256 Block;
  hashes : gmap Z B256;
  best_hash : B256;
  best_number : Z;
  genesis_hash : B256;
  transactions : gmap B256 Mined;
  total_difficulty : Z
}.

(** [new], after it built the genesis block. *)
Definition storage_new (genesis : Block) : BlockchainStorage :=
  let genesis_hash := hash_slow genesis in
  {| blocks := {[genesis_hash := genesis]}; hashes := {[hd_number genesis := genesis_hash]};
     best_hash := genesis_hash; best_number := hd_number genesis;
     genesis_hash := genesis_hash; transactions := ∅; total_difficulty := 0 |}.

Definition storage_forked (block_number : Z) (block_hash : B256) (total_difficulty : Z)
    : BlockchainStorage :=
  {| blocks := ∅; hashes := {[block_number := block_hash]}; best_hash := block_hash;
     best_number := block_number; genesis_hash := 0; transactions := ∅;
     total_difficulty := total_difficulty |}.

Definition storage_empty : BlockchainStorage :=
  {| blocks := ∅; hashes := ∅; best_hash := 0; best_number := 0; genesis_hash := 0;
     transactions := ∅; total_difficulty := 0 |}.

Definition with_blocks (s : BlockchainStorage) (b : gmap B256 Block) (h : gmap Z B256)
    (t : gmap B256 Mined) : BlockchainStorage :=
  {| blocks := b; hashes := h; best_hash := best_hash s; best_number := best_number s;
     genesis_hash := genesis_hash s; transactions := t;
     total_difficulty := total_difficulty s |}.

(** Removes the transactions of a block from the index and from the block. *)
Definition remove_block_transactions (s : BlockchainStorage) (block_hash : B256)
    : BlockchainStorage :=
  match blocks s !! block_hash with
  | Some block =>
      with_blocks s
        (<[block_hash := {| blk_header := blk_header block; blk_transactions := [];
                            blk_ommers := blk_ommers block |}]> (blocks s))
        (hashes s)
        (foldl (λ (t : gmap B256 Mined) tx, delete (mit_hash tx) t) (transactions s)
           (blk_transactions block))
  | None => s
  end.

Definition remove_block_transactions_by_number (s : BlockchainStorage) (num : Z)
    : BlockchainStorage :=
  match hashes s !! num with
  | Some hash => remove_block_transactions s hash
  | None => s
  end.

(** One turn of the loop of [unwind_to]. *)
Definition unwind_one (acc : BlockchainStorage * list Block) (i : Z)
    : BlockchainStorage * list Block :=
  let '(s, removed) := acc in
  match hashes s !! i with
  | None => acc
  | Some hash =>
      let s := with_blocks s (blocks s) (delete i (hashes s)) (transactions s) in
      match blocks s !! hash with
      | None => (s, removed)
      | Some block =>
          let s := with_blocks s (delete hash (blocks s)) (hashes s) (transactions s) in
          (remove_block_transactions_by_number s (hd_number block), removed ++ [block])
      end
  end.

(** [for i in (block_number + 1)..=best_num]. *)
Definition unwind_to (s : BlockchainStorage) (block_number : Z) (block_hash : B256)
    : BlockchainStorage * list Block :=
  let first := block_number +w[64] 1 in
  let '(s, removed) :=
    foldl unwind_one (s, []) (seqZ first (best_number s + 1 - first)) in
  ({| blocks := blocks s; hashes := hashes s; best_hash := block_hash;
      best_number := block_number; genesis_hash := genesis_hash s;
      transactions := transactions s; total_difficulty := total_difficulty s |}, removed).

(** [BlockchainStorage::hash]. *)
Definition storage_hash (s : BlockchainStorage) (number : BlockNumberOrTag) : option B256 :=
  match number with
  | Latest => Some (best_hash s)
  | Earliest => Some (genesis_hash s)
  | Pending => None
  | Number num => hashes s !! num
  | Safe =>
      if 32 <? best_number s then hashes s !! (best_number s - 32) else Some (genesis_hash s)
  | Finalized =>
      if 64 <? best_number s then hashes s !! (best_number s - 64) else Some (genesis_hash s)
  end.

Definition blockchain_hash (s : BlockchainStorage) (id : BlockId) : option B256 :=
  match id with BlockIdHash h => Some h | BlockIdNumber n => storage_hash s n end.

Definition load_block (s : BlockchainStorage) (block : Block) : BlockchainStorage :=
  with_blocks s (<[hash_slow block := block]> (blocks s))
    (<[hd_number block := hash_slow block]> (hashes s)) (transactions s).

Definition load_blocks (s : BlockchainStorage) (l : list Block) : BlockchainStorage :=
  foldl load_block s l.

Definition load_transactions (s : BlockchainStorage) (l : list Mined) : BlockchainStorage :=
  foldl (λ s tx, with_blocks s (blocks s) (hashes s) (<[mined_hash tx := tx]> (transactions s)))
    s l.

(** [serialized_blocks]: the values of the map in its iteration order. *)
Definition serialized_blocks {order : HashOrder B256} (s : BlockchainStorage) : list Block :=
  map_iter (blocks s).

(** Storing a mined block: the bookkeeping of [do_mine_block]. *)
Definition store_block (is_eip3675 : bool) (transaction_block_keeper : option Z)
    (s : BlockchainStorage) (block : Block) (mined : list Mined) : BlockchainStorage :=
  let block_number := best_number s +s[64] 1 in
  let block_hash := hash_slow block in
  let s :=
    {| blocks := <[block_hash := block]> (blocks s);
       hashes := <[block_number := block_hash]> (hashes s);
       best_hash := block_hash; best_number := block_number;
       genesis_hash := genesis_hash s;
       transactions :=
         foldl (λ (t : gmap B256 Mined) tx, <[mined_hash tx := tx]> t) (transactions s) mined;
       total_difficulty :=
         if is_eip3675 then total_difficulty s
         else total_difficulty s +s[256] hd_difficulty block |} in
  match transaction_block_keeper with
  | Some keeper =>
      if keeper <? Z.of_nat (size (blocks s)) then
        remove_block_transactions_by_number s (saturating_sub block_number keeper)
      else s
  | None => s
  end.

(** ** Specification *)

(** Every stored block is filed under its hash and its number, and the best
    block is the one with the highest number. *)
Record chain_inv (s : BlockchainStorage) : Prop := {
  ch_best : hashes s !! best_number s = Some (best_hash s);
  ch_top : ∀ n h, hashes s !! n = Some h → 0 ≤ n ≤ best_number s;
  ch_block : ∀ h b, blocks s !! h = Some b → hashes s !! hd_number b = Some h
}.
End storage.
Arguments BlockchainStorage : clear implicits.

Section chain_spec.
Context {ext : TxExternals} {Mined : Type} (mined_hash : Mined → B256)
  (hash_slow : Block → B256).
Implicit Types s : BlockchainStorage Mined.

Lemma insert_all_other (l : list Mined) t k :
  k ∉ mined_hash <$> l →
  foldl (λ (t : gmap B256 Mined) tx, <[mined_hash tx := tx]> t) t l !! k = t !! k.
Proof.
  revert t. induction l as [|x l IH]; intros t Hk; cbn [foldl]; [done|].
  rewrite fmap_cons, not_elem_of_cons in Hk. destruct Hk as [Hne Hk].
  by rewrite IH, lookup_insert_ne.
Qed.

Lemma insert_all_lookup (l : list Mined) t m :
  m ∈ l → NoDup (mined_hash <$> l) →
  foldl (λ (t : gmap B256 Mined) tx, <[mined_hash tx := tx]> t) t l !! mined_hash m = Some m.
Proof.
  revert t. induction l as [|x l IH]; intros t Hm Hnd; [by apply elem_of_nil in Hm|].
  rewrite fmap_cons in Hnd. apply NoDup_cons in Hnd as [Hx Hnd]. cbn [foldl].
  apply elem_of_cons in Hm as [->|Hm]; [|by apply IH].
  by rewrite insert_all_other, lookup_insert_eq.
Qed.

(** Storing a block with the next number and a fresh hash. *)
Lemma store_block_inv eip3675 s b mined :
  chain_inv s → best_number s < umax 64 →
  hd_number b = best_number s + 1 → blocks s !! hash_slow b = None →
  let s' := store_block mined_hash hash_slow eip3675 None s b mined in
  chain_inv s' ∧ best_number s' = best_number s + 1 ∧ best_hash s' = hash_slow b ∧
  blocks s' !! hash_slow b = Some b ∧
  (∀ m, m ∈ mined → NoDup (mined_hash <$> mined) → transactions s' !! mined_hash m = Some m).
Proof.
  intros [Hb Ht Hbl] Hmax Hn Hfresh; simpl.
  pose proof (Ht _ _ Hb).
  assert (best_number s +s[64] 1 = best_number s + 1) as E by (unfold saturating_add; lia).
  rewrite E. split_and!; try done; [|apply lookup_insert_eq|].
  - split; simpl.
    + apply lookup_insert_eq.
    + intros n h. rewrite lookup_insert. case_decide; [lia|]. intros Hnh.
      specialize (Ht _ _ Hnh). lia.
    + intros h b'. rewrite lookup_insert. case_decide as Eh.
      * intros [= <-]. subst. by rewrite Hn, lookup_insert_eq.
      * intros Hb'. specialize (Hbl _ _ Hb'). rewrite lookup_insert_ne; [done|].
        specialize (Ht _ _ Hbl). lia.
  - intros m Hm Hnd. by apply insert_all_lookup.
Qed.

(** Emptying the blocks of an old number keeps the chain consistent. *)
Lemma remove_block_transactions_inv s num :
  chain_inv s → chain_inv (remove_block_transactions_by_number s num).
Proof.
  intros Hi. unfold remove_block_transactions_by_number, remove_block_transactions.
  destruct (hashes s !! num) as [h|]; [|done]. destruct (blocks s !! h) as [b|] eqn:Eb; [|done].
  destruct Hi as [Hb Ht Hbl]. split; simpl; [done..|]. intros h' b'.
  rewrite lookup_insert_Some. intros [[<- <-]|[_ Hb']]; [by apply (Hbl h b)|by apply Hbl].
Qed.

Lemma store_block_keeper eip3675 keeper s b mined :
  let s0 := store_block mined_hash hash_slow eip3675 None s b mined in
  let s' := store_block mined_hash hash_slow eip3675 keeper s b mined in
  s' = s0 ∨ ∃ n, s' = remove_block_transactions_by_number s0 n.
Proof.
  simpl. unfold store_block. destruct keeper as [k|]; [|by left].
  case_bool; [right; by eexists|by left].
Qed.

Lemma remove_block_transactions_same s num :
  let s' := remove_block_transactions_by_number s num in
  hashes s' = hashes s ∧ best_number s' = best_number s ∧ best_hash s' = best_hash s ∧
  blk_header <$> blocks s' = blk_header <$> blocks s.
Proof.
  simpl. unfold remove_block_transactions_by_number, remove_block_transactions.
  destruct (hashes s !! num) as [h|]; [|done]. destruct (blocks s !! h) as [b|] eqn:Eb; [|done].
  simpl. split_and!; try done. rewrite fmap_insert. apply insert_id. simpl.
  by rewrite lookup_fmap, Eb.
Qed.

(** Storing a block, whether or not old transactions are dropped. *)
Lemma store_block_any eip3675 keeper s b mined :
  chain_inv s → best_number s < umax 64 → hd_number b = best_number s + 1 →
  (∀ n, hashes s !! n ≠ Some (hash_slow b)) →
  let s' := store_block mined_hash hash_slow eip3675 keeper s b mined in
  chain_inv s' ∧ best_number s' = best_number s + 1 ∧ best_hash s' = hash_slow b ∧
  hashes s' = <[best_number s + 1 := hash_slow b]> (hashes s) ∧
  blk_header <$> blocks s' = <[hash_slow b := blk_header b]> (blk_header <$> blocks s).
Proof.
  intros Hi Hmax Hn Hf; cbn zeta.
  assert (blocks s !! hash_slow b = None) as Hnb.
  { apply eq_None_not_Some. intros [b0 Hb0]. by apply (Hf (hd_number b0)), (ch_block _ Hi). }
  destruct (store_block_inv eip3675 s b mined Hi Hmax Hn Hnb) as (Hi' & En & Eh & Eb & _).
  assert (hashes (store_block mined_hash hash_slow eip3675 None s b mined) =
    <[best_number s + 1 := hash_slow b]> (hashes s)) as Ehs.
  { rewrite <- En. done. }
  assert (blk_header <$> blocks (store_block mined_hash hash_slow eip3675 None s b mined) =
    <[hash_slow b := blk_header b]> (blk_header <$> blocks s)) as Ehd by (apply fmap_insert).
  destruct (store_block_keeper eip3675 keeper s b mined) as [->|[n ->]]; [by eauto 10|].
  destruct (remove_block_transactions_same (store_block mined_hash hash_slow eip3675 None s b mined) n)
    as (R1 & R2 & R3 & R4).
  rewrite R1, R2, R3, R4. split_and!; try done. by apply remove_block_transactions_inv.
Qed.

(** The new block keeps its transactions, unless the keeper keeps no block. *)
Lemma store_block_body eip3675 keeper s b mined :
  chain_inv s → best_number s < umax 64 → (∀ n, hashes s !! n ≠ Some (hash_slow b)) →
  (∀ k, keeper = Some k → 0 < k) →
  blocks (store_block mined_hash hash_slow eip3675 keeper s b mined) !! hash_slow b = Some b.
Proof.
  intros Hi Hmax Hf Hk. pose proof (ch_top _ Hi _ _ (ch_best _ Hi)). unfold store_block.
  destruct keeper as [k|]; [specialize (Hk k eq_refl)|apply lookup_insert_eq].
  case_bool; [|apply lookup_insert_eq].
  unfold remove_block_transactions_by_number, remove_block_transactions; simpl.
  rewrite lookup_insert_ne by (unfold saturating_add, saturating_sub; lia).
  destruct (hashes s !! _) as [h|] eqn:Eh; [|apply lookup_insert_eq].
  assert (h ≠ hash_slow b) by (intros ->; by eapply Hf).
  destruct (<[_ := _]> (blocks s) !! h); simpl; [|apply lookup_insert_eq].
  by rewrite lookup_insert_ne, lookup_insert_eq.
Qed.
End chain_spec.

Section unwind_spec.
Context {ext : TxExternals} {Mined : Type}.
Implicit Types s : BlockchainStorage Mined.

(** One turn of the unwinding of a consistent chain: the block is gone, and
    the index of transactions is not touched, because the number was already
    removed from the index of hashes. *)
Lemma unwind_one_eq s removed i :
  (∀ h b, blocks s !! h = Some b → hashes s !! hd_number b = Some h) →
  unwind_one (s, removed) i =
    (with_blocks s
       (match hashes s !! i with Some h => delete h (blocks s) | None => blocks s end)
       (delete i (hashes s)) (transactions s),
     removed ++ match hashes s !! i ≫= λ h, blocks s !! h with Some b => [b] | None => [] end) ∨
  (∃ h b, hashes s !! i = Some h ∧ blocks s !! h = Some b ∧ hd_number b ≠ i).
Proof.
  intros Hbl. unfold unwind_one. destruct (hashes s !! i) as [h|] eqn:Hi; simpl.
  - destruct (blocks s !! h) as [b|] eqn:Hb; simpl.
    + destruct (decide (hd_number b = i)) as [E|E]; [left|right; eauto].
      unfold remove_block_transactions_by_number; simpl. by rewrite E, lookup_delete_eq.
    + left. by rewrite app_nil_r, (delete_id (blocks s) h Hb).
  - left. rewrite app_nil_r, delete_id by done. by destruct s.
Qed.

(** Blocks are filed under their own number. *)
Definition numbered s : Prop :=
  ∀ n h b, hashes s !! n = Some h → blocks s !! h = Some b → hd_number b = n.

Definition filed s : Prop := ∀ h b, blocks s !! h = Some b → hashes s !! hd_number b = Some h.

(** The effect of unwinding the numbers in [l]. *)
Record unwound (l : list Z) s s' (removed : list Block) : Prop := {
  uw_hashes : ∀ n, hashes s' !! n = if decide (n ∈ l) then None else hashes s !! n;
  uw_blocks : ∀ h b, blocks s' !! h = Some b ↔ blocks s !! h = Some b ∧ hd_number b ∉ l;
  uw_transactions : transactions s' = transactions s;
  uw_removed : removed = omap (λ n, hashes s !! n ≫= λ h, blocks s !! h) l;
  uw_rest : genesis_hash s' = genesis_hash s ∧ total_difficulty s' = total_difficulty s
}.

Lemma unwind_all s l :
  filed s → numbered s → NoDup l →
  ∃ s' removed, foldl unwind_one (s, []) l = (s', removed) ∧ unwound l s s' removed.
Proof.
  intros Hf Hnum. induction l as [|i l IH] using rev_ind; intros Hnd.
  { exists s, []. split; [done|]. split; try done.
    intros h b. split; [intros ?; split; [done|apply not_elem_of_nil]|naive_solver]. }
  apply NoDup_app in Hnd as (Hnd & Hi & _).
  assert (i ∉ l) as Hil by (intros ?; apply (Hi i); set_solver).
  destruct (IH Hnd) as (s1 & rm & E & [Hh Hb Htr Hr Hrest]). clear IH.
  rewrite foldl_app, E; cbn [foldl].
  assert (hashes s1 !! i = hashes s !! i) as Ei by (by rewrite Hh, decide_False).
  destruct (unwind_one_eq s1 rm i) as [E1|(h & b & Hi1 & Hb1 & Hne)].
  { intros h b [Hsb Hn]%Hb. rewrite Hh, decide_False by done. by apply Hf. }
  2: { exfalso. apply Hne. rewrite Ei in Hi1. apply Hb in Hb1 as [Hb1 _]. by eapply Hnum. }
  rewrite E1. eexists _, _. split; [done|]. split; simpl; try done.
  - intros n. rewrite lookup_delete, Hh. repeat case_decide; set_solver.
  - intros h b. rewrite Ei. destruct (hashes s !! i) as [hi|] eqn:Hsi.
    + rewrite lookup_delete_Some, Hb, not_elem_of_app, not_elem_of_cons. split.
      * intros (Hne & Hsb & Hn). split_and!; try done; [|apply not_elem_of_nil].
        intros E'. apply Hne. specialize (Hf _ _ Hsb). congruence.
      * intros (Hsb & Hn & Hne & _). split_and!; try done. intros ->.
        apply Hne. by eapply Hnum.
    + rewrite Hb, not_elem_of_app, not_elem_of_cons. split.
      * intros (Hsb & Hn). split_and!; try done; [|apply not_elem_of_nil].
        intros E'. specialize (Hf _ _ Hsb). congruence.
      * tauto.
  - rewrite Hr, omap_app, Ei. f_equal. simpl. destruct (hashes s !! i) as [h|] eqn:Hsi; simpl; [|done].
    destruct (blocks s1 !! h) as [b|] eqn:Hb1.
    + apply Hb in Hb1 as [-> _]. done.
    + destruct (blocks s !! h) as [b|] eqn:Hsb; [|done]. exfalso.
      assert (blocks s1 !! h = Some b) as Hs1; [|congruence].
      apply Hb. split; [done|]. by rewrite (Hnum _ _ _ Hsi Hsb).
Qed.
End unwind_spec.

(** ** Properties *)

(** Unwinding to a stored block. *)
Lemma unwind_to_stored {ext : TxExternals} {Mined : Type} (s : BlockchainStorage Mined)
    (number : Z) (hash : B256) :
  chain_inv s → numbered s → hashes s !! number = Some hash → best_number s ≤ umax 64 →
  number < umax 64 →
  let '(s', removed) := unwind_to s number hash in
  chain_inv s' ∧ best_number s' = number ∧ best_hash s' = hash ∧
  (∀ n, hashes s' !! n = if decide (number < n) then None else hashes s !! n) ∧
  (∀ h b, blocks s' !! h = Some b ↔ blocks s !! h = Some b ∧ hd_number b ≤ number) ∧
  removed = omap (λ n, hashes s !! n ≫= λ h, blocks s !! h)
    (seqZ (number + 1) (best_number s - number)) ∧
  transactions s' = transactions s.
Proof.
  intros [Hb Ht Hbl] Hnum Hn Hmax Hlt. unfold unwind_to. pose proof (Ht _ _ Hn) as Hn0.
  rewrite wrap_small by (unfold is_u; lia).
  replace (best_number s + 1 - (number + 1)) with (best_number s - number) by lia.
  destruct (unwind_all s (seqZ (number + 1) (best_number s - number)) Hbl Hnum)
    as (s1 & rm & -> & [Hh Hbk Htr Hr Hrest]); [apply NoDup_seqZ|].
  assert (∀ n, hashes s1 !! n = if decide (number < n) then None else hashes s !! n) as Hh'.
  { intros n. rewrite Hh. repeat case_decide; try done.
    - rewrite elem_of_seqZ in *. lia.
    - apply eq_None_not_Some. intros [h Hx]. rewrite elem_of_seqZ in *.
      specialize (Ht _ _ Hx). lia. }
  assert (∀ h b, blocks s1 !! h = Some b ↔ blocks s !! h = Some b ∧ hd_number b ≤ number) as Hbk'.
  { intros h b. rewrite Hbk, elem_of_seqZ. split; intros [Hsb Hx]; (split; [done|]); [|lia].
    specialize (Hbl _ _ Hsb). specialize (Ht _ _ Hbl). lia. }
  split_and!; simpl; try done. split; simpl.
  - by rewrite Hh', decide_False by lia.
  - intros n h. rewrite Hh'. case_decide; [done|]. intros Hx. specialize (Ht _ _ Hx). lia.
  - intros h b [Hsb Hx]%Hbk'. rewrite Hh', decide_False by lia. by apply Hbl.
Qed.

(** Unwinding a consistent chain to a lower block removes exactly the
    blocks above it, returns them in ascending order, makes the block the best
    one and keeps everything below; the transactions of the removed blocks stay
    in the index of mined transactions. *)
Theorem unwind_to_spec {ext : TxExternals} {Mined : Type} (s : BlockchainStorage Mined)
    (number : Z) (hash : B256) :
  chain_inv s → numbered s → hashes s !! number = Some hash → best_number s ≤ umax 64 →
  number < umax 64 →
  let '(s', removed) := unwind_to s number hash in
  chain_inv s' ∧ best_number s' = number ∧ best_hash s' = hash ∧
  (∀ n, hashes s' !! n = if decide (number < n) then None else hashes s !! n) ∧
  (∀ h b, blocks s' !! h = Some b ↔ blocks s !! h = Some b ∧ hd_number b ≤ number) ∧
  removed = omap (λ n, hashes s !! n ≫= λ h, blocks s !! h)
    (seqZ (number + 1) (best_number s - number)) ∧
  transactions s' = transactions s.
Proof. apply unwind_to_stored. Qed.

Definition ex_block (n : Z) : Block :=
  {| blk_header := ex_header n; blk_transactions := []; blk_ommers := [] |}.
Definition ex_hash_slow (b : Block) : B256 := 1000 + hd_number b.

Definition ex_chain : BlockchainStorage Z :=
  store_block (ext := ex_externals) id ex_hash_slow true None
    (storage_new ex_hash_slow (ex_block 0)) (ex_block 1) [77].

Lemma ex_genesis_inv : chain_inv (storage_new (Mined := Z) ex_hash_slow (ex_block 0)).
Proof.
  split; simpl.
  - by apply lookup_singleton_Some.
  - intros n h [<- _]%lookup_singleton_Some. done.
  - intros h b [<- <-]%lookup_singleton_Some. by apply lookup_singleton_Some.
Qed.

Lemma ex_chain_inv : chain_inv ex_chain.
Proof.
  exact (proj1 (store_block_inv (ext := ex_externals) id ex_hash_slow true
    (storage_new ex_hash_slow (ex_block 0)) (ex_block 1) [77] ex_genesis_inv
    ltac:(vm_compute; reflexivity) eq_refl eq_refl)).
Qed.

Lemma ex_chain_numbered : numbered ex_chain.
Proof.
  intros n h b. unfold ex_chain, store_block; simpl.
  rewrite lookup_insert_Some, lookup_singleton_Some, lookup_insert_Some, lookup_singleton_Some.
  intros [[<- <-]|[_ [<- <-]]] [[E <-]|[_ [E <-]]]; done.
Qed.

Lemma unwind_to_spec_witness :
  transactions (unwind_to (ext := ex_externals) ex_chain 0 1000).1 !! 77 = Some 77 ∧
  best_number (unwind_to (ext := ex_externals) ex_chain 0 1000).1 = 0.
Proof.
  pose proof (unwind_to_spec (ext := ex_externals) ex_chain 0 1000 ex_chain_inv ex_chain_numbered
    ltac:(vm_compute; reflexivity) ltac:(vm_compute; discriminate) ltac:(vm_compute; reflexivity))
    as H.
  destruct (unwind_to ex_chain 0 1000) as [s' removed].
  destruct H as (_ & H1 & _ & _ & _ & _ & H2). simpl. rewrite H1, H2. by vm_compute.
Defined.

(** a mined block with the next number becomes the best block, is found
    under its hash and its number and by the tag [latest], keeps the chain
    consistent, and its transactions are found under their hashes. *)
Theorem store_block_correct {ext : TxExternals} {Mined : Type} (mined_hash : Mined → B256)
    (hash_slow : Block → B256) (eip3675 : bool) (s : BlockchainStorage Mined) (b : Block)
    (mined : list Mined) :
  chain_inv s → best_number s < umax 64 → hd_number b = best_number s + 1 →
  blocks s !! hash_slow b = None →
  let s' := store_block mined_hash hash_slow eip3675 None s b mined in
  chain_inv s' ∧ blocks s' !! hash_slow b = Some b ∧
  storage_hash s' (Number (hd_number b)) = Some (hash_slow b) ∧
  storage_hash s' Latest = Some (hash_slow b) ∧
  (∀ m, m ∈ mined → NoDup (mined_hash <$> mined) → transactions s' !! mined_hash m = Some m).
Proof.
  intros Hi Hmax Hn Hf.
  destruct (store_block_inv mined_hash hash_slow eip3675 s b mined Hi Hmax Hn Hf)
    as (Hi' & Hbn & Hbh & Hb & Ht).
  split_and!; try done. rewrite Hn, <- Hbn, <- Hbh. exact (ch_best _ Hi').
Qed.

Lemma store_block_correct_witness :
  storage_hash ex_chain Latest = Some 1001 ∧ transactions ex_chain !! 77 = Some 77.
Proof.
  destruct (store_block_correct (ext := ex_externals) id ex_hash_slow true
    (storage_new ex_hash_slow (ex_block 0)) (ex_block 1) [77] ex_genesis_inv
    ltac:(vm_compute; reflexivity) eq_refl eq_refl) as (_ & _ & _ & H1 & H2).
  split; [exact H1|]. apply (H2 77); [by left|apply NoDup_singleton].
Defined.

(** ** Dumping and loading *)

(** Every block is filed under its hash, and its number leads back to it. *)
Record storage_coherent {Mined} (hash_slow : Block → B256) (s : BlockchainStorage Mined) : Prop := {
  sc_hash : ∀ h b, blocks s !! h = Some b → hash_slow b = h ∧ hashes s !! hd_number b = Some h;
  sc_number : ∀ n h, hashes s !! n = Some h → ∃ b, blocks s !! h = Some b ∧ hd_number b = n
}.

Lemma load_blocks_spec {Mined} (hash_slow : Block → B256) (l : list Block)
    (s : BlockchainStorage Mined) :
  NoDup (hash_slow <$> l) → NoDup (hd_number <$> l) →
  (∀ h, blocks (load_blocks hash_slow s l) !! h =
     match list_find (λ b, hash_slow b = h) l with Some (_, b) => Some b | None => blocks s !! h end) ∧
  (∀ n, hashes (load_blocks hash_slow s l) !! n =
     match list_find (λ b, hd_number b = n) l with
     | Some (_, b) => Some (hash_slow b) | None => hashes s !! n end) ∧
  transactions (load_blocks hash_slow s l) = transactions s.
Proof.
  revert s. induction l as [|b l IH]; intros s Hh Hn; [done|].
  rewrite fmap_cons in Hh, Hn. apply NoDup_cons in Hh as [Hb1 Hh]. apply NoDup_cons in Hn as [Hb2 Hn].
  destruct (IH (load_block hash_slow s b) Hh Hn) as (H1 & H2 & H3). clear IH.
  unfold load_blocks in *. cbn [foldl]. split_and!; [| |done].
  - intros h. rewrite H1. simpl. case_decide as E.
    + destruct (list_find _ l) as [[i b']|] eqn:Ef; simpl; [|by rewrite E, lookup_insert_eq].
      apply list_find_Some in Ef as (Hi & Eb & _). exfalso. apply Hb1. rewrite E, <- Eb.
      by eapply list_elem_of_fmap_2, list_elem_of_lookup_2.
    + destruct (list_find _ l) as [[i b']|]; simpl; [done|]. by rewrite lookup_insert_ne.
  - intros n. rewrite H2. simpl. case_decide as E.
    + destruct (list_find _ l) as [[i b']|] eqn:Ef; simpl; [|by rewrite E, lookup_insert_eq].
      apply list_find_Some in Ef as (Hi & Eb & _). exfalso. apply Hb2. rewrite E, <- Eb.
      by eapply list_elem_of_fmap_2, list_elem_of_lookup_2.
    + destruct (list_find _ l) as [[i b']|]; simpl; [done|]. by rewrite lookup_insert_ne.
Qed.

Lemma serialized_blocks_elem {order : HashOrder B256} {Mined} (s : BlockchainStorage Mined) b :
  b ∈ serialized_blocks s ↔ ∃ h, blocks s !! h = Some b.
Proof. apply map_iter_elem_of. Qed.

(** The serialized blocks of a coherent storage carry pairwise distinct hashes
    and numbers. *)
Lemma serialized_blocks_nodup {order : HashOrder B256} {Mined} (hash_slow : Block → B256)
    (s : BlockchainStorage Mined) :
  storage_coherent hash_slow s →
  NoDup (hash_slow <$> serialized_blocks s) ∧ NoDup (hd_number <$> serialized_blocks s).
Proof.
  intros [Hh _].
  assert (NoDup (serialized_blocks s)) as Hnd.
  { apply map_iter_NoDup. intros h1 h2 b H1 H2.
    by destruct (Hh _ _ H1) as [<- _], (Hh _ _ H2) as [<- _]. }
  split; apply NoDup_fmap_2_strong; try done;
    intros b1 b2 [h1 H1]%serialized_blocks_elem [h2 H2]%serialized_blocks_elem Heq;
    destruct (Hh _ _ H1) as [E1 N1], (Hh _ _ H2) as [E2 N2]; congruence.
Qed.

(** dumping the blocks of a coherent storage and loading them into an empty
    one, in whatever order the map enumerates them, restores both the blocks by
    hash and the hashes by number. *)
Theorem load_blocks_roundtrip {order : HashOrder B256} {Mined : Type}
    (hash_slow : Block → B256) (s : BlockchainStorage Mined) :
  storage_coherent hash_slow s →
  let s' := load_blocks hash_slow (storage_empty (Mined := Mined)) (serialized_blocks s) in
  blocks s' = blocks s ∧ hashes s' = hashes s.
Proof.
  intros Hc; simpl. destruct (serialized_blocks_nodup hash_slow s Hc) as [Hd1 Hd2].
  destruct Hc as [Hh Hn].
  destruct (load_blocks_spec hash_slow (serialized_blocks s) (storage_empty (Mined := Mined)) Hd1 Hd2)
    as (H1 & H2 & _).
  split; apply map_eq; intros k; [rewrite H1|rewrite H2];
    destruct (list_find _ _) as [[i b]|] eqn:Ef; simpl.
  - apply list_find_Some in Ef as (Hi & <- & _). apply list_elem_of_lookup_2 in Hi.
    apply serialized_blocks_elem in Hi as [h Hb]. by destruct (Hh _ _ Hb) as [-> _].
  - symmetry. apply eq_None_not_Some. intros [b Hb].
    apply list_find_None in Ef. rewrite Forall_forall in Ef.
    apply (Ef b); [apply serialized_blocks_elem; by exists k|by apply Hh].
  - apply list_find_Some in Ef as (Hi & <- & _). apply list_elem_of_lookup_2 in Hi.
    apply serialized_blocks_elem in Hi as [h Hb]. by destruct (Hh _ _ Hb) as [-> ->].
  - symmetry. apply eq_None_not_Some. intros [h Hk].
    apply list_find_None in Ef. rewrite Forall_forall in Ef. destruct (Hn _ _ Hk) as (b & Hb & E).
    apply (Ef b); [apply serialized_blocks_elem; by exists h|done].
Qed.

Lemma ex_chain_coherent : storage_coherent ex_hash_slow ex_chain.
Proof.
  split.
  - intros h b. unfold ex_chain, store_block; simpl.
    rewrite lookup_insert_Some, lookup_singleton_Some. by intros [[<- <-]|[_ [<- <-]]].
  - intros n h. unfold ex_chain, store_block; simpl.
    rewrite lookup_insert_Some, lookup_singleton_Some.
    intros [[<- <-]|[_ [<- <-]]]; eexists; (split; [by vm_compute|done]).
Qed.

Lemma load_blocks_roundtrip_witness :
  hashes (load_blocks ex_hash_slow (storage_empty (Mined := Z)) (serialized_blocks ex_chain))
    !! 1 = Some 1001.
Proof.
  destruct (load_blocks_roundtrip ex_hash_slow ex_chain ex_chain_coherent) as [_ H].
  rewrite H. by vm_compute.
Defined.
