(* ===== verification/Executor.v ===== *)
(** * The transaction executor (crates/anvil/src/eth/backend/executor.rs)

    [TransactionExecutor] turns a list of pool transactions into a block: its
    iterator decides for each transaction whether it fits into the block,
    whether it is valid, and runs it; [execute] gathers receipts and builds the
    header.  The database and revm's interpreter are the class [RevmDb]; printing
    of logs and traces is not modelled. *)

From stdpp Require Import prelude gmap list.
From S2P Require Import Prelude Transaction PendingPool Fees Env Cheats Validate Block.

Open Scope Z_scope.

(** ** Errors of revm and their conversion (crates/anvil/src/eth/error.rs) *)

(** [InvalidTransaction] of revm. *)
Inductive InvalidTransaction : Type :=
| RvInvalidChainId
| RvPriorityFeeGreaterThanMaxFee
| RvGasPriceLessThanBasefee
| RvCallerGasLimitMoreThanBlock
| RvCallGasCostMoreThanGasLimit
| RvGasFloorMoreThanGasLimit
| RvRejectCallerWithCode
| RvLackOfFundForMaxFee
| RvOverflowPaymentInTransaction
| RvNonceOverflowInTransaction
| RvCreateInitCodeSizeLimit
| RvNonceTooHigh
| RvNonceTooLow
| RvAccessListNotSupported
| RvBlobGasPriceGreaterThanMax
| RvBlobVersionedHashesNotSupported
| RvMaxFeePerBlobGasNotSupported
| RvBlobCreateTransaction
| RvBlobVersionNotSupported
| RvEmptyBlobs
| RvTooManyBlobs (have max : Z)
| RvAuthorizationListNotSupported
| RvTxGasLimitGreaterThanCap (gas_limit cap : Z)
| RvAuthorizationListInvalidFields
| RvEip1559NotSupported
| RvEip2930NotSupported
| RvEip4844NotSupported
| RvEip7702NotSupported
| RvEmptyAuthorizationList
| RvEip7873NotSupported
| RvEip7873MissingTarget
| RvMissingChainId.

Inductive OpTransactionError : Type :=
| OpBase (err : InvalidTransaction)
| DepositSystemTxPostRegolith
| HaltedDepositPostRegolith.

Section error_conversion.
Context {BlobError : Type}.

(** [From<InvalidTransaction> for InvalidTransactionError]. *)
Definition from_invalid_transaction (err : InvalidTransaction)
    : InvalidTransactionError BlobError InvalidTransaction :=
  match err with
  | RvInvalidChainId => InvalidChainId
  | RvPriorityFeeGreaterThanMaxFee => TipAboveFeeCap
  | RvGasPriceLessThanBasefee => FeeCapTooLow
  | RvCallerGasLimitMoreThanBlock => GasTooHigh CallerGasLimitMoreThanBlockDetail
  | RvCallGasCostMoreThanGasLimit => GasTooHigh CallGasCostMoreThanGasLimitDetail
  | RvGasFloorMoreThanGasLimit => GasTooHigh GasFloorMoreThanGasLimitDetail
  | RvRejectCallerWithCode => SenderNoEOA
  | RvLackOfFundForMaxFee => InsufficientFunds
  | RvOverflowPaymentInTransaction => GasUintOverflow
  | RvNonceOverflowInTransaction => NonceMaxValue
  | RvCreateInitCodeSizeLimit => MaxInitCodeSizeExceeded
  | RvNonceTooHigh => NonceTooHigh
  | RvNonceTooLow => NonceTooLow
  | RvAccessListNotSupported => AccessListNotSupported
  | RvBlobGasPriceGreaterThanMax => BlobFeeCapTooLow
  | RvBlobVersionedHashesNotSupported => BlobVersionedHashesNotSupported
  | RvMaxFeePerBlobGasNotSupported => MaxFeePerBlobGasNotSupported
  | RvBlobCreateTransaction => BlobCreateTransaction
  | RvBlobVersionNotSupported => BlobVersionNotSupported
  | RvEmptyBlobs => EmptyBlobs
  | RvTooManyBlobs have max => TooManyBlobs have max
  | RvAuthorizationListNotSupported => AuthorizationListNotSupported
  | RvTxGasLimitGreaterThanCap gas_limit cap => TxGasLimitGreaterThanCap gas_limit cap
  | RvAuthorizationListInvalidFields | RvEip1559NotSupported | RvEip2930NotSupported
  | RvEip4844NotSupported | RvEip7702NotSupported | RvEmptyAuthorizationList
  | RvEip7873NotSupported | RvEip7873MissingTarget | RvMissingChainId => Revm err
  end.

(** [From<OpTransactionError> for InvalidTransactionError]. *)
Definition from_op_error (value : OpTransactionError)
    : InvalidTransactionError BlobError InvalidTransaction :=
  match value with
  | OpBase err => from_invalid_transaction err
  | DepositSystemTxPostRegolith | HaltedDepositPostRegolith => DepositTxErrorPostRegolith
  end.
End error_conversion.

(** ** The virtual machine *)

Inductive Output : Type :=
| OutCall (data : Bytes)
| OutCreate (data : Bytes) (address : option Address).

Definition output_into_data (o : Output) : Bytes :=
  match o with OutCall d | OutCreate d _ => d end.

Record Log := { log_address : Bytes; log_topics : list Bytes; log_data : Bytes }.

(** The enumerations of revm, with the discriminant of [InstructionResult],
    the conversions into it, and the bloom filters of alloy (adding to a filter,
    and the filter of a receipt). *)
Class RevmTypes := {
  InstructionResult : Type;
  ir_code : InstructionResult → Z;
  ir_stop : InstructionResult;
  ir_self_destruct : InstructionResult;
  ir_revert : InstructionResult;
  SuccessReason : Type;
  success_into : SuccessReason → InstructionResult;
  HaltReason : Type;
  halt_into : HaltReason → InstructionResult;
  DatabaseError : Type;
  Traces : Type;
  bloom_accrue : Bytes → Bytes → Bytes;
  receipt_bloom : list Log → Bytes
}.

Inductive OpHaltReason {rt : RevmTypes} : Type :=
| HaltBase (h : HaltReason)
| FailedDeposit.

Inductive ExecutionResult {rt : RevmTypes} : Type :=
| ExSuccess (reason : SuccessReason) (gas_used : Z) (logs : list Log) (output : Output)
| ExRevert (gas_used : Z) (output : Bytes)
| ExHalt (reason : OpHaltReason) (gas_used : Z).

(** revm's errors of a block environment: the hardfork reads a field that is
    not set. *)
Inductive InvalidHeader : Type := PrevrandaoNotSet | ExcessBlobGasNotSet.

Inductive EVMError {rt : RevmTypes} : Type :=
| EvmDatabase (err : DatabaseError)
| EvmTransaction (err : OpTransactionError)
| EvmHeader (err : InvalidHeader)
| EvmCustom.

(** The precompiles installed on top of the hardfork's, in order. *)
Inductive PrecompileOverride : Type :=
| P256Verify
| CeloTransfer
| FactoryPrecompiles
| CheatEcrecover (cheats : CheatsState).

(** What the inspector records. *)
Record InspectorFlags := {
  steps_tracing : bool;
  log_collector : bool;
  trace_printer : bool
}.

Record EvmSetup := {
  es_env : EvmEnv;
  es_optimism : bool;
  es_celo : bool;
  es_inspector : InspectorFlags;
  es_precompiles : list PrecompileOverride
}.

(** [db.basic], [evm.transact_commit] with the traces of the inspector, and
    [db.maybe_state_root]. *)
Class RevmDb (Db : Type) {rt : RevmTypes} := {
  db_basic : Db → Address → Db * result (option AccountInfo) DatabaseError;
  transact_commit : Db → EvmSetup → OpTransaction → Db * result (ExecutionResult * Traces) EVMError;
  maybe_state_root : Db → option B256
}.

(** [op_haltreason_to_instruction_result] of backend/mem/mod.rs. *)
Definition op_haltreason_to_instruction_result {rt : RevmTypes} (op_reason : OpHaltReason)
    : InstructionResult :=
  match op_reason with HaltBase eth_h => halt_into eth_h | FailedDeposit => ir_stop end.

(** ** Receipts and transaction infos (crates/anvil/core/src/eth/transaction/mod.rs) *)

Record Receipt := {
  rc_status : bool;
  rc_cumulative_gas_used : Z;
  rc_logs : list Log;
  rc_bloom : Bytes
}.

Inductive TypedReceipt : Type :=
| RcLegacy (r : Receipt)
| RcEIP2930 (r : Receipt)
| RcEIP1559 (r : Receipt)
| RcEIP4844 (r : Receipt)
| RcEIP7702 (r : Receipt)
| RcDeposit (inner : Receipt) (deposit_nonce deposit_receipt_version : option Z).

Definition receipt_of (r : TypedReceipt) : Receipt :=
  match r with
  | RcLegacy r | RcEIP2930 r | RcEIP1559 r | RcEIP4844 r | RcEIP7702 r | RcDeposit r _ _ => r
  end.

Record TransactionInfo {rt : RevmTypes} := {
  inf_transaction_hash : B256;
  inf_transaction_index : Z;
  inf_from : Address;
  inf_to : option Address;
  inf_contract_address : option Address;
  inf_traces : Traces;
  inf_exit : InstructionResult;
  inf_out : option Bytes;
  inf_nonce : Z;
  inf_gas_used : Z
}.

Record ExecutedTransaction {rt : RevmTypes} := {
  xt_transaction : PoolTransaction;
  xt_exit_reason : InstructionResult;
  xt_out : option Output;
  xt_gas_used : Z;
  xt_logs : list Log;
  xt_traces : Traces;
  xt_nonce : Z
}.

Definition ptx_typed (t : PoolTransaction) : TypedTransaction :=
  mit_transaction (pt_transaction (pending_transaction t)).

(** [create_receipt]: the cumulative gas is updated and recorded. *)
Definition create_receipt {rt : RevmTypes} (tx : ExecutedTransaction) (cumulative_gas_used : Z)
    : Z * TypedReceipt :=
  let cumulative_gas_used := cumulative_gas_used +s[64] xt_gas_used tx in
  let status_code := ir_code (xt_exit_reason tx) <=? ir_code ir_self_destruct in
  let receipt_with_bloom :=
    {| rc_status := status_code; rc_cumulative_gas_used := cumulative_gas_used;
       rc_logs := xt_logs tx; rc_bloom := receipt_bloom (xt_logs tx) |} in
  (cumulative_gas_used,
   match ptx_typed (xt_transaction tx) with
   | Legacy _ => RcLegacy receipt_with_bloom
   | EIP2930 _ => RcEIP2930 receipt_with_bloom
   | EIP1559 _ => RcEIP1559 receipt_with_bloom
   | EIP4844 _ => RcEIP4844 receipt_with_bloom
   | EIP7702 _ => RcEIP7702 receipt_with_bloom
   | Deposit _ => RcDeposit receipt_with_bloom (Some 0) (Some 1)
   end).

(** [build_logs_bloom]. *)
Definition build_logs_bloom {rt : RevmTypes} (logs : list Log) (bloom : Bytes) : Bytes :=
  foldl (λ bloom log, foldl bloom_accrue (bloom_accrue bloom (log_address log)) (log_topics log))
    bloom logs.

(** ** The executor *)

(** The trait [TransactionValidator], of which the executor uses one method. *)
Class TransactionValidator (Error : Type) := {
  validator_check : PendingTransaction → AccountInfo → EvmEnv → outcome (result unit Error)
}.

(** The backend is the validator of the node. *)
Definition backend_validator {ext : TxExternals} {specs : SpecIds} {BlobError : Type}
    (blob_validate : TxEip4844Variant → result unit BlobError) (be : ValidationBackend)
    : TransactionValidator (InvalidTransactionError BlobError InvalidTransaction) :=
  {| validator_check := validate_pool_transaction_for blob_validate be |}.

(** The fields of [TransactionExecutor] that execution only reads. *)
Record ExecutorConfig := {
  xc_block_env : BlockEnv;
  xc_cfg_env : CfgEnv;
  xc_parent_hash : B256;
  xc_enable_steps_tracing : bool;
  xc_odyssey : bool;
  xc_optimism : bool;
  xc_celo : bool;
  xc_print_logs : bool;
  xc_print_traces : bool;
  xc_precompile_factory : bool;
  xc_max_blob_gas_per_block : Z;
  xc_cheats : CheatsState
}.

Section executor.
Context {ext : TxExternals} {specs : SpecIds} {bext : BlockExternals} {rt : RevmTypes}
  {Db : Type} {evm : RevmDb Db} {BlobError : Type}.
Abbreviation Error := (InvalidTransactionError BlobError InvalidTransaction).
Context {validator : TransactionValidator Error}.
(** revm's [TxEnv::default()] and [OpTransaction::new]; alloy's root of the
    receipt trie. *)
Context (txenv_default : TxEnv) (op_new : TxEnv → OpTransaction)
  (calculate_receipt_root : list TypedReceipt → B256).
Implicit Types x : ExecutorConfig.

Inductive TransactionExecutionOutcome : Type :=
| Executed (tx : ExecutedTransaction)
| Invalid (tx : PoolTransaction) (e : Error)
| BlockGasExhausted (tx : PoolTransaction)
| BlobGasExhausted (tx : PoolTransaction)
| TransactionGasExhausted (tx : PoolTransaction)
| DbErrorOutcome (tx : PoolTransaction) (e : DatabaseError).

(** The fields that change. *)
Record TransactionExecutor := {
  te_db : Db;
  te_pending : list PoolTransaction;
  te_gas_used : Z;
  te_blob_gas_used : Z
}.

Definition exec_env x : EvmEnv := {| env_cfg := xc_cfg_env x; env_blk := xc_block_env x |}.

(** [env_for]: the transaction part of the environment. *)
Definition env_for x (tx : PendingTransaction) : OpTransaction :=
  let tx_env := to_revm_tx_env txenv_default op_new tx in
  if xc_optimism x then
    {| op_base := op_base tx_env;
       op_enveloped_tx := Some (encode (mit_transaction (pt_transaction tx)));
       op_deposit := op_deposit tx_env |}
  else tx_env.

Definition evm_setup x : EvmSetup :=
  {| es_env := exec_env x;
     es_optimism := xc_optimism x;
     es_celo := xc_celo x;
     es_inspector :=
       {| steps_tracing := xc_enable_steps_tracing x; log_collector := xc_print_logs x;
          trace_printer := xc_print_traces x |};
     es_precompiles :=
       (if xc_odyssey x then [P256Verify] else []) ++
       (if xc_celo x then [CeloTransfer] else []) ++
       (if xc_precompile_factory x then [FactoryPrecompiles] else []) ++
       (if has_recover_overrides (xc_cheats x) then [CheatEcrecover (xc_cheats x)] else []) |}.

Definition result_parts (r : ExecutionResult)
    : InstructionResult * Z * option Output * option (list Log) :=
  match r with
  | ExSuccess reason gas_used logs output => (success_into reason, gas_used, Some output, Some logs)
  | ExRevert gas_used output => (ir_revert, gas_used, Some (OutCall output), None)
  | ExHalt reason gas_used => (op_haltreason_to_instruction_result reason, gas_used, None, None)
  end.

Definition with_db (st : TransactionExecutor) (db : Db) : TransactionExecutor :=
  {| te_db := db; te_pending := te_pending st; te_gas_used := te_gas_used st;
     te_blob_gas_used := te_blob_gas_used st |}.

(** [next] after the checks: run the transaction and account for its gas. *)
Definition transact x (st : TransactionExecutor) (transaction : PoolTransaction)
    (account : AccountInfo) : outcome (TransactionExecutionOutcome * TransactionExecutor) :=
  match transact_commit (te_db st) (evm_setup x) (env_for x (pending_transaction transaction)) with
  | (db, Err (EvmDatabase err)) => Ret (DbErrorOutcome transaction err, with_db st db)
  | (db, Err (EvmTransaction err)) => Ret (Invalid transaction (from_op_error err), with_db st db)
  | (_, Err (EvmHeader _)) | (_, Err EvmCustom) => Panic
  | (db, Ok (exec_result, traces)) =>
      let '(exit_reason, gas_used, out, logs) := result_parts exec_result in
      Ret (Executed {| xt_transaction := transaction; xt_exit_reason := exit_reason;
                       xt_out := out; xt_gas_used := gas_used; xt_logs := default [] logs;
                       xt_traces := traces; xt_nonce := acc_nonce account |},
           {| te_db := db; te_pending := te_pending st;
              te_gas_used := te_gas_used st +s[64] gas_used;
              te_blob_gas_used :=
                match blob_gas (ptx_typed transaction) with
                | Some blob_gas => te_blob_gas_used st +s[64] blob_gas
                | None => te_blob_gas_used st
                end |})
  end.

(** [acc.unwrap_or_default()]. *)
Definition account_default : AccountInfo := {| acc_nonce := 0; acc_balance := 0 |}.

(** [Iterator::next], for the transaction taken from [pending]. *)
Definition try_transaction x (st : TransactionExecutor) (transaction : PoolTransaction)
    : outcome (TransactionExecutionOutcome * TransactionExecutor) :=
  let pending := pending_transaction transaction in
  let '(db, basic) := db_basic (te_db st) (pt_sender pending) in
  let st := with_db st db in
  match basic with
  | Err err => Ret (DbErrorOutcome transaction err, st)
  | Ok acc =>
      let account := default account_default acc in
      let tx_env := env_for x pending in
      let max_block_gas := te_gas_used st +s[64] env_gas_limit (op_base tx_env) in
      if negb (cfg_disable_block_gas_limit (xc_cfg_env x)) &&
         (blk_gas_limit (xc_block_env x) <? max_block_gas)
      then Ret (BlockGasExhausted transaction, st)
      else if bool_decide (cfg_tx_gas_limit_cap (xc_cfg_env x) = None) &&
              (cfg_cap (xc_cfg_env x) <? gas_limit (ptx_typed transaction))
      then Ret (TransactionGasExhausted transaction, st)
      else if xc_max_blob_gas_per_block x <?
              te_blob_gas_used st +s[64] default 0 (blob_gas (ptx_typed transaction))
      then Ret (BlobGasExhausted transaction, st)
      else
        validator_check pending account (exec_env x) ≫= λ r,
        match r with
        | Err err => Ret (Invalid transaction err, st)
        | Ok _ => transact x st transaction account
        end
  end.

Definition executor_next x (st : TransactionExecutor)
    : outcome (option TransactionExecutionOutcome * TransactionExecutor) :=
  match te_pending st with
  | [] => Ret (None, st)
  | transaction :: rest =>
      '(o, st) ← try_transaction x
        {| te_db := te_db st; te_pending := rest; te_gas_used := te_gas_used st;
           te_blob_gas_used := te_blob_gas_used st |} transaction;
      Ret (Some o, st)
  end.

(** The local variables of [execute]. *)
Record Gathered := {
  ga_transactions : list MaybeImpersonatedTransaction;
  ga_infos : list TransactionInfo;
  ga_receipts : list TypedReceipt;
  ga_bloom : Bytes;
  ga_cumulative_gas_used : Z;
  ga_invalid : list PoolTransaction;
  ga_included : list PoolTransaction;
  ga_cumulative_blob_gas_used : option Z
}.

Record ExecutedTransactions := {
  et_block : Block;
  et_infos : list TransactionInfo;
  et_receipts : list TypedReceipt;
  et_included : list PoolTransaction;
  et_invalid : list PoolTransaction
}.

Definition gather_executed (is_cancun : bool) (g : Gathered) (tx : ExecutedTransaction) : Gathered :=
  let transaction := xt_transaction tx in
  let blob_gas_used :=
    if is_cancun then
      Some (default 0 (ga_cumulative_blob_gas_used g) +s[64]
            default 0 (blob_gas (ptx_typed transaction)))
    else ga_cumulative_blob_gas_used g in
  let '(cumulative_gas_used, receipt) := create_receipt tx (ga_cumulative_gas_used g) in
  let contract_address :=
    match xt_out tx with Some (OutCreate _ contract_address) => contract_address | _ => None end in
  let info :=
    {| inf_transaction_hash := ptx_hash transaction;
       inf_transaction_index := Z.of_nat (length (ga_infos g));
       inf_from := ptx_sender transaction;
       inf_to := to (ptx_typed transaction);
       inf_contract_address := contract_address;
       inf_traces := xt_traces tx;
       inf_exit := xt_exit_reason tx;
       inf_out := output_into_data <$> xt_out tx;
       inf_nonce := xt_nonce tx;
       inf_gas_used := xt_gas_used tx |} in
  {| ga_transactions := ga_transactions g ++ [pt_transaction (pending_transaction transaction)];
     ga_infos := ga_infos g ++ [info];
     ga_receipts := ga_receipts g ++ [receipt];
     ga_bloom := build_logs_bloom (xt_logs tx) (ga_bloom g);
     ga_cumulative_gas_used := cumulative_gas_used;
     ga_invalid := ga_invalid g;
     ga_included := ga_included g ++ [transaction];
     ga_cumulative_blob_gas_used := blob_gas_used |}.

Definition gather (is_cancun : bool) (g : Gathered) (o : TransactionExecutionOutcome) : Gathered :=
  match o with
  | Executed tx => gather_executed is_cancun g tx
  | Invalid tx _ =>
      {| ga_transactions := ga_transactions g; ga_infos := ga_infos g;
         ga_receipts := ga_receipts g; ga_bloom := ga_bloom g;
         ga_cumulative_gas_used := ga_cumulative_gas_used g;
         ga_invalid := ga_invalid g ++ [tx]; ga_included := ga_included g;
         ga_cumulative_blob_gas_used := ga_cumulative_blob_gas_used g |}
  | BlockGasExhausted _ | BlobGasExhausted _ | TransactionGasExhausted _
  | DbErrorOutcome _ _ => g
  end.

(** One turn of the loop of [execute]. *)
Definition execute_body x (s : TransactionExecutor * Gathered)
    : outcome (flow (TransactionExecutor * Gathered) (TransactionExecutor * Gathered)) :=
  let '(st, g) := s in
  '(o, st) ← executor_next x st;
  match o with
  | None => Ret (Break (st, g))
  | Some o => Ret (Continue (st, gather (CANCUN <=? cfg_spec (xc_cfg_env x)) g o))
  end.

Definition gather_init (is_cancun : bool) : Gathered :=
  {| ga_transactions := []; ga_infos := []; ga_receipts := []; ga_bloom := empty_bloom;
     ga_cumulative_gas_used := 0; ga_invalid := []; ga_included := [];
     ga_cumulative_blob_gas_used := if is_cancun then Some 0 else None |}.

(** [saturating_to::<u64>()]. *)
Definition saturating_to_u64 (v : Z) : Z := Z.min v (umax 64).

Definition executed_header x (g : Gathered) (db : Db) : PartialHeader :=
  let spec := cfg_spec (xc_cfg_env x) in
  let block_env := xc_block_env x in
  let is_shanghai := SHANGHAI <=? spec in
  let is_cancun := CANCUN <=? spec in
  let is_prague := PRAGUE <=? spec in
  {| ph_parent_hash := xc_parent_hash x;
     ph_beneficiary := blk_beneficiary block_env;
     ph_state_root := default 0 (maybe_state_root db);
     ph_receipts_root := calculate_receipt_root (ga_receipts g);
     ph_logs_bloom := ga_bloom g;
     ph_difficulty := blk_difficulty block_env;
     ph_number := saturating_to_u64 (blk_number block_env);
     ph_gas_limit := blk_gas_limit block_env;
     ph_gas_used := ga_cumulative_gas_used g;
     ph_timestamp := saturating_to_u64 (blk_timestamp block_env);
     ph_extra_data := [];
     ph_mix_hash := default 0 (blk_prevrandao block_env);
     ph_blob_gas_used := ga_cumulative_blob_gas_used g;
     ph_excess_blob_gas := if is_cancun then blk_blob_excess_gas block_env else None;
     ph_parent_beacon_block_root := if is_cancun then Some 0 else None;
     ph_nonce := 0;
     ph_base_fee := if LONDON <=? spec then Some (blk_basefee block_env) else None;
     ph_withdrawals_root := if is_shanghai then Some empty_withdrawals else None;
     ph_requests_hash := if is_prague then Some empty_requests_hash else None |}.

Definition execute x (st : TransactionExecutor) : outcome (Db * ExecutedTransactions) :=
  let is_cancun := CANCUN <=? cfg_spec (xc_cfg_env x) in
  '(st, g) ← run (S (length (te_pending st))) (execute_body x) (st, gather_init is_cancun);
  let block := block_new (executed_header x g (te_db st)) (ga_transactions g) in
  Ret (te_db st,
       {| et_block := block; et_infos := ga_infos g; et_receipts := ga_receipts g;
          et_included := ga_included g; et_invalid := ga_invalid g |}).
End executor.

(** ** Specification *)

(** The running totals of a list of gas amounts. *)
Fixpoint gas_prefix (total : Z) (l : list Z) : list Z :=
  match l with
  | [] => []
  | g :: l => (total +s[64] g) :: gas_prefix (total +s[64] g) l
  end.

Definition gas_total (l : list Z) : Z := foldl (saturating_add 64) 0 l.

Lemma gas_prefix_snoc total l g :
  gas_prefix total (l ++ [g]) = gas_prefix total l ++ [foldl (saturating_add 64) total l +s[64] g].
Proof. revert total. induction l as [|y l IH]; intros total; simpl; [done|]. by rewrite IH. Qed.

Section executor_spec.
Context {ext : TxExternals} {specs : SpecIds} {bext : BlockExternals} {rt : RevmTypes}
  {Db : Type} {evm : RevmDb Db} {BlobError : Type}.
Abbreviation Error := (InvalidTransactionError BlobError InvalidTransaction).
Context {validator : TransactionValidator Error}.
Context (txenv_default : TxEnv) (op_new : TxEnv → OpTransaction)
  (calculate_receipt_root : list TypedReceipt → B256).
Implicit Types (x : ExecutorConfig) (st : TransactionExecutor (Db := Db)) (g : Gathered).

(** The field of the environment an error of revm complains about is indeed
    needed by the hardfork and missing. *)
Definition header_lacks (e : EvmEnv) (err : InvalidHeader) : Prop :=
  match err with
  | PrevrandaoNotSet => MERGE ≤ cfg_spec (env_cfg e) ∧ blk_prevrandao (env_blk e) = None
  | ExcessBlobGasNotSet =>
      CANCUN ≤ cfg_spec (env_cfg e) ∧ blk_blob_excess_gas_and_price (env_blk e) = None
  end.

(** The environment has the fields its hardfork reads. *)
Definition header_complete (e : EvmEnv) : Prop := ∀ err, ¬ header_lacks e err.

(** revm charges at most the gas limit of a transaction; it reports a header
    error only for an environment that lacks the field; and an error of the
    last kind comes from a precompile of the factory, or from an Optimism
    transaction without its encoding. *)
Class RevmLaws : Prop := {
  evm_gas_bound : ∀ db setup tx db' res traces,
    transact_commit db setup tx = (db', Ok (res, traces)) →
    (result_parts res).1.1.2 ≤ env_gas_limit (op_base tx);
  evm_header_error : ∀ db setup tx db' err,
    transact_commit (Db := Db) db setup tx = (db', Err (EvmHeader err)) →
    header_lacks (es_env setup) err;
  evm_custom_error : ∀ db setup tx db',
    transact_commit (Db := Db) db setup tx = (db', Err EvmCustom) →
    FactoryPrecompiles ∈ es_precompiles setup ∨
    (es_optimism setup = true ∧ op_enveloped_tx tx = None)
}.

(** An executor none of whose transactions revm can fail in the way the
    executor panics on. *)
Definition no_panic x : Prop := header_complete (exec_env x) ∧ xc_precompile_factory x = false.

Lemma no_panic_header x db tx db' err :
  RevmLaws → no_panic x →
  transact_commit (Db := Db) db (evm_setup x) tx ≠ (db', Err (EvmHeader err)).
Proof. intros laws [Hh _] E%evm_header_error. exact (Hh err E). Qed.

Lemma no_panic_custom x db tx db' :
  RevmLaws → no_panic x →
  transact_commit db (evm_setup x) (env_for txenv_default op_new x tx) ≠ (db', Err EvmCustom).
Proof.
  intros laws [_ Hf] [Hin|[Ho Hn]]%evm_custom_error.
  - simpl in Hin. rewrite Hf in Hin. repeat case_match; set_solver.
  - simpl in Ho. unfold env_for in Hn. by rewrite Ho in Hn.
Qed.

(** A validator that answers. *)
Class ValidatorTotal : Prop := {
  validator_total : ∀ p a e, ∃ r : result unit Error, validator_check p a e = Ret r
}.

Definition outcome_tx (o : TransactionExecutionOutcome (BlobError := BlobError))
    : PoolTransaction :=
  match o with
  | Executed tx => xt_transaction tx
  | Invalid tx _ | BlockGasExhausted tx | BlobGasExhausted tx | TransactionGasExhausted tx
  | DbErrorOutcome tx _ => tx
  end.

(** The validator accepts the transaction in the environment of the block. *)
Definition accepted x (tx : PoolTransaction) : Prop :=
  ∃ account, validator_check (Error := Error) (pending_transaction tx) account (exec_env x) = Ret (Ok tt).

(** What one attempt does to the counters of the executor. *)
Definition attempted x st st' (o : TransactionExecutionOutcome (BlobError := BlobError)) : Prop :=
  match o with
  | Executed e =>
      te_gas_used st' = te_gas_used st +s[64] xt_gas_used e ∧
      te_blob_gas_used st' =
        te_blob_gas_used st +s[64] default 0 (blob_gas (ptx_typed (xt_transaction e))) ∧
      (cfg_disable_block_gas_limit (xc_cfg_env x) = false →
         te_gas_used st' ≤ blk_gas_limit (xc_block_env x)) ∧
      te_blob_gas_used st' ≤ xc_max_blob_gas_per_block x ∧
      accepted x (xt_transaction e)
  | _ => te_gas_used st' = te_gas_used st ∧ te_blob_gas_used st' = te_blob_gas_used st
  end.

Context {laws : RevmLaws} {vtotal : ValidatorTotal}.

Lemma transact_spec x st tx account :
  te_blob_gas_used st ≤ umax 64 →
  (cfg_disable_block_gas_limit (xc_cfg_env x) = false →
     te_gas_used st +s[64] env_gas_limit (op_base (env_for txenv_default op_new x (pending_transaction tx)))
       ≤ blk_gas_limit (xc_block_env x)) →
  te_blob_gas_used st +s[64] default 0 (blob_gas (ptx_typed tx)) ≤ xc_max_blob_gas_per_block x →
  accepted x tx →
  ensures (no_panic x) (transact txenv_default op_new x st tx account) (λ '(o, st'),
    outcome_tx o = tx ∧ te_pending st' = te_pending st ∧ attempted x st st' o).
Proof.
  intros Hb Hg Hbg Hacc. unfold transact.
  destruct (transact_commit _ _ _) as [db [[res traces]|[err|err|err|]]] eqn:E;
    [|done|done|by intros Hx; apply no_panic_header in E|by intros Hx; apply no_panic_custom in E].
  apply evm_gas_bound in E.
  destruct (result_parts res) as [[[exit gas] out] logs]; simpl in E.
  cbn. do 2 (split; [done|]). split_and!; try done.
  - destruct (blob_gas (ptx_typed tx)); simpl; [reflexivity|]. unfold saturating_add. lia.
  - intros Hd. specialize (Hg Hd). unfold saturating_add in *. lia.
  - destruct (blob_gas (ptx_typed tx)); simpl in *; [exact Hbg|]. unfold saturating_add in *. lia.
Qed.

Lemma try_transaction_spec x st tx :
  te_blob_gas_used st ≤ umax 64 →
  ensures (no_panic x) (try_transaction txenv_default op_new x st tx) (λ '(o, st'),
    outcome_tx o = tx ∧ te_pending st' = te_pending st ∧ attempted x st st' o).
Proof.
  intros Hb. unfold try_transaction.
  destruct (db_basic _ _) as [db [acc|err]]; [|done].
  case_if H1; [done|]. case_if H2; [done|]. case_if H3; [done|].
  destruct (validator_total (pending_transaction tx) (default account_default acc) (exec_env x))
    as [[[]|err] Hv]; rewrite Hv; simpl; [|done].
  eapply ensures_mono; [apply (transact_spec x (with_db st db))|done|done]; simpl in *.
  - done.
  - intros Hd. rewrite Hd in H1. simpl in *. lia.
  - lia.
  - by eexists.
Qed.

(** What [execute] has gathered after the transactions [done]. *)
Record gathered x (done : list PoolTransaction) st g : Prop := {
  gd_fate : ∃ skipped, done ≡ₚ ga_included g ++ ga_invalid g ++ skipped;
  gd_included : ga_included g `sublist_of` done;
  gd_invalid : ga_invalid g `sublist_of` done;
  gd_transactions :
    ga_transactions g = (λ t, pt_transaction (pending_transaction t)) <$> ga_included g;
  gd_hashes : inf_transaction_hash <$> ga_infos g = ptx_hash <$> ga_included g;
  gd_indices : inf_transaction_index <$> ga_infos g = seqZ 0 (Z.of_nat (length (ga_infos g)));
  gd_receipts : (λ r, rc_cumulative_gas_used (receipt_of r)) <$> ga_receipts g =
    gas_prefix 0 (inf_gas_used <$> ga_infos g);
  gd_gas : ga_cumulative_gas_used g = gas_total (inf_gas_used <$> ga_infos g);
  gd_counter : te_gas_used st = ga_cumulative_gas_used g;
  gd_limit : cfg_disable_block_gas_limit (xc_cfg_env x) = false →
    ga_cumulative_gas_used g ≤ blk_gas_limit (xc_block_env x);
  gd_blob : ga_cumulative_blob_gas_used g =
    if CANCUN <=? cfg_spec (xc_cfg_env x) then Some (te_blob_gas_used st) else None;
  gd_blob_u64 : te_blob_gas_used st ≤ umax 64;
  gd_blob_limit : te_blob_gas_used st ≤ xc_max_blob_gas_per_block x;
  gd_accepted : Forall (accepted x) (ga_included g)
}.

(** A transaction that is not included changes nothing but the list of the
    invalid ones. *)
Lemma gathered_skip x done st st' g o :
  gathered x done st g → attempted x st st' o →
  (∀ e, o ≠ Executed e) →
  gathered x (done ++ [outcome_tx o]) st' (gather (CANCUN <=? cfg_spec (xc_cfg_env x)) g o).
Proof.
  intros [[sk Hsk]] Ha Hne.
  assert (te_gas_used st' = te_gas_used st ∧ te_blob_gas_used st' = te_blob_gas_used st)
    as [E1 E2] by (destruct o; [by destruct (Hne tx)|exact Ha..]).
  destruct o as [e|tx e|tx|tx|tx|tx e]; [by destruct (Hne e)|..]; split; simpl; try done;
    rewrite ?E1, ?E2; try done; try by apply sublist_inserts_r.
  2: by apply sublist_app.
  1: exists sk; rewrite Hsk; solve_Permutation.
  all: exists (sk ++ [tx]); rewrite Hsk; solve_Permutation.
Qed.

Lemma create_receipt_gas e total :
  (create_receipt e total).1 = total +s[64] xt_gas_used e ∧
  rc_cumulative_gas_used (receipt_of (create_receipt e total).2) = total +s[64] xt_gas_used e.
Proof. unfold create_receipt. split; [done|]. by destruct (ptx_typed _). Qed.

Lemma gathered_executed x done st st' g e :
  gathered x done st g → attempted x st st' (Executed e) →
  gathered x (done ++ [xt_transaction e]) st'
    (gather_executed (CANCUN <=? cfg_spec (xc_cfg_env x)) g e).
Proof.
  intros [[sk Hsk] Hin Hinv Htx Hh Hix Hrc Hgas Hct Hlim Hb Hb64 Hbl Hacc] (A1 & A2 & A3 & A4 & A5).
  destruct (create_receipt_gas e (ga_cumulative_gas_used g)) as [R1 R2].
  unfold gather_executed. destruct (create_receipt e _) as [c r]; simpl in R1, R2. subst c.
  split; simpl; rewrite ?fmap_app, ?length_app; simpl; try done.
  - exists sk. rewrite Hsk. solve_Permutation.
  - by apply sublist_app.
  - by apply sublist_inserts_r.
  - by rewrite Htx.
  - by rewrite Hh.
  - rewrite Hix, Nat2Z.inj_add, seqZ_app by lia. done.
  - rewrite gas_prefix_snoc, Hrc, R2, Hgas. done.
  - unfold gas_total. rewrite foldl_app. simpl. by rewrite Hgas.
  - rewrite A1. congruence.
  - intros Hd. rewrite <- Hct, <- A1. by apply A3.
  - rewrite A2, Hb. by destruct (CANCUN <=? _).
  - rewrite A2. unfold saturating_add. lia.
  - apply Forall_app_2; [done|]. by apply Forall_singleton.
Qed.

Lemma gathered_init x st :
  te_gas_used st = 0 → te_blob_gas_used st = 0 →
  0 ≤ blk_gas_limit (xc_block_env x) → 0 ≤ xc_max_blob_gas_per_block x →
  gathered x [] st (gather_init (CANCUN <=? cfg_spec (xc_cfg_env x))).
Proof.
  intros E1 E2 Hl Hm. split; simpl; rewrite ?E1, ?E2; try done.
  by exists [].
Qed.

(** The next transaction is taken from the list and tried. *)
Lemma executor_next_spec x st tx rest :
  te_pending st = tx :: rest → te_blob_gas_used st ≤ umax 64 →
  ensures (no_panic x) (executor_next txenv_default op_new x st) (λ '(r, st'),
    ∃ o, r = Some o ∧ outcome_tx o = tx ∧ te_pending st' = rest ∧ attempted x st st' o).
Proof.
  intros Hp Hb. unfold executor_next. rewrite Hp.
  eapply ensures_bind; [apply (try_transaction_spec x _ tx); exact Hb|].
  intros [o st'] (H1 & H2 & H3). exists o. by split_and!; [..|destruct o].
Qed.

(** One turn of the loop keeps [gathered] for one more transaction. *)
Lemma execute_body_spec x done tx rest st g :
  te_pending st = tx :: rest → gathered x done st g →
  ensures (no_panic x) (execute_body txenv_default op_new x (st, g)) (λ f,
    ∃ st' g', f = Continue (st', g') ∧ te_pending st' = rest ∧ gathered x (done ++ [tx]) st' g').
Proof.
  intros Hp Hg. unfold execute_body.
  eapply ensures_bind; [apply (executor_next_spec x st tx rest Hp), Hg|].
  intros [r st'] (o & -> & <- & Hr & Ha). simpl. eexists _, _. split; [reflexivity|].
  split; [done|]. destruct o; [by eapply gathered_executed|by eapply gathered_skip..].
Qed.

Lemma execute_loop_spec x st g :
  gathered x [] st g →
  ensures (no_panic x)
    (run (S (length (te_pending st))) (execute_body txenv_default op_new x) (st, g))
    (λ s, gathered x (te_pending st) s.1 s.2).
Proof.
  intros Hg. set (l := te_pending st).
  apply (run_ensures (no_panic x)
    (λ s, ∃ done, l = done ++ te_pending s.1 ∧ gathered x done s.1 s.2)
    (λ s, gathered x l s.1 s.2) (λ s, length (te_pending s.1))).
  - intros [s gs] (done & Hl & Hd); simpl in *.
    destruct (te_pending s) as [|tx rest] eqn:Hp.
    + unfold execute_body, executor_next. rewrite Hp. simpl.
      rewrite app_nil_r in Hl. by rewrite Hl.
    + eapply ensures_mono; [by apply execute_body_spec|done|].
      intros f (s' & g' & -> & Hr & Hg'). simpl. rewrite Hr. split; [|simpl; lia].
      exists (done ++ [tx]). by rewrite <- app_assoc.
  - by exists [].
  - simpl. subst l. lia.
Qed.

(** What the block made of the transactions [pending] is. *)
Record block_executed x (pending : list PoolTransaction) (r : ExecutedTransactions) : Prop := {
  be_fate : ∃ skipped, pending ≡ₚ et_included r ++ et_invalid r ++ skipped;
  be_included : et_included r `sublist_of` pending;
  be_invalid : et_invalid r `sublist_of` pending;
  be_accepted : Forall (accepted x) (et_included r);
  be_transactions : blk_transactions (et_block r) =
    (λ t, pt_transaction (pending_transaction t)) <$> et_included r;
  be_hashes : inf_transaction_hash <$> et_infos r = ptx_hash <$> et_included r;
  be_indices : inf_transaction_index <$> et_infos r = seqZ 0 (Z.of_nat (length (et_included r)));
  be_receipts : (λ t, rc_cumulative_gas_used (receipt_of t)) <$> et_receipts r =
    gas_prefix 0 (inf_gas_used <$> et_infos r);
  be_gas : h_gas_used (blk_header (et_block r)) = gas_total (inf_gas_used <$> et_infos r);
  be_header : h_parent_hash (blk_header (et_block r)) = xc_parent_hash x ∧
    h_number (blk_header (et_block r)) = saturating_to_u64 (blk_number (xc_block_env x)) ∧
    h_timestamp (blk_header (et_block r)) = saturating_to_u64 (blk_timestamp (xc_block_env x)) ∧
    h_gas_limit (blk_header (et_block r)) = blk_gas_limit (xc_block_env x);
  be_limit : cfg_disable_block_gas_limit (xc_cfg_env x) = false →
    h_gas_used (blk_header (et_block r)) ≤ h_gas_limit (blk_header (et_block r));
  be_blob : match h_blob_gas_used (blk_header (et_block r)) with
            | Some b => CANCUN ≤ cfg_spec (xc_cfg_env x) ∧ b ≤ xc_max_blob_gas_per_block x
            | None => cfg_spec (xc_cfg_env x) < CANCUN
            end
}.

Lemma gathered_block x pending st g :
  gathered x pending st g →
  block_executed x pending
    {| et_block := block_new (executed_header calculate_receipt_root x g (te_db st))
                     (ga_transactions g);
       et_infos := ga_infos g; et_receipts := ga_receipts g;
       et_included := ga_included g; et_invalid := ga_invalid g |}.
Proof.
  intros []. split; simpl; try done.
  - assert (length (ga_infos g) = length (ga_included g)) as <-; [|done].
    by rewrite <- (length_fmap inf_transaction_hash), gd_hashes0, length_fmap.
  - rewrite gd_blob0. destruct (CANCUN <=? _) eqn:E; [split|]; lia.
Qed.

(** Execution ends with a block, or panics for one of the known reasons. *)
Lemma execute_ensures x st :
  te_gas_used st = 0 → te_blob_gas_used st = 0 →
  0 ≤ blk_gas_limit (xc_block_env x) → 0 ≤ xc_max_blob_gas_per_block x →
  ensures (no_panic x) (execute txenv_default op_new calculate_receipt_root x st)
    (λ '(db, r), block_executed x (te_pending st) r).
Proof.
  intros E1 E2 Hl Hm. unfold execute.
  eapply ensures_bind; [apply (execute_loop_spec x st), gathered_init; done|].
  intros [st' g] Hg. by eapply gathered_block.
Qed.

Lemma execute_spec x st :
  no_panic x → te_gas_used st = 0 → te_blob_gas_used st = 0 →
  0 ≤ blk_gas_limit (xc_block_env x) → 0 ≤ xc_max_blob_gas_per_block x →
  ∃ db r, execute txenv_default op_new calculate_receipt_root x st = Ret (db, r) ∧
    block_executed x (te_pending st) r.
Proof.
  intros Hx E1 E2 Hl Hm.
  destruct (ensures_total _ _ _ (execute_ensures x st E1 E2 Hl Hm) Hx) as ([db r] & E & Hr).
  by exists db, r.
Qed.

(** What reads and commits keep, a block keeps. *)
Lemma execute_keeps (P : Db → Prop) x st db r :
  (∀ db a, P db → P (db_basic db a).1) →
  (∀ db setup tx, P db → P (transact_commit db setup tx).1) →
  P (te_db st) →
  execute txenv_default op_new calculate_receipt_root x st = Ret (db, r) → P db.
Proof.
  intros Hb Hc HP. unfold execute. intros (s & Er & E)%bind_Ret_inv.
  destruct s as [st' g]. injection E as <- _.
  refine (run_keeps (λ s, P (te_db s.1)) (λ s, P (te_db s.1)) _ _ _ _ _ _ Er); [|done].
  clear -Hb Hc. intros [st g] f HP. unfold execute_body, executor_next.
  destruct (te_pending st) as [|t rest]; [by intros [= <-]|].
  intros (p & Ep & Ef)%bind_Ret_inv. apply bind_Ret_inv in Ep as ([o1 st3] & Et & Ep).
  simplify_eq/=. unfold try_transaction in Et. cbn [te_db] in Et.
  pose proof (Hb (te_db st) (pt_sender (pending_transaction t)) HP) as Hb'.
  destruct (db_basic _ _) as [db1 [acc|err]]; [|by injection Et as <- <-].
  repeat case_match; try (injection Et as <- <-; done).
  apply bind_Ret_inv in Et as ([u|e] & _ & Et); [|by injection Et as <- <-].
  unfold transact in Et. cbn [te_db with_db] in Et.
  pose proof (Hc db1 (evm_setup x) (env_for txenv_default op_new x (pending_transaction t)) Hb') as Hc'.
  destruct (transact_commit _ _ _) as [db2 [[er tr]|[]]]; repeat case_match; simplify_eq/=; done.
Qed.
End executor_spec.

(** A backend whose chain id fits into 64 bits answers every request. *)
Lemma backend_validator_total {ext : TxExternals} {specs : SpecIds} {BlobError : Type}
    (blob_validate : TxEip4844Variant → result unit BlobError) (be : ValidationBackend) :
  be_chain_id be ≤ umax 64 →
  ValidatorTotal (validator := backend_validator blob_validate be).
Proof.
  intros Hc. constructor. intros p a e. simpl. unfold validate_pool_transaction_for.
  replace (be_chain_id be <=? umax 64) with true by (symmetry; by apply Z.leb_le).
  rewrite orb_true_r. by eexists.
Qed.

(** C3: in a block environment that has the fields its hardfork reads
    (prevrandao from the merge on, the excess blob gas from Cancun on) and
    without precompiles of a factory, executing a list of pool transactions
    always ends with a block; every transaction is included, invalid or skipped,
    in the order of the list; the included ones passed the validator and are
    exactly the transactions of the block, with consecutive indices; the
    receipts carry the running totals of the gas, the header their total, which
    stays within the block gas limit unless that check is off, and the blob gas
    within the blob limit. *)
Theorem execute_correct {ext : TxExternals} {specs : SpecIds} {bext : BlockExternals}
    {rt : RevmTypes} {Db : Type} {evm : RevmDb Db} {BlobError : Type}
    {validator : TransactionValidator (InvalidTransactionError BlobError InvalidTransaction)}
    {laws : RevmLaws} {vtotal : ValidatorTotal}
    (txenv_default : TxEnv) (op_new : TxEnv → OpTransaction)
    (calculate_receipt_root : list TypedReceipt → B256)
    (x : ExecutorConfig) (st : TransactionExecutor) :
  no_panic x → te_gas_used st = 0 → te_blob_gas_used st = 0 →
  0 ≤ blk_gas_limit (xc_block_env x) → 0 ≤ xc_max_blob_gas_per_block x →
  ∃ db r, execute txenv_default op_new calculate_receipt_root x st = Ret (db, r) ∧
    block_executed x (te_pending st) r.
Proof. by apply execute_spec. Qed.

(** A machine that checks the block environment as revm does and charges 21000
    gas, or the gas limit when that is lower. *)
Definition ex_revm_types : RevmTypes :=
  {| InstructionResult := Z; ir_code := id; ir_stop := 1; ir_self_destruct := 3; ir_revert := 16;
     SuccessReason := unit; success_into := λ _, 1; HaltReason := unit; halt_into := λ _, 32;
     DatabaseError := unit; Traces := unit; bloom_accrue := λ b _, b; receipt_bloom := λ _, [] |}.

Definition ex_header_check (e : EvmEnv) : option InvalidHeader :=
  if (MERGE (SpecIds := ex_specs) <=? cfg_spec (env_cfg e)) &&
     bool_decide (blk_prevrandao (env_blk e) = None) then Some PrevrandaoNotSet
  else if (CANCUN (SpecIds := ex_specs) <=? cfg_spec (env_cfg e)) &&
     bool_decide (is_Some (blk_blob_excess_gas_and_price (env_blk e))) then None
  else if CANCUN (SpecIds := ex_specs) <=? cfg_spec (env_cfg e) then Some ExcessBlobGasNotSet
  else None.

Lemma ex_header_check_lacks e err :
  ex_header_check e = Some err → header_lacks (specs := ex_specs) e err.
Proof.
  unfold ex_header_check. destruct e as [cfg blk]; simpl.
  destruct (blk_prevrandao blk) eqn:E1, (blk_blob_excess_gas_and_price blk) eqn:E2; simpl;
    rewrite ?andb_false_r, ?andb_true_r; repeat case_match; intros [= <-]; simpl in *; split; done || lia.
Qed.

Definition ex_revm : RevmDb (rt := ex_revm_types) unit :=
  Build_RevmDb unit ex_revm_types
    (λ db _, (db, Ok (Some {| acc_nonce := 3; acc_balance := 1000000 |})))
    (λ db setup tx, (db,
       match ex_header_check (es_env setup) with
       | Some err => Err (EvmHeader err)
       | None => Ok (ExSuccess (rt := ex_revm_types) tt
           (Z.min 21000 (env_gas_limit (op_base tx))) [] (OutCall []), tt)
       end))
    (λ _, None).

Lemma ex_revm_laws : RevmLaws (specs := ex_specs) (rt := ex_revm_types) (evm := ex_revm).
Proof.
  constructor; simpl.
  - intros db setup tx db' res traces. case_match; intros [= _ <-]. simpl. lia.
  - intros db setup tx db' err. case_match eqn:E; intros [= _ <-]. by apply ex_header_check_lacks.
  - intros db setup tx db'. by case_match.
Qed.

Definition ex_config : ExecutorConfig :=
  {| xc_block_env := env_blk ex_venv; xc_cfg_env := env_cfg ex_venv; xc_parent_hash := 1000;
     xc_enable_steps_tracing := false; xc_odyssey := false; xc_optimism := false;
     xc_celo := false; xc_print_logs := false; xc_print_traces := false;
     xc_precompile_factory := false; xc_max_blob_gas_per_block := 786432;
     xc_cheats := cheats_default |}.

Definition ex_executor : TransactionExecutor :=
  {| te_db := tt; te_pending := [pool_tx_new (ex_legacy 31337); pool_tx_new (ex_legacy 31337)];
     te_gas_used := 0; te_blob_gas_used := 0 |}.

Lemma ex_config_no_panic : no_panic (specs := ex_specs) ex_config.
Proof. split; [|done]. by intros []; simpl; intros [_ ?]. Qed.

Definition ex_execute : outcome (unit * ExecutedTransactions (rt := ex_revm_types)) :=
  execute (ext := ex_externals) (specs := ex_specs) (bext := ex_block_externals)
    (rt := ex_revm_types) (evm := ex_revm)
    (validator := backend_validator (ext := ex_externals) (specs := ex_specs)
       (λ _, Ok tt : result unit unit) ex_backend)
    ex_txenv ex_op_new (λ l, Z.of_nat (length l)) ex_config ex_executor.

Lemma execute_correct_witness :
  ∃ db r, ex_execute = Ret (db, r) ∧ length (et_included r) = 2%nat ∧
    h_gas_used (blk_header (et_block r)) = gas_total (inf_gas_used <$> et_infos r).
Proof.
  destruct (execute_correct (ext := ex_externals) (specs := ex_specs)
    (bext := ex_block_externals) (rt := ex_revm_types) (evm := ex_revm)
    (validator := backend_validator (ext := ex_externals) (specs := ex_specs)
       (λ _, Ok tt : result unit unit) ex_backend)
    (laws := ex_revm_laws)
    (vtotal := backend_validator_total (ext := ex_externals) (specs := ex_specs)
       (λ _, Ok tt : result unit unit) ex_backend ltac:(vm_compute; discriminate))
    ex_txenv ex_op_new (λ l, Z.of_nat (length l)) ex_config ex_executor
    ex_config_no_panic eq_refl eq_refl ltac:(vm_compute; discriminate) ltac:(vm_compute; discriminate))
    as (db & r & E & H).
  exists db, r. split; [exact E|]. split; [|apply H].
  vm_compute in E. injection E as _ <-. reflexivity.
Defined.
