(* ===== verification/Mine.v ===== *)
(** * Mining a block (crates/anvil/src/eth/backend/mem/mod.rs, [do_mine_block])

    The backend puts the components together: the fee manager and the clock set
    up the environment of the block, the current state is archived, the
    executor runs the transactions, and the block, the fees and the environment
    are updated.  The notification of listeners is not modelled. *)

From stdpp Require Import prelude gmap list.
From S2P Require Import Prelude Containers Transaction PendingPool ReadyPool Pool Fees Env TimeManager Cheats Validate BlockStates Block Chain Executor.

Open Scope Z_scope.

(** [BlobParams] of alloy, per hardfork. *)
Record BlobParams := { bp_max_blob_count : Z; bp_max_blob_gas_per_block : Z }.

(** Code of alloy and revm the backend calls: the fee formulas, the blob
    parameters, the chains of the Arbitrum family, the update fraction of the
    blob base fee and the price for an excess of blob gas.  Of chrono:
    [DateTime::from_timestamp], by the year of the date, which has dates of
    years that are not negative for the seconds up to a limit. *)
Class BackendExternals := {
  calc_base_fee : Z → Z → Z → Z;
  calc_excess_blob_gas : Z → Z → Z;
  blob_params_cancun : BlobParams;
  blob_params_prague : BlobParams;
  blob_params_osaka : BlobParams;
  is_arbitrum : Z → bool;
  blob_fraction_prague : Z;
  blob_fraction_cancun : Z;
  blob_excess_new : Z → Z → BlobExcessGasAndPrice;
  from_timestamp : Z → option Z;
  utc_max : Z;
  from_timestamp_year : ∀ secs, 0 ≤ secs ≤ utc_max →
    ∃ year, from_timestamp secs = Some year ∧ 0 ≤ year;
  utc_max_i64 : 0 ≤ utc_max < 2 ^ 63
}.

(** The database beside [RevmDb]: [current_state] and [insert_block_hash]. *)
Class StateOps (Db StateDb : Type) := {
  current_state : Db → StateDb;
  insert_block_hash : Db → Z → B256 → Db
}.

Record MinedTransaction {rt : RevmTypes} := {
  mined_info : TransactionInfo;
  mined_receipt : TypedReceipt;
  mined_block_hash : B256;
  mined_block_number : Z
}.

(** The part of the configuration mining reads. *)
Record BackendConfig := {
  bc_enable_steps_tracing : bool;
  bc_print_logs : bool;
  bc_print_traces : bool;
  bc_odyssey : bool;
  bc_optimism : bool;
  bc_celo : bool;
  bc_precompile_factory : bool;
  bc_transaction_block_keeper : option Z;
  bc_prune_enabled : bool;
  bc_max_memory_history : option nat
}.

(** [PruneStateHistoryConfig::is_state_history_supported]. *)
Definition is_state_history_supported (c : BackendConfig) : bool :=
  negb (bc_prune_enabled c) || bool_decide (is_Some (bc_max_memory_history c)).

Section mine.
Context {ext : TxExternals} {specs : SpecIds} {bext : BlockExternals} {rt : RevmTypes}
  {Db StateDb Snapshot Disk : Type} {evm : RevmDb Db} {sdb : StateDbOps StateDb Snapshot}
  {dc : FileSystem Disk Snapshot} {sops : StateOps Db StateDb} {kext : BackendExternals}
  {BlobError : Type} (blob_validate : TxEip4844Variant → result unit BlobError).
Context (txenv_default : TxEnv) (op_new : TxEnv → OpTransaction)
  (calculate_receipt_root : list TypedReceipt → B256).

Record Backend := {
  bk_env : EvmEnv;
  bk_fees : FeeManager;
  bk_time : TimeManager;
  bk_cheats : CheatsState;
  bk_chain : BlockchainStorage MinedTransaction;
  bk_states : BlockStates StateDb Disk;
  bk_db : Db;
  bk_disable_pool_balance_checks : bool
}.
Implicit Types (b : Backend) (c : BackendConfig).

Definition spec_id b : Z := cfg_spec (env_cfg (bk_env b)).
Definition is_eip3675 b : bool := MERGE <=? spec_id b.

Definition blob_params b : BlobParams :=
  if OSAKA <=? spec_id b then blob_params_osaka
  else if PRAGUE <=? spec_id b then blob_params_prague
  else blob_params_cancun.

(** [get_blob_base_fee_update_fraction_by_spec_id] (crates/evm/core/src/utils.rs). *)
Definition blob_fraction (spec : Z) : Z :=
  if PRAGUE <=? spec then blob_fraction_prague else blob_fraction_cancun.

(** The backend as the validator of its executor. *)
Definition validation_backend b : ValidationBackend :=
  {| be_chain_id := cfg_chain_id (env_cfg (bk_env b)); be_cheats := bk_cheats b;
     be_max_blob_count := bp_max_blob_count (blob_params b);
     be_disable_pool_balance_checks := bk_disable_pool_balance_checks b |}.

(** The environment of the next block, up to its timestamp. *)
Definition mining_env b : EvmEnv :=
  let cfg := env_cfg (bk_env b) in
  let blk := env_blk (bk_env b) in
  let block_number := best_number (bk_chain b) +s[64] 1 in
  {| env_cfg :=
       {| cfg_spec := cfg_spec cfg; cfg_chain_id := cfg_chain_id cfg;
          cfg_disable_block_gas_limit := cfg_disable_block_gas_limit cfg;
          cfg_disable_base_fee := (blk_basefee blk =? 0) || cfg_disable_base_fee cfg;
          cfg_tx_gas_limit_cap := cfg_tx_gas_limit_cap cfg; cfg_cap := cfg_cap cfg |};
     env_blk :=
       {| blk_number :=
            if is_arbitrum (cfg_chain_id cfg) then block_number else blk_number blk +s[256] 1;
          blk_beneficiary := blk_beneficiary blk; blk_timestamp := blk_timestamp blk;
          blk_gas_limit := blk_gas_limit blk; blk_basefee := base_fee (bk_fees b);
          blk_difficulty := blk_difficulty blk;
          blk_prevrandao :=
            Some (keccak256 (be_bytes 32 (best_hash (bk_chain b)) ++ le_bytes 8 block_number));
          blk_blob_excess_gas_and_price := excess_blob_gas_and_price (bk_fees b) |} |}.

Definition set_timestamp (e : EvmEnv) (t : Z) : EvmEnv :=
  let blk := env_blk e in
  {| env_cfg := env_cfg e;
     env_blk :=
       {| blk_number := blk_number blk; blk_beneficiary := blk_beneficiary blk;
          blk_timestamp := t; blk_gas_limit := blk_gas_limit blk;
          blk_basefee := blk_basefee blk; blk_difficulty := blk_difficulty blk;
          blk_prevrandao := blk_prevrandao blk;
          blk_blob_excess_gas_and_price := blk_blob_excess_gas_and_price blk |} |}.

(** "we intentionally set the difficulty to 0 for newer blocks" *)
Definition clear_difficulty (e : EvmEnv) : EvmEnv :=
  let blk := env_blk e in
  {| env_cfg := env_cfg e;
     env_blk :=
       {| blk_number := blk_number blk; blk_beneficiary := blk_beneficiary blk;
          blk_timestamp := blk_timestamp blk; blk_gas_limit := blk_gas_limit blk;
          blk_basefee := blk_basefee blk; blk_difficulty := 0;
          blk_prevrandao := blk_prevrandao blk;
          blk_blob_excess_gas_and_price := blk_blob_excess_gas_and_price blk |} |}.

Definition executor_config c b (e : EvmEnv) : ExecutorConfig :=
  {| xc_block_env := env_blk e; xc_cfg_env := env_cfg e;
     xc_parent_hash := best_hash (bk_chain b);
     xc_enable_steps_tracing := bc_enable_steps_tracing c;
     xc_odyssey := bc_odyssey c; xc_optimism := bc_optimism c; xc_celo := bc_celo c;
     xc_print_logs := bc_print_logs c; xc_print_traces := bc_print_traces c;
     xc_precompile_factory := bc_precompile_factory c;
     xc_max_blob_gas_per_block := bp_max_blob_gas_per_block (blob_params b);
     xc_cheats := bk_cheats b |}.

Definition mined_key (m : MinedTransaction) : B256 := inf_transaction_hash (mined_info m).
Definition block_hash_slow (block : Block) : B256 := header_hash_slow (blk_header block).

(** The fees of the next block. *)
Definition next_fees (spec : Z) (fm : FeeManager) (header : Header) : FeeManager :=
  let next_block_base_fee :=
    get_next_block_base_fee_per_gas calc_base_fee fm (h_gas_used header) (h_gas_limit header)
      (default 0 (h_base_fee_per_gas header)) in
  let next_block_excess_blob_gas :=
    get_next_block_blob_excess_gas calc_excess_blob_gas (default 0 (h_excess_blob_gas header))
      (default 0 (h_blob_gas_used header)) in
  set_blob_excess_gas_and_price (set_base_fee fm next_block_base_fee)
    (blob_excess_new next_block_excess_blob_gas (blob_fraction spec)).

(** [utc_from_secs] (crates/anvil/src/eth/backend/time.rs), with its cast to
    [i64] and its [unwrap]. *)
Definition utc_from_secs (secs : Z) : outcome Z :=
  match from_timestamp (if secs <? 2 ^ 63 then secs else secs - 2 ^ 64) with
  | Some year => Ret year
  | None => Panic
  end.

(** The line of the log with the time of the block: [to_rfc2822] panics on years
    outside of 0 to 9999. *)
Definition log_block_time (timestamp : Z) : outcome unit :=
  year ← utc_from_secs timestamp;
  if 9999 <? year then Ret tt else if year <? 0 then Panic else Ret tt.

Definition do_mine_block c (now : Z) b (pool_transactions : list PoolTransaction)
    : outcome (Backend * MinedBlockOutcome) :=
  let env := mining_env b in
  let parent_hash := best_hash (bk_chain b) in
  let number := best_number (bk_chain b) +s[64] 1 in
  states ← (if is_state_history_supported c
            then insert_state (bk_states b) parent_hash (current_state (bk_db b))
            else Ret (bk_states b));
  let '(time, timestamp) := next_timestamp now (bk_time b) in
  let env := set_timestamp env timestamp in
  '(db, executed) ←
    execute (validator := backend_validator blob_validate (validation_backend b))
      txenv_default op_new calculate_receipt_root (executor_config c b env)
      {| te_db := bk_db b; te_pending := pool_transactions; te_gas_used := 0;
         te_blob_gas_used := 0 |};
  let header := blk_header (et_block executed) in
  let hash := header_hash_slow header in
  let db := insert_block_hash db (h_number header) hash in
  let mined :=
    zip_with (λ info receipt,
      {| mined_info := info; mined_receipt := receipt; mined_block_hash := hash;
         mined_block_number := number |}) (et_infos executed) (et_receipts executed) in
  let chain :=
    store_block mined_key block_hash_slow (is_eip3675 b) (bc_transaction_block_keeper c)
      (bk_chain b) (et_block executed) mined in
  log_block_time (h_timestamp header) ≫= λ _,
  Ret ({| bk_env := clear_difficulty env;
          bk_fees := next_fees (cfg_spec (env_cfg env)) (bk_fees b) header;
          bk_time := time; bk_cheats := bk_cheats b; bk_chain := chain; bk_states := states;
          bk_db := db; bk_disable_pool_balance_checks := bk_disable_pool_balance_checks b |},
       {| block_number := number; included := et_included executed;
          invalid := et_invalid executed |}).
End mine.
Arguments Backend {_} _ _ _.

(** ** Specification *)

(** Hashes of headers with different numbers differ (collision resistance). *)
Class HeaderHash {bext : BlockExternals} : Prop := {
  hash_number : ∀ h1 h2, header_hash_slow h1 = header_hash_slow h2 → h_number h1 = h_number h2
}.

Section mine_spec.
Context {ext : TxExternals} {specs : SpecIds} {bext : BlockExternals} {rt : RevmTypes}
  {Db StateDb Snapshot Disk : Type} {evm : RevmDb Db} {sdb : StateDbOps StateDb Snapshot}
  {dc : FileSystem Disk Snapshot} {sops : StateOps Db StateDb} {kext : BackendExternals}
  {BlobError : Type} (blob_validate : TxEip4844Variant → result unit BlobError).
Context (txenv_default : TxEnv) (op_new : TxEnv → OpTransaction)
  (calculate_receipt_root : list TypedReceipt → B256).
Implicit Types (b : Backend Db StateDb Disk) (c : BackendConfig).

(** The invariant of the backend between two blocks. *)
Record node_inv b : Prop := {
  ni_chain : chain_inv (bk_chain b);
  ni_hash : ∀ n h, hashes (bk_chain b) !! n = Some h →
    ∃ hd, h = header_hash_slow hd ∧ n = h_number hd;
  ni_filed : ∀ h hd, (blk_header <$> blocks (bk_chain b)) !! h = Some hd →
    h = header_hash_slow hd;
  ni_time : time_wf (bk_time b);
  ni_states : states_inv (bk_states b);
  ni_listed : ∀ h, known (bk_states b) h →
    ∃ n, n < best_number (bk_chain b) ∧ hashes (bk_chain b) !! n = Some h;
  ni_spec : fm_spec_id (bk_fees b) = spec_id b;
  ni_header : header_complete (bk_env b);
  ni_number : blk_number (env_blk (bk_env b)) = best_number (bk_chain b);
  ni_chain_id : cfg_chain_id (env_cfg (bk_env b)) ≤ umax 64;
  ni_gas_limit : 0 ≤ blk_gas_limit (env_blk (bk_env b));
  ni_blob_limit : 0 ≤ bp_max_blob_gas_per_block (blob_params b)
}.

(** The part of it that does not speak of the archived states, which a
    rollback may list twice. *)
Record node_core b : Prop := {
  nc_chain : chain_inv (bk_chain b);
  nc_hash : ∀ n h, hashes (bk_chain b) !! n = Some h →
    ∃ hd, h = header_hash_slow hd ∧ n = h_number hd;
  nc_filed : ∀ h hd, (blk_header <$> blocks (bk_chain b)) !! h = Some hd →
    h = header_hash_slow hd;
  nc_time : time_wf (bk_time b);
  nc_live : states_live (bk_states b);
  nc_spec : fm_spec_id (bk_fees b) = spec_id b;
  nc_header : header_complete (bk_env b);
  nc_number : blk_number (env_blk (bk_env b)) = best_number (bk_chain b);
  nc_chain_id : cfg_chain_id (env_cfg (bk_env b)) ≤ umax 64;
  nc_gas_limit : 0 ≤ blk_gas_limit (env_blk (bk_env b));
  nc_blob_limit : 0 ≤ bp_max_blob_gas_per_block (blob_params b)
}.

Lemma node_inv_core b : node_inv b → node_core b.
Proof. intros []. split; try done. by apply states_inv_live. Qed.

(** Fewer than 2^64 - 1 blocks, and the clock has not reached its end. *)
Definition in_bounds b : Prop :=
  best_number (bk_chain b) < umax 64 ∧ tm_last_timestamp (bk_time b) < umax 64.

(** Mining at the instant [now] does not panic: no precompile of a factory fails,
    and chrono has a date for the timestamp of the block. *)
Definition mines_safely c (now : Z) b : Prop :=
  bc_precompile_factory c = false ∧ current_call_timestamp now (bk_time b) ≤ utc_max.

Definition in_range c (now : Z) b : Prop := in_bounds b ∧ mines_safely c now b.

(** A timestamp with a date is logged. *)
Lemma log_block_time_spec t : 0 ≤ t → ensures (t ≤ utc_max) (log_block_time t) (λ _, True).
Proof.
  intros Ht. destruct (decide (t ≤ utc_max)) as [Hle|Hgt];
    [|unfold log_block_time, utc_from_secs; repeat (case_match; simpl); done].
  pose proof utc_max_i64. unfold log_block_time, utc_from_secs.
  rewrite (proj2 (Z.ltb_lt t (2 ^ 63))) by lia.
  destruct (from_timestamp_year t (conj Ht Hle)) as (year & -> & Hy). simpl.
  case_bool; [done|]. by rewrite (proj2 (Z.ltb_ge _ _)).
Qed.

(** The transactions of the best block are not dropped at once. *)
Definition keeps_best c : Prop := ∀ k, bc_transaction_block_keeper c = Some k → 0 < k.

(** What mining a block of the transactions [txs] does to a backend whose
    invariant is [I]. *)
Record mined_block {I : Backend Db StateDb Disk → Prop} c b (txs : list PoolTransaction) b'
    (o : MinedBlockOutcome) : Prop := {
  bm_inv : I b';
  bm_number : block_number o = best_number (bk_chain b) + 1 ∧
    best_number (bk_chain b') = best_number (bk_chain b) + 1;
  bm_block : ∃ r,
    block_executed (validator := backend_validator blob_validate (validation_backend b))
      (executor_config c b (set_timestamp (mining_env b) (tm_last_timestamp (bk_time b'))))
      txs r ∧
    included o = et_included r ∧ invalid o = et_invalid r ∧
    best_hash (bk_chain b') = header_hash_slow (blk_header (et_block r)) ∧
    (∃ block, blocks (bk_chain b') !! best_hash (bk_chain b') = Some block ∧
       blk_header block = blk_header (et_block r)) ∧
    h_parent_hash (blk_header (et_block r)) = best_hash (bk_chain b) ∧
    h_number (blk_header (et_block r)) = best_number (bk_chain b) + 1 ∧
    h_timestamp (blk_header (et_block r)) = tm_last_timestamp (bk_time b') ∧
    bk_fees b' = next_fees (spec_id b) (bk_fees b) (blk_header (et_block r)) ∧
    (keeps_best c → blocks (bk_chain b') !! best_hash (bk_chain b') = Some (et_block r)) ∧
    (bc_transaction_block_keeper c = None →
     blocks (bk_chain b') = <[best_hash (bk_chain b') := et_block r]> (blocks (bk_chain b)));
  bm_timestamp : tm_last_timestamp (bk_time b) ≤ tm_last_timestamp (bk_time b');
  bm_state : is_state_history_supported c = true →
    content (bk_states b') (best_hash (bk_chain b)) = Some (current_state (bk_db b));
  bm_history : ∀ n, n ≤ best_number (bk_chain b) →
    hashes (bk_chain b') !! n = hashes (bk_chain b) !! n;
  bm_headers : blk_header <$> blocks (bk_chain b) ⊆ blk_header <$> blocks (bk_chain b')
}.

Definition block_mined c b txs b' o : Prop := mined_block (I := node_inv) c b txs b' o.

Context {hh : HeaderHash}.

(** Every hash is filed under one number. *)
Lemma hash_inj b n m h :
  node_core b → hashes (bk_chain b) !! n = Some h → hashes (bk_chain b) !! m = Some h → n = m.
Proof.
  intros Hi (h1 & E1 & ->)%(nc_hash _ Hi) (h2 & E2 & ->)%(nc_hash _ Hi).
  apply hash_number. congruence.
Qed.

(** No header with the next number has the hash of a stored block. *)
Lemma fresh_hash b hd n :
  node_core b → h_number hd = best_number (bk_chain b) + 1 →
  hashes (bk_chain b) !! n ≠ Some (header_hash_slow hd).
Proof.
  intros Hi Hn Hh. pose proof (ch_top _ (nc_chain _ Hi) _ _ Hh).
  destruct (nc_hash _ Hi _ _ Hh) as (h & E & ->). apply hash_number in E. lia.
Qed.

(** The best block is not archived yet. *)
Lemma best_not_listed b : node_inv b → ¬ known (bk_states b) (best_hash (bk_chain b)).
Proof.
  intros Hi (n & Hlt & Hn)%(ni_listed _ Hi).
  pose proof (hash_inj _ _ _ _ (node_inv_core _ Hi) Hn (ch_best _ (ni_chain _ Hi))). lia.
Qed.

(** Archiving the current state, if configured. *)
Lemma archive_spec c b :
  node_inv b →
  ∃ st', (if is_state_history_supported c
          then insert_state (bk_states b) (best_hash (bk_chain b)) (current_state (bk_db b))
          else Ret (bk_states b)) = Ret st' ∧
    states_inv st' ∧
    (∀ h, known st' h → h = best_hash (bk_chain b) ∨ known (bk_states b) h) ∧
    (is_state_history_supported c = true →
       content st' (best_hash (bk_chain b)) = Some (current_state (bk_db b))).
Proof.
  intros Hi. destruct (is_state_history_supported c).
  - destruct (insert_state_spec (bk_states b) (best_hash (bk_chain b)) (current_state (bk_db b))
      (ni_states _ Hi) (best_not_listed b Hi)) as (st' & k & j & -> & Hin).
    exists st'. split_and!; [done|apply Hin|apply Hin|intros _; apply Hin].
  - exists (bk_states b). split_and!; [done|apply Hi|auto|done].
Qed.

Context {laws : RevmLaws (evm := evm)}.

(** The environment a block is mined in. *)
Lemma mining_number b :
  node_core b → best_number (bk_chain b) < umax 64 →
  blk_number (env_blk (mining_env b)) = best_number (bk_chain b) + 1.
Proof.
  intros Hi Hmax. pose proof (ch_top _ (nc_chain _ Hi) _ _ (ch_best _ (nc_chain _ Hi))).
  simpl. rewrite (nc_number _ Hi). unfold saturating_add, umax in *. case_bool; lia.
Qed.

(** It has the fields the hardfork reads. *)
Lemma mining_header b : node_core b → header_complete (mining_env b).
Proof.
  intros Hi [] [H1 H2]; simpl in *; [done|].
  unfold excess_blob_gas_and_price, fm_is_eip4844 in H2. rewrite (nc_spec _ Hi) in H2.
  unfold spec_id in H2. case_match; [done|lia].
Qed.

(** Execution in that environment. *)
Lemma mine_execute_spec c b txs t :
  node_core b → best_number (bk_chain b) < umax 64 → is_u 64 t →
  let x := executor_config c b (set_timestamp (mining_env b) t) in
  ensures (bc_precompile_factory c = false)
    (execute (validator := backend_validator blob_validate (validation_backend b))
      txenv_default op_new calculate_receipt_root x
      {| te_db := bk_db b; te_pending := txs; te_gas_used := 0; te_blob_gas_used := 0 |})
    (λ '(db, r),
       block_executed (validator := backend_validator blob_validate (validation_backend b)) x txs r ∧
       h_number (blk_header (et_block r)) = best_number (bk_chain b) + 1 ∧
       h_timestamp (blk_header (et_block r)) = t).
Proof.
  intros Hi Hmax Ht; cbn zeta.
  pose proof (backend_validator_total blob_validate (validation_backend b) (nc_chain_id _ Hi)).
  set (x := executor_config c b (set_timestamp (mining_env b) t)).
  pose proof (execute_ensures (validator := backend_validator blob_validate (validation_backend b))
    txenv_default op_new calculate_receipt_root x
    {| te_db := bk_db b; te_pending := txs; te_gas_used := 0; te_blob_gas_used := 0 |}
    eq_refl eq_refl (nc_gas_limit _ Hi) (nc_blob_limit _ Hi)) as Hx.
  eapply ensures_mono; [exact Hx|intros Hc; split; [|exact Hc]|].
  { intros err Herr. apply (mining_header b Hi err). by destruct err. }
  intros [db r] Hr. split; [done|].
  destruct (be_header _ _ _ Hr) as (_ & -> & -> & _).
  pose proof (mining_number b Hi Hmax) as En. unfold saturating_to_u64.
  split; [|cbn; unfold is_u in Ht; lia].
  change (blk_number (xc_block_env x))
    with (blk_number (env_blk (mining_env b))). lia.
Qed.

(** Mining after the state was archived as [st']. *)
Lemma mine_core c now b txs st' :
  node_core b → in_bounds b →
  (if is_state_history_supported c
   then insert_state (bk_states b) (best_hash (bk_chain b)) (current_state (bk_db b))
   else Ret (bk_states b)) = Ret st' →
  states_live st' →
  (is_state_history_supported c = true →
   content st' (best_hash (bk_chain b)) = Some (current_state (bk_db b))) →
  ensures (mines_safely c now b)
    (do_mine_block blob_validate txenv_default op_new calculate_receipt_root c now b txs)
    (λ '(b', o),
      mined_block (I := λ b', node_core b' ∧ bk_states b' = st') c b txs b' o ∧
      hashes (bk_chain b') =
        <[best_number (bk_chain b) + 1 := best_hash (bk_chain b')]> (hashes (bk_chain b))).
Proof.
  intros Hi [Hmax Htm] Harch Hlive Hcont. unfold do_mine_block, mines_safely.
  rewrite Harch, bind_Ret.
  pose proof (next_timestamp_spec now (bk_time b) (nc_time _ Hi) Htm) as Hts.
  destruct (next_timestamp now (bk_time b)) as [tm t].
  destruct Hts as (Hmono & Ht & Elast & Hwf & Ecall). rewrite <- Ecall.
  eapply ensures_bind.
  { eapply ensures_mono; [by apply (mine_execute_spec c b txs t)|tauto|]. intros a Ha. exact Ha. }
  intros [db r] (Hr & Hnum & Hstamp). cbn beta iota.
  eapply ensures_bind.
  { rewrite Hstamp. eapply ensures_mono; [apply log_block_time_spec|tauto|].
    - unfold is_u in Ht. lia.
    - intros a Ha. exact Ha. }
  intros _ _.
  pose proof (ch_top _ (nc_chain _ Hi)) as Htop.
  pose proof (Htop _ _ (ch_best _ (nc_chain _ Hi))).
  set (mined := zip_with _ _ _).
  destruct (store_block_any mined_key block_hash_slow (is_eip3675 b)
    (bc_transaction_block_keeper c) (bk_chain b) (et_block r) mined
    (nc_chain _ Hi) Hmax Hnum (λ n, fresh_hash b _ n Hi Hnum)) as (Hc & En & Eh & Ehs & Ehd).
  set (chain' := store_block _ _ _ _ _ _ _) in *.
  assert (best_number (bk_chain b) +s[64] 1 = best_number (bk_chain b) + 1) as Enum
    by (unfold saturating_add; lia).
  cbn beta iota delta [ensures]. split; [split; simpl|cbn [bk_chain]; fold chain'; by rewrite Ehs, Eh].
  - split; [|done]. split; simpl; try done;
      [| |apply (nc_spec _ Hi)| | |apply (nc_chain_id _ Hi)|apply (nc_gas_limit _ Hi)|apply (nc_blob_limit _ Hi)].
    + intros n h. rewrite Ehs, lookup_insert_Some.
      intros [[<- <-]|[_ Hh]]; [by exists (blk_header (et_block r))|by apply (nc_hash _ Hi)].
    + intros h hd. rewrite Ehd, lookup_insert_Some.
      intros [[<- <-]|[_ Hh]]; [done|by apply (nc_filed _ Hi)].
    + intros err Herr. apply (mining_header b Hi err). by destruct err.
    + rewrite En. exact (mining_number b Hi Hmax).
  - by rewrite Enum, En.
  - exists r. rewrite Elast, Eh.
    destruct (be_header _ _ _ Hr) as (Hp & _). split_and!; try done.
    assert ((blk_header <$> blocks chain') !! block_hash_slow (et_block r) =
      Some (blk_header (et_block r))) as Hblk by (by rewrite Ehd, lookup_insert_eq).
    + rewrite lookup_fmap_Some in Hblk. destruct Hblk as (blk & ? & ?). by exists blk.
    + intros Hk. subst chain'. by apply store_block_body, Hk; [apply (nc_chain _ Hi)|
        |apply (λ n, fresh_hash b _ n Hi Hnum)].
    + intros Hk. subst chain'. rewrite Hk. done.
  - lia.
  - done.
  - intros n Hn. rewrite Ehs, lookup_insert_ne by lia. done.
  - rewrite Ehd. apply insert_subseteq, eq_None_not_Some. intros [hd Hhd].
    apply lookup_fmap_Some in Hhd as (b0 & _ & Hb0).
    by apply (fresh_hash b (blk_header (et_block r)) (hd_number b0) Hi Hnum),
      (ch_block _ (nc_chain _ Hi)).
Qed.

(** Mining keeps [I'] when it follows from [I]. *)
Lemma mined_block_mono (I I' : Backend Db StateDb Disk → Prop) c b txs b' o :
  mined_block (I := I) c b txs b' o → (I b' → I' b') → mined_block (I := I') c b txs b' o.
Proof. intros [] HI. split; auto. Qed.

(** A block is mined, or the node panics for one of the known reasons. *)
Lemma do_mine_block_ensures c now b txs :
  node_inv b → in_bounds b →
  ensures (mines_safely c now b)
    (do_mine_block blob_validate txenv_default op_new calculate_receipt_root c now b txs)
    (λ '(b', o), block_mined c b txs b' o).
Proof.
  intros Hi Hr. destruct (archive_spec c b Hi) as (st' & Ea & Hst & Hlist & Hcont).
  eapply ensures_mono; [apply (mine_core c now b txs st' (node_inv_core _ Hi) Hr Ea
    (states_inv_live _ Hst) Hcont)|done|].
  intros [b' o] [Hm Eh]. destruct (bm_number _ _ _ _ _ Hm) as [_ En].
  eapply mined_block_mono; [exact Hm|]. intros [[] Es]. split; try done; [by rewrite Es|].
  intros h Hh. rewrite Es in Hh. rewrite En, Eh. destruct (Hlist h Hh) as [->|Hold].
  - exists (best_number (bk_chain b)). split; [lia|]. rewrite lookup_insert_ne by lia. apply Hi.
  - destruct (ni_listed _ Hi h Hold) as (n & Hlt & Hn). exists n. split; [lia|].
    by rewrite lookup_insert_ne by lia.
Qed.

Lemma do_mine_block_spec c now b txs :
  node_inv b → in_range c now b →
  ∃ b' o, do_mine_block blob_validate txenv_default op_new calculate_receipt_root c now b txs =
      Ret (b', o) ∧ block_mined c b txs b' o.
Proof.
  intros Hi [Hr Hs].
  destruct (ensures_total _ _ _ (do_mine_block_ensures c now b txs Hi Hr) Hs) as ([b' o] & E & Hm).
  by exists b', o.
Qed.

(** The clock after mining. *)
Lemma do_mine_block_time c now b txs b' o :
  do_mine_block blob_validate txenv_default op_new calculate_receipt_root c now b txs = Ret (b', o) →
  bk_time b' = (next_timestamp now (bk_time b)).1.
Proof.
  unfold do_mine_block. intros (st & _ & E)%bind_Ret_inv.
  destruct (next_timestamp now (bk_time b)) as [tm t].
  destruct (execute _ _ _ _ _) as [[]| |]; simplify_eq/=.
  apply bind_Ret_inv in E as (u & _ & E). by simplify_eq/=.
Qed.

(** The blocks above [n0] are stored and each has the one below as parent. *)
Definition linked_above (n0 : Z) b : Prop :=
  ∀ n, n0 < n ≤ best_number (bk_chain b) →
    ∃ h hd, hashes (bk_chain b) !! n = Some h ∧
      (blk_header <$> blocks (bk_chain b)) !! h = Some hd ∧ h_number hd = n ∧
      hashes (bk_chain b) !! (n - 1) = Some (h_parent_hash hd).

Lemma linked_step n0 c b txs b' o :
  node_core b → linked_above n0 b → mined_block (I := node_core) c b txs b' o → linked_above n0 b'.
Proof.
  intros Hi Hl Hm n Hn. destruct (bm_number _ _ _ _ _ Hm) as [_ En].
  pose proof (bm_history _ _ _ _ _ Hm) as Hh.
  pose proof (ch_best _ (nc_chain _ (bm_inv _ _ _ _ _ Hm))) as Hb.
  destruct (decide (n = best_number (bk_chain b) + 1)) as [->|Hne].
  - destruct (bm_block _ _ _ _ _ Hm) as (r & _ & _ & _ & _ & (blk & Eb & Ehd) & Ep & Enum & _).
    exists (best_hash (bk_chain b')), (blk_header blk). rewrite En in Hb.
    split_and!; [done|by rewrite lookup_fmap, Eb|by rewrite Ehd|].
    rewrite Z.add_simpl_r, Hh, Ehd, Ep by lia. apply (ch_best _ (nc_chain _ Hi)).
  - destruct (Hl n ltac:(lia)) as (h & hd & E1 & E2 & E3 & E4). exists h, hd.
    rewrite !Hh by lia. split_and!; try done.
    eapply lookup_weaken; [exact E2|apply (bm_headers _ _ _ _ _ Hm)].
Qed.
End mine_spec.

(** C2: on a node without a precompile factory whose chain has fewer than
    2^64 - 1 blocks, whose clock is below the largest [u64] and whose next
    timestamp chrono can turn into a date (beyond that limit the code panics,
    see [late_block_panics]), mining a block of pool transactions always ends;
    the backend keeps its
    invariant; the new block is the executed one, has the next number, the old
    best block as parent and a timestamp that does not go back, becomes the
    best block and is stored under its hash; the state before it is archived
    under the parent's hash, the older blocks stay, the fees are the ones of
    the next block, and the outcome reports the included and the invalid
    transactions of the execution. *)
Theorem do_mine_block_correct {ext : TxExternals} {specs : SpecIds} {bext : BlockExternals}
    {rt : RevmTypes} {Db StateDb Snapshot Disk : Type} {evm : RevmDb Db}
    {sdb : StateDbOps StateDb Snapshot} {dc : FileSystem Disk Snapshot}
    {sops : StateOps Db StateDb} {kext : BackendExternals} {laws : RevmLaws (evm := evm)}
    {hh : HeaderHash} {BlobError : Type} (blob_validate : TxEip4844Variant → result unit BlobError)
    (txenv_default : TxEnv) (op_new : TxEnv → OpTransaction)
    (calculate_receipt_root : list TypedReceipt → B256)
    (c : BackendConfig) (now : Z) (b : Backend Db StateDb Disk) (txs : list PoolTransaction) :
  node_inv b → in_range c now b →
  ∃ b' o, do_mine_block blob_validate txenv_default op_new calculate_receipt_root c now b txs =
      Ret (b', o) ∧ block_mined blob_validate c b txs b' o.
Proof. by apply do_mine_block_spec. Qed.

(** A node with the genesis block. *)
#[export] Instance ex_state_ops : StateOps unit (option nat) :=
  {| current_state := λ _, Some 5%nat; insert_block_hash := λ db _ _, db |}.

(** A calendar with years of 31556952 seconds, up to the last second of chrono. *)
Definition ex_from_timestamp (secs : Z) : option Z :=
  if (-8334601228800 <=? secs) && (secs <=? 8210266876799) then Some (1970 + secs / 31556952)
  else None.

Lemma ex_from_timestamp_year secs :
  0 ≤ secs ≤ 8210266876799 → ∃ year, ex_from_timestamp secs = Some year ∧ 0 ≤ year.
Proof.
  intros Hs. unfold ex_from_timestamp. rewrite (proj2 (Z.leb_le _ _)), (proj2 (Z.leb_le _ _)) by lia.
  eexists. split; [done|]. pose proof (Z.div_pos secs 31556952). lia.
Qed.

Definition ex_backend_externals : BackendExternals :=
  {| calc_base_fee := λ _ _ fee, fee; calc_excess_blob_gas := λ a b, a + b;
     blob_params_cancun := {| bp_max_blob_count := 6; bp_max_blob_gas_per_block := 786432 |};
     blob_params_prague := {| bp_max_blob_count := 9; bp_max_blob_gas_per_block := 1179648 |};
     blob_params_osaka := {| bp_max_blob_count := 9; bp_max_blob_gas_per_block := 1179648 |};
     is_arbitrum := λ _, false; blob_fraction_prague := 5007716; blob_fraction_cancun := 3338477;
     blob_excess_new := λ e _, {| excess_blob_gas := e; blob_gasprice := 1 |};
     from_timestamp := ex_from_timestamp; utc_max := 8210266876799;
     from_timestamp_year := ex_from_timestamp_year;
     utc_max_i64 := ltac:(lia) |}.

Definition ex_backend_config : BackendConfig :=
  {| bc_enable_steps_tracing := false; bc_print_logs := false; bc_print_traces := false;
     bc_odyssey := false; bc_optimism := false; bc_celo := false; bc_precompile_factory := false;
     bc_transaction_block_keeper := None; bc_prune_enabled := false;
     bc_max_memory_history := None |}.

Definition ex_genesis_env : EvmEnv :=
  {| env_cfg := env_cfg ex_venv;
     env_blk :=
       {| blk_number := 0; blk_beneficiary := 0; blk_timestamp := 100; blk_gas_limit := 30000000;
          blk_basefee := 7; blk_difficulty := 0; blk_prevrandao := Some 0;
          blk_blob_excess_gas_and_price :=
            Some {| excess_blob_gas := 0; blob_gasprice := 1 |} |} |}.

Definition ex_node : Backend (rt := ex_revm_types) unit (option nat) (gmap Z (option nat)) :=
  @Build_Backend ex_revm_types unit (option nat) (gmap Z (option nat)) ex_genesis_env
    (fee_manager_new 17 7 true 10 {| excess_blob_gas := 0; blob_gasprice := 1 |})
    (time_new 100 100) cheats_default
    (storage_new (block_hash_slow (bext := ex_block_externals)) (ex_block 0))
    (states_new ∅ 500 3600) tt false.

Lemma ex_header_hash : HeaderHash (bext := ex_block_externals).
Proof. constructor. simpl. lia. Qed.

Lemma ex_node_inv :
  node_inv (specs := ex_specs) (bext := ex_block_externals) (rt := ex_revm_types) (kext := ex_backend_externals) ex_node.
Proof.
  split; simpl; try done.
  - split; simpl.
    + by apply lookup_singleton_Some.
    + by intros n h [<- _]%lookup_singleton_Some.
    + intros h b [<- <-]%lookup_singleton_Some. by apply lookup_singleton_Some.
  - intros n h [<- <-]%lookup_singleton_Some. by exists (ex_header 0).
  - intros h hd. rewrite map_fmap_singleton. by intros [<- <-]%lookup_singleton_Some.
  - apply states_new_inv; [lia|done].
  - intros h [Hh|[n Hn]]; [by apply elem_of_nil in Hh|done].
  - by intros []; simpl; intros [_ ?].
Qed.

Lemma do_mine_block_correct_witness :
  ∃ b' o,
    do_mine_block (ext := ex_externals) (specs := ex_specs) (bext := ex_block_externals)
      (rt := ex_revm_types) (evm := ex_revm) (kext := ex_backend_externals)
      (λ _, Ok tt : result unit unit) ex_txenv ex_op_new (λ l, Z.of_nat (length l))
      ex_backend_config 105 ex_node [pool_tx_new (ex_legacy 31337)] = Ret (b', o) ∧
    block_number o = 1 ∧ length (included o) = 1%nat.
Proof.
  destruct (do_mine_block_correct (ext := ex_externals) (specs := ex_specs)
    (bext := ex_block_externals) (rt := ex_revm_types) (evm := ex_revm)
    (kext := ex_backend_externals) (laws := ex_revm_laws) (hh := ex_header_hash)
    (λ _, Ok tt : result unit unit) ex_txenv ex_op_new (λ l, Z.of_nat (length l)) ex_backend_config 105 ex_node
    [pool_tx_new (ex_legacy 31337)] ex_node_inv
    ltac:(repeat split; by vm_compute)) as (b' & o & E & H).
  exists b', o. split; [exact E|]. split; [apply (bm_number _ _ _ _ _ _ H)|].
  vm_compute in E. injection E as _ <-. reflexivity.
Defined.


(** A timestamp beyond the dates of chrono makes the node panic, after the block
    was stored. *)
Example late_block_panics :
  do_mine_block (ext := ex_externals) (specs := ex_specs) (bext := ex_block_externals)
    (rt := ex_revm_types) (evm := ex_revm) (kext := ex_backend_externals)
    (λ _, Ok tt : result unit unit) ex_txenv ex_op_new (λ l, Z.of_nat (length l))
    ex_backend_config 8210266876800 ex_node [] = Panic.
Proof. by vm_compute. Qed.
