(* ===== verification/Miner.v ===== *)
(** * The miner (crates/anvil/src/eth/miner.rs)

    Which transactions go into the next block: all ready ones at every tick, up
    to a number of them as soon as the pool announces one, or both.  A [poll]
    of the source is one call; the notifications that the receiver has queued
    and whether the interval has ticked are inputs. *)

From stdpp Require Import prelude gmap list.
From S2P Require Import Prelude Containers Transaction PendingPool ReadyPool PoolIter Pool PoolSpec.

Open Scope nat_scope.

Inductive Poll (A : Type) : Type :=
| PollReady (a : A)
| PollPending.
Arguments PollReady {A} a.
Arguments PollPending {A}.

(** [rx] holds the notifications that are queued. *)
Record ReadyTransactionMiner := {
  max_transactions : nat;
  has_pending_txs : option bool;
  rx : list TxHash
}.

Inductive MiningMode : Type :=
| NoMining
| Auto (m : ReadyTransactionMiner)
| FixedBlockTime
| Mixed (m : ReadyTransactionMiner).

Record Miner := {
  mode : MiningMode;
  force_transactions : option (list PoolTransaction)
}.

Definition miner_new (m : MiningMode) : Miner := {| mode := m; force_transactions := None |}.

Definition with_forced_transactions (m : Miner) (force : option (list PoolTransaction)) : Miner :=
  {| mode := mode m; force_transactions := force |}.

Definition is_auto_mine (m : Miner) : bool := match mode m with Auto _ => true | _ => false end.

Definition set_mining_mode (m : Miner) (new_mode : MiningMode) : Miner :=
  {| mode := new_mode; force_transactions := force_transactions m |}.

(** [MiningMode::instant], [interval] and [mixed]. *)
Definition mode_instant (max : nat) (listener : list TxHash) : MiningMode :=
  Auto {| max_transactions := max; has_pending_txs := None; rx := listener |}.
Definition mode_interval : MiningMode := FixedBlockTime.
Definition mode_mixed (max : nat) (listener : list TxHash) : MiningMode :=
  Mixed {| max_transactions := max; has_pending_txs := None; rx := listener |}.

(** [take(n).collect()] on the iterator over the ready transactions. *)
Fixpoint iter_take (n : nat) (it : TransactionsIterator) : outcome (list PoolTransaction) :=
  match n with
  | O => Ret []
  | S n =>
      '(it, o) ← iter_next it;
      match o with
      | Some t => rest ← iter_take n it; Ret (t :: rest)
      | None => Ret []
      end
  end.

(** [while let Poll::Ready(Some(_hash)) = self.rx.poll_next_unpin(cx)]. *)
Definition drain_notifications (m : ReadyTransactionMiner) : ReadyTransactionMiner :=
  {| max_transactions := max_transactions m;
     has_pending_txs := match rx m with [] => has_pending_txs m | _ :: _ => Some true end;
     rx := [] |}.

Definition ready_miner_poll (m : ReadyTransactionMiner) (p : PoolInner)
    : outcome (ReadyTransactionMiner * Poll (list PoolTransaction)) :=
  let m := drain_notifications m in
  if bool_decide (has_pending_txs m = Some false) then Ret (m, PollPending)
  else
    transactions ← iter_take (max_transactions m) (get_transactions (pool_ready p));
    let m := {| max_transactions := max_transactions m;
                has_pending_txs := Some (max_transactions m <=? length transactions);
                rx := rx m |} in
    match transactions with
    | [] => Ret (m, PollPending)
    | _ => Ret (m, PollReady transactions)
    end.

(** [FixedBlockTimeMiner::poll]; [fuel] bounds the draining of the pool. *)
Definition fixed_miner_poll (fuel : nat) (tick : bool) (p : PoolInner)
    : outcome (Poll (list PoolTransaction)) :=
  if tick then
    transactions ← iter_collect fuel (get_transactions (pool_ready p));
    Ret (PollReady transactions)
  else Ret PollPending.

(** [for tx in fixed_txs { if any { continue; } auto_txs.push(tx) }]. *)
Definition push_unique (auto_txs : list PoolTransaction) (tx : PoolTransaction)
    : list PoolTransaction :=
  if existsb (λ auto_tx, bool_decide (ptx_hash auto_tx = ptx_hash tx)) auto_txs then auto_txs
  else auto_txs ++ [tx].

Definition mode_poll (fuel : nat) (tick : bool) (m : MiningMode) (p : PoolInner)
    : outcome (MiningMode * Poll (list PoolTransaction)) :=
  match m with
  | NoMining => Ret (NoMining, PollPending)
  | Auto miner => '(miner, r) ← ready_miner_poll miner p; Ret (Auto miner, r)
  | FixedBlockTime => r ← fixed_miner_poll fuel tick p; Ret (FixedBlockTime, r)
  | Mixed auto =>
      '(auto, auto_txs) ← ready_miner_poll auto p;
      fixed_txs ← fixed_miner_poll fuel tick p;
      Ret (Mixed auto,
           match auto_txs, fixed_txs with
           | PollReady auto_txs, PollReady fixed_txs =>
               PollReady (foldl push_unique auto_txs fixed_txs)
           | PollReady auto_txs, PollPending => PollReady auto_txs
           | PollPending, fixed_txs => fixed_txs
           end)
  end.

(** [Miner::poll]: transactions forced at the start go first, once. *)
Definition miner_poll (fuel : nat) (tick : bool) (m : Miner) (p : PoolInner)
    : outcome (Miner * Poll (list PoolTransaction)) :=
  '(new_mode, r) ← mode_poll fuel tick (mode m) p;
  Ret (match r with
       | PollPending =>
           ({| mode := new_mode; force_transactions := force_transactions m |}, PollPending)
       | PollReady next =>
           ({| mode := new_mode; force_transactions := None |},
            PollReady (match force_transactions m with
                       | Some transactions => transactions ++ next
                       | None => next
                       end))
       end).

(** ** Specification *)

(** Taking [n] transactions always ends; fewer than [n] are all of them. *)
Lemma iter_take_spec n it :
  iter_inv it →
  ∃ l, iter_take n it = Ret l ∧ length l ≤ n ∧
    (l = [] → n = 0 ∨ it_independent it = []) ∧
    (length l < n → ∀ acc, run (S (length l)) collect_body (it, acc) = Ret (acc ++ l)).
Proof.
  assert (∀ m it acc, run (S m) collect_body (it, acc) =
    iter_next it ≫= λ '(it, o),
    match o with Some t => run m collect_body (it, acc ++ [t]) | None => Ret acc end) as Hrun.
  { intros m it0 acc. simpl. by destruct (iter_next it0) as [[? []]| |]. }
  revert it. induction n as [|n IH]; intros it Hi; cbn [iter_take].
  - exists []. split_and!; [done|simpl; lia|auto|simpl; lia].
  - destruct (iter_next it) as [[it' o]| |] eqn:E;
      [|by rewrite iter_next_eq in E by done; destruct (bt_last _)..].
    rewrite bind_Ret. destruct o as [t|].
    + destruct (IH it') as (l & -> & Hle & _ & Hall); [by eapply iter_next_inv|].
      exists (t :: l). split_and!; [done|simpl; lia|done|]. simpl length.
      intros Hlt acc. rewrite Hrun, E, bind_Ret, Hall by lia. by rewrite <- app_assoc.
    + exists []. split_and!; [done|simpl; lia| |].
      * intros _. right. rewrite iter_next_eq in E by done.
        destruct (bt_last _) eqn:Hl; [done|]. by apply last_None in Hl.
      * intros _ acc. by rewrite Hrun, E, app_nil_r.
Qed.

(** Taking is a prefix of collecting. *)
Lemma run_collect_take n fuel it acc l :
  run fuel collect_body (it, acc) = Ret l →
  ∃ l', l = acc ++ l' ∧ iter_take n it = Ret (take n l').
Proof.
  revert n it acc. induction fuel as [|fuel IH]; intros n it acc; [done|]. simpl.
  destruct (iter_next it) as [[it' o]| |] eqn:E; simpl; [|done..].
  destruct o as [t|]; simpl.
  - intros Hr. destruct n as [|n].
    + destruct (IH 0 _ _ Hr) as (l' & -> & _). exists (t :: l'). by rewrite <- app_assoc.
    + destruct (IH n _ _ Hr) as (l' & -> & Ht). exists (t :: l'). rewrite <- app_assoc.
      split; [done|]. simpl. by rewrite E, bind_Ret, Ht.
  - intros [= <-]. exists []. rewrite app_nil_r. split; [done|].
    destruct n; simpl; [done|]. by rewrite E.
Qed.

(** What one poll of the miner that listens to the pool does. *)
Record ready_polled (m : ReadyTransactionMiner) (p : PoolInner) (m' : ReadyTransactionMiner)
    (r : Poll (list PoolTransaction)) : Prop := {
  rp_drained : rx m' = [] ∧ max_transactions m' = max_transactions m;
  rp_idle : rx m = [] → has_pending_txs m = Some false →
    r = PollPending ∧ has_pending_txs m' = Some false;
  rp_awake : rx m ≠ [] ∨ has_pending_txs m ≠ Some false →
    ∃ txs, iter_take (max_transactions m) (get_transactions (pool_ready p)) = Ret txs ∧
      length txs ≤ max_transactions m ∧
      r = match txs with [] => PollPending | _ => PollReady txs end ∧
      (txs = [] → max_transactions m = 0 ∨ independent_transactions (pool_ready p) = []) ∧
      has_pending_txs m' = Some (max_transactions m <=? length txs) ∧
      (has_pending_txs m' = Some false →
         iter_collect (S (length txs)) (get_transactions (pool_ready p)) = Ret txs)
}.

Lemma ready_miner_poll_spec {pol : TxPolicy} m p :
  pool_inv p → ∃ m' r, ready_miner_poll m p = Ret (m', r) ∧ ready_polled m p m' r.
Proof.
  intros Hp. unfold ready_miner_poll.
  destruct (bool_decide _) eqn:Eb.
  - apply bool_decide_eq_true in Eb. eexists _, _. split; [reflexivity|]. split; simpl; [done|done|].
    simpl in Eb. destruct (rx m); [|done]. intros [Hne|Hne]; done.
  - apply bool_decide_eq_false in Eb. simpl in Eb.
    destruct (iter_take_spec (max_transactions m) (get_transactions (pool_ready p)))
      as (txs & E & Hle & Hemp & Hall).
    { apply get_transactions_inv; apply Hp. }
    simpl max_transactions. rewrite E, bind_Ret.
    assert (has_pending_txs (drain_notifications m) ≠ Some false) as Hne by done.
    eexists {| max_transactions := max_transactions m; rx := [];
              has_pending_txs := Some (max_transactions m <=? length txs) |},
      (match txs with [] => PollPending | _ => PollReady txs end).
    split; [by destruct txs|]. split; simpl.
    + done.
    + intros Hr Hf. by rewrite Hr in Eb.
    + intros _. exists txs. destruct txs as [|t txs]; simpl in *; split_and!; try done;
        intros [= Hf%Nat.leb_gt]; apply (Hall Hf []).
Qed.

(** a poll of the miner that listens to the pool always ends and drains
    its notifications.  With no notification and nothing known to be pending it
    waits; otherwise it hands out the first [max_transactions] ready
    transactions, in the order of the pool, and remembers that nothing is
    pending only when these were all of them. *)
Theorem ready_miner_poll_correct {pol : TxPolicy} (m : ReadyTransactionMiner) (p : PoolInner) :
  pool_inv p → ∃ m' r, ready_miner_poll m p = Ret (m', r) ∧ ready_polled m p m' r.
Proof. apply ready_miner_poll_spec. Qed.

Definition ex_miner : ReadyTransactionMiner :=
  {| max_transactions := 1; has_pending_txs := Some false; rx := [100%Z] |}.

Lemma ready_miner_poll_correct_witness :
  ∃ m', ready_miner_poll ex_miner ex_pool2 = Ret (m', PollReady [ex_tx0]) ∧ rx m' = [].
Proof.
  destruct (ready_miner_poll_correct ex_miner ex_pool2 ex_pool2_inv) as (m' & r & E & H).
  exists m'. split; [|apply H]. rewrite E. vm_compute in E. by injection E as _ <-.
Defined.

(** ** Both miners *)

Lemma push_unique_spec l f :
  let r := foldl push_unique l f in
  (NoDup (ptx_hash <$> l) → NoDup (ptx_hash <$> r)) ∧
  l `prefix_of` r ∧
  (∀ t, t ∈ r → t ∈ l ∨ t ∈ f) ∧
  (∀ t, t ∈ f → ptx_hash t ∈ ptx_hash <$> r).
Proof.
  revert l. induction f as [|x f IH]; intros l; simpl.
  { split_and!; [done|done|auto|]. intros t Ht. by apply elem_of_nil in Ht. }
  destruct (IH (push_unique l x)) as (H1 & H2 & H3 & H4).
  assert (ptx_hash x ∈ ptx_hash <$> push_unique l x) as Hx.
  { unfold push_unique. destruct (existsb _ l) eqn:E.
    - apply existsb_exists in E as (y & Hy & <-%bool_decide_eq_true).
      apply list_elem_of_fmap_2. by apply list_elem_of_In.
    - rewrite fmap_app. apply elem_of_app. right. by apply list_elem_of_singleton. }
  assert (l `prefix_of` push_unique l x) as Hp.
  { unfold push_unique. case_bool; [done|]. by eexists. }
  split_and!.
  - intros Hnd. apply H1. unfold push_unique. destruct (existsb _ l) eqn:Heqb; [done|].
    rewrite fmap_app. apply NoDup_app. split_and!; [done| |apply NoDup_singleton].
    intros h Hh ->%list_elem_of_singleton. apply list_elem_of_fmap in Hh as (y & Ey & Hy).
    apply not_true_iff_false in Heqb. apply Heqb. apply existsb_exists. exists y.
    split; [by apply list_elem_of_In|]. by apply bool_decide_eq_true.
  - by etrans.
  - intros t [Ht|Ht]%H3; [|set_solver]. unfold push_unique in Ht.
    case_bool; [by left|]. rewrite elem_of_app, list_elem_of_singleton in Ht. set_solver.
  - intros t [->|Ht]%elem_of_cons; [|by apply H4].
    destruct H2 as [k ->]. rewrite fmap_app. apply elem_of_app. by left.
Qed.

(** When both miners have transactions, the block gets the ones of the
    listening miner first and then, of all ready transactions, those that are
    not among them; no transaction appears twice. *)
Theorem mixed_poll_unique (fuel : nat) (auto auto' : ReadyTransactionMiner) (p : PoolInner)
    (auto_txs fixed_txs : list PoolTransaction) :
  ready_miner_poll auto p = Ret (auto', PollReady auto_txs) →
  fixed_miner_poll fuel true p = Ret (PollReady fixed_txs) →
  NoDup (ptx_hash <$> auto_txs) →
  ∃ txs, mode_poll fuel true (Mixed auto) p = Ret (Mixed auto', PollReady txs) ∧
    NoDup (ptx_hash <$> txs) ∧ auto_txs `prefix_of` txs ∧
    (∀ t, t ∈ txs → t ∈ auto_txs ∨ t ∈ fixed_txs) ∧
    (∀ t, t ∈ fixed_txs → ptx_hash t ∈ ptx_hash <$> txs).
Proof.
  intros Ha Hf Hnd. unfold mode_poll. rewrite Ha, bind_Ret, Hf, bind_Ret.
  destruct (push_unique_spec auto_txs fixed_txs) as (H1 & H2 & H3 & H4).
  eexists. split; [reflexivity|]. auto.
Qed.

Lemma mixed_poll_unique_witness :
  mode_poll 5 true (Mixed ex_miner) ex_pool2 =
    Ret (Mixed {| max_transactions := 1; has_pending_txs := Some true; rx := [] |},
         PollReady [ex_tx0; ex_tx1]).
Proof.
  destruct (mixed_poll_unique 5 ex_miner
    {| max_transactions := 1; has_pending_txs := Some true; rx := [] |} ex_pool2
    [ex_tx0] [ex_tx0; ex_tx1] ltac:(vm_compute; reflexivity) ltac:(vm_compute; reflexivity))
    as (txs & E & _); [apply NoDup_singleton|].
  rewrite E. vm_compute in E. by injection E as <-.
Defined.
