(* ===== verification/Service.v ===== *)
(** * The node service (crates/anvil/src/service.rs)

    The service moves transactions from the pool to the chain: the miner picks
    sets of them, the block producer mines one set at a time, and the pool is
    updated with the outcome.  A mining task is the backend it owns and the
    transactions it mines; whether it has finished when it is polled is an
    input.  The maintenance of the fee history and of filters is not modelled. *)

From stdpp Require Import prelude gmap list relations.
From S2P Require Import Prelude Containers Transaction PendingPool ReadyPool PoolIter Pool PoolSpec Fees Env TimeManager Cheats Validate BlockStates Block Chain Executor Mine Miner.

Open Scope Z_scope.

Section service.
Context {order : HashOrder TxHash} {pol : TxPolicy}.
Context {ext : TxExternals} {specs : SpecIds} {bext : BlockExternals} {rt : RevmTypes}
  {Db StateDb Snapshot Disk : Type} {evm : RevmDb Db} {sdb : StateDbOps StateDb Snapshot}
  {dc : FileSystem Disk Snapshot} {sops : StateOps Db StateDb} {kext : BackendExternals}
  {BlobError : Type} (blob_validate : TxEip4844Variant → result unit BlobError).
Context (txenv_default : TxEnv) (op_new : TxEnv → OpTransaction)
  (calculate_receipt_root : list TypedReceipt → B256) (c : BackendConfig).

(** [idle_backend], [block_mining] and [queued]. *)
Record BlockProducer := {
  idle_backend : option (Backend Db StateDb Disk);
  block_mining : option (Backend Db StateDb Disk * list PoolTransaction);
  queued : list (list PoolTransaction)
}.

Definition producer_new (b : Backend Db StateDb Disk) : BlockProducer :=
  {| idle_backend := Some b; block_mining := None; queued := [] |}.

(** A task is started for the next set when the backend is idle. *)
Definition producer_spawn (pr : BlockProducer) : BlockProducer :=
  match queued pr with
  | [] => pr
  | transactions :: rest =>
      match idle_backend pr with
      | None => pr
      | Some backend =>
          {| idle_backend := None; block_mining := Some (backend, transactions);
             queued := rest |}
      end
  end.

(** [BlockProducer::poll_next]. *)
Definition producer_poll_next (finished : bool) (now : Z) (pr : BlockProducer)
    : outcome (BlockProducer * Poll MinedBlockOutcome) :=
  let pr := producer_spawn pr in
  match block_mining pr with
  | None => Ret (pr, PollPending)
  | Some (backend, transactions) =>
      if finished then
        '(backend, o) ← do_mine_block blob_validate txenv_default op_new calculate_receipt_root
          c now backend transactions;
        Ret ({| idle_backend := Some backend; block_mining := None; queued := queued pr |},
             PollReady o)
      else Ret (pr, PollPending)
  end.

Record NodeService := {
  sv_pool : PoolInner;
  sv_producer : BlockProducer;
  sv_miner : Miner
}.

Definition service_new (p : PoolInner) (b : Backend Db StateDb Disk) (m : Miner) : NodeService :=
  {| sv_pool := p; sv_producer := producer_new b; sv_miner := m |}.

(** The two halves of the loop of [NodeService::poll]: advance the block
    production, then feed the producer from the miner. *)
Definition service_produce (finished : bool) (now : Z) (s : NodeService) : outcome NodeService :=
  '(pr, o) ← producer_poll_next finished now (sv_producer s);
  match o with
  | PollPending => Ret {| sv_pool := sv_pool s; sv_producer := pr; sv_miner := sv_miner s |}
  | PollReady o =>
      '(p, _) ← on_mined_block (sv_pool s) o;
      Ret {| sv_pool := p; sv_producer := pr; sv_miner := sv_miner s |}
  end.

Definition service_mine (fuel : nat) (tick : bool) (s : NodeService) : outcome NodeService :=
  '(m, r) ← miner_poll fuel tick (sv_miner s) (sv_pool s);
  let pr := sv_producer s in
  Ret {| sv_pool := sv_pool s;
         sv_producer :=
           match r with
           | PollPending => pr
           | PollReady transactions =>
               {| idle_backend := idle_backend pr; block_mining := block_mining pr;
                  queued := queued pr ++ [transactions] |}
           end;
         sv_miner := m |}.

(** ** Specification *)

(** The backend, idle or at work. *)
Definition service_backend (s : NodeService) : option (Backend Db StateDb Disk) :=
  match idle_backend (sv_producer s) with
  | Some b => Some b
  | None => fst <$> block_mining (sv_producer s)
  end.

(** The steps of the node: the service is polled, a request changes the pool,
    the miner is notified or reconfigured. *)
Inductive service_step : NodeService → NodeService → Prop :=
| sv_produce finished now s s' :
    (∀ b, service_backend s = Some b → in_bounds b) →
    service_produce finished now s = Ret s' → service_step s s'
| sv_mine fuel tick s s' : service_mine fuel tick s = Ret s' → service_step s s'
| sv_request s p :
    pool_step (sv_pool s) p →
    service_step s {| sv_pool := p; sv_producer := sv_producer s; sv_miner := sv_miner s |}
| sv_notify s m :
    service_step s {| sv_pool := sv_pool s; sv_producer := sv_producer s; sv_miner := m |}.

(** One backend, idle or mining, and both it and the pool are consistent. *)
Record service_inv (s : NodeService) : Prop := {
  sv_pool_inv : pool_inv (sv_pool s);
  sv_one : idle_backend (sv_producer s) = None ↔ is_Some (block_mining (sv_producer s));
  sv_backend_inv : ∀ b, service_backend s = Some b → node_inv b
}.

Context {laws : RevmLaws (evm := evm)} {hh : HeaderHash}.

Lemma spawn_inv s :
  service_inv s →
  service_inv {| sv_pool := sv_pool s; sv_producer := producer_spawn (sv_producer s);
                 sv_miner := sv_miner s |} ∧
  service_backend {| sv_pool := sv_pool s; sv_producer := producer_spawn (sv_producer s);
                     sv_miner := sv_miner s |} = service_backend s.
Proof.
  intros [Hp Ho Hb]. unfold service_backend in *. destruct s as [p [idle mining q] m]; simpl in *.
  unfold producer_spawn; simpl. destruct q as [|txs q]; [done|].
  destruct idle as [b|]; simpl; [|done]. split; [|done]. split; simpl; [done| |done].
  split; eauto.
Qed.

(** What a poll of the producer does: it leaves the chain alone, or appends one
    block and updates the pool with its outcome. *)
Definition produced s s' : Prop :=
  service_backend s' = service_backend s ∧ sv_pool s' = sv_pool s ∨
  ∃ b txs b' o res, service_backend s = Some b ∧ service_backend s' = Some b' ∧
    block_mined blob_validate c b txs b' o ∧
    on_mined_block (sv_pool s) o = Ret (sv_pool s', res).

Lemma service_produce_ensures finished now s :
  service_inv s → (∀ b, service_backend s = Some b → in_bounds b) →
  ensures (∀ b, service_backend s = Some b → mines_safely c now b)
    (service_produce finished now s) (λ s', service_inv s' ∧ produced s s').
Proof.
  intros Hi Hr. destruct (spawn_inv s Hi) as [[Hp Ho Hb] Es]. unfold produced.
  rewrite <- Es in Hr |- *.
  unfold service_produce, producer_poll_next. unfold service_backend in *. simpl in *.
  destruct (producer_spawn (sv_producer s)) as [idle mining q]; simpl in *.
  destruct mining as [[b txs]|]; [destruct finished|]; simpl; [|by split; [split|left]..].
  destruct idle as [bi|]; [by destruct Ho as [_ Ho]; discriminate Ho; eexists|].
  pose proof (do_mine_block_ensures blob_validate txenv_default op_new calculate_receipt_root c now b
    txs (Hb b eq_refl) (Hr b eq_refl)) as Hm.
  destruct (do_mine_block _ _ _ _ _ _ _ _) as [[b' o]| |]; simpl in Hm |- *; [|by auto|done].
  destruct (on_mined_block_spec (sv_pool s) o Hp) as (p' & res & E & Hp' & _).
  rewrite E, bind_Ret. simpl. split; [|right; by exists b, txs, b', o, res].
  split; simpl; [done| |].
  - split; [done|]. intros [? ?]; done.
  - intros b0 [= <-]. apply Hm.
Qed.

Lemma service_mine_inv fuel tick s s' :
  service_inv s → service_mine fuel tick s = Ret s' →
  service_inv s' ∧ service_backend s' = service_backend s ∧ sv_pool s' = sv_pool s.
Proof.
  intros [Hp Ho Hb]. unfold service_mine.
  destruct (miner_poll fuel tick (sv_miner s) (sv_pool s)) as [[m r]| |]; simpl; [|done..].
  intros [= <-]. unfold service_backend in *. destruct r; simpl; by split_and!.
Qed.

Lemma service_step_inv s s' : service_inv s → service_step s s' → service_inv s'.
Proof.
  intros Hi Hs. revert Hi.
  destruct Hs as [finished now s s' Hr E|fuel tick s s' E|s p Hp|s m]; intros Hi.
  - by apply (ensures_Ret _ _ _ _ (service_produce_ensures finished now s Hi Hr) E).
  - by eapply service_mine_inv.
  - destruct Hi as [H1 H2 H3]. split; [|done|done]. by eapply pool_step_inv.
  - destruct Hi as [H1 H2 H3]. by split.
Qed.

Lemma service_new_inv p b m : pool_inv p → node_inv b → service_inv (service_new p b m).
Proof.
  intros Hp Hb. split; simpl; [done| |].
  - split; [done|]. by intros [? ?].
  - unfold service_backend; simpl. by intros b0 [= <-].
Qed.
End service.

(** ** Properties *)

(** C1: in every state the node can reach from a consistent backend and an
    empty pool, by any interleaving of polls, requests and notifications, there
    is exactly one backend, idle or mining, never both, it satisfies its
    invariant, and so does the pool. *)
Theorem service_reachable_inv {order : HashOrder TxHash} {pol : TxPolicy}
    {ext : TxExternals} {specs : SpecIds} {bext : BlockExternals} {rt : RevmTypes}
    {Db StateDb Snapshot Disk : Type} {evm : RevmDb Db} {sdb : StateDbOps StateDb Snapshot}
    {dc : FileSystem Disk Snapshot} {sops : StateOps Db StateDb} {kext : BackendExternals}
    {laws : RevmLaws (evm := evm)} {hh : HeaderHash} {BlobError : Type}
    (blob_validate : TxEip4844Variant → result unit BlobError) (txenv_default : TxEnv)
    (op_new : TxEnv → OpTransaction) (calculate_receipt_root : list TypedReceipt → B256)
    (c : BackendConfig) (b : Backend Db StateDb Disk) (m : Miner)
    (s : NodeService (Db := Db) (StateDb := StateDb) (Disk := Disk)) :
  node_inv b →
  rtc (service_step blob_validate txenv_default op_new calculate_receipt_root c)
    (service_new pool_default b m) s →
  service_inv s.
Proof.
  intros Hb Hs. pose proof (service_new_inv pool_default b m pool_default_inv Hb) as Hi.
  induction Hs as [|s1 s2 s3 Hstep _ IH]; [done|]. by eapply IH, service_step_inv.
Qed.

(** C6: on a node without a precompile factory, with fewer than 2^64 - 1 blocks, a
    clock below the largest [u64] and a next timestamp chrono has a date for, a
    poll of the block production does not panic and keeps the node consistent;
    either nothing changes for the pool and the chain, or exactly one block,
    executed from a set of transactions handed to the producer, was appended to
    the chain and the pool was updated with exactly its outcome. *)
Theorem service_produce_correct {order : HashOrder TxHash} {pol : TxPolicy}
    {ext : TxExternals} {specs : SpecIds} {bext : BlockExternals} {rt : RevmTypes}
    {Db StateDb Snapshot Disk : Type} {evm : RevmDb Db} {sdb : StateDbOps StateDb Snapshot}
    {dc : FileSystem Disk Snapshot} {sops : StateOps Db StateDb} {kext : BackendExternals}
    {laws : RevmLaws (evm := evm)} {hh : HeaderHash} {BlobError : Type}
    (blob_validate : TxEip4844Variant → result unit BlobError) (txenv_default : TxEnv)
    (op_new : TxEnv → OpTransaction) (calculate_receipt_root : list TypedReceipt → B256)
    (c : BackendConfig) (finished : bool) (now : Z)
    (s : NodeService (Db := Db) (StateDb := StateDb) (Disk := Disk)) :
  service_inv s → (∀ b, service_backend s = Some b → in_range c now b) →
  ∃ s', service_produce blob_validate txenv_default op_new calculate_receipt_root c finished now s
      = Ret s' ∧ service_inv s' ∧ produced blob_validate c s s'.
Proof.
  intros Hi Hr. eapply (ensures_total (∀ b, service_backend s = Some b → mines_safely c now b)).
  - apply (service_produce_ensures blob_validate txenv_default op_new calculate_receipt_root c); [done|].
    intros b Hb. by apply Hr.
  - intros b Hb. by apply Hr.
Qed.

(** A node with one queued set of transactions. *)
Definition ex_service_start
    : NodeService (rt := ex_revm_types) (Db := unit) (StateDb := option nat)
        (Disk := gmap Z (option nat)) :=
  service_new pool_default ex_node (miner_new NoMining).

Definition ex_service_queued
    : NodeService (rt := ex_revm_types) (Db := unit) (StateDb := option nat)
        (Disk := gmap Z (option nat)) :=
  {| sv_pool := pool_default; sv_miner := miner_new NoMining;
     sv_producer := {| idle_backend := Some ex_node; block_mining := None;
                       queued := [[pool_tx_new (ex_legacy 31337)]] |} |}.

Lemma ex_service_inv :
  service_inv (specs := ex_specs) (bext := ex_block_externals) (kext := ex_backend_externals)
    ex_service_queued.
Proof.
  split; simpl; [apply pool_default_inv| |].
  - split; [done|]. by intros [? ?].
  - unfold service_backend; simpl. intros b0 [= <-]. apply ex_node_inv.
Qed.

Lemma service_produce_correct_witness :
  ∃ s', service_produce (ext := ex_externals) (specs := ex_specs) (bext := ex_block_externals)
      (rt := ex_revm_types) (evm := ex_revm) (kext := ex_backend_externals)
      (λ _, Ok tt : result unit unit) ex_txenv ex_op_new (λ l, Z.of_nat (length l))
      ex_backend_config true 105 ex_service_queued = Ret s' ∧
    (λ b, best_number (bk_chain b)) <$> service_backend s' = Some 1.
Proof.
  destruct (service_produce_correct (ext := ex_externals) (specs := ex_specs)
    (bext := ex_block_externals) (rt := ex_revm_types) (evm := ex_revm)
    (kext := ex_backend_externals) (laws := ex_revm_laws) (hh := ex_header_hash)
    (λ _, Ok tt : result unit unit) ex_txenv ex_op_new (λ l, Z.of_nat (length l))
    ex_backend_config true 105 ex_service_queued ex_service_inv) as (s' & E & _).
  { unfold service_backend; simpl. intros b0 [= <-]. repeat split; by vm_compute. }
  exists s'. split; [exact E|]. vm_compute in E. injection E as <-. reflexivity.
Defined.

Lemma service_reachable_inv_witness :
  service_inv (specs := ex_specs) (bext := ex_block_externals) (kext := ex_backend_externals)
    ex_service_start.
Proof.
  apply (service_reachable_inv (ext := ex_externals) (specs := ex_specs)
    (bext := ex_block_externals) (rt := ex_revm_types) (evm := ex_revm)
    (kext := ex_backend_externals) (laws := ex_revm_laws) (hh := ex_header_hash)
    (λ _, Ok tt : result unit unit) ex_txenv ex_op_new (λ l, Z.of_nat (length l))
    ex_backend_config ex_node (miner_new NoMining) ex_service_start ex_node_inv).
  apply rtc_once, sv_notify.
Defined.
