(* ===== verification/Liveness.v ===== *)
(** * Progress of the node service (crates/anvil/src/service.rs)

    A run of the node is an infinite sequence of steps of [Service]; it is fair
    when the production of blocks is polled again and again with a task that
    has finished.  Sets of transactions the miner handed to the producer wait in
    a queue; the theorem is that each of them is mined in the end, in the order
    of the queue, whatever requests and notifications come in between. *)

From stdpp Require Import prelude gmap list relations.
From S2P Require Import Prelude Containers Transaction PendingPool ReadyPool PoolIter Pool PoolSpec Fees Env TimeManager Cheats Validate BlockStates Block Chain Executor Mine Miner Service.

Open Scope Z_scope.

Section liveness.
Context {order : HashOrder TxHash} {pol : TxPolicy}.
Context {ext : TxExternals} {specs : SpecIds} {bext : BlockExternals} {rt : RevmTypes}
  {Db StateDb Snapshot Disk : Type} {evm : RevmDb Db} {sdb : StateDbOps StateDb Snapshot}
  {dc : FileSystem Disk Snapshot} {sops : StateOps Db StateDb} {kext : BackendExternals}
  {BlobError : Type} (blob_validate : TxEip4844Variant → result unit BlobError).
Context (txenv_default : TxEnv) (op_new : TxEnv → OpTransaction)
  (calculate_receipt_root : list TypedReceipt → B256) (c : BackendConfig).
Context {laws : RevmLaws (evm := evm)} {hh : HeaderHash}.
Abbreviation Service := (NodeService (Db := Db) (StateDb := StateDb) (Disk := Disk)).
Abbreviation produce := (service_produce blob_validate txenv_default op_new calculate_receipt_root c).
Abbreviation step := (service_step blob_validate txenv_default op_new calculate_receipt_root c).
Implicit Types s : Service.

(** The sets handed to the producer and not mined yet, the one at work first. *)
Definition waiting (pr : BlockProducer (Db := Db) (StateDb := StateDb) (Disk := Disk))
    : list (list PoolTransaction) :=
  match block_mining pr with Some (_, txs) => [txs] | None => [] end ++ queued pr.

Definition waiting_sets s : list (list PoolTransaction) := waiting (sv_producer s).

(** The step from [s] to [s'] appended a block executed from [txs] to the chain:
    each of [txs] was included, found invalid or skipped, and the best block of
    the chain holds exactly the included ones, in their order in [txs] (unless
    the node is configured to keep the transactions of no block). *)
Definition mined_now s (txs : list PoolTransaction) s' : Prop :=
  ∃ b b' o, service_backend s = Some b ∧ service_backend s' = Some b' ∧
    block_mined blob_validate c b txs b' o ∧
    (∃ skipped, txs ≡ₚ included o ++ invalid o ++ skipped) ∧
    included o `sublist_of` txs ∧ invalid o `sublist_of` txs ∧
    (keeps_best c →
     ∃ block, blocks (bk_chain b') !! best_hash (bk_chain b') = Some block ∧
       blk_transactions block = (λ t, pt_transaction (pending_transaction t)) <$> included o).

Lemma spawn_waiting s :
  service_inv s → waiting (producer_spawn (sv_producer s)) = waiting_sets s.
Proof.
  intros [_ Ho _]. unfold waiting_sets, waiting, producer_spawn.
  destruct s as [p [idle mining q] m]; simpl in *. destruct q as [|txs q]; [done|].
  destruct idle as [b|]; simpl; [|done]. destruct mining as [[b' t']|]; [|done].
  destruct Ho as [_ Ho]. discriminate Ho. by eexists.
Qed.

Lemma mined_now_intro s s' b b' o txs :
  service_backend s = Some b → service_backend s' = Some b' →
  block_mined blob_validate c b txs b' o → mined_now s txs s'.
Proof.
  intros E E' Hm. exists b, b', o. split_and!; [done..| | | |].
  all: destruct (bm_block _ _ _ _ _ _ Hm) as (r & Hr & Ei & Ev & _ & _ & _ & _ & _ & _ & Hb & _).
  all: rewrite ?Ei, ?Ev; try apply Hr.
  intros Hk. exists (et_block r). split; [by apply Hb|apply Hr].
Qed.

(** A poll whose task has finished takes the first set, and mines it. *)
Lemma produce_head now s s' :
  service_inv s → (∀ b, service_backend s = Some b → in_bounds b) → produce true now s = Ret s' →
  waiting_sets s' = tail (waiting_sets s) ∧
  ∀ txs, head (waiting_sets s) = Some txs → mined_now s txs s'.
Proof.
  intros Hi Hr. destruct (spawn_inv s Hi) as [[Hp Ho Hb] Es]. pose proof (spawn_waiting s Hi) as Ew.
  pose proof (mined_now_intro s s') as Hin. rewrite <- Es in Hr, Hin. rewrite <- Ew.
  unfold service_produce, producer_poll_next. unfold service_backend in Hr, Hin, Hb. simpl in *.
  destruct (producer_spawn (sv_producer s)) as [idle mining q] eqn:Esp; unfold waiting; simpl in *.
  destruct mining as [[b txs]|]; simpl.
  - destruct idle as [bi|]; [by destruct Ho as [_ Ho]; discriminate Ho; eexists|].
    pose proof (do_mine_block_ensures blob_validate txenv_default op_new calculate_receipt_root c
      now b txs (Hb b eq_refl) (Hr b eq_refl)) as Hm.
    destruct (do_mine_block _ _ _ _ _ _ _ _) as [[b' o]| |]; simpl in Hm |- *; [|done..].
    intros ([p' res] & _ & [= <-])%bind_Ret_inv.
    split; [done|]. intros t [= <-]. by apply (Hin b b' o).
  - intros [= <-]. unfold waiting_sets, waiting; simpl.
    assert (q = []) as ->; [|done].
    assert (idle ≠ None) as Hidle by (intros E; by destruct (proj1 Ho E)).
    unfold producer_spawn in Esp. destruct (sv_producer s) as [[bi|] mi [|t q']]; simpl in *;
      simplify_eq; done.
Qed.

(** Any other step keeps the queue and may append to it. *)
Lemma step_waiting s s' :
  service_inv s → step s s' →
  waiting_sets s `prefix_of` waiting_sets s' ∨
  waiting_sets s' = tail (waiting_sets s) ∧
    ∀ txs, head (waiting_sets s) = Some txs → mined_now s txs s'.
Proof.
  intros Hi Hs. revert Hi.
  destruct Hs as [finished now s s' Hr E|fuel tick s s' E|s p Hp|s m]; intros Hi; [|left..].
  - destruct finished; [right; by eapply produce_head|left].
    pose proof (spawn_waiting s Hi) as Ew. revert E. unfold service_produce, producer_poll_next.
    rewrite <- Ew. unfold waiting_sets.
    destruct (block_mining (producer_spawn (sv_producer s))) as [[b txs]|]; simpl;
      intros [= <-]; reflexivity.
  - revert E. unfold service_mine. intros ([m r] & _ & [= <-])%bind_Ret_inv.
    unfold waiting_sets, waiting; simpl. destruct r as [txs|]; simpl; [|done].
    exists [txs]. by rewrite app_assoc.
  - done.
  - done.
Qed.

(** An infinite run, and its fairness. *)
Record execution (at_time : nat → Service) : Prop := {
  ex_start : service_inv (at_time 0%nat);
  ex_step : ∀ n, step (at_time n) (at_time (S n))
}.

Definition fair (at_time : nat → Service) : Prop :=
  ∀ n, ∃ m now, (n ≤ m)%nat ∧ (∀ b, service_backend (at_time m) = Some b → in_bounds b) ∧
    produce true now (at_time m) = Ret (at_time (S m)).

Lemma execution_inv at_time n : execution at_time → service_inv (at_time n).
Proof.
  intros [H0 Hs]. induction n as [|n IH]; [done|].
  eapply (service_step_inv blob_validate txenv_default op_new calculate_receipt_root c); eauto.
Qed.

(** Up to time [m] the set at position [i] was mined, or is still waiting at a
    position no later. *)
Lemma still_waiting at_time n k i txs :
  execution at_time → waiting_sets (at_time n) !! i = Some txs →
  (∃ m, (n ≤ m < n + k)%nat ∧ mined_now (at_time m) txs (at_time (S m))) ∨
  ∃ j, (j ≤ i)%nat ∧ waiting_sets (at_time (n + k)%nat) !! j = Some txs.
Proof.
  intros He Hi. induction k as [|k IH]; [right; exists i; by rewrite Nat.add_0_r|].
  destruct IH as [(m & Hm & Hmined)|(j & Hj & Hw)]; [left; exists m; split; [lia|done]|].
  rewrite Nat.add_succ_r.
  destruct (step_waiting _ _ (execution_inv at_time (n + k) He) (ex_step _ He (n + k)%nat))
    as [Hpre|[Ht Hmined]].
  - right. exists j. split; [done|]. by eapply prefix_lookup_Some.
  - destruct j as [|j].
    + left. exists (n + k)%nat. split; [lia|]. apply Hmined.
      by destruct (waiting_sets (at_time (n + k)%nat)).
    + right. exists j. split; [lia|]. rewrite Ht, lookup_tail. done.
Qed.

Lemma eventually_mined at_time n i txs :
  execution at_time → fair at_time → waiting_sets (at_time n) !! i = Some txs →
  ∃ m, (n ≤ m)%nat ∧ mined_now (at_time m) txs (at_time (S m)).
Proof.
  intros He Hf. revert n. induction (lt_wf i) as [i _ IH]. intros n Hi.
  destruct (Hf n) as (m & now & Hle & Hr & E).
  destruct (still_waiting at_time n (m - n) i txs He Hi) as [(m' & Hm & H')|(j & Hj & Hw)].
  { exists m'. split; [lia|done]. }
  replace (n + (m - n))%nat with m in Hw by lia.
  destruct (produce_head now _ _ (execution_inv at_time m He) Hr E) as [Ht Hmined].
  destruct j as [|j].
  - exists m. split; [done|]. apply Hmined. by destruct (waiting_sets (at_time m)).
  - destruct (IH j ltac:(lia) (S m)) as (m' & ? & ?); [by rewrite Ht, lookup_tail|].
    exists m'. split; [lia|done].
Qed.
End liveness.

(** ** Properties *)

(** C7: in every fair run of the node (the block production is polled again and
    again with a finished task, and each such poll returns: it does not panic on
    the clock or on a precompile of a factory), for each set of transactions the
    miner has handed to the block producer there is a later step that appends a
    block executed from exactly this set: each of its transactions is included,
    found invalid or skipped (the block's gas is exhausted or the database
    failed), and the new best block holds exactly the included ones, in the
    order of the set. *)
Theorem handed_sets_mined {order : HashOrder TxHash} {pol : TxPolicy}
    {ext : TxExternals} {specs : SpecIds} {bext : BlockExternals} {rt : RevmTypes}
    {Db StateDb Snapshot Disk : Type} {evm : RevmDb Db} {sdb : StateDbOps StateDb Snapshot}
    {dc : FileSystem Disk Snapshot} {sops : StateOps Db StateDb} {kext : BackendExternals}
    {laws : RevmLaws (evm := evm)} {hh : HeaderHash} {BlobError : Type}
    (blob_validate : TxEip4844Variant → result unit BlobError) (txenv_default : TxEnv)
    (op_new : TxEnv → OpTransaction) (calculate_receipt_root : list TypedReceipt → B256)
    (c : BackendConfig)
    (at_time : nat → NodeService (Db := Db) (StateDb := StateDb) (Disk := Disk)) (n i : nat)
    (txs : list PoolTransaction) :
  execution blob_validate txenv_default op_new calculate_receipt_root c at_time →
  fair blob_validate txenv_default op_new calculate_receipt_root c at_time →
  waiting_sets (at_time n) !! i = Some txs →
  ∃ m, (n ≤ m)%nat ∧ mined_now blob_validate c (at_time m) txs (at_time (S m)).
Proof. by apply eventually_mined. Qed.

(** A run that mines the queued set and is then polled forever. *)
Definition ex_produce
    : NodeService (Db := unit) (StateDb := option nat) (Disk := gmap Z (option nat)) →
      outcome (NodeService (Db := unit) (StateDb := option nat) (Disk := gmap Z (option nat))) :=
  service_produce (ext := ex_externals) (specs := ex_specs) (bext := ex_block_externals)
    (rt := ex_revm_types) (evm := ex_revm) (kext := ex_backend_externals)
    (λ _, Ok tt : result unit unit) ex_txenv ex_op_new (λ l, Z.of_nat (length l))
    ex_backend_config true 105.

Definition ex_run (n : nat)
    : NodeService (Db := unit) (StateDb := option nat) (Disk := gmap Z (option nat)) :=
  match n with
  | O => ex_service_queued
  | S _ => match ex_produce ex_service_queued with Ret s => s | _ => ex_service_queued end
  end.

Lemma ex_run_step n : ex_produce (ex_run n) = Ret (ex_run (S n)).
Proof. destruct n; vm_compute; reflexivity. Qed.

Lemma ex_run_range n b : service_backend (ex_run n) = Some b → in_bounds b.
Proof. destruct n; intros [= <-]; split; vm_compute; reflexivity. Qed.

Lemma handed_sets_mined_witness :
  waiting_sets (ex_run 0) !! 0%nat = Some [pool_tx_new (ex_legacy 31337)] ∧
  ∃ m b, service_backend (ex_run (S m)) = Some b ∧ best_number (bk_chain b) = 1.
Proof.
  split; [vm_compute; reflexivity|].
  destruct (handed_sets_mined (ext := ex_externals) (specs := ex_specs)
    (bext := ex_block_externals) (rt := ex_revm_types) (evm := ex_revm)
    (kext := ex_backend_externals) (laws := ex_revm_laws) (hh := ex_header_hash)
    (λ _, Ok tt : result unit unit) ex_txenv ex_op_new (λ l, Z.of_nat (length l))
    ex_backend_config ex_run 0 0 [pool_tx_new (ex_legacy 31337)]) as (m & _ & b & b' & o & _ & Eb & _).
  - split; [exact ex_service_inv|]. intros n.
    apply (sv_produce _ _ _ _ _ true 105); [apply ex_run_range|apply ex_run_step].
  - intros n. exists n, 105. split; [done|]. split; [apply ex_run_range|apply ex_run_step].
  - vm_compute. reflexivity.
  - exists m, b'. split; [exact Eb|]. vm_compute in Eb. injection Eb as <-. reflexivity.
Defined.
