(* ===== verification/Query.v ===== *)
(** * Queries of the backend (crates/anvil/src/eth/backend/mem/mod.rs)

    Block identifiers and how they are resolved, the environment of the next
    block, the pending block, and the database a request sees
    ([with_database_at]): the pending block's, an archived state or the current
    one.  A database a closure receives is a [DynDb], the trait object
    [dyn MaybeFullDatabase]; forking is not modelled. *)

From stdpp Require Import prelude gmap list.
From S2P Require Import Prelude Containers Transaction PendingPool ReadyPool Pool Fees Env TimeManager Cheats Validate BlockStates Block Chain Executor Mine Api Estimate.

Open Scope Z_scope.

(** [BlockchainError] (crates/anvil/src/eth/error.rs), the errors raised by
    the modelled handlers. *)
Inductive BlockchainError {rt : RevmTypes} {BlobError : Type} : Type :=
| BcPool (e : PoolError)
| BcNoSignerAvailable
| BcFailedToDecodeSignedTransaction
| BcFailedToDecodeTransaction
| BcSignatureError
| BcSigner
| BcBlockOutOfRange (current requested : Z)
| BcBlockNotFound
| BcRpcInvalidParams
| BcDataUnavailable
| BcInvalidTransaction (e : InvalidTransactionError BlobError InvalidTransaction)
| BcDatabase (e : DatabaseError)
| BcEstimate (e : EstimateError (E := DatabaseError))
| BcEIP1559TransactionUnsupportedAtHardfork
| BcEIP2930TransactionUnsupportedAtHardfork
| BcEIP4844TransactionUnsupportedAtHardfork
| BcEIP7702TransactionUnsupportedAtHardfork
| BcDepositTransactionUnsupported
| BcEmptyRawTransactionData.
Arguments BlockchainError {_} _.

(** What the handlers read of a database: an account, its code, and the
    outcome of a call with a gas limit (revm on top of it). *)
Record DynDb {rt : RevmTypes} := {
  dyn_basic : Address → result (option AccountInfo) DatabaseError;
  dyn_code : Address → result Bytes DatabaseError;
  dyn_call : EvmEnv → TransactionRequest → Z → result GasEstimationCallResult DatabaseError
}.

Class DatabaseRef (D : Type) {rt : RevmTypes} := as_dyn : D → DynDb.

Inductive BlockRequest : Type :=
| ReqPending (pool_transactions : list PoolTransaction)
| ReqNumber (number : Z).

Section query.
Context {ext : TxExternals} {specs : SpecIds} {bext : BlockExternals} {rt : RevmTypes}
  {Db Cache StateDb Snapshot Disk : Type} {cevm : RevmDb Cache}
  {dref : DatabaseRef Db} {cref : DatabaseRef Cache} {sref : DatabaseRef StateDb}
  {sdb : StateDbOps StateDb Snapshot} {dc : FileSystem Disk Snapshot} {kext : BackendExternals}
  {BlobError : Type} (blob_validate : TxEip4844Variant → result unit BlobError).
(** revm's [TxEnv::default()], [OpTransaction::new], [CacheDB::new] and the
    blob price of [BlockEnv::default()]; alloy's root of the receipts. *)
Context (txenv_default : TxEnv) (op_new : TxEnv → OpTransaction)
  (calculate_receipt_root : list TypedReceipt → B256)
  (cache_new : Db → Cache) (default_blob : option BlobExcessGasAndPrice).
(** [slots_in_an_epoch]. *)
Context (slots : Z).
Abbreviation Node := (Backend Db StateDb Disk).
Abbreviation BcError := (BlockchainError BlobError).
Implicit Types (b : Node) (c : BackendConfig).

(** ** Identifiers *)

Definition get_block b (id : BlockId) : option Block :=
  let st := bk_chain b in
  let hash :=
    match id with
    | BlockIdHash h => Some h
    | BlockIdNumber Latest => Some (best_hash st)
    | BlockIdNumber Earliest => Some (genesis_hash st)
    | BlockIdNumber Pending => None
    | BlockIdNumber (Number num) => hashes st !! num
    | BlockIdNumber Safe =>
        if slots <? best_number st then hashes st !! (best_number st - slots)
        else Some (genesis_hash st)
    | BlockIdNumber Finalized =>
        if slots *w[64] 2 <? best_number st then hashes st !! (best_number st - slots *w[64] 2)
        else Some (genesis_hash st)
    end in
  hash ≫= λ h, blocks st !! h.

Definition convert_block_number b (block : option BlockNumberOrTag) : Z :=
  let current := best_number (bk_chain b) in
  match default Latest block with
  | Latest | Pending => current
  | Earliest => 0
  | Number num => num
  | Safe => saturating_sub current slots
  | Finalized => saturating_sub current (slots *w[64] 2)
  end.

Definition ensure_block_number b (id : option BlockId) : result Z BcError :=
  let current := best_number (bk_chain b) in
  requested ←? match default (BlockIdNumber Latest) id with
               | BlockIdHash h =>
                   match get_block b (BlockIdHash h) with
                   | Some block => Ok (hd_number block)
                   | None => Err BcBlockNotFound
                   end
               | BlockIdNumber (Latest | Pending) => Ok current
               | BlockIdNumber Earliest => Ok 0
               | BlockIdNumber (Number num) => Ok num
               | BlockIdNumber Safe => Ok (saturating_sub current slots)
               | BlockIdNumber Finalized => Ok (saturating_sub current (slots *w[64] 2))
               end;
  if current <? requested then Err (BcBlockOutOfRange current requested) else Ok requested.

(** ** Environments *)

Definition next_env (now : Z) b : EvmEnv :=
  let blk := env_blk (bk_env b) in
  {| env_cfg := env_cfg (bk_env b);
     env_blk :=
       {| blk_number := blk_number blk +s[256] 1; blk_beneficiary := blk_beneficiary blk;
          blk_timestamp := current_call_timestamp now (bk_time b);
          blk_gas_limit := blk_gas_limit blk; blk_basefee := base_fee (bk_fees b);
          blk_difficulty := blk_difficulty blk; blk_prevrandao := blk_prevrandao blk;
          blk_blob_excess_gas_and_price := blk_blob_excess_gas_and_price blk |} |}.

(** The block environment a stored block stands for. *)
Definition header_block_env (number : Z) (h : Header) : BlockEnv :=
  {| blk_number := number; blk_beneficiary := h_beneficiary h; blk_timestamp := h_timestamp h;
     blk_gas_limit := h_gas_limit h; blk_basefee := default 0 (h_base_fee_per_gas h);
     blk_difficulty := h_difficulty h; blk_prevrandao := Some (h_mix_hash h);
     blk_blob_excess_gas_and_price := default_blob |}.

(** ** Databases *)

(** [with_pending_block]: the block the given transactions would make, on a
    cache over the current database. *)
Definition with_pending_block {T} c (now : Z) b (pool_transactions : list PoolTransaction)
    (f : DynDb → Block → T) : outcome T :=
  let env := next_env now b in
  '(cache, executed) ←
    execute (validator := backend_validator blob_validate (validation_backend b))
      txenv_default op_new calculate_receipt_root (executor_config c b env)
      {| te_db := cache_new (bk_db b); te_pending := pool_transactions; te_gas_used := 0;
         te_blob_gas_used := 0 |};
  Ret (f (as_dyn cache) (et_block executed)).

Definition with_states b (st : BlockStates StateDb Disk) : Node :=
  {| bk_env := bk_env b; bk_fees := bk_fees b; bk_time := bk_time b; bk_cheats := bk_cheats b;
     bk_chain := bk_chain b; bk_states := st; bk_db := bk_db b;
     bk_disable_pool_balance_checks := bk_disable_pool_balance_checks b |}.

(** [with_database_at]; reading an archived state may bring it back from disk. *)
Definition with_database_at {T} c (now : Z) b (request : option BlockRequest)
    (f : DynDb → BlockEnv → T) : outcome (Node * result T BcError) :=
  match request with
  | Some (ReqPending pool_transactions) =>
      r ← with_pending_block c now b pool_transactions
            (λ state block, f state (header_block_env (hd_number block) (blk_header block)));
      Ret (b, Ok r)
  | _ =>
      let block_number :=
        convert_block_number b
          match request with Some (ReqNumber bn) => Some (Number bn) | _ => None end in
      let env_number := Z.min (blk_number (env_blk (bk_env b))) (umax 64) in
      Ret (
        if block_number <? env_number then
          match get_block b (BlockIdNumber (Number block_number)) with
          | Some block =>
              match get_state (bk_states b) (block_hash_slow block) with
              | (st, Some state) =>
                  (with_states b st,
                   Ok (f (as_dyn state) (header_block_env block_number (blk_header block))))
              | (st, None) => (with_states b st, Err (BcBlockOutOfRange env_number block_number))
              end
          | None => (b, Err (BcBlockOutOfRange env_number block_number))
          end
        else (b, Ok (f (as_dyn (bk_db b)) (env_blk (bk_env b)))))
  end.

(** ** Accounts *)

Definition get_account b (address : Address) : result AccountInfo DatabaseError :=
  match dyn_basic (as_dyn (bk_db b)) address with
  | Ok account => Ok (default account_default account)
  | Err e => Err e
  end.

(** [iter().max()]. *)
Definition max_of (l : list Z) : option Z :=
  match l with [] => None | x :: l => Some (foldl Z.max x l) end.

Definition get_pool_transactions_nonce (pool_transactions : list PoolTransaction)
    (address : Address) : option Z :=
  (λ highest_nonce, highest_nonce +s[64] 1) <$>
    max_of ((λ tx, pt_nonce (pending_transaction tx)) <$>
      filter (λ tx, pt_sender (pending_transaction tx) = address) pool_transactions).

Definition get_nonce c (now : Z) b (address : Address) (block_request : BlockRequest)
    : outcome (Node * result Z BcError) :=
  match
    match block_request with
    | ReqPending pool_transactions => get_pool_transactions_nonce pool_transactions address
    | ReqNumber _ => None
    end
  with
  | Some value => Ret (b, Ok value)
  | None =>
      let final_block_request :=
        match block_request with
        | ReqPending _ => ReqNumber (best_number (bk_chain b))
        | ReqNumber bn => ReqNumber bn
        end in
      '(b, r) ← with_database_at c now b (Some final_block_request) (λ db _,
        match dyn_basic db address with
        | Ok account => Ok (acc_nonce (default account_default account))
        | Err e => Err (BcDatabase e)
        end);
      Ret (b, n ←? r; n)
  end.
End query.

(** ** Specification *)

Lemma foldl_max_ge l x : x ≤ foldl Z.max x l.
Proof. revert x. induction l as [|y l IH]; intros x; simpl; [done|]. specialize (IH (Z.max x y)). lia. Qed.

Lemma foldl_max_spec l x : foldl Z.max x l ∈ x :: l ∧ ∀ y, y ∈ x :: l → y ≤ foldl Z.max x l.
Proof.
  revert x. induction l as [|z l IH]; intros x; simpl; [split; [set_solver|intros y ->%list_elem_of_singleton; done]|].
  destruct (IH (Z.max x z)) as [Hin Hle]. split.
  - apply elem_of_cons in Hin as [->|Hin]; [|set_solver].
    destruct (Z.max_spec x z) as [[_ ->]|[_ ->]]; set_solver.
  - pose proof (foldl_max_ge l (Z.max x z)).
    intros y. rewrite !elem_of_cons. intros [->|[->|Hy]]; [lia..|]. apply Hle. set_solver.
Qed.

(** What the pool says about the next nonce of an account. *)
Lemma pool_nonce_spec {ext : TxExternals} (l : list PoolTransaction) (a : Address) :
  match get_pool_transactions_nonce l a with
  | Some n => ∃ t, t ∈ l ∧ ptx_sender t = a ∧ n = pt_nonce (pending_transaction t) +s[64] 1 ∧
      ∀ t', t' ∈ l → ptx_sender t' = a →
        pt_nonce (pending_transaction t') ≤ pt_nonce (pending_transaction t)
  | None => ∀ t, t ∈ l → ptx_sender t ≠ a
  end.
Proof.
  unfold get_pool_transactions_nonce.
  assert (∀ t, t ∈ filter (λ tx, pt_sender (pending_transaction tx) = a) l ↔ t ∈ l ∧ ptx_sender t = a)
    as Hf by (intros t; rewrite list_elem_of_filter; unfold ptx_sender; tauto).
  destruct (filter _ l) as [|t0 k]; [|rewrite fmap_cons]; cbn [max_of].
  - intros t Ht E. specialize (proj2 (Hf t) (conj Ht E)). apply not_elem_of_nil.
  - pose proof (foldl_max_spec ((λ tx, pt_nonce (pending_transaction tx)) <$> k)
      (pt_nonce (pending_transaction t0))) as [Hin Hle].
    rewrite <- (fmap_cons (λ tx, pt_nonce (pending_transaction tx)) t0 k) in Hin, Hle.
    apply list_elem_of_fmap in Hin as (t & Et & Ht). rewrite Et in Hle |- *. exists t.
    apply Hf in Ht as [Ht ?]. split_and!; [done..|].
    intros t' Ht' E'. apply Hle, list_elem_of_fmap. exists t'. by rewrite Hf.
Qed.

Section query_spec.
Context {ext : TxExternals} {specs : SpecIds} {bext : BlockExternals} {rt : RevmTypes}
  {Db Cache StateDb Snapshot Disk : Type} {cevm : RevmDb Cache}
  {dref : DatabaseRef Db} {cref : DatabaseRef Cache} {sref : DatabaseRef StateDb}
  {sdb : StateDbOps StateDb Snapshot} {dc : FileSystem Disk Snapshot} {kext : BackendExternals}
  {BlobError : Type} (blob_validate : TxEip4844Variant → result unit BlobError).
Context (txenv_default : TxEnv) (op_new : TxEnv → OpTransaction)
  (calculate_receipt_root : list TypedReceipt → B256)
  (cache_new : Db → Cache) (default_blob : option BlobExcessGasAndPrice) (slots : Z).
Implicit Types (b : Backend Db StateDb Disk) (c : BackendConfig).
Abbreviation at_block :=
  (with_database_at blob_validate txenv_default op_new calculate_receipt_root cache_new
     default_blob slots).

(** A request at the best block sees the current database. *)
Lemma at_latest {T} c now b (f : DynDb → BlockEnv → T) :
  blk_number (env_blk (bk_env b)) = best_number (bk_chain b) →
  at_block c now b (Some (ReqNumber (best_number (bk_chain b)))) f =
    Ret (b, Ok (f (as_dyn (bk_db b)) (env_blk (bk_env b)))).
Proof.
  intros E. unfold with_database_at, convert_block_number. cbn [from_option id]. rewrite E.
  rewrite (proj2 (Z.ltb_ge _ _)) by lia. done.
Qed.

Lemma with_states_inv b st :
  node_inv b → states_inv st →
  (∀ h, known st h → known (bk_states b) h) →
  node_inv (with_states b st).
Proof. intros [] Hs Hl. split; simpl; auto. Qed.

(** A request below the best block sees the archived state of that block. *)
Lemma at_archived {T} c now b n h block s (f : DynDb → BlockEnv → T) :
  node_inv b → n < best_number (bk_chain b) ≤ umax 64 → hashes (bk_chain b) !! n = Some h →
  blocks (bk_chain b) !! h = Some block → content (bk_states b) h = Some s →
  ∃ b', at_block c now b (Some (ReqNumber n)) f =
      Ret (b', Ok (f (as_dyn s) (header_block_env default_blob n (blk_header block)))) ∧
    node_inv b' ∧ ∀ h', content (bk_states b') h' ≡ content (bk_states b) h'.
Proof.
  intros Hi Hn Hh Hb Hs. unfold with_database_at; simpl.
  unfold convert_block_number. cbn [from_option id]. rewrite (ni_number _ Hi).
  rewrite (proj2 (Z.ltb_lt _ _)) by lia. unfold get_block. rewrite Hh; simpl. rewrite Hb.
  assert (block_hash_slow block = h) as ->.
  { symmetry. apply (ni_filed _ Hi). by rewrite lookup_fmap, Hb. }
  pose proof (get_state_spec (bk_states b) h) as Hg.
  destruct (get_state (bk_states b) h) as [st o] eqn:Eg. destruct Hg as (-> & Hc & Hkn & Hst).
  rewrite Hs in *. exists (with_states b st). split; [done|]. split; [|done].
  apply with_states_inv; [done|by apply Hst, Hi|done].
Qed.

(** The nonce of the next transaction of an account. *)
Lemma get_nonce_pending c now b a l :
  blk_number (env_blk (bk_env b)) = best_number (bk_chain b) →
  get_nonce blob_validate txenv_default op_new calculate_receipt_root cache_new default_blob slots
    c now b a (ReqPending l) =
  Ret (b, match get_pool_transactions_nonce l a with
          | Some n => Ok n
          | None => match get_account b a with
                    | Ok acc => Ok (acc_nonce acc)
                    | Err e => Err (BcDatabase e)
                    end
          end).
Proof.
  intros E. unfold get_nonce. destruct (get_pool_transactions_nonce l a); [done|].
  rewrite at_latest by done. rewrite bind_Ret. unfold get_account.
  by destruct (dyn_basic _ _).
Qed.

Context {laws : RevmLaws (evm := cevm)}.

(** The environment of the pending block has the fields the hardfork reads. *)
Lemma next_env_header now b : header_complete (bk_env b) → header_complete (next_env now b).
Proof. intros Hh err Herr. apply (Hh err). by destruct err. Qed.

(** Without a precompile factory the pending block can always be built. *)
Lemma pending_block_spec {T} c now b txs (f : DynDb → Block → T) :
  node_inv b → bc_precompile_factory c = false →
  ∃ (cache : Cache) r,
    with_pending_block blob_validate txenv_default op_new calculate_receipt_root cache_new
      c now b txs f = Ret (f (as_dyn cache) (et_block r)) ∧
    block_executed (validator := backend_validator blob_validate (validation_backend b))
      (executor_config c b (next_env now b)) txs r.
Proof.
  intros Hi Hpf.
  pose proof (backend_validator_total blob_validate (validation_backend b) (ni_chain_id _ Hi)).
  destruct (execute_spec (validator := backend_validator blob_validate (validation_backend b))
    txenv_default op_new calculate_receipt_root (executor_config c b (next_env now b))
    {| te_db := cache_new (bk_db b); te_pending := txs; te_gas_used := 0; te_blob_gas_used := 0 |})
    as (db & r & E & Hr); [by split; [apply next_env_header, Hi|]|done|done|apply (ni_gas_limit _ Hi)|apply (ni_blob_limit _ Hi)|].
  exists db, r. split; [|done]. unfold with_pending_block. by rewrite E.
Qed.

(** Every request for a database is answered, and keeps the node consistent. *)
Lemma with_database_at_total {T} c now b req (f : DynDb → BlockEnv → T) :
  node_inv b → bc_precompile_factory c = false →
  ∃ b' r, at_block c now b req f = Ret (b', r) ∧ node_inv b' ∧
    (∃ st, b' = with_states b st) ∧
    ∀ h, content (bk_states b') h ≡ content (bk_states b) h.
Proof.
  intros Hi Hpf. assert (b = with_states b (bk_states b)) as Eb by (by destruct b).
  assert (∀ h o st, get_state (bk_states b) h = (st, o) →
    node_inv (with_states b st) ∧ ∀ h, content st h ≡ content (bk_states b) h) as Hget.
  { intros h o st Eg. pose proof (get_state_spec (bk_states b) h) as Hg. rewrite Eg in Hg.
    destruct Hg as (_ & Hc & Hkn & Hs). split; [|done].
    apply with_states_inv; [done|by apply Hs, Hi|done]. }
  unfold with_database_at. destruct req as [[txs|n]|].
  - destruct (pending_block_spec c now b txs
      (λ state block, f state (header_block_env default_blob (hd_number block) (blk_header block)))
      Hi Hpf) as (cache & r & -> & _). rewrite bind_Ret. eexists _, _. eauto.
  - repeat case_match; eexists _, _; (split; [reflexivity|]); eauto;
      by edestruct Hget as [? ?]; [eassumption|]; eauto.
  - repeat case_match; eexists _, _; (split; [reflexivity|]); eauto;
      by edestruct Hget as [? ?]; [eassumption|]; eauto.
Qed.
End query_spec.

(** ** Properties *)

(** C24: the history of the node is the past of its database.  On a consistent
    node that keeps the history of its states, has no precompile factory, fewer
    than 2^64 - 1 blocks, a clock below the largest [u64] and a next timestamp
    chrono has a date for, a block of any transactions is mined on top of a
    stored best block.  A request at the number of the old best block is then
    answered with the database as it was before mining and with the environment
    of the old block's header, while a request at the new best number sees the
    new database and environment; neither changes which states other requests
    find. *)
Theorem historical_query {ext : TxExternals} {specs : SpecIds} {bext : BlockExternals}
    {rt : RevmTypes} {Db Cache StateDb Snapshot Disk : Type} {evm : RevmDb Db}
    {cevm : RevmDb Cache} {dref : DatabaseRef Db} {cref : DatabaseRef Cache}
    {sref : DatabaseRef StateDb} {sdb : StateDbOps StateDb Snapshot}
    {dc : FileSystem Disk Snapshot} {sops : StateOps Db StateDb} {kext : BackendExternals}
    {laws : RevmLaws (evm := evm)} {hh : HeaderHash} {BlobError : Type}
    (blob_validate : TxEip4844Variant → result unit BlobError) (txenv_default : TxEnv)
    (op_new : TxEnv → OpTransaction) (calculate_receipt_root : list TypedReceipt → B256)
    (cache_new : Db → Cache) (default_blob : option BlobExcessGasAndPrice) (slots : Z)
    (c : BackendConfig) (now now' : Z) (b : Backend Db StateDb Disk) (block : Block)
    (txs : list PoolTransaction) {T : Type} (f : DynDb → BlockEnv → T) :
  node_inv b → in_range c now b → is_state_history_supported c = true →
  blocks (bk_chain b) !! best_hash (bk_chain b) = Some block →
  let at_block :=
    with_database_at blob_validate txenv_default op_new calculate_receipt_root cache_new
      default_blob slots in
  ∃ b' o,
    do_mine_block blob_validate txenv_default op_new calculate_receipt_root c now b txs
      = Ret (b', o) ∧
    at_block c now' b' (Some (ReqNumber (best_number (bk_chain b')))) f =
      Ret (b', Ok (f (as_dyn (bk_db b')) (env_blk (bk_env b')))) ∧
    ∃ b'',
      at_block c now' b' (Some (ReqNumber (best_number (bk_chain b)))) f =
        Ret (b'', Ok (f (as_dyn (current_state (bk_db b)))
                     (header_block_env default_blob (best_number (bk_chain b))
                        (blk_header block)))) ∧
      node_inv b'' ∧ ∀ h, content (bk_states b'') h ≡ content (bk_states b') h.
Proof.
  intros Hi Hr Hs Hb at_block.
  destruct (do_mine_block_spec blob_validate txenv_default op_new calculate_receipt_root c now b txs
    Hi Hr) as (b' & o & E & Hm). destruct Hr as [[H1 _] _]. exists b', o. split; [exact E|].
  pose proof (bm_inv _ _ _ _ _ _ Hm) as Hi'. split; [apply at_latest, Hi'|].
  pose proof (bm_headers _ _ _ _ _ _ Hm) as Hsub.
  assert ((blk_header <$> blocks (bk_chain b')) !! best_hash (bk_chain b) = Some (blk_header block))
    as Hb'.
  { eapply lookup_weaken; [|exact Hsub]. by rewrite lookup_fmap, Hb. }
  apply lookup_fmap_Some in Hb' as (block' & <- & Hb').
  destruct (bm_number _ _ _ _ _ _ Hm) as [_ En].
  apply (at_archived blob_validate txenv_default op_new calculate_receipt_root cache_new default_blob
    slots c now' b' _ (best_hash (bk_chain b)) block'); try done; [lia| |].
  - rewrite (bm_history _ _ _ _ _ _ Hm) by lia. apply Hi.
  - by apply (bm_state _ _ _ _ _ _ Hm).
Qed.

(** Databases of the example node: accounts are empty, and a state shows its
    content as the nonce of every account. *)
Definition ex_dyn (n : Z) : DynDb (rt := ex_revm_types) :=
  {| dyn_basic := λ _, Ok (Some {| acc_nonce := n; acc_balance := 10 ^ 18 |});
     dyn_code := λ _, Ok []; dyn_call := λ _ _ g, Ok (Success 21000) |}.
#[export] Instance ex_db_ref : DatabaseRef unit (rt := ex_revm_types) := λ _, ex_dyn 0.
#[export] Instance ex_state_ref : DatabaseRef (option nat) (rt := ex_revm_types) :=
  λ s, ex_dyn (Z.of_nat (default 0%nat s)).

Definition ex_nonce_of (db : DynDb (rt := ex_revm_types)) (_ : BlockEnv) : option Z :=
  match dyn_basic db 0 with Ok (Some a) => Some (acc_nonce a) | _ => None end.

Lemma historical_query_witness :
  ∃ b' o b'',
    do_mine_block (ext := ex_externals) (specs := ex_specs) (bext := ex_block_externals)
      (rt := ex_revm_types) (evm := ex_revm) (kext := ex_backend_externals)
      (λ _, Ok tt : result unit unit) ex_txenv ex_op_new (λ l, Z.of_nat (length l))
      ex_backend_config 105 ex_node [pool_tx_new (ex_legacy 31337)] = Ret (b', o) ∧
    with_database_at (cevm := ex_revm) (ext := ex_externals) (specs := ex_specs)
      (bext := ex_block_externals) (kext := ex_backend_externals)
      (λ _, Ok tt : result unit unit) ex_txenv ex_op_new (λ l, Z.of_nat (length l)) id None 32
      ex_backend_config 106 b' (Some (ReqNumber 0)) ex_nonce_of = Ret (b'', Ok (Some 5)).
Proof.
  destruct (historical_query (ext := ex_externals) (specs := ex_specs)
    (bext := ex_block_externals) (rt := ex_revm_types) (evm := ex_revm) (cevm := ex_revm)
    (kext := ex_backend_externals) (laws := ex_revm_laws) (hh := ex_header_hash)
    (λ _, Ok tt : result unit unit) ex_txenv ex_op_new (λ l, Z.of_nat (length l)) id None 32
    ex_backend_config 105 106 ex_node {| blk_header := ex_header 0; blk_transactions := []; blk_ommers := [] |}
    [pool_tx_new (ex_legacy 31337)] ex_nonce_of ex_node_inv)
    as (b' & o & E & _ & b'' & E' & _).
  - repeat split; by vm_compute.
  - reflexivity.
  - reflexivity.
  - exists b', o, b''. split; [exact E|exact E'].
Defined.
