(* ===== verification/Send.v ===== *)
(** * Sending transactions (crates/anvil/src/eth/api.rs, src/eth/sign.rs)

    The handlers [send_transaction], [send_raw_transaction] and
    [eth_send_unsigned_transaction] as a whole, over the pool, the backend and
    the signers: nonce, gas estimation, defaults, signature or impersonation,
    hardfork check, validation and insertion.  A handler is a computation over
    the node that may fail with an error and may panic ([handler], a monad). *)

From stdpp Require Import prelude gmap list.
From S2P Require Import Prelude Containers Transaction PendingPool ReadyPool PoolIter Pool PoolSpec Fees Env TimeManager Cheats Validate BlockStates Block Chain Executor Mine Api Estimate Query.

Open Scope Z_scope.

(** ** Signing (src/eth/sign.rs) *)

(** Code of alloy: the hash of a signed payload, the address of a key, the
    signature of a payload, and the decoding of a raw transaction. *)
Class SignExternals (Wallet : Type) := {
  signed_hash_of : ∀ T : Type, T → Signature → B256;
  wallet_address : Wallet → Address;
  wallet_sign : Wallet → TypedTransactionRequest → result Signature unit;
  decode_2718 : Bytes → result TypedTransaction unit
}.

(** [Transaction::into_signed]. *)
Definition into_signed {Wallet T : Type} `{SignExternals Wallet} (tx : T) (sig : Signature)
    : Signed T :=
  {| signed_tx := tx; signed_signature := sig; signed_hash := signed_hash_of T tx sig |}.

(** The errors of a signer: no key for the account, or the key failed. *)
Inductive SignerError : Type := SgNoSignerAvailable | SgSigner.

(** The trait [Signer], the part the handlers use. *)
Record Signer := {
  sg_accounts : list Address;
  sg_sign_transaction : TypedTransactionRequest → Address → outcome (result Signature SignerError)
}.

Section signing.
Context {Wallet : Type} {sext : SignExternals Wallet}.

Record DevSigner := { ds_addresses : list Address; ds_accounts : gmap Address Wallet }.

(** [collect] into a map keeps the last wallet of an address. *)
Definition dev_signer_new (accounts : list Wallet) : DevSigner :=
  let addresses := wallet_address <$> accounts in
  {| ds_addresses := addresses;
     ds_accounts := foldl (λ (m : gmap Address Wallet) e, <[e.1 := e.2]> m) ∅ (zip addresses accounts) |}.

(** [sign_transaction]: [unreachable!] for deposits, once a key is found. *)
Definition dev_sign_transaction (s : DevSigner) (request : TypedTransactionRequest)
    (address : Address) : outcome (result Signature SignerError) :=
  match ds_accounts s !! address with
  | None => Ret (Err SgNoSignerAvailable)
  | Some signer =>
      match request with
      | ReqDeposit _ => Panic
      | _ => Ret (match wallet_sign signer request with Ok sig => Ok sig | Err _ => Err SgSigner end)
      end
  end.

Definition dev_signer (s : DevSigner) : Signer :=
  {| sg_accounts := ds_addresses s; sg_sign_transaction := dev_sign_transaction s |}.

(** [build_typed_transaction] always succeeds. *)
Definition build_typed_transaction (request : TypedTransactionRequest) (sig : Signature)
    : TypedTransaction :=
  match request with
  | ReqLegacy tx => Legacy (into_signed tx sig)
  | ReqEIP2930 tx => EIP2930 (into_signed tx sig)
  | ReqEIP1559 tx => EIP1559 (into_signed tx sig)
  | ReqEIP7702 tx => EIP7702 (into_signed tx sig)
  | ReqEIP4844 tx => EIP4844 (into_signed tx sig)
  | ReqDeposit tx => Deposit tx
  end.

(** [Signature::from_scalars_and_parity(1, 1, false)]. *)
Definition nil_signature : Signature := {| sig_r := 1; sig_s := 1; sig_parity := false |}.

Definition impersonated_signature (request : TypedTransactionRequest) : Signature :=
  match request with ReqLegacy _ => nil_signature | _ => nil_signature end.
End signing.
Arguments DevSigner : clear implicits.

(** ** The node as the handlers see it *)

Section send.
Context {order : HashOrder TxHash} {ext : TxExternals} {specs : SpecIds} {bext : BlockExternals}
  {rt : RevmTypes} {Db Cache StateDb Snapshot Disk : Type} {cevm : RevmDb Cache}
  {dref : DatabaseRef Db} {cref : DatabaseRef Cache} {sref : DatabaseRef StateDb}
  {sdb : StateDbOps StateDb Snapshot} {dc : FileSystem Disk Snapshot} {kext : BackendExternals}
  {Wallet : Type} {sext : SignExternals Wallet} {BlobError : Type}
  (blob_validate : TxEip4844Variant → result unit BlobError).
Context (txenv_default : TxEnv) (op_new : TxEnv → OpTransaction)
  (calculate_receipt_root : list TypedReceipt → B256)
  (cache_new : Db → Cache) (default_blob : option BlobExcessGasAndPrice) (slots : Z).
Context {Sender : Type} (try_send : Sender → TxHash → Sender * result unit bool).
(** The configuration, the time and the number of ready transactions drawn. *)
Context (c : BackendConfig) (now : Z) (fuel : nat).
Abbreviation BcError := (BlockchainError BlobError).

Record EthApi := {
  api_pool : PoolInner;
  api_listeners : list Sender;
  api_backend : Backend Db StateDb Disk;
  api_signers : list Signer;
  api_order : TransactionOrder;
  api_fee_cache : gmap Z (list Z)
}.

Definition with_backend (a : EthApi) (b : Backend Db StateDb Disk) : EthApi :=
  {| api_pool := api_pool a; api_listeners := api_listeners a; api_backend := b;
     api_signers := api_signers a; api_order := api_order a; api_fee_cache := api_fee_cache a |}.

Definition with_pool (a : EthApi) (p : PoolInner) (l : list Sender) : EthApi :=
  {| api_pool := p; api_listeners := l; api_backend := api_backend a;
     api_signers := api_signers a; api_order := api_order a; api_fee_cache := api_fee_cache a |}.

(** Handlers: state, errors and panics. *)
Definition handler (A : Type) : Type := EthApi → outcome (EthApi * result A BcError).
#[local] Instance handler_ret : MRet handler := λ A x a, Ret (a, Ok x).
#[local] Instance handler_bind : MBind handler := λ A B f m a,
  m a ≫= λ '(a, r), match r with Ok x => f x a | Err e => Ret (a, Err e) end.

(** The state, a result and an outcome as handlers. *)
Definition h_get : handler EthApi := λ a, Ret (a, Ok a).
Definition h_result {A} (r : result A BcError) : handler A := λ a, Ret (a, r).
Definition h_outcome {A} (o : outcome A) : handler A := λ a, o ≫= λ x, Ret (a, Ok x).
(** A call of the backend. *)
Definition h_backend {A}
    (f : Backend Db StateDb Disk → outcome (Backend Db StateDb Disk * result A BcError))
    : handler A :=
  λ a, f (api_backend a) ≫= λ '(b, r), Ret (with_backend a b, r).
(** [if let Ok(x) = m]: an error is dropped. *)
Definition h_ok {A} (m : handler A) : handler (option A) :=
  λ a, m a ≫= λ '(a, r), Ret (a, Ok (match r with Ok x => Some x | Err _ => None end)).

(** ** Nonces and gas *)

Definition block_request (id : option BlockId) : handler BlockRequest :=
  a ← h_get;
  match id with
  | Some (BlockIdNumber Pending) =>
      pending_txs ← h_outcome (iter_collect fuel (get_transactions (pool_ready (api_pool a))));
      mret (ReqPending pending_txs)
  | _ =>
      number ← h_result (ensure_block_number slots (api_backend a) id);
      mret (ReqNumber number)
  end.

Definition get_transaction_count (address : Address) (id : option BlockId) : handler Z :=
  request ← block_request id;
  h_backend (λ b,
    get_nonce blob_validate txenv_default op_new calculate_receipt_root cache_new default_blob slots
      c now b address request).

(** [request_nonce], on top of the count of pending transactions. *)
Definition api_request_nonce (r : TransactionRequest) (from : Address) : handler (Z * Z) :=
  highest_nonce ← get_transaction_count from (Some (BlockIdNumber Pending));
  mret (request_nonce r highest_nonce).

(** [do_estimate_gas] without overrides and [estimate_gas]. *)
Definition do_estimate_gas (r : TransactionRequest) (other : OtherFields) (id : option BlockId)
    : handler Z :=
  request ← block_request id;
  estimate ← h_backend (λ b,
    with_database_at blob_validate txenv_default op_new calculate_receipt_root cache_new
      default_blob slots c now b (Some request) (λ db blk,
        do_estimate_gas_with_state
          (dyn_call db {| env_cfg := env_cfg (bk_env b); env_blk := blk |} r)
          (dyn_code db)
          (λ addr, match dyn_basic db addr with
                   | Ok acc => Ok (acc_balance (default account_default acc))
                   | Err e => Err e
                   end)
          r other (blk_gas_limit blk)));
  r ← h_outcome estimate;
  h_result (match r with Ok gas => Ok gas | Err e => Err (BcEstimate e) end).

Definition estimate_gas (r : TransactionRequest) (other : OtherFields) (id : option BlockId)
    : handler Z :=
  do_estimate_gas r other
    (match id with Some id => Some id | None => Some (BlockIdNumber Pending) end).

Definition set_gas (r : TransactionRequest) (gas : option Z) : TransactionRequest :=
  {| req_from := req_from r; req_to := req_to r; req_gas_price := req_gas_price r;
     req_max_fee_per_gas := req_max_fee_per_gas r;
     req_max_priority_fee_per_gas := req_max_priority_fee_per_gas r;
     req_max_fee_per_blob_gas := req_max_fee_per_blob_gas r;
     req_blob_versioned_hashes := req_blob_versioned_hashes r; req_gas := gas;
     req_value := req_value r; req_input := req_input r; req_nonce := req_nonce r;
     req_access_list := req_access_list r; req_sidecar := req_sidecar r;
     req_transaction_type := req_transaction_type r;
     req_authorization_list := req_authorization_list r; req_chain_id := req_chain_id r |}.

(** The gas limit of a request that names none is estimated, when that
    succeeds; [gas.to()] panics on a value beyond 64 bits. *)
Definition fill_gas (r : TransactionRequest) (other : OtherFields) : handler TransactionRequest :=
  match req_gas r with
  | Some _ => mret r
  | None =>
      estimate ← h_ok (estimate_gas r other None);
      match estimate with
      | Some gas => _ ← h_outcome (assert_ (gas <=? umax 64)); mret (set_gas r (Some gas))
      | None => mret r
      end
  end.

(** ** Accounts and signatures *)

(** [iter.filter(|acc| unique.insert(acc))] on top of [seen]. *)
Fixpoint dedup (seen : gset Address) (l : list Address) : list Address :=
  match l with
  | [] => []
  | x :: l => if decide (x ∈ seen) then dedup seen l else x :: dedup ({[x]} ∪ seen) l
  end.

(** [accounts]: those of the signers, then the impersonated ones. *)
Definition accounts {aorder : HashOrder Address} (a : EthApi) : list Address :=
  dedup ∅ (concat (sg_accounts <$> api_signers a) ++
           set_iter (impersonated_accounts (bk_cheats (api_backend a)))).

(** The first signer that has the account signs. *)
Definition sign_with_account (from : Address) (request : TypedTransactionRequest)
    : handler TypedTransaction :=
  a ← h_get;
  match list_find (λ s, from ∈ sg_accounts s) (api_signers a) with
  | Some (_, signer) =>
      r ← h_outcome (sg_sign_transaction signer request from);
      sig ← h_result (match r with
                      | Ok s => Ok s
                      | Err SgNoSignerAvailable => Err BcNoSignerAvailable
                      | Err SgSigner => Err BcSigner
                      end);
      mret (build_typed_transaction request sig)
  | None => h_result (Err BcNoSignerAvailable)
  end.

Definition sign_request (from : Address) (request : TypedTransactionRequest)
    : handler TypedTransaction :=
  match request with
  | ReqDeposit _ => mret (build_typed_transaction request nil_signature)
  | _ => sign_with_account from request
  end.

(** [ensure_typed_transaction_supported] with the checks of the backend. *)
Definition ensure_typed_transaction_supported (b : Backend Db StateDb Disk) (tx : TypedTransaction)
    : result unit BcError :=
  match tx with
  | EIP2930 _ => err_if (negb (BERLIN <=? spec_id b)) BcEIP2930TransactionUnsupportedAtHardfork
  | EIP1559 _ => err_if (negb (LONDON <=? spec_id b)) BcEIP1559TransactionUnsupportedAtHardfork
  | EIP4844 _ => err_if (negb (CANCUN <=? spec_id b)) BcEIP4844TransactionUnsupportedAtHardfork
  | EIP7702 _ => err_if (negb (PRAGUE <=? spec_id b)) BcEIP7702TransactionUnsupportedAtHardfork
  | Deposit _ => err_if (negb (bc_optimism c)) BcDepositTransactionUnsupported
  | Legacy _ => Ok tt
  end.

(** [Backend::validate_pool_transaction]. *)
Definition validate_pool_transaction (b : Backend Db StateDb Disk) (tx : PendingTransaction)
    : outcome (result unit BcError) :=
  match get_account b (pt_sender tx) with
  | Err e => Ret (Err (BcDatabase e))
  | Ok account =>
      r ← validate_pool_transaction_for blob_validate (validation_backend b) tx account
            (next_env now b);
      Ret (match r with Ok _ => Ok tt | Err e => Err (BcInvalidTransaction e) end)
  end.

(** ** Handlers *)

Definition tx_defaults (a : EthApi) : TxDefaults :=
  let b := api_backend a in
  {| df_chain_id := cfg_chain_id (env_cfg (bk_env b));
     df_gas_limit := blk_gas_limit (env_blk (bk_env b));
     df_gas_price := api_gas_price (bk_fees b) (api_fee_cache a) (best_number (bk_chain b));
     df_blob := excess_blob_gas_and_price (bk_fees b);
     df_cheats := bk_cheats b |}.

Definition api_build_typed_tx_request (r : TransactionRequest) (other : OtherFields) (nonce : Z)
    : handler TypedTransactionRequest :=
  a ← h_get;
  r ← h_outcome (build_typed_tx_request (tx_defaults a) r other nonce);
  h_result (match r with Ok t => Ok t | Err _ => Err BcFailedToDecodeTransaction end).

(** [self.pool.add_transaction(..)?] and the hash of the result. *)
Definition add_to_pool (t : PoolTransaction) : handler TxHash := λ a,
  '(p, l, r) ← pool_add_transaction try_send now (api_pool a, api_listeners a) t;
  Ret (with_pool a p l, match r with Ok added => Ok (added_hash added) | Err e => Err (BcPool e) end).

Definition add_pending_transaction (pending : PendingTransaction) (reqs provs : list TxMarker)
    : handler TxHash :=
  a ← h_get; add_to_pool (pending_pool_transaction (api_order a) pending reqs provs).

(** The two ways to a pending transaction: impersonation bypasses signing. *)
Definition impersonate_request (request : TypedTransactionRequest) (from : Address)
    : handler PendingTransaction :=
  a ← h_get;
  let transaction := build_typed_transaction request (impersonated_signature request) in
  _ ← h_result (ensure_typed_transaction_supported (api_backend a) transaction);
  mret (pending_with_impersonated transaction from).

Definition sign_pending (request : TypedTransactionRequest) (from : Address)
    : handler PendingTransaction :=
  transaction ← sign_request from request;
  a ← h_get;
  _ ← h_result (ensure_typed_transaction_supported (api_backend a) transaction);
  h_result (match pending_new transaction with Ok p => Ok p | Err _ => Err BcSignatureError end).

(** [self.backend.validate_pool_transaction(&pending_transaction).await?]. *)
Definition pre_validate (pending : PendingTransaction) : handler unit :=
  a ← h_get;
  r ← h_outcome (validate_pool_transaction (api_backend a) pending);
  h_result r.

(** The sender of a request: its own, or the first account of the node. *)
Definition request_sender {aorder : HashOrder Address} (r : TransactionRequest) : handler Address :=
  a ← h_get;
  h_result (match req_from r with
            | Some from => Ok from
            | None => match accounts a with from :: _ => Ok from | [] => Err BcNoSignerAvailable end
            end).

Definition send_transaction {aorder : HashOrder Address} (r : TransactionRequest)
    (other : OtherFields) : handler TxHash :=
  from ← request_sender r;
  '(nonce, on_chain_nonce) ← api_request_nonce r from;
  r ← fill_gas r other;
  request ← api_build_typed_tx_request r other nonce;
  a ← h_get;
  pending ← (if is_impersonated (bk_cheats (api_backend a)) from
             then impersonate_request request from else sign_pending request from);
  _ ← pre_validate pending;
  add_pending_transaction pending (required_marker nonce on_chain_nonce from) [to_marker nonce from].

Definition eth_send_unsigned_transaction (r : TransactionRequest) (other : OtherFields)
    : handler TxHash :=
  from ← h_result (match req_from r with Some from => Ok from | None => Err BcNoSignerAvailable end);
  '(nonce, on_chain_nonce) ← api_request_nonce r from;
  request ← api_build_typed_tx_request r other nonce;
  pending ← impersonate_request request from;
  _ ← pre_validate pending;
  add_pending_transaction pending (required_marker nonce on_chain_nonce from) [to_marker nonce from].

Definition send_raw_transaction (tx : Bytes) : handler TxHash :=
  _ ← h_result (err_if (bool_decide (tx = [])) BcEmptyRawTransactionData);
  transaction ← h_result (match decode_2718 tx with
                          | Ok t => Ok t
                          | Err _ => Err BcFailedToDecodeSignedTransaction
                          end);
  a ← h_get;
  _ ← h_result (ensure_typed_transaction_supported (api_backend a) transaction);
  pending ← h_result (match pending_new transaction with Ok p => Ok p | Err _ => Err BcSignatureError end);
  _ ← pre_validate pending;
  on_chain_nonce ← h_result (match get_account (api_backend a) (pt_sender pending) with
                             | Ok acc => Ok (acc_nonce acc)
                             | Err e => Err (BcDatabase e)
                             end);
  add_to_pool (raw_pool_transaction (api_order a) pending on_chain_nonce).
End send.

(** ** Specification *)

(** A handler whose run leaves the node as it is, states read from disk apart,
    and whose value satisfies [Q]. *)
Section send_spec.
Context {order : HashOrder TxHash} {pol : TxPolicy} {ext : TxExternals} {specs : SpecIds}
  {bext : BlockExternals} {rt : RevmTypes} {Db Cache StateDb Snapshot Disk : Type}
  {cevm : RevmDb Cache}
  {dref : DatabaseRef Db} {cref : DatabaseRef Cache} {sref : DatabaseRef StateDb}
  {sdb : StateDbOps StateDb Snapshot} {dc : FileSystem Disk Snapshot} {kext : BackendExternals}
  {Wallet : Type} {sext : SignExternals Wallet} {BlobError : Type}
  (blob_validate : TxEip4844Variant → result unit BlobError).
Context (txenv_default : TxEnv) (op_new : TxEnv → OpTransaction)
  (calculate_receipt_root : list TypedReceipt → B256)
  (cache_new : Db → Cache) (default_blob : option BlobExcessGasAndPrice) (slots : Z).
Context {Sender : Type} (try_send : Sender → TxHash → Sender * result unit bool).
Context (c : BackendConfig) (now : Z) (fuel : nat).
Context {laws : RevmLaws (evm := cevm)}.
Abbreviation Api := (EthApi (Db := Db) (StateDb := StateDb) (Disk := Disk) (Sender := Sender)).
Abbreviation BcError := (BlockchainError BlobError).
Abbreviation handler := (handler (Db := Db) (StateDb := StateDb) (Disk := Disk) (Sender := Sender)
  (BlobError := BlobError)).
Implicit Types a : Api.

(** Signers answer for everything but deposits. *)
Definition signer_total (s : Signer) : Prop :=
  ∀ request addr, (∀ t, request ≠ ReqDeposit t) →
    ∃ r, sg_sign_transaction s request addr = Ret r.

Record api_inv a : Prop := {
  ai_pool : pool_inv (api_pool a);
  ai_node : node_inv (api_backend a);
  ai_signers : Forall signer_total (api_signers a)
}.

(** The same node, up to archived states that were read from disk. *)
Definition same_node a a' : Prop :=
  ∃ st, a' = with_backend a (with_states (api_backend a) st) ∧
    ∀ h, content st h ≡ content (bk_states (api_backend a)) h.

#[local] Instance same_node_refl : Reflexive same_node.
Proof. intros a. exists (bk_states (api_backend a)). split; [|done]. by destruct a as [? ? [] ? ? ?]. Qed.

#[local] Instance same_node_trans : Transitive same_node.
Proof.
  intros a a' a'' (st & -> & H1) (st' & -> & H2). exists st'. split; [done|].
  intros h. by rewrite H2; simpl.
Qed.

Section run_from.
Context (a0 : Api).

Definition good a : Prop := api_inv a ∧ same_node a0 a.

(** From a node like [a0], the handler returns, leaves a node like [a0] and
    gives a value with [Q]. *)
Definition reads {A} (m : handler A) (Q : A → Prop) : Prop :=
  ∀ a, good a → ∃ a' r, m a = Ret (a', r) ∧ good a' ∧ ∀ x, r = Ok x → Q x.

Lemma reads_bind {A B} (m : handler A) (f : A → handler B) (Q : A → Prop) (R : B → Prop) :
  reads m Q → (∀ x, Q x → reads (f x) R) → reads (handler_bind _ _ f m) R.
Proof.
  intros Hm Hf a Ha. destruct (Hm a Ha) as (a1 & r & E & Ha1 & Hq).
  unfold handler_bind. rewrite E, bind_Ret. destruct r as [x|e]; [by apply Hf; auto|].
  by exists a1, (Err e).
Qed.

Lemma reads_get : reads h_get good.
Proof. intros a Ha. exists a, (Ok a). split_and!; [done..|]. by intros x [= <-]. Qed.

Lemma reads_result {A} (r : result A BcError) (Q : A → Prop) :
  (∀ x, r = Ok x → Q x) → reads (h_result r) Q.
Proof. intros Hq a Ha. by exists a, r. Qed.

Lemma reads_ret {A} (x : A) (Q : A → Prop) : Q x → reads (handler_ret _ x) Q.
Proof. intros Hq. apply (reads_result (Ok x)). by intros y [= <-]. Qed.

Lemma reads_outcome {A} (o : outcome A) (Q : A → Prop) :
  (∃ x, o = Ret x ∧ Q x) → reads (h_outcome o) Q.
Proof. intros (x & -> & Hq) a Ha. exists a, (Ok x). split_and!; [done..|]. by intros y [= <-]. Qed.

Lemma reads_ok {A} (m : handler A) (Q : A → Prop) :
  reads m Q → reads (h_ok m) (λ o, ∀ x, o = Some x → Q x).
Proof.
  intros Hm a Ha. destruct (Hm a Ha) as (a' & r & E & Ha' & Hq). unfold h_ok. rewrite E, bind_Ret.
  eexists _, _. split; [reflexivity|]. split; [done|]. intros o [= <-] x.
  destruct r; [|done]. intros [= <-]. auto.
Qed.

Lemma reads_mono {A} (m : handler A) (Q R : A → Prop) :
  reads m Q → (∀ x, Q x → R x) → reads m R.
Proof. intros Hm Hqr a Ha. destruct (Hm a Ha) as (a' & r & E & Ha' & Hq). eauto 10. Qed.

(** A call of the backend that keeps it consistent and only reads states. *)
Lemma reads_backend {A}
    (f : Backend Db StateDb Disk → outcome (Backend Db StateDb Disk * result A BcError))
    (Q : A → Prop) :
  (∀ st, let b := with_states (api_backend a0) st in node_inv b →
     ∃ b' r, f b = Ret (b', r) ∧ node_inv b' ∧ (∃ st', b' = with_states b st') ∧
       (∀ h, content (bk_states b') h ≡ content st h) ∧ ∀ x, r = Ok x → Q x) →
  reads (h_backend f) Q.
Proof.
  intros Hf a [[Hp Hn Hs] (st & -> & Hc)].
  destruct (Hf st Hn) as (b' & r & E & Hn' & (st' & ->) & Hc' & Hq).
  unfold h_backend. cbn [api_backend with_backend]. rewrite E, bind_Ret. eexists _, _.
  split; [reflexivity|]. split; [|exact Hq]. split; [by split|].
  exists st'. split; [done|]. intros h. by rewrite <- Hc, <- Hc'.
Qed.

(** *** What the pieces read *)

(** The ready transactions, in the order the pool yields them. *)
Context (ready : list PoolTransaction).
Context (Hready : iter_collect fuel (get_transactions (pool_ready (api_pool a0))) = Ret ready).

(** The next nonce of an account, pending transactions included. *)
Definition next_nonce (from : Address) : result Z BcError :=
  match get_pool_transactions_nonce ready from with
  | Some n => Ok n
  | None =>
      match get_account (api_backend a0) from with
      | Ok acc => Ok (acc_nonce acc)
      | Err e => Err (BcDatabase e)
      end
  end.

Lemma good_pool a : good a → api_pool a = api_pool a0.
Proof. intros [_ (st & -> & _)]. done. Qed.

Lemma pending_request_reads :
  reads (block_request slots fuel (Some (BlockIdNumber Pending))) (λ q, q = ReqPending ready).
Proof.
  eapply reads_bind; [apply reads_get|]. intros a Ha. cbn beta iota. rewrite (good_pool a Ha).
  apply (reads_bind _ _ (λ q, q = ready)); [apply reads_outcome; by exists ready|].
  intros q ->. by apply reads_ret.
Qed.

Lemma request_nonce_reads r from :
  reads (api_request_nonce blob_validate txenv_default op_new calculate_receipt_root cache_new
           default_blob slots c now fuel r from)
    (λ n, next_nonce from = Ok n.2 ∧ n.1 = default n.2 (req_nonce r)).
Proof.
  apply (reads_bind _ _ (λ n, next_nonce from = Ok n)).
  - eapply reads_bind; [apply pending_request_reads|]. intros q ->.
    apply reads_backend. intros st b Hb. rewrite get_nonce_pending by apply Hb.
    eexists _, _. split; [reflexivity|]. split_and!; [done|by exists st|done|].
    intros n <-. unfold next_nonce, get_account. simpl.
    destruct (get_pool_transactions_nonce ready from); [done|]. by destruct (dyn_basic _ _).
  - intros n Hn. by apply reads_ret.
Qed.

(** The pending block can be built (no precompile of a factory can fail), and the
    estimation on it ends, with a gas limit of 64 bits. *)
Definition estimable (r : TransactionRequest) (other : OtherFields) : Prop :=
  bc_precompile_factory c = false ∧ ∀ (cache : Cache) blk, ∃ res,
    do_estimate_gas_with_state
      (dyn_call (as_dyn cache) {| env_cfg := env_cfg (bk_env (api_backend a0)); env_blk := blk |} r)
      (dyn_code (as_dyn cache))
      (λ addr, match dyn_basic (as_dyn cache) addr with
               | Ok acc => Ok (acc_balance (default account_default acc))
               | Err e => Err e
               end)
      r other (blk_gas_limit blk) = Ret res ∧ ∀ g, res = Ok g → g ≤ umax 64.

Lemma estimate_reads r other :
  estimable r other →
  reads (estimate_gas blob_validate txenv_default op_new calculate_receipt_root cache_new
           default_blob slots c now fuel r other None) (λ g, g ≤ umax 64).
Proof.
  intros [Hpf He]. eapply reads_bind; [apply pending_request_reads|]. intros q ->.
  apply (reads_bind _ _ (λ o, ∃ res, o = Ret res ∧ ∀ g, res = Ok g → g ≤ umax 64)).
  - apply reads_backend. intros st b Hb. unfold with_database_at.
    match goal with |- context [with_pending_block _ _ _ _ _ _ _ _ _ ?f] =>
      destruct (pending_block_spec blob_validate txenv_default op_new calculate_receipt_root
        cache_new c now b ready f Hb Hpf) as (cache & r' & -> & _) end.
    rewrite bind_Ret. eexists _, _. split; [reflexivity|].
    split_and!; [done|by exists st|done|]. intros o [= <-]. apply He.
  - intros o (res & -> & Hg). apply (reads_bind _ _ (λ r, r = res)).
    + apply reads_outcome. by exists res.
    + intros ? ->. apply reads_result. destruct res; [|done]. by intros g [= <-]; apply Hg.
Qed.

Definition filled (r r' : TransactionRequest) : Prop :=
  r' = r ∨ req_gas r = None ∧ ∃ g, g ≤ umax 64 ∧ r' = set_gas r (Some g).

Lemma fill_gas_reads r other :
  (req_gas r = None → estimable r other) →
  reads (fill_gas blob_validate txenv_default op_new calculate_receipt_root cache_new
           default_blob slots c now fuel r other) (filled r).
Proof.
  intros He. unfold fill_gas. destruct (req_gas r) as [g|] eqn:Eg; [apply reads_ret; by left|].
  eapply reads_bind; [apply reads_ok, estimate_reads, He, eq_refl|].
  intros [g|] Hg; cbn beta in Hg; [|apply reads_ret; by left].
  specialize (Hg g eq_refl).
  apply (reads_bind _ _ (λ _, True)).
  - apply reads_outcome. exists tt. by rewrite (proj2 (Z.leb_le _ _)) by done.
  - intros _ _. apply reads_ret. right. eauto.
Qed.

Lemma build_reads r other nonce :
  (∀ m, other_mint other = Some (Ok m) → m ≤ umax 128) →
  reads (api_build_typed_tx_request r other nonce)
    (λ t, build_typed_tx_request (tx_defaults a0) r other nonce = Ret (Ok t)).
Proof.
  intros Hm. eapply reads_bind; [apply reads_get|]. intros a [_ (st & -> & _)].
  change (tx_defaults _) with (tx_defaults a0).
  destruct (request_to_typed_total r other Hm) as [typed Et].
  assert (∃ res, build_typed_tx_request (tx_defaults a0) r other nonce = Ret res) as [res Er].
  { unfold build_typed_tx_request. rewrite Et, bind_Ret. eauto. }
  apply (reads_bind _ _ (λ x, x = res)); [apply reads_outcome; by exists res|].
  intros x ->. apply reads_result. destruct res; [|done]. by intros t' [= <-].
Qed.

(** The pending transaction of a typed request: impersonated, or signed. *)
Definition pending_of (request : TypedTransactionRequest) (from : Address) (p : PendingTransaction)
    : Prop :=
  ∃ sig,
    let tx := build_typed_transaction request sig in
    ensure_typed_transaction_supported (BlobError := BlobError) c (api_backend a0) tx = Ok tt ∧
    (p = pending_with_impersonated tx from ∨ pending_new tx = Ok p).

Lemma impersonate_reads request from :
  reads (impersonate_request c request from)
    (λ p, pending_of request from p ∧ pt_sender p = from).
Proof.
  eapply reads_bind; [apply reads_get|]. intros a [_ (st & -> & _)]. cbn zeta.
  set (tx := build_typed_transaction _ _).
  apply (reads_bind _ _ (λ _, ensure_typed_transaction_supported (BlobError := BlobError) c
    (api_backend a0) tx = Ok tt)).
  - apply reads_result. by intros [] <-.
  - intros _ Hs. apply reads_ret. split; [|done]. exists (impersonated_signature request). auto.
Qed.

Lemma sign_reads from request :
  Forall signer_total (api_signers a0) →
  reads (sign_request from request) (λ tx, ∃ sig, tx = build_typed_transaction request sig).
Proof.
  intros Hsig. unfold sign_request.
  destruct (match request with ReqDeposit _ => true | _ => false end) eqn:Ed.
  { destruct request; try discriminate. apply reads_ret. by eexists. }
  assert (reads (sign_with_account from request)
    (λ tx, ∃ sig, tx = build_typed_transaction request sig)) as H; [|by destruct request].
  eapply reads_bind; [apply reads_get|]. intros a [_ (st & -> & _)]. simpl.
  destruct (list_find _ _) as [[i signer]|] eqn:El; [|by apply reads_result].
  apply list_find_Some in El as (Hl & _).
  destruct (proj1 (Forall_lookup _ _) Hsig i signer Hl request from) as [r Er].
  { intros t ->. discriminate. }
  apply (reads_bind _ _ (λ x, x = r)); [apply reads_outcome; by exists r|]. intros x ->.
  apply (reads_bind _ _ (λ _, True)); [by apply reads_result|]. intros sig _.
  apply reads_ret. by eexists.
Qed.

Lemma sign_pending_reads request from :
  Forall signer_total (api_signers a0) →
  reads (sign_pending c request from) (pending_of request from).
Proof.
  intros Hsig. eapply reads_bind; [by apply sign_reads|]. intros tx (sig & ->).
  eapply reads_bind; [apply reads_get|]. intros a [_ (st & -> & _)].
  set (tx := build_typed_transaction _ _).
  apply (reads_bind _ _ (λ _, ensure_typed_transaction_supported (BlobError := BlobError) c
    (api_backend a0) tx = Ok tt)).
  - apply reads_result. by intros [] <-.
  - intros _ Hs. apply reads_result. intros p Hp. exists sig. cbn zeta. split; [done|]. right.
    fold tx. destruct (pending_new tx); naive_solver.
Qed.

Lemma pre_validate_reads p :
  reads (pre_validate blob_validate now p)
    (λ _, validate_pool_transaction blob_validate now (api_backend a0) p = Ret (Ok tt)).
Proof.
  eapply reads_bind; [apply reads_get|]. intros a [Hi (st & -> & _)].
  assert (∃ r, validate_pool_transaction blob_validate now (api_backend a0) p = Ret r) as [r Er].
  { pose proof (ni_chain_id _ (ai_node _ Hi)) as Hid; simpl in Hid.
    unfold validate_pool_transaction. destruct (get_account _ _); [|eauto].
    unfold validate_pool_transaction_for. simpl.
    rewrite (proj2 (Z.leb_le _ _) Hid), orb_true_r. simpl. eauto. }
  apply (reads_bind _ _ (λ x, x = r)); [apply reads_outcome; by exists r|]. intros x ->.
  apply reads_result. by intros [] ->.
Qed.

(** *** Insertion *)

(** The answer of a handler that handed a transaction to the pool. *)
Definition hash_answer (res : result AddedTransaction PoolError) : result TxHash BcError :=
  match res with Ok added => Ok (added_hash added) | Err e => Err (BcPool e) end.

(** From a node like [a0], the handler returns: either it fails and leaves a
    node like [a0], or it hands one transaction with [S] to the pool of [a0]
    and answers what the pool says. *)
Definition submits (m : handler TxHash) (S : PoolTransaction → Prop) : Prop :=
  ∀ a, good a → ∃ a' r, m a = Ret (a', r) ∧ api_inv a' ∧
    ((same_node a0 a' ∧ ∃ e, r = Err e) ∨
     ∃ t res, S t ∧ added (api_pool a0) t (api_pool a') res ∧
       (∀ h, in_pool (api_pool a') h → in_pool (api_pool a0) h ∨ h = ptx_hash t) ∧
       r = hash_answer res).

Lemma submits_bind {A} (m : handler A) (f : A → handler TxHash) (Q : A → Prop)
    (S : PoolTransaction → Prop) :
  reads m Q → (∀ x, Q x → submits (f x) S) → submits (handler_bind _ _ f m) S.
Proof.
  intros Hm Hf a Ha. destruct (Hm a Ha) as (a1 & r & E & Ha1 & Hq).
  unfold handler_bind. rewrite E, bind_Ret. destruct r as [x|e]; [by apply Hf; auto|].
  destruct Ha1 as [Hi Hs]. eexists _, _. split; [reflexivity|]. split; [done|]. eauto.
Qed.

Lemma notify_all_total (hs : list TxHash) (l : list Sender) :
  ∃ l', foldM (λ l h, notify_listener try_send h l) l hs = Ret l'.
Proof.
  revert l. induction hs as [|h hs IH]; intros l; simpl; [by eexists|].
  unfold notify_listener. destruct (notify_from_spec try_send h l []) as (l' & E & _).
  rewrite app_nil_r in E. rewrite E. apply IH.
Qed.

Lemma add_to_pool_submits t (S : PoolTransaction → Prop) :
  S t → pol_tx t → submits (add_to_pool try_send now t) S.
Proof.
  intros HS Ht a [[Hp Hn Hs] (st & -> & _)]. simpl in Hp, Hn, Hs.
  destruct (add_transaction_spec now (api_pool a0) t Hp Ht) as (p' & r & E & Hp' & Hin & Had).
  assert (∃ l', pool_add_transaction try_send now (api_pool a0, api_listeners a0) t =
    Ret (p', l', r)) as [l' El].
  { unfold pool_add_transaction. rewrite E, bind_Ret. destruct r as [[|]|]; [|by eexists..].
    match goal with |- context [foldM _ _ ?hs] =>
      destruct (notify_all_total hs (api_listeners a0)) as [l' ->] end. by eexists. }
  unfold add_to_pool. cbn [api_pool api_listeners with_backend]. rewrite El, bind_Ret.
  eexists _, _. split; [reflexivity|]. split; [by split|]. right. by exists t, r.
Qed.

(** *** Handlers *)

(** Nonces are 64-bit integers. *)
Record nonces_wf : Prop := {
  nw_ready : ∀ t, t ∈ ready → is_u 64 (pt_nonce (pending_transaction t));
  nw_accounts : ∀ addr acc, get_account (api_backend a0) addr = Ok acc → is_u 64 (acc_nonce acc)
}.

Lemma next_nonce_is_u from n : nonces_wf → next_nonce from = Ok n → is_u 64 n.
Proof.
  intros [Hr Ha]. unfold next_nonce. pose proof (pool_nonce_spec ready from) as Hp.
  destruct (get_pool_transactions_nonce ready from) as [m|].
  - intros [= <-]. destruct Hp as (t & Ht & _ & -> & _). specialize (Hr t Ht).
    apply saturating_add_is_u; [|done|]; unfold is_u, umax in *; lia.
  - destruct (get_account _ _) as [acc|] eqn:E; [|done]. intros [= <-]. by eapply Ha.
Qed.

(** What [send_transaction] and [eth_send_unsigned_transaction] submit for a
    request of the account [from] with the nonce [nonce], when [next] is the
    next nonce of the account. *)
Record sent (r : TransactionRequest) (other : OtherFields) (from : Address) (nonce next : Z)
    (t : PoolTransaction) : Prop := {
  sn_next : next_nonce from = Ok next;
  sn_nonce : nonce = default next (req_nonce r);
  sn_pending : ∃ r' request, filled r r' ∧
    build_typed_tx_request (tx_defaults a0) r' other nonce = Ret (Ok request) ∧
    pending_of request from (pending_transaction t);
  sn_valid : validate_pool_transaction blob_validate now (api_backend a0) (pending_transaction t) =
    Ret (Ok tt);
  sn_tx : t = sent_pool_transaction (api_order a0) (pending_transaction t) nonce next from
}.

(** The end of both handlers. *)
Lemma finish_submits r other from nonce next pending (S : PoolTransaction → Prop) :
  nonces_wf → (∀ n, req_nonce r = Some n → is_u 64 n) →
  next_nonce from = Ok next → nonce = default next (req_nonce r) →
  (∀ t, pending_transaction t = pending → sent r other from nonce next t → S t) →
  (∃ r' request, filled r r' ∧
     build_typed_tx_request (tx_defaults a0) r' other nonce = Ret (Ok request) ∧
     pending_of request from pending) →
  (∀ t, t = sent_pool_transaction (api_order a0) pending nonce next from → pol_tx t) →
  submits
    (handler_bind _ _ (λ _, add_pending_transaction try_send now pending
       (required_marker nonce next from) [to_marker nonce from])
       (pre_validate blob_validate now pending)) S.
Proof.
  intros Hw Hr Hnext Hnonce HS Hp Hpol.
  eapply submits_bind; [apply pre_validate_reads|]. intros ? Hv; cbn beta in Hv.
  unfold add_pending_transaction. eapply submits_bind; [apply reads_get|].
  intros a [_ (st & -> & _)]. apply add_to_pool_submits; [|by apply Hpol].
  apply HS; [done|]. by split.
Qed.

(** The account a request speaks for. *)
Definition sender_of {aorder : HashOrder Address} (r : TransactionRequest) (from : Address) : Prop :=
  req_from r = Some from ∨ req_from r = None ∧ head (accounts a0) = Some from.

Lemma send_transaction_submits {aorder : HashOrder Address} r other (S : PoolTransaction → Prop) :
  Forall signer_total (api_signers a0) →
  nonces_wf → (∀ n, req_nonce r = Some n → is_u 64 n) →
  (∀ m, other_mint other = Some (Ok m) → m ≤ umax 128) →
  (req_gas r = None → estimable r other) →
  (∀ from nonce next t, sender_of r from → sent r other from nonce next t →
     (is_impersonated (bk_cheats (api_backend a0)) from = true → ptx_sender t = from) → S t) →
  (∀ from nonce next pending, is_u 64 nonce → is_u 64 next →
     pol_tx (sent_pool_transaction (api_order a0) pending nonce next from)) →
  submits (send_transaction (order := order) blob_validate txenv_default op_new calculate_receipt_root cache_new
    default_blob slots try_send c now fuel r other) S.
Proof.
  intros Hsig Hw Hr Hm He HS Hpol. unfold send_transaction.
  apply (submits_bind _ _ (sender_of r)).
  { eapply reads_bind; [apply reads_get|]. intros a [_ (st & -> & _)].
    apply reads_result. unfold sender_of. intros from. destruct (req_from r); [naive_solver|].
    change (accounts (with_backend a0 _)) with (accounts a0).
    destruct (accounts a0); [done|]. intros [= <-]. by right. }
  intros from Hfrom. eapply submits_bind; [apply request_nonce_reads|].
  intros [nonce next]; simpl. intros [Hnext Hnonce].
  eapply submits_bind; [by apply fill_gas_reads|]. intros r' Hr'.
  eapply submits_bind; [by apply build_reads|]. intros request Hreq.
  eapply submits_bind; [apply reads_get|]. intros a [_ (st & -> & _)].
  eapply (submits_bind _ _ (λ p, pending_of request from p ∧
    (is_impersonated (bk_cheats (api_backend a0)) from = true → pt_sender p = from))).
  { simpl. destruct (is_impersonated _ _).
    - eapply reads_mono; [apply impersonate_reads|]. naive_solver.
    - eapply reads_mono; [by apply sign_pending_reads|]. naive_solver. }
  intros pending [Hp Himp].
  apply (finish_submits r other from nonce next pending S); try done; [|by exists r', request|].
  - intros t <- Ht. eapply HS; eauto.
  - intros t ->. pose proof (next_nonce_is_u from next Hw Hnext). apply Hpol; [|done].
    rewrite Hnonce. destruct (req_nonce r); simpl; [|done]. by apply Hr.
Qed.

Lemma send_unsigned_submits r other from (S : PoolTransaction → Prop) :
  req_from r = Some from →
  nonces_wf → (∀ n, req_nonce r = Some n → is_u 64 n) →
  (∀ m, other_mint other = Some (Ok m) → m ≤ umax 128) →
  (∀ nonce next t, sent r other from nonce next t → ptx_sender t = from → S t) →
  (∀ nonce next pending, is_u 64 nonce → is_u 64 next →
     pol_tx (sent_pool_transaction (api_order a0) pending nonce next from)) →
  submits (eth_send_unsigned_transaction blob_validate txenv_default op_new calculate_receipt_root
    cache_new default_blob slots try_send c now fuel r other) S.
Proof.
  intros Hfrom Hw Hr Hm HS Hpol. unfold eth_send_unsigned_transaction. rewrite Hfrom.
  apply (submits_bind _ _ (λ x, x = from)); [apply reads_result; by intros x [= <-]|].
  intros ? ->. eapply submits_bind; [apply request_nonce_reads|].
  intros [nonce next]; simpl. intros [Hnext Hnonce].
  eapply submits_bind; [by apply build_reads|]. intros request Hreq.
  eapply submits_bind; [apply impersonate_reads|]. intros pending [Hp Himp].
  apply (finish_submits r other from nonce next pending S); try done.
  - intros t <- Ht. by eapply HS.
  - exists r, request. split; [by left|done].
  - intros t ->. pose proof (next_nonce_is_u from next Hw Hnext). apply Hpol; [|done].
    rewrite Hnonce. destruct (req_nonce r); simpl; [|done]. by apply Hr.
Qed.

(** What [send_raw_transaction] submits for the transaction it decoded. *)
Record sent_raw (tx : TypedTransaction) (t : PoolTransaction) : Prop := {
  sr_supported : ensure_typed_transaction_supported (BlobError := BlobError) c (api_backend a0) tx
    = Ok tt;
  sr_pending : pending_new tx = Ok (pending_transaction t);
  sr_valid : validate_pool_transaction blob_validate now (api_backend a0) (pending_transaction t) =
    Ret (Ok tt);
  sr_tx : ∃ acc, get_account (api_backend a0) (ptx_sender t) = Ok acc ∧
    t = raw_pool_transaction (api_order a0) (pending_transaction t) (acc_nonce acc)
}.

Lemma send_raw_submits (data : Bytes) (S : PoolTransaction → Prop) :
  (∀ tx t, decode_2718 data = Ok tx → sent_raw tx t → S t) →
  (∀ tx pending acc, decode_2718 data = Ok tx → pending_new tx = Ok pending →
     get_account (api_backend a0) (pt_sender pending) = Ok acc →
     pol_tx (raw_pool_transaction (api_order a0) pending (acc_nonce acc))) →
  submits (send_raw_transaction blob_validate try_send c now data) S.
Proof.
  intros HS Hpol. unfold send_raw_transaction.
  apply (submits_bind _ _ (λ _, True)); [by apply reads_result|]. intros _ _.
  apply (submits_bind _ _ (λ tx, decode_2718 data = Ok tx)).
  { apply reads_result. destruct (decode_2718 data); [by intros ? [= <-]|done]. }
  intros tx Htx. eapply submits_bind; [apply reads_get|]. intros a [_ (st & -> & _)].
  apply (submits_bind _ _ (λ _, ensure_typed_transaction_supported (BlobError := BlobError) c
    (api_backend a0) tx = Ok tt)).
  { apply reads_result. by intros [] <-. }
  intros ? Hsup; cbn beta in Hsup. apply (submits_bind _ _ (λ p, pending_new tx = Ok p)).
  { apply reads_result. destruct (pending_new tx); [by intros ? [= <-]|done]. }
  intros p Hp. eapply submits_bind; [apply pre_validate_reads|]. intros ? Hv; cbn beta in Hv.
  apply (submits_bind _ _ (λ n, ∃ acc, get_account (api_backend a0) (pt_sender p) = Ok acc ∧
    n = acc_nonce acc)).
  { apply reads_result. change (get_account _ _) with (get_account (api_backend a0) (pt_sender p)).
    destruct (get_account _ _) as [acc|]; [intros ? [= <-]; by exists acc|done]. }
  intros ? (acc & Hacc & ->). apply add_to_pool_submits; [|by apply (Hpol tx)].
  eapply HS; [exact Htx|]. split; eauto.
Qed.
End run_from.

(** The developer keys answer for everything but deposits. *)
Lemma dev_signer_total (s : DevSigner Wallet) : signer_total (dev_signer s).
Proof.
  intros q addr Hq. simpl. unfold dev_sign_transaction. destruct (ds_accounts s !! addr); [|eauto].
  destruct q; eauto. by destruct (Hq t).
Qed.

(** Transactions of the handlers are well-formed. *)
Lemma sent_wf (o : TransactionOrder) pending nonce next from :
  is_u 64 nonce → is_u 64 next → tx_wf (sent_pool_transaction o pending nonce next from).
Proof.
  intros Hn Hx. split; simpl; [apply NoDup_singleton|]. intros m ->%list_elem_of_singleton.
  rewrite required_marker_eq by (unfold is_u in *; lia).
  destruct (Z.ltb_spec next nonce); [|apply not_elem_of_nil]. intros E%list_elem_of_singleton.
  apply (f_equal nonce_rank) in E. rewrite !nonce_rank_marker in E; unfold is_u in *; lia.
Qed.
End send_spec.

(** ** Properties *)

(** C18: [eth_sendTransaction] on a consistent node, whose pool yields its ready
    transactions, for a request whose numbers have their width ([u64] nonces, and
    a mint of a deposit below 2^128: the conversion panics on a larger one) and
    which carries its gas limit, or whose gas estimation on the pending block
    returns (see [estimate_search_diverges] for one that does not) with no
    precompile factory configured, answers and leaves
    the node consistent.  Either it answers with an error and the node is as it
    was, or exactly one transaction reached the pool, and the answer is what the
    pool says about it (its hash, or the pool's error): a transaction of the
    account the request names (or of the node's first account), with the nonce
    of the request or the account's next one, built from the request with the
    node's defaults and gas estimate, signed or impersonated, supported by the
    hardfork, accepted by the pool validation, and with the markers of its
    nonce. *)
Theorem send_transaction_correct {order : HashOrder TxHash} {ext : TxExternals} {specs : SpecIds}
    {bext : BlockExternals} {rt : RevmTypes} {Db Cache StateDb Snapshot Disk : Type}
    {cevm : RevmDb Cache} {dref : DatabaseRef Db} {cref : DatabaseRef Cache}
    {sref : DatabaseRef StateDb} {sdb : StateDbOps StateDb Snapshot}
    {dc : FileSystem Disk Snapshot} {kext : BackendExternals} {Wallet : Type}
    {sext : SignExternals Wallet} {laws : RevmLaws (evm := cevm)} {aorder : HashOrder Address}
    {BlobError : Type} (blob_validate : TxEip4844Variant → result unit BlobError)
    (txenv_default : TxEnv) (op_new : TxEnv → OpTransaction)
    (calculate_receipt_root : list TypedReceipt → B256) (cache_new : Db → Cache)
    (default_blob : option BlobExcessGasAndPrice) (slots : Z) {Sender : Type}
    (try_send : Sender → TxHash → Sender * result unit bool) (c : BackendConfig) (now : Z)
    (fuel : nat) (a : EthApi (Db := Db) (StateDb := StateDb) (Disk := Disk) (Sender := Sender))
    (ready : list PoolTransaction) (r : TransactionRequest) (other : OtherFields) :
  api_inv a →
  iter_collect fuel (get_transactions (pool_ready (api_pool a))) = Ret ready →
  nonces_wf a ready → (∀ n, req_nonce r = Some n → is_u 64 n) →
  (∀ m, other_mint other = Some (Ok m) → m ≤ umax 128) →
  (req_gas r = None → estimable (Cache := Cache) c a r other) →
  ∃ a' res,
    send_transaction (order := order) blob_validate txenv_default op_new calculate_receipt_root
      cache_new default_blob slots try_send c now fuel r other a = Ret (a', res) ∧
    api_inv a' ∧
    ((same_node a a' ∧ ∃ e, res = Err e) ∨
     ∃ t added_tx,
       (∃ from nonce next, sender_of a r from ∧
          sent blob_validate c now a ready r other from nonce next t ∧
          (is_impersonated (bk_cheats (api_backend a)) from = true → ptx_sender t = from)) ∧
       added (api_pool a) t (api_pool a') added_tx ∧
       (∀ h, in_pool (api_pool a') h → in_pool (api_pool a) h ∨ h = ptx_hash t) ∧
       res = hash_answer added_tx).
Proof.
  intros Ha Hready Hw Hr Hm He.
  apply (send_transaction_submits (aorder := aorder) (order := order) blob_validate txenv_default
    op_new calculate_receipt_root cache_new default_blob slots try_send c now fuel a ready Hready r
    other (λ t, ∃ from nonce next, sender_of a r from ∧
      sent blob_validate c now a ready r other from nonce next t ∧
      (is_impersonated (bk_cheats (api_backend a)) from = true → ptx_sender t = from)));
    try done; [apply Ha|by eauto 10|intros; by apply sent_wf|].
  split; [done|apply same_node_refl].
Qed.

(** [eth_sendRawTransaction] on a consistent node always answers and
    leaves the node consistent: empty or undecodable data, an unsupported type,
    a bad signature or a failed validation is answered with an error and the node
    is as it was; otherwise the decoded transaction itself, sent by the account
    its signature recovers to, reached the pool, waiting for the preceding nonce
    exactly when the account's nonce in the database is still below its own. *)
Theorem send_raw_transaction_correct {order : HashOrder TxHash} {ext : TxExternals}
    {specs : SpecIds} {bext : BlockExternals} {rt : RevmTypes} {Db StateDb Snapshot Disk : Type}
    {dref : DatabaseRef Db} {sdb : StateDbOps StateDb Snapshot}
    {dc : FileSystem Disk Snapshot} {kext : BackendExternals} {Wallet : Type}
    {sext : SignExternals Wallet} {BlobError : Type}
    (blob_validate : TxEip4844Variant → result unit BlobError) {Sender : Type}
    (try_send : Sender → TxHash → Sender * result unit bool) (c : BackendConfig) (now : Z)
    (a : EthApi (Db := Db) (StateDb := StateDb) (Disk := Disk) (Sender := Sender)) (data : Bytes) :
  api_inv a →
  (∀ tx, decode_2718 data = Ok tx → is_u 64 (nonce tx)) →
  (∀ addr acc, get_account (api_backend a) addr = Ok acc → is_u 64 (acc_nonce acc)) →
  ∃ a' res,
    send_raw_transaction blob_validate try_send c now data a = Ret (a', res) ∧ api_inv a' ∧
    ((same_node a a' ∧ ∃ e, res = Err e) ∨
     ∃ t added_tx tx acc,
       decode_2718 data = Ok tx ∧ sent_raw blob_validate c now a tx t ∧
       recover tx = Ok (ptx_sender t) ∧ ptx_hash t = hash tx ∧
       get_account (api_backend a) (ptx_sender t) = Ok acc ∧
       requires t = (if acc_nonce acc <? nonce tx
                     then [to_marker (nonce tx - 1) (ptx_sender t)] else []) ∧
       provides t = [to_marker (nonce tx) (ptx_sender t)] ∧
       added (api_pool a) t (api_pool a') added_tx ∧ res = hash_answer added_tx).
Proof.
  intros Ha Hn Hacc.
  assert (∀ tx p, pending_new tx = Ok p → recover tx = Ok (pt_sender p) ∧ pt_hash p = hash tx ∧
    pt_nonce p = nonce tx) as Hnew.
  { intros tx p. unfold pending_new. destruct (recover tx); [|done]. by intros [= <-]. }
  destruct (send_raw_submits blob_validate try_send c now a data
    (λ t, ∃ tx, decode_2718 data = Ok tx ∧ sent_raw blob_validate c now a tx t))
    with (a := a) as (a' & res & E & Ha' & Hres); [by eauto| | |].
  - intros tx p acc Htx Hp Hg. destruct (Hnew tx p Hp) as (_ & _ & En).
    apply (sent_wf (api_order a) p (pt_nonce p)); [rewrite En|]; eauto.
  - split; [done|apply same_node_refl].
  - exists a', res. split_and!; [done..|]. destruct Hres as [?|(t & ad & (tx & Htx & Ht) & Had & _ & ?)];
      [by left|]. right. destruct (sr_tx _ _ _ _ _ _ Ht) as (acc & Hg & Et).
    destruct (Hnew tx _ (sr_pending _ _ _ _ _ _ Ht)) as (H1 & H2 & H3).
    exists t, ad, tx, acc. split_and!; try done.
    + rewrite Et; simpl. rewrite H3, required_marker_eq; [done|..].
      * specialize (Hn tx Htx). unfold is_u in Hn. lia.
      * specialize (Hacc _ _ Hg). unfold is_u in Hacc. lia.
    + rewrite Et; simpl. by rewrite H3.
Qed.

(** A request without a nonce is given the next nonce of the account, with
    the ready transactions counted, and that same number is taken as the nonce
    of the account when the markers are built: the submitted transaction
    depends on nothing, although transactions with lower nonces may still wait in
    the pool. *)
Theorem default_nonce_independent {ext : TxExternals} {specs : SpecIds} {bext : BlockExternals}
    {rt : RevmTypes} {Db StateDb Disk : Type} {dref : DatabaseRef Db}
    {kext : BackendExternals} {Wallet : Type} {sext : SignExternals Wallet} {BlobError : Type}
    (blob_validate : TxEip4844Variant → result unit BlobError) {Sender : Type}
    (c : BackendConfig) (now : Z)
    (a : EthApi (Db := Db) (StateDb := StateDb) (Disk := Disk) (Sender := Sender))
    (ready : list PoolTransaction) (r : TransactionRequest) (other : OtherFields)
    (from : Address) (nonce next : Z) (t t0 : PoolTransaction) :
  sent blob_validate c now a ready r other from nonce next t → req_nonce r = None →
  t0 ∈ ready → ptx_sender t0 = from → pt_nonce (pending_transaction t0) < umax 64 →
  pt_nonce (pending_transaction t0) < nonce ∧ requires t = [].
Proof.
  intros Hs Hr Ht0 Hf Hmax. pose proof (sn_next _ _ _ _ _ _ _ _ _ _ _ Hs) as Hn.
  pose proof (sn_nonce _ _ _ _ _ _ _ _ _ _ _ Hs) as En. rewrite Hr in En; simpl in En. split.
  - unfold next_nonce in Hn. pose proof (pool_nonce_spec ready from) as Hp.
    destruct (get_pool_transactions_nonce ready from) as [m|]; [|by destruct (Hp t0)].
    injection Hn as Hn. destruct Hp as (t1 & _ & _ & E & Hle). specialize (Hle t0 Ht0 Hf).
    unfold saturating_add in E. lia.
  - rewrite (sn_tx _ _ _ _ _ _ _ _ _ _ _ Hs). simpl. unfold required_marker.
    by rewrite En, Z.eqb_refl.
Qed.

(** *** A run of the handlers

    One key, whose signatures are numbered by nonce, on the example node. *)

Definition ex_request_nonce (q : TypedTransactionRequest) : Z := default 0 (request_nonce_of q).

#[export] Instance ex_sign_externals : SignExternals unit :=
  {| signed_hash_of T tx sig := sig_r sig;
     wallet_address := λ _, 5;
     wallet_sign := λ _ q,
       Ok {| sig_r := 100 + ex_request_nonce q; sig_s := 1; sig_parity := false |};
     decode_2718 := λ data,
       match data with
       | [n] => Ok (Legacy {| signed_tx := {| leg_chain_id := Some 31337; leg_nonce := n;
                       leg_gas_price := 10; leg_gas_limit := 30000; leg_to := Call 7;
                       leg_value := 1; leg_input := [] |};
                     signed_signature := nil_signature; signed_hash := 200 + n |})
       | _ => Err tt
       end |}.

Abbreviation ex_api_type :=
  (EthApi (rt := ex_revm_types) (Db := unit) (StateDb := option nat)
     (Disk := gmap Z (option nat)) (Sender := unit)).

Definition ex_api (p : PoolInner) : ex_api_type :=
  {| api_pool := p; api_listeners := []; api_backend := ex_node;
     api_signers := [dev_signer (dev_signer_new [tt])]; api_order := Fees; api_fee_cache := ∅ |}.

Definition ex_no_other : OtherFields :=
  {| other_source_hash := None; other_mint := None; other_is_system_tx := None |}.

Definition ex_priced_request (price : Z) : TransactionRequest :=
  {| req_from := Some 5; req_to := Some (Call 7); req_gas_price := Some price;
     req_max_fee_per_gas := None; req_max_priority_fee_per_gas := None;
     req_max_fee_per_blob_gas := None; req_blob_versioned_hashes := None; req_gas := None;
     req_value := None; req_input := None; req_nonce := None; req_access_list := None;
     req_sidecar := None; req_transaction_type := None; req_authorization_list := None;
     req_chain_id := None |}.

Definition ex_send (price : Z) (a : ex_api_type) :=
  send_transaction (ext := ex_externals) (specs := ex_specs) (bext := ex_block_externals)
    (cevm := ex_revm) (kext := ex_backend_externals)
    (λ _, Ok tt : result unit unit) ex_txenv ex_op_new (λ l, Z.of_nat (length l)) id None 32
    (λ s _, (s, Ok tt)) ex_backend_config 105 10 (ex_priced_request price) ex_no_other a.

(** Two requests of one account, the second with the higher price. *)
Definition ex_sent_two : outcome (ex_api_type * result TxHash (BlockchainError (rt := ex_revm_types) unit)) :=
  ex_send 10 (ex_api pool_default) ≫= λ r, ex_send 20 r.1.

Definition ex_nonces (o : outcome (ex_api_type * result TxHash (BlockchainError (rt := ex_revm_types) unit)))
    : outcome (list Z) :=
  match o with
  | Ret (a, _) =>
      match iter_collect 10 (get_transactions (pool_ready (api_pool a))) with
      | Ret l => Ret (map (λ t, pt_nonce (pending_transaction t)) l)
      | Panic => Panic
      | OutOfFuel => OutOfFuel
      end
  | _ => OutOfFuel
  end.

(** Two requests of one account without nonces, the second with a higher
    gas price, are offered to the miner in the wrong order: nonce 1 first, which
    the executor then rejects. *)
Theorem default_nonce_reordered : ex_nonces ex_sent_two = Ret [1; 0].
Proof. vm_compute. reflexivity. Qed.

Lemma ex_api_inv :
  api_inv (specs := ex_specs) (bext := ex_block_externals) (kext := ex_backend_externals)
    (ex_api pool_default).
Proof.
  split; simpl; [apply pool_default_inv|apply ex_node_inv|].
  apply Forall_singleton, dev_signer_total.
Qed.

Lemma ex_nonces_wf l :
  (∀ t, t ∈ l → is_u 64 (pt_nonce (pending_transaction t))) →
  nonces_wf (ex_api pool_default) l.
Proof. intros Hl. split; [done|]. intros addr acc [= <-]. by vm_compute. Qed.

Lemma send_transaction_correct_witness :
  ∃ a', ex_send 10 (ex_api pool_default) = Ret (a', Ok 100) ∧ in_pool (api_pool a') 100.
Proof.
  destruct (send_transaction_correct (ext := ex_externals) (specs := ex_specs)
    (bext := ex_block_externals) (cevm := ex_revm) (kext := ex_backend_externals)
    (laws := ex_revm_laws) (λ _, Ok tt : result unit unit) ex_txenv ex_op_new
    (λ l, Z.of_nat (length l)) id None 32 (λ s _, (s, Ok tt)) ex_backend_config 105 10
    (ex_api pool_default) [] (ex_priced_request 10) ex_no_other ex_api_inv)
    as (a' & res & E & _ & _).
  - reflexivity.
  - apply ex_nonces_wf. intros t Ht. by apply elem_of_nil in Ht.
  - discriminate.
  - discriminate.
  - intros _. split; [reflexivity|]. intros [] blk. eexists. split; [reflexivity|]. intros g [= <-]. by vm_compute.
  - exists a'. change (ex_send 10 (ex_api pool_default) = Ret (a', res)) in E.
    vm_compute in E. injection E as <- <-. split; [vm_compute; reflexivity|].
    left. vm_compute. eauto.
Defined.

Lemma send_raw_transaction_correct_witness :
  ∃ a', send_raw_transaction (ext := ex_externals) (specs := ex_specs)
      (kext := ex_backend_externals)
      (λ _, Ok tt : result unit unit) (λ s _, (s, Ok tt)) ex_backend_config 105 [3]
      (ex_api pool_default) = Ret (a', Ok 203).
Proof.
  destruct (send_raw_transaction_correct (ext := ex_externals) (specs := ex_specs)
    (bext := ex_block_externals) (kext := ex_backend_externals)
    (λ _, Ok tt : result unit unit) (λ s _, (s, Ok tt)) ex_backend_config 105
    (ex_api pool_default) [3] ex_api_inv) as (a' & res & E & _ & _).
  - intros tx [= <-]. by vm_compute.
  - intros addr acc [= <-]. by vm_compute.
  - exists a'. rewrite E. vm_compute in E. injection E as <- <-. reflexivity.
Defined.
