(* ===== verification/MemDb.v ===== *)
(** * The in-memory database and its snapshots
    (crates/evm/core/src/state_snapshot.rs, crates/anvil/src/eth/backend/db.rs,
    crates/anvil/src/eth/backend/mem/in_memory_db.rs)

    [CacheDB] is revm's cache: accounts with their storage, contract code by
    hash, and block hashes; its own operations are the class [CacheOps].  This
    file has what the node adds: numbered snapshots of the database, emptying a
    database into a [StateSnapshot] and filling it again, dumping and loading
    accounts.  A database that was emptied and filled again looks the same, which
    makes it an instance of the interface [StateDbOps] of [BlockStates]. *)

From stdpp Require Import prelude gmap list.
From S2P Require Import Prelude Containers Transaction BlockStates.

Open Scope Z_scope.

(** ** Snapshots by number *)

Section snapshots.
Context {T : Type}.

Record StateSnapshots := {
  sn_id : Z;                         (* U256 *)
  state_snapshots : gmap Z T
}.

Definition snapshots_default : StateSnapshots := {| sn_id := 0; state_snapshots := ∅ |}.

Definition next_id (s : StateSnapshots) : StateSnapshots * Z :=
  let id := sn_id s in
  ({| sn_id := id +s[256] 1; state_snapshots := state_snapshots s |}, id).

Definition snapshots_get (s : StateSnapshots) (id : Z) : option T := state_snapshots s !! id.

(** [remove]: the loop deletes the ids from [id + 1] up to the next id; the
    addition on [U256] wraps. *)
Definition snapshots_remove (s : StateSnapshots) (id : Z) : StateSnapshots * option T :=
  let snapshot_state := state_snapshots s !! id in
  let to_revert := id +w[256] 1 in
  ({| sn_id := sn_id s;
      state_snapshots :=
        foldl (λ m i, delete i m) (delete id (state_snapshots s))
          (seqZ to_revert (sn_id s - to_revert)) |},
   snapshot_state).

Definition snapshots_clear (s : StateSnapshots) : StateSnapshots :=
  {| sn_id := sn_id s; state_snapshots := ∅ |}.

Definition remove_at (s : StateSnapshots) (id : Z) : StateSnapshots * option T :=
  ({| sn_id := sn_id s; state_snapshots := delete id (state_snapshots s) |},
   state_snapshots s !! id).

Definition snapshots_insert (s : StateSnapshots) (state_snapshot : T) : StateSnapshots * Z :=
  let '(s, id) := next_id s in
  ({| sn_id := sn_id s; state_snapshots := <[id := state_snapshot]> (state_snapshots s) |}, id).

Definition insert_at (s : StateSnapshots) (state_snapshot : T) (id : Z) : StateSnapshots * Z :=
  ({| sn_id := sn_id s; state_snapshots := <[id := state_snapshot]> (state_snapshots s) |}, id).
End snapshots.
Arguments StateSnapshots : clear implicits.

Inductive RevertStateSnapshotAction : Type := RevertRemove | RevertKeep.

Definition is_keep (a : RevertStateSnapshotAction) : bool :=
  match a with RevertKeep => true | RevertRemove => false end.

(** ** The cache *)

(** [AccountInfo] and [DbAccount] of revm. *)
Record DbInfo := {
  in_balance : Z;
  in_nonce : Z;
  in_code_hash : B256;
  in_code : option Bytes
}.

Inductive AccountState : Type := NotExisting | Touched | StorageCleared | AccNone.

Record DbAccount := {
  da_info : DbInfo;
  da_state : AccountState;
  da_storage : gmap Z Z
}.

Record CacheDB := {
  cd_accounts : gmap Address DbAccount;
  cd_contracts : gmap B256 Bytes;
  cd_block_hashes : gmap Z B256
}.

Record StateSnapshot := {
  ss_accounts : gmap Address DbInfo;
  ss_storage : gmap Address (gmap Z Z);
  ss_block_hashes : gmap Z B256
}.

Definition set_code_field (i : DbInfo) (code : option Bytes) : DbInfo :=
  {| in_balance := in_balance i; in_nonce := in_nonce i; in_code_hash := in_code_hash i;
     in_code := code |}.

Section cache_db.
Context {order : HashOrder Address}.
Implicit Types d : CacheDB.

(** One turn of the loop of [clear_into_state_snapshot]: the code leaves the
    cache with the first account that has it. *)
Definition clear_account
    (s : gmap B256 Bytes * gmap Address DbInfo * gmap Address (gmap Z Z))
    (e : Address * DbAccount) :=
  let '(contracts, accounts, account_storage) := s in
  let '(addr, acc) := e in
  let info := da_info acc in
  (delete (in_code_hash info) contracts,
   <[addr := set_code_field info (contracts !! in_code_hash info)]> accounts,
   <[addr := da_storage acc]> account_storage).

Definition clear_into_state_snapshot d : CacheDB * StateSnapshot :=
  let '(contracts, accounts, account_storage) :=
    foldl clear_account (cd_contracts d, ∅, ∅) (map_pairs (cd_accounts d)) in
  ({| cd_accounts := ∅; cd_contracts := contracts; cd_block_hashes := ∅ |},
   {| ss_accounts := accounts; ss_storage := account_storage;
      ss_block_hashes := cd_block_hashes d |}).

Definition read_as_state_snapshot d : StateSnapshot :=
  {| ss_accounts :=
       (λ acc, set_code_field (da_info acc) (cd_contracts d !! in_code_hash (da_info acc))) <$>
         cd_accounts d;
     ss_storage := da_storage <$> cd_accounts d;
     ss_block_hashes := cd_block_hashes d |}.

Definition cache_clear d : CacheDB := (clear_into_state_snapshot d).1.

(** The code of an account is put back under its hash. *)
Definition add_code (contracts : gmap B256 Bytes) (acc : DbInfo) : gmap B256 Bytes :=
  match in_code acc with
  | Some code => <[in_code_hash acc := code]> contracts
  | None => contracts
  end.

(** One turn of the loop of [init_from_state_snapshot]. *)
Definition init_account
    (s : gmap B256 Bytes * gmap Address DbAccount * gmap Address (gmap Z Z))
    (e : Address * DbInfo) :=
  let '(contracts, accounts, storage) := s in
  let '(addr, acc) := e in
  (add_code contracts acc,
   <[addr := {| da_info := set_code_field acc None; da_state := AccNone;
                da_storage := default ∅ (storage !! addr) |}]> accounts,
   delete addr storage).

Definition init_from_state_snapshot d (s : StateSnapshot) : CacheDB :=
  let '(contracts, accounts, _) :=
    foldl init_account (cd_contracts d, cd_accounts d, ss_storage s) (map_pairs (ss_accounts s)) in
  {| cd_accounts := accounts; cd_contracts := contracts; cd_block_hashes := ss_block_hashes s |}.
End cache_db.

(** ** Specification *)


(** Inserting the entries of a list one after the other. *)
Lemma foldl_insert `{Countable K} {A B} (f : B → A) (m : gmap K A) (l : list (K * B)) k :
  NoDup l.*1 →
  foldl (λ m e, <[e.1 := f e.2]> m) m l !! k =
    match (list_to_map l : gmap K B) !! k with Some x => Some (f x) | None => m !! k end.
Proof.
  revert m. induction l as [|[k' x] l IH]; intros m Hnd; simpl; [by rewrite lookup_empty|].
  apply NoDup_cons in Hnd as [Hk Hnd]. rewrite IH by done. rewrite lookup_insert.
  case_decide; subst.
  - rewrite not_elem_of_list_to_map_1 by done. by rewrite lookup_insert_eq.
  - by rewrite lookup_insert_ne.
Qed.

Section cache_spec.
Context {order : HashOrder Address}.
Implicit Types d : CacheDB.

(** What is left of an account that went through a snapshot. *)
Definition strip (acc : DbAccount) : DbAccount :=
  {| da_info := set_code_field (da_info acc) None; da_state := AccNone;
     da_storage := da_storage acc |}.

(** The database without the copies of the code in the accounts. *)
Definition normalize d : CacheDB :=
  {| cd_accounts := strip <$> cd_accounts d; cd_contracts := cd_contracts d;
     cd_block_hashes := cd_block_hashes d |}.

(** The three parts of the loop that empties the database. *)
Lemma clear_storage_part l c A S :
  (foldl clear_account (c, A, S) l).2 = foldl (λ m e, <[e.1 := da_storage e.2]> m) S l.
Proof. revert c A S. induction l as [|[a acc] l IH]; intros; simpl; [done|]. apply IH. Qed.

Record cleared (c0 c : gmap B256 Bytes) (l : list (Address * DbAccount))
    (A : gmap Address DbInfo) : Prop := {
  cl_sub : c ⊆ c0;
  cl_dom : dom A = list_to_set l.*1;
  cl_info : ∀ a acc, (a, acc) ∈ l → ∃ code,
    A !! a = Some (set_code_field (da_info acc) code) ∧
    (code = None ∨ code = c0 !! in_code_hash (da_info acc));
  cl_kept : ∀ h code, c0 !! h = Some code → c !! h = Some code ∨
    ∃ a acc, (a, acc) ∈ l ∧ in_code_hash (da_info acc) = h ∧
      A !! a = Some (set_code_field (da_info acc) (Some code))
}.

Lemma clear_step c0 c l A a acc :
  cleared c0 c l A → a ∉ l.*1 →
  cleared c0 (delete (in_code_hash (da_info acc)) c) (l ++ [(a, acc)])
    (<[a := set_code_field (da_info acc) (c !! in_code_hash (da_info acc))]> A).
Proof.
  intros [Hs Hd Hi Hk] Ha.
  assert (∀ a' acc', (a', acc') ∈ l → a' ≠ a) as Hne.
  { intros a' acc' Hin ->. apply Ha. apply list_elem_of_fmap. by exists (a, acc'). }
  split.
  - etrans; [apply delete_subseteq|done].
  - rewrite dom_insert_L, Hd, fmap_app, list_to_set_app_L. simpl. set_solver.
  - intros a' acc' [Hin|Hin]%elem_of_app.
    + rewrite lookup_insert_ne by (intros ->; by eapply Hne). by apply Hi.
    + apply list_elem_of_singleton in Hin as [= -> ->]. rewrite lookup_insert_eq. eexists.
      split; [done|]. destruct (c !! _) as [code|] eqn:E; [|by left]. right.
      symmetry. by eapply lookup_weaken.
  - intros h code Hc. destruct (Hk h code Hc) as [Hin|(a' & acc' & Hin & Hh & E)].
    + rewrite lookup_delete. case_decide as Eh; [|by left]. right. exists a, acc.
      split; [set_solver|]. split; [done|]. by rewrite lookup_insert_eq, Eh, Hin.
    + right. exists a', acc'. split; [set_solver|]. split; [done|].
      by rewrite lookup_insert_ne by (intros ->; by eapply Hne).
Qed.

Lemma clear_all c0 c l l' A S :
  cleared c0 c l A → NoDup (l ++ l').*1 →
  let r := foldl clear_account (c, A, S) l' in cleared c0 r.1.1 (l ++ l') r.1.2.
Proof.
  revert c l A S. induction l' as [|[a acc] l' IH]; intros c l A S Hc Hnd; simpl.
  - by rewrite app_nil_r.
  - rewrite cons_middle, app_assoc. apply IH; [|by rewrite <- app_assoc]. apply clear_step; [done|].
    rewrite fmap_app in Hnd. apply NoDup_app in Hnd as (_ & Hdis & _). intros Hin.
    apply (Hdis a Hin). simpl. set_solver.
Qed.

Lemma clear_spec d :
  let r := clear_into_state_snapshot d in
  cleared (cd_contracts d) (cd_contracts r.1) (map_pairs (cd_accounts d)) (ss_accounts r.2) ∧
  ss_storage r.2 = da_storage <$> cd_accounts d ∧ ss_block_hashes r.2 = cd_block_hashes d ∧
  cd_accounts r.1 = ∅ ∧ cd_block_hashes r.1 = ∅.
Proof.
  unfold clear_into_state_snapshot.
  pose proof (clear_all (cd_contracts d) (cd_contracts d) [] (map_pairs (cd_accounts d)) ∅ ∅)
    as Hc.
  pose proof (clear_storage_part (map_pairs (cd_accounts d)) (cd_contracts d) ∅ ∅) as Hs.
  destruct (foldl clear_account _ _) as [[c A] S]; simpl in *. split_and!; try done.
  - apply Hc; [|apply map_pairs_NoDup]. split; try done; [set_solver|].
    intros h code E. by left.
  - subst. apply map_eq. intros a. rewrite foldl_insert by apply map_pairs_NoDup.
    rewrite map_pairs_list_to_map, lookup_fmap. by destruct (cd_accounts d !! a).
Qed.

(** The parts of the loop that fills the database. *)
Lemma init_accounts_part l c A S a :
  NoDup l.*1 →
  (foldl init_account (c, A, S) l).1.2 !! a =
    match (list_to_map l : gmap Address DbInfo) !! a with
    | Some i => Some {| da_info := set_code_field i None; da_state := AccNone;
                        da_storage := default ∅ (S !! a) |}
    | None => A !! a
    end.
Proof.
  revert c A S. induction l as [|[a' i] l IH]; intros c A S Hnd; [simpl; by rewrite lookup_empty|].
  cbn [foldl init_account fst snd]. apply NoDup_cons in Hnd as [Ha Hnd]. rewrite IH by done.
  simpl. rewrite lookup_insert. case_decide; subst.
  - rewrite not_elem_of_list_to_map_1 by done. by rewrite lookup_insert_eq.
  - by rewrite lookup_insert_ne, lookup_delete_ne.
Qed.

Lemma init_contracts_part (c0 : gmap B256 Bytes) l c A S :
  c ⊆ c0 →
  (∀ a i code, (a, i) ∈ l → in_code i = Some code → c0 !! in_code_hash i = Some code) →
  let r := (foldl init_account (c, A, S) l).1.1 in
  c ⊆ r ∧ r ⊆ c0 ∧
  ∀ a i code, (a, i) ∈ l → in_code i = Some code → r !! in_code_hash i = Some code.
Proof.
  revert c A S. induction l as [|[a i] l IH]; intros c A S Hc Hl; cbn zeta.
  { split_and!; try done. intros a i code Hin. by apply elem_of_nil in Hin. }
  cbn [foldl init_account].
  set (c1 := add_code c i).
  assert (c ⊆ c1 ∧ c1 ⊆ c0 ∧ ∀ code, in_code i = Some code → c1 !! in_code_hash i = Some code)
    as (H1 & H2 & H3).
  { unfold c1, add_code. destruct (in_code i) as [code|] eqn:E; [|by split_and!].
    pose proof (Hl a i code ltac:(set_solver) E) as H0.
    split_and!; [|by apply insert_subseteq_l|intros ? [= <-]; by rewrite lookup_insert_eq].
    apply map_subseteq_spec. intros h x Hx. rewrite lookup_insert. case_decide; [|done]. subst.
    rewrite <- H0. by eapply lookup_weaken. }
  destruct (IH c1 (<[a := {| da_info := set_code_field i None; da_state := AccNone;
      da_storage := default ∅ (S !! a) |}]> A) (delete a S)) as (R1 & R2 & R3);
    [done|intros a' i' code Hin; apply (Hl a'); apply elem_of_cons; by right|].
  split_and!; [by etrans|done|]. intros a' i' code [[= -> ->]|Hin]%elem_of_cons Hcode.
  - eapply lookup_weaken; [by apply H3|done].
  - by eapply R3.
Qed.

(** Emptying a database and filling it again normalizes it. *)
Lemma init_clear_normalize d :
  init_from_state_snapshot (clear_into_state_snapshot d).1 (clear_into_state_snapshot d).2 =
    normalize d.
Proof.
  pose proof (clear_spec d) as Hc. destruct (clear_into_state_snapshot d) as [d1 s]; simpl in Hc.
  destruct Hc as ([Hsub Hdom Hinfo Hkept] & Hst & Hbh & Hacc & _); simpl.
  unfold init_from_state_snapshot, normalize.
  pose proof (init_contracts_part (cd_contracts d) (map_pairs (ss_accounts s)) (cd_contracts d1)
    (cd_accounts d1) (ss_storage s) Hsub) as Hcon.
  pose proof (λ a, init_accounts_part (map_pairs (ss_accounts s)) (cd_contracts d1)
    (cd_accounts d1) (ss_storage s) a (map_pairs_NoDup _)) as Hac.
  destruct (foldl init_account _ _) as [[c A] S]; simpl in *.
  assert (∀ a i, ss_accounts s !! a = Some i → ∃ acc code, cd_accounts d !! a = Some acc ∧
    i = set_code_field (da_info acc) code ∧
    (code = None ∨ code = cd_contracts d !! in_code_hash (da_info acc))) as Hs.
  { intros a i Hi. assert (a ∈ dom (ss_accounts s)) as Hin by (by eapply elem_of_dom_2).
    rewrite Hdom, elem_of_list_to_set in Hin. apply list_elem_of_fmap in Hin as ([a' acc] & -> & Hin).
    destruct (Hinfo _ _ Hin) as (code & E & Hcode). simpl in Hi. rewrite E in Hi.
    injection Hi as <-. apply map_pairs_elem in Hin. by exists acc, code. }
  destruct Hcon as (H1 & H2 & H3).
  { intros a i code Hin Hcode. apply map_pairs_elem, Hs in Hin as (acc & ? & _ & -> & [->| ->]);
      [done|]. done. }
  f_equal; [| |done].
  - apply map_eq. intros a. rewrite Hac, map_pairs_list_to_map, lookup_fmap, Hacc, Hst, lookup_fmap.
    destruct (ss_accounts s !! a) as [i|] eqn:Ei.
    + apply Hs in Ei as (acc & code & -> & -> & _). done.
    + destruct (cd_accounts d !! a) as [acc|] eqn:Ea; [|by rewrite lookup_empty].
      apply map_pairs_elem in Ea. destruct (Hinfo _ _ Ea) as (? & E & _). congruence.
  - apply (anti_symm (⊆)); [done|]. apply map_subseteq_spec. intros h code Hh.
    destruct (Hkept h code Hh) as [Hin|(a & acc & Hin & <- & E)].
    + by eapply lookup_weaken.
    + eapply (H3 a (set_code_field (da_info acc) (Some code))); [by apply map_pairs_elem|done].
Qed.
End cache_spec.

(** ** The node's states

    Two databases look the same when they agree on accounts, storage, contract
    code by hash and block hashes; [da_state] and the copy of the code in an
    account are left out. *)

Lemma normalize_idemp d : normalize (normalize d) = normalize d.
Proof.
  unfold normalize; simpl. f_equal. rewrite <- map_fmap_compose. apply map_fmap_ext.
  by intros a [[] ? ?] _.
Qed.

#[export] Instance cache_equiv : Equiv CacheDB := λ d d', normalize d = normalize d'.

#[export] Instance cache_equivalence : Equivalence (≡@{CacheDB}).
Proof. split; unfold equiv, cache_equiv; congruence. Qed.

Abbreviation add_codes := (foldl (λ m (e : Address * DbInfo), add_code m e.2)).

Lemma add_codes_cong l (m m' : gmap B256 Bytes) h :
  m !! h = m' !! h → add_codes m l !! h = add_codes m' l !! h.
Proof.
  revert m m'. induction l as [|[a i] l IH]; intros m m' E; simpl; [done|]. apply IH.
  unfold add_code. destruct (in_code i); [|done]. rewrite !lookup_insert. by case_decide.
Qed.

Lemma add_codes_idemp l (m : gmap B256 Bytes) : add_codes (add_codes m l) l = add_codes m l.
Proof.
  apply map_eq. intros h.
  enough (∀ m m', m' !! h = add_codes m l !! h → add_codes m' l !! h = add_codes m l !! h) by auto.
  clear m. induction l as [|[a i] l IH]; intros m m' E; simpl in *; [done|].
  unfold add_code in *. destruct (in_code i) as [code|]; [|by apply IH].
  destruct (decide (in_code_hash i = h)) as [<-|Hne].
  - apply add_codes_cong. by rewrite !lookup_insert_eq.
  - apply IH. by rewrite lookup_insert_ne.
Qed.

(** Code that comes with an account is found under its hash. *)
Lemma add_codes_hit (F : gmap B256 Bytes) l m h code :
  (∀ b i c, (b, i) ∈ l → in_code i = Some c → F !! in_code_hash i = Some c) →
  F !! h = Some code →
  (m !! h = Some code ∨ ∃ b i, (b, i) ∈ l ∧ in_code_hash i = h ∧ in_code i = Some code) →
  add_codes m l !! h = Some code.
Proof.
  revert m. induction l as [|[b i] l IH]; intros m Hl Hf Hm; simpl.
  { destruct Hm as [?|(b & i & Hin & _)]; [done|]. by apply elem_of_nil in Hin. }
  apply IH; [intros b' i' c Hin; apply (Hl b'); apply elem_of_cons; by right|done|].
  destruct Hm as [Hm|(b' & i' & [[= -> ->]|Hin]%elem_of_cons & Eh & Ec)]; [left|left|right].
  - unfold add_code. destruct (in_code i) as [c|] eqn:Ec; [|done]. rewrite lookup_insert.
    case_decide as Eh; [|done]. rewrite <- Hf, <- Eh. symmetry.
    apply (Hl b i c); [apply elem_of_cons; by left|done].
  - unfold add_code. by rewrite Ec, <- Eh, lookup_insert_eq.
  - by exists b', i'.
Qed.

Lemma init_contracts_eq {order : HashOrder Address} l c A S :
  (foldl init_account (c, A, S) l).1.1 = add_codes c l.
Proof. revert c A S. induction l as [|[a i] l IH]; intros; simpl; [done|]. apply IH. Qed.

(** Filling a database twice with a snapshot is like filling it once. *)
Lemma init_init_same {order : HashOrder Address} d s :
  init_from_state_snapshot (init_from_state_snapshot d s) s = init_from_state_snapshot d s.
Proof.
  unfold init_from_state_snapshot. set (l := map_pairs (ss_accounts s)).
  pose proof (λ c A a, init_accounts_part l c A (ss_storage s) a (map_pairs_NoDup _)) as Ha.
  pose proof (init_contracts_eq l (cd_contracts d) (cd_accounts d) (ss_storage s)) as Hc1.
  pose proof (Ha (cd_contracts d) (cd_accounts d)) as Ha1.
  destruct (foldl init_account (cd_contracts d, cd_accounts d, ss_storage s) l) as [[c A] S].
  simpl in *. pose proof (init_contracts_eq l c A (ss_storage s)) as Hc2. pose proof (Ha c A) as Ha2.
  destruct (foldl init_account (c, A, ss_storage s) l) as [[c' A'] S']; simpl in *.
  f_equal; [|subst; apply add_codes_idemp].
  apply map_eq. intros a. rewrite Ha2, Ha1. by destruct (list_to_map l !! a).
Qed.

#[export] Program Instance mem_state_db {order : HashOrder Address}
    : StateDbOps CacheDB StateSnapshot :=
  {| clear_into := clear_into_state_snapshot; init_from := init_from_state_snapshot |}.
Next Obligation.
  intros order d. rewrite init_clear_normalize. apply normalize_idemp.
Qed.
Next Obligation. intros order d s. by rewrite init_init_same. Qed.

(** ** [MemDb] *)

Record MemDb := {
  md_inner : CacheDB;
  md_snapshots : StateSnapshots CacheDB
}.

Definition snapshot_state (m : MemDb) : MemDb * Z :=
  let '(s, id) := snapshots_insert (md_snapshots m) (md_inner m) in
  ({| md_inner := md_inner m; md_snapshots := s |}, id).

Definition revert_state (m : MemDb) (id : Z) (action : RevertStateSnapshotAction) : MemDb * bool :=
  match snapshots_remove (md_snapshots m) id with
  | (s, Some state_snapshot) =>
      ({| md_inner := state_snapshot;
          md_snapshots := if is_keep action then (insert_at s state_snapshot id).1 else s |}, true)
  | (s, None) => ({| md_inner := md_inner m; md_snapshots := s |}, false)
  end.

(** [current_state]: the state without the snapshots. *)
Definition mem_current_state (m : MemDb) : CacheDB := md_inner m.

Definition mem_insert_block_hash (m : MemDb) (number : Z) (hash : B256) : MemDb :=
  {| md_inner := {| cd_accounts := cd_accounts (md_inner m);
                    cd_contracts := cd_contracts (md_inner m);
                    cd_block_hashes := <[number := hash]> (cd_block_hashes (md_inner m)) |};
     md_snapshots := md_snapshots m |}.

(** *** Snapshots as a state machine *)

(** What happens after the snapshot [id]: the state changes, snapshots are
    taken, and later snapshots are reverted. *)
Inductive mem_step (id : Z) : MemDb → MemDb → Prop :=
| mem_write m d :
    mem_step id m {| md_inner := d; md_snapshots := md_snapshots m |}
| mem_snapshot m : mem_step id m (snapshot_state m).1
| mem_revert m id' action :
    id < id' < umax 256 → mem_step id m (revert_state m id' action).1.

Record snapshots_wf (s : StateSnapshots CacheDB) : Prop := {
  sw_range : 0 ≤ sn_id s ≤ umax 256;
  sw_keys : sn_id s < umax 256 → ∀ i, is_Some (state_snapshots s !! i) → 0 ≤ i < sn_id s
}.

(** The snapshots up to [id] are the ones of [s0], and [id] holds [d]. *)
Record holding (id : Z) (s0 : StateSnapshots CacheDB) (d : CacheDB) (m : MemDb) : Prop := {
  ho_wf : snapshots_wf (md_snapshots m);
  ho_next : id < sn_id (md_snapshots m);
  ho_old : ∀ i, i < id → state_snapshots (md_snapshots m) !! i = state_snapshots s0 !! i;
  ho_state : state_snapshots (md_snapshots m) !! id = Some d
}.

(** What [remove] leaves. *)
Lemma snapshots_remove_lookup (s : StateSnapshots CacheDB) id i :
  state_snapshots (snapshots_remove s id).1 !! i =
    if decide (i = id ∨ id +w[256] 1 ≤ i < sn_id s) then None else state_snapshots s !! i.
Proof.
  simpl. rewrite foldl_delete_lookup, lookup_delete.
  destruct (decide (i ∈ seqZ _ _)) as [Hin|Hin]; rewrite elem_of_seqZ in Hin;
    repeat case_decide; try done; lia.
Qed.

Lemma wrap_succ id : 0 ≤ id < umax 256 → id +w[256] 1 = id + 1.
Proof. intros. apply wrap_small. unfold is_u. lia. Qed.

Lemma snapshots_insert_wf s d : snapshots_wf s → snapshots_wf (snapshots_insert s d).1.
Proof.
  intros [Hr Hk]. split; simpl; unfold saturating_add; [unfold umax in *; lia|].
  intros Hlt i. rewrite lookup_insert_is_Some'. intros [<-|Hi]; [lia|].
  specialize (Hk ltac:(lia) i Hi). lia.
Qed.

Lemma snapshots_remove_wf s id : snapshots_wf s → snapshots_wf (snapshots_remove s id).1.
Proof.
  intros [Hr Hk]. split; [done|]. intros Hlt i. rewrite snapshots_remove_lookup.
  case_decide; [by intros []|]. by apply Hk.
Qed.

Lemma holding_step id s0 d m m' :
  0 ≤ id → mem_step id m m' → holding id s0 d m → holding id s0 d m'.
Proof.
  intros Hid [m1 d1|m1|m1 id' action Hlt] [Hw Hn Ho Hs].
  - by split.
  - unfold snapshot_state; simpl. split; simpl.
    + by apply (snapshots_insert_wf (md_snapshots m1) (md_inner m1)).
    + destruct Hw as [Hr _]. unfold saturating_add. lia.
    + intros i Hi. rewrite lookup_insert_ne by lia. by apply Ho.
    + by rewrite lookup_insert_ne by lia.
  - pose proof (snapshots_remove_wf (md_snapshots m1) id' Hw) as Hw'.
    assert (∀ i, i ≤ id → state_snapshots (snapshots_remove (md_snapshots m1) id').1 !! i =
      state_snapshots (md_snapshots m1) !! i) as Hkeep.
    { intros i Hi. rewrite snapshots_remove_lookup, wrap_succ by lia. by rewrite decide_False by lia. }
    assert (sn_id (snapshots_remove (md_snapshots m1) id').1 = sn_id (md_snapshots m1)) as En by done.
    unfold revert_state. destruct (snapshots_remove (md_snapshots m1) id') as [s o] eqn:Er.
    cbn [fst] in *.
    assert (holding id s0 d {| md_inner := md_inner m1; md_snapshots := s |}) as Hh.
    { split; simpl; [done|lia|intros i Hi; rewrite Hkeep by lia; by apply Ho|].
      by rewrite Hkeep by lia. }
    destruct o as [snap|]; [|done]. destruct Hh as [H1 H2 H3 H4]; simpl in *.
    destruct (is_keep action); split; simpl; try done.
    + destruct H1 as [Hr Hk]. split; [done|]. simpl. intros Hlt' i.
      rewrite lookup_insert_is_Some'. intros [<-|Hi]; [|by apply Hk].
      assert (is_Some (state_snapshots (md_snapshots m1) !! id')) as Hin.
      { unfold snapshots_remove in Er. injection Er as _ E. by rewrite E. }
      rewrite En in Hlt' |- *. by apply (sw_keys _ Hw Hlt').
    + intros i Hi. rewrite lookup_insert_ne by lia. by apply H3.
    + by rewrite lookup_insert_ne by lia.
Qed.

(** *** Properties *)

(** A snapshot can be reverted whatever happened since: after any changes
    of the state, further snapshots and reverts of those, reverting to the
    snapshot brings back exactly the state it was taken of, drops every later
    snapshot, keeps the earlier ones, and keeps the snapshot itself only when
    asked to. *)
Theorem snapshot_revert_restores (m m2 : MemDb) (action : RevertStateSnapshotAction) :
  let '(m1, id) := snapshot_state m in
  snapshots_wf (md_snapshots m) → sn_id (md_snapshots m) < umax 256 →
  rtc (mem_step id) m1 m2 → sn_id (md_snapshots m2) < umax 256 →
  let '(m3, ok) := revert_state m2 id action in
  ok = true ∧ md_inner m3 = md_inner m ∧
  (∀ i, i < id → snapshots_get (md_snapshots m3) i = snapshots_get (md_snapshots m) i) ∧
  (∀ i, id < i → snapshots_get (md_snapshots m3) i = None) ∧
  snapshots_get (md_snapshots m3) id = if is_keep action then Some (md_inner m) else None.
Proof.
  destruct (snapshot_state m) as [m1 id] eqn:E0. unfold snapshot_state in E0; simpl in E0.
  injection E0 as <- <-. set (id := sn_id (md_snapshots m)).
  intros Hw Hid Hsteps Hmax.
  assert (0 ≤ id) as H0 by apply Hw.
  set (m1 := {| md_inner := md_inner m; md_snapshots := _ |}) in Hsteps.
  assert (holding id (md_snapshots m) (md_inner m) m1) as Hh.
  { split; simpl.
    - by apply (snapshots_insert_wf (md_snapshots m) (md_inner m)).
    - unfold saturating_add. lia.
    - intros i Hi. by rewrite lookup_insert_ne by lia.
    - by rewrite lookup_insert_eq. }
  assert (holding id (md_snapshots m) (md_inner m) m2) as [Hw2 Hn Ho Hs].
  { clearbody m1. induction Hsteps as [|x y z Hxy _ IH]; [done|].
    by eapply IH, holding_step. }
  pose proof (λ i, snapshots_remove_lookup (md_snapshots m2) id i) as Hr.
  unfold revert_state. destruct (snapshots_remove (md_snapshots m2) id) as [s o] eqn:Er.
  assert (o = Some (md_inner m)) as -> by (unfold snapshots_remove in Er; congruence).
  simpl in Hr. rewrite wrap_succ in Hr by lia.
  assert (∀ i, i < id → state_snapshots s !! i = state_snapshots (md_snapshots m) !! i) as H1.
  { intros i Hi. rewrite Hr, decide_False by lia. by apply Ho. }
  assert (∀ i, id ≤ i → state_snapshots s !! i = None) as H2.
  { intros i Hi. rewrite Hr. case_decide; [done|]. apply eq_None_not_Some. intros Hin.
    specialize (sw_keys _ Hw2 Hmax i Hin). lia. }
  split_and!; [done|done|..]; unfold snapshots_get; destruct action; simpl.
  - done.
  - intros i Hi. rewrite lookup_insert_ne by lia. by apply H1.
  - intros i Hi. apply H2. lia.
  - intros i Hi. rewrite lookup_insert_ne by lia. apply H2. lia.
  - by apply H2.
  - by rewrite lookup_insert_eq.
Qed.

Definition ex_cache (n : Z) : CacheDB :=
  {| cd_accounts := {[7 := {| da_info := {| in_balance := n; in_nonce := 0; in_code_hash := 9;
                                            in_code := Some [1] |};
                              da_state := Touched; da_storage := {[1 := n]} |}]};
     cd_contracts := {[9 := [1]]}; cd_block_hashes := ∅ |}.

Definition ex_mem (n : Z) : MemDb :=
  {| md_inner := ex_cache n; md_snapshots := snapshots_default |}.

Definition ex_mem_changed : MemDb :=
  (snapshot_state {| md_inner := ex_cache 5; md_snapshots := md_snapshots (snapshot_state (ex_mem 3)).1 |}).1.

Lemma snapshot_revert_restores_witness :
  md_inner (revert_state ex_mem_changed 0 RevertRemove).1 = ex_cache 3.
Proof.
  apply (snapshot_revert_restores (ex_mem 3) ex_mem_changed RevertRemove).
  - split; simpl; [unfold umax; lia|]. intros _ i. rewrite lookup_empty. by intros [].
  - vm_compute. reflexivity.
  - eapply rtc_l; [apply (mem_write _ _ (ex_cache 5))|]. apply rtc_once, mem_snapshot.
  - vm_compute. reflexivity.
Defined.

(** A snapshot read for a dump and loaded into an empty database gives the
    accounts with their storage, the block hashes and the code of every
    account. *)
Lemma read_init_roundtrip {order : HashOrder Address} (d d0 : CacheDB) :
  cd_accounts d0 = ∅ →
  let d' := init_from_state_snapshot d0 (read_as_state_snapshot d) in
  cd_accounts d' = strip <$> cd_accounts d ∧ cd_block_hashes d' = cd_block_hashes d ∧
  ∀ a acc code, cd_accounts d !! a = Some acc →
    cd_contracts d !! in_code_hash (da_info acc) = Some code →
    cd_contracts d' !! in_code_hash (da_info acc) = Some code.
Proof.
  intros He. unfold init_from_state_snapshot.
  set (l := map_pairs (ss_accounts (read_as_state_snapshot d))).
  pose proof (λ a, init_accounts_part l (cd_contracts d0) (cd_accounts d0)
    (ss_storage (read_as_state_snapshot d)) a (map_pairs_NoDup _)) as Ha.
  pose proof (init_contracts_eq l (cd_contracts d0) (cd_accounts d0)
    (ss_storage (read_as_state_snapshot d))) as Hc.
  destruct (foldl init_account _ l) as [[c A] S]; simpl in *. split_and!; [|done|].
  - apply map_eq. intros a. rewrite Ha. unfold l. rewrite map_pairs_list_to_map; simpl.
    rewrite !lookup_fmap, He. destruct (cd_accounts d !! a); simpl; [done|]. by rewrite lookup_empty.
  - intros a acc code Hacc Hcode. rewrite Hc.
    apply (add_codes_hit (cd_contracts d)); [|done|right].
    + intros b i c1. unfold l. rewrite map_pairs_elem; simpl. rewrite lookup_fmap_Some.
      intros (acc' & <- & _). done.
    + exists a, (set_code_field (da_info acc) (Some code)). split; [|done]. unfold l.
      rewrite map_pairs_elem; simpl. by rewrite lookup_fmap, Hacc, <- Hcode.
Qed.
