(* ===== verification/Reorg.v ===== *)
(** * Rollback and reorganisation of the chain
    (crates/anvil/src/eth/backend/mem/mod.rs)

    [rollback] takes the chain back to a stored block and the database to the
    state archived for it, and [reorg] then mines new blocks.  The database is
    [MemDb]; the operations of revm's cache are the class [CacheOps]. *)

From stdpp Require Import prelude gmap list.
From S2P Require Import Prelude Containers Transaction PendingPool ReadyPool Pool Fees Env TimeManager Cheats Validate BlockStates Block Chain Executor Mine Api Estimate Query MemDb.

Open Scope Z_scope.

(** The storage of an account, empty when there is none. *)
Definition storage_at (d : CacheDB) (a : Address) : gmap Z Z :=
  default ∅ (da_storage <$> cd_accounts d !! a).

(** [CacheDB::insert_account_info] and [CacheDB::insert_account_storage] of
    revm, as documented: the first replaces the account's info, keeps its
    storage, and registers the code the info carries; the second sets a slot of
    an account, which exists afterwards. *)
Class CacheOps {rt : RevmTypes} := {
  insert_account_info : CacheDB → Address → DbInfo → CacheDB;
  insert_account_storage : CacheDB → Address → Z → Z → result CacheDB DatabaseError;
  iai_other : ∀ d a i a', a' ≠ a →
    cd_accounts (insert_account_info d a i) !! a' = cd_accounts d !! a';
  iai_account : ∀ d a i, ∃ acc, cd_accounts (insert_account_info d a i) !! a = Some acc ∧
    da_storage acc = storage_at d a ∧
    in_balance (da_info acc) = in_balance i ∧ in_nonce (da_info acc) = in_nonce i ∧
    in_code (da_info acc) = in_code i ∧
    (in_code i = None → in_code_hash i ≠ 0 → in_code_hash (da_info acc) = in_code_hash i);
  iai_contracts : ∀ d a i, in_code i = None →
    cd_contracts (insert_account_info d a i) = cd_contracts d;
  ias_ok : ∀ d a k v, ∃ d', insert_account_storage d a k v = Ok d';
  ias_other : ∀ d a k v d' a', insert_account_storage d a k v = Ok d' → a' ≠ a →
    cd_accounts d' !! a' = cd_accounts d !! a';
  ias_account : ∀ d a k v d', insert_account_storage d a k v = Ok d' →
    storage_at d' a = <[k := v]> (storage_at d a) ∧ cd_contracts d' = cd_contracts d
}.

(** The operations of [Db for MemDb]. *)
Section mem_ops.
Context {rt : RevmTypes} {cops : CacheOps} {order : HashOrder Address}.

Definition with_inner (m : MemDb) (d : CacheDB) : MemDb :=
  {| md_inner := d; md_snapshots := md_snapshots m |}.

Definition mem_insert_account (m : MemDb) (a : Address) (i : DbInfo) : MemDb :=
  with_inner m (insert_account_info (md_inner m) a i).

Definition mem_set_storage_at (m : MemDb) (a : Address) (slot val : Z)
    : result MemDb DatabaseError :=
  match insert_account_storage (md_inner m) a slot val with
  | Ok d => Ok (with_inner m d)
  | Err e => Err e
  end.

Definition mem_clear (m : MemDb) : MemDb := with_inner m (cache_clear (md_inner m)).

(** The loops of [rollback] over the accounts of the archived state. *)
Fixpoint restore_storage (m : MemDb) (a : Address) (l : list (Z * Z))
    : MemDb * result unit DatabaseError :=
  match l with
  | [] => (m, Ok tt)
  | (key, value) :: l =>
      match mem_set_storage_at m a key value with
      | Ok m => restore_storage m a l
      | Err e => (m, Err e)
      end
  end.

Fixpoint restore_accounts {sorder : HashOrder Z} (m : MemDb) (l : list (Address * DbAccount))
    : MemDb * result unit DatabaseError :=
  match l with
  | [] => (m, Ok tt)
  | (address, acc) :: l =>
      match restore_storage m address (map_pairs (H0 := sorder) (da_storage acc)) with
      | (m, Ok _) => restore_accounts (mem_insert_account m address (da_info acc)) l
      | (m, Err e) => (m, Err e)
      end
  end.
End mem_ops.

#[export] Instance mem_state_ops : StateOps MemDb CacheDB :=
  {| current_state := mem_current_state; insert_block_hash := mem_insert_block_hash |}.

Section reorg.
Context {ext : TxExternals} {specs : SpecIds} {bext : BlockExternals} {rt : RevmTypes}
  {Disk : Type} {evm : RevmDb MemDb} {order sorder : HashOrder Z} {dc : FileSystem Disk StateSnapshot}
  {kext : BackendExternals} {cops : CacheOps} {BlobError : Type}
  (blob_validate : TxEip4844Variant → result unit BlobError).
Context (txenv_default : TxEnv) (op_new : TxEnv → OpTransaction)
  (calculate_receipt_root : list TypedReceipt → B256)
  (slots : Z) (c : BackendConfig) (now : Z).
Abbreviation Node := (Backend MemDb CacheDB Disk).
Abbreviation BcError := (BlockchainError BlobError).
Implicit Types b : Node.

Definition with_db b (m : MemDb) : Node :=
  {| bk_env := bk_env b; bk_fees := bk_fees b; bk_time := bk_time b; bk_cheats := bk_cheats b;
     bk_chain := bk_chain b; bk_states := bk_states b; bk_db := m;
     bk_disable_pool_balance_checks := bk_disable_pool_balance_checks b |}.

(** The environment of the common block. *)
Definition rollback_env (e : EvmEnv) (h : Header) : EvmEnv :=
  let blk := env_blk e in
  {| env_cfg := env_cfg e;
     env_blk :=
       {| blk_number := h_number h; blk_beneficiary := blk_beneficiary blk;
          blk_timestamp := h_timestamp h; blk_gas_limit := h_gas_limit h;
          blk_basefee := blk_basefee blk; blk_difficulty := h_difficulty h;
          blk_prevrandao := Some (h_mix_hash h);
          blk_blob_excess_gas_and_price := blk_blob_excess_gas_and_price blk |} |}.

Definition rollback b (common_block : Block) : Node * result unit BcError :=
  let header := blk_header common_block in
  let hash := header_hash_slow header in
  match get_state (db := mem_state_db (order := order)) (bk_states b) hash with
  | (st, None) => (with_states b st, Err BcDataUnavailable)
  | (st, Some state) =>
      let b := with_states b st in
      match restore_accounts (sorder := sorder) (mem_clear (order := order) (bk_db b))
              (map_pairs (H0 := order) (cd_accounts state)) with
      | (m, Err e) => (with_db b m, Err (BcDatabase e))
      | (m, Ok _) =>
          ({| bk_env := rollback_env (bk_env b) header; bk_fees := bk_fees b;
              bk_time := time_reset now (bk_time b) (Z.min (h_timestamp header) (umax 64));
              bk_cheats := bk_cheats b;
              bk_chain := (unwind_to (bk_chain b) (h_number header) hash).1;
              bk_states := bk_states b; bk_db := m;
              bk_disable_pool_balance_checks := bk_disable_pool_balance_checks b |}, Ok tt)
      end
  end.

(** [anvil_rollback]: the block [depth] below the best one. *)
Definition anvil_rollback b (depth : option Z) : Node * result unit BcError :=
  let depth := default 1 depth in
  let current_height := best_number (bk_chain b) in
  if current_height <? depth then (b, Err BcRpcInvalidParams)
  else
    match get_block slots b (BlockIdNumber (Number (current_height - depth))) with
    | None => (b, Err BcBlockNotFound)
    | Some common_block => rollback b common_block
    end.

(** The new chain of [reorg], on top of the common block; [clock i] is the
    instant at which block [i] of it is mined. *)
Definition mine_reorg (clock : Z → Z) (tx_pairs : gmap Z (list PoolTransaction)) b (i : Z)
    : outcome Node :=
  '(b, _) ← do_mine_block (sdb := mem_state_db (order := order)) blob_validate txenv_default op_new
    calculate_receipt_root c (clock i) b (default [] (tx_pairs !! i));
  Ret b.

Definition reorg (clock : Z → Z) b (depth : Z) (tx_pairs : gmap Z (list PoolTransaction))
    (common_block : Block) : outcome (Node * result unit BcError) :=
  match rollback b common_block with
  | (b, Err e) => Ret (b, Err e)
  | (b, Ok _) => b ← foldM (mine_reorg clock tx_pairs) b (seqZ 0 depth); Ret (b, Ok tt)
  end.
End reorg.

(** ** Specification *)

Section restore_spec.
Context {rt : RevmTypes} {cops : CacheOps} {order sorder : HashOrder Z}.

(** The account [acc'] of the database is the archived account [acc]. *)
Record account_restored (acc acc' : DbAccount) : Prop := {
  ar_storage : da_storage acc' = da_storage acc;
  ar_balance : in_balance (da_info acc') = in_balance (da_info acc);
  ar_nonce : in_nonce (da_info acc') = in_nonce (da_info acc);
  ar_code : in_code (da_info acc') = in_code (da_info acc);
  ar_code_hash : in_code (da_info acc) = None → in_code_hash (da_info acc) ≠ 0 →
    in_code_hash (da_info acc') = in_code_hash (da_info acc)
}.

Lemma restore_storage_spec m a l :
  ∃ m', restore_storage m a l = (m', Ok tt) ∧
    storage_at (md_inner m') a = foldl (λ s e, <[e.1 := e.2]> s) (storage_at (md_inner m) a) l ∧
    (∀ a', a' ≠ a → cd_accounts (md_inner m') !! a' = cd_accounts (md_inner m) !! a') ∧
    cd_contracts (md_inner m') = cd_contracts (md_inner m) ∧
    md_snapshots m' = md_snapshots m.
Proof.
  revert m. induction l as [|[k v] l IH]; intros m; simpl; [by exists m|].
  unfold mem_set_storage_at. destruct (ias_ok (md_inner m) a k v) as [d' E]. rewrite E.
  destruct (ias_account _ _ _ _ _ E) as [E1 E2].
  destruct (IH (with_inner m d')) as (m' & -> & H1 & H2 & H3 & H4). exists m'.
  simpl in *. rewrite E1 in H1. split_and!; try done; [|by rewrite H3].
  intros a' Ha'. rewrite H2 by done. by apply (ias_other _ _ _ _ _ _ E).
Qed.

Lemma restore_accounts_spec m l :
  NoDup l.*1 → (∀ a, a ∈ l.*1 → cd_accounts (md_inner m) !! a = None) →
  ∃ m', restore_accounts (sorder := sorder) m l = (m', Ok tt) ∧
    (∀ a acc, (a, acc) ∈ l →
       ∃ acc', cd_accounts (md_inner m') !! a = Some acc' ∧ account_restored acc acc') ∧
    (∀ a, a ∉ l.*1 → cd_accounts (md_inner m') !! a = cd_accounts (md_inner m) !! a) ∧
    ((∀ a acc, (a, acc) ∈ l → in_code (da_info acc) = None) →
     cd_contracts (md_inner m') = cd_contracts (md_inner m)) ∧
    md_snapshots m' = md_snapshots m.
Proof.
  revert m. induction l as [|[a acc] l IH]; intros m Hnd Hm; cbn [restore_accounts].
  { exists m. split_and!; try done. intros a acc Hin. by apply elem_of_nil in Hin. }
  cbn [fmap list_fmap] in Hnd, Hm |- *. apply NoDup_cons in Hnd as [Ha Hnd]. simpl in Ha.
  destruct (restore_storage_spec m a (map_pairs (H0 := sorder) (da_storage acc)))
    as (m1 & -> & S1 & S2 & S3 & S4).
  set (m2 := mem_insert_account m1 a (da_info acc)).
  destruct (IH m2) as (m' & -> & R1 & R2 & R3 & R4); [done| |].
  { intros a' Ha'. assert (a' ≠ a) by (intros ->; done). unfold m2; simpl.
    rewrite iai_other, S2 by done. apply Hm, elem_of_cons. by right. }
  exists m'. split; [done|].
  assert (storage_at (md_inner m) a = ∅) as E0.
  { unfold storage_at. rewrite Hm; [done|]. apply elem_of_cons. by left. }
  assert (storage_at (md_inner m1) a = da_storage acc) as E1.
  { rewrite S1, E0. apply map_eq. intros k.
    rewrite (foldl_insert (λ x : Z, x)) by apply map_pairs_NoDup.
    rewrite map_pairs_list_to_map, lookup_empty. by destruct (da_storage acc !! k). }
  split_and!.
  - intros a' acc' [[= -> ->]|Hin]%elem_of_cons; [|by apply R1].
    rewrite R2 by done. unfold m2; simpl.
    destruct (iai_account (md_inner m1) a (da_info acc)) as (acc'' & E & H1 & H2 & H3 & H4 & H5).
    exists acc''. split; [done|]. split; try done. by rewrite H1.
  - intros a' Ha'. rewrite not_elem_of_cons in Ha'. destruct Ha' as [Hne Ha'].
    rewrite R2 by done. unfold m2; simpl. by rewrite iai_other, S2.
  - intros Hcode. rewrite R3; [|intros; eapply Hcode; apply elem_of_cons; by right].
    unfold m2; simpl. rewrite iai_contracts, S3; [done|].
    apply (Hcode a). apply elem_of_cons. by left.
  - by rewrite R4.
Qed.
End restore_spec.

Section rollback_spec.
Context {ext : TxExternals} {specs : SpecIds} {bext : BlockExternals} {rt : RevmTypes}
  {Disk : Type} {evm : RevmDb MemDb} {order sorder : HashOrder Z} {dc : FileSystem Disk StateSnapshot}
  {kext : BackendExternals} {cops : CacheOps} {BlobError : Type}
  (blob_validate : TxEip4844Variant → result unit BlobError).
Context (now : Z) {hh : HeaderHash}.
Implicit Types b : Backend MemDb CacheDB Disk.

(** The block [common] of the chain, with fields of their width. *)
Record stored_block b (common : Block) : Prop := {
  sb_block : blocks (bk_chain b) !! header_hash_slow (blk_header common) = Some common;
  sb_time : is_u 64 (h_timestamp (blk_header common));
  sb_gas : 0 ≤ h_gas_limit (blk_header common);
  sb_best : best_number (bk_chain b) < umax 64
}.

Lemma core_numbered b : node_core b → numbered (bk_chain b).
Proof.
  intros Hi n h blk Hn Hb. destruct (nc_hash _ Hi _ _ Hn) as (hd & E & ->).
  assert (h = header_hash_slow (blk_header blk)) as E'.
  { apply (nc_filed _ Hi). by rewrite lookup_fmap, Hb. }
  unfold hd_number. apply hash_number. congruence.
Qed.

(** The chain part of a rollback. *)
Lemma unwind_core b common :
  node_core b → stored_block b common →
  let hash := header_hash_slow (blk_header common) in
  let s' := (unwind_to (bk_chain b) (hd_number common) hash).1 in
  chain_inv s' ∧ best_number s' = hd_number common ∧ best_hash s' = hash ∧
  0 ≤ hd_number common ≤ best_number (bk_chain b) ∧
  (∀ n, hashes s' !! n = if decide (hd_number common < n) then None else hashes (bk_chain b) !! n) ∧
  (∀ h blk, blocks s' !! h = Some blk ↔
     blocks (bk_chain b) !! h = Some blk ∧ hd_number blk ≤ hd_number common).
Proof.
  intros Hi Hs hash s'. pose proof (ch_block _ (nc_chain _ Hi) _ _ (sb_block _ _ Hs)) as Hn.
  pose proof (ch_top _ (nc_chain _ Hi) _ _ Hn) as Hr. pose proof (sb_best _ _ Hs).
  pose proof (unwind_to_stored (bk_chain b) (hd_number common) hash (nc_chain _ Hi)
    (core_numbered b Hi) Hn ltac:(lia) ltac:(lia)) as Hu.
  unfold s'. destruct (unwind_to (bk_chain b) (hd_number common) hash) as [s1 rm].
  destruct Hu as (H1 & H2 & H3 & H4 & H5 & _). split_and!; try done; lia.
Qed.

(** The effect of a rollback to [common], whose archived state is [s]. *)
Record rolled_back b (common : Block) (s : CacheDB) b' : Prop := {
  rb_core : node_core b';
  rb_best : best_number (bk_chain b') = hd_number common ∧
    best_hash (bk_chain b') = header_hash_slow (blk_header common);
  rb_hashes : ∀ n, hashes (bk_chain b') !! n =
    if decide (hd_number common < n) then None else hashes (bk_chain b) !! n;
  rb_blocks : ∀ h blk, blocks (bk_chain b') !! h = Some blk ↔
    blocks (bk_chain b) !! h = Some blk ∧ hd_number blk ≤ hd_number common;
  rb_accounts : ∀ a,
    match cd_accounts s !! a with
    | Some acc => ∃ acc', cd_accounts (md_inner (bk_db b')) !! a = Some acc' ∧
        account_restored acc acc'
    | None => cd_accounts (md_inner (bk_db b')) !! a = None
    end;
  rb_contracts : (∀ a acc, cd_accounts s !! a = Some acc → in_code (da_info acc) = None) →
    cd_contracts (md_inner (bk_db b')) = cd_contracts (cache_clear (order := order) (md_inner (bk_db b)));
  rb_time : bk_time b' = time_reset now (bk_time b) (h_timestamp (blk_header common));
  rb_fees : bk_fees b' = bk_fees b
}.

Lemma rollback_spec b common s :
  node_core b → stored_block b common →
  content (db := mem_state_db (order := order)) (bk_states b) (header_hash_slow (blk_header common))
    = Some s →
  ∃ b', rollback (BlobError := BlobError) (order := order) (sorder := sorder) now b common =
      (b', Ok tt) ∧ rolled_back b common s b'.
Proof.
  intros Hi Hs Hc. pose proof (unwind_core b common Hi Hs) as (U1 & U2 & U3 & U4 & U5 & U6).
  unfold rollback.
  pose proof (get_state_spec (db := mem_state_db (order := order)) (bk_states b)
    (header_hash_slow (blk_header common))) as Hg.
  destruct (get_state _ _) as [st o] eqn:Eg. destruct Hg as (-> & _ & _). rewrite Hc in Eg |- *.
  assert (states_live st) as Hl.
  { pose proof (nc_live _ Hi) as [? ?]. unfold get_state in Eg.
    repeat case_match; simplify_eq/=; by split. }
  pose proof (clear_spec (order := order) (md_inner (bk_db b))) as (_ & _ & _ & Hcl & _).
  destruct (restore_accounts_spec (sorder := sorder) (mem_clear (order := order) (bk_db b))
    (map_pairs (H0 := order) (cd_accounts s))) as (m & Em & R1 & R2 & R3 & R4).
  { apply map_pairs_NoDup. }
  { intros a _. simpl. unfold cache_clear. by rewrite Hcl. }
  cbn [bk_db with_states]. rewrite Em. eexists. split; [reflexivity|].
  pose proof (sb_time _ _ Hs) as Ht. unfold is_u in Ht.
  split; simpl; try done.
  - split; simpl; try done.
    + intros n h. rewrite U5. case_decide; [done|]. apply (nc_hash _ Hi).
    + intros h hd. rewrite lookup_fmap_Some. intros (blk & <- & [Hb _]%U6).
      apply (nc_filed _ Hi). by rewrite lookup_fmap, Hb.
    + destruct (nc_time _ Hi) as [? ? ?]. split; simpl; [unfold is_u; lia|done|done].
    + apply (nc_spec _ Hi).
    + intros [] [H1 H2]; [done|]. by apply (nc_header _ Hi ExcessBlobGasNotSet).
    + apply (nc_chain_id _ Hi).
    + apply (sb_gas _ _ Hs).
    + apply (nc_blob_limit _ Hi).
  - intros a. destruct (cd_accounts s !! a) as [acc|] eqn:Ea.
    + apply R1. by apply map_pairs_elem.
    + rewrite R2; simpl; [unfold cache_clear; by rewrite Hcl|].
      intros ([a' acc] & -> & Hin)%list_elem_of_fmap. apply map_pairs_elem in Hin. naive_solver.
  - intros Hcode. rewrite R3; [done|]. intros a acc Hin%map_pairs_elem. by eapply Hcode.
  - by rewrite Z.min_l by lia.
Qed.

(** Without an archived state nothing is rolled back. *)
Lemma rollback_unavailable b common :
  content (db := mem_state_db (order := order)) (bk_states b) (header_hash_slow (blk_header common))
    = None →
  ∃ st, rollback (BlobError := BlobError) (order := order) (sorder := sorder) now b common =
      (with_states b st, Err BcDataUnavailable) ∧
    (∀ h, content (db := mem_state_db (order := order)) st h ≡
       content (db := mem_state_db (order := order)) (bk_states b) h).
Proof.
  intros Hc. unfold rollback.
  pose proof (get_state_spec (db := mem_state_db (order := order)) (bk_states b)
    (header_hash_slow (blk_header common))) as Hg.
  destruct (get_state _ _) as [st o]. destruct Hg as (-> & Hall & _). rewrite Hc. by exists st.
Qed.
End rollback_spec.

Section reorg_spec.
Context {ext : TxExternals} {specs : SpecIds} {bext : BlockExternals} {rt : RevmTypes}
  {Disk : Type} {evm : RevmDb MemDb} {order sorder : HashOrder Z} {dc : FileSystem Disk StateSnapshot}
  {kext : BackendExternals} {cops : CacheOps} {BlobError : Type}
  (blob_validate : TxEip4844Variant → result unit BlobError).
Context (txenv_default : TxEnv) (op_new : TxEnv → OpTransaction)
  (calculate_receipt_root : list TypedReceipt → B256) (c : BackendConfig).
Context {hh : HeaderHash} {laws : RevmLaws (evm := evm)}.
Implicit Types b : Backend MemDb CacheDB Disk.

(** Mining keeps the core invariant, whatever is archived already. *)
Lemma mine_core_live now b txs :
  node_core b → in_bounds b →
  ensures (mines_safely c now b)
    (do_mine_block (sdb := mem_state_db (order := order)) blob_validate txenv_default op_new
      calculate_receipt_root c now b txs)
    (λ '(b', o),
      mined_block (sdb := mem_state_db (order := order)) (I := node_core) blob_validate c b txs b' o ∧
      hashes (bk_chain b') =
        <[best_number (bk_chain b) + 1 := best_hash (bk_chain b')]> (hashes (bk_chain b)) ∧
      bk_time b' = (next_timestamp now (bk_time b)).1).
Proof.
  intros Hi Hr.
  destruct (insert_state_live (db := mem_state_db (order := order)) (bk_states b)
    (best_hash (bk_chain b)) (current_state (bk_db b)) (nc_live _ Hi)) as (st & Es & Hl & Hc).
  set (st' := if is_state_history_supported c then st else bk_states b).
  assert ((if is_state_history_supported c
    then insert_state (db := mem_state_db (order := order)) (bk_states b) (best_hash (bk_chain b))
           (current_state (bk_db b))
    else Ret (bk_states b)) = Ret st') as Ea by (unfold st'; by destruct is_state_history_supported).
  pose proof (mine_core (sdb := mem_state_db (order := order)) blob_validate txenv_default op_new
    calculate_receipt_root c now b txs st' Hi Hr Ea) as Hm.
  pose proof (do_mine_block_time (sdb := mem_state_db (order := order)) blob_validate txenv_default
    op_new calculate_receipt_root c now b txs) as Ht.
  destruct (do_mine_block _ _ _ _ _ _ _ _) as [[b' o]| |]; simpl in *; [|apply Hm..].
  2-5: unfold st'; by destruct is_state_history_supported; [|first [done|apply (nc_live _ Hi)]].
  destruct Hm as [Hm Hh]; [unfold st'; by destruct is_state_history_supported;
    [|apply (nc_live _ Hi)]|unfold st'; by intros ->|].
  split_and!; [|done|by eapply Ht]. eapply mined_block_mono; [exact Hm|]. by intros [].
Qed.

(** The clock of a node reset to [ts] at [now0], which [i] blocks later has
    moved at most [w]. *)
Record clock_after (now0 ts w step i : Z) (tm : TimeManager) : Prop := {
  ca_exact : tm_next_exact_timestamp tm = None;
  ca_offset : tm_offset tm = ts - now0;
  ca_step : time_step tm = step;
  ca_last : ts ≤ tm_last_timestamp tm ≤ ts + w + i * step
}.

(** The node after [i] blocks of the new chain on top of block [n0] of [b0]. *)
Record reorged (b0 : Backend MemDb CacheDB Disk) (n0 now0 ts w step i : Z) b : Prop := {
  rg_core : node_core b;
  rg_best : best_number (bk_chain b) = n0 + i;
  rg_old : ∀ n, n ≤ n0 → hashes (bk_chain b) !! n = hashes (bk_chain b0) !! n;
  rg_linked : linked_above n0 b;
  rg_clock : clock_after now0 ts w step i (bk_time b)
}.

Lemma reorg_step clock tx_pairs b0 n0 now0 ts w step i b :
  reorged b0 n0 now0 ts w step i b → bc_precompile_factory c = false → 0 ≤ ts → 0 ≤ i → 0 ≤ w →
  now0 ≤ clock i ≤ now0 + w → n0 + i < umax 64 → ts + w + (i + 1) * step ≤ utc_max → n0 ≤ n0 + i →
  ∃ b', mine_reorg (order := order) blob_validate txenv_default op_new calculate_receipt_root c
      clock tx_pairs b i = Ret b' ∧ reorged b0 n0 now0 ts w step (i + 1) b'.
Proof.
  intros [Hi Hb Ho Hl [C1 C2 C3 C4]] Hpf Hts H0 Hw Hc Hn Ht Hle.
  pose proof utc_max_i64 as Hutc. assert (2 ^ 63 < umax 64) as Hu by done.
  assert (1 ≤ step) as Hs by (rewrite <- C3; unfold time_step; lia).
  assert (in_bounds b) as Hr by (split; nia). unfold mine_reorg.
  pose proof (next_timestamp_bound (clock i) now0 ts w (bk_time b) C1 C2 Hc Hts
    ltac:(nia) ltac:(nia)) as Hx.
  pose proof (next_timestamp_spec (clock i) (bk_time b) (nc_time _ Hi) ltac:(nia)) as Hy.
  pose proof (mine_core_live (clock i) b (default [] (tx_pairs !! i)) Hi Hr) as Hmine.
  destruct (next_timestamp (clock i) (bk_time b)) as [tm t].
  destruct Hx as (X1 & X2 & X3 & X4), Hy as (Y1 & _ & Y2 & _ & Y3).
  assert (mines_safely c (clock i) b) as Hsafe
    by (split; [done|]; rewrite <- Y3; unfold time_step in *; nia).
  destruct (ensures_total _ _ _ Hmine Hsafe) as ([b' o] & -> & Hm & Hh & Htm).
  rewrite bind_Ret. cbn beta iota. exists b'. split; [done|]. simpl in Htm.
  destruct (bm_number _ _ _ _ _ _ Hm) as [_ En].
  split; [apply (bm_inv _ _ _ _ _ _ Hm)|lia| |by eapply (linked_step (sdb := mem_state_db (order := order)))|].
  - intros n Hn'. rewrite (bm_history _ _ _ _ _ _ Hm) by lia. by apply Ho.
  - rewrite Htm. unfold time_step in *. split; unfold time_step; rewrite ?X4; try done. nia.
Qed.

(** Enough numbers, and timestamps chrono has a date for, are left for [depth]
    blocks on [common]. *)
Record room_for (depth w : Z) b (common : Block) : Prop := {
  rf_depth : 0 ≤ depth;
  rf_clock : 0 ≤ w;
  rf_number : hd_number common + depth ≤ umax 64;
  rf_time : h_timestamp (blk_header common) + w + depth * time_step (bk_time b) ≤ utc_max
}.

Lemma reorg_spec clock tx_pairs b common depth now w s :
  node_core b → bc_precompile_factory c = false → stored_block b common →
  content (db := mem_state_db (order := order)) (bk_states b) (header_hash_slow (blk_header common))
    = Some s →
  room_for depth w b common → (∀ i, 0 ≤ i < depth → now ≤ clock i ≤ now + w) →
  ∃ b', reorg (order := order) (sorder := sorder) blob_validate txenv_default op_new
      calculate_receipt_root c now clock b depth tx_pairs common = Ret (b', Ok tt) ∧
    reorged b (hd_number common) now (h_timestamp (blk_header common)) w
      (time_step (bk_time b)) depth b'.
Proof.
  intros Hi Hpf Hs Hc [R1 R2 R3 R4] Hclock. unfold reorg.
  destruct (rollback_spec (BlobError := BlobError) (order := order) (sorder := sorder) now b common s
    Hi Hs Hc) as (b1 & -> & Hb).
  pose proof (sb_time _ _ Hs) as Ht. unfold is_u in Ht.
  assert (1 ≤ time_step (bk_time b)) as Hstep by (unfold time_step; lia).
  destruct (foldM_spec (mine_reorg (order := order) blob_validate txenv_default op_new
      calculate_receipt_root c clock tx_pairs)
    (λ done, reorged b (hd_number common) now (h_timestamp (blk_header common)) w
      (time_step (bk_time b)) (Z.of_nat (length done))) (seqZ 0 depth) b1) as (b' & -> & Hb').
  - split; simpl; [apply Hb|rewrite (proj1 (rb_best _ _ _ _ _ Hb)); lia| | |].
    + intros n Hn. rewrite (rb_hashes _ _ _ _ _ Hb), decide_False by lia. done.
    + intros n Hn. rewrite (proj1 (rb_best _ _ _ _ _ Hb)) in Hn. lia.
    + rewrite (rb_time _ _ _ _ _ Hb). split; simpl; try done. lia.
  - intros done x rest b2 El Hr.
    destruct (seqZ_middle _ _ _ _ El) as [-> Hlt].
    rewrite length_app, Nat2Z.inj_add.
    apply reorg_step; try lia; try done; [apply Hclock; lia|nia].
  - rewrite bind_Ret. exists b'. split; [done|].
    rewrite length_seqZ, Z2Nat.id in Hb' by done. done.
Qed.
End reorg_spec.

(** Clearing a database forgets the code of the accounts it has. *)
Lemma clear_gone {order : HashOrder Address} (d : CacheDB) (a : Address) (acc : DbAccount) :
  cd_accounts d !! a = Some acc →
  cd_contracts (cache_clear d) !! in_code_hash (da_info acc) = None.
Proof.
  intros Ha%(map_pairs_elem (H0 := order)). unfold cache_clear, clear_into_state_snapshot.
  assert (∀ l c A S h, (c !! h = None ∨ ∃ a acc, (a, acc) ∈ l ∧ in_code_hash (da_info acc) = h) →
    (foldl clear_account (c, A, S) l).1.1 !! h = None) as Hl.
  { intros l. induction l as [|[a' acc'] l IH]; intros c A S h; simpl.
    - intros [?|(? & ? & []%elem_of_nil & _)]. done.
    - intros Hh. apply IH. destruct (decide (in_code_hash (da_info acc') = h)) as [->|Hne].
      + left. apply lookup_delete_eq.
      + rewrite lookup_delete_ne by done. destruct Hh as [?|(a0 & acc0 & Hin & E)]; [by left|].
        rewrite elem_of_cons in Hin. destruct Hin as [[= -> ->]|Hin]; [done|]. right; eauto. }
  specialize (Hl (map_pairs (cd_accounts d)) (cd_contracts d) ∅ ∅ (in_code_hash (da_info acc))).
  destruct (foldl clear_account _ _) as [[c A] S]; simpl in *. apply Hl. eauto.
Qed.

(** ** Properties *)

Section reorg_claims.
Context {ext : TxExternals} {specs : SpecIds} {bext : BlockExternals} {rt : RevmTypes}
  {Disk : Type} {evm : RevmDb MemDb} {order sorder : HashOrder Z} {dc : FileSystem Disk StateSnapshot}
  {kext : BackendExternals} {cops : CacheOps} {BlobError : Type}
  (blob_validate : TxEip4844Variant → result unit BlobError).
Context (txenv_default : TxEnv) (op_new : TxEnv → OpTransaction)
  (calculate_receipt_root : list TypedReceipt → B256) (c : BackendConfig) (now : Z).
Context {hh : HeaderHash} {laws : RevmLaws (evm := evm)}.
Implicit Types b : Backend MemDb CacheDB Disk.
Abbreviation archived b hash := (content (db := mem_state_db (order := order)) (bk_states b) hash).

(** a rollback to a stored block needs the state archived for it and
    changes nothing without it; with it, the node is at that block: the newer
    blocks and numbers are gone and the older ones stay, every account of the
    archived state is in the database with its storage, balance, nonce and
    code and no other account is, and the clock restarts at the block's
    timestamp. *)
Theorem rollback_correct b (common : Block) :
  node_core b → stored_block b common →
  let '(b', r) := rollback (BlobError := BlobError) (order := order) (sorder := sorder) now b common in
  match archived b (header_hash_slow (blk_header common)) with
  | None => r = Err BcDataUnavailable ∧ bk_chain b' = bk_chain b ∧ bk_db b' = bk_db b ∧
      bk_env b' = bk_env b ∧ (∀ h, archived b' h ≡ archived b h)
  | Some s => r = Ok tt ∧ rolled_back (order := order) now b common s b'
  end.
Proof.
  intros Hi Hs. destruct (archived b _) as [s|] eqn:Hc.
  - destruct (rollback_spec (BlobError := BlobError) (order := order) (sorder := sorder) now b common s
      Hi Hs Hc) as (b' & -> & Hb). done.
  - destruct (rollback_unavailable (BlobError := BlobError) (order := order) (sorder := sorder) now b
      common Hc) as (st & -> & Hb). done.
Qed.

(** C23: on a node without a precompile factory, a reorganisation of depth [depth]
    ends when the state of the common block is archived, [depth] more block
    numbers fit into a [u64], the wall clock moves forward at most [w] seconds
    meanwhile, and the latest timestamp this allows is one chrono has a date for:
    the chain below the common block is unchanged,
    and [depth] new blocks are stored on top of it, each with the one below as
    parent; the timestamps stay within the interval after the common block's. *)
Theorem reorg_correct (clock : Z → Z) (tx_pairs : gmap Z (list PoolTransaction)) b (common : Block)
    (depth w : Z) (s : CacheDB) :
  node_core b → bc_precompile_factory c = false → stored_block b common →
  archived b (header_hash_slow (blk_header common)) = Some s →
  room_for depth w b common → (∀ i, 0 ≤ i < depth → now ≤ clock i ≤ now + w) →
  ∃ b', reorg (order := order) (sorder := sorder) blob_validate txenv_default op_new
      calculate_receipt_root c now clock b depth tx_pairs common = Ret (b', Ok tt) ∧
    node_core b' ∧ best_number (bk_chain b') = hd_number common + depth ∧
    (∀ n, n ≤ hd_number common → hashes (bk_chain b') !! n = hashes (bk_chain b) !! n) ∧
    linked_above (hd_number common) b' ∧
    h_timestamp (blk_header common) ≤ tm_last_timestamp (bk_time b') ≤
      h_timestamp (blk_header common) + w + depth * time_step (bk_time b).
Proof.
  intros Hi Hpf Hs Hc Hr Hclock.
  destruct (reorg_spec (order := order) (sorder := sorder) blob_validate txenv_default op_new
    calculate_receipt_root c clock tx_pairs b common depth now w s Hi Hpf Hs Hc Hr Hclock)
    as (b' & -> & []). exists b'. split_and!; try done; apply rg_clock0.
Qed.

(** A rollback to a state that was written to disk loses the code of the
    contracts: the accounts read back carry only the hash of their code, the
    code itself was removed from the database, and nothing puts it back. *)
Theorem rollback_loses_code b (common : Block) (s : CacheDB) a acc a0 acc0 :
  node_core b → stored_block b common →
  archived b (header_hash_slow (blk_header common)) = Some s →
  (∀ a acc, cd_accounts s !! a = Some acc → in_code (da_info acc) = None) →
  cd_accounts s !! a = Some acc → in_code_hash (da_info acc) ≠ 0 →
  cd_accounts (md_inner (bk_db b)) !! a0 = Some acc0 →
  in_code_hash (da_info acc0) = in_code_hash (da_info acc) →
  ∃ b' acc',
    rollback (BlobError := BlobError) (order := order) (sorder := sorder) now b common = (b', Ok tt) ∧
    cd_accounts (md_inner (bk_db b')) !! a = Some acc' ∧
    in_code_hash (da_info acc') = in_code_hash (da_info acc) ∧ in_code (da_info acc') = None ∧
    cd_contracts (md_inner (bk_db b')) !! in_code_hash (da_info acc') = None.
Proof.
  intros Hi Hs Hc Hcode Ha Hh Ha0 Ehash.
  destruct (rollback_spec (BlobError := BlobError) (order := order) (sorder := sorder) now b common s
    Hi Hs Hc) as (b' & E & Hb).
  pose proof (rb_accounts _ _ _ _ _ Hb a) as Hacc. rewrite Ha in Hacc.
  destruct Hacc as (acc' & E' & [_ _ _ R4 R5]). exists b', acc'.
  pose proof (Hcode _ _ Ha) as Hn. rewrite R5, R4, Hn by done. split_and!; try done.
  rewrite (rb_contracts _ _ _ _ _ Hb Hcode), <- Ehash.
  by apply (clear_gone (order := order) _ a0).
Qed.
End reorg_claims.

(** A node on [MemDb] whose genesis state has a contract, with one state kept
    in memory. *)
Definition ex_insert_info (d : CacheDB) (a : Address) (i : DbInfo) : CacheDB :=
  {| cd_accounts := <[a := {| da_info := i; da_state := Touched; da_storage := storage_at d a |}]>
       (cd_accounts d);
     cd_contracts :=
       match in_code i with
       | Some code => <[in_code_hash i := code]> (cd_contracts d)
       | None => cd_contracts d
       end;
     cd_block_hashes := cd_block_hashes d |}.

Definition ex_insert_slot (d : CacheDB) (a : Address) (k v : Z) : CacheDB :=
  {| cd_accounts :=
       <[a := {| da_info := default {| in_balance := 0; in_nonce := 0; in_code_hash := 0; in_code := None |}
                              (da_info <$> cd_accounts d !! a);
                 da_state := Touched; da_storage := <[k := v]> (storage_at d a) |}]> (cd_accounts d);
     cd_contracts := cd_contracts d; cd_block_hashes := cd_block_hashes d |}.

#[export] Program Instance ex_cache_ops : CacheOps (rt := ex_revm_types) :=
  {| insert_account_info := ex_insert_info;
     insert_account_storage := λ d a k v, Ok (ex_insert_slot d a k v) |}.
Next Obligation. intros. simpl. by rewrite lookup_insert_ne. Qed.
Next Obligation. intros. simpl. rewrite lookup_insert_eq. eexists. by split_and!. Qed.
Next Obligation. intros d a i E. simpl. by rewrite E. Qed.
Next Obligation. intros. eauto. Qed.
Next Obligation. intros. simplify_eq/=. by rewrite lookup_insert_ne. Qed.
Next Obligation.
  intros. simplify_eq/=. split; [|done]. unfold storage_at at 1. simpl. by rewrite lookup_insert_eq.
Qed.

Definition ex_mem_revm : RevmDb (rt := ex_revm_types) MemDb :=
  Build_RevmDb MemDb ex_revm_types
    (λ db _, (db, Ok (Some {| acc_nonce := 3; acc_balance := 1000000 |})))
    (λ db setup tx, (db,
       match ex_header_check (es_env setup) with
       | Some err => Err (EvmHeader err)
       | None => Ok (ExSuccess (rt := ex_revm_types) tt
           (Z.min 21000 (env_gas_limit (op_base tx))) [] (OutCall []), tt)
       end))
    (λ _, None).

Lemma ex_mem_laws : RevmLaws (specs := ex_specs) (rt := ex_revm_types) (evm := ex_mem_revm).
Proof.
  constructor; simpl.
  - intros db setup tx db' res traces. case_match; intros [= _ <-]. simpl. lia.
  - intros db setup tx db' err. case_match eqn:E; intros [= _ <-]. by apply ex_header_check_lacks.
  - intros db setup tx db'. by case_match.
Qed.

Abbreviation ExNode := (Backend (rt := ex_revm_types) MemDb CacheDB (gmap Z StateSnapshot)).

Definition ex_mem_node : ExNode :=
  @Build_Backend ex_revm_types MemDb CacheDB (gmap Z StateSnapshot) ex_genesis_env
    (fee_manager_new 17 7 true 10 {| excess_blob_gas := 0; blob_gasprice := 1 |})
    (time_new 100 100) cheats_default
    (storage_new (block_hash_slow (bext := ex_block_externals)) (ex_block 0))
    (states_new ∅ 1 3600) (ex_mem 3) false.

Definition ex_mine (b : ExNode) : outcome (ExNode * MinedBlockOutcome) :=
  do_mine_block (ext := ex_externals) (specs := ex_specs) (bext := ex_block_externals)
    (rt := ex_revm_types) (evm := ex_mem_revm) (kext := ex_backend_externals)
    (sdb := mem_state_db (order := elements_order Z))
    (λ _, Ok tt : result unit unit) ex_txenv ex_op_new (λ l, Z.of_nat (length l))
    ex_backend_config 105 b [].

Definition ex_next (b : ExNode) : ExNode :=
  match ex_mine b with Ret (b', _) => b' | _ => b end.

Definition ex_mem_node2 : ExNode := ex_next (ex_next ex_mem_node).

Lemma ex_mem_core :
  node_core (specs := ex_specs) (bext := ex_block_externals) (rt := ex_revm_types)
    (kext := ex_backend_externals) ex_mem_node.
Proof.
  split; simpl; try done.
  - split; simpl.
    + by apply lookup_singleton_Some.
    + by intros n h [<- _]%lookup_singleton_Some.
    + intros h b [<- <-]%lookup_singleton_Some. by apply lookup_singleton_Some.
  - intros n h [<- <-]%lookup_singleton_Some. by exists (ex_header 0).
  - intros h hd. rewrite map_fmap_singleton. by intros [<- <-]%lookup_singleton_Some.
  - by intros []; simpl; intros [_ ?].
Qed.

Lemma ex_next_core (b : ExNode) :
  in_range (kext := ex_backend_externals) ex_backend_config 105 b →
  node_core (specs := ex_specs) (bext := ex_block_externals) (kext := ex_backend_externals) b →
  node_core (specs := ex_specs) (bext := ex_block_externals) (kext := ex_backend_externals) (ex_next b).
Proof.
  intros [Hr Hsafe] Hi.
  pose proof (mine_core_live (ext := ex_externals) (bext := ex_block_externals) (evm := ex_mem_revm)
    (order := elements_order Z) (hh := ex_header_hash) (laws := ex_mem_laws)
    (λ _, Ok tt : result unit unit) ex_txenv ex_op_new (λ l, Z.of_nat (length l))
    ex_backend_config 105 b [] Hi Hr) as Hmine.
  destruct (ensures_total _ _ _ Hmine Hsafe) as ([b' o] & E & Hm & _).
  unfold ex_next, ex_mine. rewrite E. apply (bm_inv _ _ _ _ _ _ Hm).
Qed.

Lemma ex_mem_core2 :
  node_core (specs := ex_specs) (bext := ex_block_externals) (kext := ex_backend_externals)
    ex_mem_node2.
Proof.
  apply ex_next_core; [repeat split; by vm_compute|].
  apply ex_next_core; [repeat split; by vm_compute|]. apply ex_mem_core.
Qed.

Lemma ex_stored :
  stored_block (bext := ex_block_externals) ex_mem_node2 (ex_block 0).
Proof. by split; vm_compute. Qed.

Definition ex_rollback : ExNode * result unit (BlockchainError (rt := ex_revm_types) unit) :=
  rollback (ext := ex_externals) (bext := ex_block_externals) (BlobError := unit)
    (order := elements_order Z) (sorder := elements_order Z) 200 ex_mem_node2 (ex_block 0).

Lemma rollback_correct_witness :
  ex_rollback.2 = Ok tt ∧ best_number (bk_chain ex_mem_node2) = 2 ∧
  best_number (bk_chain ex_rollback.1) = 0.
Proof.
  pose proof (rollback_correct (ext := ex_externals) (BlobError := unit) (cops := ex_cache_ops)
    (order := elements_order Z) (sorder := elements_order Z) 200 (hh := ex_header_hash)
    ex_mem_node2 (ex_block 0) ex_mem_core2 ex_stored) as H.
  fold ex_rollback in H. destruct ex_rollback as [b' r].
  destruct (content _ _) as [s|] eqn:E.
  - destruct H as [-> Hb]. split_and!; [done|vm_compute; reflexivity|]. apply Hb.
  - vm_compute in E. discriminate.
Defined.

(** The genesis state, read back from disk. *)
Definition ex_archived : CacheDB :=
  default (ex_cache 0)
    (content (db := mem_state_db (order := elements_order Z)) (bk_states ex_mem_node2) 1000).

Lemma ex_archived_eq :
  content (db := mem_state_db (order := elements_order Z)) (bk_states ex_mem_node2) 1000 =
    Some ex_archived.
Proof. vm_compute. reflexivity. Qed.

Lemma reorg_correct_witness :
  ∃ b', reorg (ext := ex_externals) (specs := ex_specs) (bext := ex_block_externals)
      (evm := ex_mem_revm) (kext := ex_backend_externals) (order := elements_order Z)
      (sorder := elements_order Z) (λ _, Ok tt : result unit unit) ex_txenv ex_op_new
      (λ l, Z.of_nat (length l)) ex_backend_config 200 (λ _, 201) ex_mem_node2 2
      {[1 := [pool_tx_new (ex_legacy 31337)]]} (ex_block 0) = Ret (b', Ok tt) ∧
    best_number (bk_chain b') = 2.
Proof.
  destruct (reorg_correct (ext := ex_externals) (specs := ex_specs) (bext := ex_block_externals)
    (evm := ex_mem_revm) (kext := ex_backend_externals) (order := elements_order Z)
    (sorder := elements_order Z) (hh := ex_header_hash) (laws := ex_mem_laws)
    (λ _, Ok tt : result unit unit) ex_txenv ex_op_new (λ l, Z.of_nat (length l))
    ex_backend_config 200 (λ _, 201) {[1 := [pool_tx_new (ex_legacy 31337)]]} ex_mem_node2
    (ex_block 0) 2 1 ex_archived ex_mem_core2 eq_refl ex_stored ex_archived_eq) as (b' & E & _ & Hb & _).
  - split; [lia|lia|vm_compute; discriminate|vm_compute; discriminate].
  - intros i _. lia.
  - exists b'. split; [exact E|]. rewrite Hb. reflexivity.
Defined.

Definition ex_contract (d : CacheDB) : DbAccount :=
  default {| da_info := {| in_balance := 0; in_nonce := 0; in_code_hash := 0; in_code := None |};
             da_state := AccNone; da_storage := ∅ |} (cd_accounts d !! 7).

Lemma rollback_loses_code_witness :
  cd_contracts (md_inner (bk_db ex_mem_node2)) !! 9 = Some [1] ∧
  cd_contracts (md_inner (bk_db ex_rollback.1)) !! 9 = None.
Proof.
  split; [vm_compute; reflexivity|].
  destruct (rollback_loses_code (ext := ex_externals) (bext := ex_block_externals)
    (BlobError := unit) (kext := ex_backend_externals) (cops := ex_cache_ops)
    (order := elements_order Z) (sorder := elements_order Z) 200 (hh := ex_header_hash)
    ex_mem_node2 (ex_block 0) ex_archived 7
    (ex_contract ex_archived) 7 (ex_contract (ex_cache 3)) ex_mem_core2 ex_stored ex_archived_eq)
    as (b' & acc' & E & _ & Eh & _ & Ec);
    [|vm_compute; reflexivity|vm_compute; discriminate|vm_compute; reflexivity|reflexivity|].
  - assert (cd_accounts ex_archived = {[7 := ex_contract ex_archived]}) as ->
      by (vm_compute; reflexivity).
    intros a acc [_ <-]%lookup_singleton_Some. vm_compute. reflexivity.
  - unfold ex_rollback. rewrite E. cbn [fst]. rewrite Eh in Ec. exact Ec.
Defined.
