(* ===== verification/Snapshot.v ===== *)
(** * Snapshots of the node (crates/anvil/src/eth/backend/mem/mod.rs)

    [evm_snapshot] numbers the current state and remembers the best block in
    [active_state_snapshots]; [evm_revert] takes the chain back to that block
    and the database to that state.  The specification is about any sequence of
    mined blocks, database writes, snapshots and reverts in between. *)

From stdpp Require Import prelude gmap list.
From S2P Require Import Prelude Containers Transaction PendingPool ReadyPool Pool Fees Env TimeManager Cheats Validate BlockStates Block Chain Executor Mine Api Estimate Query MemDb Reorg.

Open Scope Z_scope.

Section snapshots.
Context {ext : TxExternals} {bext : BlockExternals} {rt : RevmTypes} {Disk : Type}
  {BlobError : Type}.
Context (default_blob : option BlobExcessGasAndPrice) (slots now : Z).
Abbreviation Node := (Backend MemDb CacheDB Disk).
Abbreviation BcError := (BlockchainError BlobError).
Implicit Types b : Node.

(** A node with its [active_state_snapshots]. *)

Definition create_state_snapshot (s : Node * gmap Z (Z * B256)) : Node * gmap Z (Z * B256) * Z :=
  let '(b, active) := s in
  let num := best_number (bk_chain b) in
  let hash := best_hash (bk_chain b) in
  let '(m, id) := snapshot_state (bk_db b) in
  (with_db b m, <[id := (num, hash)]> active, id).

(** One turn of the loop that removes the newer blocks. *)
Definition revert_one {Mined} (s : BlockchainStorage Mined) (n : Z) : BlockchainStorage Mined :=
  match hashes s !! n with
  | None => s
  | Some hash =>
      let s := with_blocks s (blocks s) (delete n (hashes s)) (transactions s) in
      match blocks s !! hash with
      | None => s
      | Some block =>
          with_blocks s (delete hash (blocks s)) (hashes s)
            (foldl (λ (t : gmap B256 Mined) tx, delete (mit_hash tx) t) (transactions s)
               (blk_transactions block))
      end
  end.

(** [for n in ((num + 1)..=current_height).rev()]. *)
Definition revert_chain {Mined} (s : BlockchainStorage Mined) (num : Z) (hash : B256)
    : BlockchainStorage Mined :=
  let s := foldl revert_one s (rev (seqZ (num + 1) (best_number s - num))) in
  {| blocks := blocks s; hashes := hashes s; best_hash := hash; best_number := num;
     genesis_hash := genesis_hash s; transactions := transactions s;
     total_difficulty := total_difficulty s |}.

Definition revert_env (e : EvmEnv) (num : Z) (h : Header) : EvmEnv :=
  {| env_cfg := env_cfg e;
     env_blk :=
       {| blk_number := num; blk_beneficiary := blk_beneficiary (env_blk e);
          blk_timestamp := h_timestamp h; blk_gas_limit := h_gas_limit h;
          blk_basefee := blk_basefee (env_blk e); blk_difficulty := h_difficulty h;
          blk_prevrandao := Some (h_mix_hash h);
          blk_blob_excess_gas_and_price := default_blob |} |}.

Definition with_chain b (chain : BlockchainStorage MinedTransaction) : Node :=
  {| bk_env := bk_env b; bk_fees := bk_fees b; bk_time := bk_time b; bk_cheats := bk_cheats b;
     bk_chain := chain; bk_states := bk_states b; bk_db := bk_db b;
     bk_disable_pool_balance_checks := bk_disable_pool_balance_checks b |}.

Definition with_env_time b (e : EvmEnv) (t : TimeManager) : Node :=
  {| bk_env := e; bk_fees := bk_fees b; bk_time := t; bk_cheats := bk_cheats b;
     bk_chain := bk_chain b; bk_states := bk_states b; bk_db := bk_db b;
     bk_disable_pool_balance_checks := bk_disable_pool_balance_checks b |}.

Definition revert_state_snapshot (s : Node * gmap Z (Z * B256)) (id : Z)
    : Node * gmap Z (Z * B256) * result bool BcError :=
  let '(b, active) := s in
  let block := active !! id in
  let active := delete id active in
  let revert_db b :=
    let '(m, reverted) := revert_state (bk_db b) id RevertRemove in
    (with_db b m, active, Ok reverted) in
  match block with
  | None => revert_db b
  | Some (num, hash) =>
      let b := with_chain b (revert_chain (bk_chain b) num hash) in
      match get_block slots b (BlockIdHash hash) with
      | None => (b, active, Err BcBlockNotFound)
      | Some block =>
          let header := blk_header block in
          revert_db (with_env_time b (revert_env (bk_env b) num header)
                       (time_reset now (bk_time b) (h_timestamp header)))
      end
  end.
End snapshots.

(** ** Specification *)

(** *** The chain *)

Section revert_chain_spec.
Context {ext : TxExternals} {Mined : Type}.
Implicit Types s : BlockchainStorage Mined.

Lemma revert_one_spec s i :
  filed s → numbered s →
  (∀ n, hashes (revert_one s i) !! n = if decide (n = i) then None else hashes s !! n) ∧
  (∀ h b, blocks (revert_one s i) !! h = Some b ↔ blocks s !! h = Some b ∧ hd_number b ≠ i).
Proof.
  intros Hf Hn. unfold revert_one. destruct (hashes s !! i) as [hash|] eqn:Ei.
  - assert (∀ n, delete i (hashes s) !! n = if decide (n = i) then None else hashes s !! n) as Hh.
    { intros n. case_decide as Hd; [subst; apply lookup_delete_eq|by rewrite lookup_delete_ne]. }
    cbn [blocks with_blocks]. destruct (blocks s !! hash) as [block|] eqn:Eb;
      (split; [exact Hh|]); cbn [blocks with_blocks].
    + intros h b. rewrite lookup_delete_Some. split; intros [H1 H2].
      * split; [done|]. intros <-. apply Hf in H2 as Hx. naive_solver.
      * split; [|done]. intros <-. by apply H2, (Hn i hash).
    + intros h b. split; [|naive_solver]. intros Hb. split; [done|]. intros <-.
      apply Hf in Hb as Hx. naive_solver.
  - split.
    + intros n. case_decide; [by subst|done].
    + intros h b. split; [|naive_solver]. intros Hb. split; [done|]. intros <-.
      apply Hf in Hb as Hx. naive_solver.
Qed.

Lemma revert_all s l :
  filed s → numbered s →
  (∀ n, hashes (foldl revert_one s l) !! n = if decide (n ∈ l) then None else hashes s !! n) ∧
  (∀ h b, blocks (foldl revert_one s l) !! h = Some b ↔ blocks s !! h = Some b ∧ hd_number b ∉ l).
Proof.
  revert s. induction l as [|i l IH]; intros s Hf Hn; cbn [foldl].
  { split; [intros n; by rewrite decide_False by apply not_elem_of_nil|].
    intros h b. pose proof (not_elem_of_nil (hd_number b)). naive_solver. }
  destruct (revert_one_spec s i Hf Hn) as [H1 H2].
  destruct (IH (revert_one s i)) as [I1 I2].
  - intros h b [Hb Hne]%H2. rewrite H1, decide_False by done. by apply Hf.
  - intros n h b. rewrite H1. case_decide; [done|]. intros Hh [Hb _]%H2. by eapply Hn.
  - split.
    + intros n. rewrite I1, H1. repeat case_decide; rewrite ?elem_of_cons in *; naive_solver.
    + intros h b. rewrite I2, H2, not_elem_of_cons. naive_solver.
Qed.

Lemma revert_chain_spec s num hash :
  chain_inv s → numbered s → hashes s !! num = Some hash →
  let s' := revert_chain s num hash in
  chain_inv s' ∧ best_number s' = num ∧ best_hash s' = hash ∧
  (∀ n, hashes s' !! n = if decide (num < n) then None else hashes s !! n) ∧
  (∀ h b, blocks s' !! h = Some b ↔ blocks s !! h = Some b ∧ hd_number b ≤ num).
Proof.
  intros [Hb Ht Hf] Hn Hnum. unfold revert_chain; cbn zeta; simpl.
  destruct (revert_all s (rev (seqZ (num + 1) (best_number s - num))) Hf Hn) as [H1 H2].
  assert (∀ n, n ∈ rev (seqZ (num + 1) (best_number s - num)) ↔ num < n ≤ best_number s) as Hin.
  { intros n. rewrite list_elem_of_In, <- in_rev, <- list_elem_of_In, elem_of_seqZ. lia. }
  assert (∀ n, hashes (foldl revert_one s (rev (seqZ (num + 1) (best_number s - num)))) !! n =
    if decide (num < n) then None else hashes s !! n) as H1'.
  { intros n. rewrite H1. repeat case_decide; rewrite ?Hin in *; try done; try lia.
    apply eq_None_not_Some. intros [h Hx]. specialize (Ht _ _ Hx). lia. }
  assert (∀ h b, blocks (foldl revert_one s (rev (seqZ (num + 1) (best_number s - num)))) !! h =
    Some b ↔ blocks s !! h = Some b ∧ hd_number b ≤ num) as H2'.
  { intros h b. rewrite H2, Hin. split; intros [Hsb Hx]; (split; [done|]); [|lia].
    specialize (Ht _ _ (Hf _ _ Hsb)). lia. }
  split_and!; try done. split; simpl.
  - by rewrite H1', decide_False by lia.
  - intros n h. rewrite H1'. case_decide; [done|]. intros Hx. specialize (Ht _ _ Hx). lia.
  - intros h b [Hsb Hx]%H2'. rewrite H1', decide_False by lia. by apply Hf.
Qed.
End revert_chain_spec.

(** *** The node *)

Definition headers {rt : RevmTypes} {Disk} (b : Backend MemDb CacheDB Disk) : gmap B256 Header :=
  blk_header <$> blocks (bk_chain b).
Definition snaps {rt : RevmTypes} {Disk} (b : Backend MemDb CacheDB Disk) : gmap Z CacheDB :=
  state_snapshots (md_snapshots (bk_db b)).

(** Running transactions does not touch the snapshots of the database. *)
Class SnapshotsKept {rt : RevmTypes} {evm : RevmDb MemDb} : Prop := {
  basic_keeps : ∀ (m : MemDb) a, md_snapshots (db_basic m a).1 = md_snapshots m;
  commit_keeps : ∀ (m : MemDb) setup tx,
    md_snapshots (transact_commit m setup tx).1 = md_snapshots m
}.

Section node_snapshots.
Context {ext : TxExternals} {specs : SpecIds} {bext : BlockExternals} {rt : RevmTypes}
  {Disk : Type} {evm : RevmDb MemDb} {order : HashOrder Z} {dc : FileSystem Disk StateSnapshot}
  {kext : BackendExternals} {BlobError : Type}
  (blob_validate : TxEip4844Variant → result unit BlobError).
Context (txenv_default : TxEnv) (op_new : TxEnv → OpTransaction)
  (calculate_receipt_root : list TypedReceipt → B256) (c : BackendConfig)
  (default_blob : option BlobExcessGasAndPrice) (slots : Z).
Context {hh : HeaderHash} {laws : RevmLaws (evm := evm)} {kept : SnapshotsKept (evm := evm)}.
(** revm's default block environment has an excess of blob gas. *)
Context (Hblob : is_Some default_blob).
Abbreviation Node := (Backend MemDb CacheDB Disk).
Abbreviation SnapNode := (Node * gmap Z (Z * B256))%type.
Abbreviation mine := (do_mine_block (sdb := mem_state_db (order := order)) blob_validate
  txenv_default op_new calculate_receipt_root c).
Implicit Types (b : Node) (s : SnapNode).

(** Every numbered block is stored, with fields of their width. *)
Record chain_full b : Prop := {
  cf_stored : ∀ n h, hashes (bk_chain b) !! n = Some h → is_Some (headers b !! h);
  cf_width : ∀ h hd, headers b !! h = Some hd → is_u 64 (h_timestamp hd) ∧ 0 ≤ h_gas_limit hd
}.

(** Mining with what a snapshot sees of it. *)
Record mined_over b b' : Prop := {
  mo_core : node_core b';
  mo_full : chain_full b';
  mo_best : best_number (bk_chain b) ≤ best_number (bk_chain b');
  mo_hashes : ∀ n, n ≤ best_number (bk_chain b) →
    hashes (bk_chain b') !! n = hashes (bk_chain b) !! n;
  mo_headers : headers b ⊆ headers b';
  mo_blocks : bc_transaction_block_keeper c = None → blocks (bk_chain b) ⊆ blocks (bk_chain b');
  mo_snaps : md_snapshots (bk_db b') = md_snapshots (bk_db b)
}.

Lemma mine_over now b txs b' o :
  node_core b → chain_full b → in_bounds b → mine now b txs = Ret (b', o) → mined_over b b'.
Proof.
  intros Hi [Hst Hw] Hr E.
  assert (md_snapshots (bk_db b') = md_snapshots (bk_db b)) as Hsn.
  { unfold do_mine_block in E. apply bind_Ret_inv in E as (st & _ & E).
    destruct (next_timestamp now (bk_time b)) as [tm t].
    apply bind_Ret_inv in E as ([db r] & Ex & E).
    apply bind_Ret_inv in E as (u & _ & E). simplify_eq/=.
    eapply (execute_keeps _ _ _ (λ m, md_snapshots m = md_snapshots (bk_db b)));
      [..|exact Ex]; simpl; [|intros m setup tx <-; apply commit_keeps|done].
    intros m a <-. apply basic_keeps. }
  destruct (ensures_Ret _ _ _ _ (mine_core_live (order := order) blob_validate txenv_default op_new
    calculate_receipt_root c now b txs Hi Hr) E) as (Hm & Hh & _).
  destruct (bm_block _ _ _ _ _ _ Hm)
    as (r & Hx & _ & _ & Ebh & (blk & Eb & Ehd) & _ & Enum & Ets & _ & _ & Hbl).
  destruct (be_header _ _ _ Hx) as (_ & _ & _ & Egl).
  pose proof (bm_inv _ _ _ _ _ _ Hm) as Hi'. destruct (bm_number _ _ _ _ _ _ Hm) as [_ En].
  split; try done;
    [|lia|by apply (bm_history _ _ _ _ _ _ Hm)|apply (bm_headers _ _ _ _ _ _ Hm)|]; swap 1 2.
  { intros Hk. rewrite (Hbl Hk). apply insert_subseteq, eq_None_not_Some. intros [b0 Hb0].
    rewrite Ebh in Hb0. by apply (fresh_hash b (blk_header (et_block r)) (hd_number b0) Hi Enum),
      (ch_block _ (nc_chain _ Hi)). }
  pose proof (bm_headers _ _ _ _ _ _ Hm) as Hsub. split.
  - intros n h. rewrite Hh, lookup_insert_Some. intros [[_ <-]|[_ Hn]].
    + unfold headers. rewrite lookup_fmap, Eb. eauto.
    + destruct (Hst _ _ Hn) as [hd Hhd]. exists hd. by eapply lookup_weaken.
  - intros h hd Hhd. unfold headers in Hhd. apply lookup_fmap_Some in Hhd as (bk & <- & Hbk).
    pose proof (ch_block _ (nc_chain _ Hi') _ _ Hbk) as Hn. rewrite Hh, lookup_insert_Some in Hn.
    destruct Hn as [[_ <-]|[_ Hn]].
    + assert (bk = blk) as -> by congruence. rewrite Ehd, Ets, Egl.
      split; [apply (tw_last _ (nc_time _ Hi'))|]. apply (nc_gas_limit _ Hi).
    + destruct (Hst _ _ Hn) as [hd Hhd]. assert (hd = blk_header bk) as <-.
      { pose proof (lookup_weaken _ _ _ _ Hhd Hsub) as Hx'. rewrite lookup_fmap, Hbk in Hx'.
        by injection Hx' as <-. }
      by apply (Hw h).
Qed.

(** The remembered block of every snapshot that still exists is on the chain,
    and later snapshots are of later blocks. *)
Record snaps_inv s : Prop := {
  si_core : node_core s.1;
  si_full : chain_full s.1;
  si_wf : snapshots_wf (md_snapshots (bk_db s.1));
  si_room : sn_id (md_snapshots (bk_db s.1)) < umax 256;
  si_active : ∀ i, is_Some (snaps s.1 !! i) →
    ∃ num hash, s.2 !! i = Some (num, hash) ∧ hashes (bk_chain s.1) !! num = Some hash;
  si_sorted : ∀ i j ni hi nj hj, i ≤ j → is_Some (snaps s.1 !! i) → is_Some (snaps s.1 !! j) →
    s.2 !! i = Some (ni, hi) → s.2 !! j = Some (nj, hj) → ni ≤ nj
}.

(** The node [b'] is [b] taken back to the block [num]. *)
Record taken_back (num : Z) (hash : B256) b b' : Prop := {
  tb_core : node_core b';
  tb_full : chain_full b';
  tb_best : best_number (bk_chain b') = num ∧ best_hash (bk_chain b') = hash;
  tb_hashes : ∀ n, hashes (bk_chain b') !! n =
    if decide (num < n) then None else hashes (bk_chain b) !! n;
  tb_headers : ∀ h hd, headers b' !! h = Some hd ↔ headers b !! h = Some hd ∧ h_number hd ≤ num;
  tb_blocks : ∀ h blk, blocks (bk_chain b') !! h = Some blk ↔
    blocks (bk_chain b) !! h = Some blk ∧ hd_number blk ≤ num
}.

Lemma revert_node_back b now num hash m :
  node_core b → chain_full b → hashes (bk_chain b) !! num = Some hash →
  ∃ block, get_block slots (with_chain b (revert_chain (bk_chain b) num hash)) (BlockIdHash hash) =
      Some block ∧
    taken_back num hash b
      (with_db (with_env_time (with_chain b (revert_chain (bk_chain b) num hash))
                  (revert_env default_blob (bk_env b) num (blk_header block))
                  (time_reset now (bk_time b) (h_timestamp (blk_header block)))) m).
Proof.
  intros Hi [Hst Hw] Hn.
  destruct (revert_chain_spec (bk_chain b) num hash (nc_chain _ Hi) (core_numbered b Hi) Hn)
    as (C1 & C2 & C3 & C4 & C5).
  destruct (Hst _ _ Hn) as [hd Hhd]. destruct (Hw _ _ Hhd) as [W1 W2].
  unfold headers in Hhd. rewrite lookup_fmap_Some in Hhd. destruct Hhd as (block & <- & Hb).
  assert (hd_number block = num) as En by (by eapply (core_numbered b Hi)).
  assert (blocks (revert_chain (bk_chain b) num hash) !! hash = Some block) as Hb'
    by (apply C5; split; [done|lia]).
  assert (∀ h hd, (blk_header <$> blocks (revert_chain (bk_chain b) num hash)) !! h = Some hd ↔
    headers b !! h = Some hd ∧ h_number hd ≤ num) as Hhds.
  { intros h hd. unfold headers. rewrite !lookup_fmap_Some. unfold hd_number in C5.
    split; [intros (bk & <- & [? ?]%C5); eauto|].
    intros [(bk & <- & Hbk) Hle]. exists bk. split; [done|]. apply C5. eauto. }
  exists block. split; [done|]. split; try done; simpl.
  - split; simpl; try done.
    + intros n h. rewrite C4. case_decide; [done|]. apply (nc_hash _ Hi).
    + intros h hd. setoid_rewrite Hhds. intros [Hh _]. by apply (nc_filed _ Hi).
    + destruct (nc_time _ Hi). by split.
    + apply (nc_live _ Hi).
    + apply (nc_spec _ Hi).
    + destruct Hblob as [blob E]. by intros []; simpl; rewrite ?E; intros [_ ?].
    + apply (nc_chain_id _ Hi).
    + apply (nc_blob_limit _ Hi).
  - split; unfold headers; simpl.
    + intros n h. rewrite C4. case_decide; [done|]. intros Hnh.
      destruct (Hst _ _ Hnh) as [hd Hhd]. exists hd. apply Hhds. split; [done|].
      pose proof (nc_filed _ Hi _ _ Hhd) as ->.
      destruct (nc_hash _ Hi _ _ Hnh) as (hd' & E & ->). apply hash_number in E. lia.
    + intros h hd [Hh _]%Hhds. by apply (Hw h).
Qed.

(** Reverting to a snapshot that still exists. *)
Record reverted (id : Z) (d : CacheDB) s s' : Prop := {
  rv_inv : snaps_inv s';
  rv_block : ∃ num hash, s.2 !! id = Some (num, hash) ∧ taken_back num hash s.1 s'.1;
  rv_db : md_inner (bk_db s'.1) = d;
  rv_snaps : ∀ i, snaps s'.1 !! i = if decide (id ≤ i) then None else snaps s.1 !! i;
  rv_active : s'.2 = delete id s.2
}.

Lemma revert_live now s id d :
  snaps_inv s → snaps s.1 !! id = Some d →
  ∃ s', revert_state_snapshot (BlobError := BlobError) default_blob slots now s id = (s', Ok true) ∧
    reverted id d s s'.
Proof.
  destruct s as [b active]. intros [Hi Hf Hwf Hroom Hact Hsort] Hd; simpl in *.
  destruct (Hact id ltac:(eauto)) as (num & hash & Ea & Hn).
  pose proof (sw_keys _ Hwf Hroom id ltac:(eauto)) as Hid.
  set (m := {| md_inner := d; md_snapshots := (snapshots_remove (md_snapshots (bk_db b)) id).1 |}).
  destruct (revert_node_back b now num hash m Hi Hf Hn) as (block & Eb & Hb).
  unfold revert_state_snapshot. rewrite Ea, Eb.
  assert (revert_state (bk_db b) id RevertRemove = (m, true)) as Er.
  { unfold revert_state, m. destruct (snapshots_remove (md_snapshots (bk_db b)) id) as [st o] eqn:E.
    assert (o = snaps b !! id) as -> by (unfold snapshots_remove in E; by injection E).
    by rewrite Hd. }
  cbn [bk_db with_env_time with_chain bk_env bk_time]. rewrite Er. eexists. split; [reflexivity|].
  set (b' := with_db _ m) in *.
  assert (∀ i, snaps b' !! i = if decide (id ≤ i) then None else snaps b !! i) as Hsn.
  { intros i. change (snaps b') with (state_snapshots (snapshots_remove (md_snapshots (bk_db b)) id).1).
    rewrite snapshots_remove_lookup, wrap_succ by lia.
    repeat case_decide; try done; try lia. apply eq_None_not_Some. intros Hs.
    specialize (sw_keys _ Hwf Hroom i Hs). lia. }
  split; [|by eauto|done|exact Hsn|done].
  split; cbn [fst snd]; [apply Hb|apply Hb|by apply snapshots_remove_wf|done|..].
  - intros i. rewrite Hsn. case_decide; [by intros []|]. intros Hs.
    destruct (Hact i Hs) as (ni & hi & Ei & Hni). exists ni, hi.
    rewrite lookup_delete_ne by lia. split; [done|].
    assert (ni ≤ num) by (eapply (Hsort i id); eauto; lia).
    by rewrite (tb_hashes _ _ _ _ Hb), decide_False by lia.
  - intros i j ni hi nj hj Hij. rewrite !Hsn. repeat case_decide; try (by intros [] ?); try (by intros ? []).
    intros Hs Hs'. rewrite !lookup_delete_ne by lia. by apply (Hsort i j).
Qed.

(** Taking a snapshot. *)
Lemma create_inv s :
  snaps_inv s → sn_id (md_snapshots (bk_db s.1)) + 1 < umax 256 →
  let '(s', id) := create_state_snapshot s in
  snaps_inv s' ∧ id = sn_id (md_snapshots (bk_db s.1)) ∧
  snaps s'.1 = <[id := md_inner (bk_db s.1)]> (snaps s.1) ∧
  s'.2 = <[id := (best_number (bk_chain s.1), best_hash (bk_chain s.1))]> s.2 ∧
  bk_chain s'.1 = bk_chain s.1 ∧ snaps s.1 !! id = None.
Proof.
  destruct s as [b active]. intros [Hi Hf Hwf Hroom Hact Hsort] Hlt; simpl in *.
  assert (∀ i, is_Some (snaps b !! i) → i < sn_id (md_snapshots (bk_db b))) as Hkeys.
  { intros i Hs. specialize (sw_keys _ Hwf Hroom _ Hs). lia. }
  set (id := sn_id (md_snapshots (bk_db b))) in *.
  assert (snaps b !! id = None) as Hnone.
  { apply eq_None_not_Some. intros Hs. specialize (Hkeys _ Hs). lia. }
  split_and!; try done. split; cbn [fst snd]; simpl.
  - destruct Hi. by split.
  - destruct Hf. by split.
  - by apply (snapshots_insert_wf (md_snapshots (bk_db b))).
  - unfold saturating_add. fold id. lia.
  - intros i. unfold snaps; simpl. fold id. destruct (decide (i = id)) as [->|Hne].
    + intros _. rewrite lookup_insert_eq. eexists _, _. split; [done|]. apply (nc_chain _ Hi).
    + rewrite !lookup_insert_ne by done. apply Hact.
  - intros i j ni hi nj hj Hij. unfold snaps; simpl. fold id.
    rewrite !lookup_insert_is_Some', !lookup_insert_Some.
    intros Hs1 Hs2 [[-> [= <- <-]]|[Hi1 E1]] [[-> [= <- <-]]|[Hj1 E2]]; try lia.
    + destruct Hs2 as [?|Hs2]; [done|]. specialize (Hkeys _ Hs2). lia.
    + destruct Hs1 as [?|Hs1]; [done|]. destruct (Hact i Hs1) as (n' & h' & E & Hn').
      simplify_eq. apply (ch_top _ (nc_chain _ Hi)) in Hn'. lia.
    + destruct Hs1 as [?|Hs1], Hs2 as [?|Hs2]; try done. by apply (Hsort i j ni hi nj hj).
Qed.

(** What can happen after the snapshot [id]: blocks are mined, the state is
    written to, snapshots are taken, and later snapshots that still exist are
    reverted to. *)
Inductive snap_step (id : Z) : SnapNode → SnapNode → Prop :=
| snap_mine now b active txs b' o :
    in_bounds b → mine now b txs = Ret (b', o) → snap_step id (b, active) (b', active)
| snap_write b active d :
    snap_step id (b, active) (with_db b {| md_inner := d; md_snapshots := md_snapshots (bk_db b) |}, active)
| snap_take s :
    sn_id (md_snapshots (bk_db s.1)) + 1 < umax 256 → snap_step id s (create_state_snapshot s).1
| snap_back now s id' :
    id < id' → is_Some (snaps s.1 !! id') →
    snap_step id s (revert_state_snapshot (BlobError := BlobError) default_blob slots now s id').1.

(** No block above the best one is stored. *)
Definition headers_below b : Prop :=
  ∀ h hd, headers b !! h = Some hd → h_number hd ≤ best_number (bk_chain b).

Lemma core_headers_below b : node_core b → headers_below b.
Proof.
  intros Hi h hd Hh. unfold headers in Hh. apply lookup_fmap_Some in Hh as (bk & <- & Hbk).
  apply (ch_block _ (nc_chain _ Hi)), (ch_top _ (nc_chain _ Hi)) in Hbk.
  unfold hd_number in Hbk. lia.
Qed.

(** The snapshot [id] of [b0] is still there. *)
Record held (id : Z) (b0 : Node) s : Prop := {
  hl_inv : snaps_inv s;
  hl_state : snaps s.1 !! id = Some (md_inner (bk_db b0));
  hl_block : s.2 !! id = Some (best_number (bk_chain b0), best_hash (bk_chain b0));
  hl_hashes : ∀ n, n ≤ best_number (bk_chain b0) →
    hashes (bk_chain s.1) !! n = hashes (bk_chain b0) !! n;
  hl_headers : headers b0 ⊆ headers s.1;
  hl_blocks : bc_transaction_block_keeper c = None → blocks (bk_chain b0) ⊆ blocks (bk_chain s.1)
}.

Lemma held_best id b0 s :
  held id b0 s → best_number (bk_chain b0) ≤ best_number (bk_chain s.1).
Proof.
  intros [Hv Hs Hb _ _ _]. destruct (si_active _ Hv id ltac:(eauto)) as (n & h & E & Hn).
  simplify_eq/=. apply (ch_top _ (nc_chain _ (si_core _ Hv))) in Hn. lia.
Qed.

Lemma held_mine id b0 now b active txs b' o :
  held id b0 (b, active) → in_bounds b → mine now b txs = Ret (b', o) → held id b0 (b', active).
Proof.
  intros Hh Hr E. pose proof (held_best _ _ _ Hh) as Hle.
  destruct Hh as [[Hi Hf Hwf Hroom Hact Hsort] Hs Hb Hhs Hhd Hbl]; simpl in *.
  destruct (mine_over now b txs b' o Hi Hf Hr E) as [M1 M2 M3 M4 M5 M5' M6].
  assert (snaps b' = snaps b) as Esn by (unfold snaps; by rewrite M6).
  split; simpl; [|by rewrite Esn|done|intros n Hn; rewrite M4 by lia; by apply Hhs|by trans (headers b)
    |intros Hk; trans (blocks (bk_chain b)); auto].
  split; simpl; rewrite ?M6, ?Esn; try done.
  intros i Hsi. destruct (Hact i Hsi) as (num & hash & Ei & Hn). exists num, hash. split; [done|].
  pose proof (ch_top _ (nc_chain _ Hi) _ _ Hn). by rewrite M4 by lia.
Qed.

Lemma held_back id b0 now s id' :
  node_core b0 → held id b0 s → id < id' → is_Some (snaps s.1 !! id') →
  held id b0 (revert_state_snapshot (BlobError := BlobError) default_blob slots now s id').1.
Proof.
  intros Hi0 [Hv Hs Hb Hhs Hhd Hbl] Hlt [d Hd]. pose proof (core_headers_below b0 Hi0) as Hbelow.
  destruct (revert_live now s id' d Hv Hd) as (s' & -> & [R1 (num & hash & Ea & R2) R3 R4 R5]).
  assert (best_number (bk_chain b0) ≤ num) as Hle
    by (eapply (si_sorted _ Hv id id'); eauto; lia).
  split; simpl; [done|by rewrite R4, decide_False by lia| | | |].
  - by rewrite R5, lookup_delete_ne by lia.
  - intros n Hn. rewrite (tb_hashes _ _ _ _ R2), decide_False by lia. by apply Hhs.
  - apply map_subseteq_spec. intros h hd Hh. apply (tb_headers _ _ _ _ R2).
    specialize (Hbelow _ _ Hh). split; [by eapply lookup_weaken|lia].
  - intros Hk. apply map_subseteq_spec. intros h blk Hh. apply (tb_blocks _ _ _ _ R2).
    split; [by eapply lookup_weaken; [|apply Hbl]|].
    pose proof (ch_top _ (nc_chain _ Hi0) _ _ (ch_block _ (nc_chain _ Hi0) _ _ Hh)). lia.
Qed.

Lemma held_step id b0 s s' :
  node_core b0 → held id b0 s → snap_step id s s' → held id b0 s'.
Proof.
  intros Hbelow Hh Hstep.
  destruct Hstep as [now b active txs b' o Hr E|b active d|s Hlt|now s id' Hlt Hs].
  - by eapply held_mine.
  - destruct Hh as [[] ? ? ? ? ?]; simpl in *. split; try done. split; simpl; try done;
      [by destruct si_core0; split|by destruct si_full0; split].
  - destruct Hh as [Hv Hs Hb Hhs Hhd Hbl]. pose proof (create_inv s Hv Hlt) as Hc.
    destruct (create_state_snapshot s) as [s' id'].
    destruct Hc as (C1 & C2 & C3 & C4 & C5 & C6). simpl.
    assert (id' ≠ id) by congruence.
    split; [done|by rewrite C3, lookup_insert_ne|by rewrite C4, lookup_insert_ne| | |].
    + by rewrite C5.
    + unfold headers. by rewrite C5.
    + by rewrite C5.
  - by apply held_back.
Qed.

(** Taking the node back to the snapshot. *)
Lemma held_revert now id b0 s :
  node_core b0 → chain_full b0 → held id b0 s →
  ∃ b' active, revert_state_snapshot (BlobError := BlobError) default_blob slots now s id =
      (b', active, Ok true) ∧ snaps_inv (b', active) ∧
    md_inner (bk_db b') = md_inner (bk_db b0) ∧
    hashes (bk_chain b') = hashes (bk_chain b0) ∧ headers b' = headers b0 ∧
    best_number (bk_chain b') = best_number (bk_chain b0) ∧
    best_hash (bk_chain b') = best_hash (bk_chain b0) ∧
    (bc_transaction_block_keeper c = None → blocks (bk_chain b') = blocks (bk_chain b0)).
Proof.
  intros Hi0 Hf0 [Hv Hs Hb Hhs Hhd Hbl]. pose proof (core_headers_below b0 Hi0) as Hbelow.
  destruct (revert_live now s id _ Hv Hs) as ([b' active] & -> & [R1 (num & hash & Ea & R2) R3 _ _]).
  rewrite Hb in Ea. injection Ea as <- <-. exists b', active.
  assert (hashes (bk_chain b') = hashes (bk_chain b0)) as Ehs.
  { apply map_eq. intros n. rewrite (tb_hashes _ _ _ _ R2). case_decide as Hn; [|apply Hhs; lia].
    symmetry. apply eq_None_not_Some. intros [h Hx].
    apply (ch_top _ (nc_chain _ Hi0)) in Hx. lia. }
  assert (headers b' = headers b0) as Ehd.
  { symmetry. apply (anti_symm (⊆)).
  - apply map_subseteq_spec. intros h hd Hh. apply (tb_headers _ _ _ _ R2).
    split; [by eapply lookup_weaken|by eapply Hbelow].
  - apply map_subseteq_spec. intros h hd Hh. simpl in Hh. pose proof Hh as Hh'.
    unfold headers in Hh'. apply lookup_fmap_Some in Hh' as (bk & <- & Hbk).
    pose proof (ch_block _ (nc_chain _ (tb_core _ _ _ _ R2)) _ _ Hbk) as Hn. simpl in Hn.
    rewrite Ehs in Hn. destruct (cf_stored _ Hf0 _ _ Hn) as [hd Hhd0]. rewrite Hhd0.
    apply (tb_headers _ _ _ _ R2) in Hh as [Hh _].
    by rewrite (lookup_weaken _ _ _ _ Hhd0 Hhd) in Hh. }
  split_and!; try done; [apply R2|apply R2|].
  intros Hk. apply map_eq. intros h. assert (headers b' !! h = headers b0 !! h) as Eh by (by rewrite Ehd).
  unfold headers in Eh. rewrite !lookup_fmap in Eh.
  destruct (blocks (bk_chain b') !! h) as [blk|] eqn:E1, (blocks (bk_chain b0) !! h) as [blk0|] eqn:E2;
    simplify_eq/=; [|done].
  apply (tb_blocks _ _ _ _ R2) in E1 as [E1 _].
  by rewrite (lookup_weaken _ _ _ _ E2 (Hbl Hk)) in E1.
Qed.
End node_snapshots.

(** ** Properties *)

(** C12: [evm_revert] takes the node back to its [evm_snapshot]: after any blocks
    mined, writes to the state, further snapshots and reverts to those, reverting
    to the snapshot (for the first time) succeeds, and the node has again the
    same numbers and hashes of blocks, headers, best block and state as when the
    snapshot was taken; the blocks are the same with their transactions, unless
    the node is configured to drop the transactions of old blocks
    ([transaction_block_keeper]), which a revert does not bring back. *)
Theorem evm_revert_correct {ext : TxExternals} {specs : SpecIds} {bext : BlockExternals}
    {rt : RevmTypes} {Disk : Type} {evm : RevmDb MemDb} {order : HashOrder Z}
    {dc : FileSystem Disk StateSnapshot} {kext : BackendExternals} {hh : HeaderHash}
    {laws : RevmLaws (evm := evm)} {kept : SnapshotsKept (evm := evm)} {BlobError : Type}
    (blob_validate : TxEip4844Variant → result unit BlobError)
    (txenv_default : TxEnv) (op_new : TxEnv → OpTransaction)
    (calculate_receipt_root : list TypedReceipt → B256) (c : BackendConfig)
    (default_blob : option BlobExcessGasAndPrice) (slots now : Z)
    (b0 : Backend MemDb CacheDB Disk) (active0 : gmap Z (Z * B256)) s :
  is_Some default_blob →
  snaps_inv (b0, active0) → sn_id (md_snapshots (bk_db b0)) + 1 < umax 256 →
  let '(s1, id) := create_state_snapshot (b0, active0) in
  rtc (snap_step (order := order) blob_validate txenv_default op_new calculate_receipt_root c
         default_blob slots id) s1 s →
  ∃ b' active, revert_state_snapshot (BlobError := BlobError) default_blob slots now s id =
      (b', active, Ok true) ∧ snaps_inv (b', active) ∧
    md_inner (bk_db b') = md_inner (bk_db b0) ∧
    hashes (bk_chain b') = hashes (bk_chain b0) ∧
    blk_header <$> blocks (bk_chain b') = blk_header <$> blocks (bk_chain b0) ∧
    best_number (bk_chain b') = best_number (bk_chain b0) ∧
    best_hash (bk_chain b') = best_hash (bk_chain b0) ∧
    (bc_transaction_block_keeper c = None → blocks (bk_chain b') = blocks (bk_chain b0)).
Proof.
  intros Hblob Hv Hlt. pose proof (create_inv (b0, active0) Hv Hlt) as Hc.
  destruct (create_state_snapshot (b0, active0)) as [s1 id].
  destruct Hc as (C1 & C2 & C3 & C4 & C5 & C6). intros Hsteps.
  pose proof (si_core _ Hv) as Hi0; simpl in Hi0.
  apply (held_revert c); [done..|apply (si_full _ Hv)|].
  assert (held c id b0 s1) as Hh.
  { split; simpl; rewrite ?C3, ?C4, ?C5; try done; try apply lookup_insert_eq.
    unfold headers. by rewrite C5. }
  clear -Hsteps Hh Hi0 Hblob laws kept hh. induction Hsteps as [|x y z Hxy _ IH]; [done|].
  eapply IH, held_step; done.
Qed.

#[export] Instance ex_snapshots_kept : SnapshotsKept (evm := ex_mem_revm).
Proof. by constructor. Qed.

(** Snapshot 0, a block, snapshot 1. *)
Definition ex_snap0 : ExNode * gmap Z (Z * B256) := (create_state_snapshot (ex_mem_node, ∅)).1.
Definition ex_snap1 : ExNode * gmap Z (Z * B256) :=
  (create_state_snapshot (ex_next ex_snap0.1, ex_snap0.2)).1.

Definition ex_default_blob : option BlobExcessGasAndPrice :=
  Some {| excess_blob_gas := 0; blob_gasprice := 1 |}.

Definition ex_revert (s : ExNode * gmap Z (Z * B256)) (id : Z)
    : ExNode * gmap Z (Z * B256) * result bool (BlockchainError (rt := ex_revm_types) unit) :=
  revert_state_snapshot (ext := ex_externals) (BlobError := unit) ex_default_blob 32 300 s id.

Lemma ex_mem_snaps :
  snaps_inv (specs := ex_specs) (bext := ex_block_externals) (kext := ex_backend_externals)
    (ex_mem_node, ∅).
Proof.
  split; simpl; [apply ex_mem_core| | |done|..].
  - split.
    + intros n h Hn. simpl in Hn. apply lookup_singleton_Some in Hn as [<- <-].
      exists (ex_header 0). vm_compute. reflexivity.
    + intros h hd. unfold headers; simpl. rewrite map_fmap_singleton.
      intros [<- <-]%lookup_singleton_Some. unfold is_u; split; [split|]; vm_compute; discriminate.
  - split; simpl; [unfold umax; lia|]. intros _ i. rewrite lookup_empty. by intros [].
  - intros i. unfold snaps; simpl. rewrite lookup_empty. by intros [].
  - intros i j ni hi nj hj _. unfold snaps; simpl. rewrite lookup_empty. by intros [].
Qed.

Lemma evm_revert_correct_witness :
  best_number (bk_chain ex_snap1.1) = 1 ∧
  ∃ b' active, ex_revert ex_snap1 0 = (b', active, Ok true) ∧
    md_inner (bk_db b') = ex_cache 3 ∧ best_number (bk_chain b') = 0.
Proof.
  split; [vm_compute; reflexivity|].
  destruct (evm_revert_correct (ext := ex_externals) (specs := ex_specs)
    (bext := ex_block_externals) (evm := ex_mem_revm) (kext := ex_backend_externals)
    (order := elements_order Z) (hh := ex_header_hash) (laws := ex_mem_laws)
    (λ _, Ok tt : result unit unit) ex_txenv ex_op_new (λ l, Z.of_nat (length l))
    ex_backend_config ex_default_blob 32 300 ex_mem_node ∅ ex_snap1 ltac:(by eexists) ex_mem_snaps)
    as (b' & active & E & _ & E1 & _ & _ & E2 & _).
  - vm_compute. reflexivity.
  - eapply rtc_l; [|apply rtc_once, snap_take; vm_compute; reflexivity].
    destruct (ex_mine ex_snap0.1) as [[b' o]| |] eqn:E; [|vm_compute in E; discriminate..].
    unfold ex_next. rewrite E. apply (snap_mine _ _ _ _ _ _ _ 0 105 ex_snap0.1 ex_snap0.2 [] b' o); [|exact E].
    split; vm_compute; reflexivity.
  - exists b', active. split; [exact E|]. split; [exact E1|exact E2].
Defined.

(** a snapshot taken after the one that was reverted to stays in the list of
    active snapshots although its state is gone; reverting to it then fails,
    but only after the best block of the chain was set to a block that is no
    longer stored. *)
Theorem evm_revert_stale :
  let '(s2, r0) := ex_revert ex_snap1 0 in
  let '(b3, _, r1) := ex_revert s2 1 in
  r0 = Ok true ∧ s2.2 !! 1 = Some (1, 1001) ∧ snaps s2.1 !! 1 = None ∧
  r1 = Err BcBlockNotFound ∧ best_number (bk_chain b3) = 1 ∧
  hashes (bk_chain b3) !! 1 = None ∧ blocks (bk_chain b3) !! best_hash (bk_chain b3) = None.
Proof. vm_compute. by split_and!. Qed.
