(* ===== verification/Linker.v ===== *)
(** * The bytecode linker (crates/linking/src/lib.rs)

    Contracts refer to libraries by file and name.  The linker collects the
    libraries a contract needs along these references, chooses an address for
    each (from the sender's nonce, or by CREATE2 in an order in which every
    library is linked before it is deployed), and links the bytecode with them.
    Bytecode objects and the library map are types of foundry-compilers: their
    operations are the class [BytecodeOps], their documented behaviour the
    class [BytecodeLaws].  The ordered maps of the source are finite maps with
    an iteration order ([HashOrder]); the theorems hold for every order. *)

From stdpp Require Import prelude gmap list strings relations.
From S2P Require Import Prelude Containers.

Open Scope Z_scope.

(** ** Paths

    A path is the list of its components, as [Path] compares them. *)

Abbreviation Path := (list string).

Fixpoint split_on (c : Ascii.ascii) (s : string) : list string :=
  match s with
  | EmptyString => [EmptyString]
  | String a s =>
      if Ascii.eqb a c then EmptyString :: split_on c s
      else match split_on c s with
           | [] => [String a EmptyString]
           | w :: ws => String a w :: ws
           end
  end.

Fixpoint join (sep : string) (l : list string) : string :=
  match l with
  | [] => ""
  | [w] => w
  | w :: l => String.append w (String.append sep (join sep l))
  end.

Definition slash : Ascii.ascii := Ascii.ascii_of_nat 47.
Definition dot : Ascii.ascii := Ascii.ascii_of_nat 46.

(** [Path::new(s).components()]: repeated separators and inner dots are
    dropped, a leading dot is kept. *)
Definition path_of (s : string) : Path :=
  let inner := filter (λ w, w ≠ EmptyString ∧ w ≠ ".") in
  match split_on slash s with
  | EmptyString :: (_ :: _) as ws => "/" :: inner ws
  | "." :: ws => "." :: inner ws
  | ws => inner ws
  end.

(** [to_string_lossy]. *)
Definition path_str (p : Path) : string :=
  match p with
  | "/" :: p => String.append "/" (join "/" p)
  | p => join "/" p
  end.

Fixpoint strip_prefix (base p : Path) : option Path :=
  match base, p with
  | [], p => Some p
  | b :: base, w :: p => if decide (b = w) then strip_prefix base p else None
  | _ :: _, [] => None
  end.

(** ** Data *)

Record ArtifactId := {
  id_source : Path;
  id_name : string;
  id_version : Z;
  id_rest : string      (* the other fields: path, build id, profile *)
}.

#[export] Instance artifact_id_eq : EqDecision ArtifactId.
Proof. solve_decision. Defined.

#[export] Program Instance artifact_id_countable : Countable ArtifactId :=
  inj_countable' (λ i, (id_source i, id_name i, id_version i, id_rest i))
    (λ '(s, n, v, r), {| id_source := s; id_name := n; id_version := v; id_rest := r |}) _.
Next Obligation. by intros []. Qed.

Class BytecodeOps := {
  Code : Type;
  AddressError : Type;
  link_references : Code → gmap string (gset string);
  code_link : Code → string → string → Z → Code;
  is_unlinked : Code → bool;
  code_bytes : Code → option (list Z);
  addr_from_str : string → result Z AddressError;
  to_checksum : Z → string;
  create : Z → Z → Z;
  create2_from_code : Z → Z → list Z → Z
}.

Inductive LinkerError {ops : BytecodeOps} : Type :=
| MissingLibraryArtifact (file name : string)
| MissingTargetArtifact
| InvalidAddress (e : AddressError)
| CyclicDependency
| LinkingFailed (artifact : string).

(** [bytecode], and [deployed_bytecode] with its own optional bytecode. *)
Record Contract {ops : BytecodeOps} := {
  ct_bytecode : option Code;
  ct_deployed : option (option Code)
}.

Record Linker {ops : BytecodeOps} := {
  root : Path;
  contracts : gmap ArtifactId Contract
}.

Abbreviation Libraries := (gmap Path (gmap string string)).

Record LinkOutput := {
  libraries : Libraries;
  libs_to_deploy : list (list Z)
}.

Section linker.
Context {ops : BytecodeOps} {iorder : HashOrder ArtifactId} {sorder : HashOrder string}
  {porder : HashOrder Path}.
(** [Libraries::with_stripped_file_prefixes] of foundry-compilers. *)
Context (with_stripped_file_prefixes : Path → Libraries → Libraries).
Implicit Types (l : Linker) (id target : ArtifactId) (deps : gset ArtifactId).

(** ** Finding libraries *)

Definition convert_artifact_id_to_lib_path l id : Path * string :=
  (default (id_source id) (strip_prefix (root l) (id_source id)),
   default EmptyString (head (split_on dot (id_name id)))).

Definition find_artifact_id_by_library_path l (file name : string) (version : option Z)
    : option ArtifactId :=
  List.find (λ id,
    let '(artifact_path, artifact_name) := convert_artifact_id_to_lib_path l id in
    match version with Some v => bool_decide (id_version id = v) | None => true end &&
    bool_decide (artifact_name = name) && bool_decide (artifact_path = path_of file))
    (set_iter (dom (contracts l))).

(** The references of a contract; [extend] replaces the libraries of a file
    both bytecodes refer to. *)
Definition contract_references (c : Contract) : gmap string (gset string) :=
  let references := match ct_bytecode c with Some b => link_references b | None => ∅ end in
  match ct_deployed c with
  | Some (Some b) => link_references b ∪ references
  | _ => references
  end.

(** The order in which the two loops visit them. *)
Definition reference_list (references : gmap string (gset string)) : list (string * string) :=
  map_pairs references ≫= λ '(file, libs), (file,.) <$> set_iter libs.

Abbreviation collected := (outcome (result (gset ArtifactId) LinkerError)).

Fixpoint visit_references (collect : ArtifactId → gset ArtifactId → collected) l (version : Z)
    (references : list (string * string)) deps : collected :=
  match references with
  | [] => Ret (Ok deps)
  | (file, name) :: references =>
      match find_artifact_id_by_library_path l file name (Some version) with
      | None => Ret (Err (MissingLibraryArtifact file name))
      | Some id =>
          if decide (id ∈ deps) then visit_references collect l version references deps
          else
            r ← collect id ({[id]} ∪ deps);
            match r with
            | Err e => Ret (Err e)
            | Ok deps => visit_references collect l version references deps
            end
      end
  end.

Fixpoint collect_dependencies (fuel : nat) l target deps : collected :=
  match fuel with
  | O => OutOfFuel
  | S fuel =>
      match contracts l !! target with
      | None => Ret (Err MissingTargetArtifact)
      | Some contract =>
          visit_references (collect_dependencies fuel l) l (id_version target)
            (reference_list (contract_references contract)) deps
      end
  end.

(** Enough for every search: each level of the recursion inserts an artifact. *)
Definition search_fuel l : nat := S (size (dom (contracts l))).

Fixpoint collect_all l (targets : list ArtifactId) deps : collected :=
  match targets with
  | [] => Ret (Ok deps)
  | target :: targets =>
      r ← collect_dependencies (search_fuel l) l target deps;
      match r with Err e => Ret (Err e) | Ok deps => collect_all l targets deps end
  end.

(** ** Linking *)

(** The entries of a library map in the order of the two loops. *)
Definition library_list (libs : Libraries) : list (Path * string * string) :=
  map_pairs libs ≫= λ '(file, m), (λ '(name, address), (file, name, address)) <$> map_pairs m.

Definition link_contract (c : Contract) (file : Path) (name : string) (address : Z) : Contract :=
  {| ct_bytecode := (λ b, code_link b (path_str file) name address) <$> ct_bytecode c;
     ct_deployed :=
       (λ d : option Code, (λ b, code_link b (path_str file) name address) <$> d) <$> ct_deployed c |}.

Fixpoint link_entries (c : Contract) (entries : list (Path * string * string))
    : result Contract LinkerError :=
  match entries with
  | [] => Ok c
  | (file, name, address) :: entries =>
      match addr_from_str address with
      | Err e => Err (InvalidAddress e)
      | Ok address => link_entries (link_contract c file name address) entries
      end
  end.

Definition link l target (libs : Libraries) : result Contract LinkerError :=
  match contracts l !! target with
  | None => Err MissingTargetArtifact
  | Some contract => link_entries contract (library_list libs)
  end.

Definition code_unlinked (b : option Code) : bool :=
  match b with Some b => is_unlinked b | None => false end.

Definition ensure_linked (c : Contract) target : result unit LinkerError :=
  if code_unlinked (ct_bytecode c) then Err (LinkingFailed (path_str (id_source target)))
  else if code_unlinked (ct_deployed c ≫= id) then
    Err (LinkingFailed (path_str (id_source target)))
  else Ok tt.

Definition has_library (libs : Libraries) (key : Path * string) : bool :=
  bool_decide (is_Some (libs !! key.1 ≫= λ m, m !! key.2)).

Definition add_library (libs : Libraries) (key : Path * string) (address : string) : Libraries :=
  <[key.1 := <[key.2 := address]> (default ∅ (libs !! key.1))]> libs.

(** One turn of the loop that chooses addresses from the nonce. *)
Definition assign_address l (sender : Z) (s : Libraries * list (ArtifactId * Z) * Z) id
    : Libraries * list (ArtifactId * Z) * Z :=
  let '(libs, to_deploy, nonce) := s in
  let key := convert_artifact_id_to_lib_path l id in
  if has_library libs key then s
  else
    let address := create sender nonce in
    (add_library libs key (to_checksum address), to_deploy ++ [(id, address)], nonce +w[64] 1).

(** The bytecode of the libraries to deploy; an unlinked one panics. *)
Fixpoint linked_codes l (libs : Libraries) (ids : list ArtifactId)
    : outcome (result (list (list Z)) LinkerError) :=
  match ids with
  | [] => Ret (Ok [])
  | id :: ids =>
      match link l id libs with
      | Err e => Ret (Err e)
      | Ok c =>
          code ← expect (ct_bytecode c ≫= code_bytes);
          r ← linked_codes l libs ids;
          Ret (match r with Ok codes => Ok (code :: codes) | Err e => Err e end)
      end
  end.

Definition link_with_nonce_or_address l (libs : Libraries) (sender nonce : Z)
    (targets : list ArtifactId) : outcome (result LinkOutput LinkerError) :=
  let libs := with_stripped_file_prefixes (root l) libs in
  r ← collect_all l targets ∅;
  match r with
  | Err e => Ret (Err e)
  | Ok needed_libraries =>
      let '(libs, to_deploy, _) :=
        foldl (assign_address l sender) (libs, [], nonce) (set_iter needed_libraries) in
      r ← linked_codes l libs to_deploy.*1;
      Ret (match r with
           | Ok codes => Ok {| libraries := libs; libs_to_deploy := codes |}
           | Err e => Err e
           end)
  end.

(** ** CREATE2 *)

Record Create2State := {
  c2_needed : list (ArtifactId * Code);
  c2_libraries : Libraries;
  c2_deploy : list (list Z)
}.

(** One turn of the loop. *)
Definition create2_body l (sender salt : Z) (s : Create2State)
    : outcome (flow Create2State (result LinkOutput LinkerError)) :=
  match c2_needed s with
  | [] => Ret (Break (Ok {| libraries := c2_libraries s; libs_to_deploy := c2_deploy s |}))
  | _ =>
      match list_find (λ e : ArtifactId * Code, is_unlinked e.2 = false) (c2_needed s) with
      | None => Ret (Break (Err CyclicDependency))
      | Some (index, (id, bytecode)) =>
          code ← expect (code_bytes bytecode);
          let address := create2_from_code sender salt code in
          let key := convert_artifact_id_to_lib_path l id in
          Ret (Continue
            {| c2_needed := (λ e, (e.1, code_link e.2 (path_str key.1) key.2 address)) <$>
                              swap_remove index (c2_needed s);
               c2_libraries := add_library (c2_libraries s) key (to_checksum address);
               c2_deploy := c2_deploy s ++ [code] |})
      end
  end.

(** The libraries that are not provided, with their bytecode linked with the
    provided ones; [unwrap] twice. *)
Fixpoint initial_needed l (libs : Libraries) (ids : list ArtifactId)
    : outcome (list (ArtifactId * Code)) :=
  match ids with
  | [] => Ret []
  | id :: ids =>
      if has_library libs (convert_artifact_id_to_lib_path l id) then initial_needed l libs ids
      else
        match link l id libs with
        | Err _ => Panic
        | Ok c =>
            bytecode ← expect (ct_bytecode c);
            rest ← initial_needed l libs ids;
            Ret ((id, bytecode) :: rest)
        end
  end.

Definition link_with_create2 l (libs : Libraries) (sender salt : Z) target
    : outcome (result LinkOutput LinkerError) :=
  let libs := with_stripped_file_prefixes (root l) libs in
  r ← collect_dependencies (search_fuel l) l target ∅;
  match r with
  | Err e => Ret (Err e)
  | Ok needed =>
      needed_libraries ← initial_needed l libs (set_iter needed);
      run (S (length needed_libraries)) (create2_body l sender salt)
        {| c2_needed := needed_libraries; c2_libraries := libs; c2_deploy := [] |}
  end.

(** [get_linked_artifacts]. *)
Fixpoint link_all l (libs : Libraries) (ids : list ArtifactId)
    : result (gmap ArtifactId Contract) LinkerError :=
  match ids with
  | [] => Ok ∅
  | id :: ids =>
      match link l id libs with
      | Err e => Err e
      | Ok c => match link_all l libs ids with Ok m => Ok (<[id := c]> m) | Err e => Err e end
      end
  end.

Definition get_linked_artifacts l (libs : Libraries) : result (gmap ArtifactId Contract) LinkerError :=
  link_all l libs (set_iter (dom (contracts l))).
End linker.

(** ** Specification *)

(** *** Collecting dependencies *)

Section collect_spec.
Context {ops : BytecodeOps} {iorder : HashOrder ArtifactId} {sorder : HashOrder string}.
Implicit Types (l : Linker) (id target : ArtifactId) (deps : gset ArtifactId).

(** The references of an artifact. *)
Definition refers l id (ref : string * string) : Prop :=
  ∃ c, contracts l !! id = Some c ∧ ref ∈ reference_list (contract_references c).

(** The library a reference of an artifact resolves to. *)
Definition resolve l id (ref : string * string) : option ArtifactId :=
  find_artifact_id_by_library_path l ref.1 ref.2 (Some (id_version id)).

Definition depends l (a b : ArtifactId) : Prop :=
  ∃ ref, refers l a ref ∧ resolve l a ref = Some b.

Lemma find_known l file name v id :
  find_artifact_id_by_library_path l file name v = Some id →
  id ∈ dom (contracts l) ∧ convert_artifact_id_to_lib_path l id = (path_of file, name).
Proof.
  unfold find_artifact_id_by_library_path. intros [Hin E]%find_some.
  rewrite <- list_elem_of_In, set_iter_elem_of in Hin. split; [done|].
  destruct (convert_artifact_id_to_lib_path l id) as [p n].
  apply andb_true_iff in E as [[_ E1]%andb_true_iff E2].
  apply bool_decide_eq_true in E1, E2. by subst.
Qed.

(** Every reference of [a] resolves to a library in [deps]. *)
Definition settled l deps (a : ArtifactId) (refs : list (string * string)) : Prop :=
  ∀ ref, ref ∈ refs → ∃ b, resolve l a ref = Some b ∧ b ∈ deps.

Definition all_references l (a : ArtifactId) : list (string * string) :=
  reference_list (default ∅ (contract_references <$> contracts l !! a)).

Lemma all_references_refers l a ref : ref ∈ all_references l a → a ∈ dom (contracts l) → refers l a ref.
Proof.
  intros Hin [c Ec]%elem_of_dom. exists c. split; [done|]. unfold all_references in Hin.
  by rewrite Ec in Hin.
Qed.

Lemma refers_all l a ref : refers l a ref → ref ∈ all_references l a.
Proof. intros (c & Ec & Hin). unfold all_references. by rewrite Ec. Qed.

Lemma settled_mono l deps deps' a refs : settled l deps a refs → deps ⊆ deps' → settled l deps' a refs.
Proof. intros H Hsub ref Hin. destruct (H ref Hin) as (b & E & Hb). exists b. set_solver. Qed.

(** What a search below [target] with the libraries [deps] found before leaves:
    everything it added, and what [target] refers to, is settled, and only what
    is reachable was added. *)
Definition searched l target (refs : list (string * string)) deps deps' : Prop :=
  deps ⊆ deps' ∧ deps' ⊆ dom (contracts l) ∧ settled l deps' target refs ∧
  (∀ a, a ∈ deps' → a ∉ deps → settled l deps' a (all_references l a)) ∧
  (∀ a, a ∈ deps' → a ∈ deps ∨ tc (depends l) target a).

Definition search_result l target (refs : list (string * string)) deps
    (r : result (gset ArtifactId) LinkerError) : Prop :=
  match r with
  | Ok deps' => searched l target refs deps deps'
  | Err (MissingLibraryArtifact file name) =>
      ∃ a, rtc (depends l) target a ∧ refers l a (file, name) ∧ resolve l a (file, name) = None
  | Err _ => False
  end.

Lemma searched_trans l target id refs ref deps deps1 deps2 :
  refers l target ref → resolve l target ref = Some id →
  searched l id (all_references l id) ({[id]} ∪ deps) deps1 →
  searched l target refs deps1 deps2 → searched l target (ref :: refs) deps deps2.
Proof.
  intros Hr Hid (A1 & A2 & A3 & A4 & A5) (B1 & B2 & B3 & B4 & B5).
  split_and!; [set_solver|done|..].
  - intros ref' [->|Hin]%elem_of_cons; [exists id; set_solver|by apply B3].
  - intros a Ha Hnot. destruct (decide (a ∈ deps1)) as [H1|H1]; [|by apply B4].
    apply (settled_mono _ deps1); [|done].
    destruct (decide (a = id)) as [->|Hne]; [done|]. apply A4; [done|set_solver].
  - assert (depends l target id) as Hdep by (exists ref; eauto).
    intros a [Ha|Ha]%B5; [|by right]. apply A5 in Ha as [Ha|Ha].
    + apply elem_of_union in Ha as [->%elem_of_singleton|Ha]; [right|by left]. by apply tc_once.
    + right. by eapply tc_l.
Qed.

Lemma visit_spec l target refs :
  ∀ (collect : ArtifactId → gset ArtifactId → outcome (result (gset ArtifactId) LinkerError)) n deps,
  (∀ ref, ref ∈ refs → refers l target ref) →
  (∀ id deps, id ∈ dom (contracts l) → deps ⊆ dom (contracts l) →
     (size (dom (contracts l) ∖ deps) < n)%nat →
     ∃ r, collect id deps = Ret r ∧ search_result l id (all_references l id) deps r) →
  deps ⊆ dom (contracts l) → (size (dom (contracts l) ∖ deps) ≤ n)%nat →
  ∃ r, visit_references collect l (id_version target) refs deps = Ret r ∧
    search_result l target refs deps r.
Proof.
  induction refs as [|[file name] refs IH]; intros collect n deps Hrefs Hc Hsub Hn;
    cbn [visit_references].
  { eexists. split; [reflexivity|].
    split_and!; try done; [by intros ? Hin%elem_of_nil|by left]. }
  assert (refers l target (file, name)) as Hr by (apply Hrefs; by left).
  assert (∀ ref, ref ∈ refs → refers l target ref) as Hrefs' by (intros; apply Hrefs; by right).
  destruct (find_artifact_id_by_library_path l file name (Some (id_version target)))
    as [id|] eqn:Ef.
  2: { eexists. split; [reflexivity|]. by exists target. }
  destruct (find_known _ _ _ _ _ Ef) as [Hknown _].
  assert (resolve l target (file, name) = Some id) as Hres by done.
  case_decide as Hin.
  - destruct (IH collect n deps Hrefs' Hc Hsub Hn) as (r & -> & Hs). exists r. split; [done|].
    destruct r as [deps'|[]]; try done. destruct Hs as (S1 & S2 & S3 & S4 & S5).
    split_and!; try done. intros ref [->|Hb]%elem_of_cons; [exists id; set_solver|by apply S3].
  - assert (({[id]} ∪ deps) ⊆ dom (contracts l)) as Hsub1 by set_solver.
    assert (size (dom (contracts l) ∖ ({[id]} ∪ deps)) < size (dom (contracts l) ∖ deps))%nat
      as Hlt by (apply subset_size; set_solver).
    destruct (Hc id ({[id]} ∪ deps) Hknown Hsub1 ltac:(lia)) as (r1 & -> & Hs1).
    rewrite bind_Ret. destruct r1 as [deps1|e].
    + pose proof Hs1 as (S1 & S2 & _).
      assert (size (dom (contracts l) ∖ deps1) ≤ size (dom (contracts l) ∖ ({[id]} ∪ deps)))%nat
        by (apply subseteq_size; set_solver).
      destruct (IH collect n deps1 Hrefs' Hc S2 ltac:(lia)) as (r & -> & Hs).
      exists r. split; [done|]. destruct r as [deps2|[]]; try done. by eapply searched_trans.
    + eexists. split; [reflexivity|]. destruct e; try done.
      destruct Hs1 as (a & Ha & Hra & Hna). exists a. split; [|done].
      eapply rtc_l; [|done]. by exists (file, name).
Qed.

Lemma collect_spec l fuel : ∀ target deps,
  target ∈ dom (contracts l) → deps ⊆ dom (contracts l) →
  (size (dom (contracts l) ∖ deps) < fuel)%nat →
  ∃ r, collect_dependencies fuel l target deps = Ret r ∧
    search_result l target (all_references l target) deps r.
Proof.
  induction fuel as [|fuel IH]; intros target deps Ht Hsub Hlt; [lia|].
  cbn [collect_dependencies]. apply elem_of_dom in Ht as [c Ec]. unfold all_references. rewrite Ec.
  apply (visit_spec l target _ _ fuel); [|exact IH|done|lia].
  intros ref Hin. by exists c.
Qed.

Lemma search_fuel_enough l deps : (size (dom (contracts l) ∖ deps) < search_fuel l)%nat.
Proof.
  unfold search_fuel. apply Nat.lt_succ_r, subseteq_size. set_solver.
Qed.

(** A set of libraries every reference of which is in it. *)
Definition closed l deps : Prop :=
  deps ⊆ dom (contracts l) ∧ ∀ a, a ∈ deps → settled l deps a (all_references l a).

Lemma closed_reach l deps a b : closed l deps → a ∈ deps → rtc (depends l) a b → b ∈ deps.
Proof.
  intros [_ Hc] Ha Hab. induction Hab as [|x y z (ref & Hr & E) _ IH]; [done|]. apply IH.
  destruct (Hc x Ha ref (refers_all _ _ _ Hr)) as (b & E' & Hb). naive_solver.
Qed.

(** A search that starts from a closed set gives a closed set, with exactly
    what the target needs added. *)
Lemma collect_closed l target deps :
  target ∈ dom (contracts l) → closed l deps →
  ∃ r, collect_dependencies (search_fuel l) l target deps = Ret r ∧
  match r with
  | Ok deps' => closed l deps' ∧ settled l deps' target (all_references l target) ∧
      ∀ a, a ∈ deps' ↔ a ∈ deps ∨ tc (depends l) target a
  | Err (MissingLibraryArtifact file name) =>
      ∃ a, rtc (depends l) target a ∧ refers l a (file, name) ∧ resolve l a (file, name) = None
  | Err _ => False
  end.
Proof.
  intros Ht Hcl. pose proof Hcl as [Hsub Hset].
  destruct (collect_spec l (search_fuel l) target deps Ht Hsub (search_fuel_enough l deps))
    as (r & E & Hs). exists r. split; [done|]. destruct r as [deps'|[]]; try done.
  destruct Hs as (S1 & S2 & S3 & S4 & S5).
  assert (closed l deps') as Hcl'.
  { split; [done|]. intros a Ha. destruct (decide (a ∈ deps)) as [Hd|Hd]; [|by apply S4].
    by eapply settled_mono; [apply Hset|]. }
  split_and!; [done|done|]. intros a. split; [apply S5|]. intros [Ha|Ha]; [set_solver|].
  assert (∃ b, depends l target b ∧ rtc (depends l) b a) as (b & (ref & Hr & E') & Hba).
  { inversion Ha; subst; [by exists a|eexists; split; [done|by apply tc_rtc]]. }
  destruct (S3 ref (refers_all _ _ _ Hr)) as (b' & E'' & Hb'). simplify_eq.
  by eapply closed_reach.
Qed.

Lemma collect_all_spec l targets : ∀ deps,
  closed l deps →
  ∃ r, collect_all l targets deps = Ret r ∧
  match r with
  | Ok deps' => closed l deps' ∧
      ∀ a, a ∈ deps' ↔ a ∈ deps ∨ ∃ t, t ∈ targets ∧ tc (depends l) t a
  | Err MissingTargetArtifact => ∃ t, t ∈ targets ∧ contracts l !! t = None
  | Err (MissingLibraryArtifact file name) => ∃ t a, t ∈ targets ∧
      rtc (depends l) t a ∧ refers l a (file, name) ∧ resolve l a (file, name) = None
  | Err _ => False
  end.
Proof.
  induction targets as [|t targets IH]; intros deps Hcl; cbn [collect_all].
  { eexists. split; [reflexivity|]. split; [done|]. intros a. split; [by left|].
    intros [?|(? & []%elem_of_nil & _)]. done. }
  destruct (contracts l !! t) as [c|] eqn:Ec.
  - destruct (collect_closed l t deps) as (r & -> & Hr); [by eapply elem_of_dom_2|done|].
    rewrite bind_Ret. destruct r as [deps1|[]]; try done.
    + destruct Hr as (C1 & _ & C2). destruct (IH deps1 C1) as (r & -> & Hr). exists r.
      split; [done|]. destruct r as [deps2|[]]; try done.
      * destruct Hr as [D1 D2]. split; [done|]. intros a. rewrite D2, C2.
        setoid_rewrite elem_of_cons. naive_solver.
      * destruct Hr as (t' & a & Hin & Hr). exists t', a. split; [by right|done].
      * destruct Hr as (t' & Hin & Hr). exists t'. split; [by right|done].
    + eexists. split; [reflexivity|]. destruct Hr as (a & Hr). exists t, a. split; [by left|done].
  - unfold search_fuel. cbn [collect_dependencies]. rewrite Ec, bind_Ret.
    eexists. split; [reflexivity|]. exists t. split; [by left|done].
Qed.

Lemma closed_empty l : closed l ∅.
Proof. split; [set_solver|]. intros a Ha. set_solver. Qed.
End collect_spec.

(** What foundry-compilers documents of bytecode: [code_ok] objects have
    unresolved placeholders exactly while they have references; linking a
    library resolves its references and no other; a checksummed address reads
    back. *)
Class BytecodeLaws {ops : BytecodeOps} := {
  code_ok : Code → Prop;
  has_ref (c : Code) (ref : string * string) : Prop :=
    ∃ names, link_references c !! ref.1 = Some names ∧ ref.2 ∈ names;
  link_ok : ∀ c f n a, code_ok c → code_ok (code_link c f n a);
  link_ref : ∀ c f n a ref, code_ok c →
    has_ref (code_link c f n a) ref ↔ has_ref c ref ∧ ref ≠ (f, n);
  unlinked_ref : ∀ c, code_ok c → is_unlinked c = true ↔ ∃ ref, has_ref c ref;
  linked_bytes : ∀ c, code_ok c → is_unlinked c = false → is_Some (code_bytes c);
  checksum_reads : ∀ a, addr_from_str (to_checksum a) = Ok a
}.

Section link_spec.
Context {ops : BytecodeOps} {laws : BytecodeLaws} {sorder : HashOrder string} {porder : HashOrder Path}.
Implicit Types (l : Linker) (id target : ArtifactId).

Lemma library_list_elem (libs : Libraries) p n a :
  (p, n, a) ∈ library_list libs ↔ ∃ m, libs !! p = Some m ∧ m !! n = Some a.
Proof.
  unfold library_list. rewrite list_elem_of_bind. split.
  - intros ([p' m] & Hin & Hp). apply map_pairs_elem in Hp.
    apply list_elem_of_fmap in Hin as ([n' a'] & [= -> -> ->] & Hn). apply map_pairs_elem in Hn. eauto.
  - intros (m & Hp & Hn). exists (p, m). split; [|by apply map_pairs_elem].
    apply list_elem_of_fmap. exists (n, a). split; [done|]. by apply map_pairs_elem.
Qed.

(** The code of a linked contract: resolved are the references to the entries. *)
Lemma link_entries_spec entries : ∀ c,
  (∀ p n a, (p, n, a) ∈ entries → ∃ x, addr_from_str a = Ok x) →
  ∃ c', link_entries c entries = Ok c' ∧
    match ct_bytecode c, ct_bytecode c' with
    | Some b, Some b' => code_ok b → code_ok b' ∧ ∀ ref, has_ref b' ref ↔
        has_ref b ref ∧ ∀ p n a, (p, n, a) ∈ entries → ref ≠ (path_str p, n)
    | None, None => True
    | _, _ => False
    end.
Proof.
  induction entries as [|[[p n] a] entries IH]; intros c Hok; cbn [link_entries].
  { exists c. split; [done|]. destruct (ct_bytecode c); [|done]. intros Hc. split; [done|].
    intros ref. split; [|by intros []]. intros H. split; [done|]. by intros ? ? ? Hin%elem_of_nil. }
  destruct (Hok p n a) as [x ->]; [by left|].
  destruct (IH (link_contract c p n x)) as (c' & -> & Hc'); [intros; eapply Hok; by right|].
  exists c'. split; [done|]. cbn [link_contract ct_bytecode] in Hc'.
  destruct (ct_bytecode c) as [b|]; simpl in Hc'; [|done].
  destruct (ct_bytecode c') as [b'|]; [|done]. intros Hb.
  destruct (Hc' (link_ok _ _ _ _ Hb)) as [Hb' Href]. split; [done|].
  intros ref. rewrite Href, link_ref by done. split.
  - intros [[H1 H2] H3]. split; [done|]. intros p' n' a' [[= -> -> ->]|Hin]%elem_of_cons; eauto.
  - intros [H1 H2]. split_and!; [done|eapply H2; by left|]. intros p' n' a' Hin. eapply H2. by right.
Qed.

(** The addition of a library. *)
Lemma add_library_lookup (libs : Libraries) key a p n :
  (add_library libs key a !! p ≫= λ m, m !! n) =
    if decide ((p, n) = key) then Some a else libs !! p ≫= λ m, m !! n.
Proof.
  destruct key as [kp kn]. unfold add_library; simpl.
  destruct (decide (p = kp)) as [->|Hp].
  - rewrite lookup_insert_eq; simpl. case_decide; simplify_eq.
    + by rewrite lookup_insert_eq.
    + rewrite lookup_insert_ne by naive_solver.
      by destruct (libs !! kp); simpl; [|rewrite lookup_empty].
  - rewrite lookup_insert_ne by done. by rewrite decide_False by naive_solver.
Qed.

Definition library_at (libs : Libraries) (key : Path * string) : option string :=
  libs !! key.1 ≫= λ m, m !! key.2.

Lemma has_library_spec (libs : Libraries) key :
  has_library libs key = true ↔ is_Some (library_at libs key).
Proof. unfold has_library. by rewrite bool_decide_eq_true. Qed.

Lemma library_at_list (libs : Libraries) p n a :
  (p, n, a) ∈ library_list libs ↔ library_at libs (p, n) = Some a.
Proof.
  rewrite library_list_elem. unfold library_at; simpl.
  destruct (libs !! p) as [m|]; simpl; naive_solver.
Qed.

Lemma add_library_at (libs : Libraries) key a key' :
  library_at (add_library libs key a) key' =
    if decide (key' = key) then Some a else library_at libs key'.
Proof. destruct key' as [p n]. apply add_library_lookup. Qed.

Definition readable (libs : Libraries) : Prop :=
  ∀ key a, library_at libs key = Some a → ∃ x, addr_from_str a = Ok x.

Lemma add_library_readable (libs : Libraries) key x :
  readable libs → readable (add_library libs key (to_checksum x)).
Proof.
  intros Hr key' a. rewrite add_library_at. case_decide; [|apply Hr].
  intros [= <-]. exists x. apply checksum_reads.
Qed.

(** Linking an artifact with readable libraries. *)
Lemma link_known l id c b libs :
  contracts l !! id = Some c → ct_bytecode c = Some b → code_ok b → readable libs →
  ∃ c' b', link l id libs = Ok c' ∧ ct_bytecode c' = Some b' ∧ code_ok b' ∧
    ∀ ref, has_ref b' ref ↔ has_ref b ref ∧
      ∀ p, ref.1 = path_str p → library_at libs (p, ref.2) = None.
Proof.
  intros Ec Eb Hb Hr. unfold link. rewrite Ec.
  destruct (link_entries_spec (library_list libs) c) as (c' & E & H).
  { intros p n a Hin%library_at_list. by eapply Hr. }
  rewrite Eb in H. destruct (ct_bytecode c') as [b'|] eqn:Eb'; [|done].
  destruct (H Hb) as [Hb' Href]. exists c', b'. split_and!; try done.
  intros [f n]. rewrite Href. split; intros [H1 H2]; (split; [done|]); simpl in *.
  - intros p ->. apply eq_None_not_Some. intros [a Ha%library_at_list]. by eapply H2.
  - intros p n' a Hin%library_at_list [= -> ->]. by rewrite (H2 p eq_refl) in Hin.
Qed.
End link_spec.

(** *** Addresses from the nonce *)

Section nonce_spec.
Context {ops : BytecodeOps} {laws : BytecodeLaws} {iorder : HashOrder ArtifactId}
  {sorder : HashOrder string} {porder : HashOrder Path}.
Implicit Types (l : Linker) (id target : ArtifactId) (libs : Libraries).
Abbreviation key := convert_artifact_id_to_lib_path.

(** A library with consistent bytecode, whose references the search sees and
    whose files are written the way the linker writes them. *)
Definition sound_library l id : Prop :=
  ∃ c b, contracts l !! id = Some c ∧ ct_bytecode c = Some b ∧ code_ok b ∧
    ∀ ref, has_ref b ref → refers l id ref ∧ path_str (path_of ref.1) = ref.1.

(** A library is fully linked when everything it needs has an address. *)
Lemma linked_fully l needed libs id :
  settled l needed id (all_references l id) → sound_library l id → readable libs →
  (∀ a, a ∈ needed → is_Some (library_at libs (key l a))) →
  ∃ c' b' code, link l id libs = Ok c' ∧ ct_bytecode c' = Some b' ∧ is_unlinked b' = false ∧
    code_bytes b' = Some code.
Proof.
  intros Hset (c & b & Ec & Eb & Hb & Hrefs) Hr Hall.
  destruct (link_known l id c b libs Ec Eb Hb Hr) as (c' & b' & E & Eb' & Hb' & Href).
  assert (is_unlinked b' = false) as Hl.
  { apply not_true_is_false. intros [[f n] Hx]%(unlinked_ref b' Hb').
    apply Href in Hx as [Hx Hnone]; simpl in *.
    destruct (Hrefs _ Hx) as [Hrefers Hnorm]; simpl in Hnorm.
    destruct (Hset _ (refers_all _ _ _ Hrefers)) as (d & Ed & Hd).
    apply find_known in Ed as [_ Ek]; simpl in Ek. specialize (Hall d Hd). rewrite Ek in Hall.
    rewrite (Hnone (path_of f) (eq_sym Hnorm)) in Hall. by destruct Hall. }
  destruct (linked_bytes b' Hb' Hl) as [code Ecode]. by exists c', b', code.
Qed.

(** The effect of choosing addresses for [ids]. *)
Record assigned l (sender nonce : Z) libs (ids : list ArtifactId) libs'
    (to_deploy : list (ArtifactId * Z)) : Prop := {
  as_kept : ∀ k a, library_at libs k = Some a → library_at libs' k = Some a;
  as_all : ∀ id, id ∈ ids → is_Some (library_at libs' (key l id));
  as_new : ∀ k a, library_at libs' k = Some a → library_at libs k = Some a ∨
    ∃ id x, (id, x) ∈ to_deploy ∧ k = key l id ∧ a = to_checksum x;
  as_deploy : ∀ i id x, to_deploy !! i = Some (id, x) →
    id ∈ ids ∧ x = create sender (wrap 64 (nonce + Z.of_nat i)) ∧ library_at libs (key l id) = None ∧
    library_at libs' (key l id) = Some (to_checksum x);
  as_readable : readable libs → readable libs'
}.

Lemma assign_spec l sender nonce libs ids :
  is_u 64 nonce →
  ∃ libs' to_deploy,
    foldl (assign_address l sender) (libs, [], nonce) ids =
      (libs', to_deploy, wrap 64 (nonce + Z.of_nat (length to_deploy))) ∧
    assigned l sender nonce libs ids libs' to_deploy.
Proof.
  intros Hn. induction ids as [|id ids IH] using rev_ind.
  { exists libs, []. simpl. rewrite Z.add_0_r, wrap_small by done. split; [done|].
    split; try done; [by intros ? ?%elem_of_nil|naive_solver]. }
  destruct IH as (libs1 & dep & E & [K A N D R]). rewrite foldl_app, E.
  cbn [foldl]. unfold assign_address. destruct (has_library libs1 (key l id)) eqn:Eh.
  - apply has_library_spec in Eh. exists libs1, dep. split; [done|].
    split; try done.
    + intros id'. rewrite elem_of_app, list_elem_of_singleton. intros [Hin| ->]; [by apply A|done].
    + intros i id' x Hx. destruct (D i id' x Hx) as (? & ? & ? & ?).
      split_and!; try done. apply elem_of_app. by left.
  - assert (library_at libs1 (key l id) = None) as Hnone.
    { apply eq_None_not_Some. rewrite <- has_library_spec. by rewrite Eh. }
    set (x := create sender _).
    exists (add_library libs1 (key l id) (to_checksum x)), (dep ++ [(id, x)]).
    rewrite length_app, Nat2Z.inj_add. split.
    { f_equal. rewrite wrap_add_l by lia. f_equal. simpl. lia. }
    split.
    + intros k a Hk. rewrite add_library_at. case_decide as Hd; [|by apply K].
      subst. apply K in Hk. congruence.
    + intros id' Hin. rewrite add_library_at. case_decide; [by eauto|].
      rewrite elem_of_app, list_elem_of_singleton in Hin. destruct Hin as [Hin| ->]; [by apply A|done].
    + intros k a. rewrite add_library_at. case_decide as Hd.
      * intros [= <-]. right. exists id, x. split_and!; [|done|done]. apply elem_of_app. right. by left.
      * intros Hk. destruct (N k a Hk) as [?|(id' & x' & Hin & ? & ?)]; [by left|right].
        exists id', x'. split_and!; try done. apply elem_of_app. by left.
    + intros i id' x' Hx. apply lookup_app_Some in Hx as [Hx|[Hle Hx]].
      * destruct (D i id' x' Hx) as (D1 & D2 & D3 & D4). split_and!; try done.
        -- apply elem_of_app. by left.
        -- rewrite add_library_at. case_decide as Hd; [|done]. rewrite Hd in D4. congruence.
      * apply list_lookup_singleton_Some in Hx as [Hi [= <- <-]].
        assert (i = length dep) as -> by lia. split_and!.
        -- apply elem_of_app. right. by left.
        -- done.
        -- apply eq_None_not_Some. intros [a Ha%K]. congruence.
        -- by rewrite add_library_at, decide_True.
    + intros Hr. by apply add_library_readable, R.
Qed.

(** The bytecode [code] is the library [id] fully linked with [libs]. *)
Definition deployable l libs id (code : list Z) : Prop :=
  ∃ c b, link l id libs = Ok c ∧ ct_bytecode c = Some b ∧ is_unlinked b = false ∧
    code_bytes b = Some code.

Lemma linked_codes_spec l libs ids :
  (∀ id, id ∈ ids → ∃ code, deployable l libs id code) →
  ∃ codes, linked_codes l libs ids = Ret (Ok codes) ∧ Forall2 (deployable l libs) ids codes.
Proof.
  induction ids as [|id ids IH]; intros Hall; cbn [linked_codes]; [eexists; split; [done|constructor]|].
  destruct (Hall id ltac:(by left)) as (code & c & b & E & Eb & Hl & Ecode).
  destruct IH as (codes & -> & Hf); [intros; apply Hall; by right|].
  rewrite E, Eb. cbn [mbind option_bind]. rewrite Ecode. cbn [expect]. rewrite !bind_Ret.
  eexists. split; [reflexivity|]. constructor; [by exists c, b|done].
Qed.
End nonce_spec.

(** *** CREATE2 *)

Section create2_spec.
Context {ops : BytecodeOps} {laws : BytecodeLaws} {iorder : HashOrder ArtifactId}
  {sorder : HashOrder string} {porder : HashOrder Path}.
Implicit Types (l : Linker) (id target : ArtifactId) (libs : Libraries).
Abbreviation key := convert_artifact_id_to_lib_path.
Context (sender salt : Z).

(** The libraries of an address are the provided ones and those whose code was
    deployed at the address of that code. *)
Definition at_code_address libs0 libs (deploy : list (list Z)) : Prop :=
  ∀ k a, library_at libs k = Some a → library_at libs0 k = Some a ∨
    ∃ code, code ∈ deploy ∧ a = to_checksum (create2_from_code sender salt code).

(** The invariant of the loop: [needed0] are all libraries needed, [libs0] the
    provided ones. *)
Record create2_inv l (needed0 : gset ArtifactId) libs0 (s : Create2State) : Prop := {
  ci_readable : readable (c2_libraries s);
  ci_kept : ∀ k a, library_at libs0 k = Some a → library_at (c2_libraries s) k = Some a;
  ci_todo : ∀ id b, (id, b) ∈ c2_needed s → id ∈ needed0 ∧ library_at libs0 (key l id) = None ∧
    code_ok b ∧ ∀ ref, has_ref b ref → refers l id ref ∧ path_str (path_of ref.1) = ref.1 ∧
      library_at (c2_libraries s) (path_of ref.1, ref.2) = None;
  ci_split : ∀ id, id ∈ needed0 →
    is_Some (library_at (c2_libraries s) (key l id)) ∨ id ∈ (c2_needed s).*1;
  ci_deploy : Forall (λ code, ∃ b, code_ok b ∧ (∀ ref, ¬ has_ref b ref) ∧ code_bytes b = Some code)
    (c2_deploy s);
  ci_new : at_code_address libs0 (c2_libraries s) (c2_deploy s)
}.

Lemma at_code_address_readable libs0 libs deploy :
  readable libs0 → at_code_address libs0 libs deploy → readable libs.
Proof.
  intros Hr Ha k a [Hk|(code & _ & ->)]%Ha; [by eapply Hr|]. eexists. apply checksum_reads.
Qed.

(** The answer of the linker. *)
Definition create2_result l (needed0 : gset ArtifactId) libs0
    (r : result LinkOutput LinkerError) : Prop :=
  match r with
  | Ok out =>
      (∀ id, id ∈ needed0 → is_Some (library_at (libraries out) (key l id))) ∧
      (∀ k a, library_at libs0 k = Some a → library_at (libraries out) k = Some a) ∧
      Forall (λ code, ∃ b, code_ok b ∧ (∀ ref, ¬ has_ref b ref) ∧ code_bytes b = Some code)
        (libs_to_deploy out) ∧
      at_code_address libs0 (libraries out) (libs_to_deploy out)
  | Err CyclicDependency => ∃ R : list ArtifactId, R ≠ [] ∧
      ∀ x, x ∈ R → x ∈ needed0 ∧ ∃ y, y ∈ R ∧ depends l x y
  | Err _ => False
  end.

(** No library is fully linked: each of them needs another one. *)
Lemma create2_cycle l needed0 libs0 s :
  closed l needed0 → create2_inv l needed0 libs0 s → c2_needed s ≠ [] →
  list_find (λ e : ArtifactId * Code, is_unlinked e.2 = false) (c2_needed s) = None →
  create2_result l needed0 libs0 (Err CyclicDependency).
Proof.
  intros [_ Hset] [Hr Hk Ht Hs _ _] Hne Hf. apply list_find_None in Hf. rewrite Forall_forall in Hf.
  exists (c2_needed s).*1. split; [by destruct (c2_needed s)|].
  intros x ([x' b] & -> & Hin)%list_elem_of_fmap. simpl.
  destruct (Ht x' b Hin) as (H1 & _ & H3 & H4). split; [done|].
  specialize (Hf _ Hin). simpl in Hf. apply not_false_is_true, (unlinked_ref b H3) in Hf as [ref Href].
  destruct (H4 ref Href) as (Hrefers & _ & Hnone).
  destruct (Hset x' H1 ref (refers_all _ _ _ Hrefers)) as (d & Ed & Hd). exists d.
  split; [|by exists ref]. destruct (Hs d Hd) as [Hlib|?]; [|done].
  apply find_known in Ed as [_ Ek]. rewrite Ek, Hnone in Hlib. by destruct Hlib.
Qed.

(** Deploying a fully linked library keeps the invariant. *)
Lemma create2_deploy l needed0 libs0 s index id b code :
  create2_inv l needed0 libs0 s → c2_needed s !! index = Some (id, b) → is_unlinked b = false →
  code_bytes b = Some code →
  let address := create2_from_code sender salt code in
  create2_inv l needed0 libs0
    {| c2_needed := (λ e, (e.1, code_link e.2 (path_str (key l id).1) (key l id).2 address)) <$>
                      swap_remove index (c2_needed s);
       c2_libraries := add_library (c2_libraries s) (key l id) (to_checksum address);
       c2_deploy := c2_deploy s ++ [code] |}.
Proof.
  intros [Hr Hk Ht Hs Hd Hnw] Hi Hl Hc address. pose proof (swap_remove_perm _ _ _ Hi) as Hp.
  destruct (Ht id b) as (_ & Hnew & Hb & _); [by eapply list_elem_of_lookup_2|].
  remember (key l id) as k eqn:Ek. split; cbn [c2_libraries c2_needed c2_deploy].
  - by apply add_library_readable.
  - intros k' a Hka. rewrite add_library_at. case_decide; [congruence|by apply Hk].
  - intros id' b'. rewrite list_elem_of_fmap. intros ([id0 b0] & [= -> ->] & Hin).
    destruct (Ht id0 b0) as (H1 & H2 & H3 & H4); [rewrite <- Hp; by right|].
    split_and!; [done|done|by apply link_ok|]. intros ref [Href Hne]%link_ref; [|done].
    destruct (H4 ref Href) as (Hrefers & Hnorm & Hnone). split_and!; [done|done|].
    rewrite add_library_at.
    case_decide as Hd'; [|done]. exfalso. apply Hne.
    rewrite <- Hd'. cbn [fst snd]. rewrite Hnorm. by destruct ref.
  - intros id' [Hin|Hin]%Hs.
    + left. rewrite add_library_at. case_decide; [by eauto|done].
    + rewrite add_library_at. case_decide as Hd'; [by left; eauto|right].
      apply list_elem_of_fmap in Hin as ([id0 b0] & -> & Hin).
      rewrite <- Hp in Hin. apply elem_of_cons in Hin as [[= -> ->]|Hin]; [done|].
      apply list_elem_of_fmap. exists (id0, code_link b0 (path_str k.1) k.2 address). split; [done|].
      apply list_elem_of_fmap. by exists (id0, b0).
  - apply Forall_app. split; [done|]. constructor; [|constructor]. exists b. split_and!; try done.
    intros ref Href. assert (is_unlinked b = true) as Hu by (apply unlinked_ref; eauto). congruence.
  - intros k' a. rewrite add_library_at. case_decide; intros Hka.
    + right. exists code. split; [|by simplify_eq]. apply elem_of_app. right. by left.
    + destruct (Hnw k' a Hka) as [?|(code' & ? & ->)]; [by left|].
      right. exists code'. split; [|done]. apply elem_of_app. by left.
Qed.

Lemma create2_loop l needed0 libs0 s fuel :
  closed l needed0 → create2_inv l needed0 libs0 s → (length (c2_needed s) < fuel)%nat →
  ∃ r, run fuel (create2_body l sender salt) s = Ret r ∧ create2_result l needed0 libs0 r.
Proof.
  intros Hcl. apply (run_spec (create2_inv l needed0 libs0) _ (λ s, length (c2_needed s))).
  clear s. intros s Hi. unfold create2_body.
  destruct (c2_needed s) as [|e rest] eqn:En.
  { right. eexists. split; [reflexivity|]. destruct Hi as [_ Hk _ Hs Hd Hnw]. split_and!; [|done|done|done].
    intros id Hid. destruct (Hs id Hid) as [?|Hin]; [done|]. rewrite En in Hin.
    by apply elem_of_nil in Hin. }
  rewrite <- En. destruct (list_find _ (c2_needed s)) as [[index [id b]]|] eqn:Ef.
  - left. apply list_find_Some in Ef as (Hix & Hl & _). simpl in Hl.
    destruct (ci_todo _ _ _ _ Hi id b) as (_ & _ & Hb & _); [by eapply list_elem_of_lookup_2|].
    destruct (linked_bytes b Hb Hl) as [code Ec]. rewrite Ec. cbn [expect]. rewrite bind_Ret.
    eexists. split; [reflexivity|]. split; [by apply create2_deploy with b|]. cbn [c2_needed].
    rewrite length_fmap. rewrite <- (swap_remove_perm _ _ _ Hix) at 2. simpl. lia.
  - right. eexists. split; [reflexivity|]. eapply create2_cycle; [done|done| |done]. by rewrite En.
Qed.

(** The libraries that are not provided, linked with the provided ones. *)
Lemma initial_needed_spec l (needed0 : gset ArtifactId) libs ids :
  readable libs → (∀ id, id ∈ ids → id ∈ needed0 ∧ sound_library l id) →
  ∃ needed, initial_needed l libs ids = Ret needed ∧
    (∀ id b, (id, b) ∈ needed → id ∈ needed0 ∧ library_at libs (key l id) = None ∧ code_ok b ∧
       ∀ ref, has_ref b ref → refers l id ref ∧ path_str (path_of ref.1) = ref.1 ∧
         library_at libs (path_of ref.1, ref.2) = None) ∧
    (∀ id, id ∈ ids → is_Some (library_at libs (key l id)) ∨ id ∈ needed.*1).
Proof.
  intros Hr. induction ids as [|id ids IH]; intros Hall; cbn [initial_needed].
  { exists []. split_and!; [done|by intros ? ? ?%elem_of_nil|by intros ? ?%elem_of_nil]. }
  destruct IH as (needed & E & N1 & N2); [intros; apply Hall; by right|].
  destruct (Hall id ltac:(by left)) as (Hin & c & b & Ec & Eb & Hb & Hrefs).
  destruct (has_library libs (key l id)) eqn:Eh.
  - apply has_library_spec in Eh. exists needed. split_and!; [done|done|].
    intros id' [->|Hid]%elem_of_cons; [by left|by apply N2].
  - assert (library_at libs (key l id) = None) as Hnone.
    { apply eq_None_not_Some. rewrite <- has_library_spec. by rewrite Eh. }
    destruct (link_known l id c b libs Ec Eb Hb Hr) as (c' & b' & -> & -> & Hb' & Href).
    cbn [expect]. rewrite E, !bind_Ret. eexists. split; [reflexivity|]. split.
    + intros id' b''. rewrite elem_of_cons. intros [[= -> ->]|Hx]; [|by apply N1].
      split_and!; try done. intros ref [Hx Hn]%Href. destruct (Hrefs ref Hx) as [H1 H2].
      split_and!; [done|done|]. by apply Hn.
    + intros id'. rewrite elem_of_cons. cbn [fmap list_fmap]. rewrite elem_of_cons.
      intros [->|Hid]; [right; by left|]. destruct (N2 id' Hid); [by left|right; by right].
Qed.
End create2_spec.

(** ** Properties *)

(** the search for libraries always ends; it succeeds exactly with the
    libraries reachable from the target along the references of the contracts,
    and otherwise names a reference of a reachable contract that no artifact
    answers, or reports that the target is unknown. *)
Theorem collect_dependencies_correct {ops : BytecodeOps} {iorder : HashOrder ArtifactId}
    {sorder : HashOrder string} (l : Linker) (target : ArtifactId) :
  ∃ r, collect_dependencies (search_fuel l) l target ∅ = Ret r ∧
  match r with
  | Ok deps => is_Some (contracts l !! target) ∧ ∀ id, id ∈ deps ↔ tc (depends l) target id
  | Err MissingTargetArtifact => contracts l !! target = None
  | Err (MissingLibraryArtifact file name) =>
      ∃ a, rtc (depends l) target a ∧ refers l a (file, name) ∧ resolve l a (file, name) = None
  | Err _ => False
  end.
Proof.
  destruct (contracts l !! target) as [c|] eqn:Ec.
  - destruct (collect_closed l target ∅) as (r & E & Hr);
      [by eapply elem_of_dom_2|apply closed_empty|]. exists r. split; [done|].
    destruct r as [deps|[]]; try done. destruct Hr as (_ & _ & Hr). split; [eauto|].
    intros id. rewrite Hr. set_solver.
  - unfold search_fuel. cbn [collect_dependencies]. rewrite Ec. eexists. split; [reflexivity|]. done.
Qed.

(** linking with addresses from the nonce never panics: when the libraries
    the targets need are found, each of them has an address, the given ones
    keep theirs, the others get the addresses of consecutive nonces, and the
    bytecodes to deploy are the fully linked bytecodes of the latter. *)
Theorem link_with_nonce_correct {ops : BytecodeOps} {laws : BytecodeLaws}
    {iorder : HashOrder ArtifactId} {sorder : HashOrder string} {porder : HashOrder Path}
    (strip : Path → Libraries → Libraries) (l : Linker) (libs : Libraries) (sender nonce : Z)
    (targets : list ArtifactId) :
  is_u 64 nonce → readable (strip (root l) libs) →
  (∀ t id, t ∈ targets → tc (depends l) t id → sound_library l id) →
  ∃ r, link_with_nonce_or_address strip l libs sender nonce targets = Ret r ∧
  match r with
  | Ok out => ∃ to_deploy,
      (∀ t id, t ∈ targets → tc (depends l) t id →
         is_Some (library_at (libraries out) (convert_artifact_id_to_lib_path l id))) ∧
      (∀ k a, library_at (strip (root l) libs) k = Some a → library_at (libraries out) k = Some a) ∧
      (∀ i id x, to_deploy !! i = Some (id, x) →
         x = create sender (wrap 64 (nonce + Z.of_nat i)) ∧
         library_at (strip (root l) libs) (convert_artifact_id_to_lib_path l id) = None ∧
         library_at (libraries out) (convert_artifact_id_to_lib_path l id) = Some (to_checksum x)) ∧
      Forall2 (deployable l (libraries out)) to_deploy.*1 (libs_to_deploy out)
  | Err MissingTargetArtifact => ∃ t, t ∈ targets ∧ contracts l !! t = None
  | Err (MissingLibraryArtifact file name) => ∃ t a, t ∈ targets ∧
      rtc (depends l) t a ∧ refers l a (file, name) ∧ resolve l a (file, name) = None
  | Err _ => False
  end.
Proof.
  intros Hn Hr Hsound. unfold link_with_nonce_or_address.
  destruct (collect_all_spec l targets ∅ (closed_empty l)) as (r & -> & Hc). rewrite bind_Ret.
  destruct r as [needed|[]]; try done; try (eexists; split; [reflexivity|exact Hc]).
  destruct Hc as [Hcl Hneeded].
  destruct (assign_spec l sender nonce (strip (root l) libs) (set_iter needed) Hn)
    as (libs' & dep & -> & [K A N D R]).
  destruct (linked_codes_spec l libs' dep.*1) as (codes & -> & Hcodes).
  { intros id ([id' x] & -> & Hin)%list_elem_of_fmap. simpl.
    apply list_elem_of_lookup in Hin as [i Hi]. destruct (D i id' x Hi) as (Hin & _).
    apply set_iter_elem_of in Hin. pose proof Hin as Hin'.
    apply Hneeded in Hin' as [?|(t & Ht & Htc)]; [set_solver|].
    destruct (linked_fully l needed libs' id' (proj2 Hcl id' Hin) (Hsound t id' Ht Htc) (R Hr))
      as (c & b & code & ?); [intros a Ha; apply A; by apply set_iter_elem_of|].
    by exists code, c, b. }
  rewrite bind_Ret. eexists. split; [reflexivity|]. exists dep. simpl. split_and!; try done.
  - intros t id Ht Htc. apply A, set_iter_elem_of, Hneeded. right. eauto.
  - intros i id x Hi. destruct (D i id x Hi) as (_ & ? & ? & ?). done.
Qed.

(** C32: if the given addresses can be read, and every library the target needs is
    sound (its creation code is there and readable, every library that code
    refers to is one the search follows, which reads the deployed code's
    references too, and its file is written the way the linker writes it), then
    linking for CREATE2 ends without a panic: either every library the target
    needs gets an address, in an order in which each is fully linked when it is
    deployed, the given addresses stay, every other one is the CREATE2 address of
    a deployed code, and the target, if it is sound too, has no reference left
    when it is linked with the answer; or it reports a cyclic dependency, and then some of the
    libraries each need another one of them; or the target or a library it refers
    to cannot be found. *)
Theorem link_with_create2_correct {ops : BytecodeOps} {laws : BytecodeLaws}
    {iorder : HashOrder ArtifactId} {sorder : HashOrder string} {porder : HashOrder Path}
    (strip : Path → Libraries → Libraries) (l : Linker) (libs : Libraries) (sender salt : Z)
    (target : ArtifactId) :
  readable (strip (root l) libs) → (∀ id, tc (depends l) target id → sound_library l id) →
  ∃ r, link_with_create2 strip l libs sender salt target = Ret r ∧
  match r with
  | Ok out =>
      (∀ id, tc (depends l) target id →
         is_Some (library_at (libraries out) (convert_artifact_id_to_lib_path l id))) ∧
      (∀ k a, library_at (strip (root l) libs) k = Some a → library_at (libraries out) k = Some a) ∧
      Forall (λ code, ∃ b, code_ok b ∧ (∀ ref, ¬ has_ref b ref) ∧ code_bytes b = Some code)
        (libs_to_deploy out) ∧
      at_code_address sender salt (strip (root l) libs) (libraries out) (libs_to_deploy out) ∧
      (sound_library l target → ∃ c b, link l target (libraries out) = Ok c ∧
         ct_bytecode c = Some b ∧ is_unlinked b = false)
  | Err CyclicDependency => ∃ R : list ArtifactId, R ≠ [] ∧
      ∀ x, x ∈ R → tc (depends l) target x ∧ ∃ y, y ∈ R ∧ depends l x y
  | Err MissingTargetArtifact => contracts l !! target = None
  | Err (MissingLibraryArtifact file name) =>
      ∃ a, rtc (depends l) target a ∧ refers l a (file, name) ∧ resolve l a (file, name) = None
  | Err _ => False
  end.
Proof.
  intros Hr Hsound. unfold link_with_create2.
  destruct (contracts l !! target) as [c|] eqn:Ec.
  2: { unfold search_fuel. cbn [collect_dependencies]. rewrite Ec, bind_Ret.
       eexists. split; [reflexivity|]. done. }
  destruct (collect_closed l target ∅) as (r & -> & Hc);
    [by eapply elem_of_dom_2|apply closed_empty|]. rewrite bind_Ret.
  destruct r as [needed|[]]; try done; try (eexists; split; [reflexivity|exact Hc]).
  destruct Hc as (Hcl & Hset & Hneeded).
  assert (∀ id, id ∈ needed ↔ tc (depends l) target id) as Hn
    by (intros id; rewrite Hneeded; set_solver).
  destruct (initial_needed_spec l needed (strip (root l) libs) (set_iter needed) Hr)
    as (todo & -> & N1 & N2).
  { intros id Hin%set_iter_elem_of. split; [done|]. by apply Hsound, Hn. }
  rewrite bind_Ret.
  destruct (create2_loop sender salt l needed (strip (root l) libs)
    {| c2_needed := todo; c2_libraries := strip (root l) libs; c2_deploy := [] |}
    (S (length todo)) Hcl) as (r & -> & Hres); [|simpl; lia|].
  { split; simpl; try done; [|by left]. intros id Hin. apply N2. by apply set_iter_elem_of. }
  exists r. split; [done|]. destruct r as [out|[]]; try done.
  - destruct Hres as (R1 & R2 & R3 & R4). split_and!; try done; [intros id Hid%Hn; by apply R1|].
    intros Ht. destruct (linked_fully l needed (libraries out) target Hset Ht) as (c' & b & _ & ? & ? & ? & _);
      [by eapply at_code_address_readable|done|by exists c', b].
  - destruct Hres as (R & HR & Hall). exists R. split; [done|]. intros x Hx.
    destruct (Hall x Hx) as [? ?]. by rewrite <- Hn.
Qed.

(** Bytecode as the list of its references. *)
Record ExCode := { ec_refs : gmap string (gset string); ec_id : Z }.

Fixpoint pos_string (p : positive) : string :=
  match p with
  | xH => EmptyString
  | xO p => String slash (pos_string p)
  | xI p => String dot (pos_string p)
  end.

Fixpoint string_pos (s : string) : positive :=
  match s with
  | EmptyString => xH
  | String a s => if Ascii.eqb a slash then xO (string_pos s) else xI (string_pos s)
  end.

Lemma string_pos_string p : string_pos (pos_string p) = p.
Proof. induction p; simpl; by f_equal. Qed.

Definition ex_drop (names : gset string) (n : string) : option (gset string) :=
  if decide (names ∖ {[n]} = ∅) then None else Some (names ∖ {[n]}).

#[export] Instance ex_bytecode : BytecodeOps :=
  {| Code := ExCode; AddressError := unit; link_references := ec_refs;
     code_link := λ c f n _,
       {| ec_refs := partial_alter (λ o, o ≫= λ names, ex_drop names n) f (ec_refs c);
          ec_id := ec_id c |};
     is_unlinked := λ c, negb (bool_decide (ec_refs c = ∅));
     code_bytes := λ c, if bool_decide (ec_refs c = ∅) then Some [ec_id c] else None;
     addr_from_str := λ s, match decode (string_pos s) with Some a => Ok a | None => Err tt end;
     to_checksum := λ a, pos_string (encode a);
     create := λ sender nonce, sender * 1000 + nonce;
     create2_from_code := λ sender salt code, sender * 1000 + salt + Z.of_nat (length code) |}.

Definition ex_code_ok (c : ExCode) : Prop := ∀ f names, ec_refs c !! f = Some names → names ≠ ∅.

#[export] Program Instance ex_bytecode_laws : BytecodeLaws := {| code_ok := ex_code_ok |}.
Next Obligation.
  intros c f n a Hc f' names. simpl. rewrite lookup_partial_alter_Some.
  unfold ex_drop. intros [[-> E]|[_ E]]; [|by eapply Hc].
  destruct (ec_refs c !! f'); simpl in E; [|done]. case_decide; by simplify_eq.
Qed.
Next Obligation.
  intros c f n a [f' n'] Hc. simpl. unfold ex_drop. destruct (decide (f' = f)) as [->|Hf].
  - rewrite lookup_partial_alter_eq. split.
    + intros (names & E & Hin). destruct (ec_refs c !! f) as [ns|]; simpl in E; [|done].
      case_decide; simplify_eq. split; [exists ns; set_solver|set_solver].
    + intros [(names & -> & Hin) Hne]. simpl. rewrite decide_False by set_solver.
      eexists. split; [done|]. set_solver.
  - rewrite lookup_partial_alter_ne by done. split; [intros (ns & ? & ?)|intros [(ns & ? & ?) _]].
    + split; [by exists ns|naive_solver].
    + by exists ns.
Qed.
Next Obligation.
  intros c Hc. simpl. rewrite negb_true_iff, bool_decide_eq_false. split.
  - intros (f & names & E)%map_choose. destruct (set_choose_L names (Hc _ _ E)) as [n Hn].
    by exists (f, n), names.
  - intros ([f n] & names & E & _) He. rewrite He, lookup_empty in E. done.
Qed.
Next Obligation.
  intros c _. simpl. intros E%negb_false_iff. rewrite E. eauto.
Qed.
Next Obligation. intros a. cbn [addr_from_str to_checksum ex_bytecode]. by rewrite string_pos_string, decode_encode. Qed.

Definition ex_id (file name : string) : ArtifactId :=
  {| id_source := ["src"; file]; id_name := name; id_version := 8; id_rest := "" |}.

Definition ex_contract (code : ExCode) : Contract (ops := ex_bytecode) :=
  {| ct_bytecode := Some code; ct_deployed := None |}.

(** [T] needs [A], which needs [B]. *)
Definition ex_linker : Linker (ops := ex_bytecode) :=
  {| root := []; contracts :=
       <[ex_id "T.sol" "T" := ex_contract {| ec_refs := {["src/L.sol" := {["A"]}]}; ec_id := 1 |}]>
       (<[ex_id "L.sol" "A" := ex_contract {| ec_refs := {["src/L.sol" := {["B"]}]}; ec_id := 2 |}]>
       {[ex_id "L.sol" "B" := ex_contract {| ec_refs := ∅; ec_id := 3 |}]}) |}.

Definition ex_strip (_ : Path) (libs : Libraries) : Libraries := libs.

Definition ex_collected : gset ArtifactId := {[ex_id "L.sol" "A"; ex_id "L.sol" "B"]}.

Definition ex_search : outcome (result (gset ArtifactId) LinkerError) :=
  collect_dependencies (search_fuel ex_linker) ex_linker (ex_id "T.sol" "T") ∅.

Lemma ex_collect : ex_search = Ret (Ok ex_collected).
Proof.
  assert (match ex_search with Ret (Ok d) => bool_decide (d = ex_collected) | _ => false end = true)
    as E by (vm_compute; reflexivity).
  destruct ex_search as [[d|]| |]; try done. apply bool_decide_eq_true in E. by subst.
Qed.

Lemma ex_needed id : tc (depends ex_linker) (ex_id "T.sol" "T") id → id ∈ ex_collected.
Proof.
  intros Ht. destruct (collect_closed ex_linker (ex_id "T.sol" "T") ∅) as (r & E & Hr).
  - apply elem_of_dom, (bool_decide_unpack _). vm_compute. exact I.
  - apply closed_empty.
  - fold ex_search in E. rewrite ex_collect in E. injection E as <-. destruct Hr as (_ & _ & Hr).
    apply Hr. by right.
Qed.

Lemma ex_at_A :
  contracts ex_linker !! ex_id "L.sol" "A" =
    Some (ex_contract {| ec_refs := {["src/L.sol" := {["B"]}]}; ec_id := 2 |}).
Proof. unfold ex_linker; cbn [contracts]. by rewrite lookup_insert_ne, lookup_insert_eq. Qed.

Lemma ex_at_B :
  contracts ex_linker !! ex_id "L.sol" "B" = Some (ex_contract {| ec_refs := ∅; ec_id := 3 |}).
Proof.
  unfold ex_linker; cbn [contracts]. by rewrite !lookup_insert_ne, lookup_singleton_eq.
Qed.

(** The one reference of a bytecode with one. *)
Lemma ex_reference_list f n (i : Z) :
  reference_list (contract_references (ex_contract {| ec_refs := {[f := {[n]}]}; ec_id := i |})) =
    [(f, n)].
Proof.
  unfold contract_references, ex_contract; cbn [ct_bytecode ct_deployed link_references ex_bytecode ec_refs].
  unfold reference_list, map_pairs. cbn [set_iter elements_order]. rewrite dom_singleton_L, elements_singleton.
  cbn [omap list_omap]. rewrite lookup_singleton_eq. cbn. by rewrite elements_singleton.
Qed.

Lemma ex_sound id : tc (depends ex_linker) (ex_id "T.sol" "T") id → sound_library ex_linker id.
Proof.
  intros Ht%ex_needed. unfold ex_collected in Ht.
  assert (∀ r n, (∀ f names, ec_refs r !! f = Some names → f = "src/L.sol" ∧ names = {[n]}) →
    ex_code_ok r) as Hok by (intros r n Hr f names [_ ->]%Hr; set_solver).
  apply elem_of_union in Ht as [->%elem_of_singleton| ->%elem_of_singleton].
  - eexists _, _. split; [apply ex_at_A|]. split; [done|]. split.
    + apply (Hok _ "B"). cbn [ec_refs]. by intros f names [<- <-]%lookup_singleton_Some.
    + intros [f n] (names & E & Hin). simpl in *. apply lookup_singleton_Some in E as [<- <-].
      apply elem_of_singleton in Hin as ->. split; [|reflexivity].
      eexists. split; [apply ex_at_A|]. rewrite ex_reference_list. by left.
  - eexists _, _. split; [apply ex_at_B|]. split; [done|]. split.
    + intros f names. simpl. by rewrite lookup_empty.
    + intros [f n] (names & E & _). simpl in E. by rewrite lookup_empty in E.
Qed.

Lemma ex_readable : readable (ops := ex_bytecode) (ex_strip (root ex_linker) ∅).
Proof. intros [p n] a. unfold library_at, ex_strip; simpl. by rewrite lookup_empty. Qed.

Definition deployed_count (r : outcome (result LinkOutput (LinkerError (ops := ex_bytecode))))
    : option nat :=
  match r with Ret (Ok out) => Some (length (libs_to_deploy out)) | _ => None end.

Lemma link_with_nonce_correct_witness :
  ∃ out, link_with_nonce_or_address ex_strip ex_linker ∅ 7 4 [ex_id "T.sol" "T"] = Ret (Ok out) ∧
    length (libs_to_deploy out) = 2%nat ∧
    is_Some (library_at (libraries out) (["src"; "L.sol"], "A")).
Proof.
  assert (deployed_count (link_with_nonce_or_address ex_strip ex_linker ∅ 7 4 [ex_id "T.sol" "T"])
    = Some 2%nat) as Hc by (vm_compute; reflexivity).
  destruct (link_with_nonce_correct ex_strip ex_linker ∅ 7 4 [ex_id "T.sol" "T"]) as (r & E & Hr).
  - split; vm_compute; discriminate.
  - exact ex_readable.
  - intros t id ->%list_elem_of_singleton. apply ex_sound.
  - rewrite E in Hc. destruct r as [out|e]; [|discriminate Hc]. exists out. split; [exact E|].
    split; [by injection Hc as ->|]. destruct Hr as (dep & Hall & _).
    apply (Hall (ex_id "T.sol" "T") (ex_id "L.sol" "A")); [by left|]. apply tc_once.
    exists ("src/L.sol", "A"). split; [|apply (bool_decide_unpack _); vm_compute; exact I].
    eexists. split; [apply lookup_insert_eq|]. rewrite ex_reference_list. by left.
Defined.

Lemma link_with_create2_correct_witness :
  ∃ out, link_with_create2 ex_strip ex_linker ∅ 7 4 (ex_id "T.sol" "T") = Ret (Ok out) ∧
    length (libs_to_deploy out) = 2%nat ∧
    Forall (λ code, ∃ b : ExCode, (∀ ref, ¬ has_ref (ops := ex_bytecode) b ref) ∧
              code_bytes b = Some code) (libs_to_deploy out).
Proof.
  assert (deployed_count (link_with_create2 ex_strip ex_linker ∅ 7 4 (ex_id "T.sol" "T"))
    = Some 2%nat) as Hc by (vm_compute; reflexivity).
  destruct (link_with_create2_correct ex_strip ex_linker ∅ 7 4 (ex_id "T.sol" "T") ex_readable
    ex_sound) as (r & E & Hr).
  rewrite E in Hc. destruct r as [out|e]; [|discriminate Hc]. exists out. split; [exact E|].
  split; [by injection Hc as ->|]. destruct Hr as (_ & _ & Hf & _).
  refine (Forall_impl _ _ _ Hf _). intros code (b & _ & H1 & H2). exists b. split; [exact H1|exact H2].
Defined.

(** A contract whose constructor uses [A] and whose deployed code uses [B]. *)
Definition ex_constructor_code : ExCode :=
  {| ec_refs := {["src/L.sol" := {["A"; "B"]}]}; ec_id := 1 |}.

Definition ex_constructor_linker : Linker (ops := ex_bytecode) :=
  {| root := [];
     contracts :=
       <[ex_id "T.sol" "T" :=
           {| ct_bytecode := Some ex_constructor_code;
              ct_deployed := Some (Some {| ec_refs := {["src/L.sol" := {["B"]}]}; ec_id := 1 |}) |}]>
         (contracts ex_linker) |}.

Definition ex_lost (r : outcome (result LinkOutput (LinkerError (ops := ex_bytecode)))) : bool :=
  match r with
  | Ret (Ok out) =>
      negb (has_library (libraries out) (["src"; "L.sol"], "A")) &&
      match link ex_constructor_linker (ex_id "T.sol" "T") (libraries out) with
      | Ok c => negb (is_ok (ensure_linked c (ex_id "T.sol" "T")))
      | Err _ => false
      end
  | _ => false
  end.

(** the search loses references: a contract whose constructor uses the
    library [A] and whose deployed code uses the library [B] of the same file
    needs both, but only [B] is collected, because the references of the
    deployed bytecode replace those of the creation bytecode for that file; the
    linker succeeds without an address for [A], and the contract linked with its
    output is not fully linked. *)
Theorem creation_reference_lost :
  has_ref (ops := ex_bytecode) ex_constructor_code ("src/L.sol", "A") ∧
  ∃ out c,
    link_with_nonce_or_address ex_strip ex_constructor_linker ∅ 7 4 [ex_id "T.sol" "T"] =
      Ret (Ok out) ∧
    library_at (libraries out) (["src"; "L.sol"], "A") = None ∧
    link ex_constructor_linker (ex_id "T.sol" "T") (libraries out) = Ok c ∧
    is_ok (ensure_linked c (ex_id "T.sol" "T")) = false.
Proof.
  split; [eexists; split; [apply lookup_singleton_eq|set_solver]|].
  assert (ex_lost (link_with_nonce_or_address ex_strip ex_constructor_linker ∅ 7 4
    [ex_id "T.sol" "T"]) = true) as H by (vm_compute; reflexivity).
  destruct (link_with_nonce_or_address _ _ _ _ _ _) as [[out|]| |]; try discriminate H.
  cbn [ex_lost] in H. apply andb_true_iff in H as [H1 H2]. apply negb_true_iff in H1.
  destruct (link ex_constructor_linker (ex_id "T.sol" "T") (libraries out)) as [c|] eqn:Ec;
    [|discriminate H2].
  exists out, c. split; [reflexivity|]. split; [|split; [exact Ec|by apply negb_true_iff]].
  apply eq_None_not_Some. rewrite <- has_library_spec, H1. discriminate.
Qed.
