(* ===== verification/Ic.v ===== *)
(** * Program and instruction counters (crates/evm/core/src/ic.rs)

    [make_map] walks over a bytecode, skips the immediate bytes of the pushes,
    and relates program counters to instruction counters; [decode_instructions]
    splits the bytecode into instructions.  The table of opcodes is revm's: a
    class of which only the pushes are known. *)

From stdpp Require Import prelude gmap list.
From S2P Require Import Prelude.

Open Scope Z_scope.

Definition PUSH0 : Z := 95.
Definition PUSH1 : Z := 96.
Definition PUSH32 : Z := 127.

Definition is_push_byte (b : Z) : bool := (PUSH1 <=? b) && (b <=? PUSH32).

(** [if (PUSH1..=PUSH32).contains(&code[pc]) { code[pc] - PUSH0 }]. *)
Definition push_size (b : Z) : Z := if is_push_byte b then b - PUSH0 else 0.

(** ** The maps *)

(** [pc], [cumulative_push_size] and the map. *)
Record Walk := { wk_pc : Z; wk_push : Z; wk_map : gmap Z Z }.

(** One turn of the loop of [make_map]; the casts are to [u32]. *)
Definition make_map_body (pc_first : bool) (code : list Z) (s : Walk) : outcome (flow Walk (gmap Z Z)) :=
  if wk_pc s <? Z.of_nat (length code) then
    op ← expect (code !! Z.to_nat (wk_pc s));
    let ic := wk_pc s - wk_push s in
    let map :=
      if pc_first then <[wrap 32 (wk_pc s) := wrap 32 ic]> (wk_map s)
      else <[wrap 32 ic := wrap 32 (wk_pc s)]> (wk_map s) in
    Ret (Continue {| wk_pc := wk_pc s + push_size op + 1; wk_push := wk_push s + push_size op;
                     wk_map := map |})
  else Ret (Break (wk_map s)).

Definition make_map (pc_first : bool) (code : list Z) : outcome (gmap Z Z) :=
  _ ← assert_ (Z.of_nat (length code) <=? umax 32);
  run (S (length code)) (make_map_body pc_first code) {| wk_pc := 0; wk_push := 0; wk_map := ∅ |}.

(** [PcIcMap::new] and [IcPcMap::new]. *)
Definition pc_ic_map (code : list Z) : outcome (gmap Z Z) := make_map true code.
Definition ic_pc_map (code : list Z) : outcome (gmap Z Z) := make_map false code.

(** ** Instructions *)

(** [OpCode::new], [is_push] and [immediate_size] of revm. *)
Class OpcodeTable := {
  op_known : Z → bool;
  op_immediate_size : Z → nat;
  op_push : ∀ b, is_push_byte b = true →
    op_known b = true ∧ op_immediate_size b = Z.to_nat (b - PUSH0)
}.

Record Instruction := { in_op : option Z; in_immediate : list Z; in_pc : Z }.

(** [eyre::bail!]. *)
Inductive DecodeError : Type := IncompleteSequence.

Section decode.
Context {table : OpcodeTable}.

Definition op_new (b : Z) : option Z := if op_known b then Some b else None.

Definition immediate_size (b : Z) : nat := if op_known b then op_immediate_size b else 0.
Definition is_normal_push (b : Z) : bool := op_known b && is_push_byte b.

(** The immediate bytes after the opcode, padded with zeros if needed. *)
Definition padded_immediate (code : list Z) (next_pc size : nat) : list Z :=
  let immediate_part := take (min (next_pc + size) (length code) - next_pc) (drop next_pc code) in
  immediate_part ++ replicate (size - length immediate_part) 0.

(** One turn of the loop. *)
Definition decode_body (code : list Z) (s : nat * list Instruction)
    : outcome (flow (nat * list Instruction) (result (list Instruction) DecodeError)) :=
  let '(pc, steps) := s in
  if (pc <? length code)%nat then
    b ← expect (code !! pc);
    let next_pc := S pc in
    let size := immediate_size b in
    if negb (is_normal_push b) && (length code <? next_pc + size)%nat then
      Ret (Break (Err IncompleteSequence))
    else
      let instruction :=
        {| in_op := op_new b; in_immediate := padded_immediate code next_pc size;
           in_pc := wrap 32 (Z.of_nat pc) |} in
      Ret (Continue (next_pc + size, steps ++ [instruction])%nat)
  else Ret (Break (Ok steps)).

Definition decode_instructions (code : list Z) : outcome (result (list Instruction) DecodeError) :=
  _ ← assert_ (Z.of_nat (length code) <=? umax 32);
  run (S (length code)) (decode_body code) (0%nat, []).
End decode.

(** ** Specification *)

(** The starts of the instructions from [pc] on, with [n] bytes left. *)
Fixpoint starts_from (n : nat) (code : list Z) (pc : nat) : list nat :=
  match n with
  | O => []
  | S n =>
      match code !! pc with
      | None => []
      | Some b => pc :: starts_from n code (S pc + Z.to_nat (push_size b))
      end
  end.

Definition starts (code : list Z) : list nat := starts_from (length code) code 0.

Lemma push_size_nonneg b : 0 ≤ push_size b.
Proof. unfold push_size, is_push_byte, PUSH0, PUSH1. repeat case_match; lia. Qed.

Lemma starts_from_fuel n m code pc :
  (length code - pc ≤ n)%nat → (length code - pc ≤ m)%nat →
  starts_from n code pc = starts_from m code pc.
Proof.
  revert m pc. induction n as [|n IH]; intros [|m] pc Hn Hm; simpl; try done.
  - by rewrite lookup_ge_None_2 by lia.
  - by rewrite lookup_ge_None_2 by lia.
  - destruct (code !! pc) as [b|] eqn:E; [|done]. apply lookup_lt_Some in E.
    f_equal. apply IH; lia.
Qed.

(** The starts from an instruction on. *)
Lemma starts_from_cons code pc b :
  code !! pc = Some b →
  starts_from (length code - pc) code pc =
    pc :: starts_from (length code - (S pc + Z.to_nat (push_size b))) code (S pc + Z.to_nat (push_size b)).
Proof.
  intros E. pose proof (lookup_lt_Some _ _ _ E).
  destruct (length code - pc)%nat as [|n] eqn:En; [lia|]. simpl. rewrite E. f_equal.
  apply starts_from_fuel; lia.
Qed.

(** The walk after the starts [done], before [rest]. *)
Record walked (pc_first : bool) (code : list Z) (done rest : list nat) (s : Walk) : Prop := {
  wd_all : starts code = done ++ rest;
  wd_rest : rest = starts_from (length code - Z.to_nat (wk_pc s)) code (Z.to_nat (wk_pc s));
  wd_range : 0 ≤ wk_pc s ∧ 0 ≤ wk_push s;
  wd_ic : wk_pc s - wk_push s = Z.of_nat (length done);
  wd_below : ∀ p, p ∈ done → Z.of_nat p < wk_pc s;
  wd_map : ∀ k v, wk_map s !! k = Some v ↔ ∃ i p, done !! i = Some p ∧
    (k, v) = (if pc_first then (Z.of_nat p, Z.of_nat i) else (Z.of_nat i, Z.of_nat p))
}.

Lemma walk_step pc_first code done rest s b :
  Z.of_nat (length code) ≤ umax 32 → code !! Z.to_nat (wk_pc s) = Some b →
  walked pc_first code done rest s →
  walked pc_first code (done ++ [Z.to_nat (wk_pc s)]) (tail rest)
    {| wk_pc := wk_pc s + push_size b + 1; wk_push := wk_push s + push_size b;
       wk_map := if pc_first then <[wrap 32 (wk_pc s) := wrap 32 (wk_pc s - wk_push s)]> (wk_map s)
                 else <[wrap 32 (wk_pc s - wk_push s) := wrap 32 (wk_pc s)]> (wk_map s) |}.
Proof.
  intros Hlen Hb [Ha Hr [H0 H1] Hic Hbelow Hm]. pose proof (lookup_lt_Some _ _ _ Hb) as Hlt.
  pose proof (push_size_nonneg b) as Hps. rewrite (starts_from_cons _ _ _ Hb) in Hr.
  rewrite !wrap_small by (unfold is_u; lia). split; simpl.
  - rewrite Ha, Hr. simpl. by rewrite <- app_assoc.
  - rewrite Hr. simpl. by replace (Z.to_nat (wk_pc s + push_size b + 1))
      with (S (Z.to_nat (wk_pc s) + Z.to_nat (push_size b)))%nat by lia.
  - lia.
  - rewrite length_app. simpl. lia.
  - intros p. rewrite elem_of_app, list_elem_of_singleton. intros [Hp%Hbelow| ->]; lia.
  - intros k v.
    assert ((∃ i p, (done ++ [Z.to_nat (wk_pc s)]) !! i = Some p ∧
        (k, v) = (if pc_first then (Z.of_nat p, Z.of_nat i) else (Z.of_nat i, Z.of_nat p))) ↔
      (k, v) = (if pc_first then (wk_pc s, wk_pc s - wk_push s) else (wk_pc s - wk_push s, wk_pc s)) ∨
      wk_map s !! k = Some v) as ->.
    { rewrite Hm, Hic. setoid_rewrite lookup_snoc_Some. split.
      - intros (i & p & [[_ Hi]|[-> <-]] & E); [right; eauto|left]. rewrite Z2Nat.id in E by lia. done.
      - intros [E|(i & p & Hi & E)]; [exists (length done), (Z.to_nat (wk_pc s))|exists i, p].
        + split; [by right|]. by rewrite Z2Nat.id by lia.
        + split; [|done]. left. split; [by eapply lookup_lt_Some|done]. }
    destruct pc_first; rewrite lookup_insert_Some; split.
    + intros [[<- <-]|[_ ?]]; [by left|by right].
    + intros [[= -> ->]|Hk]; [by left|]. right. split; [|done]. intros <-.
      apply Hm in Hk as (i & p & Hi & [= E _]). apply list_elem_of_lookup_2, Hbelow in Hi. lia.
    + intros [[<- <-]|[_ ?]]; [by left|by right].
    + intros [[= -> ->]|Hk]; [by left|]. right. split; [|done]. intros <-.
      apply Hm in Hk as (i & p & Hi & [= E _]). apply lookup_lt_Some in Hi. lia.
Qed.

Lemma make_map_spec pc_first code :
  Z.of_nat (length code) ≤ umax 32 →
  ∃ m, make_map pc_first code = Ret m ∧
    ∀ k v, m !! k = Some v ↔ ∃ i p, starts code !! i = Some p ∧
      (k, v) = (if pc_first then (Z.of_nat p, Z.of_nat i) else (Z.of_nat i, Z.of_nat p)).
Proof.
  intros Hlen. unfold make_map. rewrite (proj2 (Z.leb_le _ _) Hlen). cbn [assert_]. rewrite bind_Ret.
  apply (run_spec (λ s, ∃ done rest, walked pc_first code done rest s)
    (λ m, ∀ k v, m !! k = Some v ↔ ∃ i p, starts code !! i = Some p ∧
      (k, v) = (if pc_first then (Z.of_nat p, Z.of_nat i) else (Z.of_nat i, Z.of_nat p)))
    (λ s, Z.to_nat (Z.of_nat (length code) - wk_pc s))).
  - intros s (done & rest & Hw). unfold make_map_body.
    destruct (Z.ltb_spec (wk_pc s) (Z.of_nat (length code))) as [Hlt|Hge].
    + left. destruct (lookup_lt_is_Some_2 code (Z.to_nat (wk_pc s))) as [b Hb];
        [destruct (wd_range _ _ _ _ _ Hw); lia|].
      rewrite Hb. cbn [expect]. rewrite bind_Ret. eexists. split; [reflexivity|]. split.
      * eexists _, _. by apply walk_step.
      * simpl. pose proof (push_size_nonneg b). lia.
    + right. eexists. split; [reflexivity|]. destruct Hw as [Ha Hr H0 Hic Hb Hm].
      rewrite Hr in Ha. replace (length code - Z.to_nat (wk_pc s))%nat with 0%nat in Ha by lia.
      simpl in Ha. rewrite app_nil_r in Ha. by rewrite Ha.
  - exists [], (starts code). split; simpl; try done.
    + unfold starts. by rewrite Nat.sub_0_r.
    + by intros p ?%elem_of_nil.
    + intros k v. rewrite lookup_empty. split; [done|]. intros (i & p & Hi & _). by rewrite lookup_nil in Hi.
  - simpl. lia.
Qed.

Section decode_spec.
Context {table : OpcodeTable}.

(** Only the pushes of the code have immediate bytes. *)
Definition legacy_code (code : list Z) : Prop :=
  ∀ b, b ∈ code → is_push_byte b = false → op_known b = true → op_immediate_size b = 0%nat.

Lemma immediate_size_push code b :
  legacy_code code → b ∈ code → immediate_size b = Z.to_nat (push_size b) ∧
    (is_normal_push b = is_push_byte b).
Proof.
  intros Hl Hb. unfold immediate_size, is_normal_push, push_size.
  destruct (is_push_byte b) eqn:E.
  - destruct (op_push b E) as [-> ->]. done.
  - rewrite andb_false_r. split; [|done]. destruct (op_known b) eqn:Ek; [|done]. by apply Hl.
Qed.

(** An instruction is the opcode at its counter and the bytes that follow,
    padded with zeros at the end of the code. *)
Definition decoded_at (code : list Z) (pc : nat) (i : Instruction) : Prop :=
  in_pc i = Z.of_nat pc ∧
  ∃ b, code !! pc = Some b ∧ in_op i = op_new b ∧
    length (in_immediate i) = Z.to_nat (push_size b) ∧
    ∀ k, (k < Z.to_nat (push_size b))%nat →
      in_immediate i !! k = Some (default 0 (code !! (S pc + k)%nat)).

Lemma decode_immediate (code : list Z) (pc size : nat) :
  length (padded_immediate code (S pc) size) = size ∧
  ∀ k, (k < size)%nat →
    padded_immediate code (S pc) size !! k = Some (default 0 (code !! (S pc + k)%nat)).
Proof.
  unfold padded_immediate. set (part := take _ _).
  assert (length part = min (S pc + size) (length code) - S pc)%nat as Hl
    by (unfold part; rewrite length_take, length_drop; lia).
  split; [rewrite length_app, length_replicate; lia|].
  intros k Hk. destruct (decide (k < length part)%nat) as [Hlt|Hge].
  - rewrite lookup_app_l by done. unfold part. rewrite lookup_take_lt, lookup_drop by lia.
    destruct (lookup_lt_is_Some_2 code (S pc + k)) as [x ->]; [lia|done].
  - rewrite lookup_app_r by lia. rewrite lookup_replicate_2 by lia.
    by rewrite (lookup_ge_None_2 code (S pc + k)) by lia.
Qed.

Record decoding (code : list Z) (s : nat * list Instruction) : Prop := {
  dg_starts : ∃ done, starts code = done ++ starts_from (length code - s.1) code s.1 ∧
    Forall2 (decoded_at code) done s.2
}.

Lemma decode_spec code :
  Z.of_nat (length code) ≤ umax 32 → legacy_code code →
  ∃ steps, decode_instructions code = Ret (Ok steps) ∧
    Forall2 (decoded_at code) (starts code) steps.
Proof.
  intros Hlen Hlegacy. unfold decode_instructions. rewrite (proj2 (Z.leb_le _ _) Hlen).
  cbn [assert_]. rewrite bind_Ret.
  destruct (run_spec (decoding code)
    (λ r, ∃ steps, r = Ok steps ∧ Forall2 (decoded_at code) (starts code) steps)
    (λ s, length code - s.1)%nat (decode_body code)) with (fuel := S (length code)) (s := (0%nat, @nil Instruction))
    as (r & E & steps & -> & Hs).
  - intros [pc steps] [(done & Hd & Hf)]; simpl in *. unfold decode_body.
    destruct (Nat.ltb_spec pc (length code)) as [Hlt|Hge].
    + destruct (lookup_lt_is_Some_2 code pc Hlt) as [b Hb]. rewrite Hb. cbn [expect].
      rewrite bind_Ret. cbn zeta. destruct (immediate_size_push code b Hlegacy (list_elem_of_lookup_2 _ _ _ Hb)) as [Es Ep].
      rewrite Es, Ep.
      match goal with |- context [if ?x then _ else _] => assert (x = false) as -> end.
      { unfold push_size. destruct (is_push_byte b); [done|]. apply Nat.ltb_ge. lia. }
      left. eexists. split; [reflexivity|]. simpl. split; [|lia].
      split; simpl. exists (done ++ [pc]). split.
      * rewrite Hd, (starts_from_cons _ _ _ Hb), <- app_assoc. done.
      * apply Forall2_app; [done|]. constructor; [|constructor]. split; simpl.
        { rewrite wrap_small; [done|]. unfold is_u. lia. }
        exists b. destruct (decode_immediate code pc (Z.to_nat (push_size b))) as [D1 D2].
        split_and!; [done|done|exact D1|exact D2].
    + right. eexists. split; [reflexivity|]. exists steps. split; [done|].
      rewrite Hd. replace (length code - pc)%nat with 0%nat by lia. simpl. by rewrite app_nil_r.
  - split; simpl. exists []. split; [unfold starts; by rewrite Nat.sub_0_r|constructor].
  - simpl. lia.
  - by exists steps.
Qed.
End decode_spec.

(** ** Properties *)

(** the two maps of a bytecode are inverse to each other, and the
    instruction counter is the position of the instruction: the map from
    instruction counters gives exactly the program counters of the decoded
    instructions, in order; a code longer than [u32] is refused. *)
Theorem instruction_maps_correct {table : OpcodeTable} (code : list Z) :
  Z.of_nat (length code) ≤ umax 32 → legacy_code code →
  ∃ m_pc m_ic steps,
    pc_ic_map code = Ret m_pc ∧ ic_pc_map code = Ret m_ic ∧
    decode_instructions code = Ret (Ok steps) ∧
    (∀ pc ic, m_pc !! pc = Some ic ↔ m_ic !! ic = Some pc) ∧
    (∀ i : nat, m_ic !! Z.of_nat i = in_pc <$> steps !! i) ∧
    (∀ i s, steps !! i = Some s → ∃ pc : nat, decoded_at code pc s).
Proof.
  intros Hlen Hl. destruct (make_map_spec true code Hlen) as (m1 & E1 & H1).
  destruct (make_map_spec false code Hlen) as (m2 & E2 & H2).
  destruct (decode_spec code Hlen Hl) as (steps & E3 & H3).
  exists m1, m2, steps. split_and!; [done|done|done|..].
  - intros pc ic. rewrite H1, H2. naive_solver.
  - intros i. apply option_eq. intros p. rewrite H2, fmap_Some. split.
    + intros (j & q & Hq & [= Eij ->]). assert (j = i) as -> by lia.
      destruct (Forall2_lookup_l _ _ _ _ _ H3 Hq) as (s & Hs & [Hpc _]). eauto.
    + intros (s & Hs & ->). destruct (Forall2_lookup_r _ _ _ _ _ H3 Hs) as (q & Hq & [Hpc _]).
      exists i, q. by rewrite Hpc.
  - intros i s Hs. destruct (Forall2_lookup_r _ _ _ _ _ H3 Hs) as (q & Hq & Hd). eauto.
Qed.

(** PUSH2 0xAABB; STOP; an unfinished PUSH1. *)
Definition ex_known (b : Z) : bool := is_push_byte b || (b <? 12).
Definition ex_size (b : Z) : nat := if is_push_byte b then Z.to_nat (b - PUSH0) else 0.

Lemma ex_push b : is_push_byte b = true → ex_known b = true ∧ ex_size b = Z.to_nat (b - PUSH0).
Proof. intros E. unfold ex_known, ex_size. by rewrite E. Qed.

Definition ex_table : OpcodeTable := Build_OpcodeTable ex_known ex_size ex_push.

Lemma instruction_maps_correct_witness :
  ∃ m_ic steps, ic_pc_map [97; 170; 187; 0; 96] = Ret m_ic ∧
    decode_instructions (table := ex_table) [97; 170; 187; 0; 96] = Ret (Ok steps) ∧
    m_ic !! 1 = Some 3 ∧ in_immediate <$> steps = [[170; 187]; []; [0]].
Proof.
  destruct (instruction_maps_correct (table := ex_table) [97; 170; 187; 0; 96])
    as (m1 & m2 & steps & E1 & E2 & E3 & _ & H & _).
  - vm_compute. discriminate.
  - intros b _ E _. simpl. unfold ex_size. by rewrite E.
  - exists m2, steps. split; [exact E2|]. split; [exact E3|].
    vm_compute in E3. injection E3 as <-. split; [apply (H 1%nat)|reflexivity].
Defined.
