(* ===== verification/FuzzInt.v ===== *)
(** * Integer strategies of the fuzzer (crates/evm/fuzz/src/strategies/{uint,int}.rs)

    Value trees that shrink an unsigned or a signed integer by bisection, and
    the strategies that choose the integer to start from.  Random numbers are
    inputs.  [ValueTree] is the trait of proptest: a client that follows its
    documentation simplifies a value for which the test fails and complicates
    one for which it passes. *)

From stdpp Require Import prelude list.
From S2P Require Import Prelude.

Open Scope Z_scope.

(** The trait [ValueTree]. *)
Class ValueTree (T : Type) := {
  current : T → Z;
  simplify : T → T * bool;
  complicate : T → T * bool
}.

(** ** Unsigned integers *)

Record UintValueTree := { ut_lo : Z; ut_curr : Z; ut_hi : Z; ut_fixed : bool }.

Definition uint_new (start : Z) (fixed : bool) : UintValueTree :=
  {| ut_lo := 0; ut_curr := start; ut_hi := start; ut_fixed := fixed |}.

(** Arithmetic on [U256] wraps. *)
Definition uint_reposition (t : UintValueTree) : UintValueTree * bool :=
  let interval := wrap 256 (ut_hi t - ut_lo t) in
  let new_mid := ut_lo t +w[256] interval / 2 in
  if new_mid =? ut_curr t then (t, false)
  else ({| ut_lo := ut_lo t; ut_curr := new_mid; ut_hi := ut_hi t; ut_fixed := ut_fixed t |}, true).

Definition uint_simplify (t : UintValueTree) : UintValueTree * bool :=
  if ut_fixed t || (ut_hi t <=? ut_lo t) then (t, false)
  else uint_reposition {| ut_lo := ut_lo t; ut_curr := ut_curr t; ut_hi := ut_curr t;
                          ut_fixed := ut_fixed t |}.

Definition uint_complicate (t : UintValueTree) : UintValueTree * bool :=
  if ut_fixed t || (ut_hi t <=? ut_lo t) then (t, false)
  else uint_reposition {| ut_lo := ut_curr t +w[256] 1; ut_curr := ut_curr t; ut_hi := ut_hi t;
                          ut_fixed := ut_fixed t |}.

#[export] Instance uint_tree : ValueTree UintValueTree :=
  {| current := ut_curr; simplify := uint_simplify; complicate := uint_complicate |}.

(** ** Signed integers *)

Definition I256_MIN : Z := - 2 ^ 255.
Definition I256_MAX : Z := 2 ^ 255 - 1.

(** The [I256] with the low 256 bits of [x]. *)
Definition wrap_i256 (x : Z) : Z :=
  let u := wrap 256 x in if u <? 2 ^ 255 then u else u - 2 ^ 256.

Record IntValueTree := { it_lo : Z; it_curr : Z; it_hi : Z; it_fixed : bool }.

Definition int_new (start : Z) (fixed : bool) : IntValueTree :=
  {| it_lo := 0; it_curr := start; it_hi := start; it_fixed := fixed |}.

(** Division of an [I256] truncates towards zero. *)
Definition int_reposition (t : IntValueTree) : IntValueTree * bool :=
  let interval := wrap_i256 (it_hi t - it_lo t) in
  let new_mid := wrap_i256 (it_lo t + Z.quot interval 2) in
  if new_mid =? it_curr t then (t, false)
  else ({| it_lo := it_lo t; it_curr := new_mid; it_hi := it_hi t; it_fixed := it_fixed t |}, true).

Definition magnitude_greater (lhs rhs : Z) : bool :=
  if lhs =? 0 then false else xorb (rhs <? lhs) (lhs <? 0).

Definition int_simplify (t : IntValueTree) : IntValueTree * bool :=
  if it_fixed t || negb (magnitude_greater (it_hi t) (it_lo t)) then (t, false)
  else int_reposition {| it_lo := it_lo t; it_curr := it_curr t; it_hi := it_curr t;
                         it_fixed := it_fixed t |}.

Definition int_complicate (t : IntValueTree) : IntValueTree * bool :=
  if it_fixed t || negb (magnitude_greater (it_hi t) (it_lo t)) then (t, false)
  else
    let lo :=
      if negb (it_curr t =? I256_MIN) && negb (it_curr t =? I256_MAX)
      then wrap_i256 (it_curr t + if it_hi t <? 0 then -1 else 1)
      else it_curr t in
    int_reposition {| it_lo := lo; it_curr := it_curr t; it_hi := it_hi t; it_fixed := it_fixed t |}.

#[export] Instance int_tree : ValueTree IntValueTree :=
  {| current := it_curr; simplify := int_simplify; complicate := int_complicate |}.

(** ** Strategies *)

(** [U256::from_limbs]. *)
Definition from_limbs (l0 l1 l2 l3 : Z) : Z := l0 + l1 * 2 ^ 64 + l2 * 2 ^ 128 + l3 * 2 ^ 192.

(** Two 128-bit randoms cut to [x] bits and put together. *)
Definition cut_randoms (x : Z) (higher lower : Z) : Z * Z :=
  if x <? 128 then (0, Z.land lower (2 ^ x - 1))
  else if (128 <=? x) && (x <? 256) then (Z.land higher (2 ^ (x - 128) - 1), lower)
  else (higher, lower).

Definition limbs_of (higher lower : Z) : Z :=
  let mask64 := 2 ^ 65 - 1 in
  from_limbs (wrap 64 (Z.land lower mask64)) (wrap 64 (Z.shiftr lower 64))
    (wrap 64 (Z.land higher mask64)) (wrap 64 (Z.shiftr higher 64)).

(** A fixture: the value and its size when it is an integer. *)
Record IntStrategyState := {
  st_bits : Z;
  st_fixtures : list (option (Z * Z));
  st_edge_weight : Z;
  st_fixtures_weight : Z;
  st_random_weight : Z
}.

Definition strategy_new (bits : Z) (fixtures : option (list (option (Z * Z)))) : IntStrategyState :=
  {| st_bits := bits; st_fixtures := default [] fixtures; st_edge_weight := 10;
     st_fixtures_weight := 40; st_random_weight := 50 |}.

(** The random numbers of one call of [new_tree]. *)
Record Randoms := {
  rd_bias : Z;
  rd_kind : Z;          (* the side of an edge value *)
  rd_offset : Z;
  rd_fixture : nat;
  rd_bits : Z;
  rd_higher : Z;
  rd_lower : Z;
  rd_positive : bool
}.

Definition uint_type_max (s : IntStrategyState) : Z :=
  if st_bits s <? 256 then 2 ^ st_bits s - 1 else umax 256.

Definition uint_edge (s : IntStrategyState) (r : Randoms) : UintValueTree :=
  let start := if rd_kind r =? 0 then rd_offset r
               else saturating_sub (uint_type_max s) (rd_offset r) in
  uint_new start false.

Definition uint_random (s : IntStrategyState) (r : Randoms) : UintValueTree :=
  let '(higher, lower) := cut_randoms (rd_bits r) (rd_higher r) (rd_lower r) in
  uint_new (limbs_of higher lower) false.

Definition uint_fixture (s : IntStrategyState) (r : Randoms) : UintValueTree :=
  match st_fixtures s with
  | [] => uint_random s r
  | _ =>
      match st_fixtures s !! rd_fixture r with
      | Some (Some (v, bits)) =>
          if bits =? st_bits s then uint_new v false else uint_random s r
      | _ => uint_random s r
      end
  end.

Definition uint_new_tree (s : IntStrategyState) (r : Randoms) : UintValueTree :=
  if rd_bias r <? st_edge_weight s then uint_edge s r
  else if rd_bias r <? st_edge_weight s + st_fixtures_weight s then uint_fixture s r
  else uint_random s r.

(** [I256::overflowing_from_sign_and_abs]. *)
Definition from_sign_and_abs (positive : bool) (abs : Z) : Z :=
  wrap_i256 (if positive then abs else - abs).

Definition int_edge (s : IntStrategyState) (r : Randoms) : IntValueTree :=
  let type_max := 2 ^ (st_bits s - 1) - 1 in
  let offset := rd_offset r in
  let start :=
    if rd_kind r =? 0 then wrap_i256 (from_sign_and_abs false (type_max + 1) + offset)
    else if rd_kind r =? 1 then wrap_i256 (- offset - 1)
    else if rd_kind r =? 2 then offset
    else wrap_i256 (from_sign_and_abs true type_max - offset) in
  int_new start false.

Definition int_random (s : IntStrategyState) (r : Randoms) : IntValueTree :=
  if rd_bits r =? 0 then int_new 0 false
  else
    let '(higher, lower) := cut_randoms (rd_bits r - 1) (rd_higher r) (rd_lower r) in
    int_new (from_sign_and_abs (rd_positive r) (limbs_of higher lower)) false.

Definition int_fixture (s : IntStrategyState) (r : Randoms) : IntValueTree :=
  match st_fixtures s with
  | [] => int_random s r
  | _ =>
      match st_fixtures s !! rd_fixture r with
      | Some (Some (v, bits)) =>
          if bits =? st_bits s then int_new v false else int_random s r
      | _ => int_random s r
      end
  end.

Definition int_new_tree (s : IntStrategyState) (r : Randoms) : IntValueTree :=
  if rd_bias r <? st_edge_weight s then int_edge s r
  else if rd_bias r <? st_edge_weight s + st_fixtures_weight s then int_fixture s r
  else int_random s r.

(** ** Specification *)

(** *** Shrinking *)

(** A client of the trait: the last value for which the test failed. *)
Fixpoint shrink {T} `{ValueTree T} (fails : Z → bool) (fuel : nat) (t : T) (best : Z) : option Z :=
  match fuel with
  | O => None
  | S fuel =>
      if fails (current t) then
        let '(t', more) := simplify t in
        if more then shrink fails fuel t' (current t) else Some (current t)
      else
        let '(t', more) := complicate t in
        if more then shrink fails fuel t' best else Some best
  end.

(** A tree whose states are given by the magnitudes of the lower end, the
    current value and the higher end, and which bisects between them. *)
Record Bisects {T} {vt : ValueTree T} (max : Z) (val : Z → Z) (mk : Z → Z → Z → T) : Prop := {
  bi_current : ∀ l c h, current (mk l c h) = val c;
  bi_simplify : ∀ l c h, 0 ≤ l → l ≤ c → c ≤ h → h ≤ max →
    if decide (c = l) then (simplify (mk l c h)).2 = false
    else simplify (mk l c h) = (mk l (l + (c - l) / 2) c, true);
  bi_complicate : ∀ l c h, 0 ≤ l → l ≤ c → c < h → h ≤ max →
    complicate (mk l c h) = (mk (c + 1) (c + 1 + (h - (c + 1)) / 2) h, true)
}.

(** The smallest magnitude for which the test fails. *)
Definition least_failing (fails : Z → bool) (val : Z → Z) (start x : Z) : Prop :=
  0 ≤ x ≤ start ∧ fails (val x) = true ∧ ∀ y, 0 ≤ y < x → fails (val y) = false.

(** Larger magnitudes fail when smaller ones do. *)
Definition upward (fails : Z → bool) (val : Z → Z) (start : Z) : Prop :=
  ∀ x y, 0 ≤ x → x ≤ y → y ≤ start → fails (val x) = true → fails (val y) = true.

Section bisect.
Context {T : Type} {vt : ValueTree T} {max : Z} {val : Z → Z} {mk : Z → Z → Z → T}.
Context (laws : Bisects max val mk) (fails : Z → bool).

Lemma upward_pass start c y :
  upward fails val start → fails (val c) = false → 0 ≤ y → y ≤ c → c ≤ start → fails (val y) = false.
Proof.
  intros Hu Hc H0 Hle Hs. destruct (fails (val y)) eqn:E; [|done].
  by rewrite (Hu y c H0 Hle Hs E) in Hc.
Qed.

(** The search between [l], below which the test passes, and [h], where it
    fails. *)
Lemma bisect_between k : ∀ l h,
  0 ≤ l → l < h → h ≤ max → h - l < 2 ^ Z.of_nat k →
  upward fails val h → fails (val h) = true → (∀ y, 0 ≤ y < l → fails (val y) = false) →
  ∃ x, shrink fails (k + 2) (mk l (l + (h - l) / 2) h) (val h) = Some (val x) ∧
    least_failing fails val h x.
Proof.
  induction k as [|k IH]; intros l h Hl Hlh Hmax Hk Hu Hh Hlow; [simpl in Hk; lia|].
  set (c := l + (h - l) / 2). assert (l ≤ c < h ∧ c - l < 2 ^ Z.of_nat k ∧ h - (c + 1) < 2 ^ Z.of_nat k)
    as (Hc & Hk1 & Hk2).
  { rewrite Nat2Z.inj_succ, Z.pow_succ_r in Hk by lia. unfold c. Z.div_mod_to_equations. lia. }
  assert (upward fails val c) as Huc by (intros x y ? ? ?; apply Hu; lia).
  cbn [shrink Nat.add]. rewrite (bi_current _ _ _ laws). destruct (fails (val c)) eqn:Ef.
  - pose proof (bi_simplify _ _ _ laws l c h ltac:(lia) ltac:(lia) ltac:(lia) Hmax) as Hs.
    case_decide as Hd.
    + destruct (simplify (mk l c h)) as [t' more]; simpl in Hs; subst more.
      exists c. split; [done|]. split_and!; [lia|lia|done|]. intros y Hy. apply Hlow. lia.
    + rewrite Hs. destruct (IH l c) as (x & -> & Hx); try lia; try done.
      exists x. split; [done|]. destruct Hx as (? & ? & ?). split_and!; try done; lia.
  - rewrite (bi_complicate _ _ _ laws) by lia.
    assert (∀ y, 0 ≤ y < c + 1 → fails (val y) = false) as Hlow'
      by (intros y Hy; apply (upward_pass h c); try done; lia).
    destruct (decide (c + 1 = h)) as [Hlast|Hmore].
    + rewrite Hlast, Z.sub_diag, Z.add_0_r. rewrite (Nat.add_comm k 2). cbn [shrink Nat.add].
      rewrite (bi_current _ _ _ laws), Hh.
      pose proof (bi_simplify _ _ _ laws h h h ltac:(lia) ltac:(lia) ltac:(lia) Hmax) as Hs.
      rewrite decide_True in Hs by done. destruct (simplify (mk h h h)) as [t' more]; simpl in Hs.
      subst more. exists h. split; [done|]. split_and!; [lia|lia|done|]. intros y Hy. apply Hlow'. lia.
    + destruct (IH (c + 1) h) as (x & -> & Hx); try lia; try done. by exists x.
Qed.

(** From a value for which the test fails, the client reaches the least one. *)
Lemma shrink_least k start :
  0 ≤ start ≤ max → start < 2 ^ Z.of_nat k → upward fails val start → fails (val start) = true →
  ∃ x, shrink fails (k + 3) (mk 0 start start) (val start) = Some (val x) ∧
    least_failing fails val start x.
Proof.
  intros Hs Hk Hu Hf. rewrite Nat.add_succ_r. cbn [shrink]. rewrite (bi_current _ _ _ laws), Hf.
  pose proof (bi_simplify _ _ _ laws 0 start start ltac:(lia) ltac:(lia) ltac:(lia) ltac:(lia)) as Hx.
  case_decide as Hd.
  - destruct (simplify (mk 0 start start)) as [t' more]; simpl in Hx; subst more.
    exists start. split; [done|]. split_and!; [lia|lia|done|lia].
  - rewrite Hx. apply bisect_between; try lia; try done.
Qed.
End bisect.

Definition uint_at (l c h : Z) : UintValueTree :=
  {| ut_lo := l; ut_curr := c; ut_hi := h; ut_fixed := false |}.

Lemma uint_bisects : Bisects (umax 256) id uint_at.
Proof.
  split.
  - done.
  - intros l c h H0 H1 H2 Hmax. cbn [simplify uint_tree]. unfold uint_simplify, uint_reposition; simpl.
    assert (0 ≤ (c - l) / 2 ≤ c - l) by (Z.div_mod_to_equations; lia).
    rewrite (wrap_small _ (c - l)) by (unfold is_u; lia).
    rewrite (wrap_small _ (l + (c - l) / 2)) by (unfold is_u; lia).
    destruct (Z.leb_spec h l) as [Hle|Hlt].
    + rewrite decide_True by lia. done.
    + destruct (Z.eqb_spec (l + (c - l) / 2) c) as [E|E]; case_decide as Hd; try done.
      * exfalso. Z.div_mod_to_equations; lia.
      * exfalso. apply E. rewrite Hd, Z.sub_diag, Z.div_0_l by lia. lia.
  - intros l c h H0 H1 H2 Hmax. cbn [complicate uint_tree]. unfold uint_complicate, uint_reposition; simpl.
    rewrite (wrap_small _ (c + 1)) by (unfold is_u; lia).
    assert (0 ≤ (h - (c + 1)) / 2 ≤ h - (c + 1)) by (Z.div_mod_to_equations; lia).
    rewrite (wrap_small _ (h - (c + 1))) by (unfold is_u; lia).
    rewrite (wrap_small _ (c + 1 + _)) by (unfold is_u; lia).
    destruct (Z.leb_spec h l); [lia|]. destruct (Z.eqb_spec (c + 1 + (h - (c + 1)) / 2) c); [lia|done].
Qed.

Lemma wrap_i256_small x : - 2 ^ 255 ≤ x < 2 ^ 255 → wrap_i256 x = x.
Proof.
  intros Hx. unfold wrap_i256, wrap. destruct (decide (0 ≤ x)) as [H0|H0].
  - rewrite Z.mod_small by lia. destruct (Z.ltb_spec x (2 ^ 255)); lia.
  - replace (x mod 2 ^ 256) with (x + 2 ^ 256).
    + destruct (Z.ltb_spec (x + 2 ^ 256) (2 ^ 255)); lia.
    + rewrite <- (Z.mod_add x 1) by lia. rewrite Z.mod_small; lia.
Qed.

(** The state of a signed tree with the given magnitudes; [sg] is the sign. *)
Definition int_at (sg l c h : Z) : IntValueTree :=
  {| it_lo := sg * l; it_curr := sg * c; it_hi := sg * h; it_fixed := false |}.

(** The middle of an interval of one sign. *)
Lemma int_reposition_at sg l c h :
  sg = 1 ∨ sg = -1 → 0 ≤ l → l ≤ h → h ≤ 2 ^ 255 - Z.max 0 sg →
  int_reposition (int_at sg l c h) =
    if l + (h - l) / 2 =? c then (int_at sg l c h, false)
    else (int_at sg l (l + (h - l) / 2) h, true).
Proof.
  intros Hsg H0 H1 H2. unfold int_reposition; cbn [it_lo it_hi it_curr it_fixed int_at].
  assert (0 ≤ (h - l) / 2 ≤ h - l) by (Z.div_mod_to_equations; lia).
  replace (sg * h - sg * l) with (sg * (h - l)) by lia.
  rewrite (wrap_i256_small (sg * (h - l))) by (destruct Hsg as [->| ->]; lia).
  assert (Z.quot (sg * (h - l)) 2 = sg * ((h - l) / 2)) as ->.
  { destruct Hsg as [->| ->].
    - rewrite !Z.mul_1_l. apply Z.quot_div_nonneg; lia.
    - replace (-1 * (h - l)) with (- (h - l)) by lia. rewrite Z.quot_opp_l by lia.
      rewrite Z.quot_div_nonneg; lia. }
  rewrite <- Z.mul_add_distr_l. rewrite wrap_i256_small by (destruct Hsg as [->| ->]; lia).
  destruct (Z.eqb_spec (l + (h - l) / 2) c) as [->|Hne].
  - by rewrite Z.eqb_refl.
  - destruct (Z.eqb_spec (sg * (l + (h - l) / 2)) (sg * c)); [|done]. destruct Hsg as [->| ->]; lia.
Qed.

Lemma magnitude_greater_at sg l h :
  sg = 1 ∨ sg = -1 → 0 ≤ l → l ≤ h →
  magnitude_greater (sg * h) (sg * l) = negb (h =? 0) && ((l <? h) || (sg =? -1)).
Proof.
  intros Hsg H0 H1. unfold magnitude_greater.
  destruct Hsg as [->| ->];
    repeat match goal with
           | |- context [?a =? ?b] => destruct (Z.eqb_spec a b)
           | |- context [?a <? ?b] => destruct (Z.ltb_spec a b)
           end; first [done|lia].
Qed.

Lemma int_bisects sg :
  sg = 1 ∨ sg = -1 → Bisects (2 ^ 255 - Z.max 0 sg) (λ x, sg * x) (int_at sg).
Proof.
  intros Hsg. split.
  - done.
  - intros l c h H0 H1 H2 Hmax. cbn [simplify int_tree]. unfold int_simplify.
    change (it_fixed (int_at sg l c h)) with false.
    cbn [it_hi it_lo int_at orb]. rewrite magnitude_greater_at by (done || lia).
    change {| it_lo := _; it_curr := it_curr _; it_hi := it_curr _; it_fixed := _ |} with (int_at sg l c c).
    rewrite int_reposition_at by (done || lia).
    assert (0 ≤ (c - l) / 2 ≤ c - l) by (Z.div_mod_to_equations; lia).
    case_decide as Hd.
    + rewrite Hd, Z.sub_diag, Z.div_0_l, Z.add_0_r, Z.eqb_refl by lia. by destruct (negb _).
    + replace (negb (h =? 0)) with true by (destruct (Z.eqb_spec h 0); [lia|done]).
      replace (l <? h) with true by (symmetry; apply Z.ltb_lt; lia). cbn [negb andb orb].
      destruct (Z.eqb_spec (l + (c - l) / 2) c); [|done]. exfalso. Z.div_mod_to_equations; lia.
  - intros l c h H0 H1 H2 Hmax. cbn [complicate int_tree]. unfold int_complicate.
    change (it_fixed (int_at sg l c h)) with false.
    cbn [it_hi it_lo it_curr int_at orb]. rewrite magnitude_greater_at by (done || lia).
    replace (negb (h =? 0)) with true by (destruct (Z.eqb_spec h 0); [lia|done]).
    replace (l <? h) with true by (symmetry; apply Z.ltb_lt; lia). cbn [negb andb orb].
    assert ((if negb (sg * c =? I256_MIN) && negb (sg * c =? I256_MAX)
             then wrap_i256 (sg * c + if sg * h <? 0 then -1 else 1) else sg * c) = sg * (c + 1)) as ->.
    { unfold I256_MIN, I256_MAX. destruct (Z.eqb_spec (sg * c) (- 2 ^ 255)) as [E|_];
        [destruct Hsg as [->| ->]; lia|].
      destruct (Z.eqb_spec (sg * c) (2 ^ 255 - 1)) as [E|_]; [destruct Hsg as [->| ->]; lia|].
      cbn [negb andb]. destruct (Z.ltb_spec (sg * h) 0); rewrite wrap_i256_small;
        destruct Hsg as [->| ->]; lia. }
    change {| it_lo := _; it_curr := _; it_hi := _; it_fixed := _ |} with (int_at sg (c + 1) c h).
    rewrite int_reposition_at by (done || lia).
    assert (0 ≤ (h - (c + 1)) / 2 ≤ h - (c + 1)) by (Z.div_mod_to_equations; lia).
    destruct (Z.eqb_spec (c + 1 + (h - (c + 1)) / 2) c); [lia|done].
Qed.

(** *** Values of the strategies *)

Lemma limbs_of_eq higher lower :
  is_u 128 higher → is_u 128 lower → limbs_of higher lower = higher * 2 ^ 128 + lower.
Proof.
  intros Hh Hl. unfold limbs_of, from_limbs. unfold is_u, umax in *.
  assert (∀ v, 0 ≤ v ≤ 2 ^ 128 - 1 →
    wrap 64 (Z.land v (2 ^ 65 - 1)) = v mod 2 ^ 64 ∧ wrap 64 (Z.shiftr v 64) = v / 2 ^ 64) as Hlimb.
  { intros v Hv. split.
    - replace (2 ^ 65 - 1) with (Z.ones 65) by reflexivity. rewrite Z.land_ones by lia.
      unfold wrap. symmetry. apply Znumtheory.Zmod_div_mod; [lia|lia|]. exists 2. reflexivity.
    - rewrite Z.shiftr_div_pow2 by lia. apply wrap_small. unfold is_u, umax.
      split; [apply Z.div_pos; lia|]. apply Z.lt_le_pred. apply Z.div_lt_upper_bound; lia. }
  destruct (Hlimb lower Hl) as [-> ->]. destruct (Hlimb higher Hh) as [-> ->].
  pose proof (Z.div_mod lower (2 ^ 64)). pose proof (Z.div_mod higher (2 ^ 64)). lia.
Qed.

(** The cut numbers have at most [x] bits. *)
Lemma cut_randoms_bound x higher lower :
  0 ≤ x ≤ 256 → is_u 128 higher → is_u 128 lower →
  let '(h, l) := cut_randoms x higher lower in 0 ≤ limbs_of h l < 2 ^ x.
Proof.
  intros Hx Hh Hl. unfold cut_randoms.
  assert (∀ v n, 0 ≤ n → Z.land v (2 ^ n - 1) = v mod 2 ^ n) as Hmask.
  { intros v n Hn. rewrite <- Z.land_ones by done. f_equal. rewrite Z.ones_equiv. lia. }
  unfold is_u, umax in *. destruct (Z.ltb_spec x 128) as [H1|H1].
  - rewrite Hmask by lia. pose proof (Z.mod_pos_bound lower (2 ^ x) ltac:(lia)).
    assert (2 ^ x ≤ 2 ^ 128) by (apply Z.pow_le_mono_r; lia).
    rewrite limbs_of_eq; unfold is_u, umax; lia.
  - rewrite (proj2 (Z.leb_le _ _) H1). cbn [andb]. destruct (Z.ltb_spec x 256) as [H2|H2].
    + rewrite Hmask by lia. pose proof (Z.mod_pos_bound higher (2 ^ (x - 128)) ltac:(lia)) as Hm.
      assert (2 ^ (x - 128) ≤ 2 ^ 128) by (apply Z.pow_le_mono_r; lia).
      assert (2 ^ x = 2 ^ (x - 128) * 2 ^ 128) as Hp by (rewrite <- Z.pow_add_r by lia; f_equal; lia).
      rewrite limbs_of_eq by (unfold is_u, umax; lia). nia.
    + assert (x = 256) as -> by lia. rewrite limbs_of_eq by (unfold is_u, umax; lia). lia.
Qed.

(** The random numbers are in the ranges they are drawn from, and a fixture has
    a value of its size. *)
Record randoms_ok (s : IntStrategyState) (signed : bool) (r : Randoms) : Prop := {
  ro_size : 8 ≤ st_bits s ≤ 256;
  ro_offset : 0 ≤ rd_offset r < 4;
  ro_kind : 0 ≤ rd_kind r < 4;
  ro_bits : 0 ≤ rd_bits r ≤ st_bits s;
  ro_higher : is_u 128 (rd_higher r);
  ro_lower : is_u 128 (rd_lower r);
  ro_fixtures : ∀ v bits, Some (v, bits) ∈ st_fixtures s →
    if signed then - 2 ^ (bits - 1) ≤ v < 2 ^ (bits - 1) else 0 ≤ v < 2 ^ bits
}.

Lemma pow_bits_le a b : 0 ≤ a → a ≤ b → 2 ^ a ≤ 2 ^ b.
Proof. intros. apply Z.pow_le_mono_r; lia. Qed.

Lemma uint_random_in_type s r :
  randoms_ok s false r → 0 ≤ ut_curr (uint_random s r) < 2 ^ st_bits s.
Proof.
  intros [Hsz _ _ Hb Hh Hl _]. unfold uint_random.
  pose proof (cut_randoms_bound (rd_bits r) _ _ ltac:(lia) Hh Hl) as Hc.
  destruct (cut_randoms _ _ _) as [h l]. simpl.
  pose proof (pow_bits_le (rd_bits r) (st_bits s)). lia.
Qed.

Lemma int_random_in_type s r :
  randoms_ok s true r → - 2 ^ (st_bits s - 1) ≤ it_curr (int_random s r) < 2 ^ (st_bits s - 1).
Proof.
  intros [Hsz _ _ Hb Hh Hl _]. unfold int_random.
  assert (2 ^ 7 ≤ 2 ^ (st_bits s - 1) ≤ 2 ^ 255) as [Hp1 Hp2] by (split; apply pow_bits_le; lia).
  destruct (Z.eqb_spec (rd_bits r) 0) as [_|Hne]; [simpl; lia|].
  pose proof (cut_randoms_bound (rd_bits r - 1) _ _ ltac:(lia) Hh Hl) as Hc.
  destruct (cut_randoms _ _ _) as [h l]. simpl. unfold from_sign_and_abs.
  pose proof (pow_bits_le (rd_bits r - 1) (st_bits s - 1) ltac:(lia) ltac:(lia)).
  rewrite wrap_i256_small; destruct (rd_positive r); lia.
Qed.

Lemma fixture_elem (s : IntStrategyState) i x : st_fixtures s !! i = Some x → x ∈ st_fixtures s.
Proof. apply list_elem_of_lookup_2. Qed.

Lemma uint_in_type s r :
  randoms_ok s false r → 0 ≤ ut_curr (uint_new_tree s r) < 2 ^ st_bits s.
Proof.
  intros Hr. pose proof (uint_random_in_type s r Hr) as Hrand. destruct Hr as [Hsz Ho _ _ _ _ Hf].
  assert (2 ^ 8 ≤ 2 ^ st_bits s ≤ 2 ^ 256) as [Hp1 Hp2] by (split; apply pow_bits_le; lia).
  unfold uint_new_tree. case_bool; [|case_bool; [|done]].
  - unfold uint_edge, uint_type_max, saturating_sub, umax; simpl.
    destruct (Z.ltb_spec (st_bits s) 256); [case_bool; lia|].
    assert (st_bits s = 256) as -> by lia. case_bool; lia.
  - unfold uint_fixture. destruct (st_fixtures s) as [|f fs] eqn:Ef; [done|]. rewrite <- Ef.
    destruct (st_fixtures s !! rd_fixture r) as [[[v bits]|]|] eqn:El; try done.
    destruct (Z.eqb_spec bits (st_bits s)) as [->|]; [|done]. simpl.
    apply (Hf v (st_bits s)). rewrite <- Ef. apply (fixture_elem _ _ _ El).
Qed.

Lemma int_in_type s r :
  randoms_ok s true r → - 2 ^ (st_bits s - 1) ≤ it_curr (int_new_tree s r) < 2 ^ (st_bits s - 1).
Proof.
  intros Hr. pose proof (int_random_in_type s r Hr) as Hrand. destruct Hr as [Hsz Ho Hk _ _ _ Hf].
  assert (2 ^ 7 ≤ 2 ^ (st_bits s - 1) ≤ 2 ^ 255) as [Hp1 Hp2] by (split; apply pow_bits_le; lia).
  unfold int_new_tree. case_bool; [|case_bool; [|done]].
  - unfold int_edge, from_sign_and_abs; cbn [it_curr int_new].
    repeat case_bool; rewrite ?(wrap_i256_small (- _)), ?(wrap_i256_small (2 ^ _ - 1)), ?wrap_i256_small; lia.
  - unfold int_fixture. destruct (st_fixtures s) as [|f fs] eqn:Ef; [done|]. rewrite <- Ef.
    destruct (st_fixtures s !! rd_fixture r) as [[[v bits]|]|] eqn:El; try done.
    destruct (Z.eqb_spec bits (st_bits s)) as [->|]; [|done]. simpl.
    apply (Hf v (st_bits s)). rewrite <- Ef. apply (fixture_elem _ _ _ El).
Qed.

(** ** Properties *)

(** C33: shrinking finds the smallest counterexample: from a failing value of a
    test that fails for every larger magnitude when it fails for a smaller one,
    a client of the unsigned or of the signed tree reaches, within 259 rounds,
    the failing value of least magnitude on the same side of zero. *)
Theorem shrink_finds_least (fails : Z → bool) :
  (∀ start, is_u 256 start → upward fails id start → fails start = true →
     ∃ x, shrink fails 259 (uint_new start false) start = Some x ∧
       least_failing fails id start x) ∧
  (∀ sg m, sg = 1 ∨ sg = -1 → I256_MIN ≤ sg * m ≤ I256_MAX → 0 ≤ m →
     upward fails (λ x, sg * x) m → fails (sg * m) = true →
     ∃ x, shrink fails 259 (int_new (sg * m) false) (sg * m) = Some (sg * x) ∧
       least_failing fails (λ x, sg * x) m x).
Proof.
  split.
  - intros start Hs Hu Hf. unfold is_u in Hs.
    apply (shrink_least uint_bisects fails 256 start); try done. unfold umax in Hs. lia.
  - intros sg m Hsg Hr Hm Hu Hf. unfold I256_MIN, I256_MAX in Hr.
    replace (int_new (sg * m) false) with (int_at sg 0 m m)
      by (unfold int_at, int_new; by rewrite Z.mul_0_r).
    apply (shrink_least (int_bisects sg Hsg) fails 256 m); try done;
      destruct Hsg as [->| ->]; lia.
Qed.

Lemma shrink_finds_least_witness :
  ∃ x, shrink (λ v, v <=? -100) 259 (int_new (-1 * 5000) false) (-1 * 5000) = Some (-1 * x) ∧ x = 100.
Proof.
  destruct (shrink_finds_least (λ v, v <=? -100)) as [_ H].
  destruct (H (-1) 5000) as (x & E & _).
  - by right.
  - split; vm_compute; discriminate.
  - lia.
  - intros x y H0 H1 H2 H3. apply Z.leb_le in H3. apply Z.leb_le. lia.
  - reflexivity.
  - exists x. split; [exact E|].
    assert (shrink (λ v, v <=? -100) 259 (int_new (-1 * 5000) false) (-1 * 5000) = Some (-100)) as E'
      by (vm_compute; reflexivity).
    rewrite E' in E. injection E as E. lia.
Defined.

(** C34: the values the strategies start from belong to the type: an unsigned
    value of [bits] bits is below [2 ^ bits], a signed one is between the bounds
    of its width, for every choice of the random numbers and of the fixtures. *)
Theorem generated_in_type (s : IntStrategyState) (r : Randoms) :
  (randoms_ok s false r → 0 ≤ current (uint_new_tree s r) < 2 ^ st_bits s) ∧
  (randoms_ok s true r →
     - 2 ^ (st_bits s - 1) ≤ current (int_new_tree s r) < 2 ^ (st_bits s - 1)).
Proof. split; [apply uint_in_type|apply int_in_type]. Qed.

Lemma generated_in_type_witness :
  let r := {| rd_bias := 5; rd_kind := 0; rd_offset := 3; rd_fixture := 0; rd_bits := 7;
              rd_higher := 0; rd_lower := 0; rd_positive := true |} in
  current (int_new_tree (strategy_new 8 None) r) = -125 ∧ -128 ≤ -125 < 128.
Proof.
  split; [vm_compute; reflexivity|].
  apply (proj2 (generated_in_type (strategy_new 8 None)
    {| rd_bias := 5; rd_kind := 0; rd_offset := 3; rd_fixture := 0; rd_bits := 7;
       rd_higher := 0; rd_lower := 0; rd_positive := true |})).
  split; simpl; try lia; try (unfold is_u, umax; lia).
  intros v bits Hin. by apply elem_of_nil in Hin.
Defined.
