(* ===== verification/MockCall.v ===== *)
(** * Mocked and expected calls
    (crates/cheatcodes/src/evm/mock.rs, crates/cheatcodes/common/src/{mock,expect}.rs,
    [expect_call] of crates/cheatcodes/src/test/expect.rs, and the parts of
    [call_with_executor] and [call_end] of crates/cheatcodes/src/inspector.rs
    that use them)

    Tests register return data for calls they mock, and calls they expect.  For
    every call the inspector counts the expectations it meets and answers it
    from the mocks; at the end of the test it compares the counts. *)

From stdpp Require Import prelude gmap list sorting.
From S2P Require Import Prelude Containers.

Open Scope Z_scope.

Abbreviation Bytes := (list Z).

(** ** Data *)

Record MockCallDataContext := { mk_calldata : Bytes; mk_value : option Z }.

#[export] Instance mock_ctx_eq : EqDecision MockCallDataContext.
Proof. solve_decision. Defined.

(** The kind of result of a mocked call, of [InstructionResult]. *)
Inductive MockResult : Type := MockReturn | MockRevert.

Record MockCallReturnData := { mr_ret_type : MockResult; mr_data : Bytes }.

(** [Ord] of bytes and of [Option<U256>]. *)
Fixpoint bytes_cmp (a b : Bytes) : comparison :=
  match a, b with
  | [], [] => Eq
  | [], _ :: _ => Lt
  | _ :: _, [] => Gt
  | x :: a, y :: b => match Z.compare x y with Eq => bytes_cmp a b | c => c end
  end.

Definition value_cmp (a b : option Z) : comparison :=
  match a, b with
  | None, None => Eq
  | None, Some _ => Lt
  | Some _, None => Gt
  | Some x, Some y => Z.compare x y
  end.

(** [Ord for MockCallDataContext]: both parts reversed. *)
Definition mock_cmp (a b : MockCallDataContext) : comparison :=
  match CompOpp (bytes_cmp (mk_calldata a) (mk_calldata b)) with
  | Eq => CompOpp (value_cmp (mk_value a) (mk_value b))
  | c => c
  end.

(** The mocks of an address: a [BTreeMap] in its order. *)
Abbreviation Mocks := (list (MockCallDataContext * list MockCallReturnData)).

Fixpoint mocks_insert (k : MockCallDataContext) (q : list MockCallReturnData) (m : Mocks) : Mocks :=
  match m with
  | [] => [(k, q)]
  | (k', q') :: m' =>
      match mock_cmp k k' with
      | Lt => (k, q) :: m
      | Eq => (k, q) :: m'
      | Gt => (k', q') :: mocks_insert k q m'
      end
  end.

Inductive ExpectedCallType : Type := NonCount | Count.

Record ExpectedCallData := {
  ec_value : option Z;
  ec_gas : option Z;
  ec_min_gas : option Z;
  ec_count : Z;
  ec_type : ExpectedCallType
}.

(** The tracker of one address: what is expected and how often it was seen. *)
Abbreviation Expecteds := (gmap Bytes (ExpectedCallData * Z)).

Record CallState := {
  cs_mocked_calls : gmap Z Mocks;
  cs_expected_calls : gmap Z Expecteds
}.

(** What the inspector reads of a call; [ca_value] is [transfer_value]. *)
Record Call := { ca_address : Z; ca_input : Bytes; ca_value : option Z; ca_gas : Z }.

(** ** Mocks *)

Section mocks.
Implicit Types s : CallState.

Definition with_mocks s (m : gmap Z Mocks) : CallState :=
  {| cs_mocked_calls := m; cs_expected_calls := cs_expected_calls s |}.

Definition clear_mocked_calls s : CallState := with_mocks s ∅.

Definition mock_calls s (callee : Z) (cdata : Bytes) (value : option Z) (rdata_vec : list Bytes)
    (ret_type : MockResult) : CallState :=
  let mocks := default [] (cs_mocked_calls s !! callee) in
  let queue := (λ rdata, {| mr_ret_type := ret_type; mr_data := rdata |}) <$> rdata_vec in
  with_mocks s (<[callee := mocks_insert {| mk_calldata := cdata; mk_value := value |} queue mocks]>
                  (cs_mocked_calls s)).

Definition mock_call s (callee : Z) (cdata : Bytes) (value : option Z) (rdata : Bytes)
    (ret_type : MockResult) : CallState :=
  mock_calls s callee cdata value [rdata] ret_type.

(** A mock matches a call whose input starts with its data and whose value is
    the one it asks for, if any. *)
Definition mock_matches (c : Call) (k : MockCallDataContext) : bool :=
  bool_decide (take (length (mk_calldata k)) (ca_input c) = mk_calldata k) &&
  match mk_value k with None => true | Some v => bool_decide (ca_value c = Some v) end.

(** [mocks.get_mut(&ctx)], or else the first mock that matches. *)
Definition find_mock (c : Call) (m : Mocks) : option nat :=
  let ctx := {| mk_calldata := ca_input c; mk_value := ca_value c |} in
  match list_find (λ e, e.1 = ctx) m with
  | Some (i, _) => Some i
  | None => fst <$> list_find (λ e, mock_matches c e.1 = true) m
  end.

(** A single return value stays, of several the first is taken. *)
Definition next_return (q : list MockCallReturnData)
    : list MockCallReturnData * option MockCallReturnData :=
  match q with
  | [r] => (q, Some r)
  | r :: q' => (q', Some r)
  | [] => ([], None)
  end.

(** The mocked answer of a call, if there is one. *)
Definition answer_mock s (c : Call) : CallState * option MockCallReturnData :=
  match cs_mocked_calls s !! ca_address c with
  | None => (s, None)
  | Some m =>
      match find_mock c m with
      | None => (s, None)
      | Some i =>
          match m !! i with
          | None => (s, None)
          | Some (k, q) =>
              let '(q', r) := next_return q in
              (with_mocks s (<[ca_address c := <[i := (k, q')]> m]> (cs_mocked_calls s)), r)
          end
      end
  end.

(** ** Expected calls *)

Inductive ExpectError : Type := CountedOnlyOnce | CannotOverwriteCounted.

(** The call stipend of a call with a value; sums on [u64] wrap. *)
Definition add_stipend (value gas : option Z) : option Z :=
  match value with
  | Some v => if 0 <? v then (λ g, g +w[64] 2300) <$> gas else gas
  | None => gas
  end.

Definition expect_call s (target : Z) (calldata : Bytes) (value gas min_gas : option Z) (count : Z)
    (call_type : ExpectedCallType) : CallState * result unit ExpectError :=
  let expecteds := default ∅ (cs_expected_calls s !! target) in
  let store e :=
    {| cs_mocked_calls := cs_mocked_calls s;
       cs_expected_calls := <[target := e]> (cs_expected_calls s) |} in
  let data :=
    {| ec_value := value; ec_gas := add_stipend value gas; ec_min_gas := add_stipend value min_gas;
       ec_count := count; ec_type := call_type |} in
  match call_type, expecteds !! calldata with
  | Count, Some _ => (store expecteds, Err CountedOnlyOnce)
  | NonCount, Some (expected, n) =>
      match ec_type expected with
      | Count => (store expecteds, Err CannotOverwriteCounted)
      | NonCount =>
          (store (<[calldata :=
             ({| ec_value := ec_value expected; ec_gas := ec_gas expected;
                 ec_min_gas := ec_min_gas expected; ec_count := ec_count expected +w[64] 1;
                 ec_type := ec_type expected |}, n)]> expecteds), Ok tt)
      end
  | _, None => (store (<[calldata := (data, 0)]> expecteds), Ok tt)
  end.

(** The call meets an expectation for [calldata]. *)
Definition meets (c : Call) (calldata : Bytes) (expected : ExpectedCallData) : bool :=
  bool_decide (length calldata ≤ length (ca_input c))%nat &&
  bool_decide (calldata = take (length calldata) (ca_input c)) &&
  match ec_value expected with None => true | Some v => bool_decide (Some v = ca_value c) end &&
  match ec_gas expected with None => true | Some g => g =? ca_gas c end &&
  match ec_min_gas expected with None => true | Some g => g <=? ca_gas c end.

Definition count_call s (c : Call) : CallState :=
  match cs_expected_calls s !! ca_address c with
  | None => s
  | Some expecteds =>
      {| cs_mocked_calls := cs_mocked_calls s;
         cs_expected_calls :=
           <[ca_address c :=
               map_imap (λ calldata '(expected, n),
                 Some (expected, if meets c calldata expected then n +w[64] 1 else n)) expecteds]>
             (cs_expected_calls s) |}
  end.

(** The two parts of the hook [call]: count, then answer. *)
Definition call_hook s (c : Call) : CallState * option MockCallReturnData := answer_mock (count_call s c) c.

(** The check at the end of the test. *)
Definition expectation_failed (e : ExpectedCallData * Z) : bool :=
  match ec_type e.1 with
  | Count => negb (ec_count e.1 =? e.2)
  | NonCount => e.2 <? ec_count e.1
  end.

Definition expected_calls_met s : bool :=
  forallb (λ a : Z * Expecteds, forallb (λ d : Bytes * (ExpectedCallData * Z), negb (expectation_failed d.2))
                     (map_to_list a.2)) (map_to_list (cs_expected_calls s)).
End mocks.

(** ** Specification *)

(** *** The order of mocks *)

Lemma bytes_cmp_refl a : bytes_cmp a a = Eq.
Proof. induction a; simpl; [done|]. by rewrite Z.compare_refl. Qed.

Lemma bytes_cmp_opp a b : bytes_cmp b a = CompOpp (bytes_cmp a b).
Proof.
  revert b. induction a as [|x a IH]; intros [|y b]; simpl; try done.
  rewrite Z.compare_antisym. destruct (Z.compare x y); simpl; [apply IH|done|done].
Qed.

Lemma bytes_cmp_eq a b : bytes_cmp a b = Eq ↔ a = b.
Proof.
  revert b. induction a as [|x a IH]; intros [|y b]; simpl; try done.
  destruct (Z.compare_spec x y) as [->|Hlt|Hgt]; [rewrite IH; naive_solver|..];
    (split; [done|]); intros [= -> ->]; lia.
Qed.

Lemma bytes_cmp_trans a b c : bytes_cmp a b = Lt → bytes_cmp b c = Lt → bytes_cmp a c = Lt.
Proof.
  revert b c. induction a as [|x a IH]; intros [|y b] [|z c]; simpl; try done.
  destruct (Z.compare_spec x y) as [->|Hxy|Hxy]; [|intros _|done].
  - destruct (Z.compare_spec y z); try done. apply IH.
  - destruct (Z.compare_spec y z) as [->|Hyz|Hyz]; [|intros _|done];
      (destruct (Z.compare_spec x z); [lia|done|lia]) || (intros _; destruct (Z.compare_spec x z); [lia|done|lia]).
Qed.

Lemma value_cmp_opp a b : value_cmp b a = CompOpp (value_cmp a b).
Proof. destruct a, b; simpl; try done. apply Z.compare_antisym. Qed.

Lemma value_cmp_eq a b : value_cmp a b = Eq ↔ a = b.
Proof. destruct a, b; simpl; try done. rewrite Z.compare_eq_iff. naive_solver. Qed.

Lemma value_cmp_trans a b c : value_cmp a b = Lt → value_cmp b c = Lt → value_cmp a c = Lt.
Proof. destruct a, b, c; simpl; try done. rewrite !Z.compare_lt_iff. lia. Qed.

Lemma mock_cmp_eq a b : mock_cmp a b = Eq ↔ a = b.
Proof.
  unfold mock_cmp. destruct a as [d v], b as [d' v']; simpl.
  destruct (bytes_cmp d d') eqn:E; simpl.
  - apply bytes_cmp_eq in E as ->. destruct (value_cmp v v') eqn:Ev; simpl.
    + apply value_cmp_eq in Ev as ->. done.
    + split; [done|]. intros [= ->]. by rewrite (proj2 (value_cmp_eq v' v')) in Ev.
    + split; [done|]. intros [= ->]. by rewrite (proj2 (value_cmp_eq v' v')) in Ev.
  - split; [done|]. intros [= -> ->]. by rewrite bytes_cmp_refl in E.
  - split; [done|]. intros [= -> ->]. by rewrite bytes_cmp_refl in E.
Qed.

Lemma mock_cmp_opp a b : mock_cmp b a = CompOpp (mock_cmp a b).
Proof.
  unfold mock_cmp. rewrite bytes_cmp_opp, value_cmp_opp.
  by destruct (bytes_cmp (mk_calldata a) (mk_calldata b)), (value_cmp (mk_value a) (mk_value b)).
Qed.

Lemma comp_opp_Lt c : CompOpp c = Lt ↔ c = Gt.
Proof. by destruct c. Qed.

Lemma mock_cmp_lt a b :
  mock_cmp a b = Lt ↔ bytes_cmp (mk_calldata b) (mk_calldata a) = Lt ∨
    mk_calldata a = mk_calldata b ∧ value_cmp (mk_value b) (mk_value a) = Lt.
Proof.
  unfold mock_cmp. rewrite (bytes_cmp_opp (mk_calldata a)), (value_cmp_opp (mk_value a)).
  rewrite <- bytes_cmp_eq. destruct (bytes_cmp (mk_calldata a) (mk_calldata b)); simpl; naive_solver.
Qed.

Lemma mock_cmp_trans a b c : mock_cmp a b = Lt → mock_cmp b c = Lt → mock_cmp a c = Lt.
Proof.
  rewrite !mock_cmp_lt. intros [H1|[E1 H1]] [H2|[E2 H2]].
  - left. by eapply bytes_cmp_trans.
  - left. by rewrite <- E2.
  - left. by rewrite E1.
  - right. split; [congruence|]. by eapply value_cmp_trans.
Qed.

(** The map is in its order. *)
Definition mocks_sorted (m : Mocks) : Prop := StronglySorted (λ a b, mock_cmp a.1 b.1 = Lt) m.

Lemma mocks_insert_elem k q m e : e ∈ mocks_insert k q m → e = (k, q) ∨ e ∈ m.
Proof.
  induction m as [|[k' q'] m IH]; simpl; [set_solver|]. destruct (mock_cmp k k'); set_solver.
Qed.

Lemma mocks_insert_sorted k q m : mocks_sorted m → mocks_sorted (mocks_insert k q m).
Proof.
  unfold mocks_sorted. induction 1 as [|[k' q'] m Hs IH Hall]; simpl; [repeat constructor|].
  destruct (mock_cmp k k') eqn:E.
  - apply mock_cmp_eq in E as ->. by constructor.
  - constructor; [by constructor|]. constructor; [done|].
    eapply Forall_impl; [exact Hall|]. intros e. by apply mock_cmp_trans.
  - constructor; [done|]. apply Forall_forall. intros e [->|He]%mocks_insert_elem.
    + simpl. by rewrite mock_cmp_opp, E.
    + rewrite Forall_forall in Hall. by apply Hall.
Qed.

(** Of two prefixes of the same input the longer one comes first. *)
Lemma bytes_cmp_prefix (l : Bytes) n m :
  (n < m)%nat → (m ≤ length l)%nat → bytes_cmp (take n l) (take m l) = Lt.
Proof.
  revert n m. induction l as [|x l IH]; intros [|n] [|m] H1 H2; simpl in *; try lia; try done.
  rewrite Z.compare_refl. apply IH; lia.
Qed.

(** *** Choosing a mock *)

(** The mock [e] is the most specific one that matches: none has longer data,
    and among those with its data one that asks for a value is preferred. *)
Definition most_specific (c : Call) (m : Mocks) (e : MockCallDataContext * list MockCallReturnData)
    : Prop :=
  e ∈ m ∧ mock_matches c e.1 = true ∧
  ∀ e', e' ∈ m → mock_matches c e'.1 = true →
    (length (mk_calldata e'.1) ≤ length (mk_calldata e.1))%nat ∧
    (mk_calldata e'.1 = mk_calldata e.1 → mk_value e'.1 ≠ None → mk_value e.1 = mk_value e'.1).

Lemma matches_data c k :
  mock_matches c k = true →
  mk_calldata k = take (length (mk_calldata k)) (ca_input c) ∧
  (length (mk_calldata k) ≤ length (ca_input c))%nat ∧
  ∀ v, mk_value k = Some v → ca_value c = Some v.
Proof.
  unfold mock_matches. intros [E%bool_decide_eq_true Hv]%andb_true_iff.
  split_and!; [done| |].
  - rewrite <- E at 1. rewrite length_take. lia.
  - intros v Ev. rewrite Ev in Hv. by apply bool_decide_eq_true in Hv.
Qed.

(** The first of two matching mocks is the more specific one. *)
Lemma first_specific c k k' :
  mock_matches c k = true → mock_matches c k' = true → mock_cmp k k' = Lt →
  (length (mk_calldata k') ≤ length (mk_calldata k))%nat ∧
  (mk_calldata k' = mk_calldata k → mk_value k' ≠ None → mk_value k = mk_value k').
Proof.
  intros (E1 & L1 & V1)%matches_data (E2 & L2 & V2)%matches_data [Hb|[Ed Hv]]%mock_cmp_lt.
  - assert (length (mk_calldata k') < length (mk_calldata k))%nat as Hlt.
    { destruct (decide (length (mk_calldata k') < length (mk_calldata k))%nat) as [?|Hge]; [done|].
      rewrite E1, E2 in Hb. destruct (decide (length (mk_calldata k) = length (mk_calldata k'))) as [El|Hne].
      - rewrite El, bytes_cmp_refl in Hb. done.
      - rewrite bytes_cmp_opp, bytes_cmp_prefix in Hb by lia. done. }
    split; [lia|]. intros E. rewrite E in Hlt. lia.
  - split; [by rewrite Ed|]. intros _ Hn.
    destruct (mk_value k') as [v'|] eqn:Ev'; [|done]. destruct (mk_value k) as [v|] eqn:Ev; [|done].
    specialize (V1 v eq_refl). specialize (V2 v' eq_refl). congruence.
Qed.

Lemma find_mock_specific c m i :
  mocks_sorted m → find_mock c m = Some i → ∃ e, m !! i = Some e ∧ most_specific c m e.
Proof.
  intros Hs. unfold find_mock. set (ctx := {| mk_calldata := ca_input c; mk_value := ca_value c |}).
  destruct (list_find (λ e, e.1 = ctx) m) as [[j e]|] eqn:Ef.
  - intros [= ->]. apply list_find_Some in Ef as (Hi & Ee & _). exists e. split; [done|].
    split; [by eapply list_elem_of_lookup_2|]. rewrite Ee. unfold ctx; simpl. split.
    + unfold mock_matches; simpl. rewrite firstn_all. apply andb_true_iff.
      split; [by apply bool_decide_eq_true|]. destruct (ca_value c); [|done]. by apply bool_decide_eq_true.
    + intros e' _ (_ & Hl & Hv)%matches_data. split; [done|]. intros _ Hn.
      destruct (mk_value e'.1) as [v|]; [|done]. by apply Hv.
  - destruct (list_find (λ e, mock_matches c e.1 = true) m) as [[j e]|] eqn:Eg; [|done].
    intros [= ->]. apply list_find_Some in Eg as (Hi & Hm & Hbefore). exists e. split; [done|].
    split_and!; [by eapply list_elem_of_lookup_2|done|].
    intros e' [j Hj]%list_elem_of_lookup Hm'.
    destruct (decide (j = i)) as [->|Hne]; [simplify_eq; done|].
    destruct (decide (j < i)%nat) as [Hlt|Hge]; [by destruct (Hbefore j e' Hj Hlt)|].
    apply (first_specific c); [done|done|].
    by apply (sorted_lookup (λ a b, mock_cmp a.1 b.1 = Lt) m i j); [done|lia|..].
Qed.

Lemma find_mock_none c m :
  find_mock c m = None ↔ ∀ e, e ∈ m → mock_matches c e.1 = false.
Proof.
  unfold find_mock. set (ctx := {| mk_calldata := ca_input c; mk_value := ca_value c |}).
  assert (mock_matches c ctx = true) as Hctx.
  { unfold mock_matches, ctx; simpl. rewrite firstn_all. apply andb_true_iff.
    split; [by apply bool_decide_eq_true|]. destruct (ca_value c); [|done]. by apply bool_decide_eq_true. }
  destruct (list_find (λ e, e.1 = ctx) m) as [[j e]|] eqn:Ef.
  - split; [done|]. intros H. apply list_find_Some in Ef as (Hi & Ee & _).
    specialize (H e (list_elem_of_lookup_2 _ _ _ Hi)). rewrite Ee in H. congruence.
  - rewrite fmap_None, list_find_None, Forall_forall. split.
    + intros H e He. specialize (H e He). by destruct (mock_matches c e.1).
    + intros H e He. by rewrite (H e He).
Qed.

(** *** Answers *)

(** The state after [n] calls, and the answer to the next one. *)
Fixpoint after_calls (n : nat) (s : CallState) (c : Call) : CallState :=
  match n with O => s | S n => after_calls n (answer_mock s c).1 c end.

(** Only the keys decide which mock is found. *)
Lemma find_mock_keys c m m' : m.*1 = m'.*1 → find_mock c m = find_mock c m'.
Proof.
  intros E.
  assert (∀ (P : MockCallDataContext → Prop) `{∀ k, Decision (P k)} (m : Mocks),
    fst <$> list_find (λ e, P e.1) m = fst <$> list_find P m.*1) as Hf.
  { intros P HP l. rewrite list_find_fmap. unfold compose. by destruct (list_find _ l) as [[]|]. }
  unfold find_mock. set (ctx := {| mk_calldata := ca_input c; mk_value := ca_value c |}).
  pose proof (Hf (λ k, k = ctx) _ m) as H1. rewrite E, <- (Hf (λ k, k = ctx) _ m') in H1.
  pose proof (Hf (λ k, mock_matches c k = true) _ m) as H2.
  rewrite E, <- (Hf (λ k, mock_matches c k = true) _ m') in H2.
  destruct (list_find (λ e, e.1 = ctx) m) as [[]|], (list_find (λ e, e.1 = ctx) m') as [[]|];
    simpl in H1; simplify_eq/=; [done|exact H2].
Qed.

Lemma next_return_drop q n :
  q ≠ [] → (n < length q)%nat →
  next_return (drop n q) = (drop (min (S n) (length q - 1)) q, q !! n).
Proof.
  intros Hq Hn. destruct (lookup_lt_is_Some_2 q n Hn) as [r Hr].
  assert (length (drop (S n) q) = length q - S n)%nat as Hl by apply length_drop.
  rewrite (drop_S q r n Hr), Hr. cbn [next_return].
  destruct (drop (S n) q) as [|r' q'] eqn:Ed; simpl in Hl.
  - replace (min (S n) (length q - 1)) with n by lia. by rewrite (drop_S q r n Hr), Ed.
  - replace (min (S n) (length q - 1)) with (S n) by lia. by rewrite Ed.
Qed.

(** The mock [i] of the address of [c] answers [c], and has [q] left. *)
Record answering (c : Call) (i : nat) (k : MockCallDataContext) (q : list MockCallReturnData)
    (s : CallState) : Prop := {
  an_mocks : ∃ m, cs_mocked_calls s !! ca_address c = Some m ∧ find_mock c m = Some i ∧
    m !! i = Some (k, q)
}.

Lemma answer_step c i k q n s :
  q ≠ [] → (n < length q)%nat → answering c i k (drop n q) s →
  (answer_mock s c).2 = q !! n ∧
  answering c i k (drop (min (S n) (length q - 1)) q) (answer_mock s c).1.
Proof.
  intros Hq Hn [(m & Em & Ef & Ei)]. unfold answer_mock. rewrite Em, Ef, Ei.
  rewrite (next_return_drop q n Hq Hn). split; [done|]. split. simpl.
  eexists. split; [apply lookup_insert_eq|].
  pose proof (lookup_lt_Some _ _ _ Ei). split; [|by apply list_lookup_insert_eq].
  rewrite <- Ef. apply find_mock_keys. rewrite list_fmap_insert. apply list_insert_id.
  by rewrite list_lookup_fmap, Ei.
Qed.

Lemma answers_in_order c i k q : ∀ n j s,
  q ≠ [] → (j < length q)%nat → answering c i k (drop j q) s →
  (answer_mock (after_calls n s c) c).2 = q !! min (j + n) (length q - 1).
Proof.
  induction n as [|n IH]; intros j s Hq Hj Ha; simpl.
  - rewrite Nat.add_0_r. replace (min j (length q - 1)) with j by lia.
    by eapply answer_step.
  - destruct (answer_step c i k q j s Hq Hj Ha) as [_ Ha'].
    rewrite (IH (min (S j) (length q - 1)) _ Hq) by (lia || done). f_equal. lia.
Qed.

(** *** Counting *)

Definition expected_at (s : CallState) (target : Z) (calldata : Bytes) : option (ExpectedCallData * Z) :=
  cs_expected_calls s !! target ≫= λ e, e !! calldata.

(** The calls to [target] that meet the expectation. *)
Definition seen (cs : list Call) (target : Z) (calldata : Bytes) (expected : ExpectedCallData) : nat :=
  length (filter (λ c, ca_address c = target ∧ meets c calldata expected = true) cs).

Lemma count_call_at s c target calldata :
  expected_at (count_call s c) target calldata =
    (λ e, (e.1, if decide (ca_address c = target ∧ meets c calldata e.1 = true)
                then e.2 +w[64] 1 else e.2)) <$> expected_at s target calldata.
Proof.
  unfold expected_at, count_call.
  destruct (cs_expected_calls s !! ca_address c) as [e|] eqn:Ee.
  - simpl. destruct (decide (ca_address c = target)) as [<-|Hne].
    + rewrite lookup_insert_eq, Ee. simpl. rewrite map_lookup_imap.
      destruct (e !! calldata) as [[x n]|]; simpl; [|done]. do 2 f_equal.
      destruct (meets c calldata x); case_decide; naive_solver.
    + rewrite lookup_insert_ne by done.
      destruct (cs_expected_calls s !! target ≫= _) as [[x n]|]; simpl; [|done].
      by rewrite decide_False by naive_solver.
  - destruct (cs_expected_calls s !! target) as [e|] eqn:Et; simpl; [|done].
    destruct (e !! calldata) as [[x n]|]; simpl; [|done].
    rewrite decide_False; [done|]. intros [<- _]. congruence.
Qed.

Lemma count_calls_at cs : ∀ s target calldata,
  (∀ e n, expected_at s target calldata = Some (e, n) → is_u 64 n) →
  expected_at (foldl count_call s cs) target calldata =
    (λ e, (e.1, wrap 64 (e.2 + Z.of_nat (seen cs target calldata e.1)))) <$>
      expected_at s target calldata.
Proof.
  induction cs as [|c cs IH]; intros s target calldata Hw; simpl.
  - destruct (expected_at s target calldata) as [[e n]|] eqn:E; simpl; [|done].
    rewrite Z.add_0_r, wrap_small; [done|]. by eapply Hw.
  - rewrite IH; rewrite count_call_at;
      destruct (expected_at s target calldata) as [[e n]|] eqn:E; simpl; try done.
    + unfold seen. rewrite filter_cons. do 2 f_equal. case_decide; simpl; [|done].
      rewrite wrap_add_l by lia. f_equal. lia.
    + intros e' n' [= <- <-]. specialize (Hw e n eq_refl). case_decide; [|done].
      by apply wrap_is_u.
Qed.

Lemma expected_calls_met_spec s :
  expected_calls_met s = true ↔
  ∀ target calldata e n, expected_at s target calldata = Some (e, n) →
    match ec_type e with Count => ec_count e = n | NonCount => ec_count e ≤ n end.
Proof.
  unfold expected_calls_met. rewrite forallb_forall. setoid_rewrite <- list_elem_of_In.
  unfold expected_at, expectation_failed. split.
  - intros H target calldata e n He. destruct (cs_expected_calls s !! target) as [m|] eqn:Em; [|done].
    simpl in He. specialize (H (target, m)). rewrite elem_of_map_to_list in H. specialize (H Em).
    rewrite forallb_forall in H. specialize (H (calldata, (e, n))).
    rewrite <- list_elem_of_In, elem_of_map_to_list in H. specialize (H He). simpl in H.
    apply negb_true_iff in H. destruct (ec_type e).
    + apply Z.ltb_ge in H. lia.
    + apply negb_false_iff, Z.eqb_eq in H. done.
  - intros H [target m] Hm. rewrite elem_of_map_to_list in Hm. apply forallb_forall.
    intros [calldata [e n]] Hin. rewrite <- list_elem_of_In, elem_of_map_to_list in Hin.
    simpl in *. apply negb_true_iff.
    specialize (H target calldata e n). rewrite Hm in H. specialize (H Hin). destruct (ec_type e).
    + apply Z.ltb_ge. lia.
    + apply negb_false_iff, Z.eqb_eq. done.
Qed.

(** ** Properties *)

(** The mocks of every address are in their order. *)
Definition mocks_ok (s : CallState) : Prop :=
  ∀ a m, cs_mocked_calls s !! a = Some m → mocks_sorted m.

Lemma mock_calls_ok s callee cdata value rs ty :
  mocks_ok s → mocks_ok (mock_calls s callee cdata value rs ty).
Proof.
  intros Hs a m. simpl. rewrite lookup_insert_Some. intros [[<- <-]|[_ Hm]]; [|by eapply Hs].
  apply mocks_insert_sorted. destruct (cs_mocked_calls s !! callee) eqn:E; simpl; [by eapply Hs|constructor].
Qed.

(** C35: a call is answered by the most specific mock that matches it: the one
    with the longest data its input starts with, and of those one that asks for
    its value before one that does not; the return values of that mock are
    given out in order, and the last one forever; a call that no mock matches is
    not answered and changes nothing. *)
Theorem mocked_calls_correct (s : CallState) (c : Call) (m : Mocks) :
  mocks_ok s → cs_mocked_calls s !! ca_address c = Some m →
  (∀ e, e ∈ m → mock_matches c e.1 = false) ∧ answer_mock s c = (s, None) ∨
  ∃ e, most_specific c m e ∧
    (e.2 ≠ [] → ∀ n, (answer_mock (after_calls n s c) c).2 = e.2 !! min n (length e.2 - 1)).
Proof.
  intros Hs Hm. destruct (find_mock c m) as [i|] eqn:Ef.
  - right. destruct (find_mock_specific c m i (Hs _ _ Hm) Ef) as ([k q] & Hi & Hsp).
    exists (k, q). split; [done|]. simpl. intros Hq n.
    rewrite (answers_in_order c i k q n 0 s); [done|done| |split; eauto].
    destruct q; simpl; [done|lia].
  - left. split; [by apply find_mock_none|]. unfold answer_mock. by rewrite Hm, Ef.
Qed.

(** Two return values for every call with the data 1, one for the call with the
    data 1, 2 and the value 7. *)
Definition ex_mock_state : CallState :=
  mock_call (mock_calls {| cs_mocked_calls := ∅; cs_expected_calls := ∅ |} 5 [1] None
               [[10]; [11]] MockReturn) 5 [1; 2] (Some 7) [12] MockRevert.

Definition ex_mock_call (v : Z) : Call :=
  {| ca_address := 5; ca_input := [1; 2; 3]; ca_value := Some v; ca_gas := 100 |}.

Definition ex_mocks : Mocks :=
  [({| mk_calldata := [1; 2]; mk_value := Some 7 |}, [{| mr_ret_type := MockRevert; mr_data := [12] |}]);
   ({| mk_calldata := [1]; mk_value := None |},
    [{| mr_ret_type := MockReturn; mr_data := [10] |}; {| mr_ret_type := MockReturn; mr_data := [11] |}])].

Lemma mocked_calls_correct_witness :
  mr_data <$> (answer_mock ex_mock_state (ex_mock_call 7)).2 = Some [12] ∧
  mr_data <$> (answer_mock (after_calls 4 ex_mock_state (ex_mock_call 0)) (ex_mock_call 0)).2 = Some [11].
Proof.
  split; [vm_compute; reflexivity|].
  assert (mocks_ok ex_mock_state) as Hs
    by (apply mock_calls_ok, mock_calls_ok; intros a m; simpl; by rewrite lookup_empty).
  destruct (mocked_calls_correct ex_mock_state (ex_mock_call 0) ex_mocks Hs
    ltac:(vm_compute; reflexivity)) as [[H _]|(e & (Hin & Hm & _) & Hans)].
  - discriminate (H ({| mk_calldata := [1]; mk_value := None |},
      [{| mr_ret_type := MockReturn; mr_data := [10] |}; {| mr_ret_type := MockReturn; mr_data := [11] |}])
      ltac:(right; left)).
  - unfold ex_mocks in Hin. rewrite !elem_of_cons, elem_of_nil in Hin. destruct Hin as [->|[->|[]]].
    + vm_compute in Hm. discriminate.
    + rewrite Hans by (vm_compute; discriminate). vm_compute. reflexivity.
Defined.

(** the check at the end of a test is right: when the counters start at
    zero, then after any calls it passes exactly when every counted expectation
    was met exactly as often as asked, and every other one at least as often. *)
Theorem expected_calls_correct (s : CallState) (cs : list Call) :
  (∀ target calldata e n, expected_at s target calldata = Some (e, n) → n = 0) →
  Z.of_nat (length cs) ≤ umax 64 →
  expected_calls_met (foldl count_call s cs) = true ↔
  ∀ target calldata e, expected_at s target calldata = Some (e, 0) →
    match ec_type e with
    | Count => ec_count e = Z.of_nat (seen cs target calldata e)
    | NonCount => ec_count e ≤ Z.of_nat (seen cs target calldata e)
    end.
Proof.
  intros H0 Hlen. rewrite expected_calls_met_spec.
  assert (∀ target calldata e, (seen cs target calldata e ≤ length cs)%nat) as Hle
    by (intros; apply length_filter).
  assert (∀ target calldata, expected_at (foldl count_call s cs) target calldata =
    (λ e, (e.1, Z.of_nat (seen cs target calldata e.1))) <$> expected_at s target calldata) as Hc.
  { intros target calldata. rewrite count_calls_at.
    - destruct (expected_at s target calldata) as [[e n]|] eqn:E; simpl; [|done].
      rewrite (H0 _ _ _ _ E), wrap_small; [done|]. specialize (Hle target calldata e). unfold is_u. lia.
    - intros e n E. rewrite (H0 _ _ _ _ E). unfold is_u, umax. lia. }
  split; intros H target calldata e.
  - intros E. specialize (H target calldata e (Z.of_nat (seen cs target calldata e))).
    rewrite Hc, E in H. by apply H.
  - intros n. rewrite Hc, fmap_Some. intros ([e0 n0] & E & [= -> ->]). simpl.
    pose proof (H0 _ _ _ _ E) as ->. by apply H.
Qed.

(** A call to 5 with data 1 expected twice, exactly. *)
Definition ex_expect_state : CallState :=
  (expect_call {| cs_mocked_calls := ∅; cs_expected_calls := ∅ |} 5 [1] None None None 2 Count).1.

Lemma ex_expected_at target calldata e n :
  expected_at ex_expect_state target calldata = Some (e, n) →
  target = 5 ∧ calldata = [1] ∧
  e = {| ec_value := None; ec_gas := None; ec_min_gas := None; ec_count := 2; ec_type := Count |} ∧ n = 0.
Proof.
  assert (cs_expected_calls ex_expect_state = {[5 := {[ [1] :=
    ({| ec_value := None; ec_gas := None; ec_min_gas := None; ec_count := 2; ec_type := Count |}, 0)]}]})
    as E by (vm_compute; reflexivity).
  unfold expected_at. rewrite E. rewrite bind_Some.
  intros (m & [<- <-]%lookup_singleton_Some & [<- [= <- <-]]%lookup_singleton_Some). done.
Qed.

Lemma expected_calls_correct_witness :
  expected_calls_met (foldl count_call ex_expect_state [ex_mock_call 0; ex_mock_call 1]) = true ∧
  expected_calls_met (foldl count_call ex_expect_state [ex_mock_call 0]) = false.
Proof.
  split; [|vm_compute; reflexivity].
  apply (expected_calls_correct ex_expect_state [ex_mock_call 0; ex_mock_call 1]).
  - intros target calldata e n E. apply (ex_expected_at _ _ _ _ E).
  - vm_compute. discriminate.
  - intros target calldata e (-> & -> & -> & _)%ex_expected_at. vm_compute. reflexivity.
Defined.

(** Two uncounted expectations of the same data with different values are
    merged into one for the first value, expected twice: a test that makes both
    calls fails. *)
Theorem expect_call_value_merged :
  let s := (expect_call (expect_call {| cs_mocked_calls := ∅; cs_expected_calls := ∅ |}
              5 [1] (Some 6) None None 1 NonCount).1 5 [1] (Some 7) None None 1 NonCount).1 in
  (expected_at s 5 [1] = Some ({| ec_value := Some 6; ec_gas := None; ec_min_gas := None;
                                  ec_count := 2; ec_type := NonCount |}, 0)) ∧
  expected_calls_met (foldl count_call s [ex_mock_call 6; ex_mock_call 7]) = false.
Proof. split; vm_compute; reflexivity. Qed.
