(* ===== verification/Prank.v ===== *)
(** * Pranks (crates/cheatcodes/src/evm/prank.rs and the prank parts of the
    hooks of crates/cheatcodes/src/inspector.rs)

    [vm.prank] and [vm.startPrank] make the next call, or all calls until
    [vm.stopPrank], of a contract come from another sender, and optionally from
    another origin.  Pranks are kept by the depth of the call stack they were set
    at; the hooks [call], [call_end], [create] and [create_end] apply and remove
    them.  Broadcasts, mocks and expectations are other parts of the inspector. *)

From stdpp Require Import prelude gmap list relations.
From S2P Require Import Prelude.

Open Scope Z_scope.

Record Prank := {
  pk_prank_caller : Z;
  pk_prank_origin : Z;
  pk_new_caller : Z;
  pk_new_origin : option Z;
  pk_depth : nat;
  pk_single_call : bool;
  pk_delegate_call : bool;
  pk_used : bool
}.

Definition prank_new (prank_caller prank_origin new_caller : Z) (new_origin : option Z) (depth : nat)
    (single_call delegate_call : bool) : Prank :=
  {| pk_prank_caller := prank_caller; pk_prank_origin := prank_origin; pk_new_caller := new_caller;
     pk_new_origin := new_origin; pk_depth := depth; pk_single_call := single_call;
     pk_delegate_call := delegate_call; pk_used := false |}.

Definition set_used (p : Prank) : Prank :=
  {| pk_prank_caller := pk_prank_caller p; pk_prank_origin := pk_prank_origin p;
     pk_new_caller := pk_new_caller p; pk_new_origin := pk_new_origin p; pk_depth := pk_depth p;
     pk_single_call := pk_single_call p; pk_delegate_call := pk_delegate_call p; pk_used := true |}.

Definition first_time_applied (p : Prank) : option Prank :=
  if pk_used p then None else Some (set_used p).

(** [pranks], [ecx.tx.caller] and whether a broadcast is active. *)
Record PrankState := {
  ps_pranks : gmap nat Prank;
  ps_tx_caller : Z;
  ps_broadcast : bool
}.

Inductive PrankError : Type :=
| AccountNotLoaded
| DelegateFromEoa
| PrankNotApplied
| OngoingPrank
| PrankInBroadcast.

(** What a hook sees and changes of a call. *)
Record CallInputs := { ci_caller : Z; ci_target : Z; ci_delegate : bool }.

Section prank.
Implicit Types (s : PrankState) (depth : nat).

(** [self.pranks.range(..=depth).last()]: the first prank found going down from
    [depth]. *)
Fixpoint find_below (m : gmap nat Prank) depth : option Prank :=
  match m !! depth with
  | Some p => Some p
  | None => match depth with O => None | S d => find_below m d end
  end.

Definition get_prank s depth : option Prank := find_below (ps_pranks s) depth.

Definition with_pranks s (m : gmap nat Prank) : PrankState :=
  {| ps_pranks := m; ps_tx_caller := ps_tx_caller s; ps_broadcast := ps_broadcast s |}.
Definition with_tx_caller s (a : Z) : PrankState :=
  {| ps_pranks := ps_pranks s; ps_tx_caller := a; ps_broadcast := ps_broadcast s |}.

(** The cheatcodes [prank] and [startPrank]; [account] is whether the pranked
    account could be loaded, and whether it has code. *)
Definition prank s (account : option bool) (caller : Z) depth (new_caller : Z)
    (new_origin : option Z) (single_call delegate_call : bool) : PrankState * result unit PrankError :=
  match account with
  | None => (s, Err AccountNotLoaded)
  | Some has_code =>
      if delegate_call && negb has_code then (s, Err DelegateFromEoa)
      else
        let current := get_prank s depth in
        if match current with Some p => negb (pk_used p) | None => false end
        then (s, Err PrankNotApplied)
        else if match current with Some p => negb (eqb single_call (pk_single_call p)) | None => false end
        then (s, Err OngoingPrank)
        else if ps_broadcast s then (s, Err PrankInBroadcast)
        else
          let p := prank_new caller (ps_tx_caller s) new_caller new_origin depth single_call delegate_call in
          (with_pranks s (<[depth := p]> (ps_pranks s)), Ok tt)
  end.

Definition stop_prank s depth : PrankState := with_pranks s (delete depth (ps_pranks s)).

(** [if let Some(new_origin) = prank.new_origin { ecx.tx.caller = new_origin }]. *)
Definition set_origin s (p : Prank) : PrankState :=
  match pk_new_origin p with Some o => with_tx_caller s o | None => s end.

(** A prank that was applied for the first time is stored as used, at the depth
    of the call. *)
Definition mark_applied s (p : Prank) (applied : bool) depth : PrankState :=
  if applied then
    match first_time_applied p with
    | Some p' => with_pranks s (<[depth := p']> (ps_pranks s))
    | None => s
    end
  else s.

(** The prank part of the hook [call]. *)
Definition call_prank s depth (call : CallInputs) : PrankState * CallInputs :=
  match get_prank s depth with
  | None => (s, call)
  | Some p =>
      let '(s, call) :=
        if pk_delegate_call p && (depth =? pk_depth p)%nat && ci_delegate call then
          (set_origin s p,
           {| ci_caller := pk_new_caller p; ci_target := pk_new_caller p; ci_delegate := ci_delegate call |})
        else (s, call) in
      if (pk_depth p <=? depth)%nat && (ci_caller call =? pk_prank_caller p) then
        let at_depth := (depth =? pk_depth p)%nat in
        let call :=
          if at_depth then {| ci_caller := pk_new_caller p; ci_target := ci_target call;
                              ci_delegate := ci_delegate call |}
          else call in
        let applied := at_depth || bool_decide (is_Some (pk_new_origin p)) in
        (mark_applied (set_origin s p) p applied depth, call)
      else (s, call)
  end.

(** The prank part of [create]; [loaded] is whether the pranked account could be
    loaded: if not, the creation reverts. *)
Definition create_prank s depth (loaded : bool) (caller : Z) : PrankState * option Z :=
  match get_prank s depth with
  | None => (s, Some caller)
  | Some p =>
      if (pk_depth p <=? depth)%nat && (caller =? pk_prank_caller p) then
        let at_depth := (depth =? pk_depth p)%nat in
        if at_depth && negb loaded then (s, None)
        else
          let applied := at_depth || bool_decide (is_Some (pk_new_origin p)) in
          (mark_applied (set_origin s p) p applied depth,
           Some (if at_depth then pk_new_caller p else caller))
      else (s, Some caller)
  end.

(** The cleanup in [call_end]; cheatcode calls do not clean up. *)
Definition call_end s depth (cheatcode_call : bool) : PrankState :=
  if cheatcode_call then s
  else
    match get_prank s depth with
    | None => s
    | Some p =>
        if (depth =? pk_depth p)%nat then
          let s := with_tx_caller s (pk_prank_origin p) in
          if pk_single_call p then with_pranks s (delete depth (ps_pranks s)) else s
        else s
    end.

(** The cleanup in [create_end]: [std::mem::take] of all pranks. *)
Definition create_end s depth : PrankState :=
  match get_prank s depth with
  | None => s
  | Some p =>
      if (depth =? pk_depth p)%nat then
        let s := with_tx_caller s (pk_prank_origin p) in
        if pk_single_call p then with_pranks s ∅ else s
      else s
  end.
End prank.

(** ** Specification *)

Lemma find_below_spec m d p :
  find_below m d = Some p ↔ ∃ k, (k ≤ d)%nat ∧ m !! k = Some p ∧ ∀ k', (k < k' ≤ d)%nat → m !! k' = None.
Proof.
  induction d as [|d IH]; simpl.
  - destruct (m !! 0%nat) as [q|] eqn:E.
    + split; [intros [= ->]; exists 0%nat; split_and!; [lia|done|lia]|].
      intros (k & Hk & Ek & _). assert (k = 0%nat) as -> by lia. congruence.
    + split; [done|]. intros (k & Hk & Ek & _). assert (k = 0%nat) as -> by lia. congruence.
  - destruct (m !! S d) as [q|] eqn:E.
    + split; [intros [= ->]; exists (S d); split_and!; [lia|done|lia]|].
      intros (k & Hk & Ek & Hn). destruct (decide (k = S d)) as [->|Hne]; [congruence|].
      rewrite Hn in E by lia. done.
    + rewrite IH. split.
      * intros (k & Hk & Ek & Hn). exists k. split_and!; [lia|done|]. intros k' Hk'.
        destruct (decide (k' = S d)) as [->|]; [done|]. apply Hn. lia.
      * intros (k & Hk & Ek & Hn). destruct (decide (k = S d)) as [->|Hne]; [congruence|].
        exists k. split_and!; [lia|done|]. intros k' Hk'. apply Hn. lia.
Qed.

Lemma find_below_single d d' p :
  find_below {[d := p]} d' = if (d <=? d')%nat then Some p else None.
Proof.
  destruct (Nat.leb_spec d d') as [Hle|Hlt].
  - apply find_below_spec. exists d. split_and!; [done|apply lookup_singleton_eq|].
    intros k' Hk'. by rewrite lookup_singleton_ne by lia.
  - apply eq_None_not_Some. intros [q (k & Hk & [-> _]%lookup_singleton_Some & _)%find_below_spec]. lia.
Qed.

(** What happens inside a call made at depth [d]: hooks at larger depths. *)
Inductive inner_step (d : nat) : PrankState → PrankState → Prop :=
| inner_call s d' call : (d < d')%nat → inner_step d s (call_prank s d' call).1
| inner_end s d' cheatcode : (d < d')%nat → inner_step d s (call_end s d' cheatcode)
| inner_create s d' loaded caller : (d < d')%nat → inner_step d s (create_prank s d' loaded caller).1
| inner_create_end s d' : (d < d')%nat → inner_step d s (create_end s d').

(** With one prank at depth [d] that is used and whose origin is in place,
    nothing changes at larger depths, and no other call is affected. *)
Lemma inner_quiet d s p :
  ps_pranks s = {[d := p]} → pk_depth p = d → pk_used p = true →
  (∀ o, pk_new_origin p = Some o → ps_tx_caller s = o) →
  ∀ d', (d < d')%nat →
    (∀ call, call_prank s d' call = (s, call)) ∧ (∀ b, call_end s d' b = s) ∧
    (∀ loaded caller, create_prank s d' loaded caller = (s, Some caller)) ∧ create_end s d' = s.
Proof.
  intros Hp Hd Hu Ho d' Hlt.
  assert (get_prank s d' = Some p) as Hg.
  { unfold get_prank. rewrite Hp, find_below_single. by rewrite (proj2 (Nat.leb_le d d')) by lia. }
  assert (set_origin s p = s) as Hso.
  { unfold set_origin. destruct (pk_new_origin p) as [o|] eqn:E; [|done].
    rewrite <- (Ho o eq_refl). by destruct s. }
  assert (∀ b, mark_applied s p b d' = s) as Hma
    by (intros []; unfold mark_applied, first_time_applied; by rewrite ?Hu).
  assert ((d' =? pk_depth p)%nat = false) as Hne by (apply Nat.eqb_neq; lia).
  split_and!.
  - intros call. unfold call_prank. rewrite Hg, Hne, andb_false_r. simpl. rewrite Hso, Hma. by case_match.
  - intros []; [done|]. unfold call_end. by rewrite Hg, Hne.
  - intros loaded caller. unfold create_prank. rewrite Hg, Hne. simpl. rewrite Hso, Hma. by case_match.
  - unfold create_end. by rewrite Hg, Hne.
Qed.

Lemma inner_steps_quiet d s p :
  ps_pranks s = {[d := p]} → pk_depth p = d → pk_used p = true →
  (∀ o, pk_new_origin p = Some o → ps_tx_caller s = o) →
  ∀ s', rtc (inner_step d) s s' → s' = s.
Proof.
  intros Hp Hd Hu Ho s' Hs. induction Hs as [|x y z Hxy _ IH]; [done|].
  pose proof (inner_quiet d x p Hp Hd Hu Ho) as Hq.
  assert (y = x) as ->; [|by apply IH].
  destruct Hxy as [x d' call Hlt|x d' b Hlt|x d' loaded caller Hlt|x d' Hlt];
    destruct (Hq d' Hlt) as (Q1 & Q2 & Q3 & Q4); rewrite ?Q1, ?Q2, ?Q3, ?Q4; done.
Qed.

(** The state after a prank was set where there was none, and applied. *)
Lemma prank_applied s caller d new_caller new_origin single :
  ps_pranks s = ∅ → ps_broadcast s = false →
  let p := prank_new caller (ps_tx_caller s) new_caller new_origin d single false in
  let s1 := with_pranks s {[d := p]} in
  let s2 := {| ps_pranks := {[d := set_used p]};
               ps_tx_caller := default (ps_tx_caller s) new_origin; ps_broadcast := false |} in
  (∀ account, prank s (Some account) caller d new_caller new_origin single false = (s1, Ok tt)) ∧
  (∀ target, call_prank s1 d {| ci_caller := caller; ci_target := target; ci_delegate := false |} =
     (s2, {| ci_caller := new_caller; ci_target := target; ci_delegate := false |})) ∧
  (∀ target, call_prank (with_tx_caller s2 (ps_tx_caller s)) d
       {| ci_caller := caller; ci_target := target; ci_delegate := false |} =
     (s2, {| ci_caller := new_caller; ci_target := target; ci_delegate := false |})) ∧
  call_end s2 d false =
    (if single then s else with_tx_caller s2 (ps_tx_caller s)).
Proof.
  intros He Hb p s1 s2.
  assert (∀ q, find_below {[d := q]} d = Some q) as Hf
    by (intros q; rewrite find_below_single; by rewrite Nat.leb_refl).
  split_and!.
  - intros account. unfold prank, get_prank. rewrite He.
    assert (find_below ∅ d = None) as ->
      by (apply eq_None_not_Some; intros [q (k & _ & Hk & _)%find_below_spec]; by rewrite lookup_empty in Hk).
    simpl. rewrite Hb. done.
  - intros target. unfold call_prank, get_prank, s1; cbn [ps_pranks with_pranks]. rewrite Hf.
    unfold p; simpl. rewrite Nat.leb_refl, Nat.eqb_refl, Z.eqb_refl. simpl.
    unfold mark_applied, set_origin; simpl. unfold s2, p, with_pranks, with_tx_caller.
    destruct new_origin; simpl; by rewrite insert_singleton_eq, ?Hb.
  - intros target. unfold call_prank, get_prank, s2; cbn [ps_pranks with_tx_caller]. rewrite Hf.
    unfold p; simpl. rewrite Nat.leb_refl, Nat.eqb_refl, Z.eqb_refl. simpl.
    unfold mark_applied, set_origin; simpl. destruct new_origin; done.
  - unfold call_end, get_prank, s2; cbn [ps_pranks]. rewrite Hf. unfold p; simpl.
    rewrite Nat.eqb_refl. destruct single; [|done]. unfold with_pranks, with_tx_caller; simpl.
    rewrite delete_singleton_eq. destruct s; simpl in *. by subst.
Qed.

(** ** Properties *)

(** C36: a prank is set for a caller without delegate calls, where there is no
    prank and no broadcast, on an account that loads.  The next plain call (no
    delegate call) the contract makes at that depth comes from the new sender and
    origin.  As long as the calls, creations and ends inside that call set and
    stop no prank themselves, they leave the prank alone and none of them is
    changed; when the call returns, the origin is the old one, and a single prank
    is gone while a started one applies to the next call in the same way. *)
Theorem prank_correct (s : PrankState) (caller : Z) (d : nat) (new_caller : Z) (new_origin : option Z)
    (single : bool) (target : Z) :
  ps_pranks s = ∅ → ps_broadcast s = false →
  let call := {| ci_caller := caller; ci_target := target; ci_delegate := false |} in
  let pranked := {| ci_caller := new_caller; ci_target := target; ci_delegate := false |} in
  ∃ s1 s2, prank s (Some true) caller d new_caller new_origin single false = (s1, Ok tt) ∧
    call_prank s1 d call = (s2, pranked) ∧ ps_tx_caller s2 = default (ps_tx_caller s) new_origin ∧
    (∀ s3, rtc (inner_step d) s2 s3 → s3 = s2) ∧
    (∀ d' c, (d < d')%nat → call_prank s2 d' c = (s2, c)) ∧
    let s4 := call_end s2 d false in
    ps_tx_caller s4 = ps_tx_caller s ∧
    if single then s4 = s else call_prank s4 d call = (s2, pranked).
Proof.
  intros He Hb call pranked.
  destruct (prank_applied s caller d new_caller new_origin single He Hb) as (P1 & P2 & P3 & P4).
  eexists _, _. split; [apply P1|]. split; [apply P2|]. split; [done|].
  assert (∀ o, pk_new_origin (set_used (prank_new caller (ps_tx_caller s) new_caller new_origin d single false))
    = Some o → default (ps_tx_caller s) new_origin = o) as Ho by (simpl; by intros o ->).
  split; [intros s3; by eapply inner_steps_quiet|]. split.
  - intros d' c Hlt. by eapply inner_quiet.
  - cbn zeta. rewrite P4. destruct single; [done|]. split; [done|]. apply P3.
Qed.

Definition ex_prank_state : PrankState :=
  {| ps_pranks := ∅; ps_tx_caller := 100; ps_broadcast := false |}.

Lemma prank_correct_witness :
  ∃ s1 s2, prank ex_prank_state (Some true) 1 1 7 (Some 8) true false = (s1, Ok tt) ∧
    call_prank s1 1 {| ci_caller := 1; ci_target := 2; ci_delegate := false |} =
      (s2, {| ci_caller := 7; ci_target := 2; ci_delegate := false |}) ∧
    ps_tx_caller s2 = 8 ∧
    call_prank s2 2 {| ci_caller := 2; ci_target := 1; ci_delegate := false |} =
      (s2, {| ci_caller := 2; ci_target := 1; ci_delegate := false |}) ∧
    call_end s2 1 false = ex_prank_state.
Proof.
  destruct (prank_correct ex_prank_state 1 1 7 (Some 8) true 2 eq_refl eq_refl)
    as (s1 & s2 & E1 & E2 & E3 & _ & Hin & _ & E4). exists s1, s2.
  split; [exact E1|]. split; [exact E2|]. split; [exact E3|]. split; [|exact E4].
  apply Hin. lia.
Defined.

(** The origin of a single prank can outlive it: when the pranked contract
    makes the next call by a delegate call into a library, and the library makes
    the first call in its name one level deeper, the prank is recorded as used
    at that depth; the end of the outer call removes only the entry of its own
    depth, and every later call of the contract at the deeper level gets the
    pranked origin again. *)
Theorem prank_origin_leaks :
  let s1 := (prank ex_prank_state (Some true) 1 1 7 (Some 8) true false).1 in
  let s2 := (call_prank s1 1 {| ci_caller := 50; ci_target := 1; ci_delegate := true |}).1 in
  let s3 := (call_prank s2 2 {| ci_caller := 1; ci_target := 3; ci_delegate := false |}).1 in
  let s4 := call_end (call_end s3 2 false) 1 false in
  ps_tx_caller s4 = 100 ∧ get_prank s4 1 = None ∧ is_Some (get_prank s4 2) ∧
  ps_tx_caller (call_prank s4 2 {| ci_caller := 1; ci_target := 4; ci_delegate := false |}).1 = 8.
Proof. vm_compute. split_and!; eauto. Qed.

(** a contract creation under a single prank ends every prank: when the
    callee of a call under a single prank with an origin pranks once itself and
    creates a contract, the prank of the outer call is gone, and the end of that
    call does not restore the origin; after a call in place of the creation it
    does. *)
Theorem create_end_loses_origin :
  let s1 := (prank ex_prank_state (Some true) 1 1 7 (Some 8) true false).1 in
  let s2 := (call_prank s1 1 {| ci_caller := 1; ci_target := 2; ci_delegate := false |}).1 in
  let s3 := (prank s2 (Some true) 2 2 9 None true false).1 in
  let created := create_end (create_prank s3 2 true 2).1 2 in
  let called :=
    call_end (call_prank s3 2 {| ci_caller := 2; ci_target := 3; ci_delegate := false |}).1 2 false in
  ps_tx_caller (call_end called 1 false) = 100 ∧ ps_tx_caller (call_end created 1 false) = 8 ∧
  ps_pranks created = ∅.
Proof. vm_compute. by split_and!. Qed.
