(* ===== verification/Filters.v ===== *)
(** * Filters and subscriptions (crates/anvil/src/filter.rs, pubsub.rs)

    A client learns about new blocks and logs in two ways: it polls a filter it
    installed, or the node pushes the items of a subscription.  Both read block
    notifications from a channel and look the block up in the storage of the
    chain.  The channels of the crate futures are the interface [Receiver]; the
    matching of alloy's filter parameters is the interface [FilterOps].  The
    specification is exactly-once delivery, in order. *)

From stdpp Require Import prelude gmap list strings.
From S2P Require Import Prelude Containers Transaction PendingPool ReadyPool Pool Fees Env TimeManager Cheats Validate BlockStates Block Chain Executor Mine Miner.

Open Scope Z_scope.

(** ** Channels *)

(** The receiving half of a channel: [poll_next] of the stream, [rx_send] for
    what the sending half does to it, and what it holds. *)
Class Receiver (R : Type → Type) := {
  poll_next : ∀ {A}, R A → R A * Poll (option A);
  rx_send : ∀ {A}, R A → A → R A;
  rx_contents : ∀ {A}, R A → list A;
  rx_closed : ∀ {A}, R A → bool
}.

(** A poll takes the first message; without one it is pending while there is a
    sender, and ended otherwise. *)
Class ReceiverLaws (R : Type → Type) {rx : Receiver R} := {
  poll_some : ∀ {A} (r : R A) x l, rx_contents r = x :: l →
    ∃ r', poll_next r = (r', PollReady (Some x)) ∧ rx_contents r' = l ∧ rx_closed r' = rx_closed r;
  poll_empty : ∀ {A} (r : R A), rx_contents r = [] →
    ∃ r', poll_next r = (r', if rx_closed r then PollReady None else PollPending) ∧
      rx_contents r' = [] ∧ rx_closed r' = rx_closed r;
  send_contents : ∀ {A} (r : R A) x, rx_contents (rx_send r x) = rx_contents r ++ [x];
  send_closed : ∀ {A} (r : R A) x, rx_closed (rx_send r x) = rx_closed r
}.

(** alloy's [FilteredParams]. *)
Class FilterOps (Filter FilteredParams : Type) := {
  fp_filter : FilteredParams → option Filter;
  filter_block_range : FilteredParams → Z → bool;
  filter_block_hash : FilteredParams → B256 → bool;
  filter_address : FilteredParams → Bytes → bool;
  filter_topics : FilteredParams → list Bytes → bool
}.

Record NewBlockNotification := { nb_hash : B256; nb_header : Header }.

(** A log of the RPC interface. *)
Record RpcLog := {
  rl_inner : Log;
  rl_block_hash : option B256;
  rl_block_number : option Z;
  rl_transaction_hash : option B256;
  rl_transaction_index : option Z;
  rl_log_index : option Z;
  rl_removed : bool;
  rl_block_timestamp : option Z
}.

Section filters.
Context {ext : TxExternals} {bext : BlockExternals} {rt : RevmTypes}.
Context {R : Type → Type} {rx : Receiver R}.
Context {Filter FilteredParams : Type} {fops : FilterOps Filter FilteredParams}.
Abbreviation Storage := (BlockchainStorage MinedTransaction).
Abbreviation NewBlockNotifications := (R NewBlockNotification).
Implicit Types (st : Storage) (params : FilteredParams) (block : Block).

(** ** The logs of a block *)

(** [Backend::mined_receipts]. *)
Definition mined_receipts st (hash : B256) : option (list TypedReceipt) :=
  block ← blocks st !! hash;
  mapM (λ tx, mined_receipt <$> transactions st !! mit_hash tx) (blk_transactions block).

Definition add_log (block_hash : B256) (l : Log) block params : bool :=
  match fp_filter params with
  | Some _ =>
      filter_block_range params (hd_number block) && filter_block_hash params block_hash &&
      filter_address params (log_address l) && filter_topics params (log_topics l)
  | None => true
  end.

(** One log of the receipt with the given index; the index of the log is a
    [u32]. *)
Definition push_log block params (transaction_hash : B256) (receipt_index : nat)
    (s : list RpcLog * Z) (log : Log) : list RpcLog * Z :=
  let '(logs, log_index) := s in
  let block_hash := header_hash_slow (blk_header block) in
  (if add_log block_hash log block params then
     logs ++ [{| rl_inner := log; rl_block_hash := Some block_hash;
                 rl_block_number := Some (hd_number block);
                 rl_transaction_hash := Some transaction_hash;
                 rl_transaction_index := Some (Z.of_nat receipt_index);
                 rl_log_index := Some log_index; rl_removed := false;
                 rl_block_timestamp := Some (h_timestamp (blk_header block)) |}]
   else logs,
   log_index +w[32] 1).

Definition filter_receipt block params (s : list RpcLog * Z) (e : nat * TypedReceipt)
    : outcome (list RpcLog * Z) :=
  tx ← expect (blk_transactions block !! e.1);
  Ret (foldl (push_log block params (mit_hash tx) e.1) s (rc_logs (receipt_of e.2))).

Definition filter_logs block (receipts : list TypedReceipt) params : outcome (list RpcLog) :=
  s ← foldM (filter_receipt block params) ([], 0) (imap pair receipts);
  Ret s.1.

(** The logs of a notified block, if the block and its receipts are stored. *)
Definition notified_logs st params (hash : B256) : outcome (option (list RpcLog)) :=
  match mined_receipts st hash, blocks st !! hash with
  | Some receipts, Some block => logs ← filter_logs block receipts params; Ret (Some logs)
  | _, _ => Ret None
  end.

(** ** Filters *)

Record LogsFilter := {
  lf_blocks : NewBlockNotifications;
  lf_filter : FilteredParams;
  lf_historic : option (list RpcLog)
}.

(** One turn of [while let Poll::Ready(Some(block)) = ..]. *)
Definition logs_body st params (s : NewBlockNotifications * list RpcLog)
    : outcome (flow (NewBlockNotifications * list RpcLog) (NewBlockNotifications * list RpcLog)) :=
  match poll_next s.1 with
  | (r, PollReady (Some n)) =>
      o ← notified_logs st params (nb_hash n);
      Ret (Continue (r, s.2 ++ default [] o))
  | (r, _) => Ret (Break (r, s.2))
  end.

Definition logs_filter_poll st (f : LogsFilter) : outcome (LogsFilter * list RpcLog) :=
  let logs := default [] (lf_historic f) in
  '(r, logs) ← run (S (length (rx_contents (lf_blocks f)))) (logs_body st (lf_filter f))
                 (lf_blocks f, logs);
  Ret ({| lf_blocks := r; lf_filter := lf_filter f; lf_historic := None |}, logs).

(** The same loop for hashes. *)
Definition drain_body {A} (hash : A → B256) (s : R A * list B256)
    : outcome (flow (R A * list B256) (R A * list B256)) :=
  match poll_next s.1 with
  | (r, PollReady (Some x)) => Ret (Continue (r, s.2 ++ [hash x]))
  | (r, _) => Ret (Break (r, s.2))
  end.

Definition drain {A} (hash : A → B256) (r : R A) : outcome (R A * list B256) :=
  run (S (length (rx_contents r))) (drain_body hash) (r, []).

Inductive EthFilter : Type :=
| FLogs (f : LogsFilter)
| FBlocks (blocks : NewBlockNotifications)
| FPendingTransactions (txs : R TxHash).

(** The answer to a poll. *)
Inductive Changes : Type := CLogs (l : list RpcLog) | CHashes (l : list B256) | CNone.

(** [poll_next] of the filter is always ready with an item. *)
Definition filter_poll st (f : EthFilter) : outcome (EthFilter * Changes) :=
  match f with
  | FLogs f => '(f, logs) ← logs_filter_poll st f; Ret (FLogs f, CLogs logs)
  | FBlocks r => '(r, l) ← drain nb_hash r; Ret (FBlocks r, CHashes l)
  | FPendingTransactions r => '(r, l) ← drain id r; Ret (FPendingTransactions r, CHashes l)
  end.

(** Filters by id with their deadlines. *)
Record Filters := {
  active_filters : gmap string (EthFilter * Z);
  keepalive : Z
}.

Definition ACTIVE_FILTER_TIMEOUT_SECS : Z := 60 * 5.
Definition filters_default : Filters :=
  {| active_filters := ∅; keepalive := ACTIVE_FILTER_TIMEOUT_SECS |}.

Definition with_active (fs : Filters) (m : gmap string (EthFilter * Z)) : Filters :=
  {| active_filters := m; keepalive := keepalive fs |}.

Definition next_deadline (fs : Filters) (now : Z) : Z := now + keepalive fs.

(** [id] is the random id of the new filter. *)
Definition add_filter (fs : Filters) (now : Z) (id : string) (f : EthFilter) : Filters :=
  with_active fs (<[id := (f, next_deadline fs now)]> (active_filters fs)).

Definition get_filter_changes st (fs : Filters) (now : Z) (id : string)
    : outcome (Filters * Changes) :=
  match active_filters fs !! id with
  | Some (f, _) =>
      '(f, c) ← filter_poll st f;
      Ret (with_active fs (<[id := (f, next_deadline fs now)]> (active_filters fs)), c)
  | None => Ret (fs, CNone)
  end.

Definition get_log_filter (fs : Filters) (id : string) : option Filter :=
  match active_filters fs !! id with
  | Some (FLogs f, _) => fp_filter (lf_filter f)
  | _ => None
  end.

Definition uninstall_filter (fs : Filters) (id : string) : Filters * option EthFilter :=
  (with_active fs (delete id (active_filters fs)), fst <$> active_filters fs !! id).

Definition evict (fs : Filters) (now : Z) : Filters :=
  with_active fs (filter (λ e, ¬ (e.2.2 < now)) (active_filters fs)).

(** ** Subscriptions *)

Context {SubscriptionId RpcBlock RpcTransaction : Type} (convert_block : Block → RpcBlock).

Record LogsSubscription := {
  ls_blocks : NewBlockNotifications;
  ls_filter : FilteredParams;
  ls_queued : list RpcLog;
  ls_id : SubscriptionId
}.

Definition with_stream (s : LogsSubscription) (r : NewBlockNotifications) (queued : list RpcLog)
    : LogsSubscription :=
  {| ls_blocks := r; ls_filter := ls_filter s; ls_queued := queued; ls_id := ls_id s |}.

(** One turn of the loop of [LogsSubscription::poll]. *)
Definition subscription_body st (s : LogsSubscription)
    : outcome (flow LogsSubscription (LogsSubscription * Poll (option RpcLog))) :=
  match ls_queued s with
  | log :: queued => Ret (Break (with_stream s (ls_blocks s) queued, PollReady (Some log)))
  | [] =>
      match poll_next (ls_blocks s) with
      | (r, PollPending) => Ret (Break (with_stream s r [], PollPending))
      | (r, PollReady None) => Ret (Break (with_stream s r [], PollReady None))
      | (r, PollReady (Some n)) =>
          o ← notified_logs st (ls_filter s) (nb_hash n);
          match o with
          | Some [] => Ret (Continue (with_stream s r []))
          | _ =>
              let queued := default [] o in
              if bool_decide (queued = []) then Ret (Break (with_stream s r queued, PollPending))
              else Ret (Continue (with_stream s r queued))
          end
      end
  end.

Definition subscription_poll st (s : LogsSubscription)
    : outcome (LogsSubscription * Poll (option RpcLog)) :=
  run (S (S (length (rx_contents (ls_blocks s))))) (subscription_body st) s.

(** The loop for headers: blocks that are not stored are skipped. *)
Definition header_body st (r : NewBlockNotifications)
    : outcome (flow NewBlockNotifications (NewBlockNotifications * Poll (option RpcBlock))) :=
  match poll_next r with
  | (r, PollPending) => Ret (Break (r, PollPending))
  | (r, PollReady None) => Ret (Break (r, PollReady None))
  | (r, PollReady (Some n)) =>
      match blocks st !! nb_hash n with
      | Some block => Ret (Break (r, PollReady (Some (convert_block block))))
      | None => Ret (Continue r)
      end
  end.

Definition header_poll st (r : NewBlockNotifications)
    : outcome (NewBlockNotifications * Poll (option RpcBlock)) :=
  run (S (length (rx_contents r))) (header_body st) r.

Inductive EthSubscription : Type :=
| SLogs (s : LogsSubscription)
| SHeader (blocks : NewBlockNotifications) (id : SubscriptionId)
| SPendingTransactions (txs : R TxHash) (id : SubscriptionId)
| SFullPendingTransactions (txs : R RpcTransaction) (id : SubscriptionId).

Inductive SubscriptionItem : Type :=
| ILog (l : RpcLog) | IHeader (b : RpcBlock) | ITransactionHash (h : TxHash)
| ITransaction (t : RpcTransaction).

(** [Poll::map] and [Option::map], with the id of the subscription. *)
Definition poll_item {A} (id : SubscriptionId) (f : A → SubscriptionItem) (p : Poll (option A))
    : Poll (option (SubscriptionId * SubscriptionItem)) :=
  match p with
  | PollReady o => PollReady ((λ x, (id, f x)) <$> o)
  | PollPending => PollPending
  end.

Definition poll_response st (s : EthSubscription)
    : outcome (EthSubscription * Poll (option (SubscriptionId * SubscriptionItem))) :=
  match s with
  | SLogs s => '(s, p) ← subscription_poll st s; Ret (SLogs s, poll_item (ls_id s) ILog p)
  | SHeader r id => '(r, p) ← header_poll st r; Ret (SHeader r id, poll_item id IHeader p)
  | SPendingTransactions r id =>
      let '(r, p) := poll_next r in Ret (SPendingTransactions r id, poll_item id ITransactionHash p)
  | SFullPendingTransactions r id =>
      let '(r, p) := poll_next r in Ret (SFullPendingTransactions r id, poll_item id ITransaction p)
  end.
End filters.

(** ** Specification *)

(** *** The logs of a block *)

Section logs_spec.
Context {ext : TxExternals} {bext : BlockExternals} {rt : RevmTypes}.
Context {Filter FilteredParams : Type} {fops : FilterOps Filter FilteredParams}.
Implicit Types (params : FilteredParams) (block : Block).

(** All logs of the receipts, with the index of the receipt. *)
Definition indexed_logs (receipts : list TypedReceipt) : list (nat * Log) :=
  concat (imap (λ i r, pair i <$> rc_logs (receipt_of r)) receipts).

(** The log with the given position in the block. *)
Definition rpc_log block (position : nat) (e : nat * Log) : RpcLog :=
  {| rl_inner := e.2; rl_block_hash := Some (header_hash_slow (blk_header block));
     rl_block_number := Some (hd_number block);
     rl_transaction_hash := mit_hash <$> blk_transactions block !! e.1;
     rl_transaction_index := Some (Z.of_nat e.1);
     rl_log_index := Some (wrap 32 (Z.of_nat position)); rl_removed := false;
     rl_block_timestamp := Some (h_timestamp (blk_header block)) |}.

Definition matches block params (l : RpcLog) : Prop :=
  add_log (header_hash_slow (blk_header block)) (rl_inner l) block params = true.
#[local] Instance matches_dec block params l : Decision (matches block params l).
Proof. unfold matches. apply _. Defined.

(** The specification of [filter_logs]: number all logs, keep the matching ones. *)
Definition matching_logs block (receipts : list TypedReceipt) params : list RpcLog :=
  filter (matches block params) (imap (rpc_log block) (indexed_logs receipts)).

Definition filtered block params (l : list (nat * Log)) (s : list RpcLog * Z) : Prop :=
  s = (filter (matches block params) (imap (rpc_log block) l), wrap 32 (Z.of_nat (length l))).

Lemma push_log_filtered block params i tx l log s :
  blk_transactions block !! i = Some tx → filtered block params l s →
  filtered block params (l ++ [(i, log)]) (push_log block params (mit_hash tx) i s log).
Proof.
  intros Ht ->. unfold filtered. rewrite imap_app, filter_app, length_app. simpl.
  rewrite Nat.add_0_r, filter_cons, filter_nil. f_equal.
  - case_decide as Hm; unfold matches in Hm; cbn [rl_inner rpc_log snd] in Hm.
    + rewrite Hm. unfold rpc_log; simpl. by rewrite Ht.
    + apply not_true_is_false in Hm. by rewrite Hm, app_nil_r.
  - rewrite wrap_add_l by lia. f_equal. lia.
Qed.

Lemma push_logs_filtered block params i tx logs l s :
  blk_transactions block !! i = Some tx → filtered block params l s →
  filtered block params (l ++ (pair i <$> logs))
    (foldl (push_log block params (mit_hash tx) i) s logs).
Proof.
  intros Ht. revert l s. induction logs as [|log logs IH]; intros l s Hs; cbn [fmap list_fmap foldl].
  { by rewrite app_nil_r. }
  rewrite cons_middle, app_assoc. apply IH. by apply push_log_filtered.
Qed.

Lemma filter_logs_spec block receipts params :
  (length receipts ≤ length (blk_transactions block))%nat →
  filter_logs block receipts params = Ret (matching_logs block receipts params).
Proof.
  intros Hlen. unfold filter_logs.
  destruct (foldM_spec (filter_receipt block params)
    (λ d s, filtered block params (concat ((λ e, pair e.1 <$> rc_logs (receipt_of e.2)) <$> d)) s)
    (imap pair receipts) ([], 0)) as (s & -> & Hs); [done| |].
  - intros d e rest s E Hs. assert (e.1 < length (blk_transactions block))%nat as Hlt.
    { assert (e ∈ imap pair receipts) as He by (rewrite E; set_solver).
      apply elem_of_lookup_imap in He as (i & r & -> & Hr). simpl.
      apply lookup_lt_Some in Hr. lia. }
    apply lookup_lt_is_Some in Hlt as [tx Htx]. unfold filter_receipt. rewrite Htx. simpl.
    eexists. split; [reflexivity|]. rewrite fmap_app, concat_app. simpl. rewrite app_nil_r.
    by apply push_logs_filtered.
  - rewrite bind_Ret, Hs. simpl. unfold matching_logs, indexed_logs. do 3 f_equal.
    by rewrite fmap_imap.
Qed.
End logs_spec.

(** *** Polls *)

Section polls_spec.
Context {ext : TxExternals} {bext : BlockExternals} {rt : RevmTypes}.
Context {R : Type → Type} {rx : Receiver R} {laws : ReceiverLaws R}.
Context {Filter FilteredParams : Type} {fops : FilterOps Filter FilteredParams}.
Abbreviation Storage := (BlockchainStorage MinedTransaction).
Implicit Types (st : Storage) (params : FilteredParams) (n : NewBlockNotification).

(** The matching logs of a stored block. *)
Definition logs_of st params (hash : B256) : option (list RpcLog) :=
  block ← blocks st !! hash;
  receipts ← mined_receipts st hash;
  Some (matching_logs block receipts params).

Lemma notified_logs_spec st params hash :
  notified_logs st params hash = Ret (logs_of st params hash).
Proof.
  unfold notified_logs, logs_of. destruct (mined_receipts st hash) as [receipts|] eqn:Er;
    destruct (blocks st !! hash) as [block|] eqn:Eb; simpl; try done.
  rewrite filter_logs_spec; [done|]. unfold mined_receipts in Er. rewrite Eb in Er. simpl in Er.
  apply length_mapM in Er. lia.
Qed.

(** What the notifications in a channel still have to deliver. *)
Definition notified st params (l : list NewBlockNotification) : list RpcLog :=
  l ≫= λ n, default [] (logs_of st params (nb_hash n)).

(** A filter still has to deliver the historic logs and those of the notified
    blocks. *)
Definition outstanding st (f : LogsFilter (R := R)) : list RpcLog :=
  default [] (lf_historic f) ++ notified st (lf_filter f) (rx_contents (lf_blocks f)).

(** A poll of a filter hands out all of it. *)
Lemma logs_filter_poll_spec st (f : LogsFilter (R := R)) :
  ∃ f', logs_filter_poll st f = Ret (f', outstanding st f) ∧ lf_filter f' = lf_filter f ∧
    rx_contents (lf_blocks f') = [] ∧ lf_historic f' = None.
Proof.
  unfold logs_filter_poll.
  destruct (run_spec
    (λ s, s.2 ++ notified st (lf_filter f) (rx_contents s.1) = outstanding st f)
    (λ s, s.2 = outstanding st f ∧ rx_contents s.1 = [])
    (λ s, length (rx_contents s.1)) (logs_body st (lf_filter f))) with
    (fuel := S (length (rx_contents (lf_blocks f))))
    (s := (lf_blocks f, default [] (lf_historic f))) as ([r logs] & -> & El & Er);
    [|done|simpl; lia|].
  - intros [r logs] Hs. simpl in *. unfold logs_body; simpl.
    destruct (rx_contents r) as [|n l] eqn:Ec.
    + right. destruct (poll_empty r Ec) as (r' & -> & Ec' & _). exists (r', logs).
      rewrite app_nil_r in Hs. by destruct (rx_closed r).
    + left. destruct (poll_some r n l Ec) as (r' & -> & Ec' & _).
      rewrite notified_logs_spec, bind_Ret. eexists. split; [reflexivity|]. simpl.
      rewrite Ec', <- app_assoc. split; [exact Hs|]. simpl. lia.
  - simpl in *. subst. eexists. split; [reflexivity|]. done.
Qed.

Lemma drain_spec {A} (hash : A → B256) (r : R A) :
  ∃ r', drain hash r = Ret (r', hash <$> rx_contents r) ∧ rx_contents r' = [].
Proof.
  unfold drain.
  destruct (run_spec (λ s : R A * list B256, s.2 ++ (hash <$> rx_contents s.1) = hash <$> rx_contents r)
    (λ s, s.2 = hash <$> rx_contents r ∧ rx_contents s.1 = [])
    (λ s, length (rx_contents s.1)) (drain_body hash)) with
    (fuel := S (length (rx_contents r))) (s := (r, @nil B256)) as ([r' l] & -> & El & Er);
    [|done|simpl; lia|].
  - intros [r0 l] Hs. simpl in *. unfold drain_body; simpl.
    destruct (rx_contents r0) as [|x xs] eqn:Ec.
    + right. destruct (poll_empty r0 Ec) as (r' & -> & Ec' & _). exists (r', l).
      simpl in Hs. rewrite app_nil_r in Hs. by destruct (rx_closed r0).
    + left. destruct (poll_some r0 x xs Ec) as (r' & -> & Ec' & _). eexists. split; [reflexivity|].
      simpl. rewrite Ec', <- app_assoc. split; [exact Hs|]. simpl. lia.
  - simpl in *. subst. by exists r'.
Qed.

Lemma filter_poll_total st (f : EthFilter (R := R)) :
  ∃ f' c, filter_poll st f = Ret (f', c).
Proof.
  destruct f as [f|r|r]; simpl.
  - destruct (logs_filter_poll_spec st f) as (f' & -> & _). rewrite bind_Ret. eauto.
  - destruct (drain_spec nb_hash r) as (r' & -> & _). rewrite bind_Ret. eauto.
  - destruct (drain_spec id r) as (r' & -> & _). rewrite bind_Ret. eauto.
Qed.
End polls_spec.

(** *** Delivery by a filter *)

Section delivery.
Context {ext : TxExternals} {bext : BlockExternals} {rt : RevmTypes}.
Context {R : Type → Type} {rx : Receiver R} {laws : ReceiverLaws R}.
Context {Filter FilteredParams : Type} {fops : FilterOps Filter FilteredParams}.
Abbreviation Storage := (BlockchainStorage MinedTransaction).
Abbreviation EthFilter := (EthFilter (R := R) (FilteredParams := FilteredParams)).
Abbreviation Filters := (Filters (R := R) (FilteredParams := FilteredParams)).
Implicit Types (st : Storage) (params : FilteredParams) (fs : Filters).

(** A block notification reaches the channel of every active filter. *)
Definition notify_filter (n : NewBlockNotification) (f : EthFilter) : EthFilter :=
  match f with
  | FLogs f => FLogs {| lf_blocks := rx_send (lf_blocks f) n; lf_filter := lf_filter f;
                        lf_historic := lf_historic f |}
  | FBlocks r => FBlocks (rx_send r n)
  | FPendingTransactions r => FPendingTransactions r
  end.

Definition notify_filters fs (n : NewBlockNotification) : Filters :=
  with_active fs (prod_map (notify_filter n) id <$> active_filters fs).

(** The chain grows: nothing that is stored changes. *)
Definition grows st st' : Prop :=
  blocks st ⊆ blocks st' ∧ transactions st ⊆ transactions st'.

(** The node as seen by the client of one filter: the blocks notified since it
    was installed, the logs it was given and when it last used the filter. *)
Record Watched := {
  w_filters : Filters;
  w_storage : Storage;
  w_blocks : list B256;
  w_delivered : list RpcLog;
  w_last : Z
}.

Definition with_filters (w : Watched) fs : Watched :=
  {| w_filters := fs; w_storage := w_storage w; w_blocks := w_blocks w;
     w_delivered := w_delivered w; w_last := w_last w |}.

(** What happens to the node: new blocks, polls of this and of other filters,
    filters installed and removed, and evictions while the filter is in use. *)
Inductive watch_step (id : string) (w : Watched) : Watched → Prop :=
| ws_block st' n :
    grows (w_storage w) st' → is_Some (mined_receipts st' (nb_hash n)) →
    watch_step id w {| w_filters := notify_filters (w_filters w) n; w_storage := st';
                       w_blocks := w_blocks w ++ [nb_hash n]; w_delivered := w_delivered w;
                       w_last := w_last w |}
| ws_poll now fs logs :
    get_filter_changes (w_storage w) (w_filters w) now id = Ret (fs, CLogs logs) →
    watch_step id w {| w_filters := fs; w_storage := w_storage w; w_blocks := w_blocks w;
                       w_delivered := w_delivered w ++ logs; w_last := now |}
| ws_poll_other now id' fs c :
    id' ≠ id → get_filter_changes (w_storage w) (w_filters w) now id' = Ret (fs, c) →
    watch_step id w (with_filters w fs)
| ws_add now id' f :
    id' ≠ id → watch_step id w (with_filters w (add_filter (w_filters w) now id' f))
| ws_uninstall id' :
    id' ≠ id → watch_step id w (with_filters w (uninstall_filter (w_filters w) id').1)
| ws_evict now :
    now ≤ w_last w + keepalive (w_filters w) →
    watch_step id w (with_filters w (evict (w_filters w) now)).

(** What a client that polls now has got in all. *)
Definition all_logs st params (historic : list RpcLog) (hashes : list B256) : list RpcLog :=
  historic ++ (hashes ≫= λ h, default [] (logs_of st params h)).

Record watching (id : string) params (historic : list RpcLog) (w : Watched) (f : LogsFilter) : Prop := {
  wt_active : active_filters (w_filters w) !! id =
    Some (FLogs f, w_last w + keepalive (w_filters w));
  wt_params : lf_filter f = params;
  wt_stored : ∀ h, h ∈ w_blocks w → is_Some (mined_receipts (w_storage w) h);
  wt_channel : ∀ n, n ∈ rx_contents (lf_blocks f) → nb_hash n ∈ w_blocks w;
  wt_logs : w_delivered w ++ outstanding (w_storage w) f =
    all_logs (w_storage w) params historic (w_blocks w)
}.

Lemma grows_receipts st st' h l :
  grows st st' → mined_receipts st h = Some l → mined_receipts st' h = Some l.
Proof.
  intros [Hb Ht]. unfold mined_receipts. destruct (blocks st !! h) as [block|] eqn:E; [|done].
  eapply lookup_weaken in E as ->; [|done]. simpl. rewrite !mapM_Some.
  intros H. refine (Forall2_impl _ _ _ _ H _). intros tx r. destruct (transactions st !! mit_hash tx) as [m|] eqn:Em; [|done].
  by eapply lookup_weaken in Em as ->.
Qed.

Lemma grows_logs st st' params h :
  grows st st' → is_Some (mined_receipts st h) → logs_of st' params h = logs_of st params h.
Proof.
  intros Hg [l Hl]. unfold logs_of. rewrite Hl, (grows_receipts _ _ _ _ Hg Hl).
  destruct Hg as [Hb _]. unfold mined_receipts in Hl.
  destruct (blocks st !! h) as [block|] eqn:E; [|done]. by eapply lookup_weaken in E as ->.
Qed.

Lemma bind_ext_in {A B} (f g : A → list B) l :
  (∀ x, x ∈ l → f x = g x) → l ≫= f = l ≫= g.
Proof.
  induction l as [|x l IH]; intros H; [done|]. simpl. rewrite H by left.
  f_equal. apply IH. intros y Hy. apply H. by right.
Qed.

(** A new block is one more to deliver. *)
Lemma watching_block id params historic w f st' n :
  watching id params historic w f → grows (w_storage w) st' →
  is_Some (mined_receipts st' (nb_hash n)) →
  watching id params historic
    {| w_filters := notify_filters (w_filters w) n; w_storage := st';
       w_blocks := w_blocks w ++ [nb_hash n]; w_delivered := w_delivered w; w_last := w_last w |}
    {| lf_blocks := rx_send (lf_blocks f) n; lf_filter := lf_filter f; lf_historic := lf_historic f |}.
Proof.
  intros [Ha <- Hst Hch Hl] Hg Hn. split; simpl; [|done|..].
  - by rewrite lookup_fmap, Ha.
  - intros h [Hh| ->%list_elem_of_singleton]%elem_of_app; [|done].
    destruct (Hst h Hh) as [l E]. eexists. by eapply grows_receipts.
  - intros n'. rewrite send_contents. set_solver.
  - unfold outstanding, all_logs, notified in *. simpl.
    rewrite send_contents, !bind_app. simpl. rewrite !app_nil_r, !app_assoc. f_equal.
    rewrite (bind_ext_in _ (λ n, default [] (logs_of (w_storage w) (lf_filter f) (nb_hash n))))
      by (intros n' Hn'; rewrite (grows_logs (w_storage w)); eauto).
    rewrite (bind_ext_in (λ h, default [] (logs_of st' (lf_filter f) h))
               (λ h, default [] (logs_of (w_storage w) (lf_filter f) h)))
      by (intros h Hh; rewrite (grows_logs (w_storage w)); eauto).
    by rewrite <- app_assoc.
Qed.

(** A poll of the filter delivers what is outstanding and renews its deadline. *)
Lemma watching_poll id params historic w f now :
  watching id params historic w f →
  ∃ fs f', get_filter_changes (w_storage w) (w_filters w) now id =
      Ret (fs, CLogs (outstanding (w_storage w) f)) ∧
    watching id params historic
      {| w_filters := fs; w_storage := w_storage w; w_blocks := w_blocks w;
         w_delivered := w_delivered w ++ outstanding (w_storage w) f; w_last := now |} f'.
Proof.
  intros [Ha <- Hst Hch Hl]. unfold get_filter_changes. rewrite Ha. simpl.
  destruct (logs_filter_poll_spec (w_storage w) f) as (f' & -> & Ef & Ec & Eh).
  rewrite !bind_Ret. eexists _, f'. split; [reflexivity|]. split; simpl; try done.
  - by rewrite lookup_insert_eq.
  - rewrite Ec. by intros ? ?%elem_of_nil.
  - rewrite <- Hl. unfold outstanding at 2. rewrite Ec, Eh. simpl. by rewrite app_nil_r.
Qed.

(** Whatever leaves the filter itself alone. *)
Lemma watching_other id params historic w f fs :
  watching id params historic w f → keepalive fs = keepalive (w_filters w) →
  active_filters fs !! id = active_filters (w_filters w) !! id →
  watching id params historic (with_filters w fs) f.
Proof. intros [Ha Hp Hst Hch Hl] Hk Hf. split; simpl; try done. by rewrite Hf, Hk. Qed.

Lemma get_filter_changes_other st fs now id id' fs' c :
  id' ≠ id → get_filter_changes st fs now id' = Ret (fs', c) →
  keepalive fs' = keepalive fs ∧ active_filters fs' !! id = active_filters fs !! id.
Proof.
  intros Hne. unfold get_filter_changes. destruct (active_filters fs !! id') as [[f d]|].
  - destruct (filter_poll_total st f) as (f' & c' & ->). rewrite bind_Ret. intros [= <- <-]. simpl.
    by rewrite lookup_insert_ne.
  - by intros [= <- <-].
Qed.

(** An eviction removes exactly the filters whose deadline has passed. *)
Lemma evict_lookup fs now id f d :
  active_filters fs !! id = Some (f, d) →
  active_filters (evict fs now) !! id = if decide (d < now) then None else Some (f, d).
Proof.
  intros H. simpl. case_decide.
  - apply map_lookup_filter_None. right. intros x Hx. simplify_eq. simpl. lia.
  - by apply map_lookup_filter_Some_2.
Qed.

Lemma watch_step_watching id params historic w w' f :
  watching id params historic w f → watch_step id w w' →
  ∃ f', watching id params historic w' f'.
Proof.
  intros Hw. destruct 1 as [st' n Hg Hn|now fs logs E|now id' fs c Hne E|now id' f0 Hne|id' Hne|now Hnow].
  - eexists. by apply watching_block.
  - destruct (watching_poll _ _ _ _ _ now Hw) as (fs' & f' & E' & Hw').
    rewrite E in E'. injection E' as -> ->. by exists f'.
  - exists f. destruct (get_filter_changes_other _ _ _ _ _ _ _ Hne E). by apply watching_other.
  - exists f. apply watching_other; [done|done|]. simpl. by rewrite lookup_insert_ne.
  - exists f. apply watching_other; [done|done|]. simpl. by rewrite lookup_delete_ne.
  - exists f. apply watching_other; [done|done|].
    rewrite (evict_lookup _ now _ _ _ (wt_active _ _ _ _ _ Hw)), decide_False by lia.
    symmetry. apply Hw.
Qed.
End delivery.

(** *** Delivery by a subscription *)

Section subscriptions.
Context {ext : TxExternals} {bext : BlockExternals} {rt : RevmTypes}.
Context {R : Type → Type} {rx : Receiver R} {laws : ReceiverLaws R}.
Context {Filter FilteredParams : Type} {fops : FilterOps Filter FilteredParams}.
Context {SubscriptionId RpcBlock : Type} (convert_block : Block → RpcBlock).
Abbreviation Storage := (BlockchainStorage MinedTransaction).
Abbreviation LogsSubscription :=
  (LogsSubscription (R := R) (FilteredParams := FilteredParams) (SubscriptionId := SubscriptionId)).
Implicit Types (st : Storage) (s : LogsSubscription).

(** What a subscription still has to push. *)
Definition due st s : list RpcLog :=
  ls_queued s ++ notified st (ls_filter s) (rx_contents (ls_blocks s)).

(** All notified blocks are stored. *)
Definition all_stored st s : Prop :=
  ∀ n, n ∈ rx_contents (ls_blocks s) → is_Some (logs_of st (ls_filter s) (nb_hash n)).

(** The result of a poll in terms of what was due. *)
Definition pushed st s (r : LogsSubscription * Poll (option RpcLog)) : Prop :=
  all_stored st r.1 ∧ ls_filter r.1 = ls_filter s ∧
  rx_closed (ls_blocks r.1) = rx_closed (ls_blocks s) ∧
  match due st s with
  | log :: rest => r.2 = PollReady (Some log) ∧ due st r.1 = rest
  | [] => due st r.1 = [] ∧ rx_contents (ls_blocks r.1) = [] ∧
      r.2 = if rx_closed (ls_blocks s) then PollReady None else PollPending
  end.

Definition sub_measure s : nat :=
  (length (rx_contents (ls_blocks s)) + if decide (ls_queued s = []) then 1 else 0)%nat.

Lemma subscription_turn st s :
  all_stored st s →
  (∃ s', subscription_body st s = Ret (Continue s') ∧ all_stored st s' ∧
     ls_filter s' = ls_filter s ∧ due st s' = due st s ∧
     rx_closed (ls_blocks s') = rx_closed (ls_blocks s) ∧ (sub_measure s' < sub_measure s)%nat) ∨
  (∃ r, subscription_body st s = Ret (Break r) ∧ pushed st s r).
Proof.
  intros Hst. unfold subscription_body, sub_measure, pushed.
  destruct (ls_queued s) as [|log queued] eqn:Eq.
  2:{ right. eexists. split; [reflexivity|]. unfold due. by rewrite Eq. }
  destruct (rx_contents (ls_blocks s)) as [|n l] eqn:Ec.
  - right. destruct (poll_empty _ Ec) as (r & -> & Er & Ecl).
    assert (due st s = []) as Ed by (unfold due; by rewrite Eq, Ec).
    destruct (rx_closed (ls_blocks s)) eqn:E; (eexists; split; [reflexivity|]);
      rewrite Ed; unfold due, all_stored; simpl; rewrite Er; split_and!; try done;
      by intros ? ?%elem_of_nil.
  - left. destruct (poll_some _ _ _ Ec) as (r & -> & Er & Ecl).
    destruct (Hst n) as [logs El]; [rewrite Ec; by left|].
    rewrite notified_logs_spec, El, bind_Ret.
    assert (due st s = logs ++ notified st (ls_filter s) l) as ->.
    { unfold due. rewrite Eq, Ec. simpl. by rewrite El. }
    assert (∀ n, n ∈ rx_contents r → is_Some (logs_of st (ls_filter s) (nb_hash n))) as Hst'.
    { intros n' Hn'. apply Hst. rewrite Ec. right. by rewrite <- Er. }
    exists (with_stream s r logs). split; [by destruct logs|].
    unfold due; simpl. rewrite Er. split_and!; try done. destruct logs; simpl; lia.
Qed.

Lemma subscription_poll_spec st s :
  all_stored st s → ∃ r, subscription_poll st s = Ret r ∧ pushed st s r.
Proof.
  intros Hst. unfold subscription_poll.
  apply (run_spec (λ s', all_stored st s' ∧ ls_filter s' = ls_filter s ∧ due st s' = due st s ∧
                         rx_closed (ls_blocks s') = rx_closed (ls_blocks s)) _ sub_measure).
  - intros s' (Hs & Hf & Hd & Hc). destruct (subscription_turn st s' Hs) as
      [(s2 & -> & H1 & H2 & H3 & H4 & H5)|(r & -> & H1 & H2 & H3 & H4)]; [left|right].
    + exists s2. split_and!; try done; congruence.
    + exists r. split; [done|]. unfold pushed. rewrite <- Hd, <- Hc. split_and!; try done. congruence.
  - done.
  - unfold sub_measure. case_decide; lia.
Qed.

(** A pending poll for headers has emptied the channel. *)
Lemma header_poll_spec st (r : R NewBlockNotification) :
  ∃ r' p, header_poll convert_block st r = Ret (r', p) ∧
  match omap (λ n, blocks st !! nb_hash n) (rx_contents r) with
  | block :: rest => p = PollReady (Some (convert_block block)) ∧
      omap (λ n, blocks st !! nb_hash n) (rx_contents r') = rest
  | [] => rx_contents r' = [] ∧ p = if rx_closed r then PollReady None else PollPending
  end.
Proof.
  unfold header_poll. generalize (Nat.lt_succ_diag_r (length (rx_contents r))).
  generalize (S (length (rx_contents r))) as fuel. intros fuel. revert r.
  induction fuel as [|fuel IH]; intros r Hf; [lia|]. cbn [run]. unfold header_body at 2.
  destruct (rx_contents r) as [|n l] eqn:Ec.
  - destruct (poll_empty _ Ec) as (r' & -> & Er & _).
    destruct (rx_closed r); rewrite bind_Ret; by eexists _, _.
  - destruct (poll_some _ _ _ Ec) as (r' & -> & Er & Ecl). cbn [omap list_omap].
    destruct (blocks st !! nb_hash n) as [block|]; rewrite bind_Ret.
    + eexists _, _. split; [reflexivity|]. by rewrite Er.
    + destruct (IH r') as (r2 & p & -> & H); [rewrite Er; simpl in Hf; lia|].
      exists r2, p. split; [done|]. by rewrite Er, Ecl in H.
Qed.
End subscriptions.

(** ** Properties *)

(** C19: a log filter delivers every matching log exactly once and in order:
    after any blocks, polls of this and other filters, installations, removals
    and evictions, as long as evictions come within the keepalive time after the
    last poll, the filter is still there, and what its client got so far
    followed by the answer to a poll is exactly the historic logs followed by
    the matching logs of all blocks since the installation. *)
Theorem filter_delivers_once {ext : TxExternals} {bext : BlockExternals} {rt : RevmTypes}
    {R : Type → Type} {rx : Receiver R} {laws : ReceiverLaws R} {Filter FilteredParams : Type}
    {fops : FilterOps Filter FilteredParams}
    (fs : Filters (R := R) (FilteredParams := FilteredParams))
    (st : BlockchainStorage MinedTransaction) (now : Z) (id : string)
    (r : R NewBlockNotification) (params : FilteredParams) (historic : list RpcLog) (w : Watched) :
  rx_contents r = [] →
  rtc (watch_step id)
    {| w_filters := add_filter fs now id
         (FLogs {| lf_blocks := r; lf_filter := params; lf_historic := Some historic |});
       w_storage := st; w_blocks := []; w_delivered := []; w_last := now |} w →
  ∀ t, ∃ fs' logs, get_filter_changes (w_storage w) (w_filters w) t id = Ret (fs', CLogs logs) ∧
    w_delivered w ++ logs = all_logs (w_storage w) params historic (w_blocks w).
Proof.
  intros Hr Hw t.
  assert (∃ f, watching id params historic w f) as [f Hf].
  { revert Hw. apply (rtc_ind_r (λ w, ∃ f, watching id params historic w f)).
    - eexists. split; simpl; [by rewrite lookup_insert_eq|done|by intros ? ?%elem_of_nil| |].
      + cbn [lf_blocks]; rewrite Hr. by intros ? ?%elem_of_nil.
      + unfold outstanding, all_logs. simpl. by rewrite Hr.
    - intros w1 w2 _ Hs [f1 Hf1]. by eapply watch_step_watching. }
  destruct (watching_poll _ _ _ _ _ t Hf) as (fs' & f' & E & _). eexists _, _. split; [exact E|].
  apply Hf.
Qed.

(** a log subscription pushes every matching log exactly once and in order,
    and a header subscription every stored block: as long as the notified blocks
    are stored, a poll always ends and gives the next item that is due; it is
    pending only when nothing is due and the channel has been polled empty, so
    that the next notification wakes the subscription. *)
Theorem subscription_correct {ext : TxExternals} {bext : BlockExternals} {rt : RevmTypes}
    {R : Type → Type} {rx : Receiver R} {laws : ReceiverLaws R} {Filter FilteredParams : Type}
    {fops : FilterOps Filter FilteredParams} {SubscriptionId RpcBlock : Type}
    (convert_block : Block → RpcBlock) (st : BlockchainStorage MinedTransaction)
    (s : LogsSubscription (R := R) (FilteredParams := FilteredParams) (SubscriptionId := SubscriptionId))
    (r : R NewBlockNotification) :
  all_stored st s →
  (∃ s' p, subscription_poll st s = Ret (s', p) ∧ all_stored st s' ∧
     match due st s with
     | log :: rest => p = PollReady (Some log) ∧ due st s' = rest
     | [] => rx_contents (ls_blocks s') = [] ∧
         p = if rx_closed (ls_blocks s) then PollReady None else PollPending
     end) ∧
  (∃ r' p, header_poll convert_block st r = Ret (r', p) ∧
     match omap (λ n, blocks st !! nb_hash n) (rx_contents r) with
     | block :: rest => p = PollReady (Some (convert_block block)) ∧
         omap (λ n, blocks st !! nb_hash n) (rx_contents r') = rest
     | [] => rx_contents r' = [] ∧ p = if rx_closed r then PollReady None else PollPending
     end).
Proof.
  intros Hst. split; [|apply header_poll_spec].
  destruct (subscription_poll_spec st s Hst) as ([s' p] & E & Hs & _ & _ & H).
  exists s', p. split_and!; [exact E|exact Hs|]. destruct (due st s); simpl in H; naive_solver.
Qed.

(** A log subscription stalls on a block that is gone from the storage (or
    whose receipts are): the poll is pending although the channel still holds
    the notifications of later blocks, whose logs are not pushed before some
    other event polls the subscription again. *)
Theorem subscription_stalls {ext : TxExternals} {bext : BlockExternals} {rt : RevmTypes}
    {R : Type → Type} {rx : Receiver R} {laws : ReceiverLaws R} {Filter FilteredParams : Type}
    {fops : FilterOps Filter FilteredParams} {SubscriptionId : Type}
    (st : BlockchainStorage MinedTransaction)
    (s : LogsSubscription (R := R) (FilteredParams := FilteredParams) (SubscriptionId := SubscriptionId))
    (n : NewBlockNotification) (later : list NewBlockNotification) :
  ls_queued s = [] → rx_contents (ls_blocks s) = n :: later →
  logs_of st (ls_filter s) (nb_hash n) = None →
  ∃ s', subscription_poll st s = Ret (s', PollPending) ∧ rx_contents (ls_blocks s') = later ∧
    due st s' = notified st (ls_filter s) later.
Proof.
  intros Eq Ec En. destruct (poll_some _ _ _ Ec) as (r & Ep & Er & _).
  assert (subscription_body st s = Ret (Break (with_stream s r [], PollPending))) as E.
  { unfold subscription_body. by rewrite Eq, Ep, notified_logs_spec, En. }
  unfold subscription_poll. cbn [run]. rewrite E. simpl. eexists. split; [reflexivity|].
  unfold due. simpl. by rewrite Er.
Qed.

(** *** Examples *)

Record ExRx (A : Type) := { ex_msgs : list A; ex_open : bool }.
Arguments ex_msgs {A}.
Arguments ex_open {A}.

#[export] Instance ex_receiver : Receiver ExRx := {|
  poll_next A r := match ex_msgs r with
                   | x :: l => ({| ex_msgs := l; ex_open := ex_open r |}, PollReady (Some x))
                   | [] => (r, if ex_open r then PollPending else PollReady None)
                   end;
  rx_send A r x := {| ex_msgs := ex_msgs r ++ [x]; ex_open := ex_open r |};
  rx_contents A r := ex_msgs r;
  rx_closed A r := negb (ex_open r)
|}.

#[export] Instance ex_receiver_laws : ReceiverLaws ExRx.
Proof.
  split; simpl; intros A r.
  - intros x l E. rewrite E. by eexists.
  - intros E. rewrite E. exists r. by destruct (ex_open r).
  - done.
  - done.
Qed.

#[export] Instance ex_filter_ops : FilterOps unit (option unit) :=
  {| fp_filter := id; filter_block_range := λ _ _, true; filter_block_hash := λ _ _, true;
     filter_address := λ _ _, true; filter_topics := λ _ _, true |}.

(** A block with one transaction that emitted one log. *)
Definition ex_log_block : Block :=
  {| blk_header := ex_header 1; blk_transactions := [pt_transaction (ex_pending 3)]; blk_ommers := [] |}.
Definition ex_log : Log := {| log_address := [7]; log_topics := []; log_data := [1] |}.
Definition ex_mined : MinedTransaction (rt := ex_revm_types) :=
  {| mined_info := {| inf_transaction_hash := 0; inf_transaction_index := 0; inf_from := 5;
                      inf_to := None; inf_contract_address := None; inf_traces := tt : Traces (RevmTypes := ex_revm_types);
                      inf_exit := 1 : InstructionResult (RevmTypes := ex_revm_types); inf_out := None; inf_nonce := 3;
                      inf_gas_used := 21000 |};
     mined_receipt := RcLegacy {| rc_status := true; rc_cumulative_gas_used := 21000;
                                  rc_logs := [ex_log]; rc_bloom := [] |};
     mined_block_hash := 1001; mined_block_number := 1 |}.
Definition ex_store (b : gmap B256 Block) (t : gmap B256 (MinedTransaction (rt := ex_revm_types)))
    : BlockchainStorage (MinedTransaction (rt := ex_revm_types)) :=
  {| blocks := b; hashes := ∅; best_hash := 1001; best_number := 1; genesis_hash := 1000;
     transactions := t; total_difficulty := 0 |}.
Definition ex_store1 := ex_store {[1001 := ex_log_block]} {[0 := ex_mined]}.
Definition ex_rpc_log : RpcLog :=
  {| rl_inner := ex_log; rl_block_hash := Some 1001; rl_block_number := Some 1;
     rl_transaction_hash := Some 0; rl_transaction_index := Some 0; rl_log_index := Some 0;
     rl_removed := false; rl_block_timestamp := Some 0 |}.
Definition ex_notice : NewBlockNotification := {| nb_hash := 1001; nb_header := ex_header 1 |}.

Lemma ex_logs_of :
  logs_of (ext := ex_externals) (bext := ex_block_externals) (rt := ex_revm_types) ex_store1
    (Some ()) 1001 = Some [ex_rpc_log].
Proof. vm_compute. reflexivity. Qed.

(** A block is mined, the filters are evicted after 200 seconds, then the client
    polls and gets the log of the block. *)
Lemma filter_delivers_once_witness :
  let f := FLogs {| lf_blocks := {| ex_msgs := []; ex_open := true |} : ExRx NewBlockNotification;
                    lf_filter := Some (); lf_historic := Some [] |} in
  let fs := evict (notify_filters (add_filter filters_default 0 "0x1" f) ex_notice) 200 in
  ∃ fs', get_filter_changes (ext := ex_externals) (bext := ex_block_externals)
           (rt := ex_revm_types) ex_store1 fs 250 "0x1" = Ret (fs', CLogs [ex_rpc_log]).
Proof.
  intros f fs.
  destruct (filter_delivers_once (ext := ex_externals) (bext := ex_block_externals)
    (rt := ex_revm_types) (rx := ex_receiver) filters_default (ex_store ∅ ∅) 0 "0x1"
    {| ex_msgs := []; ex_open := true |} (Some ()) []
    {| w_filters := fs; w_storage := ex_store1; w_blocks := [1001]; w_delivered := []; w_last := 0 |}
    eq_refl) with (t := 250) as (fs' & logs & E & H).
  - eapply rtc_l; [apply (ws_block _ _ ex_store1 ex_notice)|].
    + split; apply map_empty_subseteq.
    + eexists. vm_compute. reflexivity.
    + apply rtc_once. refine (ws_evict _ _ 200 _). vm_compute. discriminate.
  - exists fs'. cbn [w_storage w_filters] in E. rewrite E. unfold all_logs in H. cbn [w_delivered w_storage w_blocks app] in H.
    rewrite H. cbn [mbind list_bind app]. by rewrite ex_logs_of.
Defined.

Lemma subscription_correct_witness :
  ∃ s', subscription_poll (ext := ex_externals) (bext := ex_block_externals)
      (rt := ex_revm_types) ex_store1
      {| ls_blocks := {| ex_msgs := [ex_notice]; ex_open := true |}; ls_filter := Some ();
         ls_queued := []; ls_id := 4%nat |} = Ret (s', PollReady (Some ex_rpc_log)).
Proof.
  destruct (subscription_correct (ext := ex_externals) (bext := ex_block_externals)
    (rt := ex_revm_types) id ex_store1
    {| ls_blocks := {| ex_msgs := [ex_notice]; ex_open := true |}; ls_filter := Some ();
       ls_queued := []; ls_id := 4%nat |} {| ex_msgs := []; ex_open := true |})
    as [(s' & p & E & _ & H) _].
  - intros n Hn. apply list_elem_of_singleton in Hn as ->. exists [ex_rpc_log]. exact ex_logs_of.
  - exists s'. rewrite E. unfold due, notified in H. cbn in H. rewrite ex_logs_of in H.
    cbn in H. by destruct H as [-> _].
Defined.
