(* ===== verification/FoldedTrace.v ===== *)
(** * Folded stack traces (crates/evm/traces/src/folded_stack_trace.rs)

    A flame graph is drawn from lines that name a call stack and the gas spent
    in its innermost function alone.  The builder sees the calls of a trace as
    entries and exits, internal functions included, and subtracts the gas of the
    children afterwards, looking for the parent of an entry by its names.  The
    specification is the call tree: the lines are the preorder of the tree, each
    with the gas of the call less that of its children. *)

From stdpp Require Import prelude gmap list strings pretty.
From S2P Require Import Prelude.

Open Scope Z_scope.

(** The [i64] with the low 64 bits of [x]. *)
Definition wrap_i64 (x : Z) : Z :=
  let u := wrap 64 x in if u <? 2 ^ 63 then u else u - 2 ^ 64.

(** ** The raw builder *)

Record TraceEntry := { te_names : list string; te_gas : Z }.

Record FoldedStackTraceBuilder := { fb_traces : list TraceEntry; fb_exits : nat }.

Definition builder_default : FoldedStackTraceBuilder := {| fb_traces := []; fb_exits := 0 |}.

Implicit Types b : FoldedStackTraceBuilder.

(** The pending exits pop one name each; [pop] on an empty vector does nothing. *)
Definition enter b (label : string) (gas : Z) : FoldedStackTraceBuilder :=
  let names := default [] (te_names <$> last (fb_traces b)) in
  let names := Nat.iter (fb_exits b) (@List.removelast string) names in
  {| fb_traces := fb_traces b ++ [{| te_names := names ++ [label]; te_gas := gas |}];
     fb_exits := 0 |}.

Definition exit b : FoldedStackTraceBuilder :=
  {| fb_traces := fb_traces b; fb_exits := S (fb_exits b) |}.

(** [parent.gas -= gas] for the last entry of [left] with the names of the
    parent. *)
Definition charge_last (names : list string) (gas : Z) (left : list TraceEntry)
    : list TraceEntry :=
  match list_find (λ e, te_names e = names) (reverse left) with
  | Some (k, _) =>
      alter (λ e, {| te_names := te_names e; te_gas := wrap_i64 (te_gas e - gas) |})
        (length left - S k)%nat left
  | None => left
  end.

(** One turn of the loop: [split_at_mut(i)]. *)
Definition subtract_one (traces : list TraceEntry) (i : nat) : list TraceEntry :=
  match traces !! i with
  | None => traces
  | Some e =>
      if (1 <? length (te_names e))%nat then
        charge_last (take (length (te_names e) - 1) (te_names e)) (te_gas e) (take i traces)
          ++ drop i traces
      else traces
  end.

Definition subtract_children (traces : list TraceEntry) : list TraceEntry :=
  foldl subtract_one traces (seq 0 (length traces)).

(** [format!("{} {}", names.join(";"), gas)]. *)
Definition line (e : TraceEntry) : string :=
  String.append (String.concat ";" (te_names e)) (String.append " " (pretty (te_gas e))).

Definition build_without_subtraction (traces : list TraceEntry) : list string := line <$> traces.

Definition build_lines b : list string :=
  build_without_subtraction (subtract_children (fb_traces b)).

(** ** Traces of the EVM *)

(** The parts of a trace of revm-inspectors that are read. *)
Inductive DecodedTraceStep : Type :=
| InternalCall (func_name : string) (step_end_idx : nat)
| Line.

Record CallTraceStep := { cs_gas_used : Z; cs_decoded : option DecodedTraceStep }.

Inductive TraceMemberOrder : Type := OLog (i : nat) | OCall (i : nat) | OStep (i : nat).

Record CallTraceNode := {
  nd_create : bool;
  nd_label : option string;
  nd_signature : option string;
  nd_selector : option string;
  nd_gas_used : Z;
  nd_children : list nat;
  nd_ordering : list TraceMemberOrder;
  nd_steps : list CallTraceStep
}.

Definition func_name (node : CallTraceNode) : string :=
  if nd_create node then String.append "new " (default "Contract" (nd_label node))
  else
    let selector := default "fallback" (nd_selector node) in
    let signature := default selector (nd_signature node) in
    match nd_label node with
    | Some label => String.append label (String.append "." signature)
    | None => signature
    end.

(** [exit] as often as given. *)
Definition exit_n (n : nat) b : FoldedStackTraceBuilder := Nat.iter n exit b.

Definition exit_previous_steps b (step_exits : list nat) (step_idx : nat)
    : FoldedStackTraceBuilder * list nat :=
  let kept := filter (λ number, step_idx < number)%nat step_exits in
  (exit_n (length step_exits - length kept) b, kept).

(** The internal call that starts at a step: its name, gas and last step. *)
Definition internal_call (steps : list CallTraceStep) (step_idx : nat)
    : outcome (option (string * Z * nat)) :=
  step ← expect (steps !! step_idx);
  match cs_decoded step with
  | Some (InternalCall name step_end_idx) =>
      step_end ← expect (steps !! step_end_idx);
      let gas_used := saturating_sub (cs_gas_used step_end) (cs_gas_used step) in
      Ret (Some (name, wrap_i64 gas_used, step_end_idx))
  | _ => Ret None
  end.

Definition process_step b (steps : list CallTraceStep) (step_idx : nat) (step_exits : list nat)
    : outcome (FoldedStackTraceBuilder * list nat) :=
  o ← internal_call steps step_idx;
  Ret (match o with
       | Some (name, gas, step_end_idx) => (enter b name gas, step_exits ++ [step_end_idx])
       | None => (b, step_exits)
       end).

(** One member of a node; [call] processes a child. *)
Definition process_member (call : nat → FoldedStackTraceBuilder → outcome FoldedStackTraceBuilder)
    (node : CallTraceNode) (s : FoldedStackTraceBuilder * list nat) (order : TraceMemberOrder)
    : outcome (FoldedStackTraceBuilder * list nat) :=
  let '(b, step_exits) := s in
  match order with
  | OCall child_idx =>
      child_node_idx ← expect (nd_children node !! child_idx);
      b ← call child_node_idx b;
      Ret (b, step_exits)
  | OStep step_idx =>
      let '(b, step_exits) := exit_previous_steps b step_exits step_idx in
      process_step b (nd_steps node) step_idx step_exits
  | OLog _ => Ret (b, step_exits)
  end.

Fixpoint process_call_node (fuel : nat) (nodes : list CallTraceNode) (idx : nat) b
    : outcome FoldedStackTraceBuilder :=
  match fuel with
  | O => OutOfFuel
  | S fuel =>
      node ← expect (nodes !! idx);
      let b := enter b (func_name node) (wrap_i64 (nd_gas_used node)) in
      '(b, step_exits) ← foldM (process_member (process_call_node fuel nodes) node) (b, [])
                           (nd_ordering node);
      Ret (exit (exit_n (length step_exits) b))
  end.

(** [build]: the trace of an arena, from its root. *)
Definition build (nodes : list CallTraceNode) : outcome (list string) :=
  b ← process_call_node (length nodes) nodes 0 builder_default;
  Ret (build_lines b).

(** ** Specification *)

(** Call trees. *)
Inductive call_tree : Type := CallNode (label : string) (gas : Z) (children : list call_tree).

Definition tree_gas (t : call_tree) : Z := let '(CallNode _ g _) := t in g.

Fixpoint call_tree_ind' (P : call_tree → Prop)
    (H : ∀ label gas children, Forall P children → P (CallNode label gas children)) t : P t :=
  match t with
  | CallNode label gas children =>
      H label gas children
        ((fix go l : Forall P l :=
            match l with
            | [] => Forall_nil_2 P
            | t :: l => Forall_cons_2 P t l (call_tree_ind' P H t) (go l)
            end) children)
  end.

(** The gas a call spends itself. *)
Definition self_gas (gas : Z) (children : list call_tree) : Z :=
  foldl (λ g t, wrap_i64 (g - tree_gas t)) gas children.

(** The entries of a tree in preorder, with the gas of each call or with the
    gas it spends itself. *)
Fixpoint raw (path : list string) (t : call_tree) : list TraceEntry :=
  let '(CallNode label gas children) := t in
  {| te_names := path ++ [label]; te_gas := gas |} ::
  concat (raw (path ++ [label]) <$> children).

Fixpoint folded (path : list string) (t : call_tree) : list TraceEntry :=
  let '(CallNode label gas children) := t in
  {| te_names := path ++ [label]; te_gas := self_gas gas children |} ::
  concat (folded (path ++ [label]) <$> children).

(** *** Subtraction *)

(** The loop as a recursion over the entries that are left. *)
Definition charge (e : TraceEntry) (left : list TraceEntry) : list TraceEntry :=
  if (1 <? length (te_names e))%nat then
    charge_last (take (length (te_names e) - 1) (te_names e)) (te_gas e) left
  else left.

Fixpoint subtract_all (before after : list TraceEntry) : list TraceEntry :=
  match after with
  | [] => before
  | e :: after => subtract_all (charge e before ++ [e]) after
  end.

Lemma length_charge_last names gas before : length (charge_last names gas before) = length before.
Proof. unfold charge_last. destruct (list_find _ _) as [[k e]|]; [apply length_alter|done]. Qed.

Lemma length_charge e before : length (charge e before) = length before.
Proof. unfold charge. case_match; [apply length_charge_last|done]. Qed.

Lemma subtract_one_eq before e after :
  subtract_one (before ++ e :: after) (length before) = charge e before ++ e :: after.
Proof.
  unfold subtract_one, charge. rewrite list_lookup_middle by done.
  by destruct (1 <? length (te_names e))%nat; [rewrite take_app_length, drop_app_length|].
Qed.

Lemma subtract_all_eq before after :
  foldl subtract_one (before ++ after) (seq (length before) (length after)) = subtract_all before after.
Proof.
  revert before. induction after as [|e after IH]; intros before; cbn [length seq foldl subtract_all].
  { apply app_nil_r. }
  rewrite subtract_one_eq, <- IH, length_app, length_charge, <- app_assoc. simpl.
  by rewrite Nat.add_1_r.
Qed.

(** The last entry with the names is charged. *)
Lemma charge_last_middle names gas g before after :
  Forall (λ e, te_names e ≠ names) after →
  charge_last names gas (before ++ {| te_names := names; te_gas := g |} :: after) =
  before ++ {| te_names := names; te_gas := wrap_i64 (g - gas) |} :: after.
Proof.
  intros Hr. unfold charge_last.
  assert (list_find (λ e, te_names e = names)
            (reverse (before ++ {| te_names := names; te_gas := g |} :: after)) =
          Some (length after, {| te_names := names; te_gas := g |})) as ->.
  { apply list_find_Some. rewrite reverse_app, reverse_cons, <- app_assoc. simpl. split_and!; [|done|].
    - rewrite <- (length_reverse after). by apply list_lookup_middle.
    - intros j e Hj Hlt. rewrite lookup_app_l in Hj by (rewrite length_reverse; done).
      apply list_elem_of_lookup_2 in Hj. rewrite elem_of_reverse in Hj. rewrite Forall_forall in Hr. by apply Hr. }
  rewrite length_app. simpl.
  replace (length before + S (length after) - S (length after))%nat with (length before) by lia.
  by rewrite alter_app_r_alt, Nat.sub_diag by lia.
Qed.

(** What the first entry of a tree does to the entries before it. *)
Definition charge_tree (path : list string) (t : call_tree) (before : list TraceEntry)
    : list TraceEntry :=
  if decide (path = []) then before else charge_last path (tree_gas t) before.

Lemma charge_root path label gas before :
  charge {| te_names := path ++ [label]; te_gas := gas |} before =
  charge_tree path (CallNode label gas []) before.
Proof.
  unfold charge, charge_tree. simpl. rewrite length_app. simpl. rewrite Nat.add_sub, take_app_length.
  destruct path as [|x path]; [done|]. by rewrite Nat.add_1_r.
Qed.

(** The names in a subtree extend its path. *)
Lemma folded_longer path t :
  Forall (λ e, length path < length (te_names e))%nat (folded path t).
Proof.
  revert path. induction t as [label gas children IH] using call_tree_ind'. intros path. simpl.
  constructor; [simpl; rewrite length_app; simpl; lia|].
  apply Forall_concat, Forall_fmap. eapply Forall_impl; [exact IH|]. intros t Ht.
  eapply Forall_impl; [apply Ht|]. intros e. simpl. rewrite length_app. simpl. lia.
Qed.

(** Processing a subtree charges its parent and leaves its self gas. *)
Lemma subtract_tree path t before rest :
  subtract_all before (raw path t ++ rest) =
  subtract_all (charge_tree path t before ++ folded path t) rest.
Proof.
  revert path before rest. induction t as [label gas children IH] using call_tree_ind'.
  intros path before rest. simpl. rewrite charge_root.
  change (charge_tree path (CallNode label gas []) before)
    with (charge_tree path (CallNode label gas children) before).
  set (B := charge_tree _ _ _). set (q := path ++ [label]).
  assert (∀ E a, Forall (λ e, te_names e ≠ q) E →
    subtract_all (B ++ {| te_names := q; te_gas := a |} :: E)
      (concat (raw q <$> children) ++ rest) =
    subtract_all (B ++ {| te_names := q; te_gas := self_gas a children |} ::
                  (E ++ concat (folded q <$> children))) rest) as Hf.
  2:{ rewrite (Hf [] gas); [done|constructor]. }
  clearbody B. induction IH as [|t children Ht _ IHc]; intros E a HE; simpl.
  { by rewrite app_nil_r. }
  rewrite <- app_assoc, Ht. unfold charge_tree.
  rewrite decide_False by (unfold q; by destruct path).
  rewrite charge_last_middle by done. rewrite <- app_assoc. simpl. rewrite IHc.
  - by rewrite <- app_assoc.
  - apply Forall_app. split; [done|]. eapply Forall_impl; [apply folded_longer|].
    intros e He Hq. apply (f_equal length) in Hq. unfold q in *. simpl in He. lia.
Qed.

Lemma subtract_children_tree t : subtract_children (raw [] t) = folded [] t.
Proof.
  unfold subtract_children. change (foldl subtract_one ([] ++ raw [] t)
    (seq (length (@nil TraceEntry)) (length (raw [] t))) = folded [] t).
  rewrite subtract_all_eq, <- (app_nil_r (raw [] t)), subtract_tree. done.
Qed.

(** *** The tree of a trace *)

(** The calls that are open, innermost first, with the finished calls below
    them. *)
Abbreviation frame := (string * Z * list call_tree)%type.

Definition open_call (label : string) (gas : Z) (stack : list frame) : list frame :=
  (label, gas, []) :: stack.

Definition add_child (t : call_tree) (stack : list frame) : list frame :=
  match stack with
  | (label, gas, children) :: stack => (label, gas, children ++ [t]) :: stack
  | [] => []
  end.

Definition close_call (stack : list frame) : list frame :=
  match stack with
  | (label, gas, children) :: ((_ :: _) as stack) => add_child (CallNode label gas children) stack
  | _ => stack
  end.

Definition tree_member (call : nat → outcome call_tree) (node : CallTraceNode)
    (s : list frame * list nat) (order : TraceMemberOrder) : outcome (list frame * list nat) :=
  let '(stack, ends) := s in
  match order with
  | OCall i =>
      child ← expect (nd_children node !! i);
      t ← call child;
      Ret (add_child t stack, ends)
  | OStep i =>
      let kept := filter (λ number, i < number)%nat ends in
      let stack := Nat.iter (length ends - length kept) close_call stack in
      o ← internal_call (nd_steps node) i;
      Ret (match o with
           | Some (name, gas, step_end) => (open_call name gas stack, kept ++ [step_end])
           | None => (stack, kept)
           end)
  | OLog _ => Ret (stack, ends)
  end.

(** The tree of a node: its calls, with an internal function open until a step
    from its last one on. *)
Fixpoint node_tree (fuel : nat) (nodes : list CallTraceNode) (idx : nat) : outcome call_tree :=
  match fuel with
  | O => OutOfFuel
  | S fuel =>
      node ← expect (nodes !! idx);
      '(stack, ends) ← foldM (tree_member (node_tree fuel nodes) node)
        (open_call (func_name node) (wrap_i64 (nd_gas_used node)) [], []) (nd_ordering node);
      match Nat.iter (length ends) close_call stack with
      | [(label, gas, children)] => Ret (CallNode label gas children)
      | _ => Panic
      end
  end.

(** The names of the open calls, and the entries made so far. *)
Fixpoint stack_path (path : list string) (stack : list frame) : list string :=
  match stack with
  | [] => path
  | (label, _, _) :: stack => stack_path path stack ++ [label]
  end.

Fixpoint raw_stack (path : list string) (stack : list frame) : list TraceEntry :=
  match stack with
  | [] => []
  | (label, gas, children) :: stack =>
      let q := stack_path path stack ++ [label] in
      raw_stack path stack ++ {| te_names := q; te_gas := gas |} :: concat (raw q <$> children)
  end.

(** The names of the open calls in the builder. *)
Definition current b : list string :=
  Nat.iter (fb_exits b) (@List.removelast string) (default [] (te_names <$> last (fb_traces b))).

Lemma enter_spec b label gas :
  current (enter b label gas) = current b ++ [label] ∧
  fb_traces (enter b label gas) =
    fb_traces b ++ [{| te_names := current b ++ [label]; te_gas := gas |}].
Proof. split; [|done]. unfold current. simpl. by rewrite last_snoc. Qed.

Lemma add_child_path path t stack : stack_path path (add_child t stack) = stack_path path stack.
Proof. by destruct stack as [|[[label gas] children] stack]. Qed.

Lemma add_child_raw path t stack :
  stack ≠ [] →
  raw_stack path (add_child t stack) = raw_stack path stack ++ raw (stack_path path stack) t.
Proof.
  destruct stack as [|[[label gas] children] stack]; [done|]. intros _. simpl.
  by rewrite fmap_app, concat_app, <- app_assoc; simpl; rewrite app_nil_r.
Qed.

(** The builder after a part of a node. *)
Record building (path : list string) (before : list TraceEntry) (s : list frame * list nat)
    (bs : FoldedStackTraceBuilder * list nat) : Prop := {
  bd_ends : bs.2 = s.2;
  bd_depth : length s.1 = S (length s.2);
  bd_path : current bs.1 = stack_path path s.1;
  bd_traces : fb_traces bs.1 = before ++ raw_stack path s.1
}.

Lemma close_one path stack b before :
  (1 < length stack)%nat → current b = stack_path path stack →
  fb_traces b = before ++ raw_stack path stack →
  length (close_call stack) = (length stack - 1)%nat ∧
  current (exit b) = stack_path path (close_call stack) ∧
  fb_traces (exit b) = before ++ raw_stack path (close_call stack).
Proof.
  intros Hl Hc Ht. destruct stack as [|[[label gas] children] [|f stack]]; simpl in Hl; [lia..|].
  cbn [close_call]. split_and!.
  - destruct f as [[l g] c]. simpl. lia.
  - rewrite add_child_path. change (current (exit b)) with (List.removelast (current b)).
    rewrite Hc. simpl. by rewrite List.removelast_last.
  - rewrite add_child_raw by done. simpl in *. by rewrite Ht.
Qed.

Lemma close_n path k stack b before :
  (k < length stack)%nat → current b = stack_path path stack →
  fb_traces b = before ++ raw_stack path stack →
  length (Nat.iter k close_call stack) = (length stack - k)%nat ∧
  current (exit_n k b) = stack_path path (Nat.iter k close_call stack) ∧
  fb_traces (exit_n k b) = before ++ raw_stack path (Nat.iter k close_call stack).
Proof.
  intros Hk Hc Ht. induction k as [|k IH]; [by rewrite Nat.sub_0_r|].
  destruct IH as (H1 & H2 & H3); [lia|].
  change (Nat.iter (S k) close_call stack) with (close_call (Nat.iter k close_call stack)).
  change (exit_n (S k) b) with (exit (exit_n k b)).
  destruct (close_one path (Nat.iter k close_call stack) (exit_n k b) before)
    as (G1 & G2 & G3); [lia|done|done|]. split_and!; [|done|done]. lia.
Qed.

Lemma length_filter_le (ends : list nat) i :
  (length (filter (λ number, i < number)%nat ends) ≤ length ends)%nat.
Proof. apply length_filter. Qed.

Lemma member_building call tcall node path before s bs order s' :
  (∀ i t b, tcall i = Ret t → ∃ b', call i b = Ret b' ∧
     fb_traces b' = fb_traces b ++ raw (current b) t ∧ current b' = current b) →
  building path before s bs → tree_member tcall node s order = Ret s' →
  ∃ bs', process_member call node bs order = Ret bs' ∧ building path before s' bs'.
Proof.
  intros Hcall [He Hd Hp Ht]. destruct s as [stack ends], bs as [b ends']. simpl in *. subst ends'.
  destruct order as [i|i|i]; simpl.
  - intros [= <-]. by eexists.
  - destruct (nd_children node !! i) as [child|]; [|done]. simpl.
    destruct (tcall child) as [t| |] eqn:Et; [|done..]. simpl. intros [= <-].
    destruct (Hcall child t b Et) as (b' & -> & Ht' & Hp'). eexists. split; [reflexivity|].
    split; simpl; [done| |by rewrite Hp', Hp, add_child_path|].
    + by destruct stack as [|[[l g] c] stack].
    + rewrite Ht', Ht, Hp, add_child_raw, <- app_assoc; [done|]. by destruct stack.
  - set (kept := filter _ _). unfold exit_previous_steps, process_step. fold kept.
    pose proof (length_filter_le ends i) as Hk. fold kept in Hk.
    destruct (close_n path (length ends - length kept) stack b before) as (H1 & H2 & H3);
      [lia|done|done|].
    destruct (internal_call (nd_steps node) i) as [[[[name gas] e]|]| |]; [..|done|done];
      simpl; intros [= <-]; (eexists; split; [reflexivity|]); split; simpl; try done; try lia.
    + rewrite length_app. simpl. lia.
    + rewrite (proj1 (enter_spec _ _ _)), H2. done.
    + fold (current (exit_n (length ends - length kept) b)). by rewrite H2, H3, <- app_assoc.
Qed.

Lemma node_building fuel nodes idx t b :
  node_tree fuel nodes idx = Ret t →
  ∃ b', process_call_node fuel nodes idx b = Ret b' ∧
    fb_traces b' = fb_traces b ++ raw (current b) t ∧ current b' = current b.
Proof.
  revert idx t b. induction fuel as [|fuel IH]; intros idx t b; [done|]. cbn [node_tree process_call_node].
  destruct (nodes !! idx) as [node|]; [|done]. cbn [expect]. rewrite !bind_Ret.
  intros ([stack ends] & Ef & Eroot)%bind_Ret_inv.
  set (b1 := enter b (func_name node) (wrap_i64 (nd_gas_used node))).
  destruct (foldM_sim (tree_member (node_tree fuel nodes) node)
    (process_member (process_call_node fuel nodes) node) (building (current b) (fb_traces b))
    (nd_ordering node) (open_call (func_name node) (wrap_i64 (nd_gas_used node)) [], []) (b1, [])
    (stack, ends)) as ([b2 ends'] & -> & [He Hd Hp Ht]); [| |exact Ef|].
  - intros x s bs s' Hs. by apply member_building.
  - unfold b1. split; simpl; [done..| |done]. apply enter_spec.
  - rewrite bind_Ret. simpl in *. subst ends'. eexists. split; [reflexivity|].
    destruct (close_n (current b) (length ends) stack b2 (fb_traces b)) as (H1 & H2 & H3);
      [lia|done|done|].
    destruct (Nat.iter (length ends) close_call stack) as [|[[label gas] children] [|]]; try done.
    injection Eroot as <-. split.
    + change (fb_traces (exit ?x)) with (fb_traces x). by rewrite H3.
    + change (current (exit ?x)) with (List.removelast (current x)). rewrite H2. simpl.
      by rewrite List.removelast_last.
Qed.

(** *** Termination *)

(** What the tracer guarantees: the children of a node come after it, and all
    indices are in range. *)
Record node_wf (nodes : list CallTraceNode) (idx : nat) (node : CallTraceNode) : Prop := {
  nw_children : ∀ c, c ∈ nd_children node → (idx < c < length nodes)%nat;
  nw_calls : ∀ i, OCall i ∈ nd_ordering node → (i < length (nd_children node))%nat;
  nw_steps : ∀ i, OStep i ∈ nd_ordering node → (i < length (nd_steps node))%nat;
  nw_ends : ∀ s name e, s ∈ nd_steps node → cs_decoded s = Some (InternalCall name e) →
    (e < length (nd_steps node))%nat
}.

Definition arena_wf (nodes : list CallTraceNode) : Prop :=
  nodes ≠ [] ∧ ∀ idx node, nodes !! idx = Some node → node_wf nodes idx node.

Lemma length_close k stack :
  (k < length stack)%nat → length (Nat.iter k close_call stack) = (length stack - k)%nat.
Proof.
  induction k as [|k IH]; intros Hk; [by rewrite Nat.sub_0_r|].
  change (Nat.iter (S k) close_call stack) with (close_call (Nat.iter k close_call stack)).
  specialize (IH ltac:(lia)). destruct (Nat.iter k close_call stack) as [|[[l g] c] [|[[l' g'] c'] s]];
    simpl in *; lia.
Qed.

Lemma internal_call_total nodes idx node i :
  node_wf nodes idx node → OStep i ∈ nd_ordering node →
  ∃ o, internal_call (nd_steps node) i = Ret o.
Proof.
  intros Hw Hi. unfold internal_call.
  destruct (lookup_lt_is_Some_2 _ _ (nw_steps _ _ _ Hw i Hi)) as [step E]. rewrite E. simpl.
  destruct (cs_decoded step) as [[name e|]|] eqn:Ed; [|eauto..].
  destruct (lookup_lt_is_Some_2 (nd_steps node) e) as [last Ee].
  { eapply nw_ends; [done|by eapply list_elem_of_lookup_2|done]. }
  rewrite Ee. simpl. eauto.
Qed.

Lemma tree_member_total nodes idx node call order s :
  node_wf nodes idx node → order ∈ nd_ordering node →
  (∀ c, c ∈ nd_children node → ∃ t, call c = Ret t) → length s.1 = S (length s.2) →
  ∃ s', tree_member call node s order = Ret s' ∧ length s'.1 = S (length s'.2).
Proof.
  intros Hw Ho Hcall Hs. destruct s as [stack ends]. simpl in Hs. destruct order as [i|i|i]; simpl.
  - eauto.
  - destruct (lookup_lt_is_Some_2 _ _ (nw_calls _ _ _ Hw i Ho)) as [c Ec]. rewrite Ec. simpl.
    destruct (Hcall c) as [t ->]; [by eapply list_elem_of_lookup_2|]. simpl.
    eexists. split; [reflexivity|]. by destruct stack as [|[[l g] ch] stack].
  - pose proof (length_filter_le ends i) as Hk.
    destruct (internal_call_total _ _ _ _ Hw Ho) as [o ->]. simpl.
    destruct o as [[[name gas] e]|]; (eexists; split; [reflexivity|]); simpl;
      rewrite ?length_app, length_close by lia; simpl; lia.
Qed.

Lemma node_tree_total nodes fuel idx :
  arena_wf nodes → (idx < length nodes)%nat → (length nodes - idx ≤ fuel)%nat →
  ∃ t, node_tree fuel nodes idx = Ret t.
Proof.
  intros [_ Hw]. revert idx. induction fuel as [|fuel IH]; intros idx Hi Hf; [lia|]. cbn [node_tree].
  destruct (lookup_lt_is_Some_2 _ _ Hi) as [node E]. rewrite E. cbn [expect]. rewrite bind_Ret.
  pose proof (Hw idx node E) as Hn.
  destruct (foldM_spec (tree_member (node_tree fuel nodes) node)
    (λ _ s, length s.1 = S (length s.2)) (nd_ordering node)
    (open_call (func_name node) (wrap_i64 (nd_gas_used node)) [], [])) as ([stack ends] & -> & Hs);
    [done| |].
  - intros d order rest s El Hs. eapply tree_member_total; [done| | |done].
    + rewrite El. set_solver.
    + intros c Hc. pose proof (nw_children _ _ _ Hn c Hc). apply IH; lia.
  - rewrite bind_Ret. simpl in Hs.
    pose proof (length_close (length ends) stack ltac:(lia)) as Hl.
    destruct (Nat.iter (length ends) close_call stack) as [|[[l g] c] [|]]; simpl in Hl; eauto; lia.
Qed.

(** *** Gas *)

Definition total_gas (l : list TraceEntry) : Z := foldr (λ e g, te_gas e + g) 0 l.

Lemma wrap_i64_cong x : ∃ k, wrap_i64 x = x + k * 2 ^ 64.
Proof.
  unfold wrap_i64, wrap. pose proof (Z.div_mod x (2 ^ 64) ltac:(lia)).
  case_match; [exists (- (x / 2 ^ 64))|exists (- (x / 2 ^ 64) - 1)]; lia.
Qed.

Lemma total_gas_app l k : total_gas (l ++ k) = total_gas l + total_gas k.
Proof. unfold total_gas. induction l; simpl; lia. Qed.

(** The gas of a call is spent once, in it or below. *)
Lemma folded_gas path t : ∃ k, total_gas (folded path t) = tree_gas t + k * 2 ^ 64.
Proof.
  revert path. induction t as [label gas children IH] using call_tree_ind'. intros path. simpl.
  set (q := path ++ [label]). unfold self_gas. cbn [total_gas foldr te_gas].
  change (foldr (λ e g, te_gas e + g) 0) with total_gas.
  revert gas. induction IH as [|t children Ht _ IHc]; intros gas; simpl.
  { exists 0. lia. }
  rewrite total_gas_app. destruct (Ht q) as [k1 ->].
  destruct (wrap_i64_cong (gas - tree_gas t)) as [k2 Ek].
  destruct (IHc (wrap_i64 (gas - tree_gas t))) as [k3 E].
  change (list_fmap _ _ (folded q) children) with (folded q <$> children).
  exists (k1 + k2 + k3). lia.
Qed.

(** ** Properties *)

(** C29: the folded trace of an arena is the one of its call tree: the builder
    never panics and ends, and its lines are the calls of the tree in preorder,
    each with the names of the calls it is in and with its own gas less the gas
    of its children; the gas of the lines adds up to the gas of the root (all
    modulo the width of the counter). *)
Theorem folded_trace_correct (nodes : list CallTraceNode) :
  arena_wf nodes →
  ∃ t, node_tree (length nodes) nodes 0 = Ret t ∧ build nodes = Ret (line <$> folded [] t) ∧
    ∃ k, total_gas (folded [] t) = tree_gas t + k * 2 ^ 64.
Proof.
  intros Hw. destruct (node_tree_total nodes (length nodes) 0 Hw) as [t Et];
    [destruct Hw as [Hne _]; destruct nodes; simpl; [done|lia]|lia|].
  exists t. split; [done|]. split; [|apply folded_gas]. unfold build.
  destruct (node_building _ _ _ _ builder_default Et) as (b & -> & Hb & _). rewrite bind_Ret.
  unfold build_lines, build_without_subtraction. rewrite Hb. simpl. by rewrite subtract_children_tree.
Qed.

(** The example of the source: [top] calls [child_a] and [child_b]; [child_a] is
    an internal function that calls [dep] of another contract. *)
Definition ex_arena : list CallTraceNode :=
  let step g d := {| cs_gas_used := g; cs_decoded := d |} in
  [{| nd_create := false; nd_label := Some "C"; nd_signature := Some "top()"; nd_selector := None;
      nd_gas_used := 500; nd_children := [1%nat];
      nd_ordering := [OStep 0; OCall 0; OStep 1; OStep 2];
      nd_steps := [step 10 (Some (InternalCall "child_a" 1)); step 160 None;
                   step 200 (Some (InternalCall "child_b" 3)); step 400 None] |};
   {| nd_create := true; nd_label := None; nd_signature := None; nd_selector := None;
      nd_gas_used := 100; nd_children := []; nd_ordering := [OLog 0]; nd_steps := [] |}].

Lemma folded_trace_correct_witness :
  build ex_arena =
    Ret ["C.top() 150"; "C.top();child_a 50"; "C.top();child_a;new Contract 100";
         "C.top();child_b 200"].
Proof.
  destruct (folded_trace_correct ex_arena) as (t & Et & E & _).
  - split; [done|]. intros [|[|idx]] node; [intros [= <-]|intros [= <-]|done];
      split; simpl; intros; set_unfold; naive_solver lia.
  - rewrite E. vm_compute in Et. injection Et as <-. vm_compute. reflexivity.
Defined.
