(* ===== verification/ExpectEmit.v ===== *)
(** * Expected logs
    (the [expectEmit] cheatcodes, [expect_emit], [handle_expect_emit] and
    [LogCountMap] of crates/cheatcodes/src/test/expect.rs, and the [log] hook and
    the checks of [call_end] in crates/cheatcodes/src/inspector.rs)

    A test declares the logs it expects of the next call.  Each declaration is
    followed by the log itself, emitted by the test, which fills it; the logs
    of the call are then checked against the front of the queue, and the queue
    is judged when a call ends at the depth it was declared at.  The text of
    the error messages is not modelled, only what they are made of. *)

From stdpp Require Import prelude gmap list.
From S2P Require Import Prelude Containers.

Abbreviation Word := Z.

(** ** Data *)

Record RawLog := { rl_topics : list Word; rl_data : list Z }.

#[export] Instance raw_log_eq : EqDecision RawLog.
Proof. solve_decision. Defined.

#[export] Instance raw_log_countable : Countable RawLog.
Proof.
  refine (inj_countable' (λ l, (rl_topics l, rl_data l))
            (λ p, {| rl_topics := p.1; rl_data := p.2 |}) _).
  by intros [].
Defined.

(** A log and the contract that emits it. *)
Record EmittedLog := { lg_address : Z; lg_data : RawLog }.

(** [[bool; 5]]: the four topics and the data. *)
Record EmitChecks := { ck_0 : bool; ck_1 : bool; ck_2 : bool; ck_3 : bool; ck_data : bool }.

(** [checks[i]]; a log has at most four topics. *)
Definition check_at (c : EmitChecks) (i : nat) : bool :=
  match i with 0 => ck_0 c | 1 => ck_1 c | 2 => ck_2 c | 3 => ck_3 c | _ => ck_data c end.

Definition all_checks : EmitChecks :=
  {| ck_0 := true; ck_1 := true; ck_2 := true; ck_3 := true; ck_data := true |}.

(** What the two messages for a log that does not match are made of. *)
Inductive Mismatch : Type :=
| LogMismatch (checks : EmitChecks) (expected actual : RawLog) (anonymous : bool)
| EmitterMismatch (expected actual : Z).

(** The counters are [u64], and at most the number of logs of a test. *)
Record ExpectedEmit := {
  ee_depth : nat;
  ee_log : option RawLog;
  ee_checks : EmitChecks;
  ee_address : option Z;
  ee_anonymous : bool;
  ee_found : bool;
  ee_count : nat;
  ee_mismatch_error : option Mismatch
}.

Definition with_log (e : ExpectedEmit) (log : RawLog) : ExpectedEmit :=
  {| ee_depth := ee_depth e; ee_log := Some log; ee_checks := ee_checks e;
     ee_address := ee_address e; ee_anonymous := ee_anonymous e; ee_found := ee_found e;
     ee_count := ee_count e; ee_mismatch_error := ee_mismatch_error e |}.

Definition with_found (e : ExpectedEmit) (found : bool) (err : option Mismatch) : ExpectedEmit :=
  {| ee_depth := ee_depth e; ee_log := ee_log e; ee_checks := ee_checks e;
     ee_address := ee_address e; ee_anonymous := ee_anonymous e; ee_found := found;
     ee_count := ee_count e; ee_mismatch_error := err |}.

Record LogCountMap := {
  lc_checks : EmitChecks;
  lc_expected_log : RawLog;
  lc_map : gmap RawLog nat
}.

Abbreviation CountMap := (gmap Z LogCountMap).
Abbreviation ExpectedEmitTracker := (list (ExpectedEmit * CountMap)).

(** ** Checks and counts *)

Definition checks_topics_and_data (checks : EmitChecks) (expected log : RawLog) : bool :=
  bool_decide (length (rl_topics log) = length (rl_topics expected)) &&
  forallb (λ p, negb (check_at checks p.1) || bool_decide (rl_topics expected !! p.1 = Some p.2))
    (imap pair (rl_topics log)) &&
  (negb (ck_data checks) || bool_decide (rl_data expected = rl_data log)).

Section log_count_map.
Context `{!HashOrder RawLog}.

Definition log_count_new (e : ExpectedEmit) : outcome LogCountMap :=
  log ← expect (ee_log e);
  Ret {| lc_checks := ee_checks e; lc_expected_log := log; lc_map := ∅ |}.

Definition satisfies_checks (m : LogCountMap) (log : RawLog) : bool :=
  checks_topics_and_data (lc_checks m) (lc_expected_log m) log.

Definition log_count_bump (m : LogCountMap) (log : RawLog) : LogCountMap :=
  {| lc_checks := lc_checks m; lc_expected_log := lc_expected_log m;
     lc_map := <[log := S (default 0 (lc_map m !! log))]> (lc_map m) |}.

(** A log already in the map is counted without the checks. *)
Definition log_count_insert (m : LogCountMap) (log : RawLog) : LogCountMap * bool :=
  if bool_decide (is_Some (lc_map m !! log)) then (log_count_bump m log, true)
  else if negb (satisfies_checks m log) then (m, false)
  else (log_count_bump m log, true).

Definition count_unchecked (m : LogCountMap) : nat := sum_list (map_iter (lc_map m)).

Definition log_count (m : LogCountMap) (log : RawLog) : nat :=
  if negb (satisfies_checks m log) then 0 else count_unchecked m.
End log_count_map.

(** ** The queue *)

Definition position_found (q : ExpectedEmitTracker) : option nat :=
  fst <$> list_find (λ p, ee_found p.1 = true) q.

(** [VecDeque::insert]; the callers insert within the length. *)
Definition deque_insert {A} (i : nat) (x : A) (q : list A) : list A := take i q ++ x :: drop i q.

(** [VecDeque::remove]. *)
Definition deque_remove {A} (i : nat) (q : list A) : option (A * list A) :=
  x ← q !! i; Some (x, delete i q).

Definition expect_emit (q : ExpectedEmitTracker) (depth : nat) (checks : EmitChecks)
    (address : option Z) (anonymous : bool) (count : nat) : ExpectedEmitTracker :=
  let e := {| ee_depth := depth; ee_log := None; ee_checks := checks; ee_address := address;
              ee_anonymous := anonymous; ee_found := false; ee_count := count;
              ee_mismatch_error := None |} in
  match position_found q with
  | Some i => deque_insert i (e, ∅) q
  | None => q ++ [(e, ∅)]
  end.

(** The cheatcodes that declare an expected log. *)
Inductive ExpectEmitCall : Type :=
| expectEmit_0 (t1 t2 t3 data : bool)
| expectEmit_1 (t1 t2 t3 data : bool) (emitter : Z)
| expectEmit_2
| expectEmit_3 (emitter : Z)
| expectEmit_4 (t1 t2 t3 data : bool) (count : nat)
| expectEmit_5 (t1 t2 t3 data : bool) (emitter : Z) (count : nat)
| expectEmit_6 (count : nat)
| expectEmit_7 (emitter : Z) (count : nat)
| expectEmitAnonymous_0 (t0 t1 t2 t3 data : bool)
| expectEmitAnonymous_1 (t0 t1 t2 t3 data : bool) (emitter : Z)
| expectEmitAnonymous_2
| expectEmitAnonymous_3 (emitter : Z).

Definition apply_expect_emit (c : ExpectEmitCall) (depth : nat) (q : ExpectedEmitTracker)
    : ExpectedEmitTracker :=
  match c with
  | expectEmit_0 t1 t2 t3 data => expect_emit q depth (Build_EmitChecks true t1 t2 t3 data) None false 1
  | expectEmit_1 t1 t2 t3 data emitter =>
      expect_emit q depth (Build_EmitChecks true t1 t2 t3 data) (Some emitter) false 1
  | expectEmit_2 => expect_emit q depth all_checks None false 1
  | expectEmit_3 emitter => expect_emit q depth all_checks (Some emitter) false 1
  | expectEmit_4 t1 t2 t3 data count =>
      expect_emit q depth (Build_EmitChecks true t1 t2 t3 data) None false count
  | expectEmit_5 t1 t2 t3 data emitter count =>
      expect_emit q depth (Build_EmitChecks true t1 t2 t3 data) (Some emitter) false count
  | expectEmit_6 count => expect_emit q depth all_checks None false count
  | expectEmit_7 emitter count => expect_emit q depth all_checks (Some emitter) false count
  | expectEmitAnonymous_0 t0 t1 t2 t3 data =>
      expect_emit q depth (Build_EmitChecks t0 t1 t2 t3 data) None true 1
  | expectEmitAnonymous_1 t0 t1 t2 t3 data emitter =>
      expect_emit q depth (Build_EmitChecks t0 t1 t2 t3 data) (Some emitter) true 1
  | expectEmitAnonymous_2 => expect_emit q depth all_checks None true 1
  | expectEmitAnonymous_3 emitter => expect_emit q depth all_checks (Some emitter) true 1
  end.

Section handler.
Context `{!HashOrder RawLog, !HashOrder Z}.

(** The entry of the emitter in the counts of an expectation. *)
Definition count_log (e : ExpectedEmit) (m : CountMap) (log : EmittedLog) : outcome CountMap :=
  match m !! lg_address log with
  | Some c => Ret (<[lg_address log := (log_count_insert c (lg_data log)).1]> m)
  | None =>
      c ← log_count_new e;
      Ret (if satisfies_checks c (lg_data log)
           then <[lg_address log := (log_count_insert c (lg_data log)).1]> m else m)
  end.

(** Whether the log completes the expectation, and the new mismatch. *)
Definition judge_log (e : ExpectedEmit) (expected : RawLog) (m : CountMap) (log : EmittedLog)
    : bool * option Mismatch :=
  if negb (checks_topics_and_data (ee_checks e) expected (lg_data log)) then
    (false, Some (LogMismatch (ee_checks e) expected (lg_data log) (ee_anonymous e)))
  else
    match ee_address e with
    | Some addr =>
        if negb (bool_decide (addr = lg_address log)) then
          (false, Some (EmitterMismatch addr (lg_address log)))
        else (match m !! addr with
              | Some c => bool_decide (ee_count e ≤ log_count c (lg_data log))
              | None => false
              end, ee_mismatch_error e)
    | None =>
        (match List.find (λ c, satisfies_checks c (lg_data log)) (map_iter m) with
         | Some c => bool_decide (ee_count e ≤ log_count c (lg_data log))
         | None => false
         end, ee_mismatch_error e)
    end.

(** The new queue, and whether the interpreter is made to revert. *)
Definition handle_expect_emit (q : ExpectedEmitTracker) (log : EmittedLog)
    : outcome (ExpectedEmitTracker * bool) :=
  if forallb (λ p, ee_found p.1) q then Ret (q, false)
  else
    let should_fill := existsb (λ p, bool_decide (ee_log p.1 = None)) q in
    let i := if should_fill then default (length q) (position_found q) - 1 else 0 in
    '((e, m), q) ← expect (deque_remove i q);
    match ee_log e with
    | None =>
        if ee_anonymous e || negb (bool_decide (rl_topics (lg_data log) = []))
        then Ret (deque_insert i (with_log e (lg_data log), m) q, false)
        else Ret (q, true)
    | Some expected =>
        m ← count_log e m log;
        let '(found, err) := judge_log e expected m log in
        let e := with_found e found err in
        Ret (if found then q ++ [(e, m)] else (e, m) :: q, false)
    end.

(** The [log] hook. *)
Definition log_hook (q : ExpectedEmitTracker) (log : EmittedLog)
    : outcome (ExpectedEmitTracker * bool) :=
  if bool_decide (q = []) then Ret (q, false) else handle_expect_emit q log.

(** ** The end of a call *)

Inductive EmitError : Type :=
| NotFound (mismatch : option Mismatch)
| WrongCount (count expected : nat)
| EmitCallReverted
| NoLogsAfterwards.

Definition emit_count (e : ExpectedEmit) (m : CountMap) : nat :=
  match ee_address e with
  | Some emitter =>
      match m !! emitter with
      | Some c => match ee_log e with Some l => log_count c l | None => count_unchecked c end
      | None => 0
      end
  | None =>
      match ee_log e with
      | Some l => sum_list ((λ c, log_count c l) <$> map_iter m)
      | None => sum_list (count_unchecked <$> map_iter m)
      end
  end.

(** The emits check of [call_end]: the queue and the error the call now reverts
    with; [ok] is [outcome.result.is_ok()]. *)
Definition check_emits (q : ExpectedEmitTracker) (depth : nat) (is_static ok : bool)
    : ExpectedEmitTracker * option EmitError :=
  if existsb (λ p, bool_decide (ee_depth p.1 = depth)) q && negb is_static then
    let expected_counts :=
      omap (λ p, let count := emit_count p.1 p.2 in
                 if bool_decide (count ≠ ee_count p.1) then Some (p.1, count) else None) q in
    match List.find (λ p, negb (ee_found p.1) && bool_decide (0 < ee_count p.1)) q with
    | Some (e, _) => (q, Some (NotFound (ee_mismatch_error e)))
    | None =>
        match expected_counts with
        | (e, count) :: _ =>
            (q, Some (if ok then WrongCount count (ee_count e) else EmitCallReverted))
        | [] => ([], None)
        end
    end
  else (q, None).

(** The emits left when the root call ends without a revert. *)
Definition leftover_emits (q : ExpectedEmitTracker) (ok : bool)
    : ExpectedEmitTracker * option EmitError :=
  let q := filter (λ p, bool_decide (0 < ee_count p.1) && negb (ee_found p.1) = true) q in
  (q, if bool_decide (q = []) then None
      else Some (if ok then NoLogsAfterwards else EmitCallReverted)).

(** ** Runs *)

Inductive EmitEvent : Type :=
| EvDeclare (c : ExpectEmitCall) (depth : nat)
| EvLog (log : EmittedLog)
| EvCallEnd (depth : nat) (is_static ok : bool).

(** The queue and the errors so far. *)
Definition emit_step (s : ExpectedEmitTracker * list EmitError) (ev : EmitEvent)
    : outcome (ExpectedEmitTracker * list EmitError) :=
  match ev with
  | EvDeclare c depth => Ret (apply_expect_emit c depth s.1, s.2)
  | EvLog log => '(q, _) ← log_hook s.1 log; Ret (q, s.2)
  | EvCallEnd depth is_static ok =>
      let '(q, err) := check_emits s.1 depth is_static ok in Ret (q, s.2 ++ option_list err)
  end.
End handler.

(** ** What is expected of the logs *)

Definition log_matches (c : EmitChecks) (expected log : RawLog) : Prop :=
  length (rl_topics log) = length (rl_topics expected) ∧
  (∀ i, i < length (rl_topics log) → check_at c i = true →
    rl_topics log !! i = rl_topics expected !! i) ∧
  (ck_data c = true → rl_data log = rl_data expected).

Definition matches (e : ExpectedEmit) (l : EmittedLog) : Prop :=
  (∃ x, ee_log e = Some x ∧ log_matches (ee_checks e) x (lg_data l)) ∧
  (∀ a, ee_address e = Some a → lg_address l = a).

Lemma checks_spec c x l : checks_topics_and_data c x l = true ↔ log_matches c x l.
Proof.
  unfold checks_topics_and_data, log_matches.
  rewrite !andb_true_iff, bool_decide_eq_true, forallb_forall, orb_true_iff, negb_true_iff,
    bool_decide_eq_true.
  assert ((∀ p, In p (imap pair (rl_topics l)) →
             negb (check_at c p.1) || bool_decide (rl_topics x !! p.1 = Some p.2) = true) ↔
          (∀ i, i < length (rl_topics l) → check_at c i = true →
             rl_topics l !! i = rl_topics x !! i)) as ->.
  - setoid_rewrite <-list_elem_of_In. setoid_rewrite elem_of_lookup_imap.
    setoid_rewrite orb_true_iff. setoid_rewrite negb_true_iff.
    setoid_rewrite bool_decide_eq_true. split.
    + intros H i [t Ht]%lookup_lt_is_Some Hc. rewrite Ht.
      destruct (H (i, t)) as [Hf|Hf]; [by exists i, t| |]; simpl in Hf; congruence.
    + intros H p (i & t & -> & Ht). simpl. destruct (check_at c i) eqn:E; [|by left]. right.
      rewrite <-H; [done|by eapply lookup_lt_Some|done].
  - destruct (ck_data c); naive_solver.
Qed.

Lemma log_matches_refl c x : log_matches c x x.
Proof. done. Qed.

#[export] Instance log_matches_dec c x l : Decision (log_matches c x l).
Proof.
  refine (cast_if (decide (checks_topics_and_data c x l = true))); by rewrite <-checks_spec.
Defined.

#[export] Instance matches_dec e l : Decision (matches e l).
Proof.
  unfold matches. destruct (ee_log e) as [x|]; [|right; naive_solver].
  destruct (decide (log_matches (ee_checks e) x (lg_data l))); [|right; naive_solver].
  destruct (ee_address e) as [a|]; [|left; naive_solver].
  destruct (decide (lg_address l = a)); [left|right]; naive_solver.
Defined.

(** The expectations are met one after the other: each positive one by the log
    that completes its count, from one emitter; the first that expects no log
    must see none, and only others of that kind may follow it. *)
Inductive emitted : list ExpectedEmit → list EmittedLog → Prop :=
| emitted_all logs : emitted [] logs
| emitted_never e es logs :
    ee_count e = 0 → Forall (λ l, ¬ matches e l) logs → Forall (λ e, ee_count e = 0) es →
    emitted (e :: es) logs
| emitted_times e es seg l rest :
    S (length (filter (matches e) seg)) = ee_count e → matches e l →
    (ee_address e = None → ∀ l', l' ∈ seg → matches e l' → lg_address l' = lg_address l) →
    emitted es rest → emitted (e :: es) (seg ++ l :: rest).

(** ** Counts *)

Section counts.
Context `{!HashOrder RawLog, !HashOrder Z}.

Lemma sum_list_map_iter `{HashOrder K} {A} (f : A → nat) (m : gmap K A) k :
  sum_list (f <$> map_iter m) =
    match m !! k with Some x => f x | None => 0 end + sum_list (f <$> map_iter (delete k m)).
Proof.
  destruct (m !! k) as [x|] eqn:E; [by rewrite (map_iter_split m k x E)|].
  by rewrite delete_id.
Qed.

Lemma count_bump c l : count_unchecked (log_count_bump c l) = S (count_unchecked c).
Proof.
  unfold count_unchecked, log_count_bump. simpl.
  rewrite <-(list_fmap_id (map_iter (<[_:=_]> _))), <-(list_fmap_id (map_iter (lc_map c))).
  rewrite (sum_list_map_iter id _ l), lookup_insert_eq, delete_insert_eq.
  rewrite (sum_list_map_iter id (lc_map c) l). by destruct (lc_map c !! l).
Qed.

(** The counts of an expectation with log [x]. *)
Record count_wf (ck : EmitChecks) (x : RawLog) (c : LogCountMap) : Prop := {
  cw_checks : lc_checks c = ck;
  cw_log : lc_expected_log c = x;
  cw_keys k : is_Some (lc_map c !! k) → log_matches ck x k
}.

Definition counts_wf (e : ExpectedEmit) (x : RawLog) (m : CountMap) : Prop :=
  ∀ a c, m !! a = Some c → count_wf (ee_checks e) x c ∧ 0 < count_unchecked c.

Definition count_of (m : CountMap) (a : Z) : nat :=
  match m !! a with Some c => count_unchecked c | None => 0 end.

Lemma satisfies_wf e x c l :
  count_wf (ee_checks e) x c → satisfies_checks c l = bool_decide (log_matches (ee_checks e) x l).
Proof.
  intros [<- <- _]. apply eq_bool_prop_intro. rewrite bool_decide_spec, <-checks_spec.
  by rewrite Is_true_true.
Qed.

Lemma log_count_wf e x c l :
  count_wf (ee_checks e) x c → log_matches (ee_checks e) x l → log_count c l = count_unchecked c.
Proof. intros Hc Hl. unfold log_count. by rewrite (satisfies_wf _ _ _ _ Hc), bool_decide_true. Qed.

Lemma log_count_insert_spec e x c l :
  count_wf (ee_checks e) x c →
  (log_count_insert c l).1 = if decide (log_matches (ee_checks e) x l) then log_count_bump c l else c.
Proof.
  intros Hc. unfold log_count_insert. rewrite (satisfies_wf _ _ _ _ Hc).
  case_bool_decide as Hk; case_decide as Hl; rewrite ?bool_decide_true, ?bool_decide_false by done;
    [done| |done|done].
  destruct Hl. by eapply cw_keys.
Qed.

Lemma bump_wf e x c l :
  count_wf (ee_checks e) x c → log_matches (ee_checks e) x l → count_wf (ee_checks e) x (log_count_bump c l).
Proof.
  intros [Hc1 Hc2 Hk] Hl. split; [done|done|]. intros k. simpl.
  rewrite lookup_insert_is_Some. intros [<-|[_ ?]]; auto.
Qed.

Lemma count_new e x :
  ee_log e = Some x →
  ∃ c, log_count_new e = Ret c ∧ count_wf (ee_checks e) x c ∧ count_unchecked c = 0.
Proof.
  intros Ex. unfold log_count_new. rewrite Ex. eexists. split; [done|]. split.
  - split; [done|done|]. intros k [? Hk]. simpl in Hk. by rewrite lookup_empty in Hk.
  - unfold count_unchecked. simpl. by rewrite map_iter_empty.
Qed.

(** A log that passes the checks adds one to the count of its emitter, any
    other log changes nothing. *)
Lemma count_log_spec e x m l :
  ee_log e = Some x → counts_wf e x m →
  ∃ m', count_log e m l = Ret m' ∧ counts_wf e x m' ∧
    if decide (log_matches (ee_checks e) x (lg_data l)) then
      ∃ c, m' = <[lg_address l := c]> m ∧ count_unchecked c = S (count_of m (lg_address l))
    else m' = m.
Proof.
  intros Ex Hm.
  assert (∃ c, count_wf (ee_checks e) x c ∧ count_unchecked c = count_of m (lg_address l) ∧
    count_log e m l = Ret (if decide (log_matches (ee_checks e) x (lg_data l))
                           then <[lg_address l := log_count_bump c (lg_data l)]> m else m))
    as (c & Hc & En & ->).
  { unfold count_log, count_of. destruct (m !! lg_address l) as [c|] eqn:E.
    - destruct (Hm _ _ E) as [Hc _]. exists c. split; [done|]. split; [done|].
      rewrite (log_count_insert_spec _ _ _ _ Hc). case_decide; [done|]. by rewrite insert_id.
    - destruct (count_new e x Ex) as (c & -> & Hc & En). exists c. split; [done|]. split; [done|].
      rewrite bind_Ret, (log_count_insert_spec _ _ _ _ Hc), (satisfies_wf _ _ _ _ Hc).
      case_decide; [by rewrite bool_decide_true|by rewrite bool_decide_false]. }
  eexists. split; [done|]. case_decide as Hl; [|done]. split.
  - intros a c' [[<- <-]|[_ ?]]%lookup_insert_Some; [|by eapply Hm].
    rewrite count_bump. split; [by apply bump_wf|lia].
  - eexists. split; [done|]. by rewrite count_bump, En.
Qed.

(** How often the log of an expectation was seen, for the check at the end. *)
Lemma emit_count_wf e x m :
  ee_log e = Some x → counts_wf e x m →
  emit_count e m = match ee_address e with
                   | Some a => count_of m a
                   | None => sum_list (count_unchecked <$> map_iter m)
                   end.
Proof.
  intros Ex Hm. unfold emit_count, count_of. rewrite Ex. destruct (ee_address e) as [a|].
  - destruct (m !! a) as [c|] eqn:E; [|done]. destruct (Hm _ _ E) as [Hc _].
    by apply (log_count_wf _ _ _ _ Hc).
  - f_equal. apply list_fmap_ext. intros i c Hi.
    assert (c ∈ map_iter m) as [a E]%map_iter_elem_of by (by eapply list_elem_of_lookup_2).
    destruct (Hm _ _ E) as [Hc _]. by apply (log_count_wf _ _ _ _ Hc).
Qed.

Lemma sum_counts m a :
  sum_list (count_unchecked <$> map_iter m) =
    count_of m a + sum_list (count_unchecked <$> map_iter (delete a m)).
Proof. apply (sum_list_map_iter count_unchecked m a). Qed.

Lemma sum_two_counts m a b :
  a ≠ b → count_of m a + count_of m b ≤ sum_list (count_unchecked <$> map_iter m).
Proof.
  intros Hab. rewrite (sum_counts m a), (sum_counts (delete a m) b).
  assert (count_of (delete a m) b = count_of m b) as -> by
    (unfold count_of; by rewrite lookup_delete_ne). lia.
Qed.

(** One log counted for an expectation. *)
Definition counted (e : ExpectedEmit) (x : RawLog) (m : CountMap) (l : EmittedLog) (m' : CountMap)
    : Prop :=
  if decide (log_matches (ee_checks e) x (lg_data l)) then
    ∃ c, m' = <[lg_address l := c]> m ∧ count_unchecked c = S (count_of m (lg_address l))
  else m' = m.

Lemma counted_of e x m l m' a :
  counted e x m l m' →
  count_of m' a = count_of m a +
    (if decide (log_matches (ee_checks e) x (lg_data l) ∧ lg_address l = a) then 1 else 0).
Proof.
  unfold counted. intros H. destruct (decide (log_matches _ _ _)) as [Hl|Hl].
  - destruct H as (c & -> & E). unfold count_of in *. destruct (decide (lg_address l = a)) as [<-|Ha].
    + rewrite lookup_insert_eq, decide_True by done. lia.
    + rewrite lookup_insert_ne, decide_False by naive_solver. lia.
  - subst. rewrite decide_False by naive_solver. lia.
Qed.

Lemma matches_log e x l :
  ee_log e = Some x →
  matches e l ↔ log_matches (ee_checks e) x (lg_data l) ∧
                 (∀ a, ee_address e = Some a → lg_address l = a).
Proof. intros Ex. unfold matches. rewrite Ex. naive_solver. Qed.

Lemma counted_emit e x m l m' :
  ee_log e = Some x → counts_wf e x m → counts_wf e x m' → counted e x m l m' →
  emit_count e m' = emit_count e m + (if decide (matches e l) then 1 else 0).
Proof.
  intros Ex Hm Hm' H. rewrite !(emit_count_wf _ _ _ Ex) by done.
  pose proof (matches_log e x l Ex) as Hl. destruct (ee_address e) as [a|] eqn:Ea.
  - rewrite (counted_of _ _ _ _ _ a H). f_equal.
    assert (matches e l ↔ log_matches (ee_checks e) x (lg_data l) ∧ lg_address l = a) as Hl'
      by (rewrite Hl; naive_solver).
    by apply decide_ext.
  - unfold counted in H. destruct (decide (log_matches _ _ _)).
    + destruct H as (c & -> & E). rewrite (decide_True (P := matches e l)) by (by apply Hl).
      rewrite (sum_counts (<[_:=_]> m) (lg_address l)), (sum_counts m (lg_address l)).
      rewrite delete_insert_eq. unfold count_of in *. rewrite lookup_insert_eq. lia.
    + subst. rewrite (decide_False (P := matches e l)) by (by intros [? _]%Hl). lia.
Qed.
End counts.

(** ** The queue *)

Section queue.
Context `{!HashOrder RawLog, !HashOrder Z}.

Definition entry_wf (p : ExpectedEmit * CountMap) : Prop :=
  ∃ x, ee_log p.1 = Some x ∧ counts_wf p.1 x p.2.

(** A log judged against an expectation. *)
Definition judged (p : ExpectedEmit * CountMap) (l : EmittedLog) (p' : ExpectedEmit * CountMap) : Prop :=
  ∃ x m' err, ee_log p.1 = Some x ∧ counted p.1 x p.2 l m' ∧ counts_wf p.1 x m' ∧
    p' = (with_found p.1 (judge_log p.1 x m' l).1 err, m').

Lemma judged_wf p l p' : judged p l p' → entry_wf p'.
Proof. intros (x & m' & err & Ex & _ & Hm & ->). by exists x. Qed.

Lemma handle_front p q l :
  ee_found p.1 = false → Forall entry_wf (p :: q) →
  ∃ p', judged p l p' ∧
    log_hook (p :: q) l = Ret (if ee_found p'.1 then q ++ [p'] else p' :: q, false).
Proof.
  intros Hf [(x & Ex & Hm) Hq]%Forall_cons. destruct p as [e m]. simpl in *.
  unfold log_hook, handle_expect_emit. rewrite bool_decide_false by done. simpl. rewrite Hf. simpl.
  rewrite Ex. rewrite (bool_decide_false (Some x = None)) by done. simpl.
  assert (existsb (λ p, bool_decide (ee_log p.1 = None)) q = false) as ->.
  { apply not_true_is_false. rewrite existsb_exists. intros (p & Hp%list_elem_of_In & Hn).
    rewrite Forall_forall in Hq. destruct (Hq _ Hp) as (y & Ey & _).
    rewrite bool_decide_eq_true in Hn. congruence. }
  change (deque_remove 0 ((e, m) :: q)) with (Some ((e, m), q)). simpl. rewrite Ex.
  destruct (count_log_spec e x m l Ex Hm) as (m' & -> & Hm' & Hc). rewrite bind_Ret.
  destruct (judge_log e x m' l) as [found err] eqn:Ej.
  exists (with_found e found err, m'). split.
  - exists x, m', err. simpl. by rewrite Ej.
  - by destruct found.
Qed.

Definition all_found (q : ExpectedEmitTracker) : Prop := Forall (λ p, ee_found p.1 = true) q.

Lemma hook_all_found q l : all_found q → log_hook q l = Ret (q, false).
Proof.
  intros Hq. unfold log_hook, handle_expect_emit. case_bool_decide; [done|].
  rewrite (proj2 (forallb_forall (λ p, ee_found p.1) q)); [done|].
  intros p Hp%list_elem_of_In. unfold all_found in Hq. rewrite Forall_forall in Hq. by apply Hq.
Qed.

(** What [check_emits] asks of the queue. *)
Definition entry_ok (p : ExpectedEmit * CountMap) : Prop :=
  (ee_found p.1 = true ∨ ee_count p.1 = 0) ∧ emit_count p.1 p.2 = ee_count p.1.

Lemma check_emits_spec q d ok :
  Exists (λ p, ee_depth p.1 = d) q →
  (Forall entry_ok q ∧ check_emits q d false ok = ([], None)) ∨
  (¬ Forall entry_ok q ∧ ∃ err, check_emits q d false ok = (q, Some err)).
Proof.
  intros Hd. unfold check_emits.
  assert (existsb (λ p, bool_decide (ee_depth p.1 = d)) q = true) as ->.
  { apply existsb_exists. apply Exists_exists in Hd as (p & Hp & E). exists p.
    split; [by apply list_elem_of_In|by apply bool_decide_true]. }
  simpl. destruct (List.find _ q) as [[e m]|] eqn:Ef.
  - right. apply find_some in Ef as [Hin%list_elem_of_In Hp]. simpl in Hp.
    apply andb_true_iff in Hp as [Hf%negb_true_iff Hc%bool_decide_eq_true].
    split; [|by eexists]. rewrite Forall_forall. intros H. destruct (H _ Hin) as [[?|?] _]; simpl in *;
      [congruence|lia].
  - assert (∀ p, p ∈ q → ee_found p.1 = true ∨ ee_count p.1 = 0) as Hf.
    { intros p Hp%list_elem_of_In. pose proof (find_none _ _ Ef p Hp) as Hn. simpl in Hn.
      apply andb_false_iff in Hn as [->%negb_false_iff|Hn%bool_decide_eq_false]; [by left|right; lia]. }
    destruct (omap _ q) as [|[e c] rest] eqn:Eo.
    + left. split; [|done]. rewrite Forall_forall. intros p Hp. split; [by apply Hf|].
      destruct (decide (emit_count p.1 p.2 = ee_count p.1)) as [|Hn]; [done|].
      assert ((p.1, emit_count p.1 p.2) ∈ []) as []%not_elem_of_nil.
      rewrite <-Eo. apply list_elem_of_omap. exists p. by rewrite bool_decide_true.
    + right. split; [|by eexists]. rewrite Forall_forall. intros H.
      assert ((e, c) ∈ (e, c) :: rest) as Hin by left. rewrite <-Eo in Hin.
      apply list_elem_of_omap in Hin as (p & Hp & E). destruct (H _ Hp) as [_ Hc].
      by rewrite bool_decide_false in E by (by intros []).
Qed.
End queue.

(** ** Expectations that can no longer be met *)

Section doomed.
Context `{!HashOrder RawLog, !HashOrder Z}.

(** Seen too often, or from two emitters. *)
Definition doomed (p : ExpectedEmit * CountMap) : Prop :=
  entry_wf p ∧
  (ee_count p.1 < emit_count p.1 p.2 ∨
   ee_address p.1 = None ∧
   (∃ a b, a ≠ b ∧ 0 < count_of p.2 a ∧ 0 < count_of p.2 b) ∧
   (ee_found p.1 = true → ∃ a, ee_count p.1 ≤ count_of p.2 a)).

Lemma doomed_rejected q : Exists doomed q → ¬ Forall entry_ok q.
Proof.
  rewrite Exists_exists, Forall_forall. intros ([e m] & Hin & (x & Ex & Hm) & Hd) H.
  destruct (H _ Hin) as [Hf Hc]. simpl in *. destruct Hd as [Hd|(Ea & (a & b & Hab & Ha & Hb) & Hd)].
  - lia.
  - rewrite (emit_count_wf _ _ _ Ex Hm), Ea in Hc.
    pose proof (sum_two_counts m a b Hab).
    destruct Hf as [Hf|?]; [|lia]. destruct (Hd Hf) as [a' Ha'].
    destruct (decide (a' = a)) as [->|Hna]; [lia|].
    pose proof (sum_two_counts m a' a Hna). lia.
Qed.

Lemma judge_found_any e x m l :
  ee_address e = None → counts_wf e x m → (judge_log e x m l).1 = true →
  ∃ a, ee_count e ≤ count_of m a.
Proof.
  intros Ea Hm. unfold judge_log. rewrite Ea. destruct (negb _) eqn:En; [done|].
  apply negb_false_iff in En. rewrite checks_spec in En. simpl.
  destruct (List.find _ _) as [c|] eqn:Ef; [|done]. apply find_some in Ef as [Hin%list_elem_of_In _].
  apply map_iter_elem_of in Hin as [a E]. destruct (Hm _ _ E) as [Hc _].
  rewrite (log_count_wf _ _ _ _ Hc) by done. rewrite bool_decide_eq_true.
  exists a. unfold count_of. by rewrite E.
Qed.

Lemma doomed_judged p l p' : doomed p → judged p l p' → doomed p'.
Proof.
  intros [(y & Ey & Hm) Hd] Hj. split; [by eapply judged_wf|].
  destruct Hj as (x & m' & err & Ex & Hc & Hm' & ->). destruct p as [e m]. simpl in *.
  rewrite Ex in Ey. injection Ey as <-.
  change (emit_count (with_found e (judge_log e x m' l).1 err) m') with (emit_count e m').
  rewrite (counted_emit e x m l m') by done.
  destruct Hd as [Hd|(Ea & (a & b & Hab & Ha & Hb) & Hd)]; [left; lia|right].
  split; [done|]. split.
  - exists a, b. rewrite !(counted_of _ _ _ _ _ _ Hc). lia.
  - intros Hf. by eapply judge_found_any.
Qed.

(** Unfound expectations first. *)
Definition queue_wf (q : ExpectedEmitTracker) : Prop :=
  Forall entry_wf q ∧
  ∃ pend fnd, q = pend ++ fnd ∧ Forall (λ p, ee_found p.1 = false) pend ∧ all_found fnd.

(** What a log leaves alone. *)
Definition same_shape (q q' : ExpectedEmitTracker) : Prop :=
  ∀ d, Forall (λ p, ee_depth p.1 = d) q → Forall (λ p, ee_depth p.1 = d) q' ∧ (q = [] ↔ q' = []).

Lemma judged_depth p l p' : judged p l p' → ee_depth p'.1 = ee_depth p.1.
Proof. by intros (x & m' & err & _ & _ & _ & ->). Qed.

Lemma hook_step q l :
  queue_wf q →
  ∃ q', log_hook q l = Ret (q', false) ∧ queue_wf q' ∧ same_shape q q' ∧
    (Exists doomed q → Exists doomed q').
Proof.
  intros [Hq (pend & fnd & -> & Hp & Hf)]. destruct pend as [|p pend].
  - exists fnd. rewrite hook_all_found by done. split_and!; [done| |done|done].
    split; [done|]. by exists [], fnd.
  - apply Forall_cons in Hp as [Hp Hpend].
    destruct (handle_front p (pend ++ fnd) l Hp Hq) as (p' & Hj & E). simpl app in *. rewrite E.
    eexists. split; [done|]. apply Forall_cons in Hq as [_ Hq].
    pose proof (judged_wf _ _ _ Hj) as Hw. pose proof (λ H, doomed_judged _ _ _ H Hj) as Hd.
    pose proof (judged_depth _ _ _ Hj) as Hdep. destruct (ee_found p'.1) eqn:Ef; split_and!.
    + split; [rewrite Forall_app, Forall_singleton; done|].
      exists pend, (fnd ++ [p']). rewrite app_assoc. split; [done|]. split; [done|].
      unfold all_found. by rewrite Forall_app, Forall_singleton.
    + intros d [<- ?]%Forall_cons. rewrite (Forall_app _ (_ ++ _)), Forall_singleton.
      split; [done|]. split; [done|]. by intros [_ ?]%app_eq_nil.
    + rewrite Exists_app, !Exists_cons, Exists_nil. naive_solver.
    + split; [by constructor|]. exists (p' :: pend), fnd. auto.
    + intros d [<- ?]%Forall_cons. by rewrite Forall_cons.
    + rewrite !Exists_cons. naive_solver.
Qed.

(** The logs of a call, one after the other. *)
Definition hook_logs (q : ExpectedEmitTracker) (logs : list EmittedLog) : outcome ExpectedEmitTracker :=
  foldM (λ q l, '(q, _) ← log_hook q l; Ret q) q logs.

Lemma hook_logs_cons q l logs q' b :
  log_hook q l = Ret (q', b) → hook_logs q (l :: logs) = hook_logs q' logs.
Proof. intros E. unfold hook_logs. simpl. by rewrite E. Qed.

Lemma hook_logs_total q logs :
  queue_wf q →
  ∃ q', hook_logs q logs = Ret q' ∧ same_shape q q' ∧ (Exists doomed q → ¬ Forall entry_ok q').
Proof.
  revert q. induction logs as [|l logs IH]; intros q Hq.
  { exists q. split_and!; [done|done|apply doomed_rejected]. }
  destruct (hook_step q l Hq) as (q1 & E & Hq1 & Hs & Hd). rewrite (hook_logs_cons _ _ _ _ _ E).
  destruct (IH q1 Hq1) as (q2 & E2 & Hs2 & Hd2). exists q2. split_and!; [done| |auto].
  intros d [H Hn]%Hs. destruct (Hs2 d H) as [H2 Hn2]. split; [done|]. by rewrite Hn.
Qed.

Lemma hook_logs_found q logs : all_found q → hook_logs q logs = Ret q.
Proof.
  intros Hq. induction logs as [|l logs IH]; [done|].
  by rewrite (hook_logs_cons _ _ _ _ _ (hook_all_found q l Hq)).
Qed.
End doomed.

(** ** The order of the expectations *)

(** The first expectation after [n] logs, of emitter [o] if it may be any. *)
Definition after (e : ExpectedEmit) (es : list ExpectedEmit) (n : nat) (o : option Z)
    (logs : list EmittedLog) : Prop :=
  (ee_count e = 0 ∧ n = 0 ∧ Forall (λ l, ¬ matches e l) logs ∧ Forall (λ e, ee_count e = 0) es) ∨
  (∃ s l rest, logs = s ++ l :: rest ∧ n + S (length (filter (matches e) s)) = ee_count e ∧
     matches e l ∧
     (ee_address e = None → (∀ l', l' ∈ s → matches e l' → lg_address l' = lg_address l) ∧
                             (∀ a, o = Some a → a = lg_address l)) ∧
     emitted es rest).

Lemma emitted_after e es logs : emitted (e :: es) logs ↔ after e es 0 None logs.
Proof.
  split.
  - inversion 1 as [| |? ? seg l rest ? ? Ho ?]; subst; [left; auto|right].
    exists seg, l, rest. split_and!; [done|done|done| |done]. intros Ea. split; [by apply Ho|done].
  - intros [(?&?&?&?)|(s & l & rest & -> & ? & ? & Ho & ?)]; [by constructor|].
    apply emitted_times; [done|done| |done]. intros Ea. by apply Ho.
Qed.

Lemma after_nil e es n o :
  after e es n o [] ↔ ee_count e = 0 ∧ n = 0 ∧ Forall (λ e, ee_count e = 0) es.
Proof.
  split.
  - intros [(?&?&_&?)|([|l1 s] & l & rest & E & _)]; done.
  - intros (?&?&?). left. auto.
Qed.

Lemma after_skip e es n o l logs :
  ¬ matches e l → after e es n o (l :: logs) ↔ after e es n o logs.
Proof.
  intros Hl. split.
  - intros [(?&?&?%Forall_cons&?)|(s & l' & rest & E & Hn & Hl' & Ho & He)]; [left; naive_solver|].
    destruct s as [|l1 s]; simplify_eq/=; [done|]. right. exists s, l', rest.
    rewrite filter_cons_False in Hn by done. split; [done|]. split; [done|]. split; [done|].
    split; [|done]. intros Ea. destruct (Ho Ea) as [Ho1 Ho2]. split; [|done]. set_solver.
  - intros [(?&?&?&?)|(s & l' & rest & -> & Hn & Hl' & Ho & He)]; [left; auto|].
    right. exists (l :: s), l', rest. rewrite filter_cons_False by done.
    split; [done|]. split; [done|]. split; [done|]. split; [|done].
    intros Ea. destruct (Ho Ea) as [Ho1 Ho2]. split; [|done].
    intros l1 [->|]%elem_of_cons; [done|auto].
Qed.

(** The emitter seen so far is the one of a log. *)
Definition agrees (e : ExpectedEmit) (o : option Z) (l : EmittedLog) : Prop :=
  ee_address e = None → ∀ a, o = Some a → a = lg_address l.

Lemma after_found e es n o l logs :
  matches e l → S n = ee_count e → agrees e o l →
  after e es n o (l :: logs) ↔ emitted es logs.
Proof.
  intros Hl Hn Ha. split.
  - intros [?|(s & l' & rest & E & Hs & _ & _ & He)]; [naive_solver lia|].
    destruct s as [|l1 s]; simplify_eq/=; [done|]. rewrite filter_cons_True in Hs by done.
    simpl in Hs. lia.
  - intros He. right. exists [], l, logs. split; [done|]. split; [simpl; lia|]. split; [done|].
    split; [|done]. intros Ea. split; [set_solver|]. by apply Ha.
Qed.

Lemma after_more e es n o l logs :
  matches e l → S n < ee_count e → agrees e o l →
  after e es n o (l :: logs) ↔ after e es (S n) (Some (lg_address l)) logs.
Proof.
  intros Hl Hn Ha. split.
  - intros [?|(s & l' & rest & E & Hs & Hl' & Ho & He)]; [naive_solver lia|].
    destruct s as [|l1 s]; simplify_eq/=; [lia|]. rewrite filter_cons_True in Hs by done.
    simpl in Hs. right. exists s, l', rest. split; [done|]. split; [lia|]. split; [done|].
    split; [|done]. intros Ea. destruct (Ho Ea) as [Ho1 _]. split; [set_solver|].
    intros a [= <-]. apply Ho1; [left|done].
  - intros [?|(s & l' & rest & -> & Hs & Hl' & Ho & He)]; [naive_solver lia|].
    right. exists (l :: s), l', rest. rewrite filter_cons_True by done. simpl.
    split; [done|]. split; [lia|]. split; [done|]. split; [|done].
    intros Ea. destruct (Ho Ea) as [Ho1 Ho2]. specialize (Ho2 _ eq_refl). split.
    + intros l1 [->|]%elem_of_cons; [done|auto].
    + intros a Eo. rewrite <-Ho2. by apply Ha.
Qed.

Lemma after_bad e es n o l logs :
  matches e l → ee_count e = 0 ∨ ¬ agrees e o l → ¬ after e es n o (l :: logs).
Proof.
  intros Hl Hb [(?&?&[??]%Forall_cons&?)|(s & l' & rest & E & Hs & Hl' & Ho & He)]; [done|].
  destruct Hb as [Hb|Hb]; [lia|]. apply Hb. intros Ea a Eo. destruct (Ho Ea) as [Ho1 Ho2].
  rewrite (Ho2 a Eo). destruct s as [|l1 s]; simplify_eq/=; [done|]. symmetry. apply Ho1; [left|done].
Qed.

(** ** The queue and the order *)

Section order.
Context `{!HashOrder RawLog, !HashOrder Z}.

Definition front (e : ExpectedEmit) (m : CountMap) (n : nat) (o : option Z) : Prop :=
  ∃ x, ee_log e = Some x ∧ counts_wf e x m ∧
    match ee_address e with
    | Some a => count_of m a = n
    | None => match o with
              | None => m = ∅ ∧ n = 0
              | Some a => ∃ c, m = {[a := c]} ∧ count_unchecked c = n
              end
    end.

Lemma front_count e m n o : front e m n o → emit_count e m = n.
Proof.
  intros (x & Ex & Hm & H). rewrite (emit_count_wf _ _ _ Ex Hm).
  destruct (ee_address e); [done|]. destruct o as [a|].
  - destruct H as (c & -> & <-). rewrite (sum_counts _ a), delete_singleton_eq, map_iter_empty.
    unfold count_of. rewrite lookup_singleton_eq. simpl. lia.
  - destruct H as [-> ->]. by rewrite map_iter_empty.
Qed.

Lemma front_fresh e : is_Some (ee_log e) → front e ∅ 0 None.
Proof.
  intros [x Ex]. exists x. split; [done|]. split; [intros a c; by rewrite lookup_empty|].
  destruct (ee_address e); [|done]. unfold count_of. by rewrite lookup_empty.
Qed.

Lemma judge_no_match e x m l : ee_log e = Some x → ¬ matches e l → (judge_log e x m l).1 = false.
Proof.
  intros Ex Hl. rewrite (matches_log e x l Ex) in Hl. unfold judge_log.
  destruct (checks_topics_and_data _ _ _) eqn:Ec; [|done]. apply checks_spec in Ec. simpl.
  destruct (ee_address e) as [a|]; [|naive_solver].
  by rewrite bool_decide_false by naive_solver.
Qed.

(** A log that matches, from the emitter of the earlier ones. *)
Lemma judge_match e x m l c :
  ee_log e = Some x → matches e l → m !! lg_address l = Some c → counts_wf e x m →
  (ee_address e = None → m = {[lg_address l := c]}) →
  (judge_log e x m l).1 = bool_decide (ee_count e ≤ count_unchecked c).
Proof.
  intros Ex [Hl Ha]%(matches_log e x l Ex) Em Hm Hs. destruct (Hm _ _ Em) as [Hc _].
  unfold judge_log. rewrite (proj2 (checks_spec _ _ _) Hl). simpl.
  destruct (ee_address e) as [a|].
  - rewrite <-(Ha a) by done. rewrite bool_decide_true by done. simpl. rewrite Em. simpl.
    by rewrite (log_count_wf _ _ _ _ Hc).
  - rewrite Hs by done. simpl.
    assert (map_iter {[lg_address l := c]} = [c]) as ->.
    { apply Permutation_singleton_r. rewrite (map_iter_split _ _ _ (lookup_singleton_eq (lg_address l) c)).
      by rewrite delete_singleton_eq, map_iter_empty. }
    simpl. rewrite (satisfies_wf _ _ _ _ Hc), bool_decide_true by done.
    by rewrite (log_count_wf _ _ _ _ Hc).
Qed.

(** The emitter of an expectation that allows any. *)
Lemma front_any e x m n o a c :
  counts_wf e x m → match o with
                    | None => m = ∅ ∧ n = 0
                    | Some b => ∃ c, m = {[b := c]} ∧ count_unchecked c = n
                    end →
  count_unchecked c = S (count_of m a) →
  ((∀ b, o = Some b → b = a) ∧ <[a := c]> m = {[a := c]} ∧ count_unchecked c = S n) ∨
  (∃ b, o = Some b ∧ b ≠ a ∧ 0 < count_of (<[a := c]> m) a ∧ 0 < count_of (<[a := c]> m) b).
Proof.
  intros Hm H Hc. destruct o as [b|].
  - destruct H as (c0 & -> & Hn). destruct (decide (b = a)) as [->|Hb].
    + left. split; [naive_solver|]. split; [apply insert_singleton_eq|].
      unfold count_of in Hc. rewrite lookup_singleton_eq in Hc. lia.
    + right. exists b. split; [done|]. split; [done|]. unfold count_of.
      rewrite lookup_insert_eq, lookup_insert_ne, lookup_singleton_eq by done.
      split; [lia|]. eapply Hm, lookup_singleton_eq.
  - left. destruct H as [-> ->]. split; [done|]. split; [done|].
    unfold count_of in Hc. rewrite lookup_empty in Hc. lia.
Qed.

(** A log against the first expectation: it does not match, it matches and is
    counted, or it comes from a second emitter. *)
Definition front_result (e : ExpectedEmit) (n : nat) (o : option Z) (l : EmittedLog)
    (p' : ExpectedEmit * CountMap) : Prop :=
  (¬ matches e l ∧ ee_found p'.1 = false ∧ front p'.1 p'.2 n o) ∨
  (matches e l ∧ agrees e o l ∧ ee_found p'.1 = bool_decide (ee_count e ≤ S n) ∧
   front p'.1 p'.2 (S n) (Some (lg_address l))) ∨
  (matches e l ∧ ¬ agrees e o l ∧ doomed p').

Lemma front_match e m n o l p' :
  matches e l → front e m n o → judged (e, m) l p' → front_result e n o l p'.
Proof.
  intros Hl (y & Ey & Hm & H) Hj. pose proof (judged_wf _ _ _ Hj) as Hw.
  destruct Hj as (x & m' & err & Ex & Hc & Hm' & ->). cbn [fst snd] in *.
  rewrite Ex in Ey. injection Ey as <-. right.
  pose proof (proj1 (matches_log e x l Ex) Hl) as [Hlm Ha]. unfold counted in Hc.
  rewrite decide_True in Hc by done. destruct Hc as (c & -> & Ec).
  assert (<[lg_address l:=c]> m !! lg_address l = Some c) as Em by apply lookup_insert_eq.
  destruct (ee_address e) as [a|] eqn:Ea.
  - left. split; [done|]. split; [by unfold agrees; rewrite Ea|]. rewrite <-(Ha a eq_refl) in H.
    simpl. rewrite (judge_match e x _ l c) by (done || (intros; congruence)). rewrite Ec, H. split; [done|].
    exists x. split; [done|]. split; [done|]. simpl. rewrite Ea, <-(Ha a eq_refl).
    unfold count_of. by rewrite Em, Ec, H.
  - destruct (front_any e x m n o (lg_address l) c Hm H Ec) as [(Ho & Es & En)|(b & -> & Hb & H1 & H2)].
    + left. split; [done|]. split; [by intros _|]. simpl.
      rewrite (judge_match e x _ l c) by done. rewrite En. split; [done|].
      exists x. split; [done|]. split; [done|]. simpl. rewrite Ea. eauto.
    + right. split; [done|]. split; [intros Hg; by apply Hb, Hg|]. split; [done|]. right.
      split; [done|]. split; [by exists b, (lg_address l)|]. intros Hf.
      exact (judge_found_any e x _ l Ea Hm' Hf).
Qed.

Lemma front_step e m n o l p' : front e m n o → judged (e, m) l p' → front_result e n o l p'.
Proof.
  intros Hfr Hj. destruct (decide (matches e l)) as [Hl|Hl]; [by eapply front_match|]. left.
  destruct Hfr as (y & Ey & Hm & H).
  destruct Hj as (x & m' & err & Ex & Hc & Hm' & ->). cbn [fst snd ee_found with_found] in *.
  rewrite Ex in Ey. injection Ey as <-.
  rewrite (judge_no_match e x m' l Ex Hl). split; [done|]. split; [done|].
  exists x. split; [done|]. split; [done|]. simpl. rewrite (matches_log e x l Ex) in Hl.
  destruct (ee_address e) as [a|] eqn:Ea.
  - rewrite (counted_of _ _ _ _ _ a Hc), decide_False; [simpl; lia|].
    intros [? <-]. apply Hl. naive_solver.
  - unfold counted in Hc. rewrite decide_False in Hc; [by subst|]. intros ?. by apply Hl.
Qed.

(** Expectations that are filled and have seen no log. *)
Definition fresh (pend : ExpectedEmitTracker) : Prop :=
  Forall (λ p, ee_found p.1 = false ∧ is_Some (ee_log p.1) ∧ p.2 = ∅) pend.

Lemma fresh_wf pend : fresh pend → Forall entry_wf pend ∧ Forall (λ p, ee_found p.1 = false) pend.
Proof.
  intros H. split; (eapply Forall_impl; [exact H|]); intros [e m]; simpl; [|naive_solver].
  intros (_ & [x Ex] & ->). exists x. split; [done|]. intros a c. simpl. by rewrite lookup_empty.
Qed.

Lemma fresh_ok pend : fresh pend → Forall entry_ok pend ↔ Forall (λ e, ee_count e = 0) pend.*1.
Proof.
  induction 1 as [|[e m] pend (Hf & Hx & Hm) _ IH]; simpl in *; [by rewrite !Forall_nil|].
  subst m. rewrite !Forall_cons, IH. unfold entry_ok. simpl.
  rewrite (front_count _ _ _ _ (front_fresh e Hx)). rewrite Hf. naive_solver.
Qed.

(** The queue while its first expectation has seen [n] logs. *)
Definition started (logs : list EmittedLog) : Prop :=
  ∀ e m n o pend fnd,
  front e m n o → ee_found e = false → n < ee_count e ∨ ee_count e = 0 → fresh pend →
  Forall entry_wf fnd → all_found fnd →
  ∃ q', hook_logs ((e, m) :: pend ++ fnd) logs = Ret q' ∧
    (Forall entry_ok q' ↔ Forall entry_ok fnd ∧ after e pend.*1 n o logs).

Lemma started_fresh logs pend fnd :
  started logs → fresh pend → Forall entry_wf fnd → all_found fnd →
  ∃ q', hook_logs (pend ++ fnd) logs = Ret q' ∧
    (Forall entry_ok q' ↔ Forall entry_ok fnd ∧ emitted pend.*1 logs).
Proof.
  intros H Hp Hw Hf. destruct pend as [|[e m] pend].
  - exists fnd. rewrite hook_logs_found by done. split; [done|]. simpl.
    split; [intros ?; split; [done|constructor]|by intros [? _]].
  - apply Forall_cons in Hp as [(Hfe & Hx & Hm) Hp]. simpl in *. subst m. setoid_rewrite emitted_after.
    apply H; [by apply front_fresh|done|lia|done|done|done].
Qed.

Lemma front_wf e m n o : front e m n o → entry_wf (e, m).
Proof. intros (x & Ex & Hm & _). by exists x. Qed.

Lemma found_ok e m n o fnd :
  front e m n o → ee_found e = true → n = ee_count e →
  Forall entry_ok (fnd ++ [(e, m)]) ↔ Forall entry_ok fnd.
Proof.
  intros Hfr Hf Hn. rewrite Forall_app, Forall_singleton. unfold entry_ok at 2. simpl.
  rewrite (front_count _ _ _ _ Hfr). tauto.
Qed.

(** A queue with an expectation that can no longer be met. *)
Lemma doomed_run q logs (P Q : Prop) :
  Exists doomed q → queue_wf q → ¬ P →
  ∃ q', hook_logs q logs = Ret q' ∧ (Forall entry_ok q' ↔ Q ∧ P).
Proof.
  intros Hd Hq HP. destruct (hook_logs_total q logs Hq) as (q' & -> & _ & H).
  exists q'. split; [done|]. specialize (H Hd). tauto.
Qed.

Lemma started_all logs : started logs.
Proof.
  induction logs as [|l logs IH]; intros e m n o pend fnd Hfr Hf Hn Hp Hw Hfnd.
  { eexists. split; [done|]. rewrite after_nil, Forall_cons, Forall_app, (fresh_ok _ Hp).
    unfold entry_ok at 1. simpl. rewrite (front_count _ _ _ _ Hfr), Hf. naive_solver. }
  pose proof (fresh_wf _ Hp) as [Hpw Hpf].
  assert (queue_wf ((e, m) :: pend ++ fnd)) as Hq.
  { split; [constructor; [by eapply front_wf|by rewrite Forall_app]|].
    exists ((e, m) :: pend), fnd. auto. }
  destruct (handle_front (e, m) (pend ++ fnd) l Hf (proj1 Hq)) as (p' & Hj & E).
  destruct (hook_step _ l Hq) as (q1 & E1 & Hq1 & _ & _).
  rewrite (hook_logs_cons _ _ _ _ _ E). rewrite E in E1. injection E1 as <-.
  pose proof (front_step _ _ _ _ _ _ Hfr Hj) as Hr. pose proof (judged_wf _ _ _ Hj) as Hw'.
  destruct Hj as (x & m' & err & _ & _ & _ & ->). cbn [fst snd] in *. revert Hr Hw' Hq1.
  generalize (judge_log e x m' l).1. intros f Hr Hw' Hq1.
  destruct Hr as [(Hl & Hf' & Hfr')|[(Hl & Ha & Hf' & Hfr')|(Hl & Ha & Hd)]]; cbn [fst snd] in *.
  - rewrite Hf'. setoid_rewrite (after_skip e); [|done]. by apply (IH _ _ _ _ _ _ Hfr').
  - rewrite Hf' in *. case_bool_decide as Hc.
    + destruct Hn as [Hn|Hn].
      * rewrite <-app_assoc. setoid_rewrite (after_found e); [|done|lia|done].
        setoid_rewrite <-(found_ok _ _ _ _ fnd Hfr' Hf'); [|simpl; lia].
        apply started_fresh; [done|done|by apply Forall_app_2, Forall_singleton|].
        by apply Forall_app_2, Forall_singleton.
      * apply doomed_run; [|done|by apply after_bad; auto].
        rewrite Exists_app, Exists_cons. right. left. split; [done|]. left. cbn [fst snd].
        rewrite (front_count _ _ _ _ Hfr'). simpl. lia.
    + setoid_rewrite (after_more e); [|done|lia|done].
      apply (IH _ _ _ _ _ _ Hfr'); [done|simpl; lia|done|done|done].
  - apply doomed_run; [|done|by apply after_bad; auto].
    case_match; [rewrite Exists_app|]; rewrite !Exists_cons; auto.
Qed.
End order.

(** ** Declarations *)

Definition call_checks (c : ExpectEmitCall) : EmitChecks :=
  match c with
  | expectEmit_0 t1 t2 t3 data | expectEmit_1 t1 t2 t3 data _ | expectEmit_4 t1 t2 t3 data _
  | expectEmit_5 t1 t2 t3 data _ _ => Build_EmitChecks true t1 t2 t3 data
  | expectEmitAnonymous_0 t0 t1 t2 t3 data | expectEmitAnonymous_1 t0 t1 t2 t3 data _ =>
      Build_EmitChecks t0 t1 t2 t3 data
  | _ => all_checks
  end.

Definition call_emitter (c : ExpectEmitCall) : option Z :=
  match c with
  | expectEmit_1 _ _ _ _ a | expectEmit_3 a | expectEmit_5 _ _ _ _ a _ | expectEmit_7 a _
  | expectEmitAnonymous_1 _ _ _ _ _ a | expectEmitAnonymous_3 a => Some a
  | _ => None
  end.

Definition call_anonymous (c : ExpectEmitCall) : bool :=
  match c with
  | expectEmitAnonymous_0 _ _ _ _ _ | expectEmitAnonymous_1 _ _ _ _ _ _ | expectEmitAnonymous_2
  | expectEmitAnonymous_3 _ => true
  | _ => false
  end.

Definition call_count (c : ExpectEmitCall) : nat :=
  match c with
  | expectEmit_4 _ _ _ _ n | expectEmit_5 _ _ _ _ _ n | expectEmit_6 n | expectEmit_7 _ n => n
  | _ => 1
  end.

(** A declaration with the log that fills it. *)
Definition expectation (d : nat) (decl : ExpectEmitCall * EmittedLog) : ExpectedEmit :=
  {| ee_depth := d; ee_log := Some (lg_data decl.2); ee_checks := call_checks decl.1;
     ee_address := call_emitter decl.1; ee_anonymous := call_anonymous decl.1; ee_found := false;
     ee_count := call_count decl.1; ee_mismatch_error := None |}.

(** A log without topics fills only an anonymous event. *)
Definition fillable (decl : ExpectEmitCall * EmittedLog) : Prop :=
  call_anonymous decl.1 = true ∨ rl_topics (lg_data decl.2) ≠ [].

Definition declarations (d : nat) (decls : list (ExpectEmitCall * EmittedLog)) : list EmitEvent :=
  flat_map (λ decl, [EvDeclare decl.1 d; EvLog decl.2]) decls.

(** The events of a call: logs, and ends of calls where nothing was declared. *)
Definition in_call (d : nat) (ev : EmitEvent) : Prop :=
  match ev with
  | EvLog _ => True
  | EvCallEnd d' is_static _ => d' ≠ d ∨ is_static = true
  | EvDeclare _ _ => False
  end.

Definition logs_of (evs : list EmitEvent) : list EmittedLog :=
  omap (λ ev, match ev with EvLog l => Some l | _ => None end) evs.

Section runs.
Context `{!HashOrder RawLog, !HashOrder Z}.

Lemma position_found_none q : Forall (λ p, ee_found p.1 = false) q → position_found q = None.
Proof.
  intros Hq. unfold position_found. destruct (list_find _ q) as [[i p]|] eqn:E; [|done].
  apply list_find_Some in E as (Hi & Hf & _). rewrite Forall_lookup in Hq.
  by rewrite (Hq _ _ Hi) in Hf.
Qed.

Lemma apply_expect_emit_fresh c d q :
  Forall (λ p, ee_found p.1 = false) q →
  apply_expect_emit c d q =
    q ++ [({| ee_depth := d; ee_log := None; ee_checks := call_checks c; ee_address := call_emitter c;
              ee_anonymous := call_anonymous c; ee_found := false; ee_count := call_count c;
              ee_mismatch_error := None |}, ∅)].
Proof.
  intros Hq. destruct c; simpl; unfold expect_emit; by rewrite (position_found_none q Hq).
Qed.

(** The log after a declaration fills it, whatever was declared before. *)
Lemma declare_fill q errs d decl :
  fresh q → fillable decl →
  foldM emit_step (q, errs) [EvDeclare decl.1 d; EvLog decl.2] =
    Ret (q ++ [(expectation d decl, ∅)], errs).
Proof.
  intros Hq Hl. destruct (fresh_wf _ Hq) as [_ Hf]. simpl.
  rewrite apply_expect_emit_fresh by done. set (e := Build_ExpectedEmit _ _ _ _ _ _ _ _).
  assert (Forall (λ p, ee_found p.1 = false) (q ++ [(e, ∅ : CountMap)])) as Hf'.
  { by apply Forall_app_2, Forall_singleton. }
  unfold log_hook, handle_expect_emit.
  rewrite bool_decide_false by (by intros [_ ?]%app_eq_nil).
  assert (∀ f, f (e, ∅ : CountMap) = true → existsb f (q ++ [(e, ∅)]) = true) as Hex.
  { intros f Ef. rewrite existsb_app. simpl. rewrite Ef. by rewrite orb_true_r. }
  rewrite (Hex (λ p, bool_decide (ee_log p.1 = None))) by (by apply bool_decide_true).
  rewrite forallb_app. simpl. rewrite andb_false_r, position_found_none by done. simpl.
  rewrite length_app. simpl. replace (length q + 1 - 1) with (length q) by lia.
  unfold deque_remove. rewrite list_lookup_middle by done. simpl.
  rewrite delete_middle, app_nil_r. simpl.
  assert (call_anonymous decl.1 || negb (bool_decide (rl_topics (lg_data decl.2) = [])) = true) as ->.
  { destruct Hl as [->|Hl]; [done|]. by rewrite bool_decide_false, orb_true_r. }
  simpl. unfold deque_insert. by rewrite take_ge, drop_ge.
Qed.

Lemma declare_all q errs d decls :
  fresh q → Forall fillable decls →
  foldM emit_step (q, errs) (declarations d decls) =
    Ret (q ++ ((λ decl, (expectation d decl, ∅)) <$> decls), errs).
Proof.
  intros Hq Hd. revert q Hq. induction Hd as [|decl decls Hdecl _ IH]; intros q Hq.
  { simpl. by rewrite app_nil_r. }
  change (declarations d (decl :: decls)) with ([EvDeclare decl.1 d; EvLog decl.2] ++ declarations d decls).
  rewrite foldM_app, declare_fill by done. rewrite bind_Ret.
  rewrite IH; [by rewrite <-app_assoc|]. apply Forall_app_2; [done|]. apply Forall_singleton.
  split; [done|]. split; [by eexists|done].
Qed.

Lemma run_call q errs d evs :
  queue_wf q → Forall (λ p, ee_depth p.1 = d) q → Forall (in_call d) evs →
  foldM emit_step (q, errs) evs = (q' ← hook_logs q (logs_of evs); Ret (q', errs)).
Proof.
  intros Hq Hd Hev. revert q Hq Hd. induction Hev as [|ev evs Hev _ IH]; intros q Hq Hd; [done|].
  destruct ev as [|l|d' is_static ok]; [done| |].
  - destruct (hook_step q l Hq) as (q1 & E & Hq1 & Hs & _).
    change (logs_of (EvLog l :: evs)) with (l :: logs_of evs).
    rewrite (hook_logs_cons _ _ _ _ _ E). simpl. rewrite E, !bind_Ret. apply IH; [done|].
    by apply Hs.
  - change (logs_of (EvCallEnd d' is_static ok :: evs)) with (logs_of evs).
    simpl. unfold check_emits.
    assert (existsb (λ p, bool_decide (ee_depth p.1 = d')) q && negb is_static = false) as ->.
    { destruct Hev as [Hev| ->]; [|apply andb_false_r]. apply andb_false_iff. left.
      apply not_true_is_false. rewrite existsb_exists. intros (p & Hp%list_elem_of_In & Hn).
      rewrite bool_decide_eq_true in Hn. rewrite Forall_forall in Hd. specialize (Hd p Hp). congruence. }
    simpl. rewrite app_nil_r. by apply IH.
Qed.

(** What the end of the call reports, for any declarations. *)
Lemma expect_emit_outcome d decls evs ok :
  Forall fillable decls → Forall (in_call d) evs →
  ∃ q errs, foldM emit_step ([], []) (declarations d decls ++ evs ++ [EvCallEnd d false ok]) =
              Ret (q, errs) ∧
    (errs = [] ↔ emitted (expectation d <$> decls) (logs_of evs)) ∧ (errs = [] → q = []).
Proof.
  intros Hd He. rewrite foldM_app, declare_all by (done || constructor). rewrite bind_Ret. simpl app at 1.
  set (q0 := (λ decl, (expectation d decl, ∅ : CountMap)) <$> decls).
  assert (fresh q0) as Hf. { apply Forall_fmap, Forall_true. intros decl. split; [done|]. by split; [eexists|]. }
  destruct (fresh_wf _ Hf) as [Hw Hu].
  assert (queue_wf q0) as Hq. { split; [done|]. exists q0, []. rewrite app_nil_r. by repeat split; try constructor. }
  assert (Forall (λ p, ee_depth p.1 = d) q0) as Hdep by (by apply Forall_fmap, Forall_true).
  rewrite foldM_app, (run_call _ _ d) by done.
  destruct (started_fresh (logs_of evs) q0 []) as (q1 & E1 & Hok);
    [apply started_all|done|constructor|constructor|]. rewrite app_nil_r in E1.
  destruct (hook_logs_total q0 (logs_of evs) Hq) as (q2 & E2 & Hs & _).
  rewrite E1 in E2. injection E2 as <-. rewrite E1, !bind_Ret.
  assert (q0.*1 = expectation d <$> decls) as Eq by (unfold q0; by rewrite <-list_fmap_compose).
  rewrite Eq in Hok. destruct (Hs d Hdep) as [Hd1 Hn]. simpl. destruct q1 as [|p q1].
  - assert (decls = []) as ->. { apply (fmap_nil_inv (λ decl, (expectation d decl, ∅ : CountMap))), Hn. done. }
    exists [], []. split; [done|]. split; [|done]. split; [constructor|done].
  - apply Forall_cons in Hd1 as Hd2. destruct Hd2 as [Hp _].
    destruct (check_emits_spec (p :: q1) d ok) as [[H E]|[H [err E]]]; [by left| |];
      rewrite E; simpl; rewrite ?bind_Ret.
    + exists [], []. split; [done|]. split; [|done]. split; [|done]. intros _. by apply Hok.
    + exists (p :: q1), [err]. split; [done|]. split; [|done]. split; [done|].
      intros Hem. destruct H. by apply Hok.
Qed.
End runs.

(** ** Properties *)

(** Declarations the queue treats one after the other: each asks for one log, or
    for several of an emitter it names; or a single one asks for no log. *)
Definition plain (decls : list (ExpectEmitCall * EmittedLog)) : Prop :=
  Forall (λ decl, call_count decl.1 = 1 ∨ 1 < call_count decl.1 ∧ is_Some (call_emitter decl.1)) decls ∨
  ∃ decl, decls = [decl] ∧ call_count decl.1 = 0.

(** The logs in which the expectations are met in their order: each by the log
    that completes its count, the next one by the logs after that; nothing is
    said of the logs after the last one. *)
Inductive in_order : list ExpectedEmit → list EmittedLog → Prop :=
| in_order_done logs : in_order [] logs
| in_order_none e logs : ee_count e = 0 → Forall (λ l, ¬ matches e l) logs → in_order [e] logs
| in_order_next e es seg l rest :
    length (filter (matches e) (seg ++ [l])) = ee_count e → matches e l →
    in_order es rest → in_order (e :: es) (seg ++ l :: rest).

Lemma count_completed e seg l :
  matches e l → length (filter (matches e) (seg ++ [l])) = S (length (filter (matches e) seg)).
Proof.
  intros Hl. rewrite filter_app, length_app, filter_cons_True by done. simpl. lia.
Qed.

Lemma emitted_in_order es logs : emitted es logs → Forall (λ e, 0 < ee_count e) es → in_order es logs.
Proof.
  induction 1 as [|e es logs Hc Hn _|e es seg l rest Hc Hl _ _ IH]; intros Hp; [constructor| |];
    apply Forall_cons in Hp as [Hp Hps]; [lia|].
  apply in_order_next; [by rewrite count_completed|done|by apply IH].
Qed.

Lemma in_order_emitted es logs :
  in_order es logs → Forall (λ e, ee_count e ≤ 1 ∨ is_Some (ee_address e)) es → emitted es logs.
Proof.
  induction 1 as [logs|e logs Hc Hn|e es seg l rest Hc Hl _ IH]; intros Hp.
  - constructor.
  - apply emitted_never; [done|done|constructor].
  - apply Forall_cons in Hp as [Hp Hps]. rewrite count_completed in Hc by done.
    apply emitted_times; [done|done| |by apply IH]. intros Hnone l' Hin Hm.
    destruct Hp as [Hle|[a Ha]]; [|congruence].
    assert (l' ∈ filter (matches e) seg) as Hin' by by apply list_elem_of_filter.
    destruct (filter (matches e) seg); [by apply elem_of_nil in Hin'|simpl in Hc; lia].
Qed.

Lemma plain_emitted d decls logs :
  plain decls → emitted (expectation d <$> decls) logs ↔ in_order (expectation d <$> decls) logs.
Proof.
  intros Hp. split.
  - destruct Hp as [Hp|(decl & -> & Hc)].
    + intros He. apply (emitted_in_order _ _ He). apply Forall_fmap.
      eapply Forall_impl; [exact Hp|]. simpl. intros decl [?|[? _]]; lia.
    + simpl. intros He. inversion He as [|e es ls _ Hn _ |e es seg l rest Hc' _ _ _ He2 Hl2]; subst.
      * by apply in_order_none.
      * simpl in Hc'. lia.
  - intros Hi. apply (in_order_emitted _ _ Hi), Forall_fmap.
    destruct Hp as [Hp|(decl & -> & Hc)].
    + eapply Forall_impl; [exact Hp|]. simpl. intros decl [->|[_ Ha]]; auto.
    + apply Forall_singleton. simpl. lia.
Qed.

(** C14: a test declares expected logs at a depth, filling each with the log it
    emits next; each declaration asks for one log, or for several from an emitter
    it names, or there is a single one that asks for no log.  Then a call emits
    logs, with calls below it ending on the way.  No step panics, and the end of
    the (not static) call at that depth reports no error, and empties the queue,
    exactly when the logs meet the expectations in the order they were declared
    in, each by as many logs as it asks for with its checked topics and data and
    from the emitter it names, if any; the single one that asks for no log must
    see none. *)
Theorem expect_emit_correct `{!HashOrder RawLog, !HashOrder Z} d decls evs ok :
  Forall fillable decls → plain decls → Forall (in_call d) evs →
  ∃ q errs, foldM emit_step ([], []) (declarations d decls ++ evs ++ [EvCallEnd d false ok]) =
              Ret (q, errs) ∧
    (errs = [] ↔ in_order (expectation d <$> decls) (logs_of evs)) ∧ (errs = [] → q = []).
Proof.
  intros Hd Hp He. destruct (expect_emit_outcome d decls evs ok Hd He) as (q & errs & E & H & Hq).
  exists q, errs. by rewrite <-(plain_emitted d decls) by done.
Qed.

(** *** Examples *)

Definition ex_log (a t : Z) : EmittedLog :=
  {| lg_address := a; lg_data := {| rl_topics := [t]; rl_data := [] |} |}.

Definition ex_run (decls : list (ExpectEmitCall * EmittedLog)) (logs : list EmittedLog) :=
  snd <$> foldM emit_step ([], []) (declarations 1 decls ++ (EvLog <$> logs) ++ [EvCallEnd 1 false true]).

(** Two logs of contract 7 with topic 1, then one with topic 2 from anywhere. *)
Lemma expect_emit_correct_witness :
  ex_run [(expectEmit_7 7 2, ex_log 0 1); (expectEmit_2, ex_log 0 2)]
    [ex_log 7 1; ex_log 8 1; ex_log 7 1; ex_log 8 3; ex_log 8 2] = Ret [].
Proof.
  unfold ex_run. destruct (expect_emit_correct 1
    [(expectEmit_7 7 2, ex_log 0 1); (expectEmit_2, ex_log 0 2)]
    (EvLog <$> [ex_log 7 1; ex_log 8 1; ex_log 7 1; ex_log 8 3; ex_log 8 2]) true)
    as (q & errs & -> & H & _).
  - repeat (apply Forall_cons; split; [by right|]). constructor.
  - left. apply Forall_cons; split; [right; split; [simpl; lia|by eexists]|].
    apply Forall_cons; split; [by left|constructor].
  - repeat constructor.
  - simpl. f_equal. apply H.
    apply (in_order_next (expectation 1 (expectEmit_7 7 2, ex_log 0 1)) _ [ex_log 7 1; ex_log 8 1]
             (ex_log 7 1) [ex_log 8 3; ex_log 8 2]); [by vm_compute| |].
    { apply (bool_decide_unpack (matches _ _)). by vm_compute. }
    apply (in_order_next (expectation 1 (expectEmit_2, ex_log 0 2)) _ [ex_log 8 3] (ex_log 8 2) []);
      [by vm_compute| |constructor].
    apply (bool_decide_unpack (matches _ _)). by vm_compute.
Defined.

(** Only the first expectation of no log is checked: the second log is emitted,
    and not reported. *)
Lemma second_absence_unchecked :
  ex_run [(expectEmit_6 0, ex_log 0 1); (expectEmit_6 0, ex_log 0 2)] [ex_log 7 2] = Ret [] ∧
  ex_run [(expectEmit_6 0, ex_log 0 2)] [ex_log 7 2] = Ret [WrongCount 1 0].
Proof. by vm_compute. Qed.

(** An expectation of no log hides the ones declared after it. *)
Lemma absence_blocks_later :
  ex_run [(expectEmit_6 0, ex_log 0 1); (expectEmit_2, ex_log 0 2)] [ex_log 7 2] = Ret [NotFound None].
Proof. by vm_compute. Qed.

(** Two logs are expected and two emitted, by two contracts: the counts agree
    and the test fails. *)
Lemma any_emitter_counts_one :
  ex_run [(expectEmit_6 2, ex_log 0 1)] [ex_log 7 1; ex_log 8 1] = Ret [NotFound None].
Proof. by vm_compute. Qed.
