(* ===== verification/FmtText.v ===== *)
(** * Text of the formatter: quoted strings and comments
    (crates/fmt/src/string.rs and the character iterators of
    crates/fmt/src/comments.rs)

    The formatter walks over source text one character at a time and keeps the
    state of a small automaton: in or out of a quoted string, in or out of a
    comment.  Strings are lists of Unicode code points; the indices are byte
    offsets, as those of [char_indices]. *)

From stdpp Require Import prelude list.
From S2P Require Import Prelude.

Abbreviation Char := Z.
Abbreviation Str := (list Char).

(** ** Characters *)

Definition is_char (c : Char) (d : Z) : bool := Z.eqb c d.

Definition c_newline : Char := 10.
Definition c_cr : Char := 13.
Definition c_quote : Char := 34.
Definition c_apostrophe : Char := 39.
Definition c_star : Char := 42.
Definition c_slash : Char := 47.
Definition c_backslash : Char := 92.

(** Bytes of a code point in UTF-8. *)
Definition len_utf8 (c : Char) : nat :=
  if (c <? 128)%Z then 1 else if (c <? 2048)%Z then 2 else if (c <? 65536)%Z then 3 else 4.

Definition str_len (s : Str) : nat := sum_list (len_utf8 <$> s).

(** [char::is_whitespace]: the code points of the property White_Space. *)
Definition is_whitespace (c : Char) : bool :=
  ((9 <=? c)%Z && (c <=? 13)%Z) || (c =? 32)%Z || (c =? 133)%Z || (c =? 160)%Z || (c =? 5760)%Z ||
  ((8192 <=? c)%Z && (c <=? 8202)%Z) || (c =? 8232)%Z || (c =? 8233)%Z || (c =? 8239)%Z ||
  (c =? 8287)%Z || (c =? 12288)%Z.

Fixpoint char_indices_from (i : nat) (s : Str) : list (nat * Char) :=
  match s with
  | [] => []
  | c :: s => (i, c) :: char_indices_from (i + len_utf8 c) s
  end.

Definition char_indices (s : Str) : list (nat * Char) := char_indices_from 0 s.

Lemma len_utf8_pos c : 0 < len_utf8 c.
Proof. unfold len_utf8. repeat case_match; lia. Qed.

Lemma str_len_app s t : str_len (s ++ t) = str_len s + str_len t.
Proof. unfold str_len. rewrite fmap_app. induction (len_utf8 <$> s); simpl; lia. Qed.

Lemma str_len_cons c s : str_len (c :: s) = len_utf8 c + str_len s.
Proof. done. Qed.

Lemma char_indices_app i s t :
  char_indices_from i (s ++ t) = char_indices_from i s ++ char_indices_from (i + str_len s) t.
Proof.
  revert i. induction s as [|c s IH]; intros i; simpl.
  - f_equal. unfold str_len. simpl. lia.
  - rewrite IH, str_len_cons, Nat.add_assoc. done.
Qed.

Lemma length_char_indices i s : length (char_indices_from i s) = length s.
Proof. revert i. induction s; intros; simpl; auto. Qed.

(** ** Quoted strings *)

Inductive QuoteState : Type :=
| QNone
| QOpening (quote : Char)
| QString (quote : Char)
| QEscaping (quote : Char)
| QEscaped (quote : Char)
| QClosing (quote : Char).

Record QuoteStateCharIndices := { qi_iter : list (nat * Char); qi_state : QuoteState }.

Definition quote_indices_new (s : Str) : QuoteStateCharIndices :=
  {| qi_iter := char_indices s; qi_state := QNone |}.

(** The transition of [QuoteStateCharIndices::next]. *)
Definition quote_step (st : QuoteState) (ch : Char) : QuoteState :=
  match st with
  | QNone | QClosing _ => if is_char ch c_apostrophe || is_char ch c_quote then QOpening ch else QNone
  | QString quote | QOpening quote | QEscaped quote =>
      if is_char ch quote then QClosing quote
      else if is_char ch c_backslash then QEscaping quote else QString quote
  | QEscaping quote => QEscaped quote
  end.

Definition quote_next (it : QuoteStateCharIndices)
    : option ((QuoteState * nat * Char) * QuoteStateCharIndices) :=
  match qi_iter it with
  | [] => None
  | (idx, ch) :: iter =>
      let st := quote_step (qi_state it) ch in
      Some ((st, idx, ch), {| qi_iter := iter; qi_state := st |})
  end.

(** The loop of [QuotedRanges::next]: the start of a range, or a range of one
    character; the iterator is its state and what is left of it. *)
Fixpoint ranges_start (st : QuoteState) (iter : list (nat * Char))
    : option (((Char * nat) + (Char * nat * nat)) * QuoteStateCharIndices) :=
  match iter with
  | [] => None
  | (idx, ch) :: iter =>
      let st := quote_step st ch in
      let it := {| qi_iter := iter; qi_state := st |} in
      match st with
      | QOpening quote | QEscaping quote | QEscaped quote | QString quote => Some (inl (quote, idx), it)
      | QClosing quote => Some (inr (quote, idx, idx), it)
      | QNone => ranges_start st iter
      end
  end.

(** Its second loop: the closing character. *)
Fixpoint ranges_end (st : QuoteState) (iter : list (nat * Char)) : option (nat * QuoteStateCharIndices) :=
  match iter with
  | [] => None
  | (idx, ch) :: iter =>
      let st := quote_step st ch in
      match st with
      | QClosing _ => Some (idx, {| qi_iter := iter; qi_state := st |})
      | _ => ranges_end st iter
      end
  end.

Definition ranges_next (it : QuoteStateCharIndices)
    : option ((Char * nat * nat) * QuoteStateCharIndices) :=
  match ranges_start (qi_state it) (qi_iter it) with
  | None => None
  | Some (inr r, it) => Some (r, it)
  | Some (inl (quote, start), it) =>
      match ranges_end (qi_state it) (qi_iter it) with
      | Some (idx, it) => Some ((quote, start, idx), it)
      | None => None
      end
  end.

(** All the ranges; each takes at least one character. *)
Fixpoint ranges_collect (fuel : nat) (it : QuoteStateCharIndices) : list (Char * nat * nat) :=
  match fuel with
  | 0 => []
  | S fuel =>
      match ranges_next it with
      | None => []
      | Some (r, it) => r :: ranges_collect fuel it
      end
  end.

Definition quoted_ranges (s : Str) : list (Char * nat * nat) :=
  ranges_collect (S (length s)) (quote_indices_new s).

(** The [while] loop of [is_quoted]. *)
Fixpoint is_quoted_loop (st : QuoteState) (iter : list (nat * Char)) : bool :=
  match iter with
  | [] => false
  | (_, ch) :: iter =>
      let st := quote_step st ch in
      match st with
      | QClosing _ => match iter with [] => true | _ :: _ => false end
      | _ => is_quoted_loop st iter
      end
  end.

Definition is_quoted (s : Str) : bool :=
  match quote_next (quote_indices_new s) with
  | Some ((QOpening _, _, _), it) => is_quoted_loop (qi_state it) (qi_iter it)
  | _ => false
  end.

(** ** Comments *)

Inductive CommentState : Type :=
| CNone | CLineStart1 | CLineStart2 | CLine
| CBlockStart1 | CBlockStart2 | CBlock | CBlockEnd1 | CBlockEnd2.

#[export] Instance comment_state_eq : EqDecision CommentState.
Proof. solve_decision. Defined.

(** The transition of [CommentStateCharIndices::next], which looks at the next
    character. *)
Definition comment_step (st : CommentState) (ch : Char) (peek : option Char) : CommentState :=
  match st with
  | CNone =>
      if is_char ch c_slash then
        match peek with
        | Some c => if is_char c c_slash then CLineStart1 else if is_char c c_star then CBlockStart1 else CNone
        | None => CNone
        end
      else CNone
  | CLineStart1 => CLineStart2
  | CLineStart2 => CLine
  | CLine => if is_char ch c_newline then CNone else CLine
  | CBlockStart1 => CBlockStart2
  | CBlockStart2 => CBlock
  | CBlock =>
      if is_char ch c_star && match peek with Some c => is_char c c_slash | None => false end
      then CBlockEnd1 else CBlock
  | CBlockEnd1 => CBlockEnd2
  | CBlockEnd2 => CNone
  end.

(** The items of [CommentStateCharIndices] from a state. *)
Fixpoint comment_states (st : CommentState) (iter : list (nat * Char))
    : list (CommentState * nat * Char) :=
  match iter with
  | [] => []
  | (idx, ch) :: iter =>
      let st := comment_step st ch (snd <$> head iter) in
      (st, idx, ch) :: comment_states st iter
  end.

Definition comment_state_char_indices (s : Str) : list (CommentState * nat * Char) :=
  comment_states CNone (char_indices s).

Definition non_comment_chars (s : Str) : list Char :=
  omap (λ p, if bool_decide (p.1.1 = CNone) then Some p.2 else None) (comment_state_char_indices s).

Definition trim_comments (s : Str) : Str := non_comment_chars s.

(** ** Quoted strings: the grammar *)

Definition is_quote (c : Char) : Prop := c = c_apostrophe ∨ c = c_quote.

(** The characters between quotes [q]: a backslash takes the next one with it. *)
Inductive lit_body (q : Char) : Str → Prop :=
| body_nil : lit_body q []
| body_char c s : c ≠ q → c ≠ c_backslash → lit_body q s → lit_body q (c :: s)
| body_escape c s : lit_body q s → lit_body q (c_backslash :: c :: s).

(** The text of a literal that does not end. *)
Definition open_body (q : Char) (s : Str) : Prop :=
  lit_body q s ∨ ∃ s', s = s' ++ [c_backslash] ∧ lit_body q s'.

(** A text split at its literals; a range is a quote and the offsets of the
    opening and the closing one. *)
Inductive quoted_split : nat → Str → list (Char * nat * nat) → Prop :=
| split_none off g : Forall (λ c, ¬ is_quote c) g → quoted_split off g []
| split_open off g q s :
    Forall (λ c, ¬ is_quote c) g → is_quote q → open_body q s → quoted_split off (g ++ q :: s) []
| split_literal off g q body rest rs :
    Forall (λ c, ¬ is_quote c) g → is_quote q → lit_body q body →
    quoted_split (off + str_len (g ++ q :: body ++ [q])) rest rs →
    quoted_split off (g ++ q :: body ++ q :: rest)
      ((q, off + str_len g, off + str_len (g ++ q :: body)) :: rs).

Lemma is_char_spec c d : is_char c d = bool_decide (c = d).
Proof. unfold is_char. case_bool_decide; [by apply Z.eqb_eq|by apply Z.eqb_neq]. Qed.

#[export] Instance is_quote_dec c : Decision (is_quote c).
Proof. unfold is_quote. apply _. Defined.

Lemma quote_backslash q : is_quote q → q ≠ c_backslash.
Proof. by intros [-> | ->]. Qed.

Lemma body_split q s :
  is_quote q → (∃ body rest, s = body ++ q :: rest ∧ lit_body q body) ∨ open_body q s.
Proof.
  intros Hq. induction s as [s IH] using (induction_ltof1 _ length). unfold ltof in IH.
  destruct s as [|c s]; [right; left; constructor|].
  destruct (decide (c = q)) as [->|Hc].
  { left. exists [], s. split; [done|constructor]. }
  destruct (decide (c = c_backslash)) as [->|Hb].
  - destruct s as [|d s]; [right; right; exists []; split; [done|constructor]|].
    destruct (IH s) as [(body & rest & -> & Hl)|[Hl|(s' & -> & Hl)]]; [simpl; lia| | |].
    + left. exists (c_backslash :: d :: body), rest. split; [done|by constructor].
    + right. left. by constructor.
    + right. right. exists (c_backslash :: d :: s'). split; [done|by constructor].
  - destruct (IH s) as [(body & rest & -> & Hl)|[Hl|(s' & -> & Hl)]]; [simpl; lia| | |].
    + left. exists (c :: body), rest. split; [done|by constructor].
    + right. left. by constructor.
    + right. right. exists (c :: s'). split; [done|by constructor].
Qed.

(** The states inside a literal in which a quote ends it. *)
Definition inside (q : Char) (st : QuoteState) : Prop :=
  st = QOpening q ∨ st = QString q ∨ st = QEscaped q.

Lemma inside_step q st ch :
  inside q st →
  quote_step st ch = if decide (ch = q) then QClosing q
                     else if decide (ch = c_backslash) then QEscaping q else QString q.
Proof.
  intros [-> |[-> | ->]]; simpl; rewrite !is_char_spec; by repeat (case_bool_decide; case_decide).
Qed.

Lemma scan_plain q st c i s :
  inside q st → c ≠ q → c ≠ c_backslash →
  ranges_end st (char_indices_from i (c :: s)) =
    ranges_end (QString q) (char_indices_from (i + len_utf8 c) s) ∧
  is_quoted_loop st (char_indices_from i (c :: s)) =
    is_quoted_loop (QString q) (char_indices_from (i + len_utf8 c) s).
Proof.
  intros Hst Hq Hb. simpl. rewrite (inside_step q st c Hst), !decide_False by done. done.
Qed.

Lemma scan_escape q st d i s :
  is_quote q → inside q st →
  ranges_end st (char_indices_from i (c_backslash :: d :: s)) =
    ranges_end (QEscaped q) (char_indices_from (i + len_utf8 c_backslash + len_utf8 d) s) ∧
  is_quoted_loop st (char_indices_from i (c_backslash :: d :: s)) =
    is_quoted_loop (QEscaped q) (char_indices_from (i + len_utf8 c_backslash + len_utf8 d) s).
Proof.
  intros Hq Hst. cbn [char_indices_from ranges_end is_quoted_loop].
  rewrite (inside_step q st _ Hst), decide_False, decide_True by (by auto using not_eq_sym, quote_backslash).
  done.
Qed.

Lemma scan_literal q body st i rest :
  is_quote q → lit_body q body → inside q st →
  ranges_end st (char_indices_from i (body ++ q :: rest)) =
    Some (i + str_len body,
          {| qi_iter := char_indices_from (i + str_len (body ++ [q])) rest; qi_state := QClosing q |}) ∧
  is_quoted_loop st (char_indices_from i (body ++ q :: rest)) = bool_decide (rest = []).
Proof.
  intros Hq Hb. revert st i. induction Hb as [|c s Hc Hs _ IH|c s _ IH]; intros st i Hst.
  - simpl. rewrite (inside_step q st q Hst), decide_True by done.
    rewrite Nat.add_0_r, str_len_cons, Nat.add_0_r. split; [done|]. destruct rest; done.
  - change ((c :: s) ++ q :: rest) with (c :: s ++ q :: rest).
    destruct (scan_plain q st c i (s ++ q :: rest) Hst Hc Hs) as [-> ->].
    destruct (IH (QString q) (i + len_utf8 c)) as [-> ->]; [unfold inside; auto|].
    change ((c :: s) ++ [q]) with (c :: s ++ [q]). rewrite !str_len_cons, !Nat.add_assoc. done.
  - change ((c_backslash :: c :: s) ++ q :: rest) with (c_backslash :: c :: s ++ q :: rest).
    destruct (scan_escape q st c i (s ++ q :: rest) Hq Hst) as [-> ->].
    destruct (IH (QEscaped q) (i + len_utf8 c_backslash + len_utf8 c)) as [-> ->]; [unfold inside; auto|].
    change ((c_backslash :: c :: s) ++ [q]) with (c_backslash :: c :: s ++ [q]).
    rewrite !str_len_cons, !Nat.add_assoc. done.
Qed.

Lemma scan_open q s st i :
  is_quote q → open_body q s → inside q st →
  ranges_end st (char_indices_from i s) = None ∧ is_quoted_loop st (char_indices_from i s) = false.
Proof.
  intros Hq Ho. assert (∃ s' t, s = s' ++ t ∧ lit_body q s' ∧ (t = [] ∨ t = [c_backslash])) as
    (s' & t & -> & Hb & Ht).
  { destruct Ho as [Hs|(s' & -> & Hs)]; [exists s, []; rewrite app_nil_r|exists s', [c_backslash]]; auto. }
  clear Ho. revert st i. induction Hb as [|c s Hc Hs _ IH|c s _ IH]; intros st i Hst.
  - destruct Ht as [-> | ->]; [done|]. simpl.
    rewrite (inside_step q st _ Hst), decide_False, decide_True
      by (by auto using not_eq_sym, quote_backslash). done.
  - destruct (scan_plain q st c i (s ++ t) Hst Hc Hs) as [H1 H2].
    change ((c :: s) ++ t) with (c :: s ++ t). rewrite H1, H2. apply IH. unfold inside; auto.
  - destruct (scan_escape q st c i (s ++ t) Hq Hst) as [H1 H2].
    change ((c_backslash :: c :: s) ++ t) with (c_backslash :: c :: s ++ t). rewrite H1, H2.
    apply IH. unfold inside; auto.
Qed.

(** The states between literals. *)
Definition outside (st : QuoteState) : Prop := st = QNone ∨ ∃ q, st = QClosing q.

Lemma outside_step st ch : outside st → quote_step st ch = if decide (is_quote ch) then QOpening ch else QNone.
Proof.
  intros [->|[q ->]]; simpl; rewrite !is_char_spec; unfold is_quote;
    destruct (decide (ch = c_apostrophe)), (decide (ch = c_quote)); subst;
    repeat (case_bool_decide || case_decide); naive_solver.
Qed.

Lemma start_gap st g i t :
  outside st → Forall (λ c, ¬ is_quote c) g →
  ∃ st', outside st' ∧ ranges_start st (char_indices_from i (g ++ t)) =
                        ranges_start st' (char_indices_from (i + str_len g) t).
Proof.
  intros Hst Hg. revert st i Hst. induction Hg as [|c g Hc _ IH]; intros st i Hst.
  { exists st. split; [done|]. simpl. by rewrite Nat.add_0_r. }
  destruct (IH QNone (i + len_utf8 c)) as (st' & Hst' & E); [by left|].
  exists st'. split; [done|]. simpl. rewrite (outside_step st c Hst), decide_False by done.
  rewrite E, str_len_cons, Nat.add_assoc. done.
Qed.

Lemma start_quote st q i s :
  outside st → is_quote q →
  ranges_start st (char_indices_from i (q :: s)) =
    Some (inl (q, i), {| qi_iter := char_indices_from (i + len_utf8 q) s; qi_state := QOpening q |}).
Proof. intros Hst Hq. simpl. by rewrite (outside_step st q Hst), decide_True by done. Qed.

Lemma gap_split s :
  Forall (λ c, ¬ is_quote c) s ∨
  ∃ g q t, s = g ++ q :: t ∧ Forall (λ c, ¬ is_quote c) g ∧ is_quote q.
Proof.
  induction s as [|c s IH]; [by left; constructor|].
  destruct (decide (is_quote c)) as [Hc|Hc]; [right; exists [], c, s; auto|].
  destruct IH as [Hs|(g & q & t & -> & Hg & Hq)]; [by left; constructor|].
  right. exists (c :: g), q, t. auto.
Qed.

Lemma ranges_split fuel st i s :
  length s < fuel → outside st →
  quoted_split i s (ranges_collect fuel {| qi_iter := char_indices_from i s; qi_state := st |}).
Proof.
  revert st i s. induction fuel as [|fuel IH]; intros st i s Hf Hst; [lia|].
  simpl. unfold ranges_next. simpl.
  destruct (gap_split s) as [Hs|(g & q & t & -> & Hg & Hq)].
  - destruct (start_gap st s i [] Hst Hs) as (st' & _ & E). rewrite app_nil_r in E. rewrite E.
    by constructor.
  - destruct (start_gap st g i (q :: t) Hst Hg) as (st' & Hst' & ->).
    rewrite (start_quote st' q _ t Hst' Hq). simpl.
    destruct (body_split q t Hq) as [(body & rest & -> & Hb)|Ho].
    + destruct (scan_literal q body (QOpening q) (i + str_len g + len_utf8 q) rest Hq Hb) as [-> _];
        [by left|].
      replace (i + str_len g + len_utf8 q + str_len body) with (i + str_len (g ++ q :: body))
        by (rewrite (str_len_app g), str_len_cons; lia).
      apply split_literal; [done|done|done|].
      replace (i + str_len (g ++ q :: body ++ [q]))
        with (i + str_len g + len_utf8 q + str_len (body ++ [q]))
        by (rewrite (str_len_app g), str_len_cons; lia).
      apply IH; [|right; by eexists]. rewrite !length_app in Hf. simpl in Hf. rewrite length_app in Hf.
      simpl in Hf. lia.
    + destruct (scan_open q t (QOpening q) (i + str_len g + len_utf8 q) Hq Ho) as [-> _]; [by left|].
      by apply split_open.
Qed.

(** ** Properties of quoted strings *)

(** [quoted_ranges] splits any text at its string literals: the ranges are, in
    order, the literals of either quote, from the opening to the closing one,
    where a backslash takes the next character with it; what lies between them
    holds no quote, and a literal that never ends gives no range. *)
Theorem quoted_ranges_correct (s : Str) : quoted_split 0 s (quoted_ranges s).
Proof. unfold quoted_ranges, quote_indices_new, char_indices. apply ranges_split; [lia|by left]. Qed.

(** [is_quoted] accepts exactly the texts that are one string literal. *)
Theorem is_quoted_correct (s : Str) :
  is_quoted s = true ↔ ∃ q body, s = q :: body ++ [q] ∧ is_quote q ∧ lit_body q body.
Proof.
  destruct s as [|q s].
  { split; [done|]. by intros (q & body & ? & _). }
  unfold is_quoted, quote_next, quote_indices_new, char_indices. cbn [qi_iter char_indices_from qi_state].
  rewrite (outside_step QNone q) by (by left). case_decide as Hq; cycle 1.
  { split; [done|]. intros (q' & body & [= <- _] & ? & _). done. }
  cbn [qi_iter qi_state]. split.
  - intros H. destruct (body_split q s Hq) as [(body & rest & -> & Hb)|Ho].
    + destruct (scan_literal q body (QOpening q) (0 + len_utf8 q) rest Hq Hb) as [_ E]; [by left|].
      rewrite E, bool_decide_eq_true in H. subst rest. eauto.
    + destruct (scan_open q s (QOpening q) (0 + len_utf8 q) Hq Ho) as [_ E]; [by left|]. congruence.
  - intros (q' & body & [= <- ->] & _ & Hb).
    destruct (scan_literal q body (QOpening q) (0 + len_utf8 q) [] Hq Hb) as [_ E]; [by left|].
    by rewrite E.
Qed.

(** ** Comments: the grammar *)

Inductive Piece : Type :=
| Code (c : Char)
| LineComment (body : Str)
| BlockComment (body : Str).

Definition piece_text (p : Piece) : Str :=
  match p with
  | Code c => [c]
  | LineComment body => c_slash :: c_slash :: body
  | BlockComment body => c_slash :: c_star :: body ++ [c_star; c_slash]
  end.

Definition pieces_text (ps : list Piece) : Str := ps ≫= piece_text.

(** The characters outside comments, with their offsets. *)
Fixpoint code_indices (off : nat) (ps : list Piece) : list (nat * Char) :=
  match ps with
  | [] => []
  | p :: ps =>
      match p with Code c => [(off, c)] | _ => [] end ++
      code_indices (off + str_len (piece_text p)) ps
  end.

(** A block comment ends at its first star and slash. *)
Definition no_block_end (body : Str) : Prop :=
  ∀ i, body !! i = Some c_star → body !! S i ≠ Some c_slash.

Definition starts_comment (ps : list Piece) : Prop :=
  match ps with LineComment _ :: _ | BlockComment _ :: _ => True | _ => False end.

(** How Solidity reads a text as code and comments. *)
Inductive lexes : list Piece → Prop :=
| lexes_nil : lexes []
| lexes_code c ps :
    (c = c_slash → head (pieces_text ps) ≠ Some c_slash ∧ head (pieces_text ps) ≠ Some c_star) →
    lexes ps → lexes (Code c :: ps)
| lexes_line body ps :
    c_newline ∉ body → ps = [] ∨ head ps = Some (Code c_newline) →
    lexes ps → lexes (LineComment body :: ps)
| lexes_block body ps : no_block_end body → lexes ps → lexes (BlockComment body :: ps).

(** No comment is empty, none directly follows a block comment. *)
Fixpoint spaced (ps : list Piece) : Prop :=
  match ps with
  | [] => True
  | Code _ :: ps => spaced ps
  | LineComment body :: ps => body ≠ [] ∧ spaced ps
  | BlockComment body :: ps => body ≠ [] ∧ ¬ starts_comment ps ∧ spaced ps
  end.

Definition code_only (l : list (CommentState * nat * Char)) : list (nat * Char) :=
  omap (λ p, if bool_decide (p.1.1 = CNone) then Some (p.1.2, p.2) else None) l.

(** The states of a run of characters that all lead to the same state. *)
Lemma comment_run st i s t :
  (∀ k c, s !! k = Some c → comment_step st c (head (drop (S k) s ++ t)) = st) → st ≠ CNone →
  code_only (comment_states st (char_indices_from i (s ++ t))) =
    code_only (comment_states st (char_indices_from (i + str_len s) t)).
Proof.
  revert i. induction s as [|c s IH]; intros i Hs Hst.
  { simpl. by rewrite Nat.add_0_r. }
  cbn [app char_indices_from comment_states].
  assert (comment_step st c (snd <$> head (char_indices_from (i + len_utf8 c) (s ++ t))) = st) as ->.
  { rewrite <-(Hs 0 c eq_refl) at 2. simpl. f_equal. by destruct s, t. }
  unfold code_only at 1. simpl. rewrite bool_decide_false by done.
  fold (code_only (comment_states st (char_indices_from (i + len_utf8 c) (s ++ t)))).
  rewrite IH; [by rewrite str_len_cons, Nat.add_assoc| |done].
  intros k d Hk. by apply (Hs (S k)).
Qed.

(** The state in which the next piece is read. *)
Definition between (st : CommentState) (ps : list Piece) : Prop :=
  st = CNone ∨ (st = CBlockEnd2 ∧ ¬ starts_comment ps) ∨
  (st = CLine ∧ (ps = [] ∨ head ps = Some (Code c_newline))).

Lemma head_indices i s : snd <$> head (char_indices_from i s) = head s.
Proof. by destruct s. Qed.

Lemma code_only_skip st i c l : st ≠ CNone → code_only ((st, i, c) :: l) = code_only l.
Proof. intros Hst. unfold code_only. simpl. by rewrite bool_decide_false by done. Qed.

Lemma code_only_keep i c l : code_only ((CNone, i, c) :: l) = (i, c) :: code_only l.
Proof. done. Qed.

Lemma read_code st c ps :
  between st (Code c :: ps) → lexes (Code c :: ps) →
  comment_step st c (head (pieces_text ps)) = CNone.
Proof.
  inversion 2 as [|? ? Hc _| |]; subst.
  destruct H as [->|[[-> _]|[-> [?|[= ->]]]]]; simpl; rewrite ?is_char_spec; [|done|done|done].
  case_bool_decide as Hs; [|done]. destruct (Hc Hs) as [H1 H2].
  destruct (head (pieces_text ps)) as [d|]; [|done]. rewrite !is_char_spec, !bool_decide_false by congruence.
  done.
Qed.

Lemma read_line st i body ps :
  between st (LineComment body :: ps) → c_newline ∉ body → body ≠ [] →
  code_only (comment_states st (char_indices_from i (piece_text (LineComment body) ++ pieces_text ps))) =
    code_only (comment_states CLine
      (char_indices_from (i + str_len (piece_text (LineComment body))) (pieces_text ps))).
Proof.
  intros Hst Hb Hne. destruct body as [|b body]; [done|]. assert (st = CNone) as -> by
    (destruct Hst as [->|[[_ []]|[_ [?|?]]]]; done).
  simpl. rewrite comment_run; [|intros k c Hk|done].
  - f_equal. f_equal. f_equal. rewrite !str_len_cons. lia.
  - simpl. rewrite is_char_spec, bool_decide_false; [done|]. intros ->.
    apply Hb. right. by eapply list_elem_of_lookup_2.
Qed.

Lemma read_block st i body ps :
  between st (BlockComment body :: ps) → no_block_end body → body ≠ [] →
  code_only (comment_states st (char_indices_from i (piece_text (BlockComment body) ++ pieces_text ps))) =
    code_only (comment_states CBlockEnd2
      (char_indices_from (i + str_len (piece_text (BlockComment body))) (pieces_text ps))).
Proof.
  intros Hst Hb Hne. destruct body as [|b body]; [done|]. assert (st = CNone) as -> by
    (destruct Hst as [->|[[_ []]|[_ [?|?]]]]; done).
  simpl. rewrite <-app_assoc, comment_run; [|intros k c Hk|done].
  - simpl. f_equal. f_equal. f_equal.
    rewrite !str_len_cons, str_len_app, !str_len_cons. change (str_len []) with 0. lia.
  - simpl. rewrite !is_char_spec. case_bool_decide as Hc; [|done]. subst c. simpl.
    destruct (drop (S k) body) as [|d rest] eqn:Ed; simpl; [done|].
    rewrite is_char_spec, bool_decide_false; [done|]. intros ->.
    apply (Hb (S k)); simpl; [done|]. rewrite <-(Nat.add_0_r (S k)), <-lookup_drop, Ed. done.
Qed.

Lemma comment_pieces ps st i :
  lexes ps → spaced ps → between st ps →
  code_only (comment_states st (char_indices_from i (pieces_text ps))) = code_indices i ps.
Proof.
  intros Hl. revert st i. induction Hl as [|c ps Hc Hl IH|body ps Hb Hn Hl IH|body ps Hb Hl IH];
    intros st i Hs Hst; cbn [spaced] in Hs.
  - done.
  - change (pieces_text (Code c :: ps)) with (c :: pieces_text ps).
    cbn [char_indices_from comment_states code_indices piece_text app].
    rewrite head_indices, (read_code st c ps) by (done || by constructor).
    rewrite code_only_keep, IH by (done || by left). rewrite str_len_cons, Nat.add_0_r. done.
  - destruct Hs as [Hne Hs]. change (pieces_text (LineComment body :: ps)) with
      (piece_text (LineComment body) ++ pieces_text ps).
    rewrite (read_line st i body ps) by done. rewrite IH; [done|done|]. right. right. done.
  - destruct Hs as (Hne & Hsc & Hs). change (pieces_text (BlockComment body :: ps)) with
      (piece_text (BlockComment body) ++ pieces_text ps).
    rewrite (read_block st i body ps) by done. rewrite IH; [done|done|]. right. left. done.
Qed.

(** ** Properties of comments *)

(** in a text whose comments are not empty and in which no comment directly
    follows a block comment, the characters marked as outside comments are the
    code of the text, each at its byte offset, and [trim_comments] is the text
    without its comments. *)
Theorem comment_states_correct (ps : list Piece) :
  lexes ps → spaced ps →
  code_only (comment_state_char_indices (pieces_text ps)) = code_indices 0 ps ∧
  trim_comments (pieces_text ps) = snd <$> code_indices 0 ps.
Proof.
  intros Hl Hs. pose proof (comment_pieces ps CNone 0 Hl Hs (or_introl eq_refl)) as E.
  split; [exact E|]. rewrite <-E. clear E. unfold trim_comments, non_comment_chars, code_only, comment_state_char_indices, char_indices.
  induction (comment_states _ _) as [|[[st idx] ch] l IH]; [done|]. simpl.
  case_bool_decide; simpl; [f_equal|]; exact IH.
Qed.

Definition ex_pieces : list Piece :=
  [Code 97; LineComment [98%Z]; Code c_newline; BlockComment [c_star; 98%Z]; Code c_slash; Code 99].

Lemma comment_states_correct_witness :
  trim_comments (pieces_text ex_pieces) = [97; c_newline; c_slash; 99]%Z.
Proof.
  apply (comment_states_correct ex_pieces).
  - repeat first [apply lexes_nil | apply lexes_code; [done|] | apply lexes_line; [set_solver|by right|]
                 | apply lexes_block; [by intros [|[|]]|]].
  - vm_compute. naive_solver.
Defined.

(** An empty comment takes the text after it along, as far as the next end of a
    comment; a comment directly after a block comment is read as code. *)
Lemma empty_comments_swallow :
  trim_comments [c_slash; c_slash; c_newline; 97; c_newline; 98]%Z = [c_newline; 98]%Z ∧
  trim_comments [c_slash; c_star; c_star; c_slash; 97]%Z = [] ∧
  trim_comments [c_slash; c_star; 97; c_star; c_slash; c_slash; c_slash; 98]%Z =
    [c_slash; c_slash; 98]%Z.
Proof. by vm_compute. Qed.
