(* ===== verification/FmtConfig.v ===== *)
(** * Comments and inline configuration of the formatter
    (crates/fmt/src/comments.rs and crates/fmt/src/inline_config.rs)

    The formatter sorts the comments of a file into two queues, those that come
    before the code they describe and those that come after it, and takes them
    out as it advances.  Comments that start with [forgefmt:] disable ranges of
    the file. *)

From stdpp Require Import prelude list sorting strings.
From S2P Require Import Prelude FmtText.

(** ** Strings *)

(** [&s[..n]] and [&s[n..]], which panic inside a character. *)
Fixpoint slice_to (n : nat) (s : Str) : outcome Str :=
  match n with
  | 0 => Ret []
  | _ => match s with
         | [] => Panic
         | c :: s => if bool_decide (len_utf8 c ≤ n) then r ← slice_to (n - len_utf8 c) s; Ret (c :: r)
                     else Panic
         end
  end.

Fixpoint slice_from (n : nat) (s : Str) : outcome Str :=
  match n with
  | 0 => Ret s
  | _ => match s with
         | [] => Panic
         | c :: s => if bool_decide (len_utf8 c ≤ n) then slice_from (n - len_utf8 c) s else Panic
         end
  end.

Fixpoint skip_while {A} (f : A → bool) (l : list A) : list A :=
  match l with [] => [] | x :: r => if f x then skip_while f r else l end.

Fixpoint take_while {A} (f : A → bool) (l : list A) : list A :=
  match l with [] => [] | x :: r => if f x then x :: take_while f r else [] end.

Definition trim_start (s : Str) : Str := skip_while is_whitespace s.
Definition trim_end (s : Str) : Str := rev (skip_while is_whitespace (rev s)).
Definition trim (s : Str) : Str := trim_end (trim_start s).

Fixpoint strip_prefix (p s : Str) : option Str :=
  match p, s with
  | [], _ => Some s
  | c :: p, d :: s => if is_char c d then strip_prefix p s else None
  | _ :: _, [] => None
  end.

Definition strip_suffix (p s : Str) : option Str := (λ t, rev t) <$> strip_prefix (rev p) (rev s).

(** [str::lines]: a line ends with a line feed, and a carriage return before it
    is not part of the line. *)
Definition strip_cr (rline : Str) : Str :=
  match rline with c :: r => if is_char c c_cr then rev r else rev rline | [] => [] end.

Fixpoint lines_from (rcur : Str) (s : Str) : list Str :=
  match s with
  | [] => match rcur with [] => [] | _ => [rev rcur] end
  | c :: s => if is_char c c_newline then strip_cr rcur :: lines_from [] s else lines_from (c :: rcur) s
  end.

Definition lines (s : Str) : list Str := lines_from [] s.

Definition contains_newline (s : Str) : bool := existsb (λ c, is_char c c_newline) s.

(** ** Comments *)

(** [Loc::File] of the one file that is formatted. *)
Record Loc := { loc_start : nat; loc_end : nat }.

#[export] Instance loc_eq : EqDecision Loc.
Proof. solve_decision. Defined.

Definition loc_le (a b : Loc) : Prop :=
  loc_start a < loc_start b ∨ (loc_start a = loc_start b ∧ loc_end a ≤ loc_end b).

#[export] Instance loc_le_dec a b : Decision (loc_le a b).
Proof. unfold loc_le. apply _. Defined.

Inductive CommentType : Type := TLine | TBlock | TDocLine | TDocBlock.

(** [Comment] of the parser. *)
Record Comment := { cm_ty : CommentType; cm_loc : Loc; cm_text : Str }.

Inductive CommentPosition : Type := Prefix | Postfix.

Record CommentWithMetadata := {
  ct_ty : CommentType;
  ct_loc : Loc;
  ct_has_newline_before : bool;
  ct_indent_len : nat;
  ct_comment : Str;
  ct_position : CommentPosition
}.

Definition is_prefix (c : CommentWithMetadata) : bool :=
  match ct_position c with Prefix => true | Postfix => false end.

Definition is_before (c : CommentWithMetadata) (byte : nat) : bool :=
  bool_decide (loc_start (ct_loc c) < byte).

Definition comment_new (c : Comment) (position : CommentPosition) (has_newline_before : bool)
    (indent_len : nat) : CommentWithMetadata :=
  {| ct_ty := cm_ty c; ct_loc := cm_loc c; ct_has_newline_before := has_newline_before;
     ct_indent_len := indent_len; ct_comment := trim_end (cm_text c); ct_position := position |}.

(** The offset of the last character of code. *)
Definition code_end (src_before : Str) : nat :=
  foldl (λ e p, if bool_decide (p.1.1 = CNone) && negb (is_whitespace p.2) then p.1.2 else e) 0
    (comment_state_char_indices src_before).

Definition is_doc (c : Comment) : bool :=
  match cm_ty c with TDocLine | TDocBlock => true | TLine | TBlock => false end.

(** Where a comment that is no doc comment belongs. *)
Definition comment_position (c : Comment) (src src_before : Str) (last_line : option Str)
    (indent_len : nat) (last_comment : option CommentWithMetadata) : outcome (CommentPosition * bool) :=
  let e := code_end src_before in
  after_code ← slice_from e src_before;
  if contains_newline after_code then
    match last_line with
    | None => Ret (Prefix, false)
    | Some [] => Ret (Prefix, true)
    | Some (_ :: _) =>
        if match last_comment with
           | Some last => bool_decide (e < loc_end (ct_loc last)) && negb (is_prefix last)
           | None => false
           end
        then
          src_after ← slice_from (loc_end (cm_loc c)) src;
          let next_indent_len :=
            foldl (λ indent ch, if is_char ch c_newline then 0 else indent + 1) indent_len
              (take_while is_whitespace (non_comment_chars src_after)) in
          Ret (if bool_decide (next_indent_len < indent_len) then Postfix else Prefix, false)
        else Ret (Prefix, false)
    end
  else Ret (Postfix, false).

Definition from_comment_and_src (c : Comment) (src : Str) (last_comment : option CommentWithMetadata)
    : outcome CommentWithMetadata :=
  src_before ← slice_to (loc_start (cm_loc c)) src;
  if bool_decide (src_before = []) then Ret (comment_new c Prefix false 0)
  else
    let lines_before := rev (lines src_before) in
    let '(this_line, lines_before) :=
      if match last src_before with Some ch => is_char ch c_newline | None => false end
      then ([], lines_before)
      else match lines_before with [] => ([], []) | l :: r => (l, r) end in
    let indent_len := length (take_while is_whitespace this_line) in
    let last_line := trim_start <$> head lines_before in
    if is_doc c then
      Ret (comment_new c Prefix (match last_line with None | Some [] => true | _ => false end) indent_len)
    else
      '(position, has_newline_before) ←
        comment_position c src src_before last_line indent_len last_comment;
      Ret (comment_new c position has_newline_before indent_len).

(** The text of a comment without its tokens. *)
Definition start_token (c : CommentWithMetadata) : Str :=
  match ct_ty c with
  | TLine => [c_slash; c_slash]
  | TBlock => [c_slash; c_star]
  | TDocLine => [c_slash; c_slash; c_slash]
  | TDocBlock => [c_slash; c_star; c_star]
  end.

Definition end_token (c : CommentWithMetadata) : option Str :=
  match ct_ty c with TLine | TDocLine => None | TBlock | TDocBlock => Some [c_star; c_slash] end.

Definition contents (c : CommentWithMetadata) : Str :=
  let s := default (ct_comment c) (strip_prefix (start_token c) (ct_comment c)) in
  match end_token c with Some t => default s (strip_suffix t s) | None => s end.

(** ** The queues *)

Record Comments := { prefixes : list CommentWithMetadata; postfixes : list CommentWithMetadata }.

(** The stable sort of [sort_by_key]. *)
Fixpoint insert_by {A} (key : A → Loc) (x : A) (l : list A) : list A :=
  match l with
  | [] => [x]
  | y :: r => if decide (loc_le (key x) (key y)) then x :: l else y :: insert_by key x r
  end.

Definition sort_by_key {A} (key : A → Loc) (l : list A) : list A := foldr (insert_by key) [] l.

(** One comment of the loop of [Comments::new]; the last comment is the last
    one pushed. *)
Definition push_comment (src : Str) (st : Comments * option CommentWithMetadata) (c : Comment)
    : outcome (Comments * option CommentWithMetadata) :=
  c ← from_comment_and_src c src st.2;
  Ret (if is_prefix c
       then {| prefixes := prefixes st.1 ++ [c]; postfixes := postfixes st.1 |}
       else {| prefixes := prefixes st.1; postfixes := postfixes st.1 ++ [c] |}, Some c).

Definition comments_new (comments : list Comment) (src : Str) : outcome Comments :=
  st ← foldM (push_comment src) ({| prefixes := []; postfixes := [] |}, None)
         (sort_by_key cm_loc comments);
  Ret st.1.

(** The removed comments and the others: [rotate_left] and [split_off]. *)
Definition remove_comments_before (comments : list CommentWithMetadata) (byte : nat)
    : list CommentWithMetadata * list CommentWithMetadata :=
  let pos := default (length comments)
               (fst <$> list_find (λ c, negb (is_before c byte) = true) comments) in
  if bool_decide (pos = 0) then ([], comments)
  else
    let rotated := drop pos comments ++ take pos comments in
    let at_ := length rotated - pos in
    (drop at_ rotated, take at_ rotated).

Definition remove_prefixes_before (cs : Comments) (byte : nat) : list CommentWithMetadata * Comments :=
  let '(out, rest) := remove_comments_before (prefixes cs) byte in
  (out, {| prefixes := rest; postfixes := postfixes cs |}).

Definition remove_postfixes_before (cs : Comments) (byte : nat) : list CommentWithMetadata * Comments :=
  let '(out, rest) := remove_comments_before (postfixes cs) byte in
  (out, {| prefixes := prefixes cs; postfixes := rest |}).

(** [Itertools::merge]: the left one first where they are equal. *)
Fixpoint merge_comments (l : list CommentWithMetadata) : list CommentWithMetadata → list CommentWithMetadata :=
  fix go (r : list CommentWithMetadata) :=
    match l, r with
    | [], _ => r
    | _, [] => l
    | x :: l', y :: r' =>
        if decide (loc_le (ct_loc x) (ct_loc y)) then x :: merge_comments l' r else y :: go r'
    end.

Definition remove_all_comments_before (cs : Comments) (byte : nat) : list CommentWithMetadata * Comments :=
  let '(pre, cs) := remove_prefixes_before cs byte in
  let '(post, cs) := remove_postfixes_before cs byte in
  (merge_comments pre post, cs).

Definition comments_iter (cs : Comments) : list CommentWithMetadata :=
  merge_comments (prefixes cs) (postfixes cs).

Definition comments_pop (cs : Comments) : option (CommentWithMetadata * Comments) :=
  match comments_iter cs with
  | [] => None
  | c :: _ =>
      if is_prefix c then
        match prefixes cs with
        | [] => None
        | x :: r => Some (x, {| prefixes := r; postfixes := postfixes cs |})
        end
      else
        match postfixes cs with
        | [] => None
        | x :: r => Some (x, {| prefixes := prefixes cs; postfixes := r |})
        end
  end.

(** ** Inline configuration *)

Inductive InlineConfigItem : Type :=
| DisableNextItem | DisableLine | DisableNextLine | DisableStart | DisableEnd.

(** String literals as code points. *)
Definition str (s : string) : Str := (λ c, Z.of_N (Ascii.N_of_ascii c)) <$> String.list_ascii_of_string s.

Definition item_from_str (s : Str) : result InlineConfigItem Str :=
  if bool_decide (s = str "disable-next-item") then Ok DisableNextItem
  else if bool_decide (s = str "disable-line") then Ok DisableLine
  else if bool_decide (s = str "disable-next-line") then Ok DisableNextLine
  else if bool_decide (s = str "disable-start") then Ok DisableStart
  else if bool_decide (s = str "disable-end") then Ok DisableEnd
  else Err s.

Definition parse_inline_config_items (cs : Comments)
    : list (result (Loc * InlineConfigItem) (Loc * Str)) :=
  omap (λ c, item ← strip_prefix (str "forgefmt:") (trim_start (contents c));
             Some (match item_from_str (trim item) with
                   | Ok out => Ok (ct_loc c, out)
                   | Err out => Err (ct_loc c, out)
                   end)) (comments_iter cs).

Record DisabledRange := { dr_start : nat; dr_end : nat; dr_loose : bool }.

Definition includes (r : DisabledRange) (loc : Loc) : bool :=
  bool_decide (dr_start r ≤ loc_start loc) &&
  bool_decide ((if dr_loose r then loc_start loc else loc_end loc) ≤ dr_end r).

(** The range of an item that stands for itself. *)
Definition next_item_range (src : Str) (loc : Loc) : outcome (option DisabledRange) :=
  let offset := loc_end loc in
  s ← slice_from offset src;
  match skip_while (λ p, is_whitespace p.2) (code_only (comment_state_char_indices s)) with
  | [] => Ret None
  | (start, _) :: rest =>
      let end_ := match List.find (λ p, negb (is_whitespace p.2)) rest with
                  | Some (idx, _) => offset + idx
                  | None => str_len src
                  end in
      Ret (Some {| dr_start := start + offset; dr_end := end_; dr_loose := true |})
  end.

Definition line_range (src : Str) (loc : Loc) : outcome (option DisabledRange) :=
  before ← slice_to (loc_start loc) src;
  let prev_newline := skip_while (λ p, negb (is_char p.2 c_newline)) (rev (char_indices before)) in
  let start := match prev_newline with
               | [] => 0
               | [(idx, _)] => idx
               | _ :: (idx, ch) :: _ => if is_char ch c_cr then idx else idx + 1
               end in
  let end_offset := loc_end loc in
  after ← slice_from end_offset src;
  let next_newline := skip_while (λ p, negb (is_char p.2 c_newline)) (char_indices after) in
  let end_ := end_offset + match next_newline with (idx, _) :: _ => idx | [] => 0 end in
  Ret (Some {| dr_start := start; dr_end := end_; dr_loose := false |}).

Definition next_line_range (src : Str) (loc : Loc) : outcome (option DisabledRange) :=
  let offset := loc_end loc in
  after ← slice_from offset src;
  match drop 1 (skip_while (λ p, negb (is_char p.2 c_newline)) (char_indices after)) with
  | [] => Ret None
  | (start, _) :: rest =>
      let end_ := match List.find (λ p, is_char p.2 c_newline) rest with
                  | Some (idx, _) => offset + idx + 1
                  | None => str_len src
                  end in
      Ret (Some {| dr_start := start + offset; dr_end := end_; dr_loose := false |})
  end.

Record ConfigState := {
  cf_ranges : list DisabledRange;
  cf_start : option nat;
  cf_depth : nat
}.

Definition push_range (st : ConfigState) (r : option DisabledRange) : ConfigState :=
  {| cf_ranges := cf_ranges st ++ option_list r; cf_start := cf_start st; cf_depth := cf_depth st |}.

(** One item of the loop of [InlineConfig::new]. *)
Definition config_item (src : Str) (st : ConfigState) (it : Loc * InlineConfigItem)
    : outcome ConfigState :=
  let '(loc, item) := it in
  match item with
  | DisableNextItem => r ← next_item_range src loc; Ret (push_range st r)
  | DisableLine => r ← line_range src loc; Ret (push_range st r)
  | DisableNextLine => r ← next_line_range src loc; Ret (push_range st r)
  | DisableStart =>
      Ret {| cf_ranges := cf_ranges st;
             cf_start := if bool_decide (cf_depth st = 0) then Some (loc_end loc) else cf_start st;
             cf_depth := cf_depth st + 1 |}
  | DisableEnd =>
      let depth := cf_depth st - 1 in
      match (if bool_decide (depth = 0) then cf_start st else None) with
      | Some start =>
          Ret {| cf_ranges := cf_ranges st ++
                   [{| dr_start := start; dr_end := loc_start loc; dr_loose := false |}];
                 cf_start := None; cf_depth := depth |}
      | None => Ret {| cf_ranges := cf_ranges st; cf_start := cf_start st; cf_depth := depth |}
      end
  end.

(** [sorted_by_key] on the start of the location. *)
Fixpoint insert_by_start (x : Loc * InlineConfigItem) (l : list (Loc * InlineConfigItem))
    : list (Loc * InlineConfigItem) :=
  match l with
  | [] => [x]
  | y :: r => if bool_decide (loc_start x.1 ≤ loc_start y.1) then x :: l else y :: insert_by_start x r
  end.

Definition sorted_by_start (l : list (Loc * InlineConfigItem)) : list (Loc * InlineConfigItem) :=
  foldr insert_by_start [] l.

(** [InlineConfig::new]: the disabled ranges. *)
Definition inline_config_new (items : list (Loc * InlineConfigItem)) (src : Str)
    : outcome (list DisabledRange) :=
  st ← foldM (config_item src) {| cf_ranges := []; cf_start := None; cf_depth := 0 |}
         (sorted_by_start items);
  Ret (cf_ranges st ++
       match cf_start st with
       | Some start => [{| dr_start := start; dr_end := str_len src; dr_loose := false |}]
       | None => []
       end).

Definition is_disabled (ranges : list DisabledRange) (loc : Loc) : bool :=
  existsb (λ r, includes r loc) ranges.

(** ** Slices *)

(** A location of the text: it starts and ends between characters. *)
Definition loc_in (src : Str) (loc : Loc) : Prop :=
  ∃ a b c, src = a ++ b ++ c ∧ loc_start loc = str_len a ∧ loc_end loc = str_len (a ++ b).

Lemma slice_to_app a t : slice_to (str_len a) (a ++ t) = Ret a.
Proof.
  induction a as [|c a IH]; [by destruct t|]. rewrite str_len_cons.
  pose proof (len_utf8_pos c). destruct (len_utf8 c + str_len a) as [|n] eqn:E; [lia|].
  simpl. rewrite bool_decide_true by lia. rewrite <-E.
  replace (len_utf8 c + str_len a - len_utf8 c) with (str_len a) by lia. by rewrite IH.
Qed.

Lemma slice_from_app a t : slice_from (str_len a) (a ++ t) = Ret t.
Proof.
  induction a as [|c a IH]; [by destruct t|]. rewrite str_len_cons.
  pose proof (len_utf8_pos c). destruct (len_utf8 c + str_len a) as [|n] eqn:E; [lia|].
  simpl. rewrite bool_decide_true by lia. rewrite <-E.
  replace (len_utf8 c + str_len a - len_utf8 c) with (str_len a) by lia. by rewrite IH.
Qed.

Lemma slice_loc src loc :
  loc_in src loc →
  (∃ a, slice_to (loc_start loc) src = Ret a) ∧ (∃ t, slice_from (loc_end loc) src = Ret t).
Proof.
  intros (a & b & c & -> & -> & ->). split.
  - exists a. apply slice_to_app.
  - exists c. rewrite app_assoc. apply slice_from_app.
Qed.

(** The offsets of characters are ends of prefixes. *)
Lemma char_indices_prefix i s idx c :
  (idx, c) ∈ char_indices_from i s → ∃ a t, s = a ++ t ∧ idx = i + str_len a.
Proof.
  revert i. induction s as [|d s IH]; intros i; simpl; [by intros ?%not_elem_of_nil|].
  intros [[= -> ->]|H]%elem_of_cons; [exists [], (d :: s); split; [done|]; cbn; lia|].
  destruct (IH _ H) as (a & t & -> & ->). exists (d :: a), t. rewrite str_len_cons. split; [done|lia].
Qed.

Lemma comment_states_indices st iter :
  (λ p, (p.1.2, p.2)) <$> comment_states st iter = iter.
Proof. revert st. induction iter as [|[i c] iter IH]; intros st; simpl; [done|]. by rewrite IH. Qed.

Lemma code_end_prefix s : ∃ a t, s = a ++ t ∧ code_end s = str_len a.
Proof.
  unfold code_end. set (l := comment_state_char_indices s).
  assert (∀ p, p ∈ l → ∃ a t, s = a ++ t ∧ p.1.2 = str_len a) as Hl.
  { intros p Hp. apply (char_indices_prefix 0 s p.1.2 p.2).
    rewrite <-(comment_states_indices CNone (char_indices_from 0 s)).
    by apply (list_elem_of_fmap_2 (λ p, (p.1.2, p.2)) l p). }
  clearbody l. assert (∃ a t, s = a ++ t ∧ 0 = str_len a) as Hz by (by exists [], s).
  revert Hz Hl. generalize 0. induction l as [|p l IH]; intros e He Hl; [done|]. simpl.
  apply IH; [|set_solver]. case_match; [apply Hl; set_solver|done].
Qed.

Lemma from_comment_total c src last_comment :
  loc_in src (cm_loc c) →
  ∃ m, from_comment_and_src c src last_comment = Ret m ∧
       ct_loc m = cm_loc c ∧ ct_ty m = cm_ty c ∧ ct_comment m = trim_end (cm_text c).
Proof.
  intros Hc. destruct (slice_loc _ _ Hc) as [[a Ha] [t Ht]]. unfold from_comment_and_src.
  rewrite Ha, bind_Ret. case_bool_decide; [eexists; split; [done|done]|].
  match goal with |- context [let '(_, _) := ?x in _] => destruct x as [this_line lines_before] end.
  destruct (is_doc c); [eexists; split; [done|done]|]. unfold comment_position.
  destruct (code_end_prefix a) as (a1 & a2 & Ea & Ee).
  assert (slice_from (code_end a) a = Ret a2) as ->.
  { rewrite Ee, Ea. apply slice_from_app. }
  rewrite bind_Ret, Ht. simpl.
  repeat (case_match || simpl); simplify_eq/=; eexists; (split; [reflexivity|done]).
Qed.

(** ** Sorting and merging *)

Definition key_le {A} (key : A → Loc) (x y : A) : Prop := loc_le (key x) (key y).

#[export] Instance key_le_trans {A} (key : A → Loc) : Transitive (key_le key).
Proof. intros x y z. unfold key_le, loc_le. lia. Qed.

Lemma insert_by_perm {A} (key : A → Loc) x l : insert_by key x l ≡ₚ x :: l.
Proof.
  induction l as [|y l IH]; simpl; [done|]. case_decide; [done|]. rewrite IH. by constructor.
Qed.

Lemma insert_by_sorted {A} (key : A → Loc) x l :
  StronglySorted (key_le key) l → StronglySorted (key_le key) (insert_by key x l).
Proof.
  induction 1 as [|y l Hl IH Hy]; simpl; [by repeat constructor|]. case_decide as Hxy.
  - constructor; [by constructor|]. constructor; [done|].
    eapply Forall_impl; [exact Hy|]. intros z Hz. by transitivity y.
  - constructor; [done|]. rewrite insert_by_perm. constructor; [|done].
    unfold key_le, loc_le in *. lia.
Qed.

Lemma sort_by_key_perm {A} (key : A → Loc) l : sort_by_key key l ≡ₚ l.
Proof. induction l as [|x l IH]; simpl; [done|]. by rewrite insert_by_perm, IH. Qed.

Lemma sort_by_key_sorted {A} (key : A → Loc) l : StronglySorted (key_le key) (sort_by_key key l).
Proof. induction l; simpl; [constructor|by apply insert_by_sorted]. Qed.

Abbreviation sorted := (StronglySorted (key_le ct_loc)).

Lemma merge_nil_l r : merge_comments [] r = r.
Proof. by destruct r. Qed.

Lemma merge_nil_r l : merge_comments l [] = l.
Proof. by destruct l. Qed.

Lemma merge_left x l r :
  Forall (key_le ct_loc x) r → merge_comments (x :: l) r = x :: merge_comments l r.
Proof.
  destruct r as [|y r]; [by rewrite !merge_nil_r|]. intros [Hx _]%Forall_cons.
  simpl. by rewrite decide_True.
Qed.

Lemma merge_right l y r :
  Forall (λ x, ¬ key_le ct_loc x y) l → merge_comments l (y :: r) = y :: merge_comments l r.
Proof.
  destruct l as [|x l]; [by destruct r|]. intros [Hx _]%Forall_cons.
  simpl. rewrite decide_False by done. by destruct r.
Qed.

(** The two ways a merge starts. *)
Lemma merge_ind (P : list CommentWithMetadata → list CommentWithMetadata → Prop) :
  (∀ r, P [] r) → (∀ l, P l []) →
  (∀ x l y r, key_le ct_loc x y → P l (y :: r) → P (x :: l) (y :: r)) →
  (∀ x l y r, ¬ key_le ct_loc x y → P (x :: l) r → P (x :: l) (y :: r)) →
  ∀ l r, P l r.
Proof.
  intros H1 H2 H3 H4 l. induction l as [|x l IHl]; [done|].
  induction r as [|y r IHr]; [done|].
  destruct (decide (loc_le (ct_loc x) (ct_loc y))); [by apply H3|by apply H4].
Qed.

Lemma merge_perm l r : merge_comments l r ≡ₚ l ++ r.
Proof.
  revert l r. apply merge_ind; [by intros; rewrite merge_nil_l|by intros; rewrite merge_nil_r, app_nil_r| |].
  - intros x l y r Hxy IH. simpl. rewrite decide_True by done. by rewrite IH.
  - intros x l y r Hxy IH. simpl. rewrite decide_False by done.
    etransitivity; [constructor; exact IH|]. exact (Permutation_middle (x :: l) r y).
Qed.

Lemma sorted_cons x l : sorted (x :: l) ↔ Forall (key_le ct_loc x) l ∧ sorted l.
Proof. split; [by inversion 1|]. intros []. by constructor. Qed.

Lemma merge_sorted l r : sorted l → sorted r → sorted (merge_comments l r).
Proof.
  revert l r. refine (merge_ind _ _ _ _ _); [by intros; rewrite merge_nil_l|by intros; rewrite merge_nil_r| |].
  - intros x l y r Hxy IH [Hx Hl]%sorted_cons Hr. simpl. rewrite decide_True by done.
    constructor; [by apply IH|]. rewrite merge_perm. apply Forall_app_2; [done|].
    constructor; [done|]. apply sorted_cons in Hr as [Hy _]. eapply Forall_impl; [exact Hy|].
    intros z Hz. by transitivity y.
  - intros x l y r Hxy IH Hl [Hy Hr]%sorted_cons.
    change (merge_comments (x :: l) (y :: r)) with
      (if decide (loc_le (ct_loc x) (ct_loc y)) then x :: merge_comments l (y :: r)
       else y :: merge_comments (x :: l) r).
    rewrite decide_False by done. constructor; [by apply IH|]. rewrite merge_perm.
    assert (key_le ct_loc y x) as Hyx by (unfold key_le, loc_le in *; lia).
    apply Forall_app_2; [|done]. apply sorted_cons in Hl as [Hx _]. constructor; [done|].
    eapply Forall_impl; [exact Hx|]. intros z Hz. by transitivity x.
Qed.

Lemma filter_sorted (P : CommentWithMetadata → Prop) `{∀ x, Decision (P x)} l :
  sorted l → sorted (filter P l).
Proof.
  induction 1 as [|x l Hl IH Hx]; [constructor|]. rewrite filter_cons. case_decide; [|done].
  constructor; [done|]. apply Forall_forall. intros y [_ Hy]%list_elem_of_filter.
  rewrite Forall_forall in Hx. by apply Hx.
Qed.

(** Merging commutes with taking out. *)
Lemma merge_filter (P : CommentWithMetadata → Prop) `{∀ x, Decision (P x)} l r :
  sorted l → sorted r → merge_comments (filter P l) (filter P r) = filter P (merge_comments l r).
Proof.
  revert l r. refine (merge_ind _ _ _ _ _).
  - intros r _ _. by rewrite !merge_nil_l.
  - intros l _ _. by rewrite !merge_nil_r.
  - intros x l y r Hxy IH [Hx Hl]%sorted_cons Hr. simpl merge_comments at 2.
    rewrite decide_True, !(filter_cons _ x) by done. rewrite <-IH by done. case_decide; [|done].
    apply merge_left. apply sorted_cons in Hr as [Hy _]. apply Forall_forall.
    intros z [_ [->|Hz]%elem_of_cons]%list_elem_of_filter; [done|].
    rewrite Forall_forall in Hy. transitivity y; [done|by apply Hy].
  - intros x l y r Hxy IH Hl [Hy Hr]%sorted_cons.
    change (merge_comments (x :: l) (y :: r)) with
      (if decide (loc_le (ct_loc x) (ct_loc y)) then x :: merge_comments l (y :: r)
       else y :: merge_comments (x :: l) r).
    rewrite decide_False, !(filter_cons _ y) by done. rewrite <-IH by done. case_decide; [|done].
    apply merge_right. apply Forall_forall. intros z [_ Hz]%list_elem_of_filter Hzy.
    apply Hxy. apply sorted_cons in Hl as [Hx _]. apply elem_of_cons in Hz as [->|Hz]; [done|].
    rewrite Forall_forall in Hx. transitivity z; [by apply Hx|done].
Qed.

(** ** The queues *)

Lemma filter_all {A} (P : A → Prop) `{∀ x, Decision (P x)} l : Forall P l → filter P l = l.
Proof. induction 1 as [|x l Hx _ IH]; [done|]. by rewrite filter_cons_True, IH. Qed.

Lemma filter_none {A} (P : A → Prop) `{∀ x, Decision (P x)} l : Forall (λ x, ¬ P x) l → filter P l = [].
Proof. induction 1 as [|x l Hx _ IH]; [done|]. by rewrite filter_cons_False, IH. Qed.

Lemma filter_keeps {A} (P Q : A → Prop) `{∀ x, Decision (P x)} l : Forall Q l → Forall Q (filter P l).
Proof.
  rewrite !Forall_forall. intros H' x [_ Hx]%list_elem_of_filter. by apply H'.
Qed.

Abbreviation before byte := (λ c, is_before c byte = true).
Abbreviation not_before byte := (λ c, is_before c byte = false).

Lemma remove_split l byte :
  remove_comments_before l byte =
    let pos := default (length l) (fst <$> list_find (λ c, negb (is_before c byte) = true) l) in
    (take pos l, drop pos l).
Proof.
  unfold remove_comments_before. cbv zeta. set (pos := default _ _).
  assert (pos ≤ length l) as Hp.
  { unfold pos. destruct (list_find _ l) as [[i c]|] eqn:E; simpl; [|lia].
    apply list_find_Some in E as [E _]. apply lookup_lt_Some in E. lia. }
  case_bool_decide as H0; [by rewrite H0|].
  rewrite length_app, length_drop, length_take_le by done.
  replace (length l - pos + pos - pos) with (length (drop pos l)) by (rewrite length_drop; lia).
  by rewrite drop_app_length, take_app_length.
Qed.

(** Taking from a sorted queue takes all comments before the offset. *)
Lemma remove_sorted l byte :
  sorted l → remove_comments_before l byte = (filter (before byte) l, filter (not_before byte) l).
Proof.
  intros Hl. rewrite remove_split. cbv zeta. induction Hl as [|c l Hl IH Hc]; [done|].
  simpl. rewrite (filter_cons (before byte)), (filter_cons (not_before byte)).
  destruct (is_before c byte) eqn:Eb; simpl.
  - destruct (list_find _ l) as [[i d]|]; simpl in *; injection IH as -> ->; done.
  - assert (Forall (not_before byte) l) as Hn.
    { eapply Forall_impl; [exact Hc|]. intros d Hd. unfold is_before in *.
      rewrite bool_decide_eq_false in *. unfold key_le, loc_le in Hd. lia. }
    rewrite (filter_all (not_before byte)) by done. rewrite filter_none; [done|].
    eapply Forall_impl; [exact Hn|]. intros d Hd. congruence.
Qed.

(** Both queues are sorted, and hold what their name says. *)
Record comments_wf (cs : Comments) : Prop := {
  cw_prefixes : sorted (prefixes cs);
  cw_postfixes : sorted (postfixes cs);
  cw_is_prefix : Forall (λ c, is_prefix c = true) (prefixes cs);
  cw_is_postfix : Forall (λ c, is_prefix c = false) (postfixes cs)
}.

Lemma comments_wf_filter (P Q : CommentWithMetadata → Prop) `{∀ x, Decision (P x), ∀ x, Decision (Q x)} cs :
  comments_wf cs →
  comments_wf {| prefixes := filter P (prefixes cs); postfixes := filter Q (postfixes cs) |}.
Proof.
  intros []. split; simpl; [by apply filter_sorted|by apply filter_sorted| |]; by apply filter_keeps.
Qed.

(** The comments before an offset, in the order of the file; the others stay. *)
Lemma remove_all_spec cs byte :
  comments_wf cs →
  ∃ cs', remove_all_comments_before cs byte = (filter (before byte) (comments_iter cs), cs') ∧
    comments_wf cs' ∧ comments_iter cs' = filter (not_before byte) (comments_iter cs).
Proof.
  intros Hcs. pose proof Hcs as [Hpre Hpost _ _].
  unfold remove_all_comments_before, remove_prefixes_before, remove_postfixes_before.
  rewrite (remove_sorted (prefixes cs)) by done. simpl. rewrite (remove_sorted (postfixes cs)) by done.
  eexists. split; [by rewrite merge_filter|]. split; [by apply comments_wf_filter|].
  unfold comments_iter. simpl. by rewrite merge_filter.
Qed.

Lemma pop_spec cs :
  comments_wf cs →
  match comments_pop cs with
  | None => comments_iter cs = []
  | Some (c, cs') => comments_iter cs = c :: comments_iter cs' ∧ comments_wf cs'
  end.
Proof.
  intros [Hpre Hpost Hp Hq]. destruct cs as [[|x l] [|y r]]; unfold comments_pop, comments_iter; simpl in *.
  - done.
  - apply Forall_cons in Hq as [-> Hq]. rewrite merge_nil_l. split; [done|].
    split; simpl; [exact Hpre|by apply (sorted_cons y r)|exact Hp|done].
  - apply Forall_cons in Hp as [-> Hp]. rewrite merge_nil_r. split; [done|].
    split; simpl; [by apply (sorted_cons x l)|exact Hpost|done|exact Hq].
  - apply Forall_cons in Hq as [Hy Hq]. apply Forall_cons in Hp as [Hx Hp].
    case_decide; [rewrite Hx|rewrite Hy]; (split; [done|]); split; simpl; auto;
      [by apply (sorted_cons x l)|by apply (sorted_cons y r)].
Qed.

(** What a client of the queues does. *)
Inductive CommentOp : Type :=
| RemovePrefixes (byte : nat)
| RemovePostfixes (byte : nat)
| RemoveAll (byte : nat)
| PopComment.

Definition comment_op (cs : Comments) (op : CommentOp) : list CommentWithMetadata * Comments :=
  match op with
  | RemovePrefixes byte => remove_prefixes_before cs byte
  | RemovePostfixes byte => remove_postfixes_before cs byte
  | RemoveAll byte => remove_all_comments_before cs byte
  | PopComment => match comments_pop cs with Some (c, cs) => ([c], cs) | None => ([], cs) end
  end.

Fixpoint comment_ops (cs : Comments) (ops : list CommentOp) : list CommentWithMetadata * Comments :=
  match ops with
  | [] => ([], cs)
  | op :: ops =>
      let '(out, cs) := comment_op cs op in
      let '(outs, cs) := comment_ops cs ops in
      (out ++ outs, cs)
  end.

Lemma filter_split (l : list CommentWithMetadata) byte :
  filter (before byte) l ++ filter (not_before byte) l ≡ₚ l.
Proof.
  induction l as [|c l IH]; [done|]. rewrite !filter_cons.
  destruct (is_before c byte); simpl; [by rewrite IH|]. by rewrite <-Permutation_middle, IH.
Qed.

Lemma comment_op_spec cs op :
  comments_wf cs →
  comments_wf (comment_op cs op).2 ∧
  (comment_op cs op).1 ++ comments_iter (comment_op cs op).2 ≡ₚ comments_iter cs.
Proof.
  intros Hcs. pose proof Hcs as [Hpre Hpost Hp Hq]. destruct op as [byte|byte|byte|]; simpl.
  - unfold remove_prefixes_before. rewrite remove_sorted by done. simpl. split.
    + rewrite <-(filter_all (λ _, True) (postfixes cs)) by (by apply Forall_true).
      by apply comments_wf_filter.
    + unfold comments_iter. simpl. rewrite !merge_perm, app_assoc, filter_split. done.
  - unfold remove_postfixes_before. rewrite remove_sorted by done. simpl. split.
    + rewrite <-(filter_all (λ _, True) (prefixes cs)) by (by apply Forall_true).
      by apply comments_wf_filter.
    + unfold comments_iter. simpl. rewrite !merge_perm, Permutation_app_swap_app, filter_split. done.
  - destruct (remove_all_spec cs byte Hcs) as (cs' & -> & Hcs' & E). simpl. split; [done|].
    rewrite E. apply filter_split.
  - pose proof (pop_spec cs Hcs) as H. destruct (comments_pop cs) as [[c cs']|]; simpl.
    + destruct H as [-> ?]. done.
    + rewrite H. done.
Qed.

(** What a queued comment keeps of the comment of the parser. *)
Definition of_comment (c : Comment) : CommentType * Loc * Str := (cm_ty c, cm_loc c, trim_end (cm_text c)).
Definition of_metadata (c : CommentWithMetadata) : CommentType * Loc * Str :=
  (ct_ty c, ct_loc c, ct_comment c).

Lemma sorted_snoc l (c : CommentWithMetadata) :
  sorted l → Forall (λ d, key_le ct_loc d c) l → sorted (l ++ [c]).
Proof.
  induction 1 as [|d l Hl IH Hd]; intros Hc; simpl; [by repeat constructor|].
  apply Forall_cons in Hc as [? Hc]. constructor; [by apply IH|].
  by apply Forall_app_2, Forall_singleton.
Qed.

(** The comments pushed so far come before the next one. *)
Lemma pushed_before (done : list Comment) (ms : list CommentWithMetadata) (c : Comment) m :
  of_metadata <$> ms ≡ₚ of_comment <$> done → Forall (λ d, key_le cm_loc d c) done → ct_loc m = cm_loc c →
  Forall (λ d, key_le ct_loc d m) ms.
Proof.
  intros Hp Hd Em. rewrite Forall_forall in Hd. apply Forall_forall. intros d Hin.
  assert (of_metadata d ∈ of_comment <$> done) as (c' & E & Hc')%list_elem_of_fmap.
  { rewrite <-Hp. by apply list_elem_of_fmap_2. }
  injection E as _ El _. unfold key_le. rewrite El, Em. by apply Hd.
Qed.

Lemma sorted_middle {A} (R : A → A → Prop) l x r :
  StronglySorted R (l ++ x :: r) → Forall (λ y, R y x) l.
Proof.
  induction l as [|y l IH]; simpl; [by constructor|]. inversion 1 as [|? ? Hs Hy]; subst.
  constructor; [|by apply IH]. rewrite Forall_forall in Hy. apply Hy. set_solver.
Qed.

Lemma push_comments comments src :
  StronglySorted (key_le cm_loc) comments → Forall (λ c, loc_in src (cm_loc c)) comments →
  ∃ st, foldM (push_comment src) ({| prefixes := []; postfixes := [] |}, None) comments = Ret st ∧
    comments_wf st.1 ∧ of_metadata <$> (prefixes st.1 ++ postfixes st.1) ≡ₚ of_comment <$> comments.
Proof.
  intros Hs Hin.
  apply (foldM_spec (push_comment src) (λ done st, comments_wf st.1 ∧
    of_metadata <$> (prefixes st.1 ++ postfixes st.1) ≡ₚ of_comment <$> done)).
  { split; [|done]. split; constructor. }
  intros done c rest [cs last_comment] -> [[Hpre Hpost Hp Hq] Hperm].
  apply Forall_app in Hin as [_ [Hc _]%Forall_cons]. apply sorted_middle in Hs.
  unfold push_comment. simpl in *.
  destruct (from_comment_total c src last_comment Hc) as (m & -> & El & Et & Ex). rewrite bind_Ret.
  eexists. split; [done|]. pose proof (pushed_before done _ c m Hperm Hs El) as Hb.
  apply Forall_app in Hb as [Hb1 Hb2].
  assert (of_metadata m = of_comment c) as Em by (unfold of_metadata, of_comment; congruence).
  rewrite fmap_app in *. simpl. destruct (is_prefix m) eqn:Epm; simpl; rewrite !fmap_app; simpl.
  - split; [split; simpl; auto using sorted_snoc; by apply Forall_app_2, Forall_singleton|].
    rewrite Em, <-Hperm, <-app_assoc. simpl. by rewrite <-Permutation_middle, Permutation_cons_append.
  - split; [split; simpl; auto using sorted_snoc; by apply Forall_app_2, Forall_singleton|].
    rewrite Em, <-Hperm, app_assoc. done.
Qed.

(** the comments of a file whose locations lie in it are queued without a
    panic; the iterator yields each of them once, in the order of the file; and
    whatever sequence of removals and pops follows, the comments handed out and
    those left are together the comments of the file, while a removal of all
    comments before an offset hands out exactly those, in order. *)
Theorem comments_correct (comments : list Comment) (src : Str) :
  Forall (λ c, loc_in src (cm_loc c)) comments →
  ∃ cs, comments_new comments src = Ret cs ∧ sorted (comments_iter cs) ∧
    of_metadata <$> comments_iter cs ≡ₚ of_comment <$> comments ∧
    ∀ ops, let '(out, cs') := comment_ops cs ops in
      out ++ comments_iter cs' ≡ₚ comments_iter cs ∧ sorted (comments_iter cs') ∧
      ∀ byte, (remove_all_comments_before cs' byte).1 = filter (before byte) (comments_iter cs').
Proof.
  intros Hin. unfold comments_new.
  destruct (push_comments (sort_by_key cm_loc comments) src) as (st & -> & Hw & Hp).
  { apply sort_by_key_sorted. } { by rewrite sort_by_key_perm. }
  rewrite bind_Ret. exists st.1. split; [done|].
  assert (∀ cs, comments_wf cs → sorted (comments_iter cs)) as Hsorted
    by (intros cs []; by apply merge_sorted).
  split; [by apply Hsorted|]. split.
  { unfold comments_iter. by rewrite merge_perm, Hp, sort_by_key_perm. }
  intros ops. revert Hw. generalize st.1. clear st Hp.
  induction ops as [|op ops IH]; intros cs Hw; simpl.
  - split; [done|]. split; [by apply Hsorted|]. intros byte.
    destruct (remove_all_spec cs byte Hw) as (cs' & -> & _). done.
  - pose proof (comment_op_spec cs op Hw) as [Hw1 Hp1]. destruct (comment_op cs op) as [out cs1].
    simpl in *. specialize (IH cs1 Hw1). destruct (comment_ops cs1 ops) as [outs cs2].
    destruct IH as (Hp2 & H). split; [|done]. by rewrite <-app_assoc, Hp2.
Qed.

Definition ex_src : Str := str "a//b".

Lemma comments_correct_witness :
  ∃ cs, comments_new [{| cm_ty := TLine; cm_loc := {| loc_start := 1; loc_end := 4 |};
                         cm_text := str "//b " |}] ex_src = Ret cs ∧
        of_metadata <$> comments_iter cs ≡ₚ [(TLine, {| loc_start := 1; loc_end := 4 |}, str "//b")].
Proof.
  destruct (comments_correct [{| cm_ty := TLine; cm_loc := {| loc_start := 1; loc_end := 4 |};
              cm_text := str "//b " |}] ex_src) as (cs & E & _ & H & _).
  - constructor; [|constructor]. by exists (str "a"), (str "//b"), [].
  - exists cs. split; [exact E|]. exact H.
Defined.

(** ** Disabled ranges *)

(** How many starts are open after some items. *)
Definition depth (its : list (Loc * InlineConfigItem)) : nat :=
  foldl (λ d it, match it.2 with DisableStart => d + 1 | DisableEnd => d - 1 | _ => d end) 0 its.

(** The range of an item that is neither a start nor an end. *)
Definition own_range (src : Str) (it : Loc * InlineConfigItem) : outcome (option DisabledRange) :=
  match it.2 with
  | DisableNextItem => next_item_range src it.1
  | DisableLine => line_range src it.1
  | DisableNextLine => next_line_range src it.1
  | DisableStart | DisableEnd => Ret None
  end.

(** The items from the outermost start [i], while it is open, up to [j]. *)
Definition open_from (its : list (Loc * InlineConfigItem)) (i j : nat) (li : Loc) : Prop :=
  its !! i = Some (li, DisableStart) ∧ depth (take i its) = 0 ∧ i < j ∧
  ∀ k, i ≤ k < j → depth (take (S k) its) ≠ 0.

(** The ranges between a start and its end. *)
Definition closed_range (its : list (Loc * InlineConfigItem)) (r : DisabledRange) : Prop :=
  ∃ i j li lj, open_from its i j li ∧ its !! j = Some (lj, DisableEnd) ∧ depth (take (S j) its) = 0 ∧
    r = {| dr_start := loc_end li; dr_end := loc_start lj; dr_loose := false |}.

Lemma depth_snoc its it :
  depth (its ++ [it]) =
    match it.2 with DisableStart => depth its + 1 | DisableEnd => depth its - 1 | _ => depth its end.
Proof. unfold depth. by rewrite foldl_app. Qed.

Lemma own_range_total src it : loc_in src it.1 → ∃ r, own_range src it = Ret r.
Proof.
  intros Hl. destruct (slice_loc _ _ Hl) as [[a Ha] [t Ht]]. destruct it as [loc item]. simpl in *.
  unfold own_range. destruct item; simpl; eauto.
  - unfold next_item_range. rewrite Ht, bind_Ret. case_match; [eauto|]. case_match. eauto.
  - unfold line_range. rewrite Ha, bind_Ret, Ht, bind_Ret. eauto.
  - unfold next_line_range. rewrite Ht, bind_Ret. case_match; [eauto|]. case_match. eauto.
Qed.

Lemma open_from_snoc its it i j li :
  j ≤ length its → open_from (its ++ [it]) i j li ↔ open_from its i j li.
Proof.
  intros Hj. unfold open_from. split.
  - intros (Hi & Hd & Hij & Hk). rewrite lookup_app_l in Hi by lia. rewrite take_app_le in Hd by lia.
    split_and!; [done|done|done|]. intros k Hk'. rewrite <-(take_app_le its [it]) by lia. by apply Hk.
  - intros (Hi & Hd & Hij & Hk). rewrite lookup_app_l, take_app_le by lia.
    split_and!; [done|done|done|]. intros k Hk'. rewrite take_app_le by lia. by apply Hk.
Qed.

(** A new end closes the open start, or adds nothing. *)
Lemma closed_snoc its it r :
  closed_range (its ++ [it]) r ↔
    closed_range its r ∨
    (it.2 = DisableEnd ∧ depth (its ++ [it]) = 0 ∧ ∃ i li, open_from its i (length its) li ∧
       r = {| dr_start := loc_end li; dr_end := loc_start it.1; dr_loose := false |}).
Proof.
  unfold closed_range. split.
  - intros (i & j & li & lj & Ho & Hj & Hd & ->). pose proof (lookup_lt_Some _ _ _ Hj) as Hlt.
    rewrite length_app in Hlt. simpl in Hlt. destruct (decide (j = length its)) as [->|Hne].
    + right. rewrite list_lookup_middle in Hj by done. injection Hj as ->. split; [done|].
      rewrite take_ge in Hd by (rewrite length_app; simpl; lia). split; [done|].
      exists i, li. by rewrite <-(open_from_snoc its (lj, DisableEnd)).
    + left. rewrite lookup_app_l in Hj by lia. rewrite take_app_le in Hd by lia.
      exists i, j, li, lj. rewrite open_from_snoc in Ho by lia. done.
  - intros [(i & j & li & lj & Ho & Hj & Hd & ->)|(Hit & Hd & i & li & Ho & ->)].
    + pose proof (lookup_lt_Some _ _ _ Hj). exists i, j, li, lj.
      rewrite open_from_snoc, lookup_app_l, take_app_le by lia. done.
    + exists i, (length its), li, it.1. rewrite open_from_snoc, list_lookup_middle by done.
      rewrite take_ge by (rewrite length_app; simpl; lia). split_and!; [done| |done|done].
      by destruct it; simplify_eq/=.
Qed.

(** The state after some items. *)
Record config_inv (src : Str) (its : list (Loc * InlineConfigItem)) (st : ConfigState) : Prop := {
  ci_depth : cf_depth st = depth its;
  ci_start : match cf_start st with
             | None => depth its = 0
             | Some s => ∃ i li, open_from its i (length its) li ∧ s = loc_end li
             end;
  ci_ranges r : r ∈ cf_ranges st ↔
    closed_range its r ∨ ∃ it, it ∈ its ∧ own_range src it = Ret (Some r)
}.

Lemma open_from_last its it i li :
  open_from its i (length its) li → depth (its ++ [it]) ≠ 0 →
  open_from (its ++ [it]) i (length (its ++ [it])) li.
Proof.
  intros Ho Hd. apply (open_from_snoc its it) in Ho as (Hi & Hd0 & Hij & Hk); [|done].
  rewrite length_app. simpl. split_and!; [done|done|lia|]. intros k Hk'.
  destruct (decide (k = length its)) as [->|]; [|apply Hk; lia].
  by rewrite take_ge by (rewrite length_app; simpl; lia).
Qed.

Lemma open_from_depth its i li : open_from its i (length its) li → depth its ≠ 0.
Proof.
  intros (_ & _ & Hi & Hk). specialize (Hk (length its - 1)). rewrite take_ge in Hk by lia.
  apply Hk. lia.
Qed.

Lemma open_from_unique its i i' li li' :
  open_from its i (length its) li → open_from its i' (length its) li' → i = i' ∧ li = li'.
Proof.
  assert (∀ i i' li li', open_from its i (length its) li → open_from its i' (length its) li' → ¬ i < i') as H.
  { intros k k' lk lk' (_ & _ & _ & Hk) (_ & Hd & Hlt & _) Hkk. apply (Hk (k' - 1)); [lia|].
    by replace (S (k' - 1)) with k' by lia. }
  intros Ho Ho'. pose proof (H _ _ _ _ Ho Ho'). pose proof (H _ _ _ _ Ho' Ho).
  assert (i = i') as <- by lia. split; [done|]. destruct Ho as [E _], Ho' as [E' _]. congruence.
Qed.

Lemma own_snoc src its it r :
  (∃ x, x ∈ its ++ [it] ∧ own_range src x = Ret (Some r)) ↔
  (∃ x, x ∈ its ∧ own_range src x = Ret (Some r)) ∨ own_range src it = Ret (Some r).
Proof. setoid_rewrite elem_of_app. setoid_rewrite list_elem_of_singleton. naive_solver. Qed.

(** An item that adds its own range. *)
Lemma config_own src its st it ro :
  config_inv src its st → own_range src it = Ret ro → it.2 ≠ DisableStart → it.2 ≠ DisableEnd →
  config_inv src (its ++ [it]) (push_range st ro).
Proof.
  intros [Hd Hs Hr] Ho Hn1 Hn2.
  assert (depth (its ++ [it]) = depth its) as Ed by (rewrite depth_snoc; by destruct it.2).
  split; simpl.
  - by rewrite Ed.
  - destruct (cf_start st) as [s|]; [|by rewrite Ed]. destruct Hs as (i & li & Hi & ->).
    exists i, li. split; [|done]. apply open_from_last; [done|]. rewrite Ed. by eapply open_from_depth.
  - intros r. rewrite elem_of_app, Hr, closed_snoc, own_snoc, Ho. destruct ro as [r'|]; simpl.
    + rewrite list_elem_of_singleton. naive_solver.
    + rewrite elem_of_nil. naive_solver.
Qed.

Lemma config_start src its st loc :
  config_inv src its st →
  config_inv src (its ++ [(loc, DisableStart)])
    {| cf_ranges := cf_ranges st;
       cf_start := if bool_decide (cf_depth st = 0) then Some (loc_end loc) else cf_start st;
       cf_depth := cf_depth st + 1 |}.
Proof.
  intros [Hd Hs Hr]. split; simpl.
  - by rewrite depth_snoc, Hd.
  - rewrite Hd. case_bool_decide as H0.
    + exists (length its), loc. split; [|done]. unfold open_from.
      rewrite list_lookup_middle, take_app_length, length_app by done. simpl. split_and!; [done|done|lia|].
      intros k Hk. rewrite take_ge by (rewrite length_app; simpl; lia). rewrite depth_snoc. simpl. lia.
    + destruct (cf_start st) as [s|]; [|done]. destruct Hs as (i & li & Hi & ->).
      exists i, li. split; [|done]. apply open_from_last; [done|]. rewrite depth_snoc. simpl. lia.
  - intros r. rewrite Hr, closed_snoc, own_snoc. unfold own_range at 3. simpl. naive_solver.
Qed.

Lemma config_end src its st loc :
  config_inv src its st →
  ∃ st', config_item src st (loc, DisableEnd) = Ret st' ∧ config_inv src (its ++ [(loc, DisableEnd)]) st'.
Proof.
  intros [Hd Hs Hr]. simpl.
  assert (depth (its ++ [(loc, DisableEnd)]) = cf_depth st - 1) as Ed by (by rewrite depth_snoc, Hd).
  assert (∀ r, (∃ x, x ∈ its ++ [(loc, DisableEnd)] ∧ own_range src x = Ret (Some r)) ↔
               ∃ x, x ∈ its ∧ own_range src x = Ret (Some r)) as Hown.
  { intros r. rewrite own_snoc. unfold own_range at 2. simpl. naive_solver. }
  destruct (cf_start st) as [s|].
  - destruct Hs as (i & li & Hi & ->). case_bool_decide as H0; eexists; (split; [done|]); split; simpl.
    + by rewrite Ed.
    + by rewrite Ed.
    + intros r. rewrite elem_of_app, list_elem_of_singleton, Hr, closed_snoc, Hown, Ed. simpl. split.
      * intros [[?|?]| ->]; [auto|auto|]. left. right. split; [done|]. split; [done|]. by exists i, li.
      * intros [[?|(_ & _ & i' & li' & Hi' & ->)]|?]; [auto| |auto].
        destruct (open_from_unique _ _ _ _ _ Hi Hi') as [_ <-]. auto.
    + by rewrite Ed.
    + exists i, li. split; [|done]. apply open_from_last; [done|]. by rewrite Ed.
    + intros r. rewrite Hr, closed_snoc, Hown, Ed. naive_solver.
  - eexists. split; [by destruct (bool_decide _)|]. split; simpl.
    + by rewrite Ed.
    + rewrite Ed, Hd. lia.
    + intros r. rewrite Hr, closed_snoc, Hown. split; [naive_solver|].
      intros [[?|(_ & _ & i & li & Hi & _)]|?]; [auto| |auto]. by apply open_from_depth in Hi.
Qed.

Lemma config_step src its st it :
  config_inv src its st → loc_in src it.1 →
  ∃ st', config_item src st it = Ret st' ∧ config_inv src (its ++ [it]) st'.
Proof.
  intros Hst Hl. destruct (own_range_total src it Hl) as [ro Ho]. destruct it as [loc item].
  destruct item; [| | |eexists; split; [done|]; by apply config_start|by apply config_end];
    (exists (push_range st ro); split; [|by apply config_own]);
    unfold own_range in Ho; simpl in *; by rewrite Ho.
Qed.

Lemma insert_by_start_perm x l : insert_by_start x l ≡ₚ x :: l.
Proof.
  induction l as [|y l IH]; simpl; [done|]. case_bool_decide; [done|]. rewrite IH. by constructor.
Qed.

Lemma sorted_by_start_perm l : sorted_by_start l ≡ₚ l.
Proof. induction l as [|x l IH]; simpl; [done|]. by rewrite insert_by_start_perm, IH. Qed.

(** The location lies in the region between an outermost start and its end, or
    the end of the file. *)
Definition in_region (src : Str) (its : list (Loc * InlineConfigItem)) (loc : Loc) : Prop :=
  ∃ i li, loc_end li ≤ loc_start loc ∧
    ((∃ j lj, open_from its i j li ∧ its !! j = Some (lj, DisableEnd) ∧ depth (take (S j) its) = 0 ∧
        loc_end loc ≤ loc_start lj) ∨
     (open_from its i (length its) li ∧ loc_end loc ≤ str_len src)).

(** For inline items that lie in the file, the configuration is built without
    a panic, and a location is disabled exactly when it is in the range of an
    item for a line or a code item, or in a region: from the end of an outermost
    start, counting nested starts and ends in the order of the file, to the end
    that brings the count back to zero, or to the end of the file. *)
Theorem inline_config_correct (items : list (Loc * InlineConfigItem)) (src : Str) :
  Forall (λ it, loc_in src it.1) items →
  ∃ ranges, inline_config_new items src = Ret ranges ∧
    ∀ loc, is_disabled ranges loc = true ↔
      (∃ it r, it ∈ items ∧ own_range src it = Ret (Some r) ∧ includes r loc = true) ∨
      in_region src (sorted_by_start items) loc.
Proof.
  intros Hin. unfold inline_config_new. set (its := sorted_by_start items).
  assert (its ≡ₚ items) as Hp by apply sorted_by_start_perm.
  destruct (foldM_spec (config_item src) (config_inv src) its
    {| cf_ranges := []; cf_start := None; cf_depth := 0 |}) as (st & -> & Hst).
  { split; [done|done|]. intros r. simpl. rewrite elem_of_nil. split; [done|].
    intros [(i & j & li & lj & _ & Hj & _)|(it & []%not_elem_of_nil & _)]. done. }
  { intros done it rest b E Hb. apply config_step; [done|]. rewrite <-Hp, E in Hin.
    apply Forall_app in Hin as [_ [? _]%Forall_cons]. done. }
  rewrite bind_Ret. eexists. split; [done|]. intros loc. destruct Hst as [_ Hs Hr].
  unfold is_disabled. rewrite existsb_app, orb_true_iff, existsb_exists.
  setoid_rewrite <-list_elem_of_In. setoid_rewrite Hr.
  assert (∀ it, it ∈ its ↔ it ∈ items) as Hel by (intros; by rewrite Hp).
  setoid_rewrite Hel. unfold in_region. split.
  - intros [(r & [(i & j & li & lj & Ho & Hj & Hd & ->)|(it & Hit & Hown)] & Hi)|He].
    + unfold includes in Hi. simpl in Hi. rewrite andb_true_iff, !bool_decide_eq_true in Hi. right.
      exists i, li. naive_solver.
    + left. eauto.
    + destruct (cf_start st) as [s|]; [|done]. destruct Hs as (i & li & Ho & ->). simpl in He.
      unfold includes in He. simpl in He. rewrite orb_false_r, andb_true_iff, !bool_decide_eq_true in He.
      right. exists i, li. naive_solver.
  - intros [(it & r & Hit & Hown & Hi)|(i & li & Hl & [(j & lj & Ho & Hj & Hd & He)|[Ho He]])].
    + left. exists r. eauto.
    + left. exists {| dr_start := loc_end li; dr_end := loc_start lj; dr_loose := false |}.
      split; [left; by exists i, j, li, lj|]. unfold includes. simpl.
      by rewrite !bool_decide_true.
    + right. destruct (cf_start st) as [s|]; [|by apply open_from_depth in Ho].
      destruct Hs as (i' & li' & Ho' & ->). destruct (open_from_unique _ _ _ _ _ Ho Ho') as [_ <-].
      unfold includes. simpl. by rewrite !bool_decide_true.
Qed.

(** Between a nested pair of starts and ends, and not after it. *)
Lemma inline_config_correct_witness :
  let src := str "sseexy" in
  let at_ i := {| loc_start := i; loc_end := S i |} in
  let items := [(at_ 3, DisableEnd); (at_ 0, DisableStart); (at_ 1, DisableStart); (at_ 2, DisableEnd)] in
  ∃ ranges, inline_config_new items src = Ret ranges ∧ is_disabled ranges (at_ 2) = true ∧
            ¬ is_disabled ranges (at_ 4) = true.
Proof.
  intros src at_ items.
  destruct (inline_config_correct items src) as (ranges & E & H).
  - repeat apply Forall_cons_2; [| | | |constructor].
    + by exists (str "sse"), (str "e"), (str "xy").
    + by exists (str ""), (str "s"), (str "seexy").
    + by exists (str "s"), (str "s"), (str "eexy").
    + by exists (str "ss"), (str "e"), (str "exy").
  - exists ranges. split; [exact E|]. split.
    + apply H. right. exists 0, (at_ 0). split; [vm_compute; lia|]. left. exists 3, (at_ 3).
      split; [|split; [done|]; split; [done|vm_compute; lia]].
      split; [done|]. split; [done|]. split; [lia|]. intros [|[|[|k]]] Hk; [done|done|done|lia].
    + vm_compute in E. injection E as <-. by vm_compute.
Defined.

(** A blank line after the comment: the range takes the line after it too. *)
Lemma next_line_takes_two :
  let nl := [c_newline] in
  next_line_range (str "//x" ++ nl ++ str "foo" ++ nl ++ str "bar") {| loc_start := 0; loc_end := 3 |} =
    Ret (Some {| dr_start := 4; dr_end := 8; dr_loose := false |}) ∧
  next_line_range (str "//x" ++ nl ++ nl ++ str "foo" ++ nl ++ str "bar") {| loc_start := 0; loc_end := 3 |} =
    Ret (Some {| dr_start := 4; dr_end := 9; dr_loose := false |}).
Proof. by vm_compute. Qed.

(** The last line of a file without a final newline is disabled only up to the
    end of the comment. *)
Lemma last_line_cut :
  line_range (str "/*x*/ab" ++ [c_newline]) {| loc_start := 0; loc_end := 5 |} =
    Ret (Some {| dr_start := 0; dr_end := 7; dr_loose := false |}) ∧
  line_range (str "/*x*/ab") {| loc_start := 0; loc_end := 5 |} =
    Ret (Some {| dr_start := 0; dr_end := 5; dr_loose := false |}).
Proof. by vm_compute. Qed.
