(* ===== verification/ExpectRevert.v ===== *)
(** * Expected and assumed reverts
    (crates/cheatcodes/src/test/revert_handlers.rs, crates/cheatcodes/src/test/assume.rs,
    the [expectRevert] cheatcodes and [expect_revert] of
    crates/cheatcodes/src/test/expect.rs, and the parts of [initialize_interp],
    [call_end] and [create_end_common] of crates/cheatcodes/src/inspector.rs that
    use them)

    A test announces that the next call reverts, or that a revert of it discards
    the run.  The inspector follows the calls below, notes who reverted, and at
    the end of the announced call compares the revert with what was announced
    and rewrites the outcome of the call. *)

From stdpp Require Import prelude list.
From S2P Require Import Prelude.

Abbreviation Bytes := (list Z).
Abbreviation Addr := Z.

(** ** Data *)

(** [InstructionResult] of the virtual machine, by the classes of its macros
    [return_ok!] and [return_revert!]; the number is the discriminant. *)
Inductive InstructionResult : Type :=
| Success (code : Z)
| Reverted (code : Z)
| Halted (code : Z).

Definition result_return : InstructionResult := Success 2.
Definition result_revert : InstructionResult := Reverted 16.

Definition result_is_ok (r : InstructionResult) : bool := match r with Success _ => true | _ => false end.
Definition result_is_revert (r : InstructionResult) : bool :=
  match r with Reverted _ => true | _ => false end.

Inductive ExpectedRevertKind : Type :=
| RKDefault
| RKCheatcode (pending_processing : bool).

Record ExpectedRevert := {
  er_reason : option Bytes;
  er_depth : nat;
  er_kind : ExpectedRevertKind;
  er_partial_match : bool;
  er_reverter : option Addr;
  er_reverted_by : option Addr;
  er_max_depth : nat;
  er_count : nat;
  er_actual_count : nat
}.

Record AcceptableRevertParameters := {
  ar_reason : Bytes;
  ar_partial_match : bool;
  ar_reverter : option Addr
}.

Record AssumeNoRevert := {
  an_depth : nat;
  an_reasons : list AcceptableRevertParameters;
  an_reverted_by : option Addr
}.

(** The trait [RevertParameters]. *)
Class RevertParameters (A : Type) := {
  rp_reverter : A → option Addr;
  rp_reason : A → option Bytes;
  rp_partial_match : A → bool
}.

#[export] Instance expected_revert_parameters : RevertParameters ExpectedRevert := {|
  rp_reverter := er_reverter;
  rp_reason := er_reason;
  rp_partial_match := er_partial_match
|}.

#[export] Instance acceptable_revert_parameters : RevertParameters AcceptableRevertParameters := {|
  rp_reverter := ar_reverter;
  rp_reason p := Some (ar_reason p);
  rp_partial_match := ar_partial_match
|}.

(** The messages, by what they are made of. *)
Inductive RevMessage : Type :=
| ReverterMismatch (actual expected : Addr)
| RevertedWithoutData
| ErrorMismatch (actual expected : Bytes)
| NotAtLowerDepth
| RevertedUnexpectedly
| GotReasonFrom (reason : Bytes) (from : Addr)
| GotReason (reason : Bytes)
| GotFrom (from : Addr)
| OtherReasonFrom (actual : Bytes) (by_ : Addr) (reason : Bytes) (from : Addr)
| OtherFrom (actual : Bytes) (by_ : Addr) (from : Addr)
| OtherReason (actual : Bytes)
| NextCallDidNotRevert
| SecondExpectedRevert
| SecondAssumeNoRevert.

(** An error is a message or raw bytes. *)
Inductive RevError : Type := EMessage (m : RevMessage) | EBytes (b : Bytes).

(** The ABI coder, the two error selectors, and the decoder of reverts when the
    contracts of the project are known. *)
Class RevertEnv := {
  abi_decode_bytes : Bytes → option Bytes;
  abi_decode_string : Bytes → option Bytes;
  known_decoder : option (Bytes → InstructionResult → Bytes);
  cheatcode_error_selector : Bytes;
  revert_selector : Bytes;
  encode_message : RevMessage → Bytes;
  magic_assume : Bytes
}.

Section handlers.
Context `{RevertEnv}.

Definition abi_encode (e : RevError) : Bytes :=
  match e with EMessage m => encode_message m | EBytes b => b end.

(** [get(..4)]. *)
Definition get4 (b : Bytes) : option Bytes := if bool_decide (4 ≤ length b) then Some (take 4 b) else None.

Definition decode_revert (revert : Bytes) : Bytes :=
  if match get4 revert with
     | Some s => bool_decide (s = cheatcode_error_selector) || bool_decide (s = revert_selector)
     | None => false
     end
  then default revert (abi_decode_bytes (drop 4 revert))
  else revert.

Definition hex_digit (d : Z) : Z := if (d <? 10)%Z then (48 + d)%Z else (87 + d)%Z.

Definition encode_prefixed (data : Bytes) : Bytes :=
  48%Z :: 120%Z :: (data ≫= λ b, [hex_digit (b / 16); hex_digit (b mod 16)]%Z).

Definition stringify (data : Bytes) : Bytes :=
  match abi_decode_string data with
  | Some s => s
  | None => if forallb (λ b, (b <? 128)%Z) data then data else encode_prefixed data
  end.

(** [memmem::find(..).is_some()]. *)
Fixpoint contains (needle hay : Bytes) : bool :=
  bool_decide (take (length needle) hay = needle) ||
  match hay with [] => false | _ :: hay => contains needle hay end.

(** The part of [handle_revert] for an expected reason. *)
Definition check_reason (is_cheatcode partial_match : bool) (expected_reason : Bytes)
    (status : InstructionResult) (retdata : Bytes) : result unit RevError :=
  if negb (bool_decide (expected_reason = [])) && bool_decide (retdata = [])
  then Err (EMessage RevertedWithoutData)
  else if partial_match && bool_decide (get4 retdata = get4 expected_reason) then Ok tt
  else
    let actual_revert := decode_revert retdata in
    if bool_decide (actual_revert = expected_reason) ||
       (is_cheatcode && contains expected_reason actual_revert)
    then Ok tt
    else
      let '(actual, expected) :=
        match known_decoder with
        | Some decode => (decode actual_revert status, decode expected_reason status)
        | None => (stringify actual_revert, stringify expected_reason)
        end in
      if bool_decide (expected = actual) then Ok tt
      else Err (EMessage (ErrorMismatch actual expected)).

Definition handle_revert {A} `{RevertParameters A} (is_cheatcode : bool) (params : A)
    (status : InstructionResult) (retdata : Bytes) (reverter : option Addr) : result unit RevError :=
  _ ←? match rp_reverter params, reverter with
       | Some expected, Some actual =>
           err_if (negb (bool_decide (expected = actual))) (EMessage (ReverterMismatch actual expected))
       | _, _ => Ok tt
       end;
  match rp_reason params with
  | None => Ok tt
  | Some expected_reason =>
      check_reason is_cheatcode (rp_partial_match params) expected_reason status retdata
  end.

Definition handle_assume_no_revert (a : AssumeNoRevert) (status : InstructionResult) (retdata : Bytes)
    : result unit RevError :=
  match an_reasons a with
  | [] => Ok tt
  | reasons =>
      if existsb (λ r, is_ok (handle_revert false r status retdata (an_reverted_by a))) reasons
      then Ok tt else Err (EBytes retdata)
  end.

Definition dummy_call_output : Bytes := replicate (Z.to_nat 8192) 0%Z.
Definition dummy_create_address : Addr := 1%Z.

Definition success_return (is_create : bool) : option Addr * Bytes :=
  if is_create then (Some dummy_create_address, []) else (None, dummy_call_output).

(** [expect_revert] with a count of zero. *)
Definition handle_no_revert (is_create : bool) (e : ExpectedRevert) (status : InstructionResult)
    (retdata : Bytes) : result (option Addr * Bytes) RevError :=
  match er_reverter e, er_reason e with
  | None, None =>
      if result_is_ok status then Ok (success_return is_create) else Err (EMessage RevertedUnexpectedly)
  | _, _ =>
      if result_is_ok status then Ok (success_return is_create)
      else
        let reverter_match :=
          match er_reverter e with
          | Some expected => Some (bool_decide (er_reverted_by e = Some expected))
          | None => None
          end in
        let decoded := decode_revert retdata in
        let reason_match := (λ r, bool_decide (decoded = r)) <$> er_reason e in
        let reason := default [] (er_reason e) in
        let by_ := default 0%Z (er_reverted_by e) in
        Err (EMessage
          match reason_match, reverter_match with
          | Some true, Some true => GotReasonFrom (stringify reason) (default 0%Z (er_reverter e))
          | Some true, None => GotReason (stringify reason)
          | None, Some true => GotFrom (default 0%Z (er_reverter e))
          | _, _ =>
              match er_reverter e, er_reason e with
              | Some from, Some _ => OtherReasonFrom (stringify decoded) by_ (stringify reason) from
              | Some from, None => OtherFrom (stringify decoded) by_ from
              | None, _ => OtherReason (stringify decoded)
              end
          end)
  end.

Definition handle_expect_revert (is_cheatcode is_create internal_expect_revert : bool)
    (e : ExpectedRevert) (status : InstructionResult) (retdata : Bytes)
    : result (option Addr * Bytes) RevError :=
  _ ←? err_if (negb is_cheatcode && negb internal_expect_revert &&
               negb (bool_decide (er_depth e < er_max_depth e))) (EMessage NotAtLowerDepth);
  if bool_decide (er_count e = 0) then handle_no_revert is_create e status retdata
  else
    _ ←? err_if (result_is_ok status) (EMessage NextCallDidNotRevert);
    _ ←? handle_revert is_cheatcode e status retdata (er_reverted_by e);
    Ok (success_return is_create).

(** ** The inspector *)

Record RevertState := {
  rs_expected : option ExpectedRevert;
  rs_assume : option AssumeNoRevert;
  rs_internal : bool
}.

Definition with_expected (s : RevertState) (e : option ExpectedRevert) : RevertState :=
  {| rs_expected := e; rs_assume := rs_assume s; rs_internal := rs_internal s |}.

Definition with_assume (s : RevertState) (a : option AssumeNoRevert) : RevertState :=
  {| rs_expected := rs_expected s; rs_assume := a; rs_internal := rs_internal s |}.

Definition with_reverted_by (e : ExpectedRevert) (by_ : Addr) : ExpectedRevert :=
  {| er_reason := er_reason e; er_depth := er_depth e; er_kind := er_kind e;
     er_partial_match := er_partial_match e; er_reverter := er_reverter e; er_reverted_by := Some by_;
     er_max_depth := er_max_depth e; er_count := er_count e; er_actual_count := er_actual_count e |}.

Definition with_kind (e : ExpectedRevert) (k : ExpectedRevertKind) : ExpectedRevert :=
  {| er_reason := er_reason e; er_depth := er_depth e; er_kind := k;
     er_partial_match := er_partial_match e; er_reverter := er_reverter e;
     er_reverted_by := er_reverted_by e; er_max_depth := er_max_depth e; er_count := er_count e;
     er_actual_count := er_actual_count e |}.

Definition with_max_depth (e : ExpectedRevert) (d : nat) : ExpectedRevert :=
  {| er_reason := er_reason e; er_depth := er_depth e; er_kind := er_kind e;
     er_partial_match := er_partial_match e; er_reverter := er_reverter e;
     er_reverted_by := er_reverted_by e; er_max_depth := d; er_count := er_count e;
     er_actual_count := er_actual_count e |}.

Definition count_up (e : ExpectedRevert) : ExpectedRevert :=
  {| er_reason := er_reason e; er_depth := er_depth e; er_kind := er_kind e;
     er_partial_match := er_partial_match e; er_reverter := er_reverter e;
     er_reverted_by := er_reverted_by e; er_max_depth := er_max_depth e; er_count := er_count e;
     er_actual_count := er_actual_count e + 1 |}.

Definition expect_revert (s : RevertState) (reason : option Bytes) (depth : nat)
    (cheatcode partial_match : bool) (reverter : option Addr) (count : nat)
    : result RevertState RevError :=
  match rs_expected s with
  | Some _ => Err (EMessage SecondExpectedRevert)
  | None =>
      Ok (with_expected s (Some
        {| er_reason := reason; er_depth := depth;
           er_kind := if cheatcode then RKCheatcode true else RKDefault;
           er_partial_match := partial_match; er_reverter := reverter; er_reverted_by := None;
           er_max_depth := depth; er_count := count; er_actual_count := 0 |}))
  end.

Definition assume_no_revert (s : RevertState) (depth : nat)
    (parameters : list AcceptableRevertParameters) : result RevertState RevError :=
  match rs_assume s with
  | Some _ => Err (EMessage SecondAssumeNoRevert)
  | None =>
      Ok (with_assume s (Some {| an_depth := depth; an_reasons := parameters; an_reverted_by := None |}))
  end.

(** The cheatcodes; the data of 1 and 2, 4 and 5, 7 and 8, 10 and 11 differ only
    in their Solidity type ([bytes4] or [bytes]). *)
Inductive ExpectRevertCall : Type :=
| expectRevert_0
| expectRevert_1 (revertData : Bytes)
| expectRevert_2 (revertData : Bytes)
| expectRevert_3 (reverter : Addr)
| expectRevert_4 (revertData : Bytes) (reverter : Addr)
| expectRevert_5 (revertData : Bytes) (reverter : Addr)
| expectRevert_6 (count : nat)
| expectRevert_7 (revertData : Bytes) (count : nat)
| expectRevert_8 (revertData : Bytes) (count : nat)
| expectRevert_9 (reverter : Addr) (count : nat)
| expectRevert_10 (revertData : Bytes) (reverter : Addr) (count : nat)
| expectRevert_11 (revertData : Bytes) (reverter : Addr) (count : nat)
| expectPartialRevert_0 (revertData : Bytes)
| expectPartialRevert_1 (revertData : Bytes) (reverter : Addr)
| expectCheatcodeRevert_0
| expectCheatcodeRevert_1 (revertData : Bytes)
| expectCheatcodeRevert_2 (revertData : Bytes).

Definition apply_expect_revert (c : ExpectRevertCall) (depth : nat) (s : RevertState)
    : result RevertState RevError :=
  match c with
  | expectRevert_0 => expect_revert s None depth false false None 1
  | expectRevert_1 d | expectRevert_2 d => expect_revert s (Some d) depth false false None 1
  | expectRevert_3 r => expect_revert s None depth false false (Some r) 1
  | expectRevert_4 d r | expectRevert_5 d r => expect_revert s (Some d) depth false false (Some r) 1
  | expectRevert_6 n => expect_revert s None depth false false None n
  | expectRevert_7 d n | expectRevert_8 d n => expect_revert s (Some d) depth false false None n
  | expectRevert_9 r n => expect_revert s None depth false false (Some r) n
  | expectRevert_10 d r n | expectRevert_11 d r n =>
      expect_revert s (Some d) depth false false (Some r) n
  | expectPartialRevert_0 d => expect_revert s (Some d) depth false true None 1
  | expectPartialRevert_1 d r => expect_revert s (Some d) depth false true (Some r) 1
  | expectCheatcodeRevert_0 => expect_revert s None depth true false None 1
  | expectCheatcodeRevert_1 d | expectCheatcodeRevert_2 d => expect_revert s (Some d) depth true false None 1
  end.

(** [AcceptableRevertParameters::from]. *)
Record PotentialRevert := { pr_reverter : Addr; pr_partialMatch : bool; pr_revertData : Bytes }.

Definition acceptable_from (p : PotentialRevert) : AcceptableRevertParameters :=
  {| ar_reason := pr_revertData p; ar_partial_match := pr_partialMatch p;
     ar_reverter := if bool_decide (pr_reverter p = 0%Z) then None else Some (pr_reverter p) |}.

Inductive AssumeCall : Type :=
| assumeNoRevert_0
| assumeNoRevert_1 (potentialRevert : PotentialRevert)
| assumeNoRevert_2 (potentialReverts : list PotentialRevert).

Definition apply_assume (c : AssumeCall) (depth : nat) (s : RevertState) : result RevertState RevError :=
  match c with
  | assumeNoRevert_0 => assume_no_revert s depth []
  | assumeNoRevert_1 p => assume_no_revert s depth [acceptable_from p]
  | assumeNoRevert_2 ps => assume_no_revert s depth (acceptable_from <$> ps)
  end.

(** [initialize_interp]: the deepest frame so far. *)
Definition track_depth (s : RevertState) (depth : nat) : RevertState :=
  with_expected s ((λ e, with_max_depth e (Nat.max depth (er_max_depth e))) <$> rs_expected s).

Record CallOutcome := { co_result : InstructionResult; co_output : Bytes }.

Definition fail_with (e : RevError) : CallOutcome :=
  {| co_result := result_revert; co_output := abi_encode e |}.

(** The [assumeNoRevert] part of [call_end]: the new state, and the outcome with
    which the hook returns, if it does. *)
Definition end_assume (s : RevertState) (depth : nat) (target : Addr) (cheatcode_call : bool)
    (o : CallOutcome) : RevertState * option CallOutcome :=
  match rs_assume s with
  | None => (s, None)
  | Some a =>
      let a := if result_is_revert (co_result o) && bool_decide (an_reverted_by a = None)
               then {| an_depth := an_depth a; an_reasons := an_reasons a; an_reverted_by := Some target |}
               else a in
      if bool_decide (depth ≤ an_depth a) && negb cheatcode_call then
        if result_is_revert (co_result o) then
          (with_assume s None,
           Some (match handle_assume_no_revert a (co_result o) (co_output o) with
                 | Ok _ => {| co_result := co_result o; co_output := magic_assume |}
                 | Err e => fail_with e
                 end))
        else (with_assume s None, None)
      else (with_assume s (Some a), None)
  end.

(** The result of a handled revert, with the expectation that stays. *)
Definition settle (s : RevertState) (e : ExpectedRevert) (r : result (option Addr * Bytes) RevError)
    : RevertState * CallOutcome * option Addr :=
  match r with
  | Err err => (with_expected s None, fail_with err, None)
  | Ok (address, retdata) =>
      let e := count_up e in
      (with_expected s (if bool_decide (er_actual_count e < er_count e) then Some e else None),
       {| co_result := result_return; co_output := retdata |}, address)
  end.

(** The [expectRevert] part of [call_end]. *)
Definition end_expected (s : RevertState) (depth : nat) (target : Addr) (cheatcode_call : bool)
    (o : CallOutcome) : RevertState * option CallOutcome :=
  match rs_expected s with
  | None => (s, None)
  | Some e =>
      let e := if result_is_revert (co_result o) && bool_decide (is_Some (er_reverter e)) &&
                  (bool_decide (er_reverted_by e = None) || bool_decide (1 < er_count e))
               then with_reverted_by e target else e in
      if bool_decide (depth ≤ er_depth e) then
        let needs_processing :=
          match er_kind e with
          | RKDefault => negb cheatcode_call
          | RKCheatcode pending => cheatcode_call && negb pending
          end in
        if needs_processing then
          let '(s, o, _) :=
            settle s e (handle_expect_revert cheatcode_call false (rs_internal s) e (co_result o) (co_output o)) in
          (s, Some o)
        else
          (with_expected s (Some (match er_kind e with
                                  | RKCheatcode _ => with_kind e (RKCheatcode false)
                                  | RKDefault => e
                                  end)), None)
      else (with_expected s (Some e), None)
  end.

(** Both, in the order of [call_end]. *)
Definition end_call (s : RevertState) (depth : nat) (target : Addr) (cheatcode_call : bool)
    (o : CallOutcome) : RevertState * CallOutcome :=
  match end_assume s depth target cheatcode_call o with
  | (s, Some o) => (s, o)
  | (s, None) =>
      match end_expected s depth target cheatcode_call o with
      | (s, Some o) => (s, o)
      | (s, None) => (s, o)
      end
  end.

(** The [expectRevert] part of [create_end_common]: the outcome and the address. *)
Definition end_create (s : RevertState) (depth : nat) (o : CallOutcome) (address : option Addr)
    : RevertState * CallOutcome * option Addr :=
  match rs_expected s with
  | Some e =>
      if bool_decide (depth ≤ er_depth e) && match er_kind e with RKDefault => true | _ => false end then
        match settle s e (handle_expect_revert false true (rs_internal s) e (co_result o) (co_output o)) with
        | (s, o, Some a) => (s, o, Some a)
        | (s, o, None) => (s, o, address)
        end
      else (s, o, address)
  | None => (s, o, address)
  end.

(** ** Runs *)

Inductive RevertEvent : Type :=
| RvFrame (depth : nat)
| RvCallEnd (depth : nat) (target : Addr) (cheatcode_call : bool) (o : CallOutcome)
| RvCreateEnd (depth : nat) (o : CallOutcome) (address : option Addr).

(** The state and the outcome as the virtual machine goes on with it. *)
Definition revert_step (s : RevertState) (ev : RevertEvent) : RevertState * option CallOutcome :=
  match ev with
  | RvFrame depth => (track_depth s depth, None)
  | RvCallEnd depth target cheatcode_call o =>
      let '(s, o) := end_call s depth target cheatcode_call o in (s, Some o)
  | RvCreateEnd depth o address => let '(s, o, _) := end_create s depth o address in (s, Some o)
  end.

Fixpoint revert_run (s : RevertState) (evs : list RevertEvent) : RevertState :=
  match evs with [] => s | ev :: evs => revert_run (revert_step s ev).1 evs end.
End handlers.

(** ** What is expected *)

Section spec.
Context `{RevertEnv}.

(** Two errors are the same, or are shown the same. *)
Definition same_error (status : InstructionResult) (actual expected : Bytes) : Prop :=
  actual = expected ∨
  match known_decoder with
  | Some decode => decode expected status = decode actual status
  | None => stringify expected = stringify actual
  end.

Definition reason_accepts (reason : Bytes) (partial_match : bool) (status : InstructionResult)
    (data : Bytes) : Prop :=
  (reason ≠ [] → data ≠ []) ∧
  ((partial_match = true ∧ get4 data = get4 reason) ∨ same_error status (decode_revert data) reason).

(** A revert with data [data] by [by_] is the expected one. *)
Definition accepts (reverter : option Addr) (reason : option Bytes) (partial_match : bool)
    (status : InstructionResult) (data : Bytes) (by_ : option Addr) : Prop :=
  (∀ r a, reverter = Some r → by_ = Some a → r = a) ∧
  (∀ reason', reason = Some reason' → reason_accepts reason' partial_match status data).

Lemma check_reason_spec reason partial_match status data :
  is_ok (check_reason false partial_match reason status data) = true ↔
  reason_accepts reason partial_match status data.
Proof.
  unfold check_reason, reason_accepts, same_error.
  destruct (decide (reason ≠ [] ∧ data = [])) as [[Hr Hd]|Hn].
  { rewrite (bool_decide_false (reason = [])), (bool_decide_true (data = [])) by done. simpl.
    split; [done|]. intros [H1 _]. by destruct (H1 Hr). }
  assert (negb (bool_decide (reason = [])) && bool_decide (data = []) = false) as ->.
  { apply andb_false_iff. rewrite negb_false_iff, bool_decide_eq_true, bool_decide_eq_false.
    destruct (decide (reason = [])); [auto|]. right. tauto. }
  destruct (partial_match && bool_decide (get4 data = get4 reason)) eqn:Ep; simpl.
  { apply andb_true_iff in Ep as [-> Eg%bool_decide_eq_true]. split; [|done]. intros _.
    split; [tauto|]. by left. }
  rewrite andb_false_iff, bool_decide_eq_false in Ep. rewrite orb_false_r.
  destruct (decide (decode_revert data = reason)) as [Ed|Ed].
  { rewrite bool_decide_true by done. split; [|done]. intros _. split; [tauto|]. auto. }
  rewrite bool_decide_false by done.
  destruct known_decoder; case_bool_decide; simpl; (split; [intros ?|intros [_ H1]]; try done);
    [split; [tauto|auto]| |split; [tauto|auto]|];
    destruct H1 as [[-> ?]|[?|?]]; destruct Ep; done.
Qed.

Lemma handle_revert_spec {A} `{RevertParameters A} (p : A) status data by_ :
  is_ok (handle_revert false p status data by_) = true ↔
  accepts (rp_reverter p) (rp_reason p) (rp_partial_match p) status data by_.
Proof.
  unfold handle_revert, accepts.
  assert (is_ok (match rp_reason p with
                 | Some r => check_reason false (rp_partial_match p) r status data
                 | None => Ok tt end) = true ↔
    (∀ r, rp_reason p = Some r → reason_accepts r (rp_partial_match p) status data)) as E.
  { destruct (rp_reason p) as [r|]; [|done]. rewrite check_reason_spec. naive_solver. }
  destruct (rp_reverter p) as [r|], by_ as [a|]; simpl; [case_bool_decide; simpl|..];
    rewrite ?E; naive_solver.
Qed.
End spec.

(** ** Rounds *)

Section rounds.
Context `{RevertEnv}.

(** A call at the depth of the cheatcode, with what happens before it ends. *)
Record Round := {
  rd_inner : list RevertEvent;
  rd_depth : nat;
  rd_target : Addr;
  rd_outcome : CallOutcome
}.

(** Below the call, or calls of cheatcodes. *)
Definition below (d : nat) (ev : RevertEvent) : Prop :=
  match ev with
  | RvFrame _ => True
  | RvCallEnd k _ cheatcode_call _ => d < k ∨ cheatcode_call = true
  | RvCreateEnd k _ _ => d < k
  end.

Record round_wf (d : nat) (r : Round) : Prop := {
  rw_below : Forall (below d) (rd_inner r);
  rw_frame : ∃ k, d < k ∧ RvFrame k ∈ rd_inner r;
  rw_depth : rd_depth r ≤ d
}.

Fixpoint run_rounds (s : RevertState) (rounds : list Round) : list CallOutcome :=
  match rounds with
  | [] => []
  | r :: rounds =>
      let '(s, o) := end_call (revert_run s (rd_inner r)) (rd_depth r) (rd_target r) false (rd_outcome r) in
      o :: run_rounds s rounds
  end.

(** The contracts whose calls reverted, in the order of the ends of the calls. *)
Definition reverters (evs : list RevertEvent) : list Addr :=
  omap (λ ev, match ev with
              | RvCallEnd _ target _ o => if result_is_revert (co_result o) then Some target else None
              | _ => None
              end) evs.

Definition round_reverters (r : Round) : list Addr :=
  reverters (rd_inner r ++ [RvCallEnd (rd_depth r) (rd_target r) false (rd_outcome r)]).

(** Who is taken to be the reverter: the first for one expected revert, the last
    for several. *)
Definition blamed (count : nat) (seen : list Addr) : option Addr :=
  if decide (count ≤ 1) then head seen else last seen.

(** The parameters of an expected revert. *)
Record Expectation := {
  ex_reason : option Bytes;
  ex_partial_match : bool;
  ex_reverter : option Addr;
  ex_count : nat
}.

Definition meets (x : Expectation) (seen : list Addr) (r : Round) : Prop :=
  result_is_ok (co_result (rd_outcome r)) = false ∧
  (∀ a, ex_reverter x = Some a → blamed (ex_count x) (seen ++ round_reverters r) = Some a) ∧
  (∀ reason, ex_reason x = Some reason →
     reason_accepts reason (ex_partial_match x) (co_result (rd_outcome r)) (co_output (rd_outcome r))).

(** A call that fails does so by a revert, if a reverter is asked for: a halted
    call (out of gas, an invalid opcode) has no reverter that could be compared. *)
Definition blames (x : Expectation) (r : Round) : Prop :=
  is_Some (ex_reverter x) → result_is_ok (co_result (rd_outcome r)) = false →
  result_is_revert (co_result (rd_outcome r)) = true.

(** After a revert there is one to blame. *)
Lemma blamed_some count seen a : is_Some (blamed count (seen ++ [a])).
Proof. unfold blamed. case_decide; [by destruct seen; eexists|rewrite last_snoc; by eexists]. Qed.

Lemma meets_accepts x seen r :
  blames x r →
  meets x seen r ↔
    result_is_ok (co_result (rd_outcome r)) = false ∧
    accepts (ex_reverter x) (ex_reason x) (ex_partial_match x) (co_result (rd_outcome r))
      (co_output (rd_outcome r)) (blamed (ex_count x) (seen ++ round_reverters r)).
Proof.
  intros Hb. unfold meets, accepts. split; intros (Hok & Hr & Hd); (split; [done|]); (split; [|done]).
  - intros a b Ha Hbl. rewrite (Hr a Ha) in Hbl. congruence.
  - intros a Ha. assert (result_is_revert (co_result (rd_outcome r)) = true) as E by (apply Hb; [by eexists|done]).
    unfold round_reverters, reverters in *. rewrite omap_app in *. simpl in *. rewrite E, app_assoc in *.
    destruct (blamed_some (ex_count x) (seen ++ reverters (rd_inner r)) (rd_target r)) as [b Hs].
    unfold reverters in Hs. rewrite Hs in *. by rewrite (Hr a b Ha eq_refl).
Qed.

(** The outcomes of calls of which [n] more are expected to revert. *)
Inductive rounds_spec (x : Expectation) : nat → list Addr → list Round → list CallOutcome → Prop :=
| rounds_over seen rounds : rounds_spec x 0 seen rounds (rd_outcome <$> rounds)
| rounds_end n seen : rounds_spec x n seen [] []
| rounds_met n seen r rounds os :
    meets x seen r → rounds_spec x n (seen ++ round_reverters r) rounds os →
    rounds_spec x (S n) seen (r :: rounds)
      ({| co_result := result_return; co_output := dummy_call_output |} :: os)
| rounds_unmet n seen r rounds err :
    ¬ meets x seen r →
    rounds_spec x (S n) seen (r :: rounds) (fail_with err :: (rd_outcome <$> rounds)).

(** The expectation while calls are seen. *)
Definition expected_at (x : Expectation) (d k md : nat) (seen : list Addr) : ExpectedRevert :=
  {| er_reason := ex_reason x; er_depth := d; er_kind := RKDefault;
     er_partial_match := ex_partial_match x; er_reverter := ex_reverter x;
     er_reverted_by := match ex_reverter x with Some _ => blamed (ex_count x) seen | None => None end;
     er_max_depth := md; er_count := ex_count x; er_actual_count := k |}.

(** A revert is recorded. *)
Lemma record_revert x d k md seen (o : CallOutcome) target :
  (if result_is_revert (co_result o) && bool_decide (is_Some (ex_reverter x)) &&
      (bool_decide (er_reverted_by (expected_at x d k md seen) = None) || bool_decide (1 < ex_count x))
   then with_reverted_by (expected_at x d k md seen) target else expected_at x d k md seen) =
  expected_at x d k md (seen ++ if result_is_revert (co_result o) then [target] else []).
Proof.
  destruct (result_is_revert (co_result o)); simpl; [|by rewrite app_nil_r].
  destruct (ex_reverter x) as [r|] eqn:Er; simpl; [|by unfold expected_at; rewrite Er].
  unfold with_reverted_by, expected_at, blamed. simpl. rewrite Er.
  case_decide as Hc.
  - rewrite (bool_decide_false (1 < _)), orb_false_r by lia. destruct seen as [|a seen]; simpl; done.
  - rewrite (bool_decide_true (1 < _)), orb_true_r by lia. by rewrite last_snoc.
Qed.

Lemma end_call_below x s d k md seen depth target cheatcode_call o :
  rs_assume s = None → d < depth ∨ cheatcode_call = true →
  (end_call (with_expected s (Some (expected_at x d k md seen))) depth target cheatcode_call o).1 =
    with_expected s (Some (expected_at x d k md
      (seen ++ if result_is_revert (co_result o) then [target] else []))).
Proof.
  intros Ha Hd. unfold end_call, end_assume. simpl. rewrite Ha. unfold end_expected.
  cbn [rs_expected with_expected er_reverter expected_at er_count]. rewrite (record_revert x d k md seen o target).
  case_bool_decide as Hle; [|done]. simpl in Hle. destruct Hd as [?| ->]; [lia|done].
Qed.

Lemma run_below x s d k md seen evs :
  rs_assume s = None → Forall (below d) evs →
  ∃ md', revert_run (with_expected s (Some (expected_at x d k md seen))) evs =
           with_expected s (Some (expected_at x d k md' (seen ++ reverters evs))) ∧
    md ≤ md' ∧ (∀ j, RvFrame j ∈ evs → j ≤ md').
Proof.
  intros Ha Hev. revert md seen. induction Hev as [|ev evs Hev _ IH]; intros md seen.
  { exists md. simpl. rewrite app_nil_r. split; [done|]. split; [done|]. by intros j ?%not_elem_of_nil. }
  destruct ev as [j|depth target cheatcode_call o|depth o address]; simpl in Hev.
  - destruct (IH (Nat.max j md) seen) as (md' & E & Hmd & Hf). exists md'.
    change (reverters (RvFrame j :: evs)) with (reverters evs). split; [exact E|]. split; [lia|].
    intros i [[= ->]|Hi]%elem_of_cons; [lia|by apply Hf].
  - cbn [revert_run revert_step].
    pose proof (end_call_below x s d k md seen depth target cheatcode_call o Ha Hev) as E1.
    destruct (end_call _ depth target cheatcode_call o) as [s1 o1]. simpl in *. subst s1.
    destruct (IH md (seen ++ if result_is_revert (co_result o) then [target] else [])) as (md' & E & Hmd & Hf).
    exists md'. split; [|split; [done|]].
    + rewrite E, <-app_assoc. unfold reverters at 2. simpl.
      by destruct (result_is_revert (co_result o)).
    + intros i [?|Hi]%elem_of_cons; [done|by apply Hf].
  - cbn [revert_run revert_step]. unfold end_create. simpl.
    rewrite bool_decide_false by lia. simpl.
    destruct (IH md seen) as (md' & E & Hmd & Hf). exists md'. split; [exact E|]. split; [done|].
    intros i [?|Hi]%elem_of_cons; [done|by apply Hf].
Qed.

(** Without an expectation the outcomes are left alone. *)
Definition idle (s : RevertState) : Prop := rs_expected s = None ∧ rs_assume s = None.

Lemma end_call_idle s depth target cheatcode_call o :
  idle s → end_call s depth target cheatcode_call o = (s, o).
Proof. intros [He Ha]. unfold end_call, end_assume, end_expected. by rewrite Ha, He. Qed.

Lemma run_idle s evs : idle s → idle (revert_run s evs).
Proof.
  revert s. induction evs as [|ev evs IH]; intros s Hs; [done|]. simpl. apply IH.
  destruct ev; simpl; [| |by unfold end_create; rewrite (proj1 Hs)].
  - destruct Hs as [He Ha]. unfold track_depth. rewrite He. done.
  - by rewrite end_call_idle.
Qed.

Lemma rounds_idle s rounds : idle s → run_rounds s rounds = rd_outcome <$> rounds.
Proof.
  revert s. induction rounds as [|r rounds IH]; intros s Hs; [done|]. simpl.
  rewrite end_call_idle by (by apply run_idle). f_equal. apply IH. by apply run_idle.
Qed.

(** The end of an announced call. *)
Lemma end_call_round x s d k md seen r :
  rs_assume s = None → 0 < ex_count x → d < md → rd_depth r ≤ d →
  let seen' := seen ++ if result_is_revert (co_result (rd_outcome r)) then [rd_target r] else [] in
  let met := result_is_ok (co_result (rd_outcome r)) = false ∧
    accepts (ex_reverter x) (ex_reason x) (ex_partial_match x) (co_result (rd_outcome r))
      (co_output (rd_outcome r)) (blamed (ex_count x) seen') in
  let res := end_call (with_expected s (Some (expected_at x d k md seen)))
               (rd_depth r) (rd_target r) false (rd_outcome r) in
  (met ∧ res = (with_expected s (if bool_decide (k + 1 < ex_count x)
                                 then Some (expected_at x d (k + 1) md seen') else None),
                {| co_result := result_return; co_output := dummy_call_output |})) ∨
  (¬ met ∧ ∃ err, res = (with_expected s None, fail_with err)).
Proof.
  intros Ha Hc Hmd Hd seen' met res. unfold res, end_call, end_assume. simpl. rewrite Ha.
  unfold end_expected. cbn [rs_expected with_expected er_reverter expected_at er_count].
  rewrite (record_revert x d k md seen (rd_outcome r) (rd_target r)). fold seen'.
  rewrite bool_decide_true by done. cbn [er_kind expected_at negb].
  unfold handle_expect_revert. cbn [er_depth er_max_depth expected_at er_count].
  rewrite (bool_decide_true (d < md)), andb_false_r by done. simpl.
  rewrite bool_decide_false by lia.
  destruct (result_is_ok (co_result (rd_outcome r))) eqn:Eok; simpl.
  { right. split; [by intros [? _]|]. by eexists. }
  pose proof (handle_revert_spec (expected_at x d k md seen') (co_result (rd_outcome r))
    (co_output (rd_outcome r)) (er_reverted_by (expected_at x d k md seen'))) as Hs.
  assert (accepts (ex_reverter x) (ex_reason x) (ex_partial_match x) (co_result (rd_outcome r))
    (co_output (rd_outcome r)) (er_reverted_by (expected_at x d k md seen')) ↔
    accepts (ex_reverter x) (ex_reason x) (ex_partial_match x) (co_result (rd_outcome r))
      (co_output (rd_outcome r)) (blamed (ex_count x) seen')) as Hb.
  { simpl. destruct (ex_reverter x); [done|]. unfold accepts. naive_solver. }
  cbn [rp_reverter rp_reason rp_partial_match expected_revert_parameters er_reverter er_reason
    er_partial_match expected_at] in Hs. rewrite Hb in Hs.
  destruct (handle_revert false _ _ _ _) as [[]|err] eqn:Eh; cbn [and_then is_ok settle] in *.
  - left. split; [split; [done|by apply Hs]|]. reflexivity.
  - right. split; [|by eexists]. intros [_ Hm]. by apply Hs in Hm.
Qed.

Lemma rounds_run x s d k md seen rounds :
  rs_assume s = None → k < ex_count x → Forall (round_wf d) rounds → Forall (blames x) rounds →
  rounds_spec x (ex_count x - k) seen rounds
    (run_rounds (with_expected s (Some (expected_at x d k md seen))) rounds).
Proof.
  intros Ha Hk Hr. revert k md seen Hk. induction Hr as [|r rounds [Hb [j [Hj Hf]] Hd] _ IH];
    intros k md seen Hk Hbl; [constructor|]. apply Forall_cons in Hbl as [Hbl Hbls]. cbn [run_rounds].
  destruct (run_below x s d k md seen (rd_inner r) Ha Hb) as (md' & -> & _ & Hmd).
  specialize (Hmd j Hf). replace (ex_count x - k) with (S (ex_count x - (k + 1))) by lia.
  assert ((seen ++ reverters (rd_inner r)) ++
    (if result_is_revert (co_result (rd_outcome r)) then [rd_target r] else []) =
    seen ++ round_reverters r) as Es.
  { rewrite <-app_assoc. f_equal. unfold round_reverters, reverters. rewrite omap_app. simpl.
    by destruct (result_is_revert _). }
  destruct (end_call_round x s d k md' (seen ++ reverters (rd_inner r)) r Ha) as
    [[Hm ->]|[Hm [err ->]]]; [lia|lia|done| |]; rewrite Es in *; rewrite <-meets_accepts in Hm by done.
  - apply rounds_met; [done|]. case_bool_decide as Hc; [by apply IH|].
    replace (ex_count x - (k + 1)) with 0 by lia. rewrite rounds_idle by done. constructor.
  - rewrite rounds_idle by done. by apply rounds_unmet.
Qed.
End rounds.

(** ** Properties *)

(** The parameters of a cheatcode that expects the next calls to revert. *)
Definition call_expectation (c : ExpectRevertCall) : option Expectation :=
  match c with
  | expectRevert_0 => Some (Build_Expectation None false None 1)
  | expectRevert_1 d | expectRevert_2 d => Some (Build_Expectation (Some d) false None 1)
  | expectRevert_3 r => Some (Build_Expectation None false (Some r) 1)
  | expectRevert_4 d r | expectRevert_5 d r => Some (Build_Expectation (Some d) false (Some r) 1)
  | expectRevert_6 n => Some (Build_Expectation None false None n)
  | expectRevert_7 d n | expectRevert_8 d n => Some (Build_Expectation (Some d) false None n)
  | expectRevert_9 r n => Some (Build_Expectation None false (Some r) n)
  | expectRevert_10 d r n | expectRevert_11 d r n => Some (Build_Expectation (Some d) false (Some r) n)
  | expectPartialRevert_0 d => Some (Build_Expectation (Some d) true None 1)
  | expectPartialRevert_1 d r => Some (Build_Expectation (Some d) true (Some r) 1)
  | expectCheatcodeRevert_0 | expectCheatcodeRevert_1 _ | expectCheatcodeRevert_2 _ => None
  end.

(** C13: after a cheatcode that expects a positive number of reverts, with nothing
    else announced, each of that many next calls from its depth must fail, with
    the expected data (or its selector, for a partial match) and, if a reverter is
    named, by it: the contract that is blamed, the first that reverted for one
    expected revert and the last for several, is the one named; whatever happens
    below it and whatever cheatcodes are called in between.  The calls are calls
    (not creations) that open a deeper frame, and if a reverter is named those of
    them that fail do so by a revert and not by a halt.  A call that does is turned into a successful one with dummy
    data, the first one that does not fails the test and ends the expectation,
    and every call after that, or after the last expected one, is left as it is. *)
Theorem expect_revert_correct `{RevertEnv} (c : ExpectRevertCall) (x : Expectation) (d : nat)
    (s : RevertState) (rounds : list Round) :
  idle s → call_expectation c = Some x → 0 < ex_count x → Forall (round_wf d) rounds → Forall (blames x) rounds →
  ∃ s', apply_expect_revert c d s = Ok s' ∧
    rounds_spec x (ex_count x) [] rounds (run_rounds s' rounds).
Proof.
  intros [He Ha] Hx Hc Hr Hb. exists (with_expected s (Some (expected_at x d 0 d []))). split.
  - destruct c; simplify_eq/=; unfold expect_revert; rewrite He; try done;
      unfold expected_at, blamed; simpl; by case_decide.
  - replace (ex_count x) with (ex_count x - 0) at 1 by lia. by apply rounds_run.
Qed.

(** *** Assumptions *)

Section assume.
Context `{RevertEnv}.

Definition assume_at (d : nat) (reasons : list AcceptableRevertParameters) (seen : list Addr)
    : AssumeNoRevert :=
  {| an_depth := d; an_reasons := reasons; an_reverted_by := head seen |}.

Lemma record_assume d reasons seen (o : CallOutcome) target :
  (if result_is_revert (co_result o) && bool_decide (an_reverted_by (assume_at d reasons seen) = None)
   then {| an_depth := an_depth (assume_at d reasons seen); an_reasons := an_reasons (assume_at d reasons seen);
           an_reverted_by := Some target |}
   else assume_at d reasons seen) =
  assume_at d reasons (seen ++ if result_is_revert (co_result o) then [target] else []).
Proof.
  destruct (result_is_revert (co_result o)); simpl; [|by rewrite app_nil_r]. by destruct seen.
Qed.

Lemma assume_below s d reasons seen evs :
  rs_expected s = None → Forall (below d) evs →
  revert_run (with_assume s (Some (assume_at d reasons seen))) evs =
    with_assume s (Some (assume_at d reasons (seen ++ reverters evs))).
Proof.
  intros He Hev. revert seen. induction Hev as [|ev evs Hev _ IH]; intros seen.
  { simpl. by rewrite app_nil_r. }
  destruct ev as [j|depth target cheatcode_call o|depth o address]; simpl in Hev; cbn [revert_run revert_step].
  - unfold track_depth. simpl. rewrite He. simpl.
    change (reverters (RvFrame j :: evs)) with (reverters evs). rewrite <-IH. f_equal.
    unfold with_expected, with_assume. simpl. by rewrite He.
  - unfold end_call, end_assume. cbn [rs_assume with_assume]. rewrite record_assume.
    assert (bool_decide (depth ≤ d) && negb cheatcode_call = false) as Hb.
    { destruct Hev as [?| ->]; [by rewrite bool_decide_false by lia|apply andb_false_r]. }
    cbn [an_depth assume_at]. rewrite Hb. unfold end_expected. simpl. rewrite He.
    change (with_assume (with_assume s (Some (assume_at d reasons seen)))) with (with_assume s).
    cbn [fst]. rewrite IH, <-app_assoc. unfold reverters at 2. simpl.
    by destruct (result_is_revert (co_result o)).
  - unfold end_create. simpl. rewrite He. simpl. by rewrite IH.
Qed.

(** The reasons of a cheatcode that discards runs in which the next call reverts. *)
Definition call_reasons (c : AssumeCall) : list AcceptableRevertParameters :=
  match c with
  | assumeNoRevert_0 => []
  | assumeNoRevert_1 p => [acceptable_from p]
  | assumeNoRevert_2 ps => acceptable_from <$> ps
  end.

Definition anticipated (reasons : list AcceptableRevertParameters) (o : CallOutcome)
    (by_ : option Addr) : Prop :=
  reasons = [] ∨
  Exists (λ p, accepts (ar_reverter p) (Some (ar_reason p)) (ar_partial_match p) (co_result o)
                 (co_output o) by_) reasons.

Lemma handle_assume_spec d reasons seen o :
  is_ok (handle_assume_no_revert (assume_at d reasons seen) (co_result o) (co_output o)) = true ↔
  anticipated reasons o (head seen).
Proof.
  assert (∀ l, existsb (λ r, is_ok (handle_revert false r (co_result o) (co_output o) (head seen))) l = true ↔
    Exists (λ p, accepts (ar_reverter p) (Some (ar_reason p)) (ar_partial_match p) (co_result o)
                   (co_output o) (head seen)) l) as E.
  { intros l. rewrite existsb_exists, Exists_exists. setoid_rewrite list_elem_of_In.
    by setoid_rewrite (handle_revert_spec (A := AcceptableRevertParameters)). }
  unfold handle_assume_no_revert, anticipated. cbn [an_reasons an_reverted_by assume_at].
  destruct reasons as [|p reasons]; [split; [by left|done]|]. rewrite <-E.
  destruct (existsb _ (p :: reasons)); simpl; [split; [by right|done]|].
  split; [done|]. by intros [?|?].
Qed.

(** After [assumeNoRevert] the next call from its depth decides: if it
    reverts with a reason that was listed, or nothing was listed, the run is
    discarded; if it reverts otherwise, it reverts with its own data; if it does
    not revert, it is left as it is.  In each case the assumption is over.  The
    reverter compared is the first call that reverted since the cheatcode. *)
Theorem assume_no_revert_correct (c : AssumeCall) (d : nat) (s : RevertState) (r : Round) :
  idle s → Forall (below d) (rd_inner r) → rd_depth r ≤ d →
  ∃ s0 s' o', apply_assume c d s = Ok s0 ∧
    end_call (revert_run s0 (rd_inner r)) (rd_depth r) (rd_target r) false (rd_outcome r) = (s', o') ∧
    idle s' ∧
    (if result_is_revert (co_result (rd_outcome r)) then
       (anticipated (call_reasons c) (rd_outcome r) (head (round_reverters r)) ∧
        o' = {| co_result := co_result (rd_outcome r); co_output := magic_assume |}) ∨
       (¬ anticipated (call_reasons c) (rd_outcome r) (head (round_reverters r)) ∧
        o' = {| co_result := result_revert; co_output := co_output (rd_outcome r) |})
     else o' = rd_outcome r).
Proof.
  intros [He Ha] Hb Hd. exists (with_assume s (Some (assume_at d (call_reasons c) []))).
  assert (apply_assume c d s = Ok (with_assume s (Some (assume_at d (call_reasons c) [])))) as ->.
  { destruct c; simpl; unfold assume_no_revert; by rewrite Ha. }
  rewrite assume_below by done. simpl app.
  unfold end_call, end_assume. cbn [rs_assume with_assume]. rewrite record_assume.
  assert (reverters (rd_inner r) ++ (if result_is_revert (co_result (rd_outcome r)) then [rd_target r] else []) =
    round_reverters r) as ->.
  { unfold round_reverters, reverters. rewrite omap_app. simpl. by destruct (result_is_revert _). }
  cbn [an_depth assume_at]. rewrite bool_decide_true by done. simpl.
  pose proof (handle_assume_spec d (call_reasons c) (round_reverters r) (rd_outcome r)) as Hs.
  destruct (result_is_revert (co_result (rd_outcome r))) eqn:Er.
  - do 2 eexists. split; [done|]. split; [done|]. split; [done|].
    destruct (handle_assume_no_revert _ _ _) as [[]|err] eqn:E; simpl in *; [left|right].
    + split; [by apply Hs|done].
    + split; [by intros ?%Hs|]. unfold handle_assume_no_revert in E. simpl in E.
      destruct (call_reasons c); [done|]. case_match; by simplify_eq.
  - unfold end_expected. simpl. rewrite He. do 2 eexists. split; [done|]. split; [done|]. done.
Qed.
End assume.

(** *** Examples *)

#[local] Instance ex_revert_env : RevertEnv := {|
  abi_decode_bytes _ := None;
  abi_decode_string _ := None;
  known_decoder := None;
  cheatcode_error_selector := [238; 170; 158; 111];
  revert_selector := [8; 195; 121; 160];
  encode_message _ := [];
  magic_assume := [70]
|}%Z.

Definition ex_state : RevertState := {| rs_expected := None; rs_assume := None; rs_internal := false |}.

Definition ex_revert (data : Bytes) : CallOutcome := {| co_result := result_revert; co_output := data |}.

(** A call to [a], in which a call to [b] reverts. *)
Definition ex_round (a b : Addr) (o : CallOutcome) : Round :=
  {| rd_inner := [RvFrame 2; RvFrame 3; RvCallEnd 2 b false (ex_revert [1%Z])];
     rd_depth := 1; rd_target := a; rd_outcome := o |}.

Lemma ex_round_wf a b o : round_wf 1 (ex_round a b o).
Proof.
  split; simpl; [|exists 2; split; [lia|left]|lia].
  repeat apply Forall_cons_2; simpl; [done|done|by left; lia|constructor].
Qed.

(** Two reverts with data are expected and seen, the third call is left alone. *)
Lemma expect_revert_correct_witness :
  ∃ s', apply_expect_revert (expectRevert_8 [5%Z] 2) 1 ex_state = Ok s' ∧
    rounds_spec {| ex_reason := Some [5%Z]; ex_partial_match := false; ex_reverter := None; ex_count := 2 |}
      2 [] (replicate 3 (ex_round 7 8 (ex_revert [5%Z])))
      (run_rounds s' (replicate 3 (ex_round 7 8 (ex_revert [5%Z])))).
Proof.
  apply (expect_revert_correct (expectRevert_8 [5%Z] 2)
    {| ex_reason := Some [5%Z]; ex_partial_match := false; ex_reverter := None; ex_count := 2 |} 1 ex_state).
  - done.
  - reflexivity.
  - simpl. lia.
  - apply Forall_replicate, ex_round_wf.
  - by apply Forall_replicate.
Defined.

Lemma assume_no_revert_correct_witness :
  ∃ s0 s', apply_assume assumeNoRevert_0 1 ex_state = Ok s0 ∧
    end_call (revert_run s0 (rd_inner (ex_round 7 8 (ex_revert [5%Z])))) 1 7 false (ex_revert [5%Z]) =
      (s', ex_revert magic_assume).
Proof.
  destruct (assume_no_revert_correct assumeNoRevert_0 1 ex_state (ex_round 7 8 (ex_revert [5%Z])))
    as (s0 & s' & o' & E0 & E & _ & Ho).
  - done.
  - apply ex_round_wf.
  - simpl. lia.
  - exists s0, s'. split; [exact E0|].
    destruct Ho as [[_ ->]|[Hn _]]; [exact E|]. destruct Hn. by left.
Defined.

(** The reverter is the innermost contract for one expected revert and the
    called one for two. *)
Lemma reverter_depends_on_count :
  (∃ s1, apply_expect_revert (expectRevert_9 8 1) 1 ex_state = Ok s1 ∧
     co_result <$> run_rounds s1 [ex_round 7 8 (ex_revert [1%Z])] = [result_return]) ∧
  (∃ s2, apply_expect_revert (expectRevert_9 8 2) 1 ex_state = Ok s2 ∧
     co_result <$> run_rounds s2 [ex_round 7 8 (ex_revert [1%Z])] = [result_revert]).
Proof. split; eexists; (split; [reflexivity|]); by vm_compute. Qed.

(** A call that halts (out of gas, an invalid opcode) is accepted from any
    contract, and so is a reverting constructor. *)
Lemma halt_has_no_reverter :
  ∃ s1, apply_expect_revert (expectRevert_3 9) 1 ex_state = Ok s1 ∧
    co_result (end_call (track_depth s1 2) 1 7 false {| co_result := Halted 32; co_output := [] |}).2 =
      result_return ∧
    co_result (end_create (track_depth s1 2) 1 (ex_revert [1%Z]) None).1.2 = result_return.
Proof. eexists. split; [reflexivity|]. by vm_compute. Qed.

(** A call that succeeds as announced loses its return data. *)
Lemma no_revert_output_lost :
  ∃ s1, apply_expect_revert (expectRevert_6 0) 1 ex_state = Ok s1 ∧
    (end_call (track_depth s1 2) 1 7 false {| co_result := result_return; co_output := [42%Z] |}).2 =
      {| co_result := result_return; co_output := dummy_call_output |}.
Proof. eexists. split; [reflexivity|]. reflexivity. Qed.

(** With a partial match, data shorter than a selector matches any other data
    shorter than a selector. *)
Lemma short_partial_match :
  is_ok (handle_revert false {| ar_reason := [1%Z]; ar_partial_match := true; ar_reverter := None |}
           result_revert [2%Z; 3%Z] None) = true.
Proof. reflexivity. Qed.
