(* ===== verification/Coverage.v ===== *)
(** * Coverage
    (crates/evm/coverage/src/lib.rs, the collector of
    crates/evm/coverage/src/inspector.rs, and [SourceAnalysis] of
    crates/evm/coverage/src/analysis.rs as far as the report uses it)

    While a test runs, a collector counts how often each instruction of each
    bytecode is executed.  The counts of all tests are merged, assigned to the
    items of the source code through anchors, and summed up by file. *)

From stdpp Require Import prelude gmap list strings sorting.
From S2P Require Import Prelude Containers.

Open Scope Z_scope.

Abbreviation Hash := Z.
Abbreviation Version := string.
Abbreviation Path := string.

(** ** Hit maps *)

Record HitMap := { hm_hits : gmap Z Z; hm_bytecode : list Z }.

Definition hit_map_new (bytecode : list Z) : HitMap := {| hm_hits := ∅; hm_bytecode := bytecode |}.

(** [NonZeroU32::new]. *)
Definition hit_map_get (m : HitMap) (pc : Z) : option Z :=
  let n := default 0 (hm_hits m !! pc) in if bool_decide (n = 0) then None else Some n.

(** The counters wrap, as those of a release build. *)
Definition hit_map_hits (m : HitMap) (pc hits : Z) : HitMap :=
  {| hm_hits := <[pc := wrap 32 (default 0 (hm_hits m !! pc) + hits)]> (hm_hits m);
     hm_bytecode := hm_bytecode m |}.

Definition hit_map_hit (m : HitMap) (pc : Z) : HitMap := hit_map_hits m pc 1.

Section merge.
Context `{!HashOrder Z}.

Definition hit_map_merge (m other : HitMap) : HitMap :=
  foldl (λ m p, hit_map_hits m p.1 p.2) m (map_pairs (hm_hits other)).

Abbreviation HitMaps := (gmap Hash HitMap).

Definition hit_maps_merge (a b : HitMaps) : HitMaps :=
  foldl (λ a p, match a !! p.1 with
                | Some e => <[p.1 := hit_map_merge e p.2]> a
                | None => <[p.1 := p.2]> a
                end) a (map_pairs b).

Definition hit_maps_merge_opt (a b : option HitMaps) : option HitMaps :=
  match a, b with
  | _, None => a
  | None, Some b => Some b
  | Some a, Some b => Some (hit_maps_merge a b)
  end.

Definition hit_maps_merged (a b : HitMaps) : HitMaps := hit_maps_merge a b.
End merge.

Abbreviation HitMaps := (gmap Hash HitMap).

(** ** The collector

    [current_map] is a raw pointer into the table of [maps].  The store holds
    the tables by their allocation; inserting a key may move a table to a new
    allocation, and using a pointer into a table that is gone is undefined. *)

Record Store := { st_tables : gmap nat HitMaps; st_next : nat }.

Record LineCoverageCollector := {
  lc_current_map : option (nat * Hash);
  lc_current_hash : Hash;
  lc_maps : nat
}.

(** The bytecode of the interpreter: its hash and its code, and the counter, as
    the 32-bit number [step] takes it for. *)
Record Interp := { in_hash : Hash; in_code : list Z; in_pc : Z }.

Section collector.
(** When a table of some size grows. *)
Context (grows : nat → bool).

Definition collector_default (st : Store) : Store * LineCoverageCollector :=
  ({| st_tables := <[st_next st := ∅]> (st_tables st); st_next := S (st_next st) |},
   {| lc_current_map := None; lc_current_hash := 0; lc_maps := st_next st |}).

Definition insert_map (st : Store) (c : LineCoverageCollector) (i : Interp)
    : outcome (Store * LineCoverageCollector) :=
  table ← expect (st_tables st !! lc_maps c);
  match table !! in_hash i with
  | Some _ =>
      Ret (st, {| lc_current_map := Some (lc_maps c, in_hash i); lc_current_hash := in_hash i;
                  lc_maps := lc_maps c |})
  | None =>
      let table' := <[in_hash i := hit_map_new (in_code i)]> table in
      if grows (size table) then
        Ret ({| st_tables := <[st_next st := table']> (delete (lc_maps c) (st_tables st));
                st_next := S (st_next st) |},
             {| lc_current_map := Some (st_next st, in_hash i); lc_current_hash := in_hash i;
                lc_maps := st_next st |})
      else
        Ret ({| st_tables := <[lc_maps c := table']> (st_tables st); st_next := st_next st |},
             {| lc_current_map := Some (lc_maps c, in_hash i); lc_current_hash := in_hash i;
                lc_maps := lc_maps c |})
  end.

(** [current_map.as_mut()] and a hit on what it points to. *)
Definition hit_current (st : Store) (c : LineCoverageCollector) (pc : Z) : outcome Store :=
  '(base, hash) ← expect (lc_current_map c);
  table ← expect (st_tables st !! base);
  m ← expect (table !! hash);
  Ret {| st_tables := <[base := <[hash := hit_map_hit m pc]> table]> (st_tables st);
         st_next := st_next st |}.

Definition collector_initialize_interp (st : Store) (c : LineCoverageCollector) (i : Interp)
    : outcome (Store * LineCoverageCollector) := insert_map st c i.

Definition collector_step (st : Store) (c : LineCoverageCollector) (i : Interp)
    : outcome (Store * LineCoverageCollector) :=
  '(st, c) ← (if bool_decide (lc_current_hash c ≠ in_hash i) then insert_map st c i else Ret (st, c));
  st ← hit_current st c (in_pc i);
  Ret (st, c).

Definition collector_finish (st : Store) (c : LineCoverageCollector) : outcome HitMaps :=
  expect (st_tables st !! lc_maps c).

(** The derived [Clone]: a copy of the table, and of the pointer. *)
Definition collector_clone (st : Store) (c : LineCoverageCollector)
    : outcome (Store * LineCoverageCollector) :=
  table ← expect (st_tables st !! lc_maps c);
  Ret ({| st_tables := <[st_next st := table]> (st_tables st); st_next := S (st_next st) |},
       {| lc_current_map := lc_current_map c; lc_current_hash := lc_current_hash c;
          lc_maps := st_next st |}).

Inductive CollectorEvent : Type := CvInit (i : Interp) | CvStep (i : Interp).

Definition collector_event (s : Store * LineCoverageCollector) (ev : CollectorEvent)
    : outcome (Store * LineCoverageCollector) :=
  match ev with
  | CvInit i => collector_initialize_interp s.1 s.2 i
  | CvStep i => collector_step s.1 s.2 i
  end.
End collector.

(** ** The report *)

Record ContractId := { ci_version : Version; ci_source_id : Z; ci_contract_name : string }.

#[export] Instance contract_id_eq : EqDecision ContractId.
Proof. solve_decision. Defined.

#[export] Instance contract_id_countable : Countable ContractId.
Proof.
  refine (inj_countable' (λ c, (ci_version c, ci_source_id c, ci_contract_name c))
    (λ p, {| ci_version := p.1.1; ci_source_id := p.1.2; ci_contract_name := p.2 |}) _). by intros [].
Defined.

Record ItemAnchor := { ia_instruction : Z; ia_item_id : nat }.

Inductive CoverageItemKind : Type :=
| KLine
| KStatement
| KBranch (branch_id path_id : Z) (is_first_opcode : bool)
| KFunction (name : string).

Record SourceLocation := {
  sl_source_id : Z;
  sl_contract_name : string;
  sl_bytes : Z * Z;
  sl_lines : Z * Z
}.

Record CoverageItem := { ci_kind : CoverageItemKind; ci_loc : SourceLocation; ci_hits : Z }.

Record SourceAnalysis := { sa_all_items : list CoverageItem; sa_map : list (Z * Z) }.

Record CoverageReport := {
  cr_source_paths : gmap (Version * Z) Path;
  cr_source_paths_to_ids : gmap (Version * Path) Z;
  cr_analyses : gmap Version SourceAnalysis;
  cr_anchors : gmap ContractId (list ItemAnchor * list ItemAnchor);
  cr_bytecode_hits : gmap ContractId HitMap
}.

Definition with_analyses (r : CoverageReport) (a : gmap Version SourceAnalysis) : CoverageReport :=
  {| cr_source_paths := cr_source_paths r; cr_source_paths_to_ids := cr_source_paths_to_ids r;
     cr_analyses := a; cr_anchors := cr_anchors r; cr_bytecode_hits := cr_bytecode_hits r |}.

Definition with_bytecode_hits (r : CoverageReport) (h : gmap ContractId HitMap) : CoverageReport :=
  {| cr_source_paths := cr_source_paths r; cr_source_paths_to_ids := cr_source_paths_to_ids r;
     cr_analyses := cr_analyses r; cr_anchors := cr_anchors r; cr_bytecode_hits := h |}.

Definition add_source (r : CoverageReport) (version : Version) (source_id : Z) (path : Path)
    : CoverageReport :=
  {| cr_source_paths := <[(version, source_id) := path]> (cr_source_paths r);
     cr_source_paths_to_ids := <[(version, path) := source_id]> (cr_source_paths_to_ids r);
     cr_analyses := cr_analyses r; cr_anchors := cr_anchors r; cr_bytecode_hits := cr_bytecode_hits r |}.

Definition get_source_id (r : CoverageReport) (version : Version) (path : Path) : option Z :=
  cr_source_paths_to_ids r !! (version, path).

Definition add_analysis (r : CoverageReport) (version : Version) (a : SourceAnalysis) : CoverageReport :=
  with_analyses r (<[version := a]> (cr_analyses r)).

Definition add_anchors (r : CoverageReport)
    (anchors : list (ContractId * (list ItemAnchor * list ItemAnchor))) : CoverageReport :=
  {| cr_source_paths := cr_source_paths r; cr_source_paths_to_ids := cr_source_paths_to_ids r;
     cr_analyses := cr_analyses r;
     cr_anchors := foldl (λ m p, <[p.1 := p.2]> m) (cr_anchors r) anchors;
     cr_bytecode_hits := cr_bytecode_hits r |}.

Definition add_hits (item : CoverageItem) (hits : Z) : CoverageItem :=
  {| ci_kind := ci_kind item; ci_loc := ci_loc item; ci_hits := wrap 32 (ci_hits item + hits) |}.

(** The hits of one anchor; the item must exist. *)
Definition add_anchor_hits (version : Version) (hit_map : HitMap) (a : gmap Version SourceAnalysis)
    (anchor : ItemAnchor) : outcome (gmap Version SourceAnalysis) :=
  match hit_map_get hit_map (ia_instruction anchor) with
  | None => Ret a
  | Some hits =>
      analysis ← expect (a !! version);
      item ← expect (sa_all_items analysis !! ia_item_id anchor);
      Ret (<[version := {| sa_all_items := <[ia_item_id anchor := add_hits item hits]> (sa_all_items analysis);
                           sa_map := sa_map analysis |}]> a)
  end.

Section report.
Context `{!HashOrder Z, !HashOrder Version}.

Definition add_hit_map (r : CoverageReport) (id : ContractId) (hit_map : HitMap) (is_deployed_code : bool)
    : outcome CoverageReport :=
  let r := with_bytecode_hits r
    (<[id := match cr_bytecode_hits r !! id with
             | Some m => hit_map_merge m hit_map
             | None => hit_map
             end]> (cr_bytecode_hits r)) in
  match cr_anchors r !! id with
  | None => Ret r
  | Some anchors =>
      let anchors := if is_deployed_code then anchors.2 else anchors.1 in
      a ← foldM (add_anchor_hits (ci_version id) hit_map) (cr_analyses r) anchors;
      Ret (with_analyses r a)
  end.

Definition retain_sources (r : CoverageReport) (predicate : Path → bool) : CoverageReport :=
  let keep version item :=
    match cr_source_paths r !! (version, sl_source_id (ci_loc item)) with
    | Some path => predicate path
    | None => false
    end in
  with_analyses r (filter (λ p, sa_all_items p.2 ≠ [])
    (map_imap (λ version a, Some {| sa_all_items := filter (λ item, keep version item = true) (sa_all_items a);
                                    sa_map := sa_map a |}) (cr_analyses r))).

(** [by_file]: the items of every version, by the path of their source. *)
Definition by_file {T} (init : T) (f : T → CoverageItem → T) (r : CoverageReport) : gmap Path T :=
  foldl (λ m p, foldl (λ m item,
           match cr_source_paths r !! (p.1, sl_source_id (ci_loc item)) with
           | None => m
           | Some path => <[path := f (default init (m !! path)) item]> m
           end) m (sa_all_items p.2)) ∅ (map_pairs (cr_analyses r)).

Record CoverageSummary := {
  cs_line_count : nat; cs_line_hits : nat;
  cs_statement_count : nat; cs_statement_hits : nat;
  cs_branch_count : nat; cs_branch_hits : nat;
  cs_function_count : nat; cs_function_hits : nat
}.

Definition summary_default : CoverageSummary := Build_CoverageSummary 0 0 0 0 0 0 0 0.

Definition add_item (s : CoverageSummary) (item : CoverageItem) : CoverageSummary :=
  let '(Build_CoverageSummary lc lh sc sh bc bh fc fh) := s in
  let hit := if 0 <? ci_hits item then 1%nat else 0%nat in
  (match ci_kind item with
   | KLine => Build_CoverageSummary (lc + 1) (lh + hit) sc sh bc bh fc fh
   | KStatement => Build_CoverageSummary lc lh (sc + 1) (sh + hit) bc bh fc fh
   | KBranch _ _ _ => Build_CoverageSummary lc lh sc sh (bc + 1) (bh + hit) fc fh
   | KFunction _ => Build_CoverageSummary lc lh sc sh bc bh (fc + 1) (fh + hit)
   end)%nat.

Definition add_items (s : CoverageSummary) (items : list CoverageItem) : CoverageSummary :=
  foldl add_item s items.

Definition from_items (items : list CoverageItem) : CoverageSummary := add_items summary_default items.

Definition summary_merge (a b : CoverageSummary) : CoverageSummary :=
  Build_CoverageSummary
    (cs_line_count a + cs_line_count b) (cs_line_hits a + cs_line_hits b)
    (cs_statement_count a + cs_statement_count b) (cs_statement_hits a + cs_statement_hits b)
    (cs_branch_count a + cs_branch_count b) (cs_branch_hits a + cs_branch_hits b)
    (cs_function_count a + cs_function_count b) (cs_function_hits a + cs_function_hits b).

Definition summary_by_file (r : CoverageReport) : gmap Path CoverageSummary :=
  by_file summary_default add_item r.

Definition items_by_file (r : CoverageReport) : gmap Path (list CoverageItem) :=
  by_file [] (λ l item, l ++ [item]) r.
End report.

(** ** Counts *)

(** How often an instruction was hit, as a [u32]. *)
Definition hits_at (m : HitMap) (pc : Z) : Z := wrap 32 (default 0 (hm_hits m !! pc)).

Definition total_at (a : HitMaps) (h : Hash) (pc : Z) : Z :=
  match a !! h with Some m => hits_at m pc | None => 0 end.

(** Hit maps with the same counts, whatever entries of zero they hold. *)
#[export] Instance hit_map_equiv : Equiv HitMap := λ m1 m2, ∀ pc, hits_at m1 pc = hits_at m2 pc.

#[export] Instance hit_map_equivalence : Equivalence (≡@{HitMap}).
Proof.
  split; [done|by intros m1 m2 E pc; rewrite E|].
  intros m1 m2 m3 E1 E2 pc. by rewrite E1, E2.
Qed.

#[export] Instance hit_maps_equiv : Equiv HitMaps := λ a b,
  dom a = dom b ∧ ∀ h pc, total_at a h pc = total_at b h pc.

#[export] Instance hit_maps_equivalence : Equivalence (≡@{HitMaps}).
Proof.
  split; [done|by intros a b [D E]; split; [by rewrite D|by intros; rewrite E]|].
  intros a b c [D1 E1] [D2 E2]. split; [by rewrite D1|]. intros h pc. by rewrite E1.
Qed.

Lemma wrap32_l x y : wrap 32 (wrap 32 x + y) = wrap 32 (x + y).
Proof. apply wrap_add_l. lia. Qed.

Lemma wrap32_r x y : wrap 32 (x + wrap 32 y) = wrap 32 (x + y).
Proof. by rewrite Z.add_comm, wrap32_l, Z.add_comm. Qed.

Lemma wrap32_idem x : wrap 32 (wrap 32 x) = wrap 32 x.
Proof. pose proof (wrap32_l x 0) as E. by rewrite !Z.add_0_r in E. Qed.

Lemma hits_at_wrap m pc : wrap 32 (hits_at m pc) = hits_at m pc.
Proof. apply wrap32_idem. Qed.

Lemma total_at_wrap a h pc : wrap 32 (total_at a h pc) = total_at a h pc.
Proof. unfold total_at. destruct (a !! h); [apply hits_at_wrap|done]. Qed.

Lemma hits_at_hits m pc n pc' :
  hits_at (hit_map_hits m pc n) pc' = wrap 32 (hits_at m pc' + if decide (pc = pc') then n else 0).
Proof.
  unfold hits_at, hit_map_hits. simpl. rewrite wrap32_l. case_decide as E.
  - subst. rewrite lookup_insert_eq. apply wrap32_idem.
  - by rewrite lookup_insert_ne, Z.add_0_r.
Qed.

Section merge_lemmas.
Context `{!HashOrder Z}.

Lemma hits_at_merge m other pc :
  hits_at (hit_map_merge m other) pc = wrap 32 (hits_at m pc + hits_at other pc).
Proof.
  unfold hit_map_merge, hits_at at 3. rewrite wrap32_r.
  rewrite <-(map_pairs_list_to_map (hm_hits other)) at 2.
  pose proof (map_pairs_NoDup (hm_hits other)) as Hd. revert m.
  induction (map_pairs (hm_hits other)) as [|[k n] l IH]; intros m; simpl.
  { by rewrite lookup_empty, Z.add_0_r, hits_at_wrap. }
  apply NoDup_cons in Hd as [Hk Hd]. rewrite IH by done. rewrite hits_at_hits, wrap32_l.
  case_decide as E.
  - subst. rewrite lookup_insert_eq, (not_elem_of_list_to_map_1 l pc) by done. simpl. f_equal. lia.
  - rewrite lookup_insert_ne by done. f_equal. lia.
Qed.

(** One entry of the other table. *)
Definition merge_entry (a : HitMaps) (p : Hash * HitMap) : HitMaps :=
  match a !! p.1 with
  | Some e => <[p.1 := hit_map_merge e p.2]> a
  | None => <[p.1 := p.2]> a
  end.

Lemma merge_entry_total a p h pc :
  total_at (merge_entry a p) h pc =
    wrap 32 (total_at a h pc + if decide (p.1 = h) then hits_at p.2 pc else 0).
Proof.
  unfold merge_entry, total_at. destruct p as [k m]. simpl. case_decide as E.
  - subst. destruct (a !! h); rewrite lookup_insert_eq; [apply hits_at_merge|].
    by rewrite Z.add_0_l, hits_at_wrap.
  - rewrite Z.add_0_r. destruct (a !! k); rewrite lookup_insert_ne by done;
      (destruct (a !! h); [by rewrite hits_at_wrap|done]).
Qed.

Lemma merge_entry_dom a p : dom (merge_entry a p) = {[p.1]} ∪ dom a.
Proof. unfold merge_entry. destruct (a !! p.1) eqn:E; by rewrite dom_insert_L. Qed.

Lemma merge_total a b h pc :
  total_at (hit_maps_merge a b) h pc = wrap 32 (total_at a h pc + total_at b h pc).
Proof.
  unfold hit_maps_merge. change (foldl _ a (map_pairs b)) with (foldl merge_entry a (map_pairs b)).
  rewrite <-(map_pairs_list_to_map b) at 2. pose proof (map_pairs_NoDup b) as Hd. revert a.
  induction (map_pairs b) as [|[k m] l IH]; intros a; simpl.
  { unfold total_at at 3. by rewrite lookup_empty, Z.add_0_r, total_at_wrap. }
  apply NoDup_cons in Hd as [Hk Hd]. rewrite IH by done. rewrite merge_entry_total, wrap32_l. simpl.
  unfold total_at at 2 4. case_decide as E.
  - subst. rewrite lookup_insert_eq, (not_elem_of_list_to_map_1 l h) by done. f_equal. lia.
  - rewrite lookup_insert_ne by done. f_equal. lia.
Qed.

Lemma merge_dom a b : dom (hit_maps_merge a b) = dom a ∪ dom b.
Proof.
  unfold hit_maps_merge. change (foldl _ a (map_pairs b)) with (foldl merge_entry a (map_pairs b)).
  rewrite <-(map_pairs_list_to_map b) at 2. revert a.
  induction (map_pairs b) as [|[k m] l IH]; intros a; simpl.
  - rewrite dom_empty_L. set_solver.
  - rewrite IH, merge_entry_dom, dom_insert_L. set_solver.
Qed.

#[export] Instance hit_maps_merge_proper : Proper ((≡) ==> (≡) ==> (≡)) hit_maps_merge.
Proof.
  intros a a' [Da Ea] b b' [Db Eb]. split; [by rewrite !merge_dom, Da, Db|].
  intros h pc. by rewrite !merge_total, Ea, Eb.
Qed.

Lemma merge_comm a b : hit_maps_merge a b ≡ hit_maps_merge b a.
Proof.
  split; [rewrite !merge_dom; set_solver|]. intros h pc. rewrite !merge_total. f_equal. lia.
Qed.

Lemma merge_assoc a b c : hit_maps_merge a (hit_maps_merge b c) ≡ hit_maps_merge (hit_maps_merge a b) c.
Proof.
  split; [rewrite !merge_dom; set_solver|]. intros h pc.
  rewrite !merge_total, wrap32_l, wrap32_r. f_equal. lia.
Qed.

(** Merging a second table after a first one. *)
Lemma merge_swap a b c : hit_maps_merge (hit_maps_merge a b) c ≡ hit_maps_merge (hit_maps_merge a c) b.
Proof. by rewrite <-!merge_assoc, (merge_comm b c). Qed.

(** the counts of the tests of a run are the same in whatever order their
    hit maps are merged, in whatever order the tables are iterated: every
    instruction is counted as often as all of them together counted it (as a
    32-bit number), and the bytecodes are those that occur in any of them. *)
Theorem hit_maps_merge_order (a : HitMaps) (l l' : list HitMaps) :
  l ≡ₚ l' →
  foldl hit_maps_merge a l ≡ foldl hit_maps_merge a l' ∧
  (∀ h pc, total_at (foldl hit_maps_merge a l) h pc =
             wrap 32 (total_at a h pc + foldr (λ b n, total_at b h pc + n) 0 l)) ∧
  dom (foldl hit_maps_merge a l) = dom a ∪ ⋃ (dom <$> l).
Proof.
  intros Hp.
  assert (∀ k a a', a ≡ a' → foldl hit_maps_merge a k ≡ foldl hit_maps_merge a' k) as Hproper.
  { induction k as [|b k IH]; intros x x' E; simpl; [done|]. apply IH. by rewrite E. }
  split_and!.
  - revert a. induction Hp as [|b l l' _ IH|b c l|l1 l2 l3 _ IH1 _ IH2]; intros a; simpl.
    + done.
    + apply IH.
    + apply Hproper, merge_swap.
    + by rewrite IH1, IH2.
  - clear Hp. intros h pc. revert a. induction l as [|b l IH]; intros a; simpl.
    + by rewrite Z.add_0_r, total_at_wrap.
    + rewrite IH, merge_total, wrap32_l. f_equal. lia.
  - clear Hp. revert a. induction l as [|b l IH]; intros a; simpl; [set_solver|].
    rewrite IH, merge_dom. set_solver.
Qed.
End merge_lemmas.

Lemma hit_maps_merge_order_witness :
  let m n := {[1 := {| hm_hits := {[0 := n]}; hm_bytecode := [] |}]} : HitMaps in
  total_at (foldl hit_maps_merge ∅ [m 2; m 3]) 1 0 = 5 ∧
  foldl hit_maps_merge ∅ [m 2; m 3] ≡ foldl hit_maps_merge ∅ [m 3; m 2].
Proof.
  intros m. destruct (hit_maps_merge_order ∅ [m 2; m 3] [m 3; m 2]) as (E & H & _).
  - constructor.
  - split; [|exact E]. rewrite H. by vm_compute.
Defined.

(** ** The collector never follows a stale pointer *)

Definition ev_interp (ev : CollectorEvent) : Interp := match ev with CvInit i | CvStep i => i end.

(** A step at an instruction of a bytecode, and how often it was taken. *)
Definition step_at (h : Hash) (pc : Z) (ev : CollectorEvent) : Prop :=
  match ev with CvStep i => in_hash i = h ∧ in_pc i = pc | CvInit _ => False end.

#[export] Instance step_at_dec h pc ev : Decision (step_at h pc ev).
Proof. destruct ev; simpl; apply _. Defined.

Definition steps_at (h : Hash) (pc : Z) (evs : list CollectorEvent) : nat :=
  length (filter (step_at h pc) evs).

(** The table of the collector after some events. *)
Record collected (evs : list CollectorEvent) (table : HitMaps) : Prop := {
  cl_dom : ∀ h, h ∈ dom table ↔ ∃ ev, ev ∈ evs ∧ in_hash (ev_interp ev) = h;
  cl_hits : ∀ h pc, total_at table h pc = wrap 32 (Z.of_nat (steps_at h pc evs))
}.

Definition store_wf (st : Store) : Prop := ∀ b, is_Some (st_tables st !! b) → (b < st_next st)%nat.

(** The pointer is into the table of the collector, to the entry of the current
    bytecode. *)
Record collector_inv (evs : list CollectorEvent) (s : Store * LineCoverageCollector) : Prop := {
  cv_store : store_wf s.1;
  cv_table : ∃ table, st_tables s.1 !! lc_maps s.2 = Some table ∧ collected evs table ∧
    (evs ≠ [] → lc_current_map s.2 = Some (lc_maps s.2, lc_current_hash s.2) ∧
                is_Some (table !! lc_current_hash s.2))
}.

Lemma total_at_insert (a : HitMaps) h m h' pc :
  total_at (<[h := m]> a) h' pc = if decide (h = h') then hits_at m pc else total_at a h' pc.
Proof.
  unfold total_at. case_decide as E; [subst; by rewrite lookup_insert_eq|by rewrite lookup_insert_ne].
Qed.

(** The table with an entry for the current bytecode. *)
Definition with_entry (table : HitMaps) (i : Interp) : HitMaps :=
  match table !! in_hash i with
  | Some _ => table
  | None => <[in_hash i := hit_map_new (in_code i)]> table
  end.

Lemma with_entry_total table i h pc : total_at (with_entry table i) h pc = total_at table h pc.
Proof.
  unfold with_entry. destruct (table !! in_hash i) eqn:E; [done|]. rewrite total_at_insert.
  case_decide as Eh; [|done]. subst. unfold total_at. by rewrite E.
Qed.

Lemma with_entry_dom table i : dom (with_entry table i) = {[in_hash i]} ∪ dom table.
Proof.
  unfold with_entry. destruct (table !! in_hash i) eqn:E; [|by rewrite dom_insert_L].
  assert (in_hash i ∈ dom table) by (by apply elem_of_dom). set_solver.
Qed.

Section safe.
Context (grows : nat → bool).

Lemma insert_map_spec st c i table :
  store_wf st → st_tables st !! lc_maps c = Some table →
  ∃ st' c', insert_map grows st c i = Ret (st', c') ∧ store_wf st' ∧
    st_tables st' !! lc_maps c' = Some (with_entry table i) ∧
    lc_current_map c' = Some (lc_maps c', in_hash i) ∧ lc_current_hash c' = in_hash i.
Proof.
  intros Hst Et. unfold insert_map, with_entry. rewrite Et. simpl.
  destruct (table !! in_hash i) eqn:E; [by do 2 eexists|].
  destruct (grows (size table)); do 2 eexists; (split; [done|]); simpl;
    (split; [|by rewrite lookup_insert_eq]); intros b; simpl.
  - rewrite lookup_insert_is_Some. intros [<-|[_ Hb]]; [simpl; lia|].
    apply lookup_delete_is_Some in Hb as [_ Hb]. specialize (Hst b Hb). lia.
  - rewrite lookup_insert_is_Some. intros [<-|[_ Hb]]; [by apply Hst; rewrite Et|by apply Hst].
Qed.

Lemma collected_init evs table i : collected evs table → collected (evs ++ [CvInit i]) (with_entry table i).
Proof.
  intros [Hd Hh]. split.
  - intros h. rewrite with_entry_dom, elem_of_union, elem_of_singleton, Hd.
    setoid_rewrite elem_of_app. setoid_rewrite list_elem_of_singleton. split.
    + intros [->|(ev & ? & ?)]; [by exists (CvInit i); auto|eauto].
    + intros (ev & [?| ->] & <-); [right; eauto|by left].
  - intros h pc. rewrite with_entry_total, Hh. unfold steps_at.
    by rewrite filter_app, filter_cons_False, app_nil_r by naive_solver.
Qed.

Lemma collected_step evs table i m :
  collected evs table → with_entry table i !! in_hash i = Some m →
  collected (evs ++ [CvStep i]) (<[in_hash i := hit_map_hit m (in_pc i)]> (with_entry table i)).
Proof.
  intros [Hd Hh] Em. split.
  - intros h. rewrite dom_insert_L, with_entry_dom, !elem_of_union, elem_of_singleton, Hd.
    setoid_rewrite elem_of_app. setoid_rewrite list_elem_of_singleton. split.
    + intros [->|[->|(ev & ? & ?)]]; [by exists (CvStep i); auto|by exists (CvStep i); auto|eauto].
    + intros (ev & [?| ->] & <-); [right; right; eauto|by left].
  - intros h pc. rewrite total_at_insert. unfold steps_at. rewrite filter_app, length_app.
    rewrite filter_cons, filter_nil. change (length (filter _ evs)) with (steps_at h pc evs).
    case_decide as Eh.
    + subst h. unfold hit_map_hit. rewrite hits_at_hits.
      assert (hits_at m pc = total_at (with_entry table i) (in_hash i) pc) as ->
        by (unfold total_at; by rewrite Em).
      rewrite with_entry_total, Hh, wrap32_l. f_equal.
      destruct (decide (in_pc i = pc)) as [Ep|Ep].
      * rewrite decide_True by done. simpl. lia.
      * rewrite decide_False by naive_solver. simpl. lia.
    + rewrite with_entry_total, Hh, decide_False by naive_solver. simpl. f_equal. lia.
Qed.

Lemma collector_init_inv evs s i :
  collector_inv evs s → ∃ s', collector_event grows s (CvInit i) = Ret s' ∧ collector_inv (evs ++ [CvInit i]) s'.
Proof.
  intros [Hst (table & Et & Hc & _)]. simpl.
  destruct (insert_map_spec s.1 s.2 i table Hst Et) as (st' & c' & E & Hst' & Et' & Hp & Hh).
  exists (st', c'). split; [exact E|]. split; [done|]. exists (with_entry table i). simpl.
  split; [done|]. split; [by apply collected_init|]. intros _. rewrite Hh. split; [done|].
  apply elem_of_dom. rewrite with_entry_dom. set_solver.
Qed.

Lemma collector_step_inv evs s i :
  evs ≠ [] → collector_inv evs s →
  ∃ s', collector_event grows s (CvStep i) = Ret s' ∧ collector_inv (evs ++ [CvStep i]) s'.
Proof.
  intros Hne [Hst (table & Et & Hc & Hptr)]. destruct (Hptr Hne) as [Hp Hsome].
  assert (∃ st' c', (if bool_decide (lc_current_hash s.2 ≠ in_hash i)
                     then insert_map grows s.1 s.2 i else Ret (s.1, s.2)) = Ret (st', c') ∧ store_wf st' ∧
    st_tables st' !! lc_maps c' = Some (with_entry table i) ∧
    lc_current_map c' = Some (lc_maps c', in_hash i) ∧ lc_current_hash c' = in_hash i)
    as (st' & c' & E & Hst' & Et' & Hp' & Hh').
  { case_bool_decide as Hne'; [by apply insert_map_spec|].
    rewrite Hne' in *. exists s.1, s.2. split_and!; [done|done| |done|done].
    unfold with_entry. by destruct Hsome as [m ->]. }
  simpl. unfold collector_step. rewrite E, bind_Ret. unfold hit_current. rewrite Hp'. simpl.
  rewrite Et'. simpl.
  assert (is_Some (with_entry table i !! in_hash i)) as [m Em].
  { apply elem_of_dom. rewrite with_entry_dom. set_solver. }
  rewrite Em. simpl. eexists. split; [done|]. split; simpl.
  - intros b. simpl. rewrite lookup_insert_is_Some. intros [<-|[_ Hb]]; [|by apply Hst'].
    apply Hst'. by rewrite Et'.
  - eexists. split; [apply lookup_insert_eq|]. split; [by apply collected_step|].
    intros _. rewrite Hh'. split; [done|]. by rewrite lookup_insert_eq.
Qed.

(** C21: whenever the first event of a collector is the start of a frame, no step
    follows a stale or dangling pointer, however the table moves as it grows;
    and when it finishes, every instruction of every bytecode has been counted
    as often as it was executed (as a 32-bit number), for exactly the bytecodes
    that were seen. *)
Theorem collector_correct (st : Store) (i : Interp) (evs : list CollectorEvent) :
  store_wf st →
  ∃ s table, foldM (collector_event grows) (collector_default st) (CvInit i :: evs) = Ret s ∧
    collector_finish s.1 s.2 = Ret table ∧
    (∀ h, h ∈ dom table ↔ ∃ ev, ev ∈ CvInit i :: evs ∧ in_hash (ev_interp ev) = h) ∧
    (∀ h pc, total_at table h pc = wrap 32 (Z.of_nat (steps_at h pc evs))).
Proof.
  intros Hst.
  assert (collector_inv [] (collector_default st)) as H0.
  { split; simpl.
    - intros b. simpl. rewrite lookup_insert_is_Some. intros [<-|[_ Hb]]; [lia|]. specialize (Hst b Hb). lia.
    - exists ∅. split; [apply lookup_insert_eq|]. split; [|done]. split; [|done].
      intros h. split; [set_solver|]. by intros (ev & []%not_elem_of_nil & _). }
  destruct (foldM_spec (collector_event grows) collector_inv (CvInit i :: evs) (collector_default st) H0)
    as (s & Es & [_ (table & Et & [Hd Hh] & _)]).
  { intros done ev rest s E Hs. destruct ev as [j|j]; [by apply collector_init_inv|].
    apply collector_step_inv; [|done]. by destruct done. }
  exists s, table. split; [done|]. unfold collector_finish. rewrite Et. split; [done|]. split; [done|].
  intros h pc. rewrite Hh. unfold steps_at. by rewrite filter_cons_False by naive_solver.
Qed.
End safe.

Definition ex_store : Store := {| st_tables := ∅; st_next := 0 |}.
Definition ex_interp (h pc : Z) : Interp := {| in_hash := h; in_code := []; in_pc := pc |}.

Lemma collector_correct_witness :
  ∃ s table, foldM (collector_event (λ _, true)) (collector_default ex_store)
    [CvInit (ex_interp 1 0); CvStep (ex_interp 1 0); CvInit (ex_interp 2 0); CvStep (ex_interp 2 5);
     CvStep (ex_interp 1 0)] = Ret s ∧
    collector_finish s.1 s.2 = Ret table ∧ total_at table 1 0 = 2 ∧ total_at table 2 5 = 1.
Proof.
  destruct (collector_correct (λ _, true) ex_store (ex_interp 1 0)
    [CvStep (ex_interp 1 0); CvInit (ex_interp 2 0); CvStep (ex_interp 2 5); CvStep (ex_interp 1 0)])
    as (s & table & E & F & _ & H).
  - intros b [? Hb]. simpl in Hb. by rewrite lookup_empty in Hb.
  - exists s, table. split; [exact E|]. split; [exact F|]. rewrite !H. by vm_compute.
Defined.

(** A clone that steps before it starts a frame counts in the tables of the
    original: its own stay as they were. *)
Lemma clone_counts_in_original :
  ∃ st1 c st2 d st3 d', collector_event (λ _, false) (collector_default ex_store) (CvInit (ex_interp 1 0)) =
      Ret (st1, c) ∧
    collector_clone st1 c = Ret (st2, d) ∧
    collector_event (λ _, false) (st2, d) (CvStep (ex_interp 1 0)) = Ret (st3, d') ∧
    ((λ t, total_at t 1 0) <$> collector_finish st3 d' = Ret 0) ∧
    ((λ t, total_at t 1 0) <$> collector_finish st3 c = Ret 1).
Proof. do 6 eexists. split; [reflexivity|]. split; [reflexivity|]. split; [reflexivity|]. by vm_compute. Qed.

(** ** Hits of the source items *)

Definition item_at (a : gmap Version SourceAnalysis) (v : Version) (k : nat) : option CoverageItem :=
  analysis ← a !! v; sa_all_items analysis !! k.

(** The hits that the anchors to an item get from a hit map. *)
Definition anchor_hits (m : HitMap) (k : nat) (anchors : list ItemAnchor) : Z :=
  foldr (λ an n, (if decide (ia_item_id an = k) then default 0 (hit_map_get m (ia_instruction an)) else 0) + n)
    0 anchors.

Definition anchors_of (r : CoverageReport) (id : ContractId) (is_deployed_code : bool) : list ItemAnchor :=
  match cr_anchors r !! id with
  | Some anchors => if is_deployed_code then anchors.2 else anchors.1
  | None => []
  end.

(** Anchors refer to items that exist. *)
Definition anchors_wf (r : CoverageReport) : Prop :=
  ∀ id b, Forall (λ an, is_Some (item_at (cr_analyses r) (ci_version id) (ia_item_id an))) (anchors_of r id b).

(** Items gain hits and change in nothing else. *)
Definition gains (delta : Version → nat → Z) (a a' : gmap Version SourceAnalysis) : Prop :=
  ∀ v k, match item_at a v k, item_at a' v k with
         | Some item, Some item' =>
             ci_kind item' = ci_kind item ∧ ci_loc item' = ci_loc item ∧
             wrap 32 (ci_hits item') = wrap 32 (ci_hits item + delta v k)
         | None, None => True
         | _, _ => False
         end.

Lemma gains_refl a : gains (λ _ _, 0) a a.
Proof. intros v k. destruct (item_at a v k); [|done]. by rewrite Z.add_0_r. Qed.

Lemma gains_trans d1 d2 a b c : gains d1 a b → gains d2 b c → gains (λ v k, d1 v k + d2 v k) a c.
Proof.
  intros H1 H2 v k. specialize (H1 v k). specialize (H2 v k).
  destruct (item_at a v k) as [x|], (item_at b v k) as [y|], (item_at c v k) as [z|]; try done.
  destruct H1 as (K1 & L1 & E1), H2 as (K2 & L2 & E2). split; [congruence|]. split; [congruence|].
  rewrite E2, <-wrap32_l, E1, wrap32_l. f_equal. lia.
Qed.

Lemma gains_ext d1 d2 a b : (∀ v k, d1 v k = d2 v k) → gains d1 a b → gains d2 a b.
Proof.
  intros E H v k. specialize (H v k). destruct (item_at a v k), (item_at b v k); [|done..]. by rewrite <-E.
Qed.

Lemma gains_exists d a b v k : gains d a b → is_Some (item_at a v k) → is_Some (item_at b v k).
Proof. intros H [x E]. specialize (H v k). rewrite E in H. by destruct (item_at b v k). Qed.

Lemma add_anchor_spec v m a an :
  is_Some (item_at a v (ia_item_id an)) →
  ∃ a', add_anchor_hits v m a an = Ret a' ∧
    gains (λ v' k, if decide (v = v') then anchor_hits m k [an] else 0) a a'.
Proof.
  intros [item Hi]. unfold add_anchor_hits, anchor_hits. simpl.
  destruct (hit_map_get m (ia_instruction an)) as [hits|] eqn:Eg; cycle 1.
  { exists a. split; [done|]. eapply gains_ext, gains_refl. intros v' k. simpl. by repeat case_decide. }
  unfold item_at in Hi. destruct (a !! v) as [an'|] eqn:Ea; [|done]. simpl in Hi.
  simpl. rewrite Hi. simpl. eexists. split; [done|]. intros v' k. unfold item_at.
  destruct (decide (v = v')) as [<-|Hv].
  - rewrite lookup_insert_eq, Ea. simpl. destruct (decide (ia_item_id an = k)) as [<-|Hk].
    + rewrite Hi, list_lookup_insert_eq by (by eapply lookup_lt_Some). simpl. rewrite Z.add_0_r.
      by rewrite wrap32_idem.
    + rewrite list_lookup_insert_ne by done. destruct (sa_all_items an' !! k); [|done].
      by rewrite Z.add_0_r.
  - rewrite lookup_insert_ne by done. destruct (a !! v'); [|done]. simpl.
    destruct (sa_all_items s !! k); [|done]. by rewrite Z.add_0_r.
Qed.

Lemma add_anchors_spec v m a anchors :
  Forall (λ an, is_Some (item_at a v (ia_item_id an))) anchors →
  ∃ a', foldM (add_anchor_hits v m) a anchors = Ret a' ∧
    gains (λ v' k, if decide (v = v') then anchor_hits m k anchors else 0) a a'.
Proof.
  revert a. induction anchors as [|an anchors IH]; intros a Ha.
  { exists a. split; [done|]. eapply gains_ext, gains_refl. intros. by case_decide. }
  apply Forall_cons in Ha as [Han Ha]. destruct (add_anchor_spec v m a an Han) as (a1 & E1 & G1).
  destruct (IH a1) as (a2 & E2 & G2).
  { eapply Forall_impl; [exact Ha|]. intros x. by apply (gains_exists _ _ _ _ _ G1). }
  exists a2. simpl. rewrite E1, bind_Ret. split; [exact E2|].
  eapply gains_ext; [|by eapply gains_trans]. intros v' k. simpl. case_decide; lia.
Qed.

(** What is added to a report: a contract, its hits, and whether its code was
    deployed. *)
Abbreviation HitEntry := (ContractId * HitMap * bool)%type.

Section add_hits.
Context `{!HashOrder Z}.

Definition entry_hits (r : CoverageReport) (v : Version) (k : nat) (x : HitEntry) : Z :=
  if decide (ci_version x.1.1 = v) then anchor_hits x.1.2 k (anchors_of r x.1.1 x.2) else 0.

Definition add_entry (r : CoverageReport) (x : HitEntry) : outcome CoverageReport :=
  add_hit_map r x.1.1 x.1.2 x.2.

Lemma add_entry_spec r x :
  anchors_wf r →
  ∃ r', add_entry r x = Ret r' ∧ cr_anchors r' = cr_anchors r ∧
    cr_source_paths r' = cr_source_paths r ∧
    gains (λ v k, entry_hits r v k x) (cr_analyses r) (cr_analyses r').
Proof.
  intros Hw. destruct x as [[id m] b]. unfold add_entry, add_hit_map. simpl.
  pose proof (Hw id b) as Ha. unfold entry_hits. simpl. unfold anchors_of in *. simpl.
  destruct (cr_anchors r !! id) as [anchors|] eqn:E.
  - destruct (add_anchors_spec (ci_version id) m (cr_analyses r) (if b then anchors.2 else anchors.1) Ha)
      as (a' & -> & G). rewrite bind_Ret. eexists. split; [done|]. done.
  - eexists. split; [done|]. split; [done|]. split; [done|]. eapply gains_ext, gains_refl.
    intros. by case_decide.
Qed.

Lemma gains_wf r r' d :
  cr_anchors r' = cr_anchors r → gains d (cr_analyses r) (cr_analyses r') → anchors_wf r → anchors_wf r'.
Proof.
  intros E G Hw id b. unfold anchors_of. rewrite E. eapply Forall_impl; [exact (Hw id b)|].
  intros an. by apply (gains_exists _ _ _ _ _ G).
Qed.

(** with anchors that refer to existing items, adding hit maps to a report
    never panics; whatever their number and order, every item of every source
    gains exactly the hits of the anchors to it in the creation or the deployed
    code of its contracts (as a 32-bit number), and nothing else of it changes. *)
Theorem add_hit_maps_correct (r : CoverageReport) (entries : list HitEntry) :
  anchors_wf r →
  ∃ r', foldM add_entry r entries = Ret r' ∧
    gains (λ v k, foldr (λ x n, entry_hits r v k x + n) 0 entries) (cr_analyses r) (cr_analyses r').
Proof.
  intros Hw.
  enough (∃ r', foldM add_entry r entries = Ret r' ∧ cr_anchors r' = cr_anchors r ∧
    gains (λ v k, foldr (λ x n, entry_hits r v k x + n) 0 entries) (cr_analyses r) (cr_analyses r'))
    as (r' & E & _ & G) by eauto.
  revert r Hw. induction entries as [|x entries IH]; intros r Hw.
  { exists r. split; [done|]. split; [done|]. apply gains_refl. }
  destruct (add_entry_spec r x Hw) as (r1 & E1 & A1 & _ & G1).
  destruct (IH r1) as (r2 & E2 & A2 & G2); [by eapply gains_wf|].
  exists r2. simpl. rewrite E1, bind_Ret. split; [exact E2|]. split; [congruence|].
  eapply gains_ext; [|by eapply gains_trans]. intros v k. simpl. f_equal.
  unfold entry_hits, anchors_of. by rewrite A1.
Qed.
End add_hits.

(** ** Summaries *)

Section summaries.
Context `{!HashOrder Version}.

(** The items of a file, over all versions. *)
Definition file_items (r : CoverageReport) (path : Path) (versions : list (Version * SourceAnalysis))
    : list CoverageItem :=
  versions ≫= λ p, filter (λ item, cr_source_paths r !! (p.1, sl_source_id (ci_loc item)) = Some path)
                     (sa_all_items p.2).

(** One item in the entry of its file. *)
Definition push_item {T} (init : T) (f : T → CoverageItem → T) (o : option T) (item : CoverageItem)
    : option T := Some (f (default init o) item).

Lemma push_items {T} (init : T) f o items :
  foldl (push_item init f) o items =
    match items with [] => o | _ => Some (foldl f (default init o) items) end.
Proof.
  revert o. induction items as [|i items IH]; intros o; simpl; [done|]. rewrite IH. by destruct items.
Qed.

Lemma by_file_items {T} (init : T) f r path v items (m : gmap Path T) :
  foldl (λ m item, match cr_source_paths r !! (v, sl_source_id (ci_loc item)) with
                   | None => m
                   | Some path => <[path := f (default init (m !! path)) item]> m
                   end) m items !! path =
  foldl (push_item init f) (m !! path)
    (filter (λ item, cr_source_paths r !! (v, sl_source_id (ci_loc item)) = Some path) items).
Proof.
  revert m. induction items as [|item items IH]; intros m; [done|]. rewrite filter_cons. simpl foldl at 1.
  rewrite IH. destruct (cr_source_paths r !! (v, sl_source_id (ci_loc item))) as [q|] eqn:Eq.
  - destruct (decide (q = path)) as [->|Hq].
    + by rewrite lookup_insert_eq, decide_True by done.
    + by rewrite lookup_insert_ne, decide_False by congruence.
  - by rewrite decide_False by congruence.
Qed.

Lemma by_file_spec {T} (init : T) (f : T → CoverageItem → T) r path :
  by_file init f r !! path =
    match file_items r path (map_pairs (cr_analyses r)) with
    | [] => None
    | items => Some (foldl f init items)
    end.
Proof.
  transitivity (foldl (push_item init f) None (file_items r path (map_pairs (cr_analyses r))));
    [|rewrite push_items; by destruct (file_items r path _)].
  unfold by_file. rewrite <-(lookup_empty (M := gmap Path) path). generalize (∅ : gmap Path T).
  induction (map_pairs (cr_analyses r)) as [|[v a] versions IH]; intros m; [done|].
  unfold file_items. rewrite bind_cons, foldl_app. simpl foldl at 1. rewrite IH.
  by rewrite by_file_items.
Qed.

Lemma add_item_swap s x y : add_item (add_item s x) y = add_item (add_item s y) x.
Proof.
  destruct s. unfold add_item. destruct (ci_kind x), (ci_kind y); f_equal; lia.
Qed.

Lemma from_items_perm items items' : items ≡ₚ items' → from_items items = from_items items'.
Proof.
  unfold from_items, add_items. generalize summary_default. intros s Hp. revert s.
  induction Hp as [|x l l' _ IH|x y l|l1 l2 l3 _ IH1 _ IH2]; intros s; simpl.
  - done.
  - apply IH.
  - by rewrite add_item_swap.
  - by rewrite IH1.
Qed.

(** The four kinds of items. *)
Inductive KindTag : Type := TagLine | TagStatement | TagBranch | TagFunction.

#[export] Instance kind_tag_eq : EqDecision KindTag.
Proof. solve_decision. Defined.

Definition tag_of (i : CoverageItem) : KindTag :=
  match ci_kind i with
  | KLine => TagLine
  | KStatement => TagStatement
  | KBranch _ _ _ => TagBranch
  | KFunction _ => TagFunction
  end.

Definition summary_count (s : CoverageSummary) (t : KindTag) : nat :=
  match t with
  | TagLine => cs_line_count s
  | TagStatement => cs_statement_count s
  | TagBranch => cs_branch_count s
  | TagFunction => cs_function_count s
  end.

Definition summary_hits (s : CoverageSummary) (t : KindTag) : nat :=
  match t with
  | TagLine => cs_line_hits s
  | TagStatement => cs_statement_hits s
  | TagBranch => cs_branch_hits s
  | TagFunction => cs_function_hits s
  end.

Definition of_tag (t : KindTag) (i : CoverageItem) : Prop := tag_of i = t.
Definition covered (t : KindTag) (i : CoverageItem) : Prop := tag_of i = t ∧ 0 < ci_hits i.

#[export] Instance covered_dec t i : Decision (covered t i).
Proof. unfold covered. apply _. Defined.

#[export] Instance of_tag_dec t i : Decision (of_tag t i).
Proof. unfold of_tag. apply _. Defined.

Lemma add_item_counts s i t :
  summary_count (add_item s i) t = (summary_count s t + if decide (of_tag t i) then 1 else 0)%nat ∧
  summary_hits (add_item s i) t = (summary_hits s t + if decide (covered t i) then 1 else 0)%nat.
Proof.
  assert ((if decide (covered t i) then 1 else 0)%nat =
    (if decide (of_tag t i) then if (0 <? ci_hits i)%Z then 1 else 0 else 0)%nat) as ->.
  { unfold covered, of_tag. destruct (Z.ltb_spec 0 (ci_hits i)); repeat case_decide; lia || naive_solver lia. }
  destruct s, i as [k loc hits]. destruct k, t; simpl; lia.
Qed.

Lemma from_items_counts items t :
  summary_count (from_items items) t = length (filter (of_tag t) items) ∧
  summary_hits (from_items items) t = length (filter (covered t) items).
Proof.
  unfold from_items, add_items.
  assert (∀ s, summary_count (foldl add_item s items) t =
                 (summary_count s t + length (filter (of_tag t) items))%nat ∧
               summary_hits (foldl add_item s items) t =
                 (summary_hits s t + length (filter (covered t) items))%nat) as H.
  { induction items as [|i items IH]; intros s; simpl; [lia|].
    destruct (IH (add_item s i)) as [-> ->], (add_item_counts s i t) as [-> ->].
    rewrite !filter_cons. split; case_decide; simpl; lia. }
  destruct (H summary_default) as [-> ->]. by destruct t.
Qed.

(** the summary of a file counts, for lines, statements, branches and
    functions, its items over all compiler versions and those of them that were
    hit, in whatever order the versions are iterated; a file without items has
    no summary. *)
Theorem summary_by_file_correct (r : CoverageReport) (path : Path) :
  let items := file_items r path (map_to_list (cr_analyses r)) in
  match summary_by_file r !! path with
  | None => items = []
  | Some s => items ≠ [] ∧
      ∀ t, summary_count s t = length (filter (of_tag t) items) ∧
           summary_hits s t = length (filter (covered t) items) ∧
           (summary_hits s t ≤ summary_count s t)%nat
  end.
Proof.
  intros items. unfold summary_by_file. rewrite by_file_spec.
  assert (file_items r path (map_pairs (cr_analyses r)) ≡ₚ items) as Hp
    by (unfold items, file_items; by rewrite map_pairs_perm).
  destruct (file_items r path (map_pairs (cr_analyses r))) as [|i l] eqn:E.
  { by apply Permutation_nil_l in Hp. }
  change (foldl add_item summary_default (i :: l)) with (from_items (i :: l)).
  rewrite (from_items_perm _ _ Hp). split.
  { intros Hi. rewrite Hi in Hp. by apply Permutation_nil_r in Hp. }
  intros t. destruct (from_items_counts items t) as [-> ->]. split; [done|]. split; [done|].
  clear. induction items as [|j items IH]; [done|]. rewrite !filter_cons.
  unfold of_tag at 1, covered at 1. repeat case_decide; simpl; naive_solver lia.
Qed.

Lemma file_items_elem r path item :
  item ∈ file_items r path (map_to_list (cr_analyses r)) ↔
  ∃ v a, cr_analyses r !! v = Some a ∧ item ∈ sa_all_items a ∧
    cr_source_paths r !! (v, sl_source_id (ci_loc item)) = Some path.
Proof.
  unfold file_items. rewrite list_elem_of_bind. setoid_rewrite list_elem_of_filter. split.
  - intros ([v a] & [Hp Hi] & Hin%elem_of_map_to_list). eauto.
  - intros (v & a & Ha & Hi & Hp). exists (v, a). rewrite elem_of_map_to_list. done.
Qed.

(** Keeping some sources keeps exactly their items. *)
Lemma retain_sources_items r predicate path item :
  let r' := retain_sources r predicate in
  item ∈ file_items r' path (map_to_list (cr_analyses r')) ↔
  predicate path = true ∧ item ∈ file_items r path (map_to_list (cr_analyses r)).
Proof.
  intros r'. rewrite !file_items_elem. unfold r', retain_sources, with_analyses. simpl. split.
  - intros (v & a & [Ha Hne]%map_lookup_filter_Some & Hi & Hp). rewrite map_lookup_imap in Ha.
    destruct (cr_analyses r !! v) as [a0|] eqn:E; [|done]. simplify_eq/=.
    apply list_elem_of_filter in Hi as [Hk Hi]. rewrite Hp in Hk. split; [done|]. eauto.
  - intros (Hpred & v & a & Ha & Hi & Hp). exists v. eexists. split; [|split; [|exact Hp]].
    + apply map_lookup_filter_Some. rewrite map_lookup_imap, Ha. simpl. split; [done|]. simpl.
      intros Hn. eapply not_elem_of_nil. rewrite <-Hn. apply list_elem_of_filter. rewrite Hp. done.
    + simpl. apply list_elem_of_filter. rewrite Hp. done.
Qed.
End summaries.

Definition ex_loc : SourceLocation :=
  {| sl_source_id := 0; sl_contract_name := "C"; sl_bytes := (0, 1); sl_lines := (1, 2) |}.

Definition ex_id : ContractId := {| ci_version := "0.8"; ci_source_id := 0; ci_contract_name := "C" |}.

(** One line with two anchors in the deployed code. *)
Definition ex_report : CoverageReport :=
  {| cr_source_paths := {[("0.8", 0) := "a.sol"]}; cr_source_paths_to_ids := {[("0.8", "a.sol") := 0]};
     cr_analyses := {["0.8" := {| sa_all_items := [{| ci_kind := KLine; ci_loc := ex_loc; ci_hits := 0 |}];
                                  sa_map := [(0, 1)] |}]};
     cr_anchors := {[ex_id := ([], [{| ia_instruction := 3; ia_item_id := 0 |};
                                    {| ia_instruction := 5; ia_item_id := 0 |}])]};
     cr_bytecode_hits := ∅ |}.

Lemma add_hit_maps_correct_witness :
  ∃ r' item, foldM add_entry ex_report
      [((ex_id, {| hm_hits := {[3 := 2]}; hm_bytecode := [] |}), true);
       ((ex_id, {| hm_hits := {[5 := 4]}; hm_bytecode := [] |}), true)] = Ret r' ∧
    item_at (cr_analyses r') "0.8" 0 = Some item ∧ wrap 32 (ci_hits item) = 6.
Proof.
  destruct (add_hit_maps_correct ex_report
    [((ex_id, {| hm_hits := {[3 := 2]}; hm_bytecode := [] |}), true);
     ((ex_id, {| hm_hits := {[5 := 4]}; hm_bytecode := [] |}), true)]) as (r' & E & G).
  - intros id b. unfold anchors_of, ex_report. simpl. destruct (decide (id = ex_id)) as [->|Hid].
    + rewrite lookup_singleton_eq. destruct b; [|constructor].
      repeat apply Forall_cons_2; [by eexists|by eexists|constructor].
    + rewrite lookup_singleton_ne by done. constructor.
  - specialize (G "0.8" 0%nat). exists r'.
    destruct (item_at (cr_analyses r') "0.8" 0) as [item|] eqn:Ei; [|done].
    exists item. split; [exact E|]. split; [done|]. destruct G as (_ & _ & ->). by vm_compute.
Defined.
