(* ===== verification/FsPermissions.v ===== *)
(** * File system permissions
    (crates/config/src/fs_permissions.rs, [normalize_path] of
    crates/common/src/fs.rs, and the access checks of
    crates/cheatcodes/src/config.rs)

    Cheatcodes may touch a file only where the configuration permits it.  A path
    is joined to the root of the project and canonicalised, and the permission
    with the longest matching path decides.  Paths are lists of components, as
    [Path::components] gives them on Unix. *)

From stdpp Require Import prelude list strings.
From Stdlib Require String.
From S2P Require Import Prelude.


(** ** Paths *)

Inductive Component : Type := RootDir | CurDir | ParentDir | Normal (name : string).

#[export] Instance component_eq : EqDecision Component.
Proof. solve_decision. Defined.

Abbreviation PathBuf := (list Component).

Definition component_rank (c : Component) : nat :=
  match c with RootDir => 0 | CurDir => 1 | ParentDir => 2 | Normal _ => 3 end.

Definition component_cmp (a b : Component) : comparison :=
  match a, b with
  | Normal x, Normal y => String.compare x y
  | _, _ => Nat.compare (component_rank a) (component_rank b)
  end.

(** [Ord] of paths: component by component. *)
Fixpoint path_cmp (a b : PathBuf) : comparison :=
  match a, b with
  | [], [] => Eq
  | [], _ :: _ => Lt
  | _ :: _, [] => Gt
  | x :: a, y :: b => match component_cmp x y with Eq => path_cmp a b | c => c end
  end.

Definition path_lt (a b : PathBuf) : bool := match path_cmp a b with Lt => true | _ => false end.

(** [Path::starts_with]. *)
Definition starts_with (p base : PathBuf) : bool := bool_decide (take (length base) p = base).

(** [Path::join]: an absolute path replaces the base; a leading dot is dropped. *)
Definition path_join (base p : PathBuf) : PathBuf :=
  match p with
  | RootDir :: _ => p
  | CurDir :: p' => if bool_decide (base = []) then p else base ++ p'
  | _ => base ++ p
  end.

(** [PathBuf::pop]. *)
Definition path_pop (p : PathBuf) : PathBuf :=
  match p with [] => [] | [RootDir] => [RootDir] | _ => take (length p - 1) p end.

(** The loop of [normalize_path]; on Unix no path has a prefix component. *)
Definition normalize_step (ret : PathBuf) (c : Component) : PathBuf :=
  match c with
  | RootDir => [RootDir]
  | CurDir => ret
  | ParentDir => path_pop ret
  | Normal n => ret ++ [Normal n]
  end.

Definition normalize_path (p : PathBuf) : PathBuf := foldl normalize_step [] p.

(** ** Permissions *)

Inductive FsAccessKind : Type := AccessRead | AccessWrite.

Inductive FsAccessPermission : Type := PermNone | PermReadWrite | PermRead | PermWrite.

#[export] Instance permission_eq : EqDecision FsAccessPermission.
Proof. solve_decision. Defined.

Definition is_granted (p : FsAccessPermission) (kind : FsAccessKind) : bool :=
  match p, kind with
  | PermReadWrite, _ => true
  | PermNone, _ => false
  | PermRead, AccessRead => true
  | PermWrite, AccessWrite => true
  | _, _ => false
  end.

Definition permission_from_str (s : string) : result FsAccessPermission string :=
  if String.eqb s "true" || String.eqb s "read-write" || String.eqb s "readwrite" then Ok PermReadWrite
  else if String.eqb s "false" || String.eqb s "none" then Ok PermNone
  else if String.eqb s "read" then Ok PermRead
  else if String.eqb s "write" then Ok PermWrite
  else Err s.

Definition permission_display (p : FsAccessPermission) : string :=
  match p with
  | PermReadWrite => "read-write"
  | PermNone => "none"
  | PermRead => "read"
  | PermWrite => "write"
  end.

(** The two forms of a permission in a configuration file. *)
Inductive Status : Type := StatusBool (b : bool) | StatusString (s : string).

Definition permission_serialize (p : FsAccessPermission) : Status :=
  match p with
  | PermReadWrite => StatusBool true
  | PermNone => StatusBool false
  | PermRead => StatusString "read"
  | PermWrite => StatusString "write"
  end.

Definition permission_deserialize (s : Status) : result FsAccessPermission string :=
  match s with
  | StatusBool enabled => Ok (if enabled then PermReadWrite else PermNone)
  | StatusString val => permission_from_str val
  end.

Record PathPermission := { pp_access : FsAccessPermission; pp_path : PathBuf }.

Record FsPermissions := { fp_permissions : list PathPermission }.

Definition add_permission (f : FsPermissions) (p : PathPermission) : FsPermissions :=
  {| fp_permissions := fp_permissions f ++ [p] |}.

Definition join_all (f : FsPermissions) (root : PathBuf) : FsPermissions :=
  {| fp_permissions := (λ p, {| pp_access := pp_access p; pp_path := path_join root (pp_path p) |}) <$>
       fp_permissions f |}.

Definition remove_permission (f : FsPermissions) (path : PathBuf) : FsPermissions :=
  {| fp_permissions := filter (λ p, pp_path p ≠ path) (fp_permissions f) |}.

Section permissions.
(** [canonicalize] of the file system: the path with links resolved, or nothing
    if there is no such file. *)
Context (canonicalize : PathBuf → option PathBuf).

(** One permission of the loop of [find_permission]. *)
Definition find_step (path : PathBuf) (active : option PathPermission) (perm : PathPermission)
    : option PathPermission :=
  if starts_with path (default (pp_path perm) (canonicalize (pp_path perm))) then
    match active with
    | Some active_perm => if path_lt (pp_path perm) (pp_path active_perm) then active else Some perm
    | None => Some perm
    end
  else active.

Definition find_permission (f : FsPermissions) (path : PathBuf) : option FsAccessPermission :=
  pp_access <$> foldl (find_step path) None (fp_permissions f).

Definition is_path_allowed (f : FsPermissions) (path : PathBuf) (kind : FsAccessKind) : bool :=
  match find_permission f path with Some p => is_granted p kind | None => false end.

(** ** The configuration of the cheatcodes *)

Record CheatsConfig := { cc_root : PathBuf; cc_fs_permissions : FsPermissions }.

Definition normalized_path (cfg : CheatsConfig) (path : PathBuf) : PathBuf :=
  let path := path_join (cc_root cfg) path in
  match canonicalize path with Some p => p | None => normalize_path path end.

(** The path an error shows: below the root it is relative to it, elsewhere the one
    that was given. *)
Definition shown_path (cfg : CheatsConfig) (path normalized : PathBuf) : PathBuf :=
  if starts_with normalized (cc_root cfg) then drop (length (cc_root cfg)) normalized else path.

(** The error names the path and the kind of access. *)
Definition ensure_path_allowed (cfg : CheatsConfig) (path : PathBuf) (kind : FsAccessKind)
    : result PathBuf (PathBuf * FsAccessKind) :=
  let normalized := normalized_path cfg path in
  if is_path_allowed (cc_fs_permissions cfg) normalized kind then Ok normalized
  else Err (shown_path cfg path normalized, kind).

(** ** Properties *)

(** A permission decides for a path: it matches, no matching one is longer, and
    no matching one of its length comes later. *)
Definition decides (perms : list PathPermission) (path : PathBuf) (i : nat) (perm : PathPermission) : Prop :=
  perms !! i = Some perm ∧ pp_path perm `prefix_of` path ∧
  ∀ j other, perms !! j = Some other → pp_path other `prefix_of` path →
    length (pp_path other) < length (pp_path perm) ∨
    (length (pp_path other) = length (pp_path perm) ∧ j ≤ i).

Lemma component_cmp_refl c : component_cmp c c = Eq.
Proof. destruct c as [| | |n]; [done..|]. simpl. induction n as [|a n IH]; [done|]. simpl.
  unfold Ascii.compare. by rewrite N.compare_refl. Qed.

(** Of two beginnings of a path the shorter is the smaller. *)
Lemma path_lt_prefix a b p :
  a `prefix_of` p → b `prefix_of` p → path_lt a b = bool_decide (length a < length b).
Proof.
  unfold path_lt. revert a b. induction p as [|c p IH]; intros a b Ha Hb.
  - apply prefix_nil_inv in Ha as ->. apply prefix_nil_inv in Hb as ->. done.
  - destruct a as [|x a], b as [|y b]; [done|done|done|].
    apply prefix_cons_inv_1 in Ha as Hx. apply prefix_cons_inv_2 in Ha.
    apply prefix_cons_inv_1 in Hb as Hy. apply prefix_cons_inv_2 in Hb. subst. simpl.
    rewrite component_cmp_refl, (IH a b) by done. apply bool_decide_ext. lia.
Qed.

Lemma starts_with_prefix p base : starts_with p base = true ↔ base `prefix_of` p.
Proof.
  unfold starts_with. rewrite bool_decide_eq_true. split.
  - intros E. exists (drop (length base) p). rewrite <-E at 1. by rewrite take_drop.
  - intros [k ->]. apply take_app_length.
Qed.

(** The paths of the permissions are their own canonical form. *)
Definition canonical (perms : list PathPermission) : Prop :=
  Forall (λ p, canonicalize (pp_path p) = Some (pp_path p) ∨ canonicalize (pp_path p) = None) perms.

Lemma find_fold perms path :
  canonical perms →
  match foldl (find_step path) None perms with
  | Some perm => ∃ i, decides perms path i perm
  | None => Forall (λ p, ¬ pp_path p `prefix_of` path) perms
  end.
Proof.
  intros Hc. induction perms as [|perm perms IH] using rev_ind; [constructor|].
  apply Forall_app in Hc as [Hc [Hp _]%Forall_cons]. specialize (IH Hc). rewrite foldl_app. simpl.
  unfold find_step at 1.
  assert (default (pp_path perm) (canonicalize (pp_path perm)) = pp_path perm) as ->
    by (destruct Hp as [-> | ->]; done).
  destruct (starts_with path (pp_path perm)) eqn:Es.
  - apply starts_with_prefix in Es. destruct (foldl _ None perms) as [active|].
    + destruct IH as (i & Hi & Ha & Hmax). rewrite (path_lt_prefix _ _ path) by done.
      pose proof (lookup_lt_Some _ _ _ Hi). case_bool_decide as Hlt.
      * exists i. split; [by rewrite lookup_app_l|]. split; [done|].
        intros j other [Hj|[Hj Hj']]%lookup_app_Some; [by apply Hmax|].
        apply list_lookup_singleton_Some in Hj' as [_ <-]. auto.
      * exists (length perms). split; [by rewrite list_lookup_middle|]. split; [done|].
        intros j other [Hj|[Hj Hj']]%lookup_app_Some Hother.
        -- pose proof (lookup_lt_Some _ _ _ Hj). destruct (Hmax j other Hj Hother); lia.
        -- apply list_lookup_singleton_Some in Hj' as [? <-]. right. lia.
    + exists (length perms). split; [by rewrite list_lookup_middle|]. split; [done|].
      intros j other [Hj|[Hj Hj']]%lookup_app_Some Hother.
      * rewrite Forall_lookup in IH. by apply IH in Hj.
      * apply list_lookup_singleton_Some in Hj' as [? <-]. right. lia.
  - assert (¬ pp_path perm `prefix_of` path) as Hn by (rewrite <-starts_with_prefix; congruence).
    destruct (foldl _ None perms) as [active|].
    + destruct IH as (i & Hi & Ha & Hmax). exists i. pose proof (lookup_lt_Some _ _ _ Hi).
      split; [by rewrite lookup_app_l|]. split; [done|].
      intros j other [Hj|[Hj Hj']]%lookup_app_Some Hother; [by apply Hmax|].
      by apply list_lookup_singleton_Some in Hj' as [_ <-].
    + by apply Forall_app_2, Forall_singleton.
Qed.

(** The permission found is one whose path leads above the path. *)
Definition leads_above (path : PathBuf) (perm : PathPermission) : Prop :=
  default (pp_path perm) (canonicalize (pp_path perm)) `prefix_of` path.

Lemma find_leads perms path :
  match foldl (find_step path) None perms with
  | Some perm => perm ∈ perms ∧ leads_above path perm
  | None => Forall (λ perm, ¬ leads_above path perm) perms
  end.
Proof.
  induction perms as [|perm perms IH] using rev_ind; [constructor|]. rewrite foldl_app. simpl.
  unfold find_step at 1. destruct (starts_with path _) eqn:Es.
  - apply starts_with_prefix in Es. destruct (foldl _ None perms) as [active|]; [|set_solver].
    destruct (path_lt _ _); set_solver.
  - assert (¬ leads_above path perm) as Hn by (unfold leads_above; rewrite <-starts_with_prefix; congruence).
    destruct (foldl _ None perms) as [active|]; [set_solver|]. by apply Forall_app_2, Forall_singleton.
Qed.

(** An absolute path without dots. *)
Definition plain (p : PathBuf) : Prop := ∃ names, p = RootDir :: (Normal <$> names).

Lemma path_pop_plain p : plain p → plain (path_pop p).
Proof.
  intros [names ->]. destruct names as [|n names] using rev_ind; [by exists []|].
  exists names. rewrite fmap_app. unfold path_pop. destruct (Normal <$> names) eqn:E; simpl.
  - done.
  - f_equal. rewrite length_app. simpl. rewrite Nat.add_1_r. simpl. f_equal. apply take_app_length'. simpl. lia.
Qed.

Lemma normalize_path_plain p : plain (normalize_path (RootDir :: p)).
Proof.
  unfold normalize_path. simpl. assert (plain [RootDir]) as H by (by exists []).
  revert H. generalize [RootDir]. induction p as [|c p IH]; intros ret Hret; [done|]. simpl.
  apply IH. destruct c as [| | |n]; simpl; [by exists []|done|by apply path_pop_plain|].
  destruct Hret as [names ->]. exists (names ++ [n]). by rewrite fmap_app.
Qed.

Lemma normalized_path_plain cfg path :
  (∀ p q, canonicalize p = Some q → plain q) → (∃ r, cc_root cfg = RootDir :: r) →
  plain (normalized_path cfg path).
Proof.
  intros Hc [r Hr]. unfold normalized_path.
  assert (∃ p, path_join (cc_root cfg) path = RootDir :: p) as [p ->].
  { rewrite Hr. unfold path_join. destruct path as [|[| | |n] path]; simpl; eauto. }
  destruct (canonicalize _) eqn:E; [by eapply Hc|apply normalize_path_plain].
Qed.

(** C27: with an absolute root and a file system that resolves paths to absolute
    ones without dots, the path a cheatcode may use is absolute and without dots.
    Access is granted only if some permission whose path, with links resolved,
    lies above it grants it, and denied when there is no such permission.  If
    moreover the permissions are on canonical paths (none of them is resolved to
    another path), access is granted exactly when the longest permission above
    the path, the last one of those, grants it. *)
Theorem ensure_path_allowed_correct (cfg : CheatsConfig) (path : PathBuf) (kind : FsAccessKind) :
  (∀ p q, canonicalize p = Some q → plain q) → (∃ r, cc_root cfg = RootDir :: r) →
  let perms := fp_permissions (cc_fs_permissions cfg) in
  let p := normalized_path cfg path in
  plain p ∧
  match ensure_path_allowed cfg path kind with
  | Ok q => q = p ∧ (∃ perm, perm ∈ perms ∧ leads_above p perm ∧ is_granted (pp_access perm) kind = true) ∧
      (canonical perms → ∃ i perm, decides perms p i perm ∧ is_granted (pp_access perm) kind = true)
  | Err e => e = (shown_path cfg path p, kind) ∧
      (Forall (λ perm, ¬ leads_above p perm) perms ∨
       ∃ perm, perm ∈ perms ∧ leads_above p perm ∧ is_granted (pp_access perm) kind = false) ∧
      (canonical perms → Forall (λ perm, ¬ pp_path perm `prefix_of` p) perms ∨
       ∃ i perm, decides perms p i perm ∧ is_granted (pp_access perm) kind = false)
  end.
Proof.
  intros Hc Hr perms p. split; [by apply normalized_path_plain|].
  unfold ensure_path_allowed, is_path_allowed, find_permission. fold p.
  pose proof (find_fold perms p) as H. pose proof (find_leads perms p) as Hl.
  fold perms. destruct (foldl (find_step p) None perms) as [perm|]; simpl; [|auto].
  destruct (is_granted (pp_access perm) kind) eqn:Eg.
  - split_and!; [done|naive_solver|]. intros Hp. destruct (H Hp) as [i Hi]. eauto.
  - split_and!; [done|naive_solver|]. intros Hp. destruct (H Hp) as [i Hi]. eauto.
Qed.
End permissions.

(** What is written to a configuration file is read back. *)
Lemma permission_roundtrip p :
  permission_deserialize (permission_serialize p) = Ok p ∧
  permission_from_str (permission_display p) = Ok p.
Proof. by destruct p. Qed.

Definition ex_path (names : list string) : PathBuf := RootDir :: (Normal <$> names).

(** The example of the source: the longest of three nested permissions. *)
Definition ex_config : CheatsConfig :=
  {| cc_root := ex_path ["p"];
     cc_fs_permissions := {| fp_permissions :=
       [{| pp_access := PermReadWrite; pp_path := ex_path ["p"; "out"; "contracts"] |};
        {| pp_access := PermRead; pp_path := ex_path ["p"] |};
        {| pp_access := PermWrite; pp_path := ex_path ["p"; "out"] |}] |} |}.

Lemma ensure_path_allowed_correct_witness :
  ensure_path_allowed (λ _, None) ex_config [CurDir; Normal "lib"; ParentDir; Normal "out"; Normal "x"] AccessWrite =
    Ok (ex_path ["p"; "out"; "x"]).
Proof.
  destruct (ensure_path_allowed_correct (λ _, None) ex_config
    [CurDir; Normal "lib"; ParentDir; Normal "out"; Normal "x"] AccessWrite) as [_ H].
  - done.
  - by eexists.
  - destruct (ensure_path_allowed _ _ _ _) as [q|e] eqn:E; [by destruct H as [-> _]|].
    vm_compute in E. done.
Defined.

(** A permission on a link matches where the link leads, and is ranked by where
    it lies: the wider permission wins over the narrower one. *)
Lemma link_permission_outranked :
  let canonicalize p := if bool_decide (p = ex_path ["a"]) then Some (ex_path ["d"; "out"]) else Some p in
  let perms := {| fp_permissions := [{| pp_access := PermReadWrite; pp_path := ex_path ["d"] |};
                                     {| pp_access := PermNone; pp_path := ex_path ["a"] |}] |} in
  starts_with (ex_path ["d"; "out"; "x"]) (default [] (canonicalize (ex_path ["a"]))) = true ∧
  find_permission canonicalize perms (ex_path ["d"; "out"; "x"]) = Some PermReadWrite.
Proof. by vm_compute. Qed.

(** A file that does not exist yet is checked by its name alone: below a link
    that leaves the project it is allowed, though it is created elsewhere. *)
Lemma new_file_below_link :
  let canonicalize p := if bool_decide (p = ex_path ["p"; "link"]) then Some (ex_path ["etc"]) else None in
  let cfg := {| cc_root := ex_path ["p"];
                cc_fs_permissions := {| fp_permissions :=
                  [{| pp_access := PermReadWrite; pp_path := ex_path ["p"] |}] |} |} in
  ensure_path_allowed canonicalize cfg [Normal "link"] AccessWrite =
    Err ([Normal "link"], AccessWrite) ∧
  ensure_path_allowed canonicalize cfg [Normal "link"; Normal "new"] AccessWrite =
    Ok (ex_path ["p"; "link"; "new"]).
Proof. by vm_compute. Qed.
