(* ===== verification/Shrink.v ===== *)
(** * Shrinking of failing call sequences
    (crates/evm/evm/src/executors/invariant/shrink.rs)

    When a sequence of calls breaks an invariant, the calls are removed one by
    one, from the first to the last, and a removal is kept if the invariant is
    still broken without the call.  The executor of the virtual machine is an
    interface: running a call gives a new executor, or an error. *)

From stdpp Require Import prelude list.
From S2P Require Import Prelude.

(** ** The executor *)

Record RawCallResult := { rc_reverted : bool; rc_result : list Z }.

Class InvariantExecutor (Exec Tx : Type) := {
  transact_raw : Exec → Tx → option (Exec * RawCallResult);
  call_invariant_function : Exec → option bool;
  call_after_invariant_function : Exec → option bool;
  magic_assume_bytes : list Z
}.

Section shrink.
Context {Exec Tx : Type} `{InvariantExecutor Exec Tx}.

(** The loop of [check_sequence]: the executor after the calls, or that a call
    failed the test; [None] is an error of the executor. *)
Fixpoint apply_sequence (executor : Exec) (calls : list Tx) (fail_on_revert : bool) (sequence : list nat)
    : outcome (option (Exec + unit)) :=
  match sequence with
  | [] => Ret (Some (inl executor))
  | call_index :: sequence =>
      tx ← expect (calls !! call_index);
      match transact_raw executor tx with
      | None => Ret None
      | Some (executor, r) =>
          if rc_reverted r && fail_on_revert && negb (bool_decide (rc_result r = magic_assume_bytes))
          then Ret (Some (inr tt))
          else apply_sequence executor calls fail_on_revert sequence
      end
  end.

(** Whether the sequence passes, and whether it was applied to the end. *)
Definition check_sequence (executor : Exec) (calls : list Tx) (sequence : list nat)
    (fail_on_revert call_after_invariant : bool) : outcome (option (bool * bool)) :=
  applied ← apply_sequence executor calls fail_on_revert sequence;
  Ret (applied' ← applied;
       match applied' with
       | inr _ => Some (false, false)
       | inl executor =>
           success ← call_invariant_function executor;
           success ← (if success && call_after_invariant then call_after_invariant_function executor
                      else Some success);
           Some (success, true)
       end).

(** ** The shrinker *)

Record CallSequenceShrinker := {
  sh_call_sequence_len : nat;
  sh_included_calls : list bool;
  sh_shrink : nat;
  sh_prev_shrink : option nat
}.

Definition shrinker_new (len : nat) : CallSequenceShrinker :=
  {| sh_call_sequence_len := len; sh_included_calls := replicate len true; sh_shrink := 0;
     sh_prev_shrink := None |}.

(** The indices that are set. *)
Definition indices (included : list bool) (len : nat) : list nat :=
  filter (λ i, included !! i = Some true) (seq 0 len).

Definition shrinker_current (s : CallSequenceShrinker) : list nat :=
  indices (sh_included_calls s) (sh_call_sequence_len s).

Definition shrinker_simplify (s : CallSequenceShrinker) : CallSequenceShrinker * bool :=
  if bool_decide (sh_call_sequence_len s ≤ sh_shrink s) then (s, false)
  else
    ({| sh_call_sequence_len := sh_call_sequence_len s;
        sh_included_calls := <[sh_shrink s := false]> (sh_included_calls s);
        sh_shrink := sh_shrink s + 1;
        sh_prev_shrink := Some (sh_shrink s) |}, true).

Definition shrinker_complicate (s : CallSequenceShrinker) : CallSequenceShrinker * bool :=
  match sh_prev_shrink s with
  | Some i =>
      shrinker_simplify
        {| sh_call_sequence_len := sh_call_sequence_len s;
           sh_included_calls := <[i := true]> (sh_included_calls s);
           sh_shrink := sh_shrink s;
           sh_prev_shrink := None |}
  | None => (s, false)
  end.

(** What is shrunk, and how failures are judged. *)
Record FailedCase := {
  fc_shrink_run_limit : nat;
  fc_fail_on_revert : bool;
  fc_call_after_invariant : bool
}.

(** The [for] loop, with the runs that are left. *)
Fixpoint shrink_loop (fc : FailedCase) (calls : list Tx) (executor : Exec) (runs : nat)
    (s : CallSequenceShrinker) : outcome CallSequenceShrinker :=
  match runs with
  | 0 => Ret s
  | S runs =>
      r ← check_sequence executor calls (shrinker_current s) (fc_fail_on_revert fc)
            (fc_call_after_invariant fc);
      match r with
      | Some (false, _) =>
          let '(s, more) := shrinker_simplify s in
          if more then shrink_loop fc calls executor runs s else Ret s
      | Some (true, _) =>
          let '(s, more) := shrinker_complicate s in
          if more then shrink_loop fc calls executor runs s else Ret s
      | None => shrink_loop fc calls executor runs s
      end
  end.

(** [None] is the error of the first check. *)
Definition shrink_sequence (fc : FailedCase) (calls : list Tx) (executor : Exec)
    : outcome (option (list Tx)) :=
  match call_invariant_function executor with
  | None => Ret None
  | Some false => Ret (Some [])
  | Some true =>
      s ← shrink_loop fc calls executor (fc_shrink_run_limit fc) (shrinker_new (length calls));
      out ← foldM (λ out i, tx ← expect (calls !! i); Ret (out ++ [tx])) [] (shrinker_current s);
      Ret (Some out)
  end.

(** ** Which sequences fail *)

(** The calls of a candidate run one after the other on an executor. *)
Fixpoint breaks (fail_on_revert call_after_invariant : bool) (executor : Exec) (txs : list Tx)
    : option bool :=
  match txs with
  | [] =>
      success ← call_invariant_function executor;
      success ← (if success && call_after_invariant then call_after_invariant_function executor
                 else Some success);
      Some (negb success)
  | tx :: txs =>
      '(executor, r) ← transact_raw executor tx;
      if rc_reverted r && fail_on_revert && negb (bool_decide (rc_result r = magic_assume_bytes))
      then Some true else breaks fail_on_revert call_after_invariant executor txs
  end.

(** The calls at some indices. *)
Definition at_indices (calls : list Tx) (ids : list nat) : list Tx := omap (λ i, calls !! i) ids.

Lemma check_sequence_spec executor calls ids fr ca :
  Forall (λ i, i < length calls) ids →
  ∃ r, check_sequence executor calls ids fr ca = Ret r ∧
    fst <$> r = negb <$> breaks fr ca executor (at_indices calls ids).
Proof.
  unfold check_sequence. intros Hi. revert executor. induction Hi as [|i ids Hi _ IH]; intros executor.
  - simpl. eexists. split; [done|]. simpl.
    destruct (call_invariant_function executor) as [b|]; [|done]. simpl.
    destruct (if b && ca then _ else _) as [c|]; [|done]. simpl. by rewrite negb_involutive.
  - destruct (lookup_lt_is_Some_2 calls i Hi) as [tx Etx]. unfold at_indices. simpl. rewrite Etx. simpl.
    destruct (transact_raw executor tx) as [[executor' r]|]; simpl; [|by eexists].
    destruct (rc_reverted r && fr && negb (bool_decide (rc_result r = magic_assume_bytes))); simpl;
      [by eexists|]. apply IH.
Qed.

Section loop.
Context (fc : FailedCase) (calls : list Tx) (executor : Exec).

(** The verdict on a selection of the calls. *)
Definition verdict (bits : list bool) : option bool :=
  breaks (fc_fail_on_revert fc) (fc_call_after_invariant fc) executor
    (at_indices calls (indices bits (length calls))).

(** The selection after the calls from [k] were tried. *)
Fixpoint greedy (bits : list bool) (k m : nat) : list bool :=
  match m with
  | 0 => bits
  | S m =>
      let bits' := <[k := false]> bits in
      if bool_decide (verdict bits' = Some true) then greedy bits' (k + 1) m else greedy bits (k + 1) m
  end.

Hypothesis no_errors : ∀ bits, is_Some (verdict bits).

Lemma indices_lt bits : Forall (λ i, i < length calls) (indices bits (length calls)).
Proof. apply Forall_forall. intros i [_ Hi%elem_of_seq]%list_elem_of_filter. lia. Qed.

Lemma check_verdict s :
  sh_call_sequence_len s = length calls →
  ∃ b, check_sequence executor calls (shrinker_current s) (fc_fail_on_revert fc) (fc_call_after_invariant fc) =
    Ret (Some (negb (bool_decide (verdict (sh_included_calls s) = Some true)), b)).
Proof.
  intros El. unfold shrinker_current. rewrite El.
  destruct (check_sequence_spec executor calls (indices (sh_included_calls s) (length calls))
    (fc_fail_on_revert fc) (fc_call_after_invariant fc) (indices_lt _)) as (r & -> & E).
  destruct (no_errors (sh_included_calls s)) as [v Ev]. rewrite Ev.
  unfold verdict in Ev. rewrite Ev in E. destruct r as [[p b]|]; simplify_eq/=. exists b.
  by destruct v.
Qed.

(** While call [k] is out on trial. *)
Lemma loop_greedy runs k bits :
  length bits = length calls → k < length calls → (∀ j, k ≤ j < length calls → bits !! j = Some true) →
  length calls - k ≤ runs →
  ∃ s, shrink_loop fc calls executor runs
         {| sh_call_sequence_len := length calls; sh_included_calls := <[k := false]> bits;
            sh_shrink := k + 1; sh_prev_shrink := Some k |} = Ret s ∧
    sh_call_sequence_len s = length calls ∧ sh_included_calls s = greedy bits k (length calls - k).
Proof.
  revert k bits. induction runs as [|runs IH]; intros k bits Hl Hk Hj Hr; [lia|].
  set (s0 := {| sh_call_sequence_len := length calls; sh_included_calls := <[k := false]> bits;
                sh_shrink := k + 1; sh_prev_shrink := Some k |}).
  destruct (check_verdict s0 eq_refl) as [b Eb].
  cbn [shrink_loop]. rewrite Eb, bind_Ret. cbn [s0 sh_included_calls].
  replace (length calls - k) with (S (length calls - (k + 1))) by lia. cbn [greedy].
  assert (∀ bits', length bits' = length calls → (∀ j, k + 1 ≤ j < length calls → bits' !! j = Some true) →
    ∀ p, ∃ s, (let '(s, more) := shrinker_simplify {| sh_call_sequence_len := length calls;
                  sh_included_calls := bits'; sh_shrink := k + 1; sh_prev_shrink := p |} in
               if more then shrink_loop fc calls executor runs s else Ret s) = Ret s ∧
      sh_call_sequence_len s = length calls ∧
      sh_included_calls s = greedy bits' (k + 1) (length calls - (k + 1))) as Hnext.
  { intros bits' Hl' Hj' p. unfold shrinker_simplify. simpl.
    destruct (decide (length calls ≤ k + 1)) as [Hend|Hend].
    - rewrite bool_decide_true by done. eexists. split; [reflexivity|]. split; [done|].
      by replace (length calls - (k + 1)) with 0 by lia.
    - rewrite bool_decide_false by done. apply IH; [done|lia|done|lia]. }
  clear Eb. destruct (bool_decide (verdict (<[k := false]> bits) = Some true)); simpl.
  - apply Hnext; [by rewrite length_insert|]. intros j Hj'. rewrite list_lookup_insert_ne by lia.
    apply Hj. lia.
  - unfold shrinker_complicate. simpl.
    rewrite list_insert_insert_eq, list_insert_id by (apply Hj; lia). apply Hnext; [done|].
    intros j Hj'. apply Hj. lia.
Qed.

(** Selections by inclusion. *)
Definition included (a b : list bool) : Prop := ∀ i, a !! i = Some true → b !! i = Some true.

Lemma included_strict a b :
  length a = length b → included a b → a ≠ b → ∃ i, b !! i = Some true ∧ a !! i ≠ Some true.
Proof.
  revert b. induction a as [|x a IH]; intros [|y b] Hl Hi Hne; simplify_eq/=.
  assert (included a b) as Hi' by (intros i; apply (Hi (S i))).
  destruct (decide (x = y)) as [->|Hxy].
  - destruct (IH b) as (i & ? & ?); [done|done|congruence|]. by exists (S i).
  - exists 0. destruct x, y; [done| |done|done]. by specialize (Hi 0 eq_refl).
Qed.

Lemma insert_false_lookup (bits : list bool) k i : <[k := false]> bits !! i = Some true → i ≠ k ∧ bits !! i = Some true.
Proof.
  intros E. destruct (decide (i = k)) as [->|Hi]; [|by rewrite list_lookup_insert_ne in E].
  apply list_lookup_insert_Some in E as [(_ & ? & _)|[? _]]; done.
Qed.

Lemma insert_false_included (bits : list bool) k : included (<[k := false]> bits) bits.
Proof. by intros i [_ ?]%insert_false_lookup. Qed.

Lemma insert_false_mono a b k : included a b → included (<[k := false]> a) (<[k := false]> b).
Proof.
  intros H' i [Hi E]%insert_false_lookup. rewrite list_lookup_insert_ne by done. by apply H'.
Qed.

Lemma greedy_length bits k m : length (greedy bits k m) = length bits.
Proof.
  revert bits k. induction m as [|m IH]; intros bits k; simpl; [done|].
  case_bool_decide; rewrite IH; [by rewrite length_insert|done].
Qed.

Lemma greedy_included bits k m : included (greedy bits k m) bits.
Proof.
  revert bits k. induction m as [|m IH]; intros bits k; simpl; [by intros i|].
  case_bool_decide; [|apply IH]. intros i Hi. by apply (insert_false_included bits k), (IH _ (k + 1)).
Qed.

Lemma greedy_breaks bits k m : verdict bits = Some true → verdict (greedy bits k m) = Some true.
Proof.
  revert bits k. induction m as [|m IH]; intros bits k Hb; simpl; [done|]. case_bool_decide; by apply IH.
Qed.

(** Without a call that was kept, and with all later ones, the sequence passed. *)
Lemma greedy_kept bits k m i :
  k ≤ i < k + m → greedy bits k m !! i = Some true →
  ∃ bits', included (greedy bits k m) bits' ∧ length bits' = length bits ∧
    verdict (<[i := false]> bits') = Some false.
Proof.
  revert bits k. induction m as [|m IH]; intros bits k Hi Hg; simpl in *; [lia|].
  case_bool_decide as Hv.
  - destruct (decide (i = k)) as [->|Hne].
    + apply (greedy_included (<[k := false]> bits) (k + 1) m) in Hg.
      by apply insert_false_lookup in Hg as [? _].
    + destruct (IH (<[k := false]> bits) (k + 1)) as (bits' & H1 & H2 & H3); [lia|done|].
      exists bits'. rewrite length_insert in H2. done.
  - destruct (decide (i = k)) as [->|Hne].
    + exists bits. split; [apply greedy_included|]. split; [done|].
      destruct (no_errors (<[k := false]> bits)) as [[] E]; congruence.
    + destruct (IH bits (k + 1)) as (bits' & H1 & H2 & H3); [lia|done|]. by exists bits'.
Qed.

Lemma shrinker_new_bits j : j < length calls → replicate (length calls) true !! j = Some true.
Proof. intros Hj. by apply lookup_replicate_2. Qed.

Lemma loop_from_start :
  verdict (replicate (length calls) true) = Some true → length calls < fc_shrink_run_limit fc →
  ∃ s, shrink_loop fc calls executor (fc_shrink_run_limit fc) (shrinker_new (length calls)) = Ret s ∧
    sh_call_sequence_len s = length calls ∧
    sh_included_calls s = greedy (replicate (length calls) true) 0 (length calls).
Proof.
  intros Hv Hlim. destruct (fc_shrink_run_limit fc) as [|runs]; [lia|].
  destruct (check_verdict (shrinker_new (length calls)) eq_refl) as [b Eb].
  cbn [shrink_loop]. rewrite Eb, bind_Ret. cbn [shrinker_new sh_included_calls].
  rewrite bool_decide_true by done. simpl. unfold shrinker_simplify. simpl.
  destruct (decide (length calls ≤ 0)) as [H0|H0].
  - rewrite bool_decide_true by done. eexists. split; [reflexivity|]. split; [done|]. simpl.
    by replace (length calls) with 0 by lia.
  - rewrite bool_decide_false by done. destruct (loop_greedy runs 0 (replicate (length calls) true)) as (s & E & El & Eb').
    + by rewrite length_replicate.
    + lia.
    + intros j Hj. apply shrinker_new_bits. lia.
    + lia.
    + exists s. rewrite Nat.sub_0_r in Eb'. done.
Qed.
End loop.

Lemma collect_calls calls ids :
  Forall (λ i, i < length calls) ids →
  foldM (λ out i, tx ← expect (calls !! i); Ret (out ++ [tx])) [] ids = Ret (at_indices calls ids).
Proof.
  intros Hi. set (f := λ (out : list Tx) i, tx ← expect (calls !! i); Ret (out ++ [tx])).
  enough (∀ out, foldM f out ids = Ret (out ++ at_indices calls ids)) as E by apply (E []).
  induction Hi as [|i ids Hi _ IH]; intros out; simpl; [by rewrite app_nil_r|].
  destruct (lookup_lt_is_Some_2 calls i Hi) as [tx Etx].
  assert (f out i = Ret (out ++ [tx])) as -> by (unfold f; by rewrite Etx).
  rewrite bind_Ret, IH, <-app_assoc, Etx. done.
Qed.

(** C28: let the invariant hold before the calls and be broken after them, let no
    execution end in an error, and let the limit exceed the number of calls.
    Then shrinking returns calls of the sequence in their order that still break
    the invariant; and if adding calls never repairs a broken invariant, they are
    minimal: every proper selection of them passes. *)
Theorem shrink_sequence_correct (fc : FailedCase) (calls : list Tx) (executor : Exec) :
  call_invariant_function executor = Some true →
  (∀ bits, is_Some (verdict fc calls executor bits)) →
  verdict fc calls executor (replicate (length calls) true) = Some true →
  length calls < fc_shrink_run_limit fc →
  ∃ bits, length bits = length calls ∧
    shrink_sequence fc calls executor = Ret (Some (at_indices calls (indices bits (length calls)))) ∧
    verdict fc calls executor bits = Some true ∧
    ((∀ a b, length a = length b → included a b →
        verdict fc calls executor a = Some true → verdict fc calls executor b = Some true) →
     ∀ a, length a = length calls → included a bits → a ≠ bits → verdict fc calls executor a = Some false).
Proof.
  intros Hinv Herr Hv Hlim.
  set (bits := greedy fc calls executor (replicate (length calls) true) 0 (length calls)).
  assert (length bits = length calls) as Hl by (unfold bits; by rewrite greedy_length, length_replicate).
  exists bits. split; [done|]. split.
  { unfold shrink_sequence. rewrite Hinv.
    destruct (loop_from_start fc calls executor Herr Hv Hlim) as (s & -> & El & Eb). rewrite bind_Ret.
    unfold shrinker_current. rewrite El, Eb. fold bits.
    rewrite collect_calls by apply indices_lt. done. }
  split; [by apply greedy_breaks|]. intros Hmono a Hla Ha Hne.
  destruct (Herr a) as [[] Ev]; [|done]. exfalso.
  assert (∃ i, bits !! i = Some true ∧ a !! i ≠ Some true) as (i & Hi & Hai).
  { apply included_strict; [congruence|done|done]. }
  pose proof (lookup_lt_Some _ _ _ Hi) as Hlt.
  destruct (greedy_kept fc calls executor Herr (replicate (length calls) true) 0 (length calls) i)
    as (bits' & Hsub & Hl' & Hpass); [lia|done|]. fold bits in Hsub. rewrite length_replicate in Hl'.
  assert (verdict fc calls executor (<[i := false]> bits') = Some true); [|congruence].
  apply (Hmono a); [rewrite length_insert; congruence| |done].
  intros j Hj. destruct (decide (j = i)) as [->|Hji]; [done|].
  rewrite list_lookup_insert_ne by done. by apply Hsub, Ha.
Qed.
End shrink.

(** *** Examples *)

(** An executor that adds up its calls; the invariant is broken from 5 on. *)
#[local] Instance ex_executor : InvariantExecutor nat nat := {|
  transact_raw n tx := Some (n + tx, {| rc_reverted := false; rc_result := [] |});
  call_invariant_function n := Some (bool_decide (n < 5));
  call_after_invariant_function _ := Some true;
  magic_assume_bytes := []
|}.

Definition ex_case (limit : nat) : FailedCase :=
  {| fc_shrink_run_limit := limit; fc_fail_on_revert := false; fc_call_after_invariant := false |}.

Lemma ex_no_errors n calls : is_Some (breaks false false n calls).
Proof.
  revert n. induction calls as [|tx calls IH]; intros n; simpl; [|apply IH].
  destruct (bool_decide (n < 5)); by eexists.
Qed.

Lemma shrink_sequence_correct_witness :
  ∃ bits, shrink_sequence (ex_case 5) [1; 3; 0; 2] 0 = Ret (Some (at_indices [1; 3; 0; 2] (indices bits 4))) ∧
    verdict (ex_case 5) [1; 3; 0; 2] 0 bits = Some true.
Proof.
  destruct (shrink_sequence_correct (ex_case 5) [1; 3; 0; 2] 0) as (bits & _ & E & V & _).
  - reflexivity.
  - intros bits. apply ex_no_errors.
  - by vm_compute.
  - simpl. lia.
  - exists bits. split; [exact E|exact V].
Defined.

(** With a limit equal to the number of calls the last removal is never tried:
    the one call that breaks the invariant is removed. *)
Lemma limit_of_length_loses_failure :
  shrink_sequence (ex_case 1) [7] 0 = Ret (Some []) ∧ breaks false false 0 [] = Some false ∧
  shrink_sequence (ex_case 2) [7] 0 = Ret (Some [7]) ∧ breaks false false 0 [7] = Some true.
Proof. by vm_compute. Qed.
