(* ===== verification/MultiFork.v ===== *)
(** * Sharing forks between backends (crates/evm/core/src/fork/multi.rs)

    One [MultiForkHandler] serves every backend of a test run: it creates forks,
    rolls them to other blocks and keeps their environments.  A fork is named by
    its endpoint and block, and several backends may fork the same block, so the
    handler numbers the later ones; a backend finds its own fork by that name
    alone.  The names that are handed out are distinct, every request to create
    a fork is answered once, and each task is polled once in a poll, although the
    tasks change places while they are polled. *)

From stdpp Require Import prelude gmap list strings.
From Stdlib Require Import Ascii DecimalString HexadecimalString DecimalPos HexadecimalPos DecimalN HexadecimalN.
From S2P Require Import Prelude Containers Transaction Fees Env.

Open Scope Z_scope.

(** ** Names of forks *)

Notation ForkId := string (only parsing).

(** [{}] and [{:#x}] of an unsigned number. *)
Definition show_dec (n : N) : string := DecimalString.NilZero.string_of_uint (N.to_uint n).
Definition show_hex (n : N) : string :=
  "0x" +:+ HexadecimalString.NilZero.string_of_uint (N.to_hex_uint n).

Definition fork_id_new (url : string) (num : option N) : ForkId :=
  url +:+ "@" +:+ match num with Some n => show_hex n | None => "latest" end.

(** ** The handler *)

(** Foundry's [Env]; of the transaction only the chain id is read back. *)
Record ForkEnv := { fe_evm : EvmEnv; fe_tx_chain_id : option Z }.

Record CreateFork := {
  cf_enable_caching : bool;
  cf_url : string;
  cf_env : ForkEnv;
  cf_fork_block_number : option N    (* evm_opts.fork_block_number *)
}.

Section handler.
Context {SharedBackend FetchError : Type}.

(** [num_senders] is an [Arc]: clones of a fork share the cell. *)
Record CreatedFork := {
  ck_opts : CreateFork;
  ck_backend : SharedBackend;
  ck_num_senders : nat
}.

(** The sending half of a reply channel. *)
Definition CreateSender : Type := nat.

(** The future of a task holds the options it was created with. *)
Record ForkTask := {
  tk_fork : CreateFork;
  tk_id : ForkId;
  tk_sender : CreateSender;
  tk_additional : list CreateSender
}.

(** [mh_cells] are the counters the forks share. *)
Record MultiForkHandler := {
  mh_handlers : list ForkId;
  mh_pending_tasks : list ForkTask;
  mh_forks : gmap ForkId CreatedFork;
  mh_cells : list Z                  (* usize *)
}.

Definition handler_new : MultiForkHandler :=
  {| mh_handlers := []; mh_pending_tasks := []; mh_forks := ∅; mh_cells := [] |}.

Inductive CreateError : Type :=
| NoMatchingFork (id : ForkId)
| FetchFailed (e : FetchError).

Inductive Reply : Type :=
| RCreate (sender : CreateSender) (r : result (ForkId * SharedBackend * ForkEnv) CreateError)
| RFork (b : option SharedBackend)
| REnv (env : option ForkEnv)
| RUrl (url : option string)
| RShutDown.

Inductive Request : Type :=
| QCreateFork (fork : CreateFork) (sender : CreateSender)
| QGetFork (id : ForkId)
| QRollFork (id : ForkId) (block : N) (sender : CreateSender)
| QGetEnv (id : ForkId)
| QUpdateBlock (id : ForkId) (number timestamp : Z)
| QUpdateEnv (id : ForkId) (env : BlockEnv)
| QShutDown
| QGetForkUrl (id : ForkId).

Implicit Types h : MultiForkHandler.

Definition with_tasks h (tasks : list ForkTask) : MultiForkHandler :=
  {| mh_handlers := mh_handlers h; mh_pending_tasks := tasks; mh_forks := mh_forks h;
     mh_cells := mh_cells h |}.

Definition with_forks h (forks : gmap ForkId CreatedFork) : MultiForkHandler :=
  {| mh_handlers := mh_handlers h; mh_pending_tasks := mh_pending_tasks h; mh_forks := forks;
     mh_cells := mh_cells h |}.

Definition with_cells h (cells : list Z) : MultiForkHandler :=
  {| mh_handlers := mh_handlers h; mh_pending_tasks := mh_pending_tasks h; mh_forks := mh_forks h;
     mh_cells := cells |}.

Definition with_handlers h (handlers : list ForkId) : MultiForkHandler :=
  {| mh_handlers := handlers; mh_pending_tasks := mh_pending_tasks h; mh_forks := mh_forks h;
     mh_cells := mh_cells h |}.

(** The position of the task for a fork, if one is in progress. *)
Definition find_in_progress_task h (id : ForkId) : option nat :=
  fst <$> list_find (λ t, tk_id t = id) (mh_pending_tasks h).

Definition push_sender (sender : CreateSender) (t : ForkTask) : ForkTask :=
  {| tk_fork := tk_fork t; tk_id := tk_id t; tk_sender := tk_sender t;
     tk_additional := tk_additional t ++ [sender] |}.

Definition create_fork h (fork : CreateFork) (sender : CreateSender) : MultiForkHandler :=
  let fork_id := fork_id_new (cf_url fork) (cf_fork_block_number fork) in
  match find_in_progress_task h fork_id with
  | Some i => with_tasks h (alter (push_sender sender) i (mh_pending_tasks h))
  | None =>
      with_tasks h (mh_pending_tasks h ++
        [{| tk_fork := fork; tk_id := fork_id; tk_sender := sender; tk_additional := [] |}])
  end.

(** [inc_senders]: the counter is read and incremented. *)
Definition inc_senders h (fork : CreatedFork) (fork_id : ForkId) : MultiForkHandler * ForkId :=
  let n := default 0 (mh_cells h !! ck_num_senders fork) in
  (with_cells h (<[ck_num_senders fork := n +w[64] 1]> (mh_cells h)),
   fork_id +:+ "-" +:+ show_dec (Z.to_N n)).

Definition created (sender : CreateSender) (fork_id : ForkId) (fork : CreatedFork) : Reply :=
  RCreate sender (Ok (fork_id, ck_backend fork, cf_env (ck_opts fork))).

(** One turn of the loop over the additional senders. *)
Definition notify_sender (fork_id : ForkId) (fork : CreatedFork)
    (st : MultiForkHandler * list Reply) (sender : CreateSender) : MultiForkHandler * list Reply :=
  let '(h, out) := st in
  let '(h, next_fork_id) := inc_senders h fork fork_id in
  (with_forks h (<[next_fork_id := fork]> (mh_forks h)), out ++ [created sender next_fork_id fork]).

Definition insert_new_fork h (fork_id : ForkId) (fork : CreatedFork) (sender : CreateSender)
    (additional_senders : list CreateSender) : MultiForkHandler * list Reply :=
  foldl (notify_sender fork_id fork)
    (with_forks h (<[fork_id := fork]> (mh_forks h)), [created sender fork_id fork])
    additional_senders.

Definition set_block (f : CreatedFork) (b : BlockEnv) : CreatedFork :=
  {| ck_opts :=
       {| cf_enable_caching := cf_enable_caching (ck_opts f); cf_url := cf_url (ck_opts f);
          cf_env := {| fe_evm := {| env_cfg := env_cfg (fe_evm (cf_env (ck_opts f))); env_blk := b |};
                       fe_tx_chain_id := fe_tx_chain_id (cf_env (ck_opts f)) |};
          cf_fork_block_number := cf_fork_block_number (ck_opts f) |};
     ck_backend := ck_backend f; ck_num_senders := ck_num_senders f |}.

Definition fork_block (f : CreatedFork) : BlockEnv := env_blk (fe_evm (cf_env (ck_opts f))).

Definition set_number_timestamp (b : BlockEnv) (number timestamp : Z) : BlockEnv :=
  {| blk_number := number; blk_beneficiary := blk_beneficiary b; blk_timestamp := timestamp;
     blk_gas_limit := blk_gas_limit b; blk_basefee := blk_basefee b;
     blk_difficulty := blk_difficulty b; blk_prevrandao := blk_prevrandao b;
     blk_blob_excess_gas_and_price := blk_blob_excess_gas_and_price b |}.

Definition update_env h (fork_id : ForkId) (env : BlockEnv) : MultiForkHandler :=
  with_forks h (alter (λ f, set_block f env) fork_id (mh_forks h)).

Definition update_block h (fork_id : ForkId) (number timestamp : Z) : MultiForkHandler :=
  with_forks h
    (alter (λ f, set_block f (set_number_timestamp (fork_block f) number timestamp)) fork_id
      (mh_forks h)).

Definition at_block (f : CreateFork) (block : N) : CreateFork :=
  {| cf_enable_caching := cf_enable_caching f; cf_url := cf_url f; cf_env := cf_env f;
     cf_fork_block_number := Some block |}.

Definition on_request h (req : Request) : MultiForkHandler * list Reply :=
  match req with
  | QCreateFork fork sender => (create_fork h fork sender, [])
  | QGetFork fork_id => (h, [RFork (ck_backend <$> mh_forks h !! fork_id)])
  | QRollFork fork_id block sender =>
      match mh_forks h !! fork_id with
      | Some fork => (create_fork h (at_block (ck_opts fork) block) sender, [])
      | None => (h, [RCreate sender (Err (NoMatchingFork fork_id))])
      end
  | QGetEnv fork_id => (h, [REnv ((λ f, cf_env (ck_opts f)) <$> mh_forks h !! fork_id)])
  | QUpdateBlock fork_id number timestamp => (update_block h fork_id number timestamp, [])
  | QUpdateEnv fork_id env => (update_env h fork_id env, [])
  | QShutDown => (with_handlers (with_forks h ∅) [], [RShutDown])
  | QGetForkUrl fork_id => (h, [RUrl ((λ f, cf_url (ck_opts f)) <$> mh_forks h !! fork_id)])
  end.

(** What the future of a task produces once the endpoint has answered: the
    environment and number of the block, and the backend. *)
Definition Fetched : Type := result (ForkEnv * N * SharedBackend) FetchError.

(** The end of the free function [create_fork]: [CreatedFork::new] allocates
    the counter. *)
Definition finish_create h (fork : CreateFork) (env : ForkEnv) (number : N) (b : SharedBackend) :
    MultiForkHandler * ForkId * CreatedFork :=
  let fork :=
    {| cf_enable_caching := cf_enable_caching fork; cf_url := cf_url fork; cf_env := env;
       cf_fork_block_number := cf_fork_block_number fork |} in
  (with_cells h (mh_cells h ++ [1]), fork_id_new (cf_url fork) (Some number),
   {| ck_opts := fork; ck_backend := b; ck_num_senders := length (mh_cells h) |}).

(** Polling one task: [None] when it is finished. *)
Definition poll_task (fetched : ForkId → option Fetched) (st : MultiForkHandler * list Reply)
    (task : ForkTask) : (MultiForkHandler * list Reply) * option ForkTask :=
  let '(h, out) := st in
  match fetched (tk_id task) with
  | None => (st, Some task)
  | Some (Err err) =>
      ((h, out ++ ((λ s, RCreate s (Err (FetchFailed err))) <$> tk_sender task :: tk_additional task)),
       None)
  | Some (Ok (env, number, b)) =>
      let '(h, fork_id, fork) := finish_create h (tk_fork task) env number b in
      let '(h, rs) :=
        match mh_forks h !! fork_id with
        | Some fork =>
            let '(h, id) := inc_senders h fork fork_id in
            insert_new_fork h id fork (tk_sender task) (tk_additional task)
        | None =>
            insert_new_fork (with_handlers h (mh_handlers h ++ [fork_id])) fork_id fork
              (tk_sender task) (tk_additional task)
        end in
      ((h, out ++ rs), None)
  end.
End handler.
Arguments CreatedFork : clear implicits.
Arguments MultiForkHandler : clear implicits.
Arguments CreateError : clear implicits.
Arguments Reply : clear implicits.
Arguments Fetched : clear implicits.

(** [for n in (0..v.len()).rev()]: an element is taken out with [swap_remove],
    polled, and pushed back when it is not finished. *)
Definition poll_turn {S A} (f : S → A → S * option A) (st : S * list A) (n : nat) :
    outcome (S * list A) :=
  let '(s, l) := st in
  x ← expect (l !! n);
  let l := swap_remove n l in
  let '(s, kept) := f s x in
  Ret (s, l ++ option_list kept).

Definition poll_rev {S A} (f : S → A → S * option A) (s : S) (l : list A) : outcome (S * list A) :=
  foldM (poll_turn f) (s, l) (rev (seq 0 (length l))).

Section poll.
Context {SharedBackend FetchError : Type}.
Implicit Types h : MultiForkHandler SharedBackend.

(** One poll: the requests that have arrived, the tasks, the handlers of the
    forks; the result says whether the future is finished. *)
Record PollInput := {
  pi_requests : list Request;
  pi_closed : bool;                  (* the request channel is closed *)
  pi_fetched : ForkId → option (Fetched SharedBackend FetchError);
  pi_done : ForkId → bool            (* the handler of a fork has completed *)
}.

Definition receive (st : MultiForkHandler SharedBackend * list (Reply SharedBackend FetchError))
    (req : Request) :=
  let '(h, out) := st in
  let '(h, rs) := on_request h req in (h, out ++ rs).

Definition poll_handler (i : PollInput) (s : unit) (id : ForkId) : unit * option ForkId :=
  (s, if pi_done i id then None else Some id).

Definition poll h (i : PollInput) :
    outcome (MultiForkHandler SharedBackend * list (Reply SharedBackend FetchError) * bool) :=
  let '(h, out) := foldl receive (h, []) (pi_requests i) in
  '((h, out), tasks) ← poll_rev (poll_task (pi_fetched i)) (h, out) (mh_pending_tasks h);
  let h := with_tasks h tasks in
  '(_, handlers) ← poll_rev (poll_handler i) tt (mh_handlers h);
  let h := with_handlers h handlers in
  Ret (h, out, bool_decide (handlers = []) && pi_closed i).

(** Successive polls, with all that was sent. *)
Definition polls (h : MultiForkHandler SharedBackend) (inputs : list PollInput) :
    outcome (MultiForkHandler SharedBackend * list (Reply SharedBackend FetchError)) :=
  foldM (λ st i, let '(h, out) := st in '(h, rs, _) ← poll h i; Ret (h, out ++ rs)) (h, []) inputs.
End poll.
Arguments PollInput : clear implicits.

(** ** Polling in reverse *)

(** Polling the elements of a list one after the other. *)
Fixpoint poll_all {S A} (f : S → A → S * option A) (s : S) (l : list A) : S * list A :=
  match l with
  | [] => (s, [])
  | x :: l =>
      let '(s, kept) := f s x in
      let '(s, r) := poll_all f s l in
      (s, option_list kept ++ r)
  end.

Lemma swap_remove_tail {A} (l : list A) x rest :
  ∃ rest', swap_remove (length l) (l ++ x :: rest) = l ++ rest' ∧ rest' ≡ₚ rest.
Proof.
  unfold swap_remove. destruct rest as [|y rest _] using rev_ind.
  - rewrite last_snoc, length_app; simpl. rewrite Nat.add_sub.
    exists []. by rewrite insert_app_r_alt, Nat.sub_diag, take_app_length, app_nil_r by done.
  - rewrite app_comm_cons, app_assoc, last_snoc, length_app; simpl. rewrite Nat.add_sub.
    exists (y :: rest). split; [|by rewrite Permutation_app_comm].
    rewrite <- app_assoc, insert_app_r_alt, Nat.sub_diag by done; simpl.
    replace (l ++ y :: rest ++ [y]) with ((l ++ y :: rest) ++ [y]) by by rewrite <- app_assoc.
    rewrite take_app_le, take_ge by (rewrite !length_app; simpl; lia). done.
Qed.

(** Every element is polled once, the last first; what is not finished stays. *)
Lemma poll_rev_spec {S A} (f : S → A → S * option A) s l :
  ∃ l', poll_rev f s l = Ret ((poll_all f s (rev l)).1, l') ∧ l' ≡ₚ (poll_all f s (rev l)).2.
Proof.
  unfold poll_rev.
  assert (∀ l s rest, ∃ l', foldM (poll_turn f) (s, l ++ rest) (rev (seq 0 (length l))) =
    Ret ((poll_all f s (rev l)).1, l') ∧ l' ≡ₚ rest ++ (poll_all f s (rev l)).2) as Hgen.
  { clear s l. induction l as [|x l IH] using rev_ind; intros s rest.
    - exists rest. by rewrite app_nil_r.
    - rewrite length_app; simpl. rewrite seq_app, rev_app_distr; simpl.
      rewrite rev_app_distr; simpl. rewrite <- app_assoc; simpl.
      rewrite list_lookup_middle by done; simpl.
      destruct (swap_remove_tail l x rest) as (rest' & -> & Hrest).
      destruct (f s x) as [s1 kept]. rewrite <- app_assoc, bind_Ret.
      destruct (IH s1 (rest' ++ option_list kept)) as (l' & -> & Hl').
      destruct (poll_all f s1 (rev l)) as [s2 r]. exists l'. split; [done|].
      rewrite Hl', Hrest; simpl. by rewrite <- app_assoc. }
  destruct (Hgen l s []) as (l' & Hl & Hperm). rewrite app_nil_r in Hl. eauto.
Qed.

(** ** Names are read back uniquely *)

(** The character [c] does not occur. *)
Definition lacks (c : Ascii.ascii) (s : string) : Prop := c ∉ String.list_ascii_of_string s.

Lemma lacks_cons c d s : lacks c (String d s) ↔ c ≠ d ∧ lacks c s.
Proof. unfold lacks; simpl. by rewrite not_elem_of_cons. Qed.

Lemma append_cons d s t : String d s +:+ t = String d (s +:+ t).
Proof. done. Qed.

Lemma append_nil t : "" +:+ t = t.
Proof. done. Qed.

Lemma lacks_app c s t : lacks c (s +:+ t) ↔ lacks c s ∧ lacks c t.
Proof.
  induction s as [|d s IH].
  - split; [intros H; split; [by apply not_elem_of_nil|done]|by intros [_ ?]].
  - rewrite append_cons, !lacks_cons, IH. tauto.
Qed.

(** The last occurrence of a character splits a string in one way. *)
Lemma split_last c x u y v :
  lacks c u → lacks c v → x +:+ String c u = y +:+ String c v → x = y ∧ u = v.
Proof.
  intros Hu Hv. revert y.
  induction x as [|d x IH]; intros [|e y]; rewrite ?append_cons, ?append_nil;
    intros Heq; simplify_eq.
  - done.
  - apply lacks_app in Hu as [_ Hu]. by apply lacks_cons in Hu as [? _].
  - apply lacks_app in Hv as [_ Hv]. by apply lacks_cons in Hv as [? _].
  - destruct (IH y) as [-> ->]; done.
Qed.

(** So does the first one, when it is marked by what follows. *)
Lemma split_first c a s b t :
  lacks c a → lacks c b → (s = "" ∨ ∃ s', s = String c s') → (t = "" ∨ ∃ t', t = String c t') →
  a +:+ s = b +:+ t → a = b ∧ s = t.
Proof.
  intros Ha Hb Hs Ht. revert b Hb.
  induction a as [|d a IH]; intros [|e b] Hb; rewrite ?append_cons, ?append_nil; intros Heq.
  - done.
  - subst s. destruct Hs as [Hs|[s' Hs]]; [done|injection Hs as ??; subst].
    by apply lacks_cons in Hb as [? _].
  - subst t. destruct Ht as [Ht|[t' Ht]]; [done|injection Ht as ??; subst].
    by apply lacks_cons in Ha as [? _].
  - injection Heq as ? Heq; subst. apply lacks_cons in Ha as [? Ha], Hb as [? Hb].
    destruct (IH Ha b Hb Heq) as [-> ->]. done.
Qed.

Lemma dec_nonnil n : N.to_uint n ≠ Decimal.Nil.
Proof. destruct n; [done|apply DecimalPos.Unsigned.to_uint_nonnil]. Qed.

Lemma hex_nonnil n : N.to_hex_uint n ≠ Hexadecimal.Nil.
Proof. destruct n; [done|apply HexadecimalPos.Unsigned.to_uint_nonnil]. Qed.

Lemma show_dec_inj n m : show_dec n = show_dec m → n = m.
Proof.
  unfold show_dec. intros Heq.
  apply (f_equal DecimalString.NilZero.uint_of_string) in Heq.
  rewrite !DecimalString.NilZero.usu in Heq by apply dec_nonnil.
  by apply DecimalN.Unsigned.to_uint_inj; injection Heq.
Qed.

Lemma show_hex_inj n m : show_hex n = show_hex m → n = m.
Proof.
  unfold show_hex. intros Heq. injection Heq as Heq.
  rewrite !append_nil in Heq. apply (f_equal HexadecimalString.NilZero.uint_of_string) in Heq.
  rewrite !HexadecimalString.NilZero.usu in Heq by apply hex_nonnil.
  by apply HexadecimalN.Unsigned.to_uint_inj; injection Heq.
Qed.

(** Numbers are written with digits only. *)
Definition separator (c : Ascii.ascii) : Prop := c = "-"%char ∨ c = "@"%char.

Lemma lacks_nil c : lacks c "".
Proof. apply not_elem_of_nil. Qed.

Lemma show_dec_digits c n : separator c → lacks c (show_dec n).
Proof.
  intros Hc. unfold show_dec, DecimalString.NilZero.string_of_uint.
  assert (∀ d, lacks c (DecimalString.NilEmpty.string_of_uint d)) as Hall.
  { induction d; simpl; [apply lacks_nil|..]; apply lacks_cons; split; try done;
      destruct Hc as [->| ->]; done. }
  destruct (N.to_uint n) eqn:E; [|rewrite <- E; apply Hall..].
  apply lacks_cons. split; [destruct Hc as [->| ->]; done|apply lacks_nil].
Qed.

Lemma show_hex_digits c n : separator c → lacks c (show_hex n).
Proof.
  intros Hc. unfold show_hex, HexadecimalString.NilZero.string_of_uint.
  assert (∀ d, lacks c (HexadecimalString.NilEmpty.string_of_uint d)) as Hall.
  { induction d; simpl; [apply lacks_nil|..]; apply lacks_cons; split; try done;
      destruct Hc as [->| ->]; done. }
  apply lacks_app. split.
  { repeat (apply lacks_cons; split; [destruct Hc as [->| ->]; done|]). apply lacks_nil. }
  destruct (N.to_hex_uint n) eqn:E; [|rewrite <- E; apply Hall..].
  apply lacks_cons. split; [destruct Hc as [->| ->]; done|apply lacks_nil].
Qed.

(** A name with the numbers that were appended to it. *)
Definition suffix (l : list N) : string := foldl (λ s n, s +:+ "-" +:+ show_dec n) "" l.

Lemma suffix_snoc l n : suffix (l ++ [n]) = suffix l +:+ "-" +:+ show_dec n.
Proof. unfold suffix. by rewrite foldl_app. Qed.

Lemma suffix_marked l : suffix l = "" ∨ ∃ s, suffix l = String "-" s.
Proof.
  induction l as [|n l IH] using rev_ind; [by left|right].
  rewrite suffix_snoc. destruct IH as [->|[s ->]]; rewrite ?append_cons, ?append_nil; eauto.
Qed.

Lemma suffix_no_at l : lacks "@" (suffix l).
Proof.
  induction l as [|n l IH] using rev_ind; [apply lacks_nil|].
  rewrite suffix_snoc, !lacks_app. split; [done|]. split.
  - apply lacks_cons. split; [done|apply lacks_nil].
  - apply show_dec_digits. by right.
Qed.

(** Names with suffixes are equal only when endpoint, block and the last number
    are. *)
Lemma names_split url1 n1 l1 url2 n2 l2 :
  fork_id_new url1 (Some n1) +:+ suffix l1 = fork_id_new url2 (Some n2) +:+ suffix l2 →
  url1 = url2 ∧ n1 = n2 ∧ suffix l1 = suffix l2.
Proof.
  unfold fork_id_new. intros Heq.
  assert (∀ url n l, (url +:+ "@" +:+ show_hex n) +:+ suffix l =
    url +:+ String "@" (show_hex n +:+ suffix l)) as Hassoc.
  { intros url n l. induction url as [|c url IH]; [done|].
    by rewrite append_cons, append_cons, IH, append_cons. }
  rewrite !Hassoc in Heq. apply split_last in Heq as [-> Heq].
  - apply (split_first "-") in Heq as [Heq ->].
    + apply show_hex_inj in Heq as ->. done.
    + apply show_hex_digits. by left.
    + apply show_hex_digits. by left.
    + apply suffix_marked.
    + apply suffix_marked.
  - apply lacks_app. split; [apply show_hex_digits; by right|apply suffix_no_at].
  - apply lacks_app. split; [apply show_hex_digits; by right|apply suffix_no_at].
Qed.

(** A name determines the endpoint. *)
Lemma fork_id_url url1 o1 url2 o2 : fork_id_new url1 o1 = fork_id_new url2 o2 → url1 = url2.
Proof.
  unfold fork_id_new. intros Heq. apply split_last in Heq as [-> _]; [done|..];
    match goal with |- lacks _ match ?o with _ => _ end => destruct o end;
    try (apply show_hex_digits; by right);
    repeat (apply lacks_cons; split; [done|]); apply lacks_nil.
Qed.

Lemma suffix_last l1 n l2 : suffix (l1 ++ [n]) = suffix l2 → last l2 = Some n.
Proof.
  destruct l2 as [|m l2 _] using rev_ind; rewrite ?suffix_snoc; intros Heq.
  - by destruct (suffix l1).
  - rewrite last_snoc. f_equal. apply split_last in Heq as [_ Heq].
    + by apply show_dec_inj.
    + apply show_dec_digits. by left.
    + apply show_dec_digits. by left.
Qed.

(** ** Issuing names *)

Section names.
Context {SharedBackend FetchError : Type}.
Implicit Types h : MultiForkHandler SharedBackend.
Implicit Types f : CreatedFork SharedBackend.
Implicit Types out : list (Reply SharedBackend FetchError).

Definition fork_url f : string := cf_url (ck_opts f).

(** What the life of a fork does not change. *)
Definition same_fork f f' : Prop :=
  fork_url f = fork_url f' ∧ ck_backend f = ck_backend f' ∧ ck_num_senders f = ck_num_senders f'.

(** Forks are only added and counters only go up. *)
Record grows h h' : Prop := {
  gr_forks : ∀ id f, mh_forks h !! id = Some f → ∃ f', mh_forks h' !! id = Some f' ∧ same_fork f f';
  gr_cells : ∀ i c, mh_cells h !! i = Some c → ∃ c', mh_cells h' !! i = Some c' ∧ c ≤ c'
}.

(** The name of a fork: endpoint, block and numbers its counter has passed; the
    fork without numbers shares the counter. *)
Definition key_ok h (id : ForkId) f : Prop :=
  ∃ num l f0 c,
    id = fork_id_new (fork_url f) (Some num) +:+ suffix l ∧
    mh_forks h !! fork_id_new (fork_url f) (Some num) = Some f0 ∧
    ck_num_senders f0 = ck_num_senders f ∧
    mh_cells h !! ck_num_senders f = Some c ∧ 0 ≤ c ∧ ∀ n, n ∈ l → Z.of_N n < c.

Record forks_wf h (ids : list ForkId) : Prop := {
  fw_keys : ∀ id f, mh_forks h !! id = Some f → key_ok h id f;
  fw_cells : ∀ i c, mh_cells h !! i = Some c → 1 ≤ c ≤ 1 + Z.of_nat (length ids);
  fw_ids : ids ≡ₚ (map_to_list (mh_forks h)).*1
}.

#[global] Instance same_fork_equivalence : Equivalence same_fork.
Proof. split; [done|intros ?? (? & ? & ?)|intros ??? (? & ? & ?) (? & ? & ?)]; split_and!; congruence. Qed.

Lemma grows_refl h : grows h h.
Proof. split; [intros id f Hf; by exists f|intros i c Hc; by exists c]. Qed.

Lemma grows_trans h1 h2 h3 : grows h1 h2 → grows h2 h3 → grows h1 h3.
Proof.
  intros [F1 C1] [F2 C2]. split.
  - intros id f (f1 & H1 & S1)%F1. destruct (F2 _ _ H1) as (f2 & H2 & S2).
    exists f2. split; [done|by etrans].
  - intros i c (c1 & H1 & L1)%C1. destruct (C2 _ _ H1) as (c2 & H2 & L2).
    exists c2. split; [done|lia].
Qed.

Lemma key_ok_grows h h' id f f' : grows h h' → same_fork f f' → key_ok h id f → key_ok h' id f'.
Proof.
  intros [F C] (Hurl & _ & Hcell) (num & l & f0 & c & -> & Hf0 & Hc0 & Hc & H0 & Hl).
  destruct (F _ _ Hf0) as (f1 & Hf1 & _ & _ & H1). destruct (C _ _ Hc) as (c1 & Hc1 & Hle).
  exists num, l, f1, c1. rewrite <- Hurl, <- Hcell. split_and!; try done; [congruence|lia|].
  intros n Hn. specialize (Hl n Hn). lia.
Qed.

Lemma ids_elem h ids id : forks_wf h ids → id ∈ ids ↔ is_Some (mh_forks h !! id).
Proof.
  intros [_ _ Hids]. rewrite Hids, list_elem_of_fmap. split.
  - intros ([i f] & -> & Hf). apply elem_of_map_to_list in Hf. by exists f.
  - intros [f Hf]. exists (id, f). by rewrite elem_of_map_to_list.
Qed.

Lemma append_nil_r s : s +:+ "" = s.
Proof. induction s as [|c s IH]; [done|by rewrite append_cons, IH]. Qed.

Lemma append_assoc s t u : (s +:+ t) +:+ u = s +:+ (t +:+ u).
Proof. induction s as [|c s IH]; [done|by rewrite !append_cons, IH]. Qed.

(** Adding a fork under a new name that is well formed afterwards. *)
Lemma register_wf h h' ids id f :
  forks_wf h ids → grows h h' → mh_forks h' = mh_forks h →
  (∀ i c, mh_cells h' !! i = Some c → 1 ≤ c ≤ 2 + Z.of_nat (length ids)) →
  mh_forks h !! id = None →
  key_ok (with_forks h' (<[id := f]> (mh_forks h'))) id f →
  grows h (with_forks h' (<[id := f]> (mh_forks h'))) ∧
  forks_wf (with_forks h' (<[id := f]> (mh_forks h'))) (ids ++ [id]).
Proof.
  intros [Hk Hc Hids] Hgr Hf Hcells Hid Hkey. rewrite Hf in *.
  assert (grows h (with_forks h' (<[id := f]> (mh_forks h)))) as Hgr'.
  { split; simpl; [|apply Hgr].
    intros id' f' Hf'. exists f'. rewrite lookup_insert_ne by congruence. done. }
  split; [done|split; simpl].
  - intros id' f' [[<- <-]|[Hne Hf']]%lookup_insert_Some; [done|].
    by apply (key_ok_grows h _ id' f'); [..|apply Hk].
  - intros i c Hi. rewrite length_app; simpl. specialize (Hcells _ _ Hi). lia.
  - rewrite map_to_list_insert by done; simpl. by rewrite Hids, Permutation_app_comm.
Qed.

(** The name a counter makes is new, and well formed. *)
Lemma issue_wf h ids id0 f h' id :
  forks_wf h ids → Z.of_nat (length ids) + 2 < 2 ^ 64 → key_ok h id0 f →
  inc_senders h f id0 = (h', id) →
  grows h (with_forks h' (<[id := f]> (mh_forks h'))) ∧
  forks_wf (with_forks h' (<[id := f]> (mh_forks h'))) (ids ++ [id]) ∧
  key_ok (with_forks h' (<[id := f]> (mh_forks h'))) id f.
Proof.
  intros Hwf Hsize Hkey. pose proof Hwf as [Hk Hc Hids].
  pose proof Hkey as (num & l & f0 & c & -> & Hf0 & Hcell & Hcv & H0 & Hl).
  unfold inc_senders. rewrite Hcv; simpl. intros [= <- <-]. simpl.
  destruct (Hc _ _ Hcv) as [Hc1 Hc2]. rewrite wrap_small by (unfold is_u, umax; lia).
  set (h1 := with_cells h _).
  replace ((fork_id_new (fork_url f) (Some num) +:+ suffix l) +:+ "-" +:+ show_dec (Z.to_N c))
    with (fork_id_new (fork_url f) (Some num) +:+ suffix (l ++ [Z.to_N c]))
    by by rewrite suffix_snoc, !append_assoc.
  set (id := fork_id_new (fork_url f) (Some num) +:+ suffix (l ++ [Z.to_N c])).
  assert (mh_forks h !! id = None) as Hfresh.
  { destruct (mh_forks h !! id) as [f1|] eqn:Hid; [|done].
    destruct (Hk _ _ Hid) as (num1 & l1 & f2 & c1 & Heq & Hf2 & Hcell1 & Hcv1 & _ & Hl1).
    apply names_split in Heq as (Hurl & -> & Hsuf). rewrite <- Hurl, Hf0 in Hf2.
    injection Hf2 as <-. rewrite <- Hcell1, Hcell, Hcv in Hcv1. injection Hcv1 as <-.
    apply suffix_last in Hsuf. apply last_Some_elem_of, Hl1 in Hsuf. lia. }
  assert (grows h h1) as Hgr.
  { split; simpl; [intros i f' Hf'; by exists f'|]. intros i c' Hi.
    destruct (decide (i = ck_num_senders f)) as [->|Hne].
    - rewrite list_lookup_insert_eq by by eapply lookup_lt_Some. exists (c + 1).
      split; [done|]. simplify_eq. lia.
    - rewrite list_lookup_insert_ne by done. by exists c'. }
  assert (key_ok (with_forks h1 (<[id := f]> (mh_forks h))) id f) as Hkey'.
  { exists num, (l ++ [Z.to_N c]), f0, (c + 1). simpl. split_and!; try done; [| |lia|].
    - rewrite lookup_insert_ne; [done|]. intros E. rewrite E in Hfresh. congruence.
    - rewrite list_lookup_insert_eq by by eapply lookup_lt_Some. done.
    - intros n [Hn| ->%list_elem_of_singleton]%elem_of_app; [specialize (Hl n Hn)|]; lia. }
  assert (∀ i c', mh_cells h1 !! i = Some c' → 1 ≤ c' ≤ 2 + Z.of_nat (length ids)) as Hcells.
  { intros i c' [(_ & <- & _)|[_ Hi]]%list_lookup_insert_Some; [lia|].
    specialize (Hc _ _ Hi). lia. }
  destruct (register_wf h h1 ids id f) as [HA HB]; done.
Qed.

(** *** Replies *)

Definition issued out : list ForkId :=
  omap (λ r, match r with RCreate _ (Ok (id, _, _)) => Some id | _ => None end) out.

Definition answered out : list CreateSender :=
  omap (λ r, match r with RCreate s _ => Some s | _ => None end) out.

Lemma issued_app out rs : issued (out ++ rs) = issued out ++ issued rs.
Proof. apply omap_app. Qed.
Lemma answered_app out rs : answered (out ++ rs) = answered out ++ answered rs.
Proof. apply omap_app. Qed.

Lemma issued_le_answered out : (length (issued out) ≤ length (answered out))%nat.
Proof. induction out as [|[? [[[??]?]|?]|?|?|?|] out IH]; simpl in *; lia. Qed.

(** The senders [ss] were each told a fork like [f], under a new name. *)
Record delivered h (ids : list ForkId) f (ss : list CreateSender) h' (rs : list (Reply SharedBackend FetchError)) : Prop := {
  dv_grows : grows h h';
  dv_wf : forks_wf h' (ids ++ issued rs);
  dv_senders : answered rs = ss;
  dv_forks : ∀ s id b env, RCreate s (Ok (id, b, env)) ∈ rs →
    ∃ f', mh_forks h' !! id = Some f' ∧ same_fork f f' ∧ b = ck_backend f'
}.

Lemma delivered_app h ids f ss1 h1 rs1 ss2 h2 rs2 :
  delivered h ids f ss1 h1 rs1 → delivered h1 (ids ++ issued rs1) f ss2 h2 rs2 →
  delivered h ids f (ss1 ++ ss2) h2 (rs1 ++ rs2).
Proof.
  intros [G1 W1 S1 F1] [G2 W2 S2 F2]. split.
  - by eapply grows_trans.
  - by rewrite issued_app, (assoc (++)).
  - by rewrite answered_app, S1, S2.
  - intros s id b env [Hin|Hin]%elem_of_app; [|by eapply F2].
    destruct (F1 _ _ _ _ Hin) as (f1 & Hf1 & Hs1 & ->).
    destruct (gr_forks _ _ G2 _ _ Hf1) as (f2 & Hf2 & Hs2). exists f2.
    split_and!; [done|by etrans|apply Hs2].
Qed.

Lemma delivered_one h ids f s id h' :
  grows h h' → forks_wf h' (ids ++ [id]) → mh_forks h' !! id = Some f →
  delivered h ids f [s] h' [created s id f].
Proof.
  intros Hg Hw Hf. split; [done..|].
  intros s' id' b env [= -> -> -> ->]%list_elem_of_singleton. exists f. done.
Qed.

Lemma notify_delivers h ids id0 f out ss :
  forks_wf h ids → Z.of_nat (length ids + length ss) + 2 < 2 ^ 64 → key_ok h id0 f →
  ∃ h' rs, foldl (notify_sender id0 f) (h, out) ss = (h', out ++ rs) ∧ delivered h ids f ss h' rs.
Proof.
  revert h ids out. induction ss as [|s ss IH]; intros h ids out Hwf Hlen Hkey; cbn [foldl notify_sender].
  { exists h, []. rewrite app_nil_r. split; [done|]. split; simpl; try done.
    - apply grows_refl.
    - by rewrite app_nil_r.
    - by intros ???? ?%not_elem_of_nil. }
  destruct (inc_senders h f id0) as [h1 id] eqn:Hinc. simpl in Hlen.
  destruct (issue_wf h ids id0 f h1 id) as (Hg & Hw & _); [done|lia|done|done|].
  set (h2 := with_forks h1 _) in *.
  destruct (IH h2 (ids ++ [id]) (out ++ [created s id f])) as (h' & rs & Hrun & Hd); [done| |by eapply key_ok_grows|].
  { rewrite length_app; simpl. lia. }
  exists h', (created s id f :: rs). rewrite Hrun, <- (assoc (++)). split; [done|].
  apply (delivered_app _ _ _ [s] h2 [created s id f]); [|done].
  apply delivered_one; [done..|]. simpl. by rewrite lookup_insert_eq.
Qed.

(** A fork registered under a new name is delivered to all who wait for it. *)
Lemma insert_delivers h0 h ids id f s ss :
  grows h0 (with_forks h (<[id := f]> (mh_forks h))) →
  forks_wf (with_forks h (<[id := f]> (mh_forks h))) (ids ++ [id]) →
  key_ok (with_forks h (<[id := f]> (mh_forks h))) id f →
  Z.of_nat (length ids + length (s :: ss)) + 2 < 2 ^ 64 →
  ∃ h' rs, insert_new_fork h id f s ss = (h', rs) ∧ delivered h0 ids f (s :: ss) h' rs.
Proof.
  intros Hg Hw Hk Hlen. unfold insert_new_fork.
  destruct (notify_delivers _ (ids ++ [id]) id f [created s id f] ss Hw) as (h' & rs & Hrun & Hd).
  { rewrite length_app; simpl in *. lia. }
  { done. }
  exists h', ([created s id f] ++ rs). split; [done|].
  eapply (delivered_app _ _ _ [s] _ [created s id f]); [|done].
  apply delivered_one; [done..|]. simpl. by rewrite lookup_insert_eq.
Qed.

(** A future that has finished gives its fork to the senders of the task. *)
Lemma finish_delivers h ids fork env number b s ss :
  forks_wf h ids → Z.of_nat (length ids + length (s :: ss)) + 2 < 2 ^ 64 →
  let '(h1, fork_id, f) := finish_create h fork env number b in
  ∃ f' h' rs,
    match mh_forks h1 !! fork_id with
    | Some f1 => let '(h2, id) := inc_senders h1 f1 fork_id in insert_new_fork h2 id f1 s ss
    | None => insert_new_fork (with_handlers h1 (mh_handlers h1 ++ [fork_id])) fork_id f s ss
    end = (h', rs) ∧ delivered h ids f' (s :: ss) h' rs ∧ fork_url f' = cf_url fork.
Proof.
  intros Hwf Hlen. unfold finish_create. cbn zeta.
  set (h1 := with_cells h _). set (fork_id := fork_id_new _ _). set (f := Build_CreatedFork _ _ _).
  assert (grows h h1) as Hg1.
  { split; simpl; [intros i f' Hf'; by exists f'|]. intros i c Hi. exists c.
    split; [by apply lookup_app_l_Some|done]. }
  assert (∀ i c, mh_cells h1 !! i = Some c → 1 ≤ c ≤ 1 + Z.of_nat (length ids)) as Hcells.
  { intros i c [Hi|[_ Hi]]%lookup_app_Some; [by apply (fw_cells _ _ Hwf i)|].
    apply list_lookup_singleton_Some in Hi as [_ <-]. lia. }
  destruct (mh_forks h1 !! fork_id) as [f1|] eqn:Hf1; simpl in Hf1.
  - assert (forks_wf h1 ids) as Hwf1.
    { split; [|done|apply Hwf]. intros i f' Hf'. by eapply key_ok_grows, (fw_keys _ _ Hwf). }
    pose proof (fw_keys _ _ Hwf1 fork_id f1 Hf1) as Hkey.
    destruct (inc_senders h1 f1 fork_id) as [h2 id] eqn:Hinc.
    destruct (issue_wf h1 ids fork_id f1 h2 id) as (Hg & Hw & Hk); [done|simpl in *; lia|done|done|].
    destruct (insert_delivers h h2 ids id f1 s ss) as (h' & rs & Hrun & Hd);
      [by eapply grows_trans|done..|].
    exists f1, h', rs. split_and!; [done|done|].
    destruct Hkey as (num & l & f0 & c & Heq & _). subst fork_id.
    rewrite <- (append_nil_r (fork_id_new (cf_url _) _)) in Heq.
    by apply (names_split _ _ []) in Heq as (<- & _).
  - set (h2 := with_handlers h1 _).
    assert (key_ok (with_forks h2 (<[fork_id := f]> (mh_forks h2))) fork_id f) as Hk.
    { exists number, [], f, 1. simpl. rewrite append_nil_r. split_and!; try done.
      - by rewrite lookup_insert_eq.
      - by rewrite lookup_app_r, Nat.sub_diag by done.
      - by intros ? ?%not_elem_of_nil. }
    destruct (register_wf h h2 ids fork_id f) as [Hg Hw]; try done.
    { split; apply Hg1. }
    { intros i c Hi. specialize (Hcells _ _ Hi). lia. }
    destruct (insert_delivers h h2 ids fork_id f s ss) as (h' & rs & Hrun & Hd); [done..|].
    exists f, h', rs. done.
Qed.
End names.

(** ** Serving requests *)

Section serving.
Context {SharedBackend FetchError : Type}.
Implicit Types h : MultiForkHandler SharedBackend.
Implicit Types f : CreatedFork SharedBackend.
Implicit Types out : list (Reply SharedBackend FetchError).

(** Who waits for the reply to a request, or for a task. *)
Definition senders_of (req : Request) : list CreateSender :=
  match req with QCreateFork _ s | QRollFork _ _ s => [s] | _ => [] end.

Definition task_senders (t : ForkTask) : list CreateSender := tk_sender t :: tk_additional t.

(** The endpoint a sender asked for. *)
Definition asked h (reqs : list Request) (s : CreateSender) (url : string) : Prop :=
  (∃ fork, QCreateFork fork s ∈ reqs ∧ cf_url fork = url) ∨
  (∃ id block f, QRollFork id block s ∈ reqs ∧ mh_forks h !! id = Some f ∧ fork_url f = url).

(** After the requests [reqs], with [ts] in progress and [out] sent. *)
Record serving (reqs : list Request) (ts : list ForkTask)
    (st : MultiForkHandler SharedBackend * list (Reply SharedBackend FetchError)) : Prop := {
  sv_wf : forks_wf st.1 (issued st.2);
  sv_tasks : NoDup (tk_id <$> ts);
  sv_names : ∀ t, t ∈ ts → tk_id t = fork_id_new (cf_url (tk_fork t)) (cf_fork_block_number (tk_fork t));
  sv_senders : answered st.2 ++ (ts ≫= task_senders) ≡ₚ reqs ≫= senders_of;
  sv_wait : ∀ t s, t ∈ ts → s ∈ task_senders t → asked st.1 reqs s (cf_url (tk_fork t));
  sv_out : ∀ s id b env, RCreate s (Ok (id, b, env)) ∈ st.2 →
    ∃ f, mh_forks st.1 !! id = Some f ∧ ck_backend f = b ∧ asked st.1 reqs s (fork_url f)
}.

Lemma asked_mono h h' reqs reqs' s url :
  grows h h' → reqs ⊆ reqs' → asked h reqs s url → asked h' reqs' s url.
Proof.
  intros G Hsub [(fork & Hin & Hu)|(id & block & f & Hin & Hf & Hu)]; [left; eauto|right].
  destruct (gr_forks _ _ G _ _ Hf) as (f' & Hf' & Hs & _).
  exists id, block, f'. split_and!; [by apply Hsub|done|congruence].
Qed.

(** What was said stays true when forks are added. *)
Lemma serving_out h h' reqs reqs' s id b :
  grows h h' → reqs ⊆ reqs' →
  (∃ f, mh_forks h !! id = Some f ∧ ck_backend f = b ∧ asked h reqs s (fork_url f)) →
  ∃ f, mh_forks h' !! id = Some f ∧ ck_backend f = b ∧ asked h' reqs' s (fork_url f).
Proof.
  intros G Hsub (f & Hf & Hb & Ha). destruct (gr_forks _ _ G _ _ Hf) as (f' & Hf' & Hu & Hb' & _).
  exists f'. rewrite <- Hu, <- Hb'. split_and!; [done|done|by eapply asked_mono].
Qed.

Lemma forks_wf_tasks h ids ts : forks_wf h ids → forks_wf (with_tasks h ts) ids.
Proof. intros [??]. by split. Qed.

(** *** Requests *)

Lemma keys_alter (g : CreatedFork SharedBackend → CreatedFork SharedBackend) id
    (m : gmap string (CreatedFork SharedBackend)) :
  (map_to_list (alter g id m)).*1 ≡ₚ (map_to_list m).*1.
Proof.
  apply NoDup_Permutation; [apply NoDup_fst_map_to_list..|]. intros k.
  rewrite !list_elem_of_fmap.
  split; intros ([k' f] & -> & Hf%elem_of_map_to_list); simpl in *.
  - destruct (decide (id = k')) as [->|Hne].
    + rewrite lookup_alter_eq in Hf. apply fmap_Some in Hf as (f0 & Hf0 & _).
      exists (k', f0). by rewrite elem_of_map_to_list.
    + rewrite lookup_alter_ne in Hf by done. exists (k', f). by rewrite elem_of_map_to_list.
  - destruct (decide (id = k')) as [->|Hne].
    + exists (k', g f). rewrite elem_of_map_to_list, lookup_alter_eq, Hf. done.
    + exists (k', f). by rewrite elem_of_map_to_list, lookup_alter_ne.
Qed.

(** Changing the environment of a fork. *)
Lemma alter_wf h ids (g : CreatedFork SharedBackend → CreatedFork SharedBackend) id :
  (∀ f, same_fork f (g f)) → forks_wf h ids →
  grows h (with_forks h (alter g id (mh_forks h))) ∧ forks_wf (with_forks h (alter g id (mh_forks h))) ids.
Proof.
  intros Hg [Hk Hc Hids].
  assert (grows h (with_forks h (alter g id (mh_forks h)))) as G.
  { split; simpl; [|intros i c Hi; by exists c]. intros k f Hf.
    destruct (decide (id = k)) as [->|Hne].
    - exists (g f). by rewrite lookup_alter_eq, Hf.
    - exists f. by rewrite lookup_alter_ne. }
  split; [done|split; simpl; [|done|by rewrite keys_alter]].
  intros k f Hf. destruct (decide (id = k)) as [->|Hne].
  - rewrite lookup_alter_eq in Hf. apply fmap_Some in Hf as (f0 & Hf0 & ->).
    by apply (key_ok_grows h _ k f0); [..|apply Hk].
  - rewrite lookup_alter_ne in Hf by done. by apply (key_ok_grows h _ k f); [..|apply Hk].
Qed.

(** A request to create a fork joins the task for it or starts one. *)
Lemma create_serving reqs h out fork s req :
  serving reqs (mh_pending_tasks h) (h, out) → senders_of req = [s] →
  asked h (reqs ++ [req]) s (cf_url fork) →
  serving (reqs ++ [req]) (mh_pending_tasks (create_fork h fork s)) (create_fork h fork s, out).
Proof.
  intros [Hw Ht Hn Hs Hwait Hout] Hreq Hask; simpl in *. unfold create_fork, find_in_progress_task.
  assert (∀ h', grows h h' → ∀ s id b env, RCreate s (Ok (id, b, env)) ∈ out → ∃ f,
    mh_forks h' !! id = Some f ∧ ck_backend f = b ∧ asked h' (reqs ++ [req]) s (fork_url f)) as Hout'.
  { intros h' G s' id b env Hin. eapply serving_out; [..|by eapply Hout]; [done..|].
    intros x Hx. apply elem_of_app. by left. }
  set (fork_id := fork_id_new _ _).
  assert (∀ ts, grows h (with_tasks h ts)) as G by (intros ts; destruct (grows_refl h); by split).
  assert (∀ t s', t ∈ mh_pending_tasks h → s' ∈ task_senders t →
    asked h (reqs ++ [req]) s' (cf_url (tk_fork t))) as Hwait'.
  { intros t s' Hin Hs'. eapply asked_mono; [apply grows_refl| |by eapply Hwait].
    intros x Hx. apply elem_of_app. by left. }
  destruct (list_find _ _) as [[i t]|] eqn:Hfind; simpl.
  - apply list_find_Some in Hfind as (Hi & Hid & _).
    pose proof (take_drop_middle _ _ _ Hi) as Hsplit.
    assert (length (take i (mh_pending_tasks h)) = i) as Hl1.
    { apply length_take_le. apply lookup_lt_Some in Hi. lia. }
    set (l1 := take i _) in *. set (l2 := drop (S i) _) in *. clearbody l1 l2. rewrite <- Hsplit in *.
    assert (alter (push_sender s) i (l1 ++ t :: l2) = l1 ++ push_sender s t :: l2) as ->.
    { rewrite alter_app_r_alt by lia. by rewrite Hl1, Nat.sub_diag. }
    split; simpl; [by apply forks_wf_tasks| | | | |exact (Hout' (with_tasks h _) (G _))].
    + by rewrite fmap_app, fmap_cons in Ht |- *.
    + intros t' [Hin|[->|Hin]%elem_of_cons]%elem_of_app; [apply Hn|apply (Hn t)|apply Hn]; set_solver.
    + rewrite bind_app, bind_cons in Hs. rewrite !bind_app, bind_cons, <- Hs; simpl.
      rewrite Hreq. solve_Permutation.
    + intros t' s' [Hin|[->|Hin]%elem_of_cons]%elem_of_app Hs'.
      * apply Hwait'; [set_solver|done].
      * destruct (decide (s' = s)) as [->|Hne].
        -- replace (cf_url (tk_fork (push_sender s t))) with (cf_url fork); [done|].
           specialize (Hn t ltac:(set_solver)). rewrite Hid in Hn. by eapply fork_id_url.
        -- apply (Hwait' t); [set_solver|]. unfold task_senders in *; simpl in *. set_solver.
      * apply Hwait'; [set_solver|done].
  - apply list_find_None in Hfind. split; simpl; [by apply forks_wf_tasks| | | | |exact (Hout' (with_tasks h _) (G _))].
    + rewrite fmap_app. apply NoDup_app. split_and!; [done| |apply NoDup_singleton].
      intros id Hid1 Hid2%list_elem_of_singleton. simpl in Hid2. subst id.
      apply list_elem_of_fmap in Hid1 as (t & Heq & Hin).
      by eapply Forall_forall in Hfind; [|exact Hin].
    + intros t' [Hin| ->%list_elem_of_singleton]%elem_of_app; [by apply Hn|done].
    + rewrite !bind_app; simpl. rewrite Hreq, <- Hs; simpl. by rewrite (assoc (++)).
    + intros t' s' [Hin| ->%list_elem_of_singleton]%elem_of_app Hs'; [by apply Hwait'|].
      simpl in *. apply list_elem_of_singleton in Hs' as ->. done.
Qed.

(** Requests other than those to create a fork. *)
Lemma quiet_serving reqs ts h h' out rs req :
  serving reqs ts (h, out) → grows h h' → forks_wf h' (issued out) → senders_of req = [] →
  issued rs = [] → answered rs = [] → serving (reqs ++ [req]) ts (h', out ++ rs).
Proof.
  intros [Hw Ht Hn Hs Hwait Hout] G Hw' Hreq Hi Ha; simpl in *.
  assert (reqs ⊆ reqs ++ [req]) as Hsub by (intros x; rewrite elem_of_app; by left).
  split; simpl; [|done|done| | |].
  - by rewrite issued_app, Hi, app_nil_r.
  - rewrite answered_app, Ha, app_nil_r, bind_app, Hs; simpl. by rewrite Hreq, !app_nil_r.
  - intros t s Hin Hsin. eapply asked_mono; [done..|by eapply Hwait].
  - intros s id b env [Hin|Hin]%elem_of_app; [by eapply serving_out; [..|eapply Hout]|].
    assert (s ∈ answered rs) as Hin'; [|by rewrite Ha in Hin'; apply not_elem_of_nil in Hin'].
    apply list_elem_of_omap. by exists (RCreate s (Ok (id, b, env))).
Qed.

Lemma same_set_block f b : same_fork f (set_block f b).
Proof. done. Qed.

Lemma receive_serving reqs st req :
  req ≠ QShutDown → serving reqs (mh_pending_tasks st.1) st →
  serving (reqs ++ [req]) (mh_pending_tasks (receive st req).1) (receive st req).
Proof.
  destruct st as [h out]. intros Hlive Hsv.
  pose proof (sv_wf _ _ _ Hsv) as Hw; simpl in Hw.
  pose proof (λ rs q, quiet_serving reqs (mh_pending_tasks h) h h out rs q Hsv (grows_refl h) Hw)
    as Hquiet.
  assert (∀ id g, (∀ f, same_fork f (g f)) → ∀ q, senders_of q = [] →
    serving (reqs ++ [q]) (mh_pending_tasks h) (with_forks h (alter g id (mh_forks h)), out ++ []))
    as Halter.
  { intros id g Hg q Hq. destruct (alter_wf h _ g id Hg Hw). by eapply quiet_serving. }
  unfold receive; destruct req as [fork s|id|id block s|id|id number timestamp|id env| |id]; simpl;
    try by apply Hquiet.
  - rewrite app_nil_r. apply create_serving; [done|done|]. left. exists fork.
    rewrite elem_of_app, list_elem_of_singleton. auto.
  - destruct (mh_forks h !! id) as [f|] eqn:Hf.
    + rewrite app_nil_r. apply create_serving; [done|done|]. right. exists id, block, f.
      rewrite elem_of_app, list_elem_of_singleton. auto.
    + destruct Hsv as [_ Ht Hn Hs Hwait Hout]; simpl in *.
      assert (reqs ⊆ reqs ++ [QRollFork id block s]) as Hsub by (intros x; rewrite elem_of_app; by left).
      split; simpl; [|done|done| | |].
      * by rewrite issued_app, app_nil_r.
      * rewrite answered_app, bind_app, <- Hs; simpl. solve_Permutation.
      * intros t s' Hin Hsin. eapply asked_mono; [apply grows_refl|done|by eapply Hwait].
      * intros s' id' b env [Hin|Hin%list_elem_of_singleton]%elem_of_app; [|done].
        eapply serving_out; [apply grows_refl|done|by eapply Hout].
  - by apply (Halter id (λ f, set_block f (set_number_timestamp (fork_block f) number timestamp))).
  - by apply (Halter id (λ f, set_block f env)).
  - done.
Qed.

(** *** Tasks *)

Lemma serving_size reqs ts st :
  serving reqs ts st → (length (issued st.2) + length (ts ≫= task_senders) ≤ length reqs)%nat.
Proof.
  intros [_ _ _ Hs _ _]. apply Permutation_length in Hs. rewrite length_app in Hs.
  pose proof (issued_le_answered st.2).
  assert (length (reqs ≫= senders_of) ≤ length reqs)%nat; [|lia].
  clear. induction reqs as [|req reqs IH]; [done|]. rewrite bind_cons, length_app.
  destruct req; simpl; lia.
Qed.

Lemma serving_perm reqs ts ts' st : ts ≡ₚ ts' → serving reqs ts st → serving reqs ts' st.
Proof.
  intros Hp [Hw Ht Hn Hs Hwait Hout]. split; [done|..|done].
  - by rewrite <- Hp.
  - intros t. rewrite <- Hp. apply Hn.
  - by rewrite <- Hp.
  - intros t s. rewrite <- Hp. apply Hwait.
Qed.

Lemma answered_errs (err : CreateError FetchError) ss :
  answered ((λ s, RCreate (SharedBackend := SharedBackend) s (Err err)) <$> ss) = ss.
Proof. induction ss as [|s ss IH]; [done|]. exact (f_equal (cons s) IH). Qed.

Lemma issued_errs (err : CreateError FetchError) ss :
  issued ((λ s, RCreate (SharedBackend := SharedBackend) s (Err err)) <$> ss) = [].
Proof. by induction ss. Qed.

(** Polling a task keeps it or answers everyone who waits for it. *)
Lemma poll_task_serving fetched reqs t ts st :
  Z.of_nat (length reqs) + 2 < 2 ^ 64 → serving reqs (t :: ts) st →
  let '(st', kept) := poll_task fetched st t in serving reqs (option_list kept ++ ts) st'.
Proof.
  intros Hlen Hsv. pose proof (serving_size _ _ _ Hsv) as Hsize. destruct st as [h out].
  destruct Hsv as [Hw Ht Hn Hs Hwait Hout]; cbn [fst snd] in *.
  rewrite fmap_cons in Ht. apply NoDup_cons in Ht as Ht'. unfold poll_task.
  destruct (fetched (tk_id t)) as [[[[env number] b]|err]|]; [| |by split].
  - pose proof (finish_delivers (FetchError := FetchError) h (issued out) (tk_fork t) env number b
      (tk_sender t) (tk_additional t) Hw) as Hfin.
    destruct (finish_create h (tk_fork t) env number b) as [[h1 fork_id] f1].
    rewrite bind_cons, length_app in Hsize; simpl in Hsize.
    destruct Hfin as (f' & h' & rs & -> & [G Hw' Hrs Hf] & Hu); [simpl; lia|].
    split; simpl; [by rewrite issued_app|apply Ht'|intros t' Hin; apply Hn; by right| | |].
    + rewrite answered_app, Hrs, <- Hs, bind_cons; simpl. by rewrite <- (assoc (++)).
    + intros t' s Hin Hsin. eapply asked_mono; [exact G|done|by eapply Hwait; [right|]].
    + intros s id b' env' [Hin|Hin]%elem_of_app; [by eapply serving_out; [..|eapply Hout]|].
      destruct (Hf _ _ _ _ Hin) as (f & Hlk & (Hu' & _) & ->). exists f. split_and!; [done|done|].
      rewrite <- Hu', Hu. eapply asked_mono; [exact G|done|]. apply (Hwait t); [by left|].
      change (s ∈ task_senders t). unfold task_senders. rewrite <- Hrs. apply list_elem_of_omap.
      by exists (RCreate s (Ok (id, ck_backend f, env'))).
  - set (rs := _ <$> _ : list (Reply SharedBackend FetchError)).
    assert (issued rs = []) as Hi.
    { apply issued_errs. }
    assert (answered rs = task_senders t) as Ha.
    { apply answered_errs. }
    split; simpl; [by rewrite issued_app, Hi, app_nil_r|apply Ht'|intros t' Hin; apply Hn; by right| | |].
    + rewrite answered_app, Ha, <- Hs, bind_cons; simpl. by rewrite <- (assoc (++)).
    + intros t' s Hin Hsin. by eapply Hwait; [right|].
    + intros s id b env [Hin|Hin]%elem_of_app; [by apply (Hout s id b env)|].
      apply list_elem_of_fmap in Hin as (? & [=] & _).
Qed.

Lemma poll_all_serving fetched reqs l ts st :
  Z.of_nat (length reqs) + 2 < 2 ^ 64 → serving reqs (l ++ ts) st →
  serving reqs ((poll_all (poll_task fetched) st l).2 ++ ts) (poll_all (poll_task fetched) st l).1.
Proof.
  intros Hlen. revert ts st. induction l as [|t l IH]; intros ts st Hsv; simpl; [done|].
  pose proof (poll_task_serving fetched reqs t (l ++ ts) st Hlen Hsv) as H1.
  destruct (poll_task fetched st t) as [st1 kept].
  assert (serving reqs (l ++ (option_list kept ++ ts)) st1) as H2.
  { eapply serving_perm, H1. by rewrite !(assoc (++)), (Permutation_app_comm l). }
  specialize (IH _ _ H2). destruct (poll_all (poll_task fetched) st1 l) as [st2 r]; simpl in *.
  eapply serving_perm, IH. solve_Permutation.
Qed.

(** *** Polls *)

Definition live (req : Request) : Prop := req ≠ QShutDown.

Lemma receives_serving rs reqs st :
  Forall live rs → serving reqs (mh_pending_tasks st.1) st →
  serving (reqs ++ rs) (mh_pending_tasks (foldl receive st rs).1) (foldl receive st rs).
Proof.
  intros Hlive. revert reqs st. induction Hlive as [|r rs Hr _ IH]; intros reqs st Hsv; simpl.
  - by rewrite app_nil_r.
  - rewrite cons_middle, (assoc (++)). by apply IH, receive_serving.
Qed.

Lemma poll_all_kept fetched (l : list ForkTask)
    (st : MultiForkHandler SharedBackend * list (Reply SharedBackend FetchError)) t :
  t ∈ (poll_all (poll_task fetched) st l).2 → fetched (tk_id t) = None.
Proof.
  revert st. induction l as [|t' l IH]; intros st; simpl; [by intros ?%not_elem_of_nil|].
  destruct (poll_task fetched st t') as [st1 kept] eqn:Hp.
  specialize (IH st1). destruct (poll_all (poll_task fetched) st1 l) as [st2 r]; simpl in *.
  intros [Hin|Hin]%elem_of_app; [|by apply IH].
  destruct st as [h out]. unfold poll_task in Hp.
  destruct (fetched (tk_id t')) as [[[[env number] b]|err]|] eqn:Hf; simpl in Hp.
  - destruct (match _ with Some _ => _ | None => _ end) in Hp. injection Hp as <- <-. by apply not_elem_of_nil in Hin.
  - injection Hp as <- <-. by apply not_elem_of_nil in Hin.
  - injection Hp as <- <-. by apply list_elem_of_singleton in Hin as ->.
Qed.

Lemma with_handlers_serving reqs ts h out l :
  serving reqs ts (h, out) → serving reqs ts (with_handlers h l, out).
Proof. intros [[? ? ?] ? ? ? ? ?]. split; [by split|done..]. Qed.

Lemma with_tasks_serving reqs ts h out l :
  serving reqs ts (h, out) → serving reqs ts (with_tasks h l, out).
Proof. intros [[? ? ?] ? ? ? ? ?]. split; [by split|done..]. Qed.

(** Earlier replies do not matter. *)
Definition after_replies out (st : MultiForkHandler SharedBackend * list (Reply SharedBackend FetchError)) :=
  (st.1, out ++ st.2).

Lemma receives_after out st rs :
  foldl receive (after_replies out st) rs = after_replies out (foldl receive st rs).
Proof.
  revert st. induction rs as [|r rs IH]; intros [h o]; cbn [foldl]; [done|].
  rewrite <- IH. f_equal. unfold receive, after_replies; simpl.
  destruct (on_request h r); simpl. by rewrite (assoc (++)).
Qed.

Lemma poll_task_after out fetched st t :
  poll_task fetched (after_replies out st) t =
  (after_replies out (poll_task fetched st t).1, (poll_task fetched st t).2).
Proof.
  destruct st as [h o]. unfold poll_task, after_replies; cbn [fst snd].
  destruct (fetched (tk_id t)) as [[[[env number] b]|err]|]; [|cbn [fst snd]; by rewrite (assoc (++))|done].
  destruct (finish_create h (tk_fork t) env number b) as [[h1 fork_id] f1].
  destruct (match _ with Some _ => _ | None => _ end) as [h2 rs]; cbn [fst snd]. by rewrite (assoc (++)).
Qed.

Lemma poll_all_after out fetched l st :
  poll_all (poll_task fetched) (after_replies out st) l =
  (after_replies out (poll_all (poll_task fetched) st l).1, (poll_all (poll_task fetched) st l).2).
Proof.
  revert st. induction l as [|t l IH]; intros st; cbn [poll_all]; [done|].
  rewrite poll_task_after. destruct (poll_task fetched st t) as [st1 kept]; cbn [fst snd].
  rewrite IH. by destruct (poll_all (poll_task fetched) st1 l).
Qed.

(** One poll: it does not panic, and the tasks whose endpoint has answered are
    gone. *)
Lemma poll_serving reqs h out (i : PollInput SharedBackend FetchError) :
  Forall live (pi_requests i) → Z.of_nat (length (reqs ++ pi_requests i)) + 2 < 2 ^ 64 →
  serving reqs (mh_pending_tasks h) (h, out) →
  ∃ h' rs fin, poll h i = Ret (h', rs, fin) ∧
    serving (reqs ++ pi_requests i) (mh_pending_tasks h') (h', out ++ rs) ∧
    ∀ t, t ∈ mh_pending_tasks h' → pi_fetched i (tk_id t) = None.
Proof.
  intros Hlive Hlen Hsv. unfold poll.
  pose proof (receives_serving _ _ (h, out) Hlive Hsv) as H1.
  replace (h, out) with (after_replies out (h, [])) in H1 by (unfold after_replies; by rewrite app_nil_r).
  rewrite receives_after in H1. destruct (foldl receive (h, []) (pi_requests i)) as [h1 rs1]; simpl in H1.
  destruct (poll_rev_spec (poll_task (pi_fetched i)) (h1, rs1) (mh_pending_tasks h1)) as (ts & -> & Hts).
  pose proof (poll_all_after out (pi_fetched i) (rev (mh_pending_tasks h1)) (h1, rs1)) as Hafter.
  pose proof (poll_all_kept (pi_fetched i) (rev (mh_pending_tasks h1)) (h1, rs1)) as Hkept.
  pose proof (poll_all_serving (pi_fetched i) (reqs ++ pi_requests i) (rev (mh_pending_tasks h1)) []
    (h1, out ++ rs1) Hlen) as H2.
  unfold after_replies in Hafter; cbn [fst snd] in Hafter. rewrite Hafter in H2.
  destruct (poll_all _ (h1, rs1) _) as [[h2 rs2] kept]; cbn [fst snd] in *. rewrite bind_Ret.
  rewrite !app_nil_r in H2.
  destruct (poll_rev_spec (poll_handler i) tt (mh_handlers (with_tasks h2 ts))) as (hs & -> & _).
  rewrite bind_Ret. do 3 eexists. split; [done|]. cbn [mh_pending_tasks with_handlers with_tasks]. split.
  - apply with_handlers_serving, with_tasks_serving. eapply serving_perm; [by symmetry|apply H2].
    eapply serving_perm, H1. by rewrite <- Permutation_rev.
  - intros t Hin. apply Hkept. by rewrite <- Hts.
Qed.

Lemma start_serving : serving [] [] (handler_new, []).
Proof.
  split; simpl; [split; simpl| |..].
  - done.
  - done.
  - by rewrite map_to_list_empty.
  - apply NoDup_nil_2.
  - by intros ? ?%not_elem_of_nil.
  - done.
  - by intros ? ? ?%not_elem_of_nil.
  - by intros ? ? ? ? ?%not_elem_of_nil.
Qed.

(** All requests that arrived in a run. *)
Definition arrived (inputs : list (PollInput SharedBackend FetchError)) : list Request :=
  inputs ≫= pi_requests.

Lemma polls_serving inputs reqs h out :
  Forall live (arrived inputs) → Z.of_nat (length (reqs ++ arrived inputs)) + 2 < 2 ^ 64 →
  serving reqs (mh_pending_tasks h) (h, out) →
  ∃ h' rs, foldM (λ st i, let '(h, out) := st in '(h, rs, _) ← poll h i; Ret (h, out ++ rs)) (h, out)
      inputs = Ret (h', rs) ∧
    serving (reqs ++ arrived inputs) (mh_pending_tasks h') (h', rs) ∧
    ∀ i, last inputs = Some i → ∀ t, t ∈ mh_pending_tasks h' → pi_fetched i (tk_id t) = None.
Proof.
  revert reqs h out. induction inputs as [|i inputs IH]; intros reqs h out Hlive Hlen Hsv.
  { exists h, out. unfold arrived; simpl. rewrite app_nil_r. done. }
  unfold arrived in *. rewrite bind_cons in *. apply Forall_app in Hlive as [Hl1 Hl2].
  destruct (poll_serving reqs h out i) as (h1 & rs1 & fin & Hp & H1 & Hk); [done| |done|].
  { rewrite !length_app in *. lia. }
  cbn [foldM]. rewrite Hp, bind_Ret. cbn [fst snd]. rewrite bind_Ret.
  destruct (IH (reqs ++ pi_requests i) h1 (out ++ rs1)) as (h' & rs & Hrun & H2 & Hlast);
    [done|by rewrite <- (assoc (++))|done|].
  exists h', rs. rewrite (assoc (++)). split_and!; [done|done|].
  intros i' Hi'. destruct inputs as [|j inputs]; [|by apply Hlast].
  simpl in *. simplify_eq. done.
Qed.
End serving.

Lemma issued_NoDup {SharedBackend FetchError : Type} reqs ts
    (st : MultiForkHandler SharedBackend * list (Reply SharedBackend FetchError)) :
  serving reqs ts st → NoDup (issued st.2).
Proof. intros [[_ _ Hids] _ _ _ _ _]. rewrite Hids. apply NoDup_fst_map_to_list. Qed.

(** The promise to the backends: no name is handed out twice. *)
Lemma polls_issued {SharedBackend FetchError : Type}
    (inputs : list (PollInput SharedBackend FetchError)) h out :
  Forall live (arrived inputs) → Z.of_nat (length (arrived inputs)) + 2 < 2 ^ 64 →
  polls handler_new inputs = Ret (h, out) → NoDup (issued out).
Proof.
  intros Hlive Hlen Hrun.
  destruct (polls_serving inputs [] handler_new [] Hlive Hlen start_serving)
    as (h' & out' & Hrun' & Hsv & _).
  unfold polls in Hrun. rewrite Hrun in Hrun'. injection Hrun' as <- <-. by apply issued_NoDup in Hsv.
Qed.

(** C20: the names the handler of forks hands out are distinct.  Over any number
    of polls, in which any requests but the shutdown arrive and endpoints answer
    in any order, the polls return; the names in the replies are pairwise
    distinct; each request to create or roll a fork has been answered exactly
    once or waits for one task, and the tasks are for distinct forks; a reply
    names a fork the handler holds, with the backend in the reply, at the
    endpoint its sender asked for; and the tasks that remain are those whose
    endpoint had not answered in the last poll. *)
Theorem fork_names_distinct {SharedBackend FetchError : Type}
    (inputs : list (PollInput SharedBackend FetchError)) :
  Forall live (arrived inputs) → Z.of_nat (length (arrived inputs)) + 2 < 2 ^ 64 →
  ∃ h out, polls handler_new inputs = Ret (h, out) ∧
    NoDup (issued out) ∧
    answered out ++ (mh_pending_tasks h ≫= task_senders) ≡ₚ arrived inputs ≫= senders_of ∧
    NoDup (tk_id <$> mh_pending_tasks h) ∧
    (∀ s id b env, RCreate s (Ok (id, b, env)) ∈ out →
      ∃ f, mh_forks h !! id = Some f ∧ ck_backend f = b ∧ asked h (arrived inputs) s (fork_url f)) ∧
    (∀ i, last inputs = Some i → ∀ t, t ∈ mh_pending_tasks h → pi_fetched i (tk_id t) = None).
Proof.
  intros Hlive Hlen.
  destruct (polls_serving inputs [] handler_new [] Hlive Hlen start_serving)
    as (h & out & Hrun & Hsv & Hlast).
  exists h, out. split; [done|]. split_and!; [by apply issued_NoDup in Hsv|apply Hsv..|done].
Qed.

Definition ex_env (timestamp : Z) : ForkEnv :=
  {| fe_evm :=
       {| env_cfg := {| cfg_spec := 0; cfg_chain_id := 1; cfg_disable_block_gas_limit := false;
                        cfg_disable_base_fee := false; cfg_tx_gas_limit_cap := None; cfg_cap := 0 |};
          env_blk := {| blk_number := 16; blk_beneficiary := 0; blk_timestamp := timestamp;
                        blk_gas_limit := 0; blk_basefee := 0; blk_difficulty := 0;
                        blk_prevrandao := None; blk_blob_excess_gas_and_price := None |} |};
     fe_tx_chain_id := None |}.

Definition ex_create : CreateFork :=
  {| cf_enable_caching := false; cf_url := "rpc"; cf_env := ex_env 0; cf_fork_block_number := Some 16%N |}.

(** A poll in which every endpoint answers with block 16 and backend 7. *)
Definition ex_poll (reqs : list Request) : PollInput nat unit :=
  {| pi_requests := reqs; pi_closed := false; pi_fetched := λ _, Some (Ok (ex_env 100, 16%N, 7%nat));
     pi_done := λ _, false |}.

(** Two requests share a task and a third rolls to the same block. *)
Lemma fork_names_distinct_witness :
  ∃ h out, polls handler_new [ex_poll [QCreateFork ex_create 0%nat; QCreateFork ex_create 1%nat];
                              ex_poll [QRollFork "rpc@0x10" 16%N 2%nat]] = Ret (h, out) ∧
    issued out = ["rpc@0x10"; "rpc@0x10-1"; "rpc@0x10-2"] ∧ NoDup (issued out).
Proof.
  destruct (fork_names_distinct [ex_poll [QCreateFork ex_create 0%nat; QCreateFork ex_create 1%nat];
    ex_poll [QRollFork "rpc@0x10" 16%N 2%nat]]) as (h & out & Hrun & Hnd & _).
  - repeat constructor; intros H; discriminate H.
  - vm_compute. reflexivity.
  - exists h, out. split; [exact Hrun|]. split; [|exact Hnd].
    vm_compute in Hrun. injection Hrun as <- <-. vm_compute. reflexivity.
Defined.

(** A fork that is created where one exists copies the other's options, whose
    environment has been changed by [roll] and [warp]: the new fork starts at
    the changed time, not at the time of its block. *)
Lemma fork_env_leaks :
  ∃ h out, polls handler_new
      [ex_poll [QCreateFork ex_create 0%nat]; ex_poll [QUpdateBlock "rpc@0x10" 16 999];
       ex_poll [QCreateFork ex_create 1%nat]] = Ret (h, out) ∧
    (RCreate 0%nat (Ok ("rpc@0x10", 7%nat, ex_env 100)) ∈ out) ∧
    (RCreate 1%nat (Ok ("rpc@0x10-1", 7%nat, ex_env 999)) ∈ out).
Proof.
  do 2 eexists. split; [vm_compute; reflexivity|]. rewrite !elem_of_cons.
  split; [left; reflexivity|right; left; reflexivity].
Qed.
