(* ===== verification/ForkBackend.v ===== *)
(** * Forks and snapshots of the test backend (crates/evm/core/src/backend/mod.rs,
    strategy.rs, snapshot.rs)

    A [Backend] holds the forks of a test and switches between them.  A fork has
    a local number, a name (see [MultiFork]) and a place in the vector of forks;
    the tables between the three are kept consistent by every operation as long
    as the names that come back from the handler are new, and then no operation
    panics.  Selecting a fork carries the persistent accounts over and leaves the
    rest of the fork as it was; a snapshot brings back the fork it was taken on.

    revm's cache and journal are data of the model; its operations that read
    from an endpoint are the class [RevmOps].  The replies of the handler are
    arguments of the operations that wait for them. *)

From stdpp Require Import prelude gmap list strings.
From S2P Require Import Prelude Containers Transaction Fees Env BlockStates MemDb MultiFork.

Open Scope Z_scope.

(** ** revm's journal and caches *)

(** [EvmStorageSlot], [Account] and [JournalInner] of revm, with the fields the
    backend uses; [js_rest] is the rest of the journal. *)
Record Slot := { sl_original : Z; sl_present : Z }.

Record Account := {
  ac_info : DbInfo;
  ac_storage : gmap Z Slot;
  ac_created : bool;
  ac_touched : bool
}.

Record JournaledState (Log Rest : Type) := {
  js_state : gmap Address Account;
  js_logs : list Log;
  js_depth : nat;
  js_rest : Rest
}.
Arguments js_state {Log Rest}.
Arguments js_logs {Log Rest}.
Arguments js_depth {Log Rest}.
Arguments js_rest {Log Rest}.
Arguments Build_JournaledState {Log Rest}.

Record ForkDB (SharedBackend : Type) := { fd_cache : CacheDB; fd_db : SharedBackend }.
Arguments fd_cache {SharedBackend}.
Arguments fd_db {SharedBackend}.
Arguments Build_ForkDB {SharedBackend}.

(** What revm does: reads through a cache, which may ask the endpoint, and
    defaults. *)
Class RevmOps (Log Rest SharedBackend DbErr : Type) := {
  db_basic : ForkDB SharedBackend → Address → ForkDB SharedBackend * result (option DbInfo) DbErr;
  db_load_account : ForkDB SharedBackend → Address → ForkDB SharedBackend * result DbAccount DbErr;
  db_insert_account_info : ForkDB SharedBackend → Address → DbInfo → ForkDB SharedBackend;
  journal_load_account : JournaledState Log Rest → ForkDB SharedBackend → Address →
    JournaledState Log Rest * ForkDB SharedBackend;
  new_fork_db : SharedBackend → ForkDB SharedBackend;
  account_from : DbInfo → Account;
  info_default : DbInfo;
  spec_default : Z;
  is_precompile : Z → Address → bool;
  fresh_journal : Z → JournaledState Log Rest
}.

Definition CHEATCODE_ADDRESS : Address := 0x7109709ECfa91a80626fF3989D68f67F5b1DD12D.
Definition DEFAULT_CREATE2_DEPLOYER : Address := 0x4e59b44847b379578588920ca78fbf26c0b4956c.
Definition CALLER : Address := 0x1804c8AB1F12E6bbf3894d4083f33e07309d1f38.
Definition TEST_CONTRACT_ADDRESS : Address := 0xb4c79daB8f259C7Aee6E5b2Aa729821864227e84.
Definition GLOBAL_FAIL_SLOT : Z := 0x6661696c65640000000000000000000000000000000000000000000000000000.

Definition DEFAULT_PERSISTENT_ACCOUNTS : gset Address :=
  {[CHEATCODE_ADDRESS; DEFAULT_CREATE2_DEPLOYER; CALLER]}.

Section merge.
Context {Log Rest SharedBackend : Type}.

Record Fork := { fk_db : ForkDB SharedBackend; fk_journal : JournaledState Log Rest }.

Definition with_state (j : JournaledState Log Rest) (m : gmap Address Account) : JournaledState Log Rest :=
  {| js_state := m; js_logs := js_logs j; js_depth := js_depth j; js_rest := js_rest j |}.

Definition with_depth (j : JournaledState Log Rest) (d : nat) : JournaledState Log Rest :=
  {| js_state := js_state j; js_logs := js_logs j; js_depth := d; js_rest := js_rest j |}.

Definition with_logs (j : JournaledState Log Rest) (l : list Log) : JournaledState Log Rest :=
  {| js_state := js_state j; js_logs := l; js_depth := js_depth j; js_rest := js_rest j |}.

Definition with_info (a : Account) (i : DbInfo) : Account :=
  {| ac_info := i; ac_storage := ac_storage a; ac_created := ac_created a; ac_touched := ac_touched a |}.

Definition with_storage (a : Account) (s : gmap Z Slot) : Account :=
  {| ac_info := ac_info a; ac_storage := s; ac_created := ac_created a; ac_touched := ac_touched a |}.

Definition with_accounts (d : CacheDB) (m : gmap Address DbAccount) : CacheDB :=
  {| cd_accounts := m; cd_contracts := cd_contracts d; cd_block_hashes := cd_block_hashes d |}.

(** [merge_journaled_state_data]: the storage of the fork is extended with that
    of the active state. *)
Definition merge_journaled_state_data (addr : Address) (active fork : JournaledState Log Rest) :
    JournaledState Log Rest :=
  match js_state active !! addr with
  | None => fork
  | Some acc =>
      let acc :=
        match js_state fork !! addr with
        | Some fork_account => with_storage acc (ac_storage acc ∪ ac_storage fork_account)
        | None => acc
        end in
      with_state fork (<[addr := acc]> (js_state fork))
  end.

(** [merge_db_account_data], on the caches. *)
Definition merge_db_account_data (addr : Address) (active fork_db : CacheDB) : CacheDB :=
  match cd_accounts active !! addr with
  | None => fork_db
  | Some acc =>
      let hash := in_code_hash (da_info acc) in
      let contracts :=
        match cd_contracts active !! hash with
        | Some code => <[hash := code]> (cd_contracts fork_db)
        | None => cd_contracts fork_db
        end in
      let storage :=
        match cd_accounts fork_db !! addr with
        | Some fork_account => da_storage acc ∪ da_storage fork_account
        | None => da_storage acc
        end in
      {| cd_accounts :=
           <[addr := {| da_info := da_info acc; da_state := da_state acc; da_storage := storage |}]>
             (cd_accounts fork_db);
         cd_contracts := contracts; cd_block_hashes := cd_block_hashes fork_db |}
  end.

Definition with_cache (d : ForkDB SharedBackend) (c : CacheDB) : ForkDB SharedBackend :=
  {| fd_cache := c; fd_db := fd_db d |}.

(** One account of [merge_account_data]. *)
Definition merge_account (active : CacheDB) (active_journal : JournaledState Log Rest) (f : Fork)
    (addr : Address) : Fork :=
  {| fk_db := with_cache (fk_db f) (merge_db_account_data addr active (fd_cache (fk_db f)));
     fk_journal := merge_journaled_state_data addr active_journal (fk_journal f) |}.

(** [merge_account_data]: also what becomes of the active journal. *)
Definition merge_account_data (accounts : list Address) (active : CacheDB)
    (active_journal : JournaledState Log Rest) (target_fork : Fork) : JournaledState Log Rest * Fork :=
  let target_fork := foldl (merge_account active active_journal) target_fork accounts in
  (fk_journal target_fork, target_fork).
End merge.
Arguments Fork : clear implicits.

(** ** The backend *)

Section backend.
Context {Log Rest SharedBackend DbErr : Type}.
Context {ops : RevmOps Log Rest SharedBackend DbErr} {order : HashOrder Address}.

Notation Journal := (JournaledState Log Rest).
Notation TheFork := (Fork Log Rest SharedBackend).

(** The environment of the EVM: what forks have, and the sender. *)
Record Env := { ev_fork : ForkEnv; ev_caller : Address }.

Inductive BackendDatabaseSnapshot : Type :=
| InMemory (db : CacheDB)
| Forked (id : Z) (fork_id : ForkId) (idx : nat) (fork : TheFork).

Record BackendStateSnapshot := {
  bs_db : BackendDatabaseSnapshot;
  bs_journal : Journal;
  bs_env : Env
}.

Record BackendInner := {
  launched_with_fork : option (ForkId * Z * nat);
  issued_local_fork_ids : gmap Z ForkId;
  created_forks : gmap ForkId nat;
  forks : list (option TheFork);
  bi_snapshots : StateSnapshots BackendStateSnapshot;
  has_state_snapshot_failure : bool;
  test_contract_address : option Address;
  caller_address : option Address;
  next_fork_id : Z;                  (* U256 *)
  persistent_accounts : gset Address;
  bi_spec_id : Z;
  cheatcode_access_accounts : gset Address
}.

Record Backend := {
  mem_db : CacheDB;
  fork_init_journaled_state : Journal;
  active_fork_ids : option (Z * nat);
  inner : BackendInner
}.

Inductive BackendErr : Type :=
| NoMatchingForkId (id : Z)
| NoMatchingForkName (id : ForkId)
| ForkDoesNotExist (id : Z)
| NoForkActive
| ChannelErr                         (* the handler is gone *)
| HandlerErr                         (* the handler replied with an error *)
| DatabaseErr (e : DbErr)
| MissingAccount (a : Address).

Implicit Types b : Backend.
Implicit Types s : BackendInner.

Definition set_forks s (l : list (option TheFork)) : BackendInner :=
  {| launched_with_fork := launched_with_fork s; issued_local_fork_ids := issued_local_fork_ids s;
     created_forks := created_forks s; forks := l; bi_snapshots := bi_snapshots s;
     has_state_snapshot_failure := has_state_snapshot_failure s;
     test_contract_address := test_contract_address s; caller_address := caller_address s;
     next_fork_id := next_fork_id s; persistent_accounts := persistent_accounts s;
     bi_spec_id := bi_spec_id s; cheatcode_access_accounts := cheatcode_access_accounts s |}.

Definition set_tables s (issued : gmap Z ForkId) (created : gmap ForkId nat) : BackendInner :=
  {| launched_with_fork := launched_with_fork s; issued_local_fork_ids := issued;
     created_forks := created; forks := forks s; bi_snapshots := bi_snapshots s;
     has_state_snapshot_failure := has_state_snapshot_failure s;
     test_contract_address := test_contract_address s; caller_address := caller_address s;
     next_fork_id := next_fork_id s; persistent_accounts := persistent_accounts s;
     bi_spec_id := bi_spec_id s; cheatcode_access_accounts := cheatcode_access_accounts s |}.

Definition set_snapshots s (t : StateSnapshots BackendStateSnapshot) (failure : bool) : BackendInner :=
  {| launched_with_fork := launched_with_fork s; issued_local_fork_ids := issued_local_fork_ids s;
     created_forks := created_forks s; forks := forks s; bi_snapshots := t;
     has_state_snapshot_failure := failure;
     test_contract_address := test_contract_address s; caller_address := caller_address s;
     next_fork_id := next_fork_id s; persistent_accounts := persistent_accounts s;
     bi_spec_id := bi_spec_id s; cheatcode_access_accounts := cheatcode_access_accounts s |}.

Definition set_next_fork_id s (id : Z) : BackendInner :=
  {| launched_with_fork := launched_with_fork s; issued_local_fork_ids := issued_local_fork_ids s;
     created_forks := created_forks s; forks := forks s; bi_snapshots := bi_snapshots s;
     has_state_snapshot_failure := has_state_snapshot_failure s;
     test_contract_address := test_contract_address s; caller_address := caller_address s;
     next_fork_id := id; persistent_accounts := persistent_accounts s;
     bi_spec_id := bi_spec_id s; cheatcode_access_accounts := cheatcode_access_accounts s |}.

Definition set_accounts s (persistent cheats : gset Address) (test caller : option Address) : BackendInner :=
  {| launched_with_fork := launched_with_fork s; issued_local_fork_ids := issued_local_fork_ids s;
     created_forks := created_forks s; forks := forks s; bi_snapshots := bi_snapshots s;
     has_state_snapshot_failure := has_state_snapshot_failure s;
     test_contract_address := test; caller_address := caller;
     next_fork_id := next_fork_id s; persistent_accounts := persistent;
     bi_spec_id := bi_spec_id s; cheatcode_access_accounts := cheats |}.

Definition with_inner b s : Backend :=
  {| mem_db := mem_db b; fork_init_journaled_state := fork_init_journaled_state b;
     active_fork_ids := active_fork_ids b; inner := s |}.

Definition with_active b (ids : option (Z * nat)) : Backend :=
  {| mem_db := mem_db b; fork_init_journaled_state := fork_init_journaled_state b;
     active_fork_ids := ids; inner := inner b |}.

Definition with_init b (j : Journal) : Backend :=
  {| mem_db := mem_db b; fork_init_journaled_state := j; active_fork_ids := active_fork_ids b;
     inner := inner b |}.

Definition with_mem_db b (d : CacheDB) : Backend :=
  {| mem_db := d; fork_init_journaled_state := fork_init_journaled_state b;
     active_fork_ids := active_fork_ids b; inner := inner b |}.

(** *** Tables *)

Definition ensure_fork_id s (id : Z) : result ForkId BackendErr :=
  match issued_local_fork_ids s !! id with
  | Some fork_id => Ok fork_id
  | None => Err (NoMatchingForkId id)
  end.

Definition ensure_fork_index s (fork_id : ForkId) : result nat BackendErr :=
  match created_forks s !! fork_id with
  | Some idx => Ok idx
  | None => Err (NoMatchingForkName fork_id)
  end.

Definition ensure_fork_index_by_local_id s (id : Z) : result nat BackendErr :=
  fork_id ←? ensure_fork_id s id; ensure_fork_index s fork_id.

(** [forks[idx].as_ref().unwrap()]. *)
Definition get_fork s (idx : nat) : outcome TheFork :=
  match forks s !! idx with Some (Some f) => Ret f | _ => Panic end.

Definition set_fork s (idx : nat) (f : TheFork) : outcome BackendInner :=
  match forks s !! idx with
  | Some _ => Ret (set_forks s (<[idx := Some f]> (forks s)))
  | None => Panic
  end.

Definition take_fork s (idx : nat) : outcome (BackendInner * TheFork) :=
  f ← get_fork s idx;
  Ret (set_forks s (<[idx := None]> (forks s)), f).

Definition next_id s : BackendInner * Z :=
  (set_next_fork_id s (next_fork_id s +w[256] 1), next_fork_id s).

Definition insert_new_fork s (fork_id : ForkId) (db : ForkDB SharedBackend) (journaled_state : Journal) :
    BackendInner * (Z * nat) :=
  let idx := length (forks s) in
  let s := set_tables s (issued_local_fork_ids s) (<[fork_id := idx]> (created_forks s)) in
  let '(s, id) := next_id s in
  let s := set_tables s (<[id := fork_id]> (issued_local_fork_ids s)) (created_forks s) in
  (set_forks s (forks s ++ [Some {| fk_db := db; fk_journal := journaled_state |}]), (id, idx)).

(** [BackendInner::revert_state_snapshot]. *)
Definition restore_fork s (id : Z) (fork_id : ForkId) (idx : nat) (f : TheFork) : outcome BackendInner :=
  set_fork (set_tables s (<[id := fork_id]> (issued_local_fork_ids s))
             (<[fork_id := idx]> (created_forks s))) idx f.

(** [BackendInner::roll_fork]: a new database with the persistent accounts of
    the old one. *)
Definition roll_inner s (id : Z) (new_fork_id : ForkId) (backend : SharedBackend) :
    outcome (BackendInner * result nat BackendErr) :=
  match ensure_fork_index_by_local_id s id with
  | Err e => Ret (s, Err e)
  | Ok idx =>
      active ← expect (forks s !! idx);
      let s :=
        match active with
        | Some f =>
            let merge cache addr := merge_db_account_data addr (fd_cache (fk_db f)) cache in
            let new_db := new_fork_db backend in
            let new_db :=
              with_cache new_db (foldl merge (fd_cache new_db) (set_iter (persistent_accounts s))) in
            set_forks s (<[idx := Some {| fk_db := new_db; fk_journal := fk_journal f |}]> (forks s))
        | None => s
        end in
      Ret (set_tables s (<[id := new_fork_id]> (issued_local_fork_ids s))
             (<[new_fork_id := idx]> (created_forks s)), Ok idx)
  end.

(** *** Accounts *)

Definition is_persistent b (a : Address) : bool := bool_decide (a ∈ persistent_accounts (inner b)).

Definition add_persistent_account b (a : Address) : Backend * bool :=
  let s := inner b in
  (with_inner b (set_accounts s ({[a]} ∪ persistent_accounts s) (cheatcode_access_accounts s)
                   (test_contract_address s) (caller_address s)), negb (is_persistent b a)).

Definition remove_persistent_account b (a : Address) : Backend * bool :=
  let s := inner b in
  (with_inner b (set_accounts s (persistent_accounts s ∖ {[a]}) (cheatcode_access_accounts s)
                   (test_contract_address s) (caller_address s)), is_persistent b a).

Definition has_cheatcode_access b (a : Address) : bool :=
  bool_decide (a ∈ cheatcode_access_accounts (inner b)).

Definition allow_cheatcode_access b (a : Address) : Backend * bool :=
  let s := inner b in
  (with_inner b (set_accounts s (persistent_accounts s) ({[a]} ∪ cheatcode_access_accounts s)
                   (test_contract_address s) (caller_address s)), negb (has_cheatcode_access b a)).

Definition revoke_cheatcode_access b (a : Address) : Backend * bool :=
  let s := inner b in
  (with_inner b (set_accounts s (persistent_accounts s) (cheatcode_access_accounts s ∖ {[a]})
                   (test_contract_address s) (caller_address s)), has_cheatcode_access b a).

Definition set_test_contract b (a : Address) : Backend :=
  let b := (allow_cheatcode_access (add_persistent_account b a).1 a).1 in
  let s := inner b in
  with_inner b (set_accounts s (persistent_accounts s) (cheatcode_access_accounts s) (Some a)
                  (caller_address s)).

Definition set_caller b (a : Address) : Backend :=
  let s := inner b in
  let b := with_inner b (set_accounts s (persistent_accounts s) (cheatcode_access_accounts s)
                           (test_contract_address s) (Some a)) in
  (allow_cheatcode_access b a).1.

(** *** Creation *)

Definition inner_default : BackendInner :=
  {| launched_with_fork := None; issued_local_fork_ids := ∅; created_forks := ∅; forks := [];
     bi_snapshots := snapshots_default; has_state_snapshot_failure := false;
     test_contract_address := None; caller_address := None; next_fork_id := 0;
     persistent_accounts := ∅; bi_spec_id := spec_default;
     cheatcode_access_accounts := {[CHEATCODE_ADDRESS; TEST_CONTRACT_ADDRESS; CALLER]} |}.

Definition launch s (l : option (ForkId * Z * nat)) : BackendInner :=
  {| launched_with_fork := l; issued_local_fork_ids := issued_local_fork_ids s;
     created_forks := created_forks s; forks := forks s; bi_snapshots := bi_snapshots s;
     has_state_snapshot_failure := has_state_snapshot_failure s;
     test_contract_address := test_contract_address s; caller_address := caller_address s;
     next_fork_id := next_fork_id s; persistent_accounts := persistent_accounts s;
     bi_spec_id := bi_spec_id s; cheatcode_access_accounts := cheatcode_access_accounts s |}.

(** What the handler replies to a request to create or roll a fork; [None] when
    it fails. *)
Definition CreateReply : Type := option (ForkId * SharedBackend * ForkEnv).

(** [Backend::new]; [empty_db] is the new cache. *)
Definition backend_new (empty_db : CacheDB) (fork : option CreateReply) : result Backend BackendErr :=
  let s := set_accounts inner_default DEFAULT_PERSISTENT_ACCOUNTS
             (cheatcode_access_accounts inner_default) None None in
  let backend :=
    {| mem_db := empty_db; fork_init_journaled_state := fresh_journal (bi_spec_id s);
       active_fork_ids := None; inner := s |} in
  match fork with
  | None => Ok backend
  | Some None => Err HandlerErr
  | Some (Some (fork_id, shared, _)) =>
      let '(s, ids) := insert_new_fork s fork_id (new_fork_db shared) (fresh_journal (bi_spec_id s)) in
      Ok (with_active (with_inner backend (launch s (Some (fork_id, ids.1, ids.2)))) (Some ids))
  end.

Definition create_fork b (reply : CreateReply) : Backend * result Z BackendErr :=
  match reply with
  | None => (b, Err HandlerErr)
  | Some (fork_id, fork, _) =>
      let '(s, (id, _)) :=
        insert_new_fork (inner b) fork_id (new_fork_db fork) (fork_init_journaled_state b) in
      (with_inner b s, Ok id)
  end.

(** *** Snapshots *)

Definition create_db_snapshot b : outcome BackendDatabaseSnapshot :=
  match active_fork_ids b with
  | Some (id, idx) =>
      fork ← get_fork (inner b) idx;
      fork_id ← expect (issued_local_fork_ids (inner b) !! id);
      Ret (Forked id fork_id idx fork)
  | None => Ret (InMemory (mem_db b))
  end.

Definition snapshot_state b (journaled_state : Journal) (env : Env) : outcome (Backend * Z) :=
  db ← create_db_snapshot b;
  let s := inner b in
  let '(t, id) := snapshots_insert (bi_snapshots s)
    {| bs_db := db; bs_journal := journaled_state; bs_env := env |} in
  Ret (with_inner b (set_snapshots s t (has_state_snapshot_failure s)), id).

Definition update_current_env_with_fork_env (current : Env) (fork : ForkEnv) : Env :=
  {| ev_fork := fork; ev_caller := ev_caller current |}.

(** Whether the slot of failed assertions is set. *)
Definition fail_slot_set (j : Journal) : bool :=
  match js_state j !! CHEATCODE_ADDRESS with
  | Some account =>
      match ac_storage account !! GLOBAL_FAIL_SLOT with
      | Some slot => negb (Z.eqb (sl_present slot) 0)
      | None => false
      end
  | None => false
  end.

(** [entry(caller).or_insert_with(..)]: the caller must be in the journal and,
    if not cached, in the database. *)
Definition ensure_caller (caller : Address) (from : Journal) (f : TheFork) : TheFork :=
  match js_state (fk_journal f) !! caller with
  | Some _ => f
  | None =>
      let caller_account := from_option ac_info info_default (js_state from !! caller) in
      {| fk_db :=
           match cd_accounts (fd_cache (fk_db f)) !! caller with
           | Some _ => fk_db f
           | None => db_insert_account_info (fk_db f) caller caller_account
           end;
         fk_journal :=
           with_state (fk_journal f)
             (<[caller := account_from caller_account]> (js_state (fk_journal f))) |}
  end.

Definition revert_state b (id : Z) (current_state : Journal) (current : Env)
    (action : RevertStateSnapshotAction) : outcome (Backend * Env * option Journal) :=
  let '(t, removed) := remove_at (bi_snapshots (inner b)) id in
  match removed with
  | None => Ret (with_inner b (set_snapshots (inner b) t (has_state_snapshot_failure (inner b))),
                 current, None)
  | Some snapshot =>
      let t := if is_keep action then (insert_at t snapshot id).1 else t in
      let failure := fail_slot_set current_state || has_state_snapshot_failure (inner b) in
      let b := with_inner b (set_snapshots (inner b) t failure) in
      let journaled_state := with_logs (bs_journal snapshot) (js_logs current_state) in
      let env := update_current_env_with_fork_env current (ev_fork (bs_env snapshot)) in
      match bs_db snapshot with
      | InMemory db => Ret (with_mem_db b db, env, Some journaled_state)
      | Forked local_id fork_id idx fork =>
          (* the journal of the snapshot takes the caller, not that of its fork *)
          let f := ensure_caller (ev_caller current) current_state
                     {| fk_db := fk_db fork; fk_journal := journaled_state |} in
          s ← restore_fork (inner b) local_id fork_id idx
                {| fk_db := fk_db f; fk_journal := fk_journal fork |};
          Ret (with_active (with_inner b s) (Some (local_id, idx)), env, Some (fk_journal f))
      end
  end.

Definition delete_state_snapshot b (id : Z) : Backend * bool :=
  let '(t, removed) := remove_at (bi_snapshots (inner b)) id in
  (with_inner b (set_snapshots (inner b) t (has_state_snapshot_failure (inner b))),
   bool_decide (is_Some removed)).

Definition delete_state_snapshots b : Backend :=
  with_inner b (set_snapshots (inner b) (snapshots_clear (bi_snapshots (inner b)))
                  (has_state_snapshot_failure (inner b))).

(** [merged_logs]: the logs of the other forks around those of the active one. *)
Definition merged_logs b (logs : list Log) : list Log :=
  match active_fork_ids b with
  | None => logs
  | Some (_, active) =>
      concat (imap (λ idx f,
        match f with
        | Some f => if Nat.eqb idx active then logs else js_logs (fk_journal f)
        | None => []
        end) (forks (inner b)))
  end.

(** *** Selecting a fork *)

Definition is_active_fork b (id : Z) : bool :=
  match active_fork_ids b with Some (i, _) => Z.eqb i id | None => false end.

(** The body of the loop of [prepare_init_journal_state] over the accounts: the
    database, and the journal or the error. *)
Definition refresh_account (st : ForkDB SharedBackend * result Journal BackendErr) (a : Address) :
    outcome (ForkDB SharedBackend * result Journal BackendErr) :=
  let '(db, r) := st in
  match r with
  | Err _ => Ret st
  | Ok j =>
      init_account ← expect (js_state j !! a);
      if ac_created init_account then Ret st
      else
        let '(db, r) := db_basic db a in
        Ret (db, match r with
                 | Err e => Err (DatabaseErr e)
                 | Ok None => Err (MissingAccount a)
                 | Ok (Some info) => Ok (with_state j (<[a := with_info init_account info]> (js_state j)))
                 end)
  end.

(** The loop over the forks: after an error the later forks stay. *)
Definition prepare_fork (init : Journal) (loaded : list Address)
    (st : list (option TheFork) * option BackendErr) (f : option TheFork) :
    outcome (list (option TheFork) * option BackendErr) :=
  let '(done_, err) := st in
  match err, f with
  | None, Some f =>
      '(db, r) ← foldM refresh_account (fk_db f, Ok init) loaded;
      match r with
      | Ok j => Ret (done_ ++ [Some {| fk_db := db; fk_journal := j |}], None)
      | Err e => Ret (done_ ++ [Some {| fk_db := db; fk_journal := fk_journal f |}], Some e)
      end
  | _, _ => Ret (done_ ++ [f], err)
  end.

Definition prepare_init_journal_state b : outcome (Backend * result unit BackendErr) :=
  let init := fork_init_journaled_state b in
  let loaded_accounts :=
    filter (λ a, is_precompile (bi_spec_id (inner b)) a = false ∧ is_persistent b a = false)
      (set_iter (dom (js_state init))) in
  '(l, err) ← foldM (prepare_fork init loaded_accounts) ([], None) (forks (inner b));
  Ret (with_inner b (set_forks (inner b) l), match err with None => Ok tt | Some e => Err e end).

(** One persistent account: the slots the target has loaded take the values of
    the active database. *)
Definition sync_slots (values : gmap Z Z) (a : Account) : Account :=
  with_storage a (map_imap (λ key slot,
    Some (match values !! key with
          | Some v => {| sl_original := sl_original slot; sl_present := v |}
          | None => slot
          end)) (ac_storage a)).

Definition sync_account (st : ForkDB SharedBackend * Journal) (addr : Address) :
    ForkDB SharedBackend * Journal :=
  let '(db, j) := st in
  let '(db, r) := db_load_account db addr in
  match r with
  | Err _ => (db, j)
  | Ok db_account =>
      match js_state j !! addr with
      | None => (db, j)
      | Some fork_account =>
          (db, with_state j (<[addr := sync_slots (da_storage db_account) fork_account]> (js_state j)))
      end
  end.

(** What the handler replies while a fork is selected: whether it is there, and
    the environment of the fork. *)
Record SelectReplies := {
  sr_update_block : bool;
  sr_active_url : bool;
  sr_target_url : bool;
  sr_env : option (option ForkEnv)
}.

(** The part that reads the tables and asks the handler. *)
Definition select_lookup b (id : Z) (r : SelectReplies) : result (nat * ForkEnv) BackendErr :=
  _ ←? match active_fork_ids b with
       | Some (active, _) =>
           _ ←? ensure_fork_id (inner b) active; err_if (negb (sr_update_block r)) ChannelErr
       | None => Ok tt
       end;
  fork_id ←? ensure_fork_id (inner b) id;
  idx ←? ensure_fork_index (inner b) fork_id;
  _ ←? match active_fork_ids b with
       | Some (active, _) =>
           _ ←? ensure_fork_id (inner b) active; err_if (negb (sr_active_url r)) ChannelErr
       | None => Ok tt
       end;
  _ ←? err_if (negb (sr_target_url r)) ChannelErr;
  match sr_env r with
  | None => Err ChannelErr
  | Some None => Err (ForkDoesNotExist id)
  | Some (Some env) => Ok (idx, env)
  end.

(** The part that records the journal of the fork that is left, or, when the
    first fork is selected, the initial journal of all forks. *)
Definition select_record b (idx : nat) (caller : Address) (active_journaled_state : Journal) :
    outcome (Backend * result unit BackendErr) :=
  match active_fork_ids b with
  | Some (_, active_idx) =>
      active ← get_fork (inner b) active_idx;
      s ← set_fork (inner b) active_idx {| fk_db := fk_db active; fk_journal := active_journaled_state |};
      target_fork ← get_fork s idx;
      match js_state active_journaled_state !! caller with
      | Some acc =>
          if Nat.eqb (js_depth (fk_journal target_fork)) 0 then
            let '(db, r) := db_basic (fk_db target_fork) caller in
            let put j := s ← set_fork s idx {| fk_db := db; fk_journal := j |}; Ret (with_inner b s) in
            match r with
            | Ok (Some fork_account) =>
                b ← put (with_state (fk_journal target_fork)
                           (<[caller := with_info acc fork_account]> (js_state (fk_journal target_fork))));
                Ret (b, Ok tt)
            | Ok None => b ← put (fk_journal target_fork); Ret (b, Err (MissingAccount caller))
            | Err e => b ← put (fk_journal target_fork); Ret (b, Err (DatabaseErr e))
            end
          else Ret (with_inner b s, Ok tt)
      | None => Ret (with_inner b s, Ok tt)
      end
  | None =>
      '(b, r) ← prepare_init_journal_state (with_init b active_journaled_state);
      match r with
      | Err e => Ret (b, Err e)
      | Ok _ => Ret (with_init b (with_depth (fork_init_journaled_state b) 0), Ok tt)
      end
  end.

(** The part that hands the state over to the fork that is selected. *)
Definition select_handover b (idx : nat) (caller : Address) (active_journaled_state : Journal) :
    outcome (Backend * Journal) :=
  '(s, fork) ← take_fork (inner b) idx;
  let accounts := set_iter (persistent_accounts s) in
  '(s, fork) ←
    match active_fork_ids b with
    | Some (_, active_idx) =>
        active ← get_fork s active_idx;
        let '(db, j) := foldl sync_account (fk_db active, fk_journal fork) accounts in
        s ← set_fork s active_idx {| fk_db := db; fk_journal := fk_journal active |};
        Ret (s, {| fk_db := fk_db fork; fk_journal := j |})
    | None => Ret (s, fork)
    end;
  let fork := {| fk_db := fk_db fork;
                 fk_journal := with_depth (fk_journal fork) (js_depth active_journaled_state) |} in
  let fork := ensure_caller caller active_journaled_state fork in
  active_db ←
    match active_fork_ids b with
    | Some (_, active_idx) => active ← get_fork s active_idx; Ret (fd_cache (fk_db active))
    | None => Ret (mem_db b)
    end;
  let '(journal, fork) := merge_account_data accounts active_db active_journaled_state fork in
  s ← set_fork s idx fork;
  Ret (with_inner b s, journal).

Definition select_fork b (id : Z) (env : Env) (active_journaled_state : Journal) (r : SelectReplies) :
    outcome (Backend * Env * Journal * result unit BackendErr) :=
  if is_active_fork b id then Ret (b, env, active_journaled_state, Ok tt)
  else
    match select_lookup b id r with
    | Err e => Ret (b, env, active_journaled_state, Err e)
    | Ok (idx, fork_env) =>
        '(b, recorded) ← select_record b idx (ev_caller env) active_journaled_state;
        match recorded with
        | Err e => Ret (b, env, active_journaled_state, Err e)
        | Ok _ =>
            '(b, journal) ← select_handover b idx (ev_caller env) active_journaled_state;
            Ret (with_active b (Some (id, idx)), update_current_env_with_fork_env env fork_env,
                 journal, Ok tt)
        end
    end.

(** *** Rolling a fork *)

Definition ensure_fork b (id : option Z) : result Z BackendErr :=
  match id with
  | Some id =>
      match issued_local_fork_ids (inner b) !! id with
      | Some _ => Ok id
      | None => Err (ForkDoesNotExist id)
      end
  | None =>
      match active_fork_ids b with
      | Some (id, _) => Ok id
      | None => Err NoForkActive
      end
  end.

(** The accounts loaded before: created and touched ones are merged, others are
    loaded again at the new block. *)
Definition reload_account (journaled_state : Journal) (st : Journal * ForkDB SharedBackend)
    (entry : Address * Account) : Journal * ForkDB SharedBackend :=
  let '(j, db) := st in
  let '(addr, acc) := entry in
  if ac_created acc then
    if ac_touched acc then (merge_journaled_state_data addr journaled_state j, db) else (j, db)
  else journal_load_account j db addr.

(** The part for the active fork. *)
Definition roll_active b (active_idx : nat) (journaled_state : Journal) : outcome (Backend * Journal) :=
  let persistent_addrs :=
    persistent_accounts (inner b) ∪ from_option (λ a, {[a]}) ∅ (caller_address (inner b)) in
  active ← get_fork (inner b) active_idx;
  let j := with_depth (fork_init_journaled_state b) (js_depth journaled_state) in
  let j := foldl (λ j addr, merge_journaled_state_data addr journaled_state j) j
             (set_iter persistent_addrs) in
  let '(j, db) := foldl (reload_account journaled_state) (j, fk_db active)
                    (map_pairs (js_state journaled_state)) in
  s ← set_fork (inner b) active_idx {| fk_db := db; fk_journal := j |};
  Ret (with_inner b s, j).

Definition roll_fork b (id : option Z) (env : Env) (journaled_state : Journal) (reply : CreateReply) :
    outcome (Backend * Env * Journal * result unit BackendErr) :=
  match (id ←? ensure_fork b id; _ ←? ensure_fork_id (inner b) id; Ok id), reply with
  | Err e, _ => Ret (b, env, journaled_state, Err e)
  | Ok _, None => Ret (b, env, journaled_state, Err HandlerErr)
  | Ok id, Some (fork_id, backend, fork_env) =>
      '(s, r) ← roll_inner (inner b) id fork_id backend;
      let b := with_inner b s in
      match r with
      | Err e => Ret (b, env, journaled_state, Err e)
      | Ok _ =>
          match active_fork_ids b with
          | Some (active_id, active_idx) =>
              if Z.eqb active_id id then
                '(b, j) ← roll_active b active_idx journaled_state;
                Ret (b, update_current_env_with_fork_env env fork_env, j, Ok tt)
              else Ret (b, env, journaled_state, Ok tt)
          | None => Ret (b, env, journaled_state, Ok tt)
          end
      end
  end.

(** *** Writes to the database in use

    [insert_account_info], [insert_account_storage], [replace_account_storage],
    [set_blockhash] and [commit] all write to the active fork or, without one, to
    the in-memory database. *)
Definition db_write b (on_fork : ForkDB SharedBackend → ForkDB SharedBackend)
    (on_mem : CacheDB → CacheDB) : outcome Backend :=
  match active_fork_ids b with
  | Some (_, idx) =>
      f ← get_fork (inner b) idx;
      s ← set_fork (inner b) idx {| fk_db := on_fork (fk_db f); fk_journal := fk_journal f |};
      Ret (with_inner b s)
  | None => Ret (with_mem_db b (on_mem (mem_db b)))
  end.
End backend.
