(* ===== verification/ForkSafety.v ===== *)
(** * The tables of the forks stay consistent

    Every operation of [ForkBackend] keeps the invariant [backend_wf]: a local
    number leads through its name to its place, where a fork is, the active fork
    and the forks of the snapshots are among them, and places are not shared.
    With it no operation panics, as long as the names the handler gives are new,
    which is what [MultiFork] promises. *)

From stdpp Require Import prelude gmap list strings.
From S2P Require Import Prelude Containers Transaction Fees Env BlockStates MemDb MultiFork ForkBackend.

Open Scope Z_scope.

Section safety.
Context {Log Rest SharedBackend DbErr : Type}.
Context {ops : RevmOps Log Rest SharedBackend DbErr} {order : HashOrder Address}.

Notation Journal := (JournaledState Log Rest).
Notation TheFork := (Fork Log Rest SharedBackend).
Notation TheBackend := (Backend (Log := Log) (Rest := Rest) (SharedBackend := SharedBackend)).
Notation TheInner := (BackendInner (Log := Log) (Rest := Rest) (SharedBackend := SharedBackend)).
Implicit Types b : TheBackend.
Implicit Types s : TheInner.

(** ** Operations *)

Inductive Op : Type :=
| OCreate (reply : CreateReply (SharedBackend := SharedBackend))
| OSelect (id : Z) (env : Env) (j : Journal) (r : SelectReplies)
| ORoll (id : option Z) (env : Env) (j : Journal) (reply : CreateReply (SharedBackend := SharedBackend))
| OSnapshot (j : Journal) (env : Env)
| ORevert (id : Z) (j : Journal) (env : Env) (action : RevertStateSnapshotAction)
| ODelete (id : Z)
| ODeleteAll
| OPersist (a : Address)
| ORelease (a : Address)
| OSetTest (a : Address)
| OSetCaller (a : Address)
| OWrite (on_fork : ForkDB SharedBackend → ForkDB SharedBackend) (on_mem : CacheDB → CacheDB).

(** The backend after an operation; its other results are left out. *)
Definition op_step b (op : Op) : outcome TheBackend :=
  match op with
  | OCreate reply => Ret (create_fork b reply).1
  | OSelect id env j r => '(b, _, _, _) ← select_fork b id env j r; Ret b
  | ORoll id env j reply => '(b, _, _, _) ← roll_fork b id env j reply; Ret b
  | OSnapshot j env => '(b, _) ← snapshot_state b j env; Ret b
  | ORevert id j env action => '(b, _, _) ← revert_state b id j env action; Ret b
  | ODelete id => Ret (delete_state_snapshot b id).1
  | ODeleteAll => Ret (delete_state_snapshots b)
  | OPersist a => Ret (add_persistent_account b a).1
  | ORelease a => Ret (remove_persistent_account b a).1
  | OSetTest a => Ret (set_test_contract b a)
  | OSetCaller a => Ret (set_caller b a)
  | OWrite on_fork on_mem => db_write b on_fork on_mem
  end.

(** The names the handler gave. *)
Definition reply_names (reply : CreateReply (SharedBackend := SharedBackend)) : list ForkId :=
  match reply with Some (id, _, _) => [id] | None => [] end.

Definition op_names (op : Op) : list ForkId :=
  match op with OCreate reply | ORoll _ _ _ reply => reply_names reply | _ => [] end.

(** ** The invariant *)

Record backend_wf (names : list ForkId) b : Prop := {
  bw_next : next_fork_id (inner b) = Z.of_nat (length (forks (inner b)));
  bw_forks : Forall is_Some (forks (inner b));
  bw_ids : ∀ id, is_Some (issued_local_fork_ids (inner b) !! id) ↔
    0 ≤ id < Z.of_nat (length (forks (inner b)));
  bw_index : ∀ id fork_id, issued_local_fork_ids (inner b) !! id = Some fork_id →
    created_forks (inner b) !! fork_id = Some (Z.to_nat id);
  bw_names : ∀ fork_id, is_Some (created_forks (inner b) !! fork_id) → fork_id ∈ names;
  bw_active : ∀ id idx, active_fork_ids b = Some (id, idx) →
    idx = Z.to_nat id ∧ is_Some (issued_local_fork_ids (inner b) !! id);
  bw_snaps : ∀ k sn id fork_id idx f, state_snapshots (bi_snapshots (inner b)) !! k = Some sn →
    bs_db sn = Forked id fork_id idx f →
    idx = Z.to_nat id ∧ is_Some (issued_local_fork_ids (inner b) !! id) ∧
    created_forks (inner b) !! fork_id = Some idx
}.

(** The tables are the same and the places still hold forks. *)
Record keeps s s' : Prop := {
  kp_issued : issued_local_fork_ids s' = issued_local_fork_ids s;
  kp_created : created_forks s' = created_forks s;
  kp_snaps : bi_snapshots s' = bi_snapshots s;
  kp_next : next_fork_id s' = next_fork_id s;
  kp_length : length (forks s') = length (forks s);
  kp_forks : Forall is_Some (forks s')
}.

Lemma wf_keeps names b b' :
  backend_wf names b → keeps (inner b) (inner b') → active_fork_ids b' = active_fork_ids b →
  backend_wf names b'.
Proof.
  intros [Hn Hf Hi Hx Hnm Ha Hs] [Ei Ec Es En El Ef] Eact.
  split; rewrite ?Ei, ?Ec, ?Es, ?En, ?El, ?Eact; done.
Qed.

(** A local number that has been issued leads to a fork. *)
Lemma issued_fork names b id fork_id :
  backend_wf names b → issued_local_fork_ids (inner b) !! id = Some fork_id →
  0 ≤ id ∧ created_forks (inner b) !! fork_id = Some (Z.to_nat id) ∧
  ∃ f, forks (inner b) !! Z.to_nat id = Some (Some f).
Proof.
  intros Hwf Hid. destruct (proj1 (bw_ids _ _ Hwf id)) as [H0 Hlt]; [by eexists|].
  split_and!; [done|by apply (bw_index _ _ Hwf)|].
  destruct (lookup_lt_is_Some_2 (forks (inner b)) (Z.to_nat id)) as [o Ho]; [lia|].
  destruct (Forall_lookup_1 _ _ _ _ (bw_forks _ _ Hwf) Ho) as [f ->]. eauto.
Qed.

Lemma active_fork names b id idx :
  backend_wf names b → active_fork_ids b = Some (id, idx) →
  idx = Z.to_nat id ∧ 0 ≤ id ∧ (∃ fork_id, issued_local_fork_ids (inner b) !! id = Some fork_id) ∧
  ∃ f, forks (inner b) !! idx = Some (Some f).
Proof.
  intros Hwf Hact. destruct (bw_active _ _ Hwf _ _ Hact) as [-> [fork_id Hid]].
  destruct (issued_fork _ _ _ _ Hwf Hid) as (H0 & _ & Hf). split_and!; eauto.
Qed.

Lemma get_fork_eq s idx f : forks s !! idx = Some (Some f) → get_fork s idx = Ret f.
Proof. unfold get_fork. by intros ->. Qed.

Lemma set_fork_eq s idx f o :
  forks s !! idx = Some o → set_fork s idx f = Ret (set_forks s (<[idx := Some f]> (forks s))).
Proof. unfold set_fork. by intros ->. Qed.

Lemma keeps_refl s : Forall is_Some (forks s) → keeps s s.
Proof. by split. Qed.

Lemma keeps_set_forks s l :
  length l = length (forks s) → Forall is_Some l → keeps s (set_forks s l).
Proof. by split. Qed.

Lemma keeps_trans s1 s2 s3 : keeps s1 s2 → keeps s2 s3 → keeps s1 s3.
Proof. intros [] []. split; congruence || done. Qed.

Lemma forks_insert idx (f : TheFork) (l : list (option TheFork)) :
  Forall is_Some l → Forall is_Some (<[idx := Some f]> l).
Proof. intros. by apply Forall_insert; [|eexists]. Qed.

(** ** Selecting, in closed form *)

(** The fork that arrives: synced journal, depth, caller, persistent accounts. *)
Definition arrived_fork (caller : Address) (js : Journal) (accounts : list Address) (cache : CacheDB)
    (f : TheFork) (j : Journal) : TheFork :=
  foldl (merge_account cache js)
    (ensure_caller caller js {| fk_db := fk_db f; fk_journal := with_depth j (js_depth js) |}) accounts.

Lemma handover_active b idx caller js aid aidx a f :
  active_fork_ids b = Some (aid, aidx) → aidx ≠ idx →
  forks (inner b) !! aidx = Some (Some a) → forks (inner b) !! idx = Some (Some f) →
  let accounts := set_iter (persistent_accounts (inner b)) in
  let synced := foldl sync_account (fk_db a, fk_journal f) accounts in
  let f' := arrived_fork caller js accounts (fd_cache synced.1) f synced.2 in
  select_handover b idx caller js =
    Ret (with_inner b (set_forks (inner b)
           (<[idx := Some f']> (<[aidx := Some {| fk_db := synced.1; fk_journal := fk_journal a |}]>
              (forks (inner b))))), fk_journal f').
Proof.
  intros Hact Hne Ha Hf accounts synced f'. unfold select_handover, take_fork.
  rewrite (get_fork_eq _ _ _ Hf), bind_Ret, bind_Ret, Hact.
  rewrite (get_fork_eq _ aidx a) by (simpl; by rewrite list_lookup_insert_ne). rewrite bind_Ret.
  change (set_iter (persistent_accounts _)) with accounts. fold synced.
  destruct synced as [db j] eqn:Hsync.
  assert (aidx < length (forks (inner b)))%nat as Hlt by by eapply lookup_lt_Some.
  erewrite set_fork_eq by (simpl; by rewrite list_lookup_insert_ne). rewrite bind_Ret, bind_Ret.
  erewrite get_fork_eq by (simpl; rewrite list_lookup_insert_eq; [done|by rewrite length_insert]).
  rewrite bind_Ret, bind_Ret. unfold merge_account_data.
  assert (idx < length (forks (inner b)))%nat as Hlt' by by eapply lookup_lt_Some.
  erewrite set_fork_eq by (simpl; rewrite list_lookup_insert_ne, list_lookup_insert_eq by done; done).
  rewrite bind_Ret. subst f'. simpl. unfold set_forks; simpl.
  rewrite (list_insert_insert_ne _ aidx idx) by done. by rewrite list_insert_insert_eq.
Qed.

Lemma handover_first b idx caller js f :
  active_fork_ids b = None → forks (inner b) !! idx = Some (Some f) →
  let f' := arrived_fork caller js (set_iter (persistent_accounts (inner b))) (mem_db b) f (fk_journal f) in
  select_handover b idx caller js =
    Ret (with_inner b (set_forks (inner b) (<[idx := Some f']> (forks (inner b)))), fk_journal f').
Proof.
  intros Hact Hf f'. unfold select_handover, take_fork.
  rewrite (get_fork_eq _ _ _ Hf), bind_Ret, bind_Ret, Hact, bind_Ret, bind_Ret.
  assert (idx < length (forks (inner b)))%nat as Hlt' by by eapply lookup_lt_Some.
  unfold merge_account_data. erewrite set_fork_eq by (simpl; by rewrite list_lookup_insert_eq).
  rewrite bind_Ret. subst f'. unfold set_forks; simpl. by rewrite list_insert_insert_eq.
Qed.

(** What recording does to the fork that is selected. *)
Definition welcome (caller : Address) (js : Journal) (f : TheFork) :
    TheFork * result unit (BackendErr (DbErr := DbErr)) :=
  match js_state js !! caller with
  | None => (f, Ok tt)
  | Some acc =>
      if Nat.eqb (js_depth (fk_journal f)) 0 then
        let '(db, r) := db_basic (fk_db f) caller in
        match r with
        | Ok (Some i) =>
            ({| fk_db := db;
                fk_journal := with_state (fk_journal f)
                                (<[caller := with_info acc i]> (js_state (fk_journal f))) |}, Ok tt)
        | Ok None => ({| fk_db := db; fk_journal := fk_journal f |}, Err (MissingAccount caller))
        | Err e => ({| fk_db := db; fk_journal := fk_journal f |}, Err (DatabaseErr e))
        end
      else (f, Ok tt)
  end.

Lemma record_active b idx caller js aid aidx a f :
  active_fork_ids b = Some (aid, aidx) → aidx ≠ idx →
  forks (inner b) !! aidx = Some (Some a) → forks (inner b) !! idx = Some (Some f) →
  select_record b idx caller js =
    Ret (with_inner b (set_forks (inner b)
           (<[idx := Some (welcome caller js f).1]>
              (<[aidx := Some {| fk_db := fk_db a; fk_journal := js |}]> (forks (inner b))))),
         (welcome caller js f).2).
Proof.
  intros Hact Hne Ha Hf. unfold select_record, welcome. rewrite Hact, (get_fork_eq _ _ _ Ha), bind_Ret.
  rewrite (set_fork_eq _ _ _ _ Ha), bind_Ret.
  rewrite (get_fork_eq _ idx f) by (simpl; by rewrite list_lookup_insert_ne). rewrite bind_Ret.
  set (l := <[aidx := _]> (forks (inner b))).
  assert (l !! idx = Some (Some f)) as Hl by (unfold l; by rewrite list_lookup_insert_ne).
  assert (with_inner b (set_forks (inner b) (<[idx := Some f]> l)) = with_inner b (set_forks (inner b) l))
    as Hsame by by rewrite list_insert_id.
  destruct (js_state js !! caller) as [acc|]; [|cbn [fst snd]; by rewrite Hsame].
  destruct (Nat.eqb _ 0); [|cbn [fst snd]; by rewrite Hsame].
  destruct (db_basic (fk_db f) caller) as [db [[i|]|e]]; by erewrite set_fork_eq by exact Hl.
Qed.

(** *** The first fork *)

Lemma refresh_total loaded db r :
  (∀ j, r = Ok j → ∀ a, a ∈ loaded → is_Some (js_state j !! a)) →
  ∃ db' r', foldM refresh_account (db, r) loaded = Ret (db', r').
Proof.
  revert db r. induction loaded as [|a loaded IH]; intros db r Hr; cbn [foldM]; [eauto|].
  destruct r as [j|e]; cbn [refresh_account]; [|rewrite bind_Ret; by apply IH].
  destruct (Hr j eq_refl a) as [acc Hacc]; [by left|]. rewrite Hacc; simpl.
  assert (∀ j', Ok (E := BackendErr (DbErr := DbErr)) j = Ok j' → ∀ a', a' ∈ loaded → is_Some (js_state j' !! a')) as Hj.
  { intros j' [= <-] a' Hin. apply (Hr j eq_refl). by right. }
  destruct (ac_created acc); [rewrite bind_Ret; by apply IH|].
  destruct (db_basic db a) as [db' [[i|]|e]]; rewrite bind_Ret; apply IH; try done.
  intros j' [= <-] a' Hin. simpl. destruct (decide (a = a')) as [->|Hne].
  - by rewrite lookup_insert_eq.
  - rewrite lookup_insert_ne by done. apply (Hr j eq_refl). by right.
Qed.

Lemma prepare_total init loaded l done_ err :
  (∀ a, a ∈ loaded → is_Some (js_state init !! a)) → Forall is_Some l → Forall is_Some done_ →
  ∃ l' err', foldM (prepare_fork init loaded) (done_, err) l = Ret (l', err') ∧
    length l' = (length done_ + length l)%nat ∧ Forall is_Some l'.
Proof.
  intros Hload Hl. revert done_ err. induction Hl as [|o l [f ->] _ IH]; intros done_ err Hd; cbn [foldM].
  { exists done_, err. by rewrite Nat.add_0_r. }
  assert (∀ f' e, ∃ l' err', foldM (prepare_fork init loaded) (done_ ++ [Some f'], e) l = Ret (l', err') ∧
    length l' = (length done_ + S (length l))%nat ∧ Forall is_Some l') as Hgo.
  { intros f' e. destruct (IH (done_ ++ [Some f']) e) as (l' & err' & Hrun & Hlen & Hall).
    - apply Forall_app. split; [done|]. by repeat constructor; eexists.
    - exists l', err'. split_and!; [done| |done]. rewrite Hlen, length_app; simpl. lia. }
  unfold prepare_fork at 2. destruct err as [e|]; [rewrite bind_Ret; by apply Hgo|].
  destruct (refresh_total loaded (fk_db f) (Ok init)) as (db & r & ->).
  { by intros j [= <-]. }
  rewrite bind_Ret. destruct r; rewrite bind_Ret; apply Hgo.
Qed.

Lemma prepare_keeps b :
  Forall is_Some (forks (inner b)) →
  ∃ b' r, prepare_init_journal_state b = Ret (b', r) ∧ keeps (inner b) (inner b') ∧
    active_fork_ids b' = active_fork_ids b.
Proof.
  intros Hall. unfold prepare_init_journal_state. set (loaded := filter _ _).
  destruct (prepare_total (fork_init_journaled_state b) loaded (forks (inner b)) [] None)
    as (l & err & -> & Hlen & Hl); [|done|done|].
  { intros a [_ Ha]%list_elem_of_filter. by apply set_iter_elem_of, elem_of_dom in Ha. }
  rewrite bind_Ret. do 2 eexists. split; [done|]. split; [by apply keeps_set_forks|done].
Qed.

(** ** Preservation *)

(** A name that was never given changes no entry of the tables. *)
Lemma fresh_created names b name :
  backend_wf names b → name ∉ names → created_forks (inner b) !! name = None.
Proof.
  intros Hwf Hn. destruct (created_forks (inner b) !! name) eqn:E; [|done].
  exfalso. apply Hn, (bw_names _ _ Hwf). by eexists.
Qed.

Lemma fresh_lookup names b name fork_id idx x :
  backend_wf names b → name ∉ names → created_forks (inner b) !! fork_id = Some idx →
  <[name := x]> (created_forks (inner b)) !! fork_id = Some idx.
Proof.
  intros Hwf Hn Hc. rewrite lookup_insert_ne; [done|]. intros ->.
  by rewrite (fresh_created _ _ _ Hwf Hn) in Hc.
Qed.

Lemma wf_names_app names names' b : backend_wf names b → backend_wf (names ++ names') b.
Proof. intros []. split; try done. intros fork_id Hc. apply elem_of_app. left. eauto. Qed.

Lemma insert_new_fork_wf names b name db j :
  backend_wf names b → name ∉ names → Z.of_nat (S (length (forks (inner b)))) < 2 ^ 256 →
  backend_wf (names ++ [name]) (with_inner b (insert_new_fork (inner b) name db j).1).
Proof.
  intros Hwf Hn Hlen. pose proof Hwf as [Hnx Hf Hi Hx Hnm Ha Hs].
  unfold insert_new_fork; simpl. rewrite Hnx.
  set (n := length (forks (inner b))) in *.
  split; simpl.
  - rewrite length_app; simpl. rewrite wrap_small; [lia|]. unfold is_u, umax. lia.
  - apply Forall_app. split; [done|]. by repeat constructor; eexists.
  - intros id. rewrite length_app, lookup_insert_is_Some', Hi; simpl. fold n. lia.
  - intros id fork_id [[<- <-]|[Hne Hid]]%lookup_insert_Some.
    + by rewrite lookup_insert_eq, Nat2Z.id.
    + eapply fresh_lookup; [done..|by apply Hx].
  - intros fork_id [<-|[_ Hc]]%lookup_insert_is_Some; apply elem_of_app; [right; by left|left; auto].
  - intros id idx Hact. destruct (Ha _ _ Hact) as [-> Hid]. split; [done|].
    apply lookup_insert_is_Some'. by right.
  - intros k sn id fork_id idx f Hk Hdb. destruct (Hs _ _ _ _ _ _ Hk Hdb) as (-> & Hid & Hc).
    split_and!; [done|apply lookup_insert_is_Some'; by right|by eapply fresh_lookup].
Qed.

(** Mapping an issued number to a new name keeps its place. *)
Lemma remap_wf names b s' id name :
  backend_wf names b → name ∉ names → is_Some (issued_local_fork_ids (inner b) !! id) →
  keeps (inner b) s' →
  backend_wf (names ++ [name])
    (with_inner b (set_tables s' (<[id := name]> (issued_local_fork_ids s'))
                     (<[name := Z.to_nat id]> (created_forks s')))).
Proof.
  intros Hwf Hn Hid [Ei Ec Es En El Ef]. pose proof Hwf as [Hnx Hf Hi Hx Hnm Ha Hs].
  split; simpl; rewrite ?Ei, ?Ec, ?Es, ?En, ?El; try done.
  - intros id'. rewrite lookup_insert_is_Some', Hi. apply Hi in Hid. split; [intros [<-|?]; done|by right].
  - intros id' fork_id [[<- <-]|[Hne Hid']]%lookup_insert_Some.
    + by rewrite lookup_insert_eq.
    + eapply fresh_lookup; [done..|by apply Hx].
  - intros fork_id [<-|[_ Hc]]%lookup_insert_is_Some; apply elem_of_app; [right; by left|left; auto].
  - intros id' idx Hact. destruct (Ha _ _ Hact) as [-> Hid']. split; [done|].
    apply lookup_insert_is_Some'. by right.
  - intros k sn id' fork_id idx f Hk Hdb. destruct (Hs _ _ _ _ _ _ Hk Hdb) as (-> & Hid' & Hc).
    split_and!; [done|apply lookup_insert_is_Some'; by right|by eapply fresh_lookup].
Qed.

(** Making a fork active again, under the name it had. *)
Lemma restore_wf names b id fork_id idx f :
  backend_wf names b → idx = Z.to_nat id → is_Some (issued_local_fork_ids (inner b) !! id) →
  created_forks (inner b) !! fork_id = Some idx →
  ∃ s, restore_fork (inner b) id fork_id idx f = Ret s ∧
    backend_wf names (with_active (with_inner b s) (Some (id, idx))) ∧
    length (forks s) = length (forks (inner b)) ∧
    s = set_forks (set_tables (inner b) (<[id := fork_id]> (issued_local_fork_ids (inner b)))
                     (created_forks (inner b))) (<[idx := Some f]> (forks (inner b))).
Proof.
  intros Hwf -> [old Hid] Hc. pose proof Hwf as [Hnx Hf Hi Hx Hnm Ha Hs].
  destruct (issued_fork _ _ _ _ Hwf Hid) as (H0 & _ & f0 & Hf0).
  unfold restore_fork. erewrite set_fork_eq by exact Hf0. simpl.
  rewrite (insert_id (created_forks (inner b)) fork_id) by done.
  eexists. split; [done|]. split; [|split; [by simpl; rewrite length_insert|done]].
  split; simpl; rewrite ?length_insert; try done.
  - by apply forks_insert.
  - intros id'. rewrite lookup_insert_is_Some', Hi. split; [|by right].
    intros [<-|?]; [apply Hi; by eexists|done].
  - intros id' fork_id' [[<- <-]|[Hne Hid']]%lookup_insert_Some; [done|by apply Hx].
  - intros id' idx [= <- <-]. split; [done|]. apply lookup_insert_is_Some'. by left.
  - intros k sn id' fork_id' idx f' Hk Hdb. destruct (Hs _ _ _ _ _ _ Hk Hdb) as (-> & Hid' & Hc').
    split_and!; [done|apply lookup_insert_is_Some'; by right|done].
Qed.

(** Changing what is snapshotted, and nothing else. *)
Lemma snapshots_wf_step names b t failure :
  backend_wf names b →
  (∀ k sn, state_snapshots t !! k = Some sn →
    state_snapshots (bi_snapshots (inner b)) !! k = Some sn ∨
    ∀ id fork_id idx f, bs_db sn = Forked id fork_id idx f →
      idx = Z.to_nat id ∧ is_Some (issued_local_fork_ids (inner b) !! id) ∧
      created_forks (inner b) !! fork_id = Some idx) →
  backend_wf names (with_inner b (set_snapshots (inner b) t failure)).
Proof.
  intros [Hnx Hf Hi Hx Hnm Ha Hs] Ht. split; simpl; try done.
  intros k sn id fork_id idx f Hk Hdb. destruct (Ht _ _ Hk) as [Hk'|Hsn]; [by eapply Hs|by eapply Hsn].
Qed.

(** What the lookup of [select_fork] finds. *)
Lemma select_lookup_ok names b id r idx env :
  backend_wf names b → select_lookup (DbErr := DbErr) b id r = Ok (idx, env) →
  idx = Z.to_nat id ∧ 0 ≤ id ∧ is_Some (issued_local_fork_ids (inner b) !! id) ∧
  (∃ f, forks (inner b) !! idx = Some (Some f)) ∧ sr_env r = Some (Some env).
Proof.
  intros Hwf. unfold select_lookup, ensure_fork_id, ensure_fork_index.
  intros ([] & _ & Hl)%and_then_Ok. apply and_then_Ok in Hl as (fork_id & Hid & Hl).
  destruct (issued_local_fork_ids (inner b) !! id) as [fork_id'|] eqn:E; [|done]. injection Hid as <-.
  destruct (issued_fork _ _ _ _ Hwf E) as (H0 & Hc & Hf). rewrite Hc in Hl; simpl in Hl.
  apply and_then_Ok in Hl as ([] & _ & Hl). apply and_then_Ok in Hl as ([] & _ & Hl).
  destruct (sr_env r) as [[e|]|]; try done. injection Hl as <- <-. split_and!; eauto.
Qed.

Lemma keeps_two_forks s i1 i2 (f1 f2 : TheFork) :
  Forall is_Some (forks s) → keeps s (set_forks s (<[i1 := Some f1]> (<[i2 := Some f2]> (forks s)))).
Proof. intros. apply keeps_set_forks; [by rewrite !length_insert|by do 2 apply forks_insert]. Qed.

(** Two issued numbers have the same place only when they are the same. *)
Lemma other_place b id aid aidx :
  is_active_fork b id = false → active_fork_ids b = Some (aid, aidx) → aidx = Z.to_nat aid →
  0 ≤ aid → 0 ≤ id → aidx ≠ Z.to_nat id.
Proof.
  unfold is_active_fork. intros Hna Hact -> ??. rewrite Hact in Hna. apply Z.eqb_neq in Hna. lia.
Qed.

Lemma select_record_keeps names b idx id caller js :
  backend_wf names b → is_active_fork b id = false → idx = Z.to_nat id → 0 ≤ id →
  (∃ f, forks (inner b) !! idx = Some (Some f)) →
  ∃ b' r, select_record b idx caller js = Ret (b', r) ∧ keeps (inner b) (inner b') ∧
    active_fork_ids b' = active_fork_ids b.
Proof.
  intros Hwf Hna -> H0 [f Hf]. destruct (active_fork_ids b) as [[aid aidx]|] eqn:Hact.
  - destruct (active_fork _ _ _ _ Hwf Hact) as (Hidx & Ha0 & _ & a & Ha).
    pose proof (other_place _ _ _ _ Hna Hact Hidx Ha0 H0) as Hne.
    rewrite (record_active _ _ _ _ _ _ _ _ Hact Hne Ha Hf). do 2 eexists. split; [done|].
    split; [|done]. apply keeps_two_forks, (bw_forks _ _ Hwf).
  - unfold select_record. rewrite Hact.
    destruct (prepare_keeps (with_init b js)) as (b1 & r & -> & Hk & Hact1); [apply (bw_forks _ _ Hwf)|].
    rewrite bind_Ret. simpl in Hk, Hact1. rewrite Hact in Hact1.
    destruct r; do 2 eexists; (split; [done|]); by split.
Qed.

Lemma select_handover_keeps names b idx id caller js :
  backend_wf names b → is_active_fork b id = false → idx = Z.to_nat id → 0 ≤ id →
  (∃ f, forks (inner b) !! idx = Some (Some f)) →
  ∃ b' j, select_handover b idx caller js = Ret (b', j) ∧ keeps (inner b) (inner b') ∧
    active_fork_ids b' = active_fork_ids b.
Proof.
  intros Hwf Hna -> H0 [f Hf]. destruct (active_fork_ids b) as [[aid aidx]|] eqn:Hact.
  - destruct (active_fork _ _ _ _ Hwf Hact) as (Hidx & Ha0 & _ & a & Ha).
    pose proof (other_place _ _ _ _ Hna Hact Hidx Ha0 H0) as Hne.
    rewrite (handover_active _ _ _ _ _ _ _ _ Hact Hne Ha Hf). do 2 eexists. split; [done|].
    split; [|done]. apply keeps_two_forks, (bw_forks _ _ Hwf).
  - rewrite (handover_first _ _ _ _ _ Hact Hf). do 2 eexists. split; [done|]. split; [|done].
    apply keeps_set_forks; [by rewrite length_insert|]. apply forks_insert, (bw_forks _ _ Hwf).
Qed.

Lemma wf_activate names b id idx :
  backend_wf names b → idx = Z.to_nat id → is_Some (issued_local_fork_ids (inner b) !! id) →
  backend_wf names (with_active b (Some (id, idx))).
Proof. intros [] -> Hid. split; try done. by intros ?? [= <- <-]. Qed.

Lemma select_fork_wf names b id env js r :
  backend_wf names b →
  ∃ b' env' js' res, select_fork b id env js r = Ret (b', env', js', res) ∧ backend_wf names b' ∧
    length (forks (inner b')) = length (forks (inner b)).
Proof.
  intros Hwf. unfold select_fork. destruct (is_active_fork b id) eqn:Hna; [by eauto 10|].
  destruct (select_lookup (DbErr := DbErr) b id r) as [[idx fork_env]|e] eqn:Hl; [|by eauto 10].
  destruct (select_lookup_ok _ _ _ _ _ _ Hwf Hl) as (Hidx & H0 & Hid & Hf & _).
  destruct (select_record_keeps _ _ _ _ (ev_caller env) js Hwf Hna Hidx H0 Hf)
    as (b1 & r1 & -> & Hk1 & Hact1). rewrite bind_Ret.
  pose proof (wf_keeps _ _ _ Hwf Hk1 Hact1) as Hwf1.
  destruct r1 as [[]|e]; [|do 4 eexists; split_and!; [done|done|apply Hk1]].
  assert (∃ f, forks (inner b1) !! idx = Some (Some f)) as Hf1.
  { rewrite <- (kp_issued _ _ Hk1) in Hid. destruct Hid as [fork_id Hid].
    rewrite Hidx. by apply (issued_fork _ _ _ _ Hwf1 Hid). }
  assert (is_active_fork b1 id = false) as Hna1 by (unfold is_active_fork in *; by rewrite Hact1).
  destruct (select_handover_keeps _ _ _ _ (ev_caller env) js Hwf1 Hna1 Hidx H0 Hf1)
    as (b2 & j & -> & Hk2 & Hact2). rewrite bind_Ret.
  do 4 eexists. split; [done|]. split.
  - apply wf_activate; [by eapply wf_keeps|done|].
    by rewrite (kp_issued _ _ Hk2), (kp_issued _ _ Hk1).
  - simpl. by rewrite (kp_length _ _ Hk2), (kp_length _ _ Hk1).
Qed.

Lemma roll_active_keeps names b id idx js :
  backend_wf names b → active_fork_ids b = Some (id, idx) →
  ∃ b' j, roll_active b idx js = Ret (b', j) ∧ keeps (inner b) (inner b') ∧
    active_fork_ids b' = active_fork_ids b.
Proof.
  intros Hwf Hact. destruct (active_fork _ _ _ _ Hwf Hact) as (_ & _ & _ & f & Hf).
  unfold roll_active. rewrite (get_fork_eq _ _ _ Hf), bind_Ret.
  destruct (foldl (reload_account js) _ _) as [j db]. rewrite (set_fork_eq _ _ _ _ Hf), bind_Ret.
  do 2 eexists. split; [done|]. split; [|done].
  apply keeps_set_forks; [by rewrite length_insert|]. apply forks_insert, (bw_forks _ _ Hwf).
Qed.

(** Rolling the inner tables, for a number that has been issued. *)
Lemma roll_inner_wf names b id name shared :
  backend_wf names b → name ∉ names → is_Some (issued_local_fork_ids (inner b) !! id) →
  ∃ s', roll_inner (DbErr := DbErr) (inner b) id name shared = Ret (s', Ok (Z.to_nat id)) ∧
    backend_wf (names ++ [name]) (with_inner b s') ∧ length (forks s') = length (forks (inner b)).
Proof.
  intros Hwf Hn [old Hid]. destruct (issued_fork _ _ _ _ Hwf Hid) as (H0 & Hc & f & Hf).
  unfold roll_inner, ensure_fork_index_by_local_id, ensure_fork_id, ensure_fork_index.
  rewrite Hid; simpl. rewrite Hc; simpl. rewrite Hf; simpl.
  eexists. split; [done|]. split; [|by simpl; rewrite length_insert].
  set (s1 := set_forks (inner b) _).
  apply (remap_wf names b s1 id name); [done|done|by eexists|].
  apply keeps_set_forks; [by rewrite length_insert|]. apply forks_insert, (bw_forks _ _ Hwf).
Qed.

Lemma roll_fork_wf names b id env js reply :
  backend_wf names b → (∀ name, name ∈ reply_names reply → name ∉ names) →
  ∃ b' env' js' res, roll_fork b id env js reply = Ret (b', env', js', res) ∧
    backend_wf (names ++ reply_names reply) b' ∧
    length (forks (inner b')) = length (forks (inner b)).
Proof.
  intros Hwf Hfresh. unfold roll_fork.
  pose proof (wf_names_app names (reply_names reply) _ Hwf) as Hwf0.
  destruct (and_then _ _) as [id1|e] eqn:Hid; [|by eauto 10].
  destruct reply as [[[name shared] env1]|]; [|by eauto 10].
  apply and_then_Ok in Hid as (id2 & _ & Hid). apply and_then_Ok in Hid as (fork_id & Hid & [= ->]).
  unfold ensure_fork_id in Hid.
  destruct (issued_local_fork_ids (inner b) !! id1) as [old|] eqn:Eold; [|done].
  destruct (roll_inner_wf names b id1 name shared) as (s' & -> & Hwf1 & Hlen);
    [done|apply Hfresh; by left|by eexists|]. rewrite bind_Ret.
  destruct (active_fork_ids (with_inner b s')) as [[aid aidx]|] eqn:Hact; [|by eauto 10].
  destruct (Z.eqb aid id1); [|by eauto 10].
  destruct (roll_active_keeps _ _ _ _ js Hwf1 Hact) as (b2 & j & -> & Hk & Hact2). rewrite bind_Ret.
  do 4 eexists. split; [done|]. split; [by eapply wf_keeps|].
  by rewrite (kp_length _ _ Hk).
Qed.

Lemma snapshot_state_wf names b js env :
  backend_wf names b →
  ∃ b' k, snapshot_state b js env = Ret (b', k) ∧ backend_wf names b' ∧
    length (forks (inner b')) = length (forks (inner b)).
Proof.
  intros Hwf. unfold snapshot_state, create_db_snapshot.
  destruct (active_fork_ids b) as [[id idx]|] eqn:Hact.
  - destruct (active_fork _ _ _ _ Hwf Hact) as (Hidx & H0 & (fork_id & Hid) & f & Hf).
    rewrite (get_fork_eq _ _ _ Hf), bind_Ret, Hid; simpl.
    do 2 eexists. split; [done|]. split; [|done]. apply snapshots_wf_step; [done|].
    intros k sn Hk; simpl in Hk. apply lookup_insert_Some in Hk as [[<- <-]|[_ Hk]]; [right|by left]. simpl.
    intros ???? [= <- <- <- <-]. split_and!; [done|by eexists|].
    rewrite Hidx. by apply (bw_index _ _ Hwf).
  - rewrite bind_Ret. do 2 eexists. split; [done|]. split; [|done]. apply snapshots_wf_step; [done|].
    intros k sn Hk; simpl in Hk. by apply lookup_insert_Some in Hk as [[<- <-]|[_ Hk]]; [right|left].
Qed.

Lemma revert_state_wf names b id js env action :
  backend_wf names b →
  ∃ b' env' js', revert_state b id js env action = Ret (b', env', js') ∧ backend_wf names b' ∧
    length (forks (inner b')) = length (forks (inner b)).
Proof.
  intros Hwf. unfold revert_state, remove_at; simpl.
  destruct (state_snapshots (bi_snapshots (inner b)) !! id) as [sn|] eqn:Hsn.
  - set (t := if is_keep action then _ else _). set (failure := orb _ _).
    assert (backend_wf names (with_inner b (set_snapshots (inner b) t failure))) as Hwf1.
    { apply snapshots_wf_step; [done|]. intros k sn' Hk. left. unfold t in Hk.
      destruct (is_keep action); simpl in Hk.
      - apply lookup_insert_Some in Hk as [[<- <-]|[_ Hk]]; [done|].
        by apply lookup_delete_Some in Hk as [_ Hk].
      - by apply lookup_delete_Some in Hk as [_ Hk]. }
    destruct (bs_db sn) as [db|lid fork_id idx f] eqn:Hdb.
    + do 3 eexists. split; [done|]. split; [|done]. by destruct Hwf1; split.
    + destruct (bw_snaps _ _ Hwf _ _ _ _ _ _ Hsn Hdb) as (Hidx & Hid & Hc).
      match goal with |- context [restore_fork _ _ _ _ ?f] =>
        destruct (restore_wf names _ lid fork_id idx f Hwf1 Hidx Hid Hc) as (s & Hrs & Hwf2 & Hlen & _) end.
      cbn [inner with_inner] in Hrs. rewrite Hrs, bind_Ret. by do 3 eexists.
  - do 3 eexists. split; [done|]. split; [|done]. apply snapshots_wf_step; [done|].
    intros k sn Hk. left. simpl in Hk. by apply lookup_delete_Some in Hk as [_ Hk].
Qed.

(** No operation panics, and each keeps the tables consistent. *)
Lemma step_wf names b op :
  backend_wf names b → (∀ name, name ∈ op_names op → name ∉ names) →
  Z.of_nat (S (length (forks (inner b)))) < 2 ^ 256 →
  ∃ b', op_step b op = Ret b' ∧ backend_wf (names ++ op_names op) b' ∧
    (length (forks (inner b)) ≤ length (forks (inner b')) ≤ S (length (forks (inner b))))%nat.
Proof.
  intros Hwf Hfresh Hlen.
  assert (∀ b', backend_wf names b' → length (forks (inner b')) = length (forks (inner b)) →
    ∃ b'', Ret b' = Ret b'' ∧ backend_wf (names ++ []) b'' ∧
      (length (forks (inner b)) ≤ length (forks (inner b'')) ≤ S (length (forks (inner b))))%nat) as Hquiet.
  { intros b' Hb' Hl. exists b'. rewrite app_nil_r. split_and!; [done|done|lia..]. }
  destruct op as [reply|id env j r|id env j reply|j env|id j env action|id| |a|a|a|a|g gm];
    cbn [op_step op_names] in *.
  - eexists. split; [done|]. destruct reply as [[[name shared] env]|]; simpl in *.
    + split; [|rewrite length_app; simpl; lia].
      apply insert_new_fork_wf; [done|apply Hfresh; by left|done].
    + rewrite app_nil_r. split; [done|lia].
  - destruct (select_fork_wf names b id env j r Hwf) as (b' & env' & js' & res & -> & Hb' & Hl).
    rewrite bind_Ret. by apply Hquiet.
  - destruct (roll_fork_wf names b id env j reply Hwf Hfresh) as (b' & env' & js' & res & -> & Hb' & Hl).
    rewrite bind_Ret. exists b'. split_and!; [done|done|lia..].
  - destruct (snapshot_state_wf names b j env Hwf) as (b' & k & -> & Hb' & Hl).
    rewrite bind_Ret. by apply Hquiet.
  - destruct (revert_state_wf names b id j env action Hwf) as (b' & env' & js' & -> & Hb' & Hl).
    rewrite bind_Ret. by apply Hquiet.
  - apply Hquiet; [|done]. apply snapshots_wf_step; [done|].
    intros k sn Hk. left. simpl in Hk. by apply lookup_delete_Some in Hk as [_ Hk].
  - apply Hquiet; [|done]. by apply snapshots_wf_step.
  - apply Hquiet; [|done]. by destruct Hwf; split.
  - apply Hquiet; [|done]. by destruct Hwf; split.
  - apply Hquiet; [|done]. by destruct Hwf; split.
  - apply Hquiet; [|done]. by destruct Hwf; split.
  - unfold db_write. destruct (active_fork_ids b) as [[id idx]|] eqn:Hact.
    + destruct (active_fork _ _ _ _ Hwf Hact) as (_ & _ & _ & f & Hf).
      rewrite (get_fork_eq _ _ _ Hf), bind_Ret, (set_fork_eq _ _ _ _ Hf), bind_Ret.
      apply Hquiet; [|by simpl; rewrite length_insert].
      eapply wf_keeps; [done| |done].
      apply keeps_set_forks; [by rewrite length_insert|]. apply forks_insert, (bw_forks _ _ Hwf).
    + apply Hquiet; [|done]. by destruct Hwf; split.
Qed.

(** ** Runs *)

Definition op_run b (os : list Op) : outcome TheBackend := foldM op_step b os.

Lemma run_wf names b os :
  backend_wf names b → NoDup (names ++ (os ≫= op_names)) →
  Z.of_nat (length (forks (inner b)) + length os) < 2 ^ 256 →
  ∃ b', op_run b os = Ret b' ∧ backend_wf (names ++ (os ≫= op_names)) b' ∧
    (length (forks (inner b)) ≤ length (forks (inner b')) ≤ length (forks (inner b)) + length os)%nat.
Proof.
  unfold op_run. revert names b. induction os as [|op os IH]; intros names b Hwf Hnd Hlen.
  { exists b. simpl. rewrite app_nil_r. split_and!; [done|done|lia..]. }
  rewrite bind_cons, app_assoc in Hnd. rewrite bind_cons, app_assoc. cbn [foldM length] in *.
  destruct (step_wf names b op Hwf) as (b1 & -> & Hwf1 & Hl1); [|lia|].
  { intros name Hin Hin'. apply NoDup_app in Hnd as (Hnd & _). apply NoDup_app in Hnd as (_ & Hdis & _).
    by eapply Hdis. }
  rewrite bind_Ret. destruct (IH _ _ Hwf1 Hnd) as (b' & Hrun & Hb' & Hl); [lia|].
  exists b'. split_and!; [done|done|lia..].
Qed.

(** The names a backend starts with. *)
Definition start_names (fork : option (CreateReply (SharedBackend := SharedBackend))) : list ForkId :=
  from_option reply_names [] fork.

(** The fork a backend is launched with. *)
Lemma launch_wf b name db j :
  backend_wf [] b → forks (inner b) = [] →
  let '(s, ids) := insert_new_fork (inner b) name db j in
  backend_wf [name] (with_active (with_inner b (launch s (Some (name, ids.1, ids.2)))) (Some ids)) ∧
  length (forks s) = 1%nat.
Proof.
  intros Hwf Hf.
  assert (backend_wf [name] (with_inner b (insert_new_fork (inner b) name db j).1)) as H1.
  { apply (insert_new_fork_wf [] b); [done|apply not_elem_of_nil|by rewrite Hf]. }
  pose proof (bw_next _ _ Hwf) as Hnext. rewrite Hf in Hnext.
  unfold insert_new_fork in *; simpl in *. split; [|by rewrite Hf].
  apply (wf_activate _ _ (next_fork_id (inner b)) (length (forks (inner b)))) in H1.
  - by destruct H1; split.
  - by rewrite Hf, Hnext.
  - eexists. simpl. apply lookup_insert_eq.
Qed.

Lemma new_wf empty_db fork b :
  backend_new empty_db fork = Ok (E := BackendErr (DbErr := DbErr)) b →
  backend_wf (start_names fork) b ∧ (length (forks (inner b)) ≤ 1)%nat.
Proof.
  unfold backend_new. set (s0 := set_accounts _ _ _ _ _). set (b0 := Build_Backend _ _ _ _).
  assert (backend_wf [] b0) as Hwf.
  { split; simpl; try done.
    - intros id. split; [by intros [? Hid]|lia].
    - by intros fork_id [? Hid]. }
  assert (forks (inner b0) = []) as Hf by done.
  change s0 with (inner b0). clearbody b0. clear s0.
  destruct fork as [[[[name shared] env]|]|]; [|done|].
  - pose proof (launch_wf b0 name (new_fork_db shared) (fresh_journal (bi_spec_id (inner b0))) Hwf Hf) as Hl.
    destruct (insert_new_fork _ _ _ _) as [s ids]. destruct Hl as [H1 H2].
    intros [= <-]. split; [done|simpl; lia].
  - intros [= <-]. split; [done|]. rewrite Hf; simpl; lia.
Qed.
End safety.

(** C8: the tables of a backend stay consistent and no operation panics.  A
    backend is created, with or without a fork, and then forks are created,
    selected and rolled, snapshots are taken, reverted and deleted, accounts are
    made persistent and databases written, in any order and with any arguments;
    the names that come back are among those a run of the handler handed out,
    each used once.  Then the run returns a backend in which every issued number
    leads to a name and through it to its own place, where a fork is; different
    numbers have different names; the next number is new; and the active fork and
    the fork of each snapshot are among the issued ones, at their own place. *)
Theorem fork_tables_consistent {Log Rest SharedBackend DbErr FetchError : Type}
    {ops : RevmOps Log Rest SharedBackend DbErr} {order : HashOrder Address}
    (inputs : list (PollInput SharedBackend FetchError)) h out
    (empty_db : CacheDB) fork (b : Backend) (os : list Op) :
  Forall live (arrived inputs) → Z.of_nat (length (arrived inputs)) + 2 < 2 ^ 64 →
  polls handler_new inputs = Ret (h, out) →
  backend_new empty_db fork = Ok (E := BackendErr (DbErr := DbErr)) b →
  start_names fork ++ (os ≫= op_names) ⊆+ issued out →
  Z.of_nat (length os) < 2 ^ 64 →
  ∃ b', op_run b os = Ret b' ∧
    let s := inner b' in
    (∀ id fork_id, issued_local_fork_ids s !! id = Some fork_id →
      0 ≤ id < next_fork_id s ∧ created_forks s !! fork_id = Some (Z.to_nat id) ∧
      ∃ f, forks s !! Z.to_nat id = Some (Some f)) ∧
    (∀ id1 id2 fork_id, issued_local_fork_ids s !! id1 = Some fork_id →
      issued_local_fork_ids s !! id2 = Some fork_id → id1 = id2) ∧
    (∀ id idx, active_fork_ids b' = Some (id, idx) →
      idx = Z.to_nat id ∧ is_Some (issued_local_fork_ids s !! id)) ∧
    (∀ k sn id fork_id idx f, state_snapshots (bi_snapshots s) !! k = Some sn →
      bs_db sn = Forked id fork_id idx f →
      idx = Z.to_nat id ∧ is_Some (issued_local_fork_ids s !! id) ∧ created_forks s !! fork_id = Some idx).
Proof.
  intros Hlive Hlen Hrun Hnew Hsub Hos.
  pose proof (polls_issued _ _ _ Hlive Hlen Hrun) as Hnd.
  destruct (new_wf empty_db fork b Hnew) as [Hwf Hl].
  destruct (run_wf (start_names fork) b os Hwf) as (b' & Hb' & Hwf' & _); [|lia|].
  { apply submseteq_Permutation in Hsub as [k Hk]. rewrite Hk in Hnd. by apply NoDup_app in Hnd as [? _]. }
  exists b'. split; [done|]. cbn zeta. split_and!; [| |apply Hwf'|apply Hwf'].
  - intros id fork_id Hid. destruct (issued_fork _ _ _ _ Hwf' Hid) as (H0 & Hc & Hf).
    split_and!; [done| |done|done]. rewrite (bw_next _ _ Hwf'). apply (bw_ids _ _ Hwf'). by eexists.
  - intros id1 id2 fork_id H1 H2.
    destruct (issued_fork _ _ _ _ Hwf' H1) as (? & Hc1 & _), (issued_fork _ _ _ _ Hwf' H2) as (? & Hc2 & _).
    rewrite Hc1 in Hc2. injection Hc2. lia.
Qed.

(** *** A concrete backend *)

Definition ex_info : DbInfo := {| in_balance := 0; in_nonce := 0; in_code_hash := 0; in_code := None |}.

Definition ex_cache : CacheDB := {| cd_accounts := ∅; cd_contracts := ∅; cd_block_hashes := ∅ |}.

(** Accounts are all empty; nothing fails. *)
#[export] Instance ex_revm : RevmOps nat unit nat unit := {|
  db_basic db a := (db, Ok (Some ex_info));
  db_load_account db a :=
    (db, Ok (default {| da_info := ex_info; da_state := AccNone; da_storage := ∅ |}
               (cd_accounts (fd_cache db) !! a)));
  db_insert_account_info db a i :=
    with_cache db (with_accounts (fd_cache db)
      (<[a := {| da_info := i; da_state := AccNone; da_storage := ∅ |}]> (cd_accounts (fd_cache db))));
  journal_load_account j db a := (j, db);
  new_fork_db b := {| fd_cache := ex_cache; fd_db := b |};
  account_from i := {| ac_info := i; ac_storage := ∅; ac_created := false; ac_touched := false |};
  info_default := ex_info;
  spec_default := 0;
  is_precompile _ _ := false;
  fresh_journal _ := {| js_state := ∅; js_logs := []; js_depth := 0; js_rest := tt |}
|}.

Definition ex_journal (d : nat) (m : gmap Address Account) : JournaledState nat unit :=
  {| js_state := m; js_logs := []; js_depth := d; js_rest := tt |}.

Definition ex_penv : Env := {| ev_fork := ex_env 0; ev_caller := 5 |}.

Definition ex_replies : SelectReplies :=
  {| sr_update_block := true; sr_active_url := true; sr_target_url := true; sr_env := Some (Some (ex_env 1)) |}.

Definition ex_ops : list (Op (Log := nat) (Rest := unit) (SharedBackend := nat)) :=
  [OCreate (Some ("rpc@0x10", 7%nat, ex_env 0)); OCreate (Some ("rpc@0x10-1", 7%nat, ex_env 0));
   OSelect 0 ex_penv (ex_journal 1 ∅) ex_replies; OSnapshot (ex_journal 1 ∅) ex_penv;
   OSelect 1 ex_penv (ex_journal 1 ∅) ex_replies; ORevert 0 (ex_journal 1 ∅) ex_penv RevertRemove].

(** Two forks of a block are created, selected in turn, and a snapshot of the
    first is reverted while the second is active. *)
Lemma fork_tables_consistent_witness :
  ∃ b, backend_new (DbErr := unit) ex_cache None = Ok b ∧ ∃ b', op_run b ex_ops = Ret b' ∧
    active_fork_ids b' = Some (0, 0%nat) ∧
    created_forks (inner b') !! "rpc@0x10-1" = Some 1%nat.
Proof.
  eexists. split; [reflexivity|].
  match goal with |- context [op_run ?b _] =>
    destruct (fork_tables_consistent (FetchError := unit)
      [ex_poll [QCreateFork ex_create 0%nat; QCreateFork ex_create 1%nat]]
      (default handler_new (match polls handler_new [ex_poll [QCreateFork ex_create 0%nat; QCreateFork ex_create 1%nat]]
                            with Ret (h, _) => Some h | _ => None end))
      [RCreate 0%nat (Ok ("rpc@0x10", 7%nat, ex_env 100)); RCreate 1%nat (Ok ("rpc@0x10-1", 7%nat, ex_env 100))]
      ex_cache None b ex_ops) as (b' & Hrun & _ & _ & Hact & _)
  end.
  - repeat constructor; intros H; discriminate H.
  - vm_compute. reflexivity.
  - vm_compute. reflexivity.
  - reflexivity.
  - vm_compute. reflexivity.
  - vm_compute. reflexivity.
  - exists b'. split; [exact Hrun|]. vm_compute in Hrun. injection Hrun as <-. split; reflexivity.
Defined.
