(* ===== verification/ForkSwitch.v ===== *)
(** * Switching forks and reverting snapshots

    What [select_fork] carries from one fork to the next and what it leaves
    alone, that a fork is found again as it was left, and that a snapshot brings
    back the fork it was taken on. *)

From stdpp Require Import prelude gmap list strings.
From S2P Require Import Prelude Containers Transaction Fees Env BlockStates MemDb MultiFork ForkBackend ForkSafety.

Open Scope Z_scope.

(** What revm documents of the operations the switch uses: reading or inserting
    an account touches the cache of that account only. *)
Class RevmLaws (Log Rest SharedBackend DbErr : Type) {ops : RevmOps Log Rest SharedBackend DbErr} : Prop := {
  db_basic_other db a x : x ≠ a →
    cd_accounts (fd_cache (db_basic db a).1) !! x = cd_accounts (fd_cache db) !! x;
  db_insert_other db a i x : x ≠ a →
    cd_accounts (fd_cache (db_insert_account_info db a i)) !! x = cd_accounts (fd_cache db) !! x;
  db_load_other db a x : x ≠ a →
    cd_accounts (fd_cache (db_load_account db a).1) !! x = cd_accounts (fd_cache db) !! x
}.

Section switch.
Context {Log Rest SharedBackend DbErr : Type}.
Context {ops : RevmOps Log Rest SharedBackend DbErr} {order : HashOrder Address}.

Notation Journal := (JournaledState Log Rest).
Notation TheFork := (Fork Log Rest SharedBackend).
Notation TheBackend := (Backend (Log := Log) (Rest := Rest) (SharedBackend := SharedBackend)).
Implicit Types b : TheBackend.
Implicit Types f : TheFork.
Implicit Types j js : Journal.

(** ** Merging one account after the other *)

(** Journals that differ in their accounts only. *)
Definition same_rest j j' : Prop :=
  js_logs j' = js_logs j ∧ js_depth j' = js_depth j ∧ js_rest j' = js_rest j.

Lemma same_rest_trans j1 j2 j3 : same_rest j1 j2 → same_rest j2 j3 → same_rest j1 j3.
Proof. intros (? & ? & ?) (? & ? & ?). unfold same_rest. split_and!; congruence. Qed.

Lemma merge_journal_rest a js j : same_rest j (merge_journaled_state_data a js j).
Proof. unfold merge_journaled_state_data. by destruct (js_state js !! a). Qed.

Lemma merge_journal_other a js j x :
  x ≠ a → js_state (merge_journaled_state_data a js j) !! x = js_state j !! x.
Proof.
  intros. unfold merge_journaled_state_data. destruct (js_state js !! a); [|done].
  simpl. by rewrite lookup_insert_ne.
Qed.

(** An account that is carried over: as in the active state, with more slots. *)
Definition carried (acc acc' : Account) : Prop :=
  ac_info acc' = ac_info acc ∧ ac_created acc' = ac_created acc ∧ ac_touched acc' = ac_touched acc ∧
  ac_storage acc ⊆ ac_storage acc'.

Lemma merge_journal_here a js j acc :
  js_state js !! a = Some acc →
  ∃ acc', js_state (merge_journaled_state_data a js j) !! a = Some acc' ∧ carried acc acc'.
Proof.
  intros Ha. unfold merge_journaled_state_data. rewrite Ha; simpl. rewrite lookup_insert_eq.
  eexists. split; [done|]. destruct (js_state j !! a); split_and!; try done. apply map_union_subseteq_l.
Qed.

Lemma merge_journal_none a js j : js_state js !! a = None → merge_journaled_state_data a js j = j.
Proof. intros Ha. unfold merge_journaled_state_data. by rewrite Ha. Qed.

Definition merge_journals js (l : list Address) j : Journal :=
  foldl (λ j a, merge_journaled_state_data a js j) j l.

Lemma merge_journals_rest js l j : same_rest j (merge_journals js l j).
Proof.
  revert j. induction l as [|a l IH]; intros j; [done|].
  eapply same_rest_trans; [apply (merge_journal_rest a js)|apply IH].
Qed.

Lemma merge_journals_other js l j x :
  x ∉ l → js_state (merge_journals js l j) !! x = js_state j !! x.
Proof.
  revert j. induction l as [|a l IH]; intros j Hx; [done|]. apply not_elem_of_cons in Hx as [Hxa Hx].
  unfold merge_journals; simpl. fold (merge_journals js l (merge_journaled_state_data a js j)).
  by rewrite IH, merge_journal_other.
Qed.

Lemma merge_journals_here js l j x acc :
  x ∈ l → js_state js !! x = Some acc →
  ∃ acc', js_state (merge_journals js l j) !! x = Some acc' ∧ carried acc acc'.
Proof.
  intros Hin Hacc. revert j. induction l as [|a l IH]; intros j; [by apply not_elem_of_nil in Hin|].
  change (merge_journals js (a :: l) j) with (merge_journals js l (merge_journaled_state_data a js j)).
  destruct (decide (x ∈ l)) as [Hl|Hl]; [by apply IH|].
  apply elem_of_cons in Hin as [->|]; [|done].
  rewrite merge_journals_other by done. by apply merge_journal_here.
Qed.

Lemma merge_journals_present js l j x :
  is_Some (js_state j !! x) → is_Some (js_state (merge_journals js l j) !! x).
Proof.
  revert j. induction l as [|a l IH]; intros j Hx; [done|]. apply IH.
  destruct (decide (x = a)) as [->|Hne]; [|by rewrite merge_journal_other].
  destruct (js_state js !! a) as [acc|] eqn:E; [|by rewrite merge_journal_none].
  destruct (merge_journal_here a js j acc E) as (acc' & -> & _). by eexists.
Qed.

Lemma merge_db_other a act d x :
  x ≠ a → cd_accounts (merge_db_account_data a act d) !! x = cd_accounts d !! x.
Proof.
  intros. unfold merge_db_account_data. destruct (cd_accounts act !! a); [|done].
  simpl. by rewrite lookup_insert_ne.
Qed.

(** The same for the databases. *)
Definition carried_db (acc acc' : DbAccount) : Prop :=
  da_info acc' = da_info acc ∧ da_state acc' = da_state acc ∧ da_storage acc ⊆ da_storage acc'.

Lemma merge_db_here a act d acc :
  cd_accounts act !! a = Some acc →
  ∃ acc', cd_accounts (merge_db_account_data a act d) !! a = Some acc' ∧ carried_db acc acc'.
Proof.
  intros Ha. unfold merge_db_account_data. rewrite Ha; simpl. rewrite lookup_insert_eq.
  eexists. split; [done|]. destruct (cd_accounts d !! a); split_and!; try done. apply map_union_subseteq_l.
Qed.

Definition merge_dbs act (l : list Address) (d : CacheDB) : CacheDB :=
  foldl (λ d a, merge_db_account_data a act d) d l.

Lemma merge_dbs_other act l d x :
  x ∉ l → cd_accounts (merge_dbs act l d) !! x = cd_accounts d !! x.
Proof.
  revert d. induction l as [|a l IH]; intros d Hx; [done|]. apply not_elem_of_cons in Hx as [Hxa Hx].
  change (merge_dbs act (a :: l) d) with (merge_dbs act l (merge_db_account_data a act d)).
  by rewrite IH, merge_db_other.
Qed.

Lemma merge_dbs_here act l d x acc :
  x ∈ l → cd_accounts act !! x = Some acc →
  ∃ acc', cd_accounts (merge_dbs act l d) !! x = Some acc' ∧ carried_db acc acc'.
Proof.
  intros Hin Hacc. revert d. induction l as [|a l IH]; intros d; [by apply not_elem_of_nil in Hin|].
  change (merge_dbs act (a :: l) d) with (merge_dbs act l (merge_db_account_data a act d)).
  destruct (decide (x ∈ l)) as [Hl|Hl]; [by apply IH|].
  apply elem_of_cons in Hin as [->|]; [|done].
  rewrite merge_dbs_other by done. by apply merge_db_here.
Qed.

(** [merge_account] merges journal and database side by side. *)
Lemma merge_accounts_split cache js l f :
  foldl (merge_account cache js) f l =
    {| fk_db := with_cache (fk_db f) (merge_dbs cache l (fd_cache (fk_db f)));
       fk_journal := merge_journals js l (fk_journal f) |}.
Proof.
  revert f. induction l as [|a l IH]; intros f; simpl; [by destruct f as [[] ?]|]. by rewrite IH.
Qed.

(** Syncing slots changes neither which accounts are there nor the others. *)
Lemma sync_journal_other l (db : ForkDB SharedBackend) j x :
  x ∉ l → js_state (foldl sync_account (db, j) l).2 !! x = js_state j !! x.
Proof.
  revert db j. induction l as [|a l IH]; intros db j Hx; [done|].
  apply not_elem_of_cons in Hx as [Hxa Hx]. cbn [foldl]. unfold sync_account at 2.
  destruct (db_load_account db a) as [db1 [acc|e]]; [|by apply IH].
  destruct (js_state j !! a); rewrite IH by done; [|done]. simpl. by rewrite lookup_insert_ne.
Qed.

Lemma sync_journal_rest l (db : ForkDB SharedBackend) j : same_rest j (foldl sync_account (db, j) l).2.
Proof.
  revert db j. induction l as [|a l IH]; intros db j; [done|]. cbn [foldl]. unfold sync_account at 2.
  destruct (db_load_account db a) as [db1 [acc|e]]; [|by apply IH].
  destruct (js_state j !! a) as [t|]; [|apply IH].
  exact (same_rest_trans _ _ _ (conj eq_refl (conj eq_refl eq_refl)) (IH db1 _)).
Qed.

(** ** The fork that arrives *)

Lemma ensure_caller_spec caller js f :
  (∀ x, x ≠ caller → js_state (fk_journal (ensure_caller caller js f)) !! x = js_state (fk_journal f) !! x) ∧
  is_Some (js_state (fk_journal (ensure_caller caller js f)) !! caller) ∧
  same_rest (fk_journal f) (fk_journal (ensure_caller caller js f)).
Proof.
  unfold ensure_caller. destruct (js_state (fk_journal f) !! caller) as [acc|] eqn:E.
  - split_and!; [done|by eexists|done].
  - simpl. split_and!; [intros x Hx; by rewrite lookup_insert_ne|rewrite lookup_insert_eq; by eexists|done].
Qed.

Lemma ensure_caller_db `{!RevmLaws Log Rest SharedBackend DbErr} caller js f x :
  x ≠ caller →
  cd_accounts (fd_cache (fk_db (ensure_caller caller js f))) !! x = cd_accounts (fd_cache (fk_db f)) !! x.
Proof.
  intros Hx. unfold ensure_caller. destruct (js_state (fk_journal f) !! caller); [done|]. simpl.
  destruct (cd_accounts (fd_cache (fk_db f)) !! caller); [done|]. by apply db_insert_other.
Qed.

Lemma welcome_spec caller js f :
  (∀ x, x ≠ caller → js_state (fk_journal (welcome caller js f).1) !! x = js_state (fk_journal f) !! x) ∧
  same_rest (fk_journal f) (fk_journal (welcome caller js f).1).
Proof.
  unfold welcome. destruct (js_state js !! caller) as [acc|]; [|done].
  destruct (Nat.eqb _ 0); [|done]. destruct (db_basic (fk_db f) caller) as [db [[i|]|e]]; try done.
  simpl. split; [|done]. intros x Hx. by rewrite lookup_insert_ne.
Qed.

Lemma welcome_db `{!RevmLaws Log Rest SharedBackend DbErr} caller js f x :
  x ≠ caller →
  cd_accounts (fd_cache (fk_db (welcome caller js f).1)) !! x = cd_accounts (fd_cache (fk_db f)) !! x.
Proof.
  intros Hx. unfold welcome. destruct (js_state js !! caller) as [acc|]; [|done].
  destruct (Nat.eqb _ 0); [|done]. pose proof (db_basic_other (fk_db f) caller x Hx) as Hb.
  by destruct (db_basic (fk_db f) caller) as [db [[i|]|e]].
Qed.

(** The entry of the sender in the journal of the fork [f] that is entered: at
    depth 0 (the fork was never selected) the entry of the journal [js] that is
    left, with the info the fork itself has for the account; otherwise the entry
    the fork has already; and the info of [js], or the default one, when it has
    none. *)
Definition sender_entry (caller : Address) (js : Journal) (f : TheFork) : Account :=
  let kept := default (account_from (from_option ac_info info_default (js_state js !! caller)))
                (js_state (fk_journal f) !! caller) in
  match js_state js !! caller with
  | Some acc =>
      if Nat.eqb (js_depth (fk_journal f)) 0 then
        match (db_basic (fk_db f) caller).2 with
        | Ok (Some i) => with_info acc i
        | _ => kept
        end
      else kept
  | None => kept
  end.

Lemma welcome_sender caller js f :
  default (account_from (from_option ac_info info_default (js_state js !! caller)))
    (js_state (fk_journal (welcome (DbErr := DbErr) caller js f).1) !! caller) =
  sender_entry caller js f.
Proof.
  unfold welcome, sender_entry. destruct (js_state js !! caller) as [acc|]; [|done].
  destruct (Nat.eqb _ 0); [|done].
  destruct (db_basic (fk_db f) caller) as [db' [[i|]|e]]; simpl; try done. by rewrite lookup_insert_eq.
Qed.

Lemma arrived_sender caller js l cache f (db : ForkDB SharedBackend) :
  caller ∉ l →
  let w := (welcome (DbErr := DbErr) caller js f).1 in
  js_state (fk_journal (arrived_fork caller js l cache w (foldl sync_account (db, fk_journal w) l).2))
    !! caller = Some (sender_entry caller js f).
Proof.
  intros Hl w. unfold arrived_fork. rewrite merge_accounts_split; cbn [fk_journal].
  rewrite merge_journals_other by done. set (j := (foldl sync_account _ l).2).
  assert (js_state j !! caller = js_state (fk_journal w) !! caller) as Hj by (by apply sync_journal_other).
  rewrite <- welcome_sender. fold w. unfold ensure_caller; cbn [fk_journal fk_db js_state with_depth].
  rewrite Hj. destruct (js_state (fk_journal w) !! caller) as [acc|] eqn:Ew; simpl;
    [by rewrite Hj|by rewrite lookup_insert_eq].
Qed.

(** The handed over fork, seen from the fork [f] before the switch. *)
Lemma arrived_spec caller js l cache f (db : ForkDB SharedBackend) :
  let f' := arrived_fork caller js l cache f (foldl sync_account (db, fk_journal f) l).2 in
  (∀ x, x ∉ l → x ≠ caller → js_state (fk_journal f') !! x = js_state (fk_journal f) !! x) ∧
  (∀ x acc, x ∈ l → js_state js !! x = Some acc →
    ∃ acc', js_state (fk_journal f') !! x = Some acc' ∧ carried acc acc') ∧
  is_Some (js_state (fk_journal f') !! caller) ∧
  js_logs (fk_journal f') = js_logs (fk_journal f) ∧ js_rest (fk_journal f') = js_rest (fk_journal f) ∧
  js_depth (fk_journal f') = js_depth js.
Proof.
  intros f'. unfold f', arrived_fork. rewrite merge_accounts_split; cbn [fk_journal].
  set (j := (foldl sync_account _ l).2). set (f0 := {| fk_db := fk_db f; fk_journal := with_depth j (js_depth js) |}).
  destruct (ensure_caller_spec caller js f0) as (Ho & Hc & Hl1 & Hd1 & Hr1).
  destruct (merge_journals_rest js l (fk_journal (ensure_caller caller js f0))) as (Hl2 & Hd2 & Hr2).
  destruct (sync_journal_rest l db (fk_journal f)) as (Hl3 & Hd3 & Hr3). fold j in Hl3, Hd3, Hr3.
  split_and!.
  - intros x Hx Hne. rewrite merge_journals_other, Ho by done. by apply sync_journal_other.
  - intros x acc. apply merge_journals_here.
  - by apply merge_journals_present.
  - by rewrite Hl2, Hl1.
  - by rewrite Hr2, Hr1.
  - by rewrite Hd2, Hd1.
Qed.

Lemma arrived_db `{!RevmLaws Log Rest SharedBackend DbErr} caller js l cache f j :
  let f' := arrived_fork caller js l cache f j in
  (∀ x, x ∉ l → x ≠ caller →
    cd_accounts (fd_cache (fk_db f')) !! x = cd_accounts (fd_cache (fk_db f)) !! x) ∧
  (∀ x acc, x ∈ l → cd_accounts cache !! x = Some acc →
    ∃ acc', cd_accounts (fd_cache (fk_db f')) !! x = Some acc' ∧ carried_db acc acc').
Proof.
  intros f'. unfold f', arrived_fork. rewrite merge_accounts_split; cbn [fk_db with_cache fd_cache].
  split.
  - intros x Hx Hne. by rewrite merge_dbs_other, ensure_caller_db.
  - intros x acc. apply merge_dbs_here.
Qed.

Lemma insert_twice {A} (l : list A) i k x y z t :
  i ≠ k → <[k := x]> (<[i := y]> (<[k := z]> (<[i := t]> l))) = <[k := x]> (<[i := y]> l).
Proof.
  intros Hne. rewrite (list_insert_insert_ne _ i k) by done.
  by rewrite list_insert_insert_eq, list_insert_insert_eq.
Qed.

(** [select_fork] in forking mode, in closed form. *)
Lemma select_active_eq names b id aid aidx env js r b' env' js' :
  backend_wf names b → active_fork_ids b = Some (aid, aidx) → id ≠ aid →
  select_fork b id env js r = Ret (b', env', js', Ok (E := BackendErr (DbErr := DbErr)) tt) →
  let l := set_iter (persistent_accounts (inner b)) in
  ∃ fork_env a f, sr_env r = Some (Some fork_env) ∧
    env' = update_current_env_with_fork_env env fork_env ∧ aidx ≠ Z.to_nat id ∧
    forks (inner b) !! aidx = Some (Some a) ∧ forks (inner b) !! Z.to_nat id = Some (Some f) ∧
    let w := (welcome (DbErr := DbErr) (ev_caller env) js f).1 in
    let synced := foldl sync_account (fk_db a, fk_journal w) l in
    let f' := arrived_fork (ev_caller env) js l (fd_cache synced.1) w synced.2 in
    js' = fk_journal f' ∧
    b' = with_active (with_inner b (set_forks (inner b)
           (<[Z.to_nat id := Some f']> (<[aidx := Some {| fk_db := synced.1; fk_journal := js |}]>
              (forks (inner b)))))) (Some (id, Z.to_nat id)).
Proof.
  intros Hwf Hact Hne Hsel l. unfold select_fork in Hsel.
  assert (is_active_fork b id = false) as Hna.
  { unfold is_active_fork. rewrite Hact. apply Z.eqb_neq. congruence. }
  rewrite Hna in Hsel. destruct (select_lookup b id r) as [[idx fork_env]|e] eqn:Hl; [|done].
  destruct (select_lookup_ok _ _ _ _ _ _ Hwf Hl) as (-> & H0 & Hid & [f Hf] & Henv).
  destruct (active_fork _ _ _ _ Hwf Hact) as (Hidx & Ha0 & _ & a & Ha).
  pose proof (other_place _ _ _ _ Hna Hact Hidx Ha0 H0) as Hne'.
  rewrite (record_active _ _ _ _ _ _ _ _ Hact Hne' Ha Hf), bind_Ret in Hsel.
  destruct (welcome (ev_caller env) js f) as [w [[]|e]] eqn:Hw; cbn [fst snd] in Hsel; [|done].
  assert (aidx < length (forks (inner b)))%nat as Hlt by by eapply lookup_lt_Some.
  assert (Z.to_nat id < length (forks (inner b)))%nat as Hlt' by by eapply lookup_lt_Some.
  erewrite handover_active in Hsel; [|exact Hact|exact Hne'| |]; cycle 1.
  { simpl. by rewrite list_lookup_insert_ne, list_lookup_insert_eq. }
  { simpl. rewrite list_lookup_insert_eq; [done|by rewrite length_insert]. }
  rewrite bind_Ret in Hsel. injection Hsel as <- <- <-.
  exists fork_env, a, f. rewrite Hw; cbn [fst]. split_and!; try done.
  simpl. by rewrite (insert_twice (forks (inner b)) aidx (Z.to_nat id)).
Qed.

Lemma sync_db_other `{!RevmLaws Log Rest SharedBackend DbErr} l (db : ForkDB SharedBackend) j x :
  x ∉ l →
  cd_accounts (fd_cache (foldl sync_account (db, j) l).1) !! x = cd_accounts (fd_cache db) !! x.
Proof.
  revert db j. induction l as [|a l IH]; intros db j Hx; [done|].
  apply not_elem_of_cons in Hx as [Hxa Hx]. cbn [foldl]. unfold sync_account at 2.
  pose proof (db_load_other db a x Hxa) as Hload.
  destruct (db_load_account db a) as [db1 [acc|e]]; simpl in Hload; [|by rewrite IH].
  destruct (js_state j !! a); by rewrite IH.
Qed.

(** ** Other forks *)

(** An operation of the fork number [aid]'s backend that is not for it. *)
Definition op_away (aid : Z) b (op : Op (Log := Log) (Rest := Rest) (SharedBackend := SharedBackend)) : Prop :=
  match op with
  | OSelect id _ _ _ => id ≠ aid
  | ORoll (Some id) _ _ _ => id ≠ aid
  | ORevert k _ _ _ => ∀ sn id fork_id idx f, state_snapshots (bi_snapshots (inner b)) !! k = Some sn →
      bs_db sn = Forked id fork_id idx f → id ≠ aid
  | _ => True
  end.

Fixpoint away (aid : Z) b (os : list Op) : Prop :=
  match os with
  | [] => True
  | op :: os => op_away aid b op ∧ ∀ b', op_step b op = Ret b' → away aid b' os
  end.

(** The place [k] holds what it held, and another number than [aid] is active. *)
Record aside (aid : Z) (k : nat) b b' : Prop := {
  as_fork : forks (inner b') !! k = forks (inner b) !! k;
  as_active : ∃ y yidx, active_fork_ids b' = Some (y, yidx) ∧ y ≠ aid
}.

Lemma select_others names b id xid xidx env js r b' env' js' res aid :
  backend_wf names b → active_fork_ids b = Some (xid, xidx) → xid ≠ aid → id ≠ aid → 0 ≤ aid →
  select_fork b id env js r = Ret (b', env', js', res : result unit (BackendErr (DbErr := DbErr))) →
  aside aid (Z.to_nat aid) b b'.
Proof.
  intros Hwf Hact Hx Hne H0 Hsel. destruct (active_fork _ _ _ _ Hwf Hact) as (Hidx & Hx0 & _ & a & Ha).
  assert (aside aid (Z.to_nat aid) b b) as Hsame by (split; [done|eauto]).
  destruct res as [[]|e].
  - destruct (decide (id = xid)) as [->|Hid].
    + unfold select_fork, is_active_fork in Hsel. rewrite Hact, Z.eqb_refl in Hsel. by injection Hsel as <- _ _.
    + destruct (select_active_eq _ _ _ _ _ _ _ _ _ _ _ Hwf Hact Hid Hsel)
        as (fe & a' & f & _ & _ & _ & _ & Hf & _ & ->).
      split; [|simpl; eauto]. simpl. rewrite !list_lookup_insert_ne; [done| |].
      * rewrite Hidx. lia.
      * destruct (decide (Z.to_nat id = Z.to_nat aid)) as [E|]; [|done].
        assert (id ≤ 0 ∨ 0 < id) as [Hn|Hp] by lia; [|lia].
        unfold select_fork in Hsel. exfalso.
        assert (is_active_fork b id = false) as Hna.
        { unfold is_active_fork. rewrite Hact. apply Z.eqb_neq. congruence. }
        rewrite Hna in Hsel. destruct (select_lookup b id r) as [[i fe']|] eqn:Hl; [|done].
        destruct (select_lookup_ok _ _ _ _ _ _ Hwf Hl) as (_ & Hid0 & _). lia.
  - unfold select_fork in Hsel. destruct (is_active_fork b id) eqn:Hna; [done|].
    destruct (select_lookup b id r) as [[i fe]|e'] eqn:Hl; [|by injection Hsel as <- _ _ _].
    destruct (select_lookup_ok _ _ _ _ _ _ Hwf Hl) as (-> & Hid0 & Hid & [f Hf] & _).
    pose proof (other_place _ _ _ _ Hna Hact Hidx Hx0 Hid0) as Hne'.
    rewrite (record_active _ _ _ _ _ _ _ _ Hact Hne' Ha Hf), bind_Ret in Hsel.
    destruct (welcome (ev_caller env) js f).2 as [[]|e1].
    + destruct (select_handover _ _ _ _) as [[b2 j2]| |]; by rewrite ?bind_Ret in Hsel.
    + injection Hsel as <- _ _ _. split; [|simpl; eauto]. simpl.
      rewrite !list_lookup_insert_ne; [done|lia|lia].
Qed.

Lemma roll_others names b id xid xidx env js reply b' env' js' res aid :
  backend_wf names b → (∀ name, name ∈ reply_names reply → name ∉ names) →
  active_fork_ids b = Some (xid, xidx) → xid ≠ aid → (∀ i, id = Some i → i ≠ aid) → 0 ≤ aid →
  roll_fork b id env js reply = Ret (b', env', js', res : result unit (BackendErr (DbErr := DbErr))) →
  aside aid (Z.to_nat aid) b b'.
Proof.
  intros Hwf Hfresh Hact Hx Hid H0 Hroll. destruct (active_fork _ _ _ _ Hwf Hact) as (Hidx & Hx0 & _ & a & Ha).
  assert (aside aid (Z.to_nat aid) b b) as Hsame by (split; [done|eauto]).
  unfold roll_fork in Hroll. destruct (and_then _ _) as [i|e] eqn:Hi; [|by injection Hroll as <- _ _ _].
  destruct reply as [[[name shared] env1]|]; [|by injection Hroll as <- _ _ _].
  apply and_then_Ok in Hi as (i' & Hens & Hi). apply and_then_Ok in Hi as (fork_id & Hfid & [= ->]).
  unfold ensure_fork_id in Hfid.
  destruct (issued_local_fork_ids (inner b) !! i) as [old|] eqn:Eold; [|done].
  destruct (issued_fork _ _ _ _ Hwf Eold) as (Hi0 & Hc & f & Hf).
  assert (i ≠ aid) as Hia.
  { unfold ensure_fork in Hens. destruct id as [i0|].
    - destruct (issued_local_fork_ids (inner b) !! i0); [|done]. injection Hens as ->. by apply Hid.
    - rewrite Hact in Hens. by injection Hens as <-. }
  assert (forks (inner b') !! Z.to_nat aid = forks (inner b) !! Z.to_nat aid ∧
    active_fork_ids b' = active_fork_ids b) as [H1 H2]; [|split; [done|rewrite H2; eauto]].
  unfold roll_inner, ensure_fork_index_by_local_id, ensure_fork_id, ensure_fork_index in Hroll.
  rewrite Eold in Hroll; simpl in Hroll. rewrite Hc in Hroll; simpl in Hroll.
  rewrite Hf in Hroll; simpl in Hroll. rewrite Hact in Hroll. destruct (Z.eqb_spec xid i) as [->|Hne].
  - unfold roll_active in Hroll; simpl in Hroll. rewrite Hidx in Hroll.
    assert (Z.to_nat i < length (forks (inner b)))%nat as Hlt by by eapply lookup_lt_Some.
    erewrite get_fork_eq in Hroll by (simpl; by rewrite list_lookup_insert_eq). rewrite bind_Ret in Hroll.
    destruct (foldl _ _ _) as [j2 db2].
    erewrite set_fork_eq in Hroll by (simpl; by rewrite list_lookup_insert_eq).
    rewrite !bind_Ret in Hroll. injection Hroll as <- _ _ _. simpl. split; [|done].
    rewrite !list_lookup_insert_ne; [done|lia|lia].
  - injection Hroll as <- _ _ _. simpl. split; [|done]. rewrite list_lookup_insert_ne; [done|lia].
Qed.

Lemma revert_others names b k env js action b' env' (res : option Journal) aid xid xidx :
  backend_wf names b → active_fork_ids b = Some (xid, xidx) → xid ≠ aid → 0 ≤ aid →
  op_away aid b (ORevert k js env action) →
  revert_state b k js env action = Ret (b', env', res) →
  aside aid (Z.to_nat aid) b b'.
Proof.
  intros Hwf Hact Hx H0 Haway Hrev. unfold revert_state, remove_at in Hrev; simpl in Hrev, Haway.
  destruct (state_snapshots (bi_snapshots (inner b)) !! k) as [sn|] eqn:Hsn.
  - destruct (bs_db sn) as [db|lid fork_id idx f] eqn:Hdb.
    + injection Hrev as <- _ _. split; [done|]. simpl. eauto.
    + destruct (bw_snaps _ _ Hwf _ _ _ _ _ _ Hsn Hdb) as (Hidx & Hid & Hc).
      specialize (Haway _ _ _ _ _ eq_refl Hdb). destruct Hid as [old Hid].
      destruct (issued_fork _ _ _ _ Hwf Hid) as (Hl0 & _ & f0 & Hf0).
      unfold restore_fork in Hrev. erewrite set_fork_eq in Hrev by (simpl; rewrite Hidx; exact Hf0).
      rewrite bind_Ret in Hrev. injection Hrev as <- _ _.
      split; simpl; [|eauto]. rewrite list_lookup_insert_ne; [done|lia].
  - injection Hrev as <- _ _. split; [done|simpl; eauto].
Qed.

(** An operation for another fork leaves the fork [aid] as it is. *)
Lemma step_aside names b op b' aid xid xidx fork_id :
  backend_wf names b → (∀ name, name ∈ op_names op → name ∉ names) →
  active_fork_ids b = Some (xid, xidx) → xid ≠ aid →
  issued_local_fork_ids (inner b) !! aid = Some fork_id →
  op_away aid b op → op_step b op = Ret b' →
  aside aid (Z.to_nat aid) b b'.
Proof.
  intros Hwf Hfresh Hact Hx Hiss Haway Hstep.
  destruct (issued_fork _ _ _ _ Hwf Hiss) as (H0 & _ & fa & Hfa).
  assert (∀ b1, forks (inner b1) = forks (inner b) → active_fork_ids b1 = active_fork_ids b →
    aside aid (Z.to_nat aid) b b1) as Hquiet.
  { intros b1 E1 E2. split; [by rewrite E1|]. rewrite E2. eauto. }
  destruct op as [reply|id env j r|id env j reply|j env|id j env action|id| |a|a|a|a|g gm];
    cbn [op_step op_names] in *; try (injection Hstep as <-; by apply Hquiet).
  - injection Hstep as <-. destruct reply as [[[name shared] env]|]; [|by apply Hquiet].
    split; [|simpl; eauto]. simpl. rewrite lookup_app_l; [done|by eapply lookup_lt_Some].
  - destruct (select_fork_wf names b id env j r Hwf) as (b1 & env1 & js1 & res & Hsel & _).
    rewrite Hsel, bind_Ret in Hstep. injection Hstep as <-. by eapply select_others.
  - destruct (roll_fork_wf names b id env j reply Hwf Hfresh) as (b1 & env1 & js1 & res & Hroll & _).
    rewrite Hroll, bind_Ret in Hstep. injection Hstep as <-. eapply roll_others; try done.
    intros i ->. done.
  - unfold snapshot_state in Hstep. destruct (create_db_snapshot b) as [db| |]; [|done..].
    injection Hstep as <-. by apply Hquiet.
  - destruct (revert_state_wf names b id j env action Hwf) as (b1 & env1 & js1 & Hrev & _).
    rewrite Hrev, bind_Ret in Hstep. injection Hstep as <-. by eapply revert_others.
  - unfold db_write in Hstep. rewrite Hact in Hstep.
    destruct (active_fork _ _ _ _ Hwf Hact) as (Hidx & Hx0 & _ & f & Hf).
    rewrite (get_fork_eq _ _ _ Hf), bind_Ret, (set_fork_eq _ _ _ _ Hf), bind_Ret in Hstep.
    injection Hstep as <-. split; [|simpl; eauto]. simpl. rewrite list_lookup_insert_ne; [done|lia].
Qed.

(** A run for other forks keeps the fork [aid] and the tables. *)
Lemma run_aside names b os b' aid xid xidx :
  backend_wf names b → NoDup (names ++ (os ≫= op_names)) →
  Z.of_nat (length (forks (inner b)) + length os) < 2 ^ 256 →
  active_fork_ids b = Some (xid, xidx) → xid ≠ aid →
  is_Some (issued_local_fork_ids (inner b) !! aid) →
  away aid b os → op_run b os = Ret b' →
  backend_wf (names ++ (os ≫= op_names)) b' ∧
  forks (inner b') !! Z.to_nat aid = forks (inner b) !! Z.to_nat aid ∧
  ∃ y yidx, active_fork_ids b' = Some (y, yidx) ∧ y ≠ aid.
Proof.
  unfold op_run. revert names b xid xidx.
  induction os as [|op os IH]; intros names b xid xidx Hwf Hnd Hlen Hact Hx Hiss Haway Hrun.
  { injection Hrun as <-. simpl. rewrite app_nil_r. split_and!; eauto. }
  rewrite bind_cons, app_assoc in Hnd. rewrite bind_cons, app_assoc. cbn [foldM length] in *.
  assert (∀ name, name ∈ op_names op → name ∉ names) as Hfresh.
  { intros name Hin Hin'. apply NoDup_app in Hnd as (Hnd & _). apply NoDup_app in Hnd as (_ & Hdis & _).
    by eapply Hdis. }
  destruct (step_wf names b op Hwf Hfresh) as (b1 & Hstep & Hwf1 & Hl1); [lia|].
  rewrite Hstep, bind_Ret in Hrun. destruct Haway as [Hop Haway]. destruct Hiss as [fork_id Hiss].
  destruct (step_aside names b op b1 aid xid xidx fork_id) as [Hf1 (y & yidx & Hact1 & Hy)]; [done..|].
  destruct (IH _ _ y yidx Hwf1 Hnd) as (Hwf' & Hf & Hact'); [lia|done|done| |by apply Haway|done|].
  { apply (bw_ids _ _ Hwf1). assert (is_Some (issued_local_fork_ids (inner b) !! aid)) as H0 by by eexists.
    apply (bw_ids _ _ Hwf) in H0. lia. }
  split_and!; [done|by rewrite Hf|done].
Qed.

(** ** Snapshots *)

(** An operation that neither removes the snapshot [k] nor all of them, nor
    reverts it or one taken before it. *)
Definition spares (k : Z) (op : Op (Log := Log) (Rest := Rest) (SharedBackend := SharedBackend)) : Prop :=
  match op with
  | ORevert k' _ _ _ => k < k'
  | ODelete k' => k' ≠ k
  | ODeleteAll => False
  | _ => True
  end.

Definition snaps b := bi_snapshots (inner b).

Lemma select_snaps names b id env js r b' env' js' res :
  backend_wf names b →
  select_fork b id env js r = Ret (b', env', js', res : result unit (BackendErr (DbErr := DbErr))) →
  snaps b' = snaps b.
Proof.
  intros Hwf Hsel. unfold select_fork in Hsel. destruct (is_active_fork b id) eqn:Hna; [by injection Hsel as <- _ _|].
  destruct (select_lookup b id r) as [[idx fe]|e'] eqn:Hl; [|by injection Hsel as <- _ _ _].
  destruct (select_lookup_ok _ _ _ _ _ _ Hwf Hl) as (Hidx & H0 & Hid & Hf & _).
  destruct (select_record_keeps _ _ _ _ (ev_caller env) js Hwf Hna Hidx H0 Hf)
    as (b1 & r1 & Hr & Hk1 & Hact1). rewrite Hr, bind_Ret in Hsel.
  destruct r1 as [[]|e]; [|injection Hsel as <- _ _ _; apply Hk1].
  pose proof (wf_keeps _ _ _ Hwf Hk1 Hact1) as Hwf1.
  assert (∃ f, forks (inner b1) !! idx = Some (Some f)) as Hf1.
  { destruct Hid as [fork_id Hid]. rewrite <- (kp_issued _ _ Hk1) in Hid.
    rewrite Hidx. by apply (issued_fork _ _ _ _ Hwf1 Hid). }
  assert (is_active_fork b1 id = false) as Hna1 by (unfold is_active_fork in *; by rewrite Hact1).
  destruct (select_handover_keeps _ _ _ _ (ev_caller env) js Hwf1 Hna1 Hidx H0 Hf1)
    as (b2 & j & Hh & Hk2 & Hact2). rewrite Hh, bind_Ret in Hsel. injection Hsel as <- _ _.
  unfold snaps; simpl. by rewrite (kp_snaps _ _ Hk2), (kp_snaps _ _ Hk1).
Qed.

Lemma roll_snaps b id env js reply b' env' js' res :
  roll_fork b id env js reply = Ret (b', env', js', res : result unit (BackendErr (DbErr := DbErr))) →
  snaps b' = snaps b.
Proof.
  unfold roll_fork. destruct (and_then _ _) as [i|e]; [|by intros [= <- _ _ _]].
  destruct reply as [[[name shared] env1]|]; [|by intros [= <- _ _ _]].
  unfold roll_inner. destruct (ensure_fork_index_by_local_id (inner b) i) as [idx|e];
    [|rewrite bind_Ret; by intros [= <- _ _ _]].
  destruct (forks (inner b) !! idx) as [active|]; [|done]; simpl. set (s := match active with Some _ => _ | None => _ end).
  assert (bi_snapshots s = snaps b) as Hs by by destruct active.
  destruct (active_fork_ids b) as [[xid xidx]|]; [|by intros [= <- _ _ _]].
  destruct (Z.eqb xid i); [|by intros [= <- _ _ _]].
  unfold roll_active. destruct (get_fork _ _) as [f| |]; [|done..]. rewrite bind_Ret.
  destruct (foldl _ _ _) as [j2 db2]. unfold set_fork.
  destruct (_ !! xidx); [|done]. simpl. by intros [= <- _ _ _].
Qed.

Lemma revert_spares b id env js action b' env' (res : option Journal) k sn :
  revert_state b id js env action = Ret (b', env', res) → k < id →
  state_snapshots (snaps b) !! k = Some sn →
  state_snapshots (snaps b') !! k = Some sn ∧ sn_id (snaps b') = sn_id (snaps b).
Proof.
  unfold revert_state, remove_at, snaps; simpl. intros Hrev Hsp Hk.
  destruct (state_snapshots (bi_snapshots (inner b)) !! id) as [sn'|] eqn:Hid.
  - set (t := if is_keep action then _ else _) in Hrev.
    assert (state_snapshots t !! k = Some sn ∧ sn_id t = sn_id (bi_snapshots (inner b))) as Ht.
    { unfold t. destruct (is_keep action); simpl; by rewrite ?lookup_insert_ne, lookup_delete_ne by lia. }
    clearbody t. destruct (bs_db sn') as [db|lid fork_id idx f].
    + injection Hrev as <- _ _. by simpl.
    + unfold restore_fork, set_fork in Hrev; simpl in Hrev.
      destruct (forks (inner b) !! idx); [|done]. rewrite bind_Ret in Hrev.
      injection Hrev as <- _ _. by simpl.
  - injection Hrev as <- _ _. simpl. by rewrite lookup_delete_ne by lia.
Qed.

(** A snapshot that is spared stays, under its number. *)
Lemma step_spares names b op b' k sn :
  backend_wf names b → spares k op → state_snapshots (snaps b) !! k = Some sn → k < sn_id (snaps b) → k < umax 256 →
  op_step b op = Ret b' →
  state_snapshots (snaps b') !! k = Some sn ∧ k < sn_id (snaps b').
Proof.
  intros Hwf Hsp Hk Hid Hmax Hstep.
  assert (∀ b1, snaps b1 = snaps b → state_snapshots (snaps b1) !! k = Some sn ∧ k < sn_id (snaps b1))
    as Hquiet by by intros b1 ->.
  destruct op as [reply|id env j r|id env j reply|j env|id j env action|id| |a|a|a|a|g gm];
    cbn [op_step spares] in *; try (injection Hstep as <-; by apply Hquiet).
  - injection Hstep as <-. apply Hquiet. by destruct reply as [[[name shared] env]|].
  - destruct (select_fork b id env j r) as [[[[b1 env1] js1] res]| |] eqn:E; [|done..].
    injection Hstep as <-. apply Hquiet. by eapply select_snaps.
  - destruct (roll_fork b id env j reply) as [[[[b1 env1] js1] res]| |] eqn:E; [|done..].
    injection Hstep as <-. apply Hquiet. by eapply roll_snaps.
  - unfold snapshot_state in Hstep. destruct (create_db_snapshot b) as [db| |]; [|done..].
    injection Hstep as <-. simpl. unfold snaps in *. rewrite lookup_insert_ne by lia. split; [done|].
    unfold saturating_add. lia.
  - destruct (revert_state b id j env action) as [[[b1 env1] js1]| |] eqn:E; [|done..].
    injection Hstep as <-. destruct (revert_spares _ _ _ _ _ _ _ _ _ _ E Hsp Hk) as [-> ->]. done.
  - injection Hstep as <-. simpl. by rewrite lookup_delete_ne.
  - unfold db_write in Hstep. destruct (active_fork_ids b) as [[x xi]|].
    + destruct (get_fork _ _); [|done..]. rewrite bind_Ret in Hstep. unfold set_fork in Hstep.
      destruct (_ !! xi); [|done]. rewrite bind_Ret in Hstep. injection Hstep as <-. by apply Hquiet.
    + injection Hstep as <-. by apply Hquiet.
Qed.

Lemma run_spares names b os b' k sn :
  backend_wf names b → NoDup (names ++ (os ≫= op_names)) →
  Z.of_nat (length (forks (inner b)) + length os) < 2 ^ 256 →
  Forall (spares k) os → state_snapshots (snaps b) !! k = Some sn → k < sn_id (snaps b) → k < umax 256 →
  op_run b os = Ret b' →
  backend_wf (names ++ (os ≫= op_names)) b' ∧ state_snapshots (snaps b') !! k = Some sn.
Proof.
  unfold op_run. revert names b. induction os as [|op os IH]; intros names b Hwf Hnd Hlen Hsp Hk Hid Hmax Hrun.
  { injection Hrun as <-. simpl. by rewrite app_nil_r. }
  rewrite bind_cons, app_assoc in Hnd. rewrite bind_cons, app_assoc. cbn [foldM length] in *.
  apply Forall_cons in Hsp as [Hop Hsp].
  destruct (step_wf names b op Hwf) as (b1 & Hstep & Hwf1 & Hl1); [|lia|].
  { intros name Hin Hin'. apply NoDup_app in Hnd as (Hnd & _). apply NoDup_app in Hnd as (_ & Hdis & _).
    by eapply Hdis. }
  rewrite Hstep, bind_Ret in Hrun.
  destruct (step_spares names b op b1 k sn Hwf Hop Hk Hid Hmax Hstep) as [Hk1 Hid1].
  apply (IH _ b1); try done. lia.
Qed.
End switch.

Section claims.
Context {Log Rest SharedBackend DbErr : Type}.
Context {ops : RevmOps Log Rest SharedBackend DbErr} {order : HashOrder Address}.
Context `{!RevmLaws Log Rest SharedBackend DbErr}.
Implicit Types b : Backend (Log := Log) (Rest := Rest) (SharedBackend := SharedBackend).


(** C10: a fork is found again as it was left.  Fork [aid] is left by selecting
    another fork; then any operations for other forks run (selecting and rolling
    them, reverting their snapshots and those of the in-memory database, creating
    forks, writing to the active database, changing the persistent accounts); when
    [aid] is selected again, the logs and every account that is neither persistent
    nor the sender are in the journal exactly as they were when the fork was left,
    and those that were not persistent when it was left either are in its cache as
    they were then. *)
Theorem fork_resumes names b aid aidx id env js r b1 env1 js1 os b2 env2 js2 r2 b3 env3 js3 :
  backend_wf names b → active_fork_ids b = Some (aid, aidx) → id ≠ aid →
  select_fork b id env js r = Ret (b1, env1, js1, Ok (E := BackendErr (DbErr := DbErr)) tt) →
  NoDup (names ++ (os ≫= op_names)) → Z.of_nat (length (forks (inner b)) + length os) < 2 ^ 256 →
  away aid b1 os → op_run b1 os = Ret b2 →
  select_fork b2 aid env2 js2 r2 = Ret (b3, env3, js3, Ok (E := BackendErr (DbErr := DbErr)) tt) →
  js_logs js3 = js_logs js ∧ js_rest js3 = js_rest js ∧
  active_fork_ids b3 = Some (aid, aidx) ∧
  ∀ x, x ∉ persistent_accounts (inner b2) → x ≠ ev_caller env2 →
    js_state js3 !! x = js_state js !! x ∧
    (x ∉ persistent_accounts (inner b) →
      ∃ a f3, forks (inner b) !! aidx = Some (Some a) ∧ forks (inner b3) !! aidx = Some (Some f3) ∧
        cd_accounts (fd_cache (fk_db f3)) !! x = cd_accounts (fd_cache (fk_db a)) !! x).
Proof.
  intros Hwf Hact Hne Hsel Hnd Hlen Haway Hrun Hsel2.
  destruct (active_fork _ _ _ _ Hwf Hact) as (Hidx & H0 & (fork_id & Hiss) & _).
  destruct (select_fork_wf names b id env js r Hwf) as (b1' & ? & ? & ? & Hsel' & Hwf1 & Hl1).
  rewrite Hsel in Hsel'. injection Hsel' as <- <- <- <-.
  destruct (select_active_eq _ _ _ _ _ _ _ _ _ _ _ Hwf Hact Hne Hsel)
    as (fe & a & f & _ & _ & Hidx1 & Ha & Hf & _ & Hb1).
  set (l := set_iter (persistent_accounts (inner b))) in *.
  set (db := (foldl sync_account _ l).1) in *.
  assert (forks (inner b1) !! aidx = Some (Some {| fk_db := db; fk_journal := js |})) as Hf1.
  { rewrite Hb1; simpl. rewrite list_lookup_insert_ne by done.
    apply list_lookup_insert_eq. by eapply lookup_lt_Some. }
  destruct (run_aside names b1 os b2 aid id (Z.to_nat id) Hwf1 Hnd) as (Hwf2 & Hf2 & y & yidx & Hact2 & Hy);
    [by rewrite Hl1|by rewrite Hb1|done|rewrite Hb1; by eexists|done|done|].
  rewrite <- Hidx, Hf1 in Hf2.
  destruct (select_active_eq _ _ _ _ _ _ _ _ _ _ _ Hwf2 Hact2 (not_eq_sym Hy) Hsel2)
    as (fe2 & a2 & f2 & _ & _ & Hidx3 & _ & Hf2' & Hjs3 & Hb3).
  rewrite <- Hidx, Hf2 in Hf2'. injection Hf2' as <-.
  set (l2 := set_iter (persistent_accounts (inner b2))) in *.
  set (f0 := {| fk_db := db; fk_journal := js |}) in *.
  set (w := (welcome (ev_caller env2) js2 f0).1) in *.
  set (synced := foldl sync_account (fk_db a2, fk_journal w) l2) in *.
  destruct (arrived_spec (ev_caller env2) js2 l2 (fd_cache synced.1) w (fk_db a2))
    as (Ho & _ & _ & Hlogs & Hrest & _). fold synced in Ho, Hlogs, Hrest.
  destruct (arrived_db (ev_caller env2) js2 l2 (fd_cache synced.1) w synced.2) as [Hdo _].
  destruct (welcome_spec (DbErr := DbErr) (ev_caller env2) js2 f0) as [Hw (Hwl & Hwd & Hwr)].
  fold w in Hw, Hwl, Hwr. rewrite Hjs3. split_and!; [by rewrite Hlogs|by rewrite Hrest|rewrite Hb3, Hidx; done|].
  intros x Hx Hxc. assert (x ∉ l2) as Hxl by (unfold l2; by rewrite set_iter_elem_of).
  split; [by rewrite Ho, Hw|]. intros Hxp. do 2 eexists. split; [exact Ha|]. rewrite Hb3; simpl.
  rewrite <- Hidx. split.
  - apply list_lookup_insert_eq. rewrite length_insert. by eapply lookup_lt_Some.
  - rewrite Hdo by done. unfold w. rewrite welcome_db by done.
    apply sync_db_other. unfold l. by rewrite set_iter_elem_of.
Qed.

(** C11: reverting a snapshot, the first time.  A snapshot is taken on an
    active fork of a well-formed backend, with a number below [2^256 - 1]; any
    operations follow that return and that neither delete it (or all snapshots)
    nor revert it or a snapshot taken before it; reverting it returns: the fork is
    active again under the name it had, with its journal, and its cache but for
    the sender, as they were; the journal that is returned has the accounts,
    depth and rest of the one snapshotted, the current logs, and the sender; the
    environment is the one snapshotted, for the current sender; the other forks
    are as they are; and the snapshot is gone unless it was asked to be kept. *)
Theorem snapshot_restores names b aid aidx js env b1 k os b2 cur env2 action :
  backend_wf names b → active_fork_ids b = Some (aid, aidx) →
  snapshot_state b js env = Ret (b1, k) → 0 ≤ k < umax 256 → sn_id (bi_snapshots (inner b)) = k →
  NoDup (names ++ (os ≫= op_names)) → Z.of_nat (length (forks (inner b)) + length os) < 2 ^ 256 →
  Forall (spares k) os → op_run b1 os = Ret b2 →
  ∃ b3 env3 js3 f f3 fork_id,
    revert_state b2 k cur env2 action = Ret (b3, env3, Some js3) ∧
    forks (inner b) !! aidx = Some (Some f) ∧ issued_local_fork_ids (inner b) !! aid = Some fork_id ∧
    active_fork_ids b3 = Some (aid, aidx) ∧ issued_local_fork_ids (inner b3) !! aid = Some fork_id ∧
    forks (inner b3) = <[aidx := Some f3]> (forks (inner b2)) ∧
    fk_journal f3 = fk_journal f ∧
    (∀ x, x ≠ ev_caller env2 → cd_accounts (fd_cache (fk_db f3)) !! x = cd_accounts (fd_cache (fk_db f)) !! x) ∧
    (∀ x, x ≠ ev_caller env2 → js_state js3 !! x = js_state js !! x) ∧
    is_Some (js_state js3 !! ev_caller env2) ∧
    js_logs js3 = js_logs cur ∧ js_depth js3 = js_depth js ∧ js_rest js3 = js_rest js ∧
    ev_fork env3 = ev_fork env ∧ ev_caller env3 = ev_caller env2 ∧
    (is_keep action = false → state_snapshots (bi_snapshots (inner b3)) !! k = None).
Proof.
  intros Hwf Hact Hsnap Hk Hid Hnd Hlen Hsp Hrun.
  destruct (active_fork _ _ _ _ Hwf Hact) as (Hidx & H0 & (fork_id & Hiss) & f & Hf).
  destruct (snapshot_state_wf names b js env Hwf) as (b1' & k' & Hsnap' & Hwf1 & Hl1).
  rewrite Hsnap in Hsnap'. injection Hsnap' as <- <-.
  unfold snapshot_state, create_db_snapshot in Hsnap.
  rewrite Hact, (get_fork_eq _ _ _ Hf), bind_Ret, Hiss in Hsnap; simpl in Hsnap. injection Hsnap as Hb1 _.
  set (sn := {| bs_db := Forked aid fork_id aidx f; bs_journal := js; bs_env := env |}) in *.
  destruct (run_spares names b1 os b2 k sn Hwf1 Hnd) as [Hwf2 Hk2]; try done; [by rewrite Hl1| | |lia|].
  { rewrite <- Hb1. unfold snaps; simpl. by rewrite Hid, lookup_insert_eq. }
  { rewrite <- Hb1. unfold snaps; simpl. rewrite Hid. unfold saturating_add, umax in *. lia. }
  destruct (bw_snaps _ _ Hwf2 k sn aid fork_id aidx f Hk2 eq_refl) as (_ & [old Hold] & Hc2).
  destruct (issued_fork _ _ _ _ Hwf2 Hold) as (_ & _ & f2 & Hf2). rewrite <- Hidx in Hf2.
  unfold revert_state, remove_at; simpl. unfold snaps in Hk2. rewrite Hk2. cbn [bs_db sn].
  set (t := if is_keep action then _ else _). set (failure := orb _ _).
  set (e := ensure_caller _ _ _).
  unfold restore_fork. erewrite set_fork_eq by (simpl; exact Hf2). rewrite bind_Ret.
  destruct (ensure_caller_spec (ev_caller env2) cur
    {| fk_db := fk_db f; fk_journal := with_logs js (js_logs cur) |}) as (Ho & Hc & Hl & Hd & Hr).
  do 6 eexists. split; [done|]. split; [exact Hf|]. split; [exact Hiss|]. split; [done|].
  split; [simpl; by rewrite lookup_insert_eq|]. split; [done|]. split; [done|].
  split; [intros x Hx; unfold e; simpl; by rewrite ensure_caller_db|].
  split; [intros x Hx; by apply Ho|]. split; [done|]. split; [exact Hl|]. split; [exact Hd|].
  split; [exact Hr|]. split; [done|]. split; [done|]. simpl. unfold t. intros ->.
  simpl. apply lookup_delete_eq.
Qed.
End claims.

(** ** Concrete runs *)

#[export] Instance ex_revm_laws : RevmLaws nat unit nat unit.
Proof.
  split; intros; simpl; try done. by rewrite lookup_insert_ne.
Qed.

Definition ex_account (v : Z) : Account :=
  {| ac_info := ex_info; ac_storage := {[1 := {| sl_original := 0; sl_present := v |}]};
     ac_created := true; ac_touched := true |}.

(** Two forks, the first active, account 9 persistent. *)
Definition ex_prefix : list (Op (Log := nat) (Rest := unit) (SharedBackend := nat)) :=
  [OCreate (Some ("rpc@0x10", 7%nat, ex_env 0)); OCreate (Some ("rpc@0x10-1", 7%nat, ex_env 0));
   OPersist 9; OSelect 0 ex_penv (ex_journal 1 ∅) ex_replies].

Definition ex_start : Backend (Log := nat) (Rest := unit) (SharedBackend := nat) :=
  match backend_new (DbErr := unit) ex_cache None with
  | Ok b => b
  | Err _ => {| mem_db := ex_cache; fork_init_journaled_state := ex_journal 0 ∅; active_fork_ids := None;
                inner := inner_default |}
  end.

Definition ex_backend : Backend (Log := nat) (Rest := unit) (SharedBackend := nat) :=
  match op_run ex_start ex_prefix with Ret b => b | _ => ex_start end.

Lemma ex_backend_wf : backend_wf ["rpc@0x10"; "rpc@0x10-1"] ex_backend.
Proof.
  destruct (new_wf (DbErr := unit) ex_cache None ex_start eq_refl) as [Hwf _].
  destruct (run_wf _ _ ex_prefix Hwf) as (b' & Hrun & Hwf' & _); [|done|].
  - apply (bool_decide_unpack _). vm_compute. exact I.
  - unfold ex_backend. rewrite Hrun. exact Hwf'.
Qed.

(** The first fork is left with a slot of account 3 set to 30 and of the
    persistent account 9 set to 90. *)
Definition ex_left : JournaledState nat unit := ex_journal 1 {[3 := ex_account 30; 9 := ex_account 90]}.

Notation ex_entered := (select_fork (DbErr := unit) ex_backend 1 ex_penv ex_left ex_replies).


(** The second fork writes and is rolled; then the first is selected again. *)
Definition ex_between : list (Op (Log := nat) (Rest := unit) (SharedBackend := nat)) :=
  [OWrite (λ db, db) (λ d, d); ORoll None ex_penv (ex_journal 1 ∅) (Some ("rpc@0x11", 7%nat, ex_env 0));
   OCreate (Some ("rpc@0x12", 7%nat, ex_env 0))].

Notation ex_back b := (select_fork (DbErr := unit) b 0 ex_penv (ex_journal 2 {[3 := ex_account 31]}) ex_replies).

Lemma fork_resumes_witness :
  ∃ b1 env1 js1 b2 b3 env3 js3, ex_entered = Ret (b1, env1, js1, Ok tt) ∧ op_run b1 ex_between = Ret b2 ∧
    ex_back b2 = Ret (b3, env3, js3, Ok tt) ∧ js_state js3 !! 3 = Some (ex_account 30).
Proof.
  assert (∃ b1 env1 js1 b2 b3 env3 js3, ex_entered = Ret (b1, env1, js1, Ok tt) ∧
    op_run b1 ex_between = Ret b2 ∧ ex_back b2 = Ret (b3, env3, js3, Ok tt) ∧
    away 0 b1 ex_between ∧ 3 ∉ persistent_accounts (inner b2))
    as (b1 & env1 & js1 & b2 & b3 & env3 & js3 & H1 & H2 & H3 & Haway & Hper).
  { do 7 eexists. split; [vm_compute; reflexivity|]. split; [vm_compute; reflexivity|].
    split; [vm_compute; reflexivity|]. split.
    - split; [exact I|]. intros b' _. split; [exact I|]. intros b'' _. split; [exact I|]. intros. exact I.
    - apply (bool_decide_unpack _). vm_compute. exact I. }
  exists b1, env1, js1, b2, b3, env3, js3. split; [exact H1|]. split; [exact H2|]. split; [exact H3|].
  destruct (fork_resumes ["rpc@0x10"; "rpc@0x10-1"] ex_backend 0 0%nat 1 ex_penv ex_left ex_replies b1 env1 js1
    ex_between b2 ex_penv (ex_journal 2 {[3 := ex_account 31]}) ex_replies b3 env3 js3) as (_ & _ & _ & Hx);
    [exact ex_backend_wf|vm_compute; reflexivity|discriminate|exact H1| | |exact Haway|exact H2|exact H3|].
  - apply (bool_decide_unpack _). vm_compute. exact I.
  - vm_compute. reflexivity.
  - destruct (Hx 3 Hper) as [E _]; [discriminate|]. rewrite E. reflexivity.
Defined.

(** A snapshot of the first fork is reverted while the second is active. *)
Lemma snapshot_restores_witness :
  ∃ b1 b2 b3 env3 js3, snapshot_state ex_backend ex_left ex_penv = Ret (b1, 0) ∧
    op_run b1 [OSelect 1 ex_penv ex_left ex_replies] = Ret b2 ∧ active_fork_ids b2 = Some (1, 1%nat) ∧
    revert_state b2 0 (ex_journal 1 ∅) ex_penv RevertKeep = Ret (b3, env3, Some js3) ∧
    active_fork_ids b3 = Some (0, 0%nat) ∧ js_state js3 !! 3 = Some (ex_account 30).
Proof.
  assert (∃ b1 b2, snapshot_state ex_backend ex_left ex_penv = Ret (b1, 0) ∧
    op_run b1 [OSelect 1 ex_penv ex_left ex_replies] = Ret b2 ∧ active_fork_ids b2 = Some (1, 1%nat))
    as (b1 & b2 & H1 & H2 & H3).
  { do 2 eexists. split; [vm_compute; reflexivity|]. split; [vm_compute; reflexivity|reflexivity]. }
  destruct (snapshot_restores ["rpc@0x10"; "rpc@0x10-1"] ex_backend 0 0%nat ex_left ex_penv b1 0
    [OSelect 1 ex_penv ex_left ex_replies] b2 (ex_journal 1 ∅) ex_penv RevertKeep)
    as (b3 & env3 & js3 & f & f3 & fork_id & Hrev & _ & _ & Hact & _ & _ & _ & _ & Hx & _);
    [exact ex_backend_wf|vm_compute; reflexivity|exact H1|split; [discriminate|reflexivity]|vm_compute; reflexivity| |
     vm_compute; reflexivity|repeat constructor|exact H2|].
  - apply (bool_decide_unpack _). vm_compute. exact I.
  - exists b1, b2, b3, env3, js3. split; [exact H1|]. split; [exact H2|]. split; [exact H3|].
    split; [exact Hrev|]. split; [exact Hact|]. rewrite (Hx 3) by discriminate. reflexivity.
Defined.

(** *** What the documentation says otherwise *)

(** Reverting a snapshot leaves the later ones: they can be reverted after it. *)
Lemma revert_keeps_later :
  ∃ b', op_run ex_backend [OSnapshot ex_left ex_penv; OSnapshot ex_left ex_penv;
                           ORevert 0 ex_left ex_penv RevertRemove] = Ret b' ∧
    is_Some (state_snapshots (bi_snapshots (inner b')) !! 1) ∧
    state_snapshots (bi_snapshots (inner b')) !! 0 = None.
Proof. eexists. split; [vm_compute; reflexivity|]. split; [vm_compute; eexists; reflexivity|reflexivity]. Qed.

(** A snapshot taken without a fork and reverted while one is active leaves the
    fork active: the journal is that of the in-memory state, the database the
    fork's. *)
Lemma memory_snapshot_keeps_fork :
  ∃ b', op_run ex_start [OSnapshot ex_left ex_penv; OCreate (Some ("rpc@0x10", 7%nat, ex_env 0));
                         OSelect 0 ex_penv ex_left ex_replies;
                         ORevert 0 ex_left ex_penv RevertRemove] = Ret b' ∧
    active_fork_ids b' = Some (0, 0%nat).
Proof. eexists. split; [vm_compute; reflexivity|reflexivity]. Qed.

(** With a name that was given before, selecting the other fork panics: the
    table leads both numbers to one place. *)
Lemma reused_name_panics :
  op_run ex_start [OCreate (Some ("rpc@0x10", 7%nat, ex_env 0)); OCreate (Some ("rpc@0x10", 7%nat, ex_env 0));
                   OSelect 0 ex_penv ex_left ex_replies; OSelect 1 ex_penv ex_left ex_replies] = Panic.
Proof. vm_compute. reflexivity. Qed.
