(* ===== verification/StateDiff.v ===== *)
(** * Recording of state changes (the state diff recording of
    crates/cheatcodes/src/inspector.rs and crates/cheatcodes/src/evm.rs)

    Between [startStateDiffRecording] and [stopAndReturnStateDiff] the inspector
    keeps a stack of vectors, one for each call that is open: a call or creation
    pushes a vector with its own entry, instructions add to the last vector, and
    the end of the call appends its vector to the one below.  The specification
    is the tree of calls: what was recorded is the preorder of the tree. *)

From stdpp Require Import prelude gmap list.
From S2P Require Import Prelude ExpectRevert.

Open Scope Z_scope.

(** ** Data *)

Record ChainInfo := { ci_forkId : Z; ci_chainId : Z }.

Inductive AccountAccessKind : Type :=
| AkCall | AkDelegateCall | AkCallCode | AkStaticCall | AkCreate | AkSelfDestruct | AkResume
| AkBalance | AkExtcodesize | AkExtcodehash | AkExtcodecopy.

#[export] Instance access_kind_eq_dec : EqDecision AccountAccessKind.
Proof. solve_decision. Defined.

Record StorageAccess := {
  sa_account : Addr;
  sa_slot : Z;
  sa_isWrite : bool;
  sa_previousValue : Z;
  sa_newValue : Z;
  sa_reverted : bool
}.

Record AccountAccess := {
  aa_chainInfo : ChainInfo;
  aa_kind : AccountAccessKind;
  aa_account : Addr;
  aa_accessor : Addr;
  aa_initialized : bool;
  aa_oldBalance : Z;
  aa_newBalance : Z;
  aa_deployedCode : Bytes;
  aa_value : Z;
  aa_data : Bytes;
  aa_reverted : bool;
  aa_storageAccesses : list StorageAccess;
  aa_depth : nat;
  aa_oldNonce : Z;
  aa_newNonce : Z
}.

(** [recorded_account_diffs_stack]. *)
Abbreviation DiffStack := (list (list AccountAccess)).

(** What the hooks read of an account, of the context of the virtual machine and
    of the interpreter.  A failed load is [None]; the top of the stack comes
    first. *)
Record AccountInfo := { ai_exists : bool; ai_balance : Z; ai_nonce : Z; ai_code : option Bytes }.

Record Ecx := {
  ec_depth : nat;
  ec_chain : ChainInfo;
  ec_account : Addr → option AccountInfo;
  ec_sload : Addr → Z → option Z;
  ec_balance : Addr → option Z
}.

Inductive Opcode : Type :=
| SELFDESTRUCT | SLOAD | SSTORE | EXTCODECOPY | EXTCODESIZE | EXTCODEHASH | BALANCE | OtherOpcode.

Record Interpreter := { it_target : Addr; it_opcode : Opcode; it_stack : list Z }.

Inductive CallScheme : Type := SchemeCall | SchemeCallCode | SchemeDelegateCall | SchemeStaticCall.

Record CallInputs := {
  ci_scheme : CallScheme;
  ci_caller : Addr;
  ci_target : Addr;
  ci_bytecode : Addr;
  ci_value : Z;
  ci_input : Bytes
}.

(** [address] is what [allow_cheatcodes] returns, the address of the contract. *)
Record CreateInputs := { cr_caller : Addr; cr_address : Addr; cr_value : Z; cr_init_code : Bytes }.

Definition address_from_word (w : Z) : Addr := w `mod` 2 ^ 160.

(** ** Changing one vector or record *)

Definition update_last {A} (f : A → A) (l : list A) : list A :=
  match last l with
  | Some x => List.removelast l ++ [f x]
  | None => l
  end.

Definition add_storage (s : StorageAccess) (a : AccountAccess) : AccountAccess :=
  {| aa_chainInfo := aa_chainInfo a; aa_kind := aa_kind a; aa_account := aa_account a;
     aa_accessor := aa_accessor a; aa_initialized := aa_initialized a;
     aa_oldBalance := aa_oldBalance a; aa_newBalance := aa_newBalance a;
     aa_deployedCode := aa_deployedCode a; aa_value := aa_value a; aa_data := aa_data a;
     aa_reverted := aa_reverted a; aa_storageAccesses := aa_storageAccesses a ++ [s];
     aa_depth := aa_depth a; aa_oldNonce := aa_oldNonce a; aa_newNonce := aa_newNonce a |}.

Definition revert_storage (s : StorageAccess) : StorageAccess :=
  {| sa_account := sa_account s; sa_slot := sa_slot s; sa_isWrite := sa_isWrite s;
     sa_previousValue := sa_previousValue s; sa_newValue := sa_newValue s; sa_reverted := true |}.

Definition revert_access (a : AccountAccess) : AccountAccess :=
  {| aa_chainInfo := aa_chainInfo a; aa_kind := aa_kind a; aa_account := aa_account a;
     aa_accessor := aa_accessor a; aa_initialized := aa_initialized a;
     aa_oldBalance := aa_oldBalance a; aa_newBalance := aa_newBalance a;
     aa_deployedCode := aa_deployedCode a; aa_value := aa_value a; aa_data := aa_data a;
     aa_reverted := true; aa_storageAccesses := revert_storage <$> aa_storageAccesses a;
     aa_depth := aa_depth a; aa_oldNonce := aa_oldNonce a; aa_newNonce := aa_newNonce a |}.

(** The updates at the end of a call and of a creation. *)
Definition settle_call (balance nonce : Z) (a : AccountAccess) : AccountAccess :=
  {| aa_chainInfo := aa_chainInfo a; aa_kind := aa_kind a; aa_account := aa_account a;
     aa_accessor := aa_accessor a; aa_initialized := aa_initialized a;
     aa_oldBalance := aa_oldBalance a; aa_newBalance := balance;
     aa_deployedCode := aa_deployedCode a; aa_value := aa_value a; aa_data := aa_data a;
     aa_reverted := aa_reverted a; aa_storageAccesses := aa_storageAccesses a;
     aa_depth := aa_depth a; aa_oldNonce := aa_oldNonce a; aa_newNonce := nonce |}.

Definition settle_create (balance : Z) (code : Bytes) (a : AccountAccess) : AccountAccess :=
  {| aa_chainInfo := aa_chainInfo a; aa_kind := aa_kind a; aa_account := aa_account a;
     aa_accessor := aa_accessor a; aa_initialized := aa_initialized a;
     aa_oldBalance := aa_oldBalance a; aa_newBalance := balance;
     aa_deployedCode := code; aa_value := aa_value a; aa_data := aa_data a;
     aa_reverted := aa_reverted a; aa_storageAccesses := aa_storageAccesses a;
     aa_depth := aa_depth a; aa_oldNonce := aa_oldNonce a; aa_newNonce := aa_newNonce a |}.

(** ** The hooks *)

Definition scheme_kind (s : CallScheme) : AccountAccessKind :=
  match s with
  | SchemeCall => AkCall
  | SchemeCallCode => AkCallCode
  | SchemeDelegateCall => AkDelegateCall
  | SchemeStaticCall => AkStaticCall
  end.

(** What is known of an account when it is accessed: existence, balance, nonce. *)
Definition account_before (o : option AccountInfo) : bool * Z * Z :=
  match o with
  | Some acc => (ai_exists acc, ai_balance acc, ai_nonce acc)
  | None => (false, 0, 0)
  end.

Definition call_access (e : Ecx) (c : CallInputs) : AccountAccess :=
  let '(initialized, old_balance, old_nonce) := account_before (ec_account e (ci_target c)) in
  {| aa_chainInfo := ec_chain e; aa_kind := scheme_kind (ci_scheme c); aa_account := ci_bytecode c;
     aa_accessor := ci_caller c; aa_initialized := initialized; aa_oldBalance := old_balance;
     aa_newBalance := 0; aa_deployedCode := []; aa_value := ci_value c; aa_data := ci_input c;
     aa_reverted := false; aa_storageAccesses := []; aa_depth := ec_depth e;
     aa_oldNonce := old_nonce; aa_newNonce := 0 |}.

Definition record_call (e : Ecx) (c : CallInputs) (st : option DiffStack) : option DiffStack :=
  (λ stack, stack ++ [[call_access e c]]) <$> st.

Definition create_access (e : Ecx) (c : CreateInputs) : AccountAccess :=
  {| aa_chainInfo := ec_chain e; aa_kind := AkCreate; aa_account := cr_address c;
     aa_accessor := cr_caller c; aa_initialized := true; aa_oldBalance := 0; aa_newBalance := 0;
     aa_deployedCode := []; aa_value := cr_value c; aa_data := cr_init_code c;
     aa_reverted := false; aa_storageAccesses := []; aa_depth := ec_depth e;
     aa_oldNonce := 0; aa_newNonce := 1 |}.

Definition record_create (e : Ecx) (c : CreateInputs) (st : option DiffStack) : option DiffStack :=
  (λ stack, stack ++ [[create_access e c]]) <$> st.

(** The end of a call or creation: the last vector is taken off, marked, its
    first entry completed, and appended to the vector below, or put back if
    there is none. *)
Definition merge_last (reverted : bool) (complete : AccountAccess → AccountAccess) (stack : DiffStack)
    : DiffStack :=
  match last stack with
  | None => stack
  | Some last_depth =>
      let stack := List.removelast stack in
      match (if reverted then revert_access <$> last_depth else last_depth) with
      | [] => stack
      | a :: rest =>
          let last_depth := complete a :: rest in
          match last stack with
          | Some _ => update_last (λ below, below ++ last_depth) stack
          | None => stack ++ [last_depth]
          end
      end
  end.

(** Only an entry of the depth that ends is completed. *)
Definition complete_call (e : Ecx) (target : Addr) (a : AccountAccess) : AccountAccess :=
  if Nat.eqb (aa_depth a) (ec_depth e) then
    match ec_account e target with
    | Some acc => settle_call (ai_balance acc) (ai_nonce acc) a
    | None => a
    end
  else a.

Definition complete_create (e : Ecx) (address : option Addr) (a : AccountAccess) : AccountAccess :=
  if Nat.eqb (aa_depth a) (ec_depth e) then
    match address ≫= ec_account e with
    | Some acc => settle_create (ai_balance acc) (default [] (ai_code acc)) a
    | None => a
    end
  else a.

(** The root call cannot be recorded. *)
Definition record_call_end (e : Ecx) (target : Addr) (r : InstructionResult) (st : option DiffStack)
    : option DiffStack :=
  (λ stack, if bool_decide (0 < ec_depth e)%nat then
              merge_last (result_is_revert r) (complete_call e target) stack
            else stack) <$> st.

Definition record_create_end (e : Ecx) (address : option Addr) (r : InstructionResult)
    (st : option DiffStack) : option DiffStack :=
  (λ stack, if bool_decide (0 < ec_depth e)%nat then
              merge_last (result_is_revert r) (complete_create e address) stack
            else stack) <$> st.

(** [zksync_remove_duplicate_account_access] of the zkSync strategy; that of the
    EVM strategy does nothing. *)
Definition remove_duplicate_account_access (remove_recorded_access_at : option nat)
    (st : option DiffStack) : option DiffStack :=
  match remove_recorded_access_at with
  | None => st
  | Some index => update_last (λ l, delete index l) <$> st
  end.

(** The record of storage accesses after a context switch. *)
Definition resume_access (entry : AccountAccess) (s : StorageAccess) : AccountAccess :=
  {| aa_chainInfo := aa_chainInfo entry; aa_kind := AkResume; aa_account := aa_account entry;
     aa_accessor := aa_accessor entry; aa_initialized := aa_initialized entry;
     aa_oldBalance := 0; aa_newBalance := 0; aa_deployedCode := []; aa_value := 0; aa_data := [];
     aa_reverted := aa_reverted entry; aa_storageAccesses := [s]; aa_depth := aa_depth entry;
     aa_oldNonce := 0; aa_newNonce := 0 |}.

Definition append_storage_access (s : StorageAccess) (storage_depth : nat) (l : list AccountAccess)
    : list AccountAccess :=
  match l, last l with
  | entry :: rest, Some last_record =>
      if bool_decide (aa_depth entry < storage_depth)%nat then
        match rest with
        | [] => [add_storage s entry]
        | _ => if bool_decide (aa_kind last_record = AkResume) then update_last (add_storage s) l
               else l ++ [resume_access entry s]
        end
      else l
  | _, _ => l
  end.

(** What one instruction accesses; [None] if the stack is too short. *)
Definition selfdestruct_access (e : Ecx) (i : Interpreter) : option AccountAccess :=
  w ← it_stack i !! 0%nat;
  let target := address_from_word w in
  let '(initialized, old_balance, old_nonce) := account_before (ec_account e target) in
  let value := default 0 (ec_balance e (it_target i)) in
  Some {| aa_chainInfo := ec_chain e; aa_kind := AkSelfDestruct; aa_account := target;
          aa_accessor := it_target i; aa_initialized := initialized; aa_oldBalance := old_balance;
          aa_newBalance := old_balance +w[256] value; aa_deployedCode := []; aa_value := value;
          aa_data := []; aa_reverted := false; aa_storageAccesses := []; aa_depth := ec_depth e;
          aa_oldNonce := old_nonce; aa_newNonce := old_nonce |}.

Definition present_value (e : Ecx) (address : Addr) (key : Z) : Z :=
  match ec_account e address with
  | Some _ => default 0 (ec_sload e address key)
  | None => 0
  end.

Definition sload_access (e : Ecx) (i : Interpreter) : option StorageAccess :=
  key ← it_stack i !! 0%nat;
  let present := present_value e (it_target i) key in
  Some {| sa_account := it_target i; sa_slot := key; sa_isWrite := false;
          sa_previousValue := present; sa_newValue := present; sa_reverted := false |}.

Definition sstore_access (e : Ecx) (i : Interpreter) : option StorageAccess :=
  key ← it_stack i !! 0%nat;
  value ← it_stack i !! 1%nat;
  Some {| sa_account := it_target i; sa_slot := key; sa_isWrite := true;
          sa_previousValue := present_value e (it_target i) key; sa_newValue := value;
          sa_reverted := false |}.

Definition ext_access (kind : AccountAccessKind) (e : Ecx) (i : Interpreter) : option AccountAccess :=
  w ← it_stack i !! 0%nat;
  let address := address_from_word w in
  let '(initialized, balance, nonce) := account_before (ec_account e address) in
  Some {| aa_chainInfo := ec_chain e; aa_kind := kind; aa_account := address;
          aa_accessor := it_target i; aa_initialized := initialized; aa_oldBalance := balance;
          aa_newBalance := balance; aa_deployedCode := []; aa_value := 0; aa_data := [];
          aa_reverted := false; aa_storageAccesses := []; aa_depth := ec_depth e;
          aa_oldNonce := nonce; aa_newNonce := nonce |}.

Definition on_last (f : list AccountAccess → option (list AccountAccess)) (stack : DiffStack) : DiffStack :=
  match last stack with
  | None => stack
  | Some l => match f l with Some l' => update_last (λ _, l') stack | None => stack end
  end.

Definition push_access (o : option AccountAccess) (stack : DiffStack) : DiffStack :=
  match o with
  | None => stack
  | Some a =>
      match last stack with
      | Some _ => update_last (λ l, l ++ [a]) stack
      | None => stack ++ [[a]]
      end
  end.

Definition record_state_diffs (e : Ecx) (i : Interpreter) (stack : DiffStack) : DiffStack :=
  match it_opcode i with
  | SELFDESTRUCT => on_last (λ l, (λ a, l ++ [a]) <$> selfdestruct_access e i) stack
  | SLOAD => on_last (λ l, (λ s, append_storage_access s (ec_depth e) l) <$> sload_access e i) stack
  | SSTORE => on_last (λ l, (λ s, append_storage_access s (ec_depth e) l) <$> sstore_access e i) stack
  | EXTCODECOPY => push_access (ext_access AkExtcodecopy e i) stack
  | EXTCODESIZE => push_access (ext_access AkExtcodesize e i) stack
  | EXTCODEHASH => push_access (ext_access AkExtcodehash e i) stack
  | BALANCE => push_access (ext_access AkBalance e i) stack
  | OtherOpcode => stack
  end.

(** ** The cheatcodes *)

Definition start_state_diff_recording (st : option DiffStack) : option DiffStack := Some [].

(** The stack is replaced by an empty one: recording goes on. *)
Definition get_state_diff (st : option DiffStack) : list AccountAccess * option DiffStack :=
  (concat (default [] st), Some []).

Definition get_storage_accesses (st : option DiffStack) : list StorageAccess :=
  concat (default [] st) ≫= aa_storageAccesses.

(** ** The diffs by account, as [getStateDiff] reports them *)

(** [BalanceDiff], [NonceDiff] and the values of [SlotStateDiff]. *)
Record ValueDiff := { vd_previous : Z; vd_new : Z }.

(** Labels, names of contracts and the decoding of slots by a storage layout are
    left out. *)
Record AccountStateDiffs := {
  ad_balance : option ValueDiff;
  ad_nonce : option ValueDiff;
  ad_state : gmap Z ValueDiff
}.

Definition no_diffs : AccountStateDiffs := {| ad_balance := None; ad_nonce := None; ad_state := ∅ |}.

(** The initial value is not overwritten if it is set already. *)
Definition note_change (d : option ValueDiff) (change : Z * Z) : option ValueDiff :=
  match d with
  | Some d => Some {| vd_previous := vd_previous d; vd_new := change.2 |}
  | None => Some {| vd_previous := change.1; vd_new := change.2 |}
  end.

Definition update_diffs (addr : Addr) (f : AccountStateDiffs → AccountStateDiffs)
    (m : gmap Addr AccountStateDiffs) : gmap Addr AccountStateDiffs :=
  <[addr := f (default no_diffs (m !! addr))]> m.

Definition diff_balance (a : AccountAccess) (m : gmap Addr AccountStateDiffs) : gmap Addr AccountStateDiffs :=
  if bool_decide (aa_oldBalance a = aa_newBalance a) then m
  else update_diffs (aa_account a) (λ d,
    {| ad_balance := note_change (ad_balance d) (aa_oldBalance a, aa_newBalance a);
       ad_nonce := ad_nonce d; ad_state := ad_state d |}) m.

Definition diff_nonce (a : AccountAccess) (m : gmap Addr AccountStateDiffs) : gmap Addr AccountStateDiffs :=
  if bool_decide (aa_oldNonce a = aa_newNonce a) then m
  else update_diffs (aa_account a) (λ d,
    {| ad_balance := ad_balance d;
       ad_nonce := note_change (ad_nonce d) (aa_oldNonce a, aa_newNonce a); ad_state := ad_state d |}) m.

Definition diff_storage (m : gmap Addr AccountStateDiffs) (s : StorageAccess) : gmap Addr AccountStateDiffs :=
  if sa_isWrite s && negb (sa_reverted s) then
    update_diffs (sa_account s) (λ d,
      {| ad_balance := ad_balance d; ad_nonce := ad_nonce d;
         ad_state := partial_alter (λ o, note_change o (sa_previousValue s, sa_newValue s))
                       (sa_slot s) (ad_state d) |}) m
  else m.

Definition diff_access (m : gmap Addr AccountStateDiffs) (a : AccountAccess) : gmap Addr AccountStateDiffs :=
  foldl diff_storage (diff_nonce a (diff_balance a m)) (aa_storageAccesses a).

Definition changes_something (a : AccountAccess) : Prop :=
  aa_storageAccesses a ≠ [] ∨ aa_oldBalance a ≠ aa_newBalance a ∨ aa_oldNonce a ≠ aa_newNonce a.

#[export] Instance changes_something_dec a : Decision (changes_something a).
Proof. unfold changes_something. destruct (aa_storageAccesses a); apply _. Defined.

Definition get_recorded_state_diffs (st : option DiffStack) : gmap Addr AccountStateDiffs :=
  foldl diff_access ∅ (filter changes_something (concat (default [] st))).

(** ** The specification: the calls of a recording as a tree *)

(** One thing that happens in a frame: an instruction, or a call or creation with
    what happens in it and its end. *)
Inductive Item : Type :=
| IOp (e : Ecx) (i : Interpreter)
| ICall (e : Ecx) (c : CallInputs) (body : list Item) (e' : Ecx) (r : InstructionResult)
| ICreate (e : Ecx) (c : CreateInputs) (body : list Item) (e' : Ecx) (address : option Addr)
    (r : InstructionResult).

Section item_rect.
Context (P : Item → Prop).
Context (Hop : ∀ e i, P (IOp e i)).
Context (Hcall : ∀ e c body e' r, Forall P body → P (ICall e c body e' r)).
Context (Hcreate : ∀ e c body e' a r, Forall P body → P (ICreate e c body e' a r)).

Fixpoint item_induction (x : Item) : P x :=
  let go := fix go (l : list Item) : Forall P l :=
    match l with
    | [] => Forall_nil_2 P
    | y :: l => Forall_cons_2 P y l (item_induction y) (go l)
    end in
  match x with
  | IOp e i => Hop e i
  | ICall e c body e' r => Hcall e c body e' r (go body)
  | ICreate e c body e' a r => Hcreate e c body e' a r (go body)
  end.
End item_rect.

(** The hooks an item runs. *)
Fixpoint run_item (x : Item) (st : option DiffStack) : option DiffStack :=
  let fix go (l : list Item) (st : option DiffStack) : option DiffStack :=
    match l with
    | [] => st
    | y :: l => go l (run_item y st)
    end in
  match x with
  | IOp e i => record_state_diffs e i <$> st
  | ICall e c body e' r => record_call_end e' (ci_target c) r (go body (record_call e c st))
  | ICreate e c body e' a r => record_create_end e' a r (go body (record_create e c st))
  end.

Fixpoint run_items (l : list Item) (st : option DiffStack) : option DiffStack :=
  match l with
  | [] => st
  | x :: l => run_items l (run_item x st)
  end.

(** What is seen of a recording: accesses to accounts, without what is listed
    with them, and accesses to storage. *)
Inductive Seen : Type := SeenAccount (a : AccountAccess) | SeenStorage (s : StorageAccess).

Definition without_storage (a : AccountAccess) : AccountAccess :=
  {| aa_chainInfo := aa_chainInfo a; aa_kind := aa_kind a; aa_account := aa_account a;
     aa_accessor := aa_accessor a; aa_initialized := aa_initialized a;
     aa_oldBalance := aa_oldBalance a; aa_newBalance := aa_newBalance a;
     aa_deployedCode := aa_deployedCode a; aa_value := aa_value a; aa_data := aa_data a;
     aa_reverted := aa_reverted a; aa_storageAccesses := []; aa_depth := aa_depth a;
     aa_oldNonce := aa_oldNonce a; aa_newNonce := aa_newNonce a |}.

(** A record of kind [AkResume] only continues the list of storage accesses. *)
Definition seen_in (a : AccountAccess) : list Seen :=
  (if bool_decide (aa_kind a = AkResume) then [] else [SeenAccount (without_storage a)]) ++
  (SeenStorage <$> aa_storageAccesses a).

Definition seen (l : list AccountAccess) : list Seen := l ≫= seen_in.

Definition revert_seen (x : Seen) : Seen :=
  match x with
  | SeenAccount a => SeenAccount (revert_access a)
  | SeenStorage s => SeenStorage (revert_storage s)
  end.

Definition revert_if (reverted : bool) (l : list Seen) : list Seen :=
  if reverted then revert_seen <$> l else l.

Definition seen_account (o : option AccountAccess) : list Seen := SeenAccount <$> option_list o.
Definition seen_storage (o : option StorageAccess) : list Seen := SeenStorage <$> option_list o.

(** What an instruction accesses. *)
Definition op_seen (e : Ecx) (i : Interpreter) : list Seen :=
  match it_opcode i with
  | SELFDESTRUCT => seen_account (selfdestruct_access e i)
  | SLOAD => seen_storage (sload_access e i)
  | SSTORE => seen_storage (sstore_access e i)
  | EXTCODECOPY => seen_account (ext_access AkExtcodecopy e i)
  | EXTCODESIZE => seen_account (ext_access AkExtcodesize e i)
  | EXTCODEHASH => seen_account (ext_access AkExtcodehash e i)
  | BALANCE => seen_account (ext_access AkBalance e i)
  | OtherOpcode => []
  end.

(** A call fails if it does not succeed; it halts if it fails without a revert (out
    of gas, an invalid opcode). *)
Definition failed (r : InstructionResult) : bool := negb (result_is_ok r).
Definition halted (r : InstructionResult) : bool := match r with Halted _ => true | _ => false end.

Lemma failed_revert r : halted r = false → failed r = result_is_revert r.
Proof. by destruct r. Qed.

(** A call comes before what happens in it; if it fails, all of that is undone. *)
Fixpoint item_seen (x : Item) : list Seen :=
  let fix go (l : list Item) : list Seen :=
    match l with
    | [] => []
    | y :: l => item_seen y ++ go l
    end in
  match x with
  | IOp e i => op_seen e i
  | ICall e c body e' r =>
      revert_if (failed r)
        (SeenAccount (complete_call e' (ci_target c) (call_access e c)) :: go body)
  | ICreate e c body e' a r =>
      revert_if (failed r)
        (SeenAccount (complete_create e' a (create_access e c)) :: go body)
  end.

(** The depths of a frame's items: a call has the depth of its caller at its
    start and end, and one more in between; and it does not halt. *)
Fixpoint item_wf (d : nat) (x : Item) : Prop :=
  let fix go (d : nat) (l : list Item) : Prop :=
    match l with
    | [] => True
    | y :: l => item_wf d y ∧ go d l
    end in
  match x with
  | IOp e _ => ec_depth e = d
  | ICall e _ body e' r => ec_depth e = d ∧ ec_depth e' = d ∧ halted r = false ∧ (0 < d)%nat ∧ go (S d) body
  | ICreate e _ body e' _ r => ec_depth e = d ∧ ec_depth e' = d ∧ halted r = false ∧ (0 < d)%nat ∧ go (S d) body
  end.

(** A recording runs in the frame that started it; when that frame ends it goes
    on in the frame below. *)
Inductive BaseEvent : Type :=
| BItem (x : Item)
| BLeaveCall (e : Ecx) (target : Addr) (r : InstructionResult)
| BLeaveCreate (e : Ecx) (address : option Addr) (r : InstructionResult).

Definition run_base (st : option DiffStack) (ev : BaseEvent) : option DiffStack :=
  match ev with
  | BItem x => run_item x st
  | BLeaveCall e target r => record_call_end e target r st
  | BLeaveCreate e address r => record_create_end e address r st
  end.

Definition leave_seen (e : Ecx) (r : InstructionResult) (s : list Seen) : list Seen :=
  revert_if (bool_decide (0 < ec_depth e)%nat && failed r) s.

(** Instructions of the frame itself: storage is not recorded, and a
    self-destruction only after something else was. *)
Definition own_op_seen (s : list Seen) (e : Ecx) (i : Interpreter) : list Seen :=
  match it_opcode i with
  | SLOAD | SSTORE => []
  | SELFDESTRUCT => if decide (s = []) then [] else op_seen e i
  | _ => op_seen e i
  end.

Definition base_seen (s : list Seen) (ev : BaseEvent) : list Seen :=
  match ev with
  | BItem (IOp e i) => s ++ own_op_seen s e i
  | BItem x => s ++ item_seen x
  | BLeaveCall e _ r | BLeaveCreate e _ r => leave_seen e r s
  end.

Fixpoint base_wf (d : nat) (evs : list BaseEvent) : Prop :=
  match evs with
  | [] => True
  | BItem x :: evs => item_wf d x ∧ base_wf d evs
  | BLeaveCall e _ r :: evs | BLeaveCreate e _ r :: evs =>
      S (ec_depth e) = d ∧ halted r = false ∧ base_wf (ec_depth e) evs
  end.

Definition seen_storages (l : list Seen) : list StorageAccess :=
  omap (λ x, match x with SeenStorage s => Some s | _ => None end) l.

(** The unreverted writes of a slot, in order, by their old and new values. *)
Definition slot_writes (addr : Addr) (slot : Z) (l : list StorageAccess) : list (Z * Z) :=
  (λ s, (sa_previousValue s, sa_newValue s)) <$>
    filter (λ s, sa_isWrite s = true ∧ sa_reverted s = false ∧ sa_account s = addr ∧ sa_slot s = slot) l.

(** From the first old value to the last new one. *)
Definition overall (l : list (Z * Z)) : option ValueDiff :=
  match l, last l with
  | first :: _, Some final => Some {| vd_previous := first.1; vd_new := final.2 |}
  | _, _ => None
  end.

(** ** Lemmas *)

Lemma update_last_snoc {A} (f : A → A) l x : update_last f (l ++ [x]) = l ++ [f x].
Proof. unfold update_last. by rewrite last_snoc, List.removelast_last. Qed.

Lemma seen_app l k : seen (l ++ k) = seen l ++ seen k.
Proof. apply bind_app. Qed.

Lemma seen_cons a l : seen (a :: l) = seen_in a ++ seen l.
Proof. done. Qed.

Definition items_seen (l : list Item) : list Seen := l ≫= item_seen.

Lemma run_items_app l k st : run_items (l ++ k) st = run_items k (run_items l st).
Proof. revert st. induction l; simpl; auto. Qed.

Lemma run_call_eq e c body e' r st :
  run_item (ICall e c body e' r) st =
    record_call_end e' (ci_target c) r (run_items body (record_call e c st)).
Proof. done. Qed.

Lemma run_create_eq e c body e' a r st :
  run_item (ICreate e c body e' a r) st = record_create_end e' a r (run_items body (record_create e c st)).
Proof. done. Qed.

Lemma seen_call_eq e c body e' r :
  halted r = false →
  item_seen (ICall e c body e' r) =
    revert_if (result_is_revert r)
      (SeenAccount (complete_call e' (ci_target c) (call_access e c)) :: items_seen body).
Proof. intros Hh. by rewrite <- failed_revert. Qed.

Lemma seen_create_eq e c body e' a r :
  halted r = false →
  item_seen (ICreate e c body e' a r) =
    revert_if (result_is_revert r)
      (SeenAccount (complete_create e' a (create_access e c)) :: items_seen body).
Proof. intros Hh. by rewrite <- failed_revert. Qed.

Lemma wf_call_eq d e c body e' r :
  item_wf d (ICall e c body e' r) ↔
    ec_depth e = d ∧ ec_depth e' = d ∧ halted r = false ∧ (0 < d)%nat ∧ Forall (item_wf (S d)) body.
Proof.
  simpl. repeat (apply and_iff_compat_l). induction body as [|x body IH]; simpl.
  - split; [constructor|done].
  - by rewrite Forall_cons, IH.
Qed.

Lemma wf_create_eq d e c body e' a r :
  item_wf d (ICreate e c body e' a r) ↔
    ec_depth e = d ∧ ec_depth e' = d ∧ halted r = false ∧ (0 < d)%nat ∧ Forall (item_wf (S d)) body.
Proof. apply wf_call_eq with (c := {| ci_scheme := SchemeCall; ci_caller := 0; ci_target := 0;
  ci_bytecode := 0; ci_value := 0; ci_input := [] |}) (r := r). Qed.

(** Marking. *)
Lemma seen_in_revert a : seen_in (revert_access a) = revert_seen <$> seen_in a.
Proof.
  unfold seen_in. rewrite fmap_app. f_equal; [by simpl; case_bool_decide|].
  simpl. by rewrite <- !list_fmap_compose.
Qed.

Lemma seen_revert l : seen (revert_access <$> l) = revert_seen <$> seen l.
Proof.
  induction l as [|a l IH]; [done|]. rewrite fmap_cons, !seen_cons, fmap_app, IH. f_equal.
  apply seen_in_revert.
Qed.

Lemma seen_marked reverted l :
  seen (if reverted : bool then revert_access <$> l else l) = revert_if reverted (seen l).
Proof. destruct reverted; [apply seen_revert|done]. Qed.

(** What the end of a call may do to its entry: nothing that hides it. *)
Class Completes (f : AccountAccess → AccountAccess) : Prop := {
  completes_kind a : aa_kind (f a) = aa_kind a;
  completes_depth a : aa_depth (f a) = aa_depth a;
  completes_storage a : aa_storageAccesses (f a) = aa_storageAccesses a;
  completes_without a : without_storage (f a) = f (without_storage a);
  completes_revert a : f (revert_access a) = revert_access (f a)
}.

#[export] Instance id_completes : Completes id.
Proof. by split. Qed.

#[export] Instance complete_call_completes e target : Completes (complete_call e target).
Proof.
  split; intros a; unfold complete_call; simpl; destruct (Nat.eqb _ _); try done;
    by destruct (ec_account e target).
Qed.

#[export] Instance complete_create_completes e address : Completes (complete_create e address).
Proof.
  split; intros a; unfold complete_create; simpl; destruct (Nat.eqb _ _); try done;
    by destruct (address ≫= ec_account e).
Qed.

Lemma seen_complete f `{!Completes f} a rest :
  aa_kind a ≠ AkResume →
  seen (f a :: rest) = SeenAccount (f (without_storage a)) :: (SeenStorage <$> aa_storageAccesses a) ++ seen rest.
Proof.
  intros Hk. rewrite seen_cons. unfold seen_in.
  rewrite completes_kind, bool_decide_eq_false_2 by done.
  by rewrite completes_storage, completes_without.
Qed.

(** The vector of a call that ends. *)
Definition closed (reverted : bool) (f : AccountAccess → AccountAccess) (v : list AccountAccess)
    : list AccountAccess :=
  match (if reverted then revert_access <$> v else v) with
  | a :: rest => f a :: rest
  | [] => []
  end.

Lemma closed_cons reverted f a rest :
  ∃ a' rest', (if reverted : bool then revert_access <$> (a :: rest) else a :: rest) = a' :: rest' ∧
    closed reverted f (a :: rest) = f a' :: rest'.
Proof. unfold closed. destruct reverted; simpl; by do 2 eexists. Qed.

Lemma merge_below reverted f S u a rest :
  merge_last reverted f ((S ++ [u]) ++ [a :: rest]) = S ++ [u ++ closed reverted f (a :: rest)].
Proof.
  unfold merge_last. rewrite last_snoc, List.removelast_last.
  destruct (closed_cons reverted f a rest) as (a' & rest' & -> & ->).
  by rewrite last_snoc, update_last_snoc.
Qed.

Lemma merge_base reverted f a rest :
  merge_last reverted f [a :: rest] = [closed reverted f (a :: rest)].
Proof.
  unfold merge_last. change (last [a :: rest]) with (Some (a :: rest)). cbv beta iota.
  by destruct (closed_cons reverted f a rest) as (a' & rest' & -> & ->).
Qed.

Lemma seen_closed reverted f `{!Completes f} a rest tail :
  aa_kind a ≠ AkResume → seen (a :: rest) = SeenAccount (without_storage a) :: tail →
  seen (closed reverted f (a :: rest)) = revert_if reverted (SeenAccount (f (without_storage a)) :: tail).
Proof.
  intros Hk Hs. pose proof (seen_complete id a rest Hk) as Hi. unfold id in Hi. rewrite Hs in Hi.
  injection Hi as ->. unfold closed. destruct reverted; [|by apply seen_complete].
  rewrite fmap_cons, seen_complete by done. simpl. f_equal.
  - by rewrite <- completes_revert.
  - rewrite fmap_app, seen_revert. f_equal. by rewrite <- !list_fmap_compose.
Qed.

(** The vector of the frame that runs at depth [d]. *)
Definition open_frame (d : nat) (v : list AccountAccess) : Prop :=
  ∃ entry rest, v = entry :: rest ∧ aa_kind entry ≠ AkResume ∧ (aa_depth entry < d)%nat.

Definition same_entry (v v' : list AccountAccess) : Prop :=
  without_storage <$> head v' = without_storage <$> head v.

Lemma same_entry_cons a rest v' :
  same_entry (a :: rest) v' → ∃ a' rest', v' = a' :: rest' ∧ without_storage a' = without_storage a.
Proof. destruct v' as [|a' rest']; [done|]. intros H%(inj Some). eauto. Qed.

Lemma without_kind a b : without_storage a = without_storage b → aa_kind a = aa_kind b.
Proof. by intros [=]. Qed.
Lemma without_depth a b : without_storage a = without_storage b → aa_depth a = aa_depth b.
Proof. by intros [=]. Qed.
Lemma without_complete f `{!Completes f} a b :
  without_storage a = without_storage b → without_storage (f a) = without_storage (f b).
Proof. intros H. by rewrite !completes_without, H. Qed.

Lemma same_entry_open d v v' : open_frame d v → same_entry v v' → open_frame d v'.
Proof.
  intros (a & rest & -> & Hk & Hd) (a' & rest' & -> & E)%same_entry_cons.
  exists a', rest'. by rewrite (without_kind _ _ E), (without_depth _ _ E).
Qed.

Lemma same_entry_trans v1 v2 v3 : same_entry v1 v2 → same_entry v2 v3 → same_entry v1 v3.
Proof. unfold same_entry. congruence. Qed.

Lemma same_entry_app v l : v ≠ [] → same_entry v (v ++ l).
Proof. by destruct v. Qed.

Lemma seen_in_add_storage s a : seen_in (add_storage s a) = seen_in a ++ [SeenStorage s].
Proof. unfold seen_in; simpl. by rewrite fmap_app, assoc by apply _. Qed.

Lemma append_storage_seen d s v :
  open_frame d v → seen (append_storage_access s d v) = seen v ++ [SeenStorage s] ∧
    same_entry v (append_storage_access s d v).
Proof.
  intros (entry & rest & -> & Hk & Hd). unfold append_storage_access.
  destruct (last (entry :: rest)) as [l|] eqn:Hl; [|by apply last_None in Hl].
  rewrite bool_decide_eq_true_2 by done.
  destruct rest as [|b rest']; [by rewrite !seen_cons, !app_nil_r, seen_in_add_storage|].
  apply last_Some in Hl as [front Hf]. rewrite Hf. case_bool_decide as Hr.
  - rewrite update_last_snoc, !seen_app, !seen_cons, seen_in_add_storage, !app_nil_r, assoc by apply _.
    split; [done|]. destruct front; [|done]. by injection Hf.
  - rewrite seen_app. split; [done|]. apply same_entry_app. by destruct front.
Qed.

(** In a frame of the tree, every item adds what is seen of it. *)
Definition grows_by (x : Item) : Prop := ∀ d S v,
  item_wf d x → open_frame d v →
  ∃ v', run_item x (Some (S ++ [v])) = Some (S ++ [v']) ∧ same_entry v v' ∧
    seen v' = seen v ++ item_seen x.

Lemma items_grow l d S v :
  Forall grows_by l → Forall (item_wf d) l → open_frame d v →
  ∃ v', run_items l (Some (S ++ [v])) = Some (S ++ [v']) ∧ same_entry v v' ∧
    seen v' = seen v ++ items_seen l.
Proof.
  intros Hl. revert v. induction Hl as [|x l Hx Hl IH]; intros v Hwf Hv.
  { exists v. by rewrite app_nil_r. }
  apply Forall_cons in Hwf as [Hwx Hwf]. destruct (Hx d S v Hwx Hv) as (v1 & E1 & Hs1 & H1).
  destruct (IH v1 Hwf) as (v2 & E2 & Hs2 & H2); [by eapply same_entry_open|].
  exists v2. simpl. rewrite E1, E2. split; [done|]. split; [by eapply same_entry_trans|].
  by rewrite H2, H1, <- app_assoc.
Qed.

Lemma seen_single a : aa_storageAccesses a = [] → aa_kind a ≠ AkResume → seen [a] = [SeenAccount a].
Proof.
  intros Hs Hk. rewrite seen_cons. unfold seen_in. rewrite bool_decide_eq_false_2, Hs by done.
  simpl. do 2 f_equal. destruct a; simpl in *. by subst.
Qed.

(** A call within a frame, given what happens in it. *)
Lemma call_merges body d (k : DiffStack) a :
  Forall grows_by body → Forall (item_wf (S d)) body → (0 < d)%nat →
  aa_storageAccesses a = [] → aa_kind a ≠ AkResume → aa_depth a = d →
  ∃ w rest, run_items body (Some (k ++ [[a]])) = Some (k ++ [w :: rest]) ∧ aa_kind w ≠ AkResume ∧
    aa_depth w = d ∧ ∀ reverted f, Completes f →
      seen (closed reverted f (w :: rest)) = revert_if reverted (SeenAccount (f a) :: items_seen body).
Proof.
  intros Hb Hwf Hd Hs Hk Ha.
  destruct (items_grow body (S d) k [a] Hb Hwf) as (v & E & He & Hv); [exists a, []; by rewrite Ha; eauto with lia|].
  apply same_entry_cons in He as (w & rest & -> & Hw).
  exists w, rest. split; [done|]. rewrite (without_kind _ _ Hw), (without_depth _ _ Hw).
  split_and!; [done|done|]. intros reverted f Hf.
  rewrite (seen_closed reverted f w rest (items_seen body)).
  - do 3 f_equal. rewrite Hw. destruct a; simpl in *. by subst.
  - by rewrite (without_kind _ _ Hw).
  - rewrite Hv, seen_single by done. rewrite Hw. simpl. do 2 f_equal. destruct a; simpl in *. by subst.
Qed.

(** Instructions. *)
Definition plain (a : AccountAccess) : Prop := aa_storageAccesses a = [] ∧ aa_kind a ≠ AkResume.

Lemma selfdestruct_plain e i a : selfdestruct_access e i = Some a → plain a.
Proof.
  unfold selfdestruct_access. destruct (it_stack i !! 0%nat); [|done]. simpl.
  destruct (account_before _) as [[? ?] ?]. by intros [= <-].
Qed.

Lemma ext_plain kind e i a : kind ≠ AkResume → ext_access kind e i = Some a → plain a.
Proof.
  intros Hk. unfold ext_access. destruct (it_stack i !! 0%nat); [|done]. simpl.
  destruct (account_before _) as [[? ?] ?]. by intros [= <-].
Qed.

Lemma seen_push v o :
  (∀ a, o = Some a → plain a) → seen (v ++ option_list o) = seen v ++ seen_account o.
Proof.
  intros Ho. rewrite seen_app. f_equal. destruct o as [a|]; [|done].
  destruct (Ho a eq_refl). by apply seen_single.
Qed.

Lemma on_last_snoc f (k : DiffStack) v : on_last f (k ++ [v]) = k ++ [default v (f v)].
Proof. unfold on_last. rewrite last_snoc. destruct (f v); [by rewrite update_last_snoc|done]. Qed.

Lemma push_access_snoc o (k : DiffStack) v : push_access o (k ++ [v]) = k ++ [v ++ option_list o].
Proof.
  destruct o; simpl; [|by rewrite app_nil_r]. by rewrite last_snoc, update_last_snoc.
Qed.

Lemma push_default v o : default v ((λ a, v ++ [a]) <$> o) = v ++ option_list o (A := AccountAccess).
Proof. destruct o; [done|]. by rewrite app_nil_r. Qed.

Lemma open_frame_ne d v : open_frame d v → v ≠ [].
Proof. by intros (? & ? & -> & _). Qed.

Lemma storage_op_grows o d v :
  open_frame d v →
  let v' := default v ((λ s, append_storage_access s d v) <$> o) in
  same_entry v v' ∧ seen v' = seen v ++ seen_storage o.
Proof.
  intros Hv. destruct o as [s|]; simpl; [|by rewrite app_nil_r].
  by destruct (append_storage_seen d s v Hv).
Qed.

Lemma push_grows o v :
  v ≠ [] → (∀ a, o = Some a → plain a) →
  same_entry v (v ++ option_list o) ∧ seen (v ++ option_list o) = seen v ++ seen_account o.
Proof. intros Hv Ho. split; [by apply same_entry_app|by apply seen_push]. Qed.

Lemma op_grows e i : grows_by (IOp e i).
Proof.
  intros d k v Hd Hv. simpl in Hd. subst d. pose proof (open_frame_ne _ _ Hv) as Hne.
  simpl. unfold record_state_diffs, op_seen.
  destruct (it_opcode i); rewrite ?on_last_snoc, ?push_access_snoc, ?push_default;
    eexists; (split; [done|]);
    first [exact (storage_op_grows _ _ v Hv) | (apply push_grows; [done|]) | by rewrite app_nil_r];
    intros ? Ha; first [exact (selfdestruct_plain _ _ _ Ha) | by refine (ext_plain _ _ _ _ _ Ha)].
Qed.

Lemma call_access_plain e c : plain (call_access e c) ∧ aa_depth (call_access e c) = ec_depth e.
Proof.
  unfold plain, call_access. destruct (account_before _) as [[? ?] ?]; simpl. by destruct (ci_scheme c).
Qed.

Lemma closed_below (k : DiffStack) reverted f v w rest :
  v ≠ [] → merge_last reverted f ((k ++ [v]) ++ [w :: rest]) = k ++ [v ++ closed reverted f (w :: rest)].
Proof. intros _. apply merge_below. Qed.

Lemma item_grows x : grows_by x.
Proof.
  induction x as [e i|e c body e' r IH|e c body e' a r IH] using item_induction.
  - apply op_grows.
  - intros d k v (He & He' & Hh & Hd & Hb)%wf_call_eq Hv. rewrite run_call_eq, seen_call_eq by done.
    destruct (call_access_plain e c) as [[Hs Hk] Ha]. rewrite He in Ha.
    destruct (call_merges body d (k ++ [v]) _ IH Hb Hd Hs Hk Ha) as (w & rest & E & _ & _ & Hc).
    simpl. rewrite E. simpl. rewrite bool_decide_eq_true_2 by lia. rewrite merge_below.
    eexists. split; [done|]. split; [by apply same_entry_app, (open_frame_ne d)|].
    rewrite seen_app. f_equal. apply Hc. apply _.
  - intros d k v (He & He' & Hh & Hd & Hb)%wf_create_eq Hv. rewrite run_create_eq, seen_create_eq by done.
    destruct (call_merges body d (k ++ [v]) (create_access e c) IH Hb Hd) as (w & rest & E & _ & _ & Hc);
      [done|done|done|].
    simpl. rewrite E. simpl. rewrite bool_decide_eq_true_2 by lia. rewrite merge_below.
    eexists. split; [done|]. split; [by apply same_entry_app, (open_frame_ne d)|].
    rewrite seen_app. f_equal. apply Hc. apply _.
Qed.

(** ** The frame that records *)

(** Nothing was recorded, or one vector of accesses at this depth or below. *)
Definition base_stack (d : nat) (s : list Seen) (stack : DiffStack) : Prop :=
  (stack = [] ∧ s = []) ∨
  ∃ a rest, stack = [a :: rest] ∧ aa_kind a ≠ AkResume ∧ (d ≤ aa_depth a)%nat ∧ seen (a :: rest) = s.

Lemma base_stack_le d d' s stack : base_stack d s stack → (d' ≤ d)%nat → base_stack d' s stack.
Proof. intros [[-> ->]|(a & rest & -> & ? & ? & ?)] Hd; [by left|right]. exists a, rest. eauto with lia. Qed.

Lemma base_stack_nonempty d s a rest : base_stack d s [a :: rest] → s ≠ [].
Proof.
  intros [[? _]|(a' & rest' & [= <- <-] & Hk & _ & <-)]; [done|].
  rewrite seen_cons. unfold seen_in. by rewrite bool_decide_eq_false_2.
Qed.

Lemma base_stack_app d s stack l :
  base_stack d s stack → stack ≠ [] →
  ∃ v, stack = [v] ∧ base_stack d (s ++ seen l) [v ++ l].
Proof.
  intros [[-> _]|(a & rest & -> & Hk & Hd & <-)] Hne; [done|]. eexists. split; [done|]. right.
  exists a, (rest ++ l). split_and!; [done|done|done|]. by rewrite <- seen_app.
Qed.

Lemma base_push d s stack o :
  base_stack d s stack → (∀ a, o = Some a → plain a ∧ aa_depth a = d) →
  base_stack d (s ++ seen_account o) (push_access o stack).
Proof.
  intros Hb Ho. destruct o as [a|]; simpl; [|by rewrite app_nil_r].
  destruct (Ho a eq_refl) as [[Hs Hk] Ha]. destruct Hb as [[-> ->]|Hb].
  - right. exists a, []. split_and!; [done|done|lia|]. by apply seen_single.
  - right. destruct Hb as (b & rest & -> & Hkb & Hdb & <-). exists b, (rest ++ [a]).
    split_and!; [done|done|done|]. change (b :: rest ++ [a]) with ((b :: rest) ++ [a]).
    rewrite seen_app. f_equal. by apply seen_single.
Qed.

Lemma ext_depth kind e i a : ext_access kind e i = Some a → aa_depth a = ec_depth e.
Proof.
  unfold ext_access. destruct (it_stack i !! 0%nat); [|done]. simpl.
  destruct (account_before _) as [[? ?] ?]. by intros [= <-].
Qed.

Lemma base_ext d s stack kind e i :
  kind ≠ AkResume → ec_depth e = d → base_stack d s stack →
  base_stack d (s ++ seen_account (ext_access kind e i)) (push_access (ext_access kind e i) stack).
Proof.
  intros Hk <- Hb. apply base_push; [done|]. intros a Ha. split; [by eapply ext_plain|by eapply ext_depth].
Qed.

Lemma storage_op_base (o : option StorageAccess) d s stack :
  base_stack d s stack →
  on_last (λ l, (λ x, append_storage_access x d l) <$> o) stack = stack.
Proof.
  intros [[-> _]|(a & rest & -> & _ & Hd & _)]; [done|]. rewrite (on_last_snoc _ [] (a :: rest)); simpl.
  destruct o as [x|]; [|done]. simpl. destruct (last (a :: rest)) eqn:E; [|done].
  by rewrite bool_decide_eq_false_2 by lia.
Qed.

Lemma op_base d s stack e i :
  ec_depth e = d → base_stack d s stack →
  base_stack d (s ++ own_op_seen s e i) (record_state_diffs e i stack).
Proof.
  intros <- Hb. unfold record_state_diffs, own_op_seen, op_seen.
  destruct (it_opcode i); try (by apply base_ext); try by rewrite app_nil_r.
  2,3: rewrite app_nil_r; by erewrite storage_op_base.
  destruct Hb as [[-> ->]|(a & rest & -> & Hk & Hd & Hs)]; [by left|].
  rewrite decide_False by (by eapply base_stack_nonempty; right; eauto 10).
  rewrite (on_last_snoc _ [] (a :: rest)), push_default; simpl. right. exists a, (rest ++ option_list (selfdestruct_access e i)).
  split_and!; [done|done|done|]. rewrite <- Hs.
  apply (seen_push (a :: rest)). apply selfdestruct_plain.
Qed.

Lemma closed_head reverted f `{!Completes f} w rest :
  ∃ a rest', closed reverted f (w :: rest) = a :: rest' ∧ aa_kind a = aa_kind w ∧ aa_depth a = aa_depth w.
Proof.
  unfold closed. destruct reverted; simpl; do 2 eexists; (split; [done|]);
    by rewrite completes_kind, completes_depth.
Qed.

(** A call or creation made by the recording frame. *)
Lemma base_call d s stack body a f reverted :
  base_stack d s stack → Forall (item_wf (S d)) body → (0 < d)%nat →
  plain a → aa_depth a = d → Completes f →
  ∃ inner, run_items body (Some (stack ++ [[a]])) = Some inner ∧
    base_stack d (s ++ revert_if reverted (SeenAccount (f a) :: items_seen body))
      (merge_last reverted f inner).
Proof.
  intros Hb Hwf Hd [Hs Hk] Ha Hf.
  destruct (call_merges body d stack a) as (w & rest & E & Hkw & Hdw & Hc); try done.
  { by apply Forall_forall; intros x _; apply item_grows. }
  eexists. split; [exact E|]. specialize (Hc reverted f Hf).
  destruct (closed_head reverted f w rest) as (b & rest' & Eb & Hkb & Hdb).
  destruct Hb as [[-> ->]|(a0 & rest0 & -> & Hk0 & Hd0 & <-)].
  - simpl. rewrite merge_base. right. exists b, rest'. rewrite <- Eb, Hkb, Hdb, Hdw. split_and!; [done|done|lia|done].
  - rewrite (merge_below _ _ [] (a0 :: rest0)). right. do 2 eexists. split; [done|].
    split_and!; [done|done|]. rewrite <- Hc, <- seen_app. done.
Qed.

Lemma base_leave d s stack f reverted :
  base_stack d s stack → (∀ a, (d ≤ aa_depth a)%nat → f a = a) →
  base_stack d (revert_if reverted s) (merge_last reverted f stack).
Proof.
  intros Hb Hf. destruct Hb as [[-> ->]|(a & rest & -> & Hk & Hd & <-)].
  { left. by destruct reverted. }
  rewrite merge_base, <- seen_marked. right. unfold closed. destruct reverted; simpl; rewrite Hf by done; eauto 10.
Qed.

Lemma complete_call_deep e target d a :
  S (ec_depth e) = d → (d ≤ aa_depth a)%nat → complete_call e target a = a.
Proof. intros Hd Ha. unfold complete_call. by rewrite (proj2 (Nat.eqb_neq _ _)) by lia. Qed.

Lemma complete_create_deep e address d a :
  S (ec_depth e) = d → (d ≤ aa_depth a)%nat → complete_create e address a = a.
Proof. intros Hd Ha. unfold complete_create. by rewrite (proj2 (Nat.eqb_neq _ _)) by lia. Qed.

Lemma leave_step e r f d s stack :
  S (ec_depth e) = d → halted r = false → base_stack d s stack → (∀ a, (d ≤ aa_depth a)%nat → f a = a) →
  base_stack (ec_depth e) (leave_seen e r s)
    (if bool_decide (0 < ec_depth e)%nat then merge_last (result_is_revert r) f stack else stack).
Proof.
  intros Hd Hh Hb Hf. unfold leave_seen. rewrite failed_revert by done. case_bool_decide; simpl.
  - eapply base_stack_le; [by apply base_leave|lia].
  - eapply base_stack_le; [done|lia].
Qed.

Lemma item_base d s stack x :
  item_wf d x → base_stack d s stack →
  ∃ stack', run_item x (Some stack) = Some stack' ∧ base_stack d (base_seen s (BItem x)) stack'.
Proof.
  intros Hwf Hb. destruct x as [e i|e c body e' r|e c body e' a r].
  - eexists. split; [done|]. by apply op_base.
  - apply wf_call_eq in Hwf as (He & He' & Hh & Hd & Hbody). rewrite run_call_eq.
    change (base_seen s (BItem _)) with (s ++ item_seen (ICall e c body e' r)). rewrite seen_call_eq by done.
    destruct (call_access_plain e c) as [Hp Ha]. rewrite He in Ha.
    edestruct (base_call d s stack body (call_access e c) (complete_call e' (ci_target c)) (result_is_revert r))
      as (inner & E & Hi); try done; [apply _|]. exists (merge_last (result_is_revert r) (complete_call e' (ci_target c)) inner).
    simpl. rewrite E. simpl. by rewrite bool_decide_eq_true_2 by lia.
  - apply wf_create_eq in Hwf as (He & He' & Hh & Hd & Hbody). rewrite run_create_eq.
    change (base_seen s (BItem _)) with (s ++ item_seen (ICreate e c body e' a r)). rewrite seen_create_eq by done.
    edestruct (base_call d s stack body (create_access e c) (complete_create e' a) (result_is_revert r))
      as (inner & E & Hi); try done; [apply _|]. exists (merge_last (result_is_revert r) (complete_create e' a) inner).
    simpl. rewrite E. simpl. by rewrite bool_decide_eq_true_2 by lia.
Qed.

Lemma base_run evs d s stack :
  base_wf d evs → base_stack d s stack →
  ∃ d' stack', foldl run_base (Some stack) evs = Some stack' ∧ base_stack d' (foldl base_seen s evs) stack'.
Proof.
  revert d s stack. induction evs as [|ev evs IH]; intros d s stack Hwf Hb; [by exists d, stack|].
  destruct ev as [x|e target r|e address r]; simpl in Hwf; destruct Hwf as [Hd Hwf];
    try destruct Hwf as [Hh Hwf].
  - destruct (item_base d s stack x Hd Hb) as (stack' & E & Hb'). cbn [foldl run_base]. rewrite E. by eapply IH.
  - cbn [foldl run_base]. eapply IH; [done|]. apply (leave_step e r _ d); [done|done|done|].
    intros a. by apply complete_call_deep.
  - cbn [foldl run_base]. eapply IH; [done|]. apply (leave_step e r _ d); [done|done|done|].
    intros a. by apply complete_create_deep.
Qed.

Lemma storages_seen l : seen_storages (seen l) = l ≫= aa_storageAccesses.
Proof.
  unfold seen_storages. induction l as [|a l IH]; [done|]. rewrite seen_cons, omap_app, IH. simpl. f_equal.
  unfold seen_in. rewrite omap_app. case_bool_decide; simpl;
   (induction (aa_storageAccesses a) as [|x xs IHx]; [done|]; simpl; by f_equal).
Qed.


(** ** The diffs *)

Definition balance_changes (addr : Addr) (l : list AccountAccess) : list (Z * Z) :=
  (λ a, (aa_oldBalance a, aa_newBalance a)) <$>
    filter (λ a, aa_oldBalance a ≠ aa_newBalance a ∧ aa_account a = addr) l.

Definition nonce_changes (addr : Addr) (l : list AccountAccess) : list (Z * Z) :=
  (λ a, (aa_oldNonce a, aa_newNonce a)) <$>
    filter (λ a, aa_oldNonce a ≠ aa_newNonce a ∧ aa_account a = addr) l.

Lemma note_from d l :
  foldl note_change (Some d) l =
    Some {| vd_previous := vd_previous d; vd_new := default (vd_new d) (snd <$> last l) |}.
Proof.
  revert d. induction l as [|c l IH]; intros d; [by destruct d|]. simpl. rewrite IH. simpl.
  rewrite last_cons. by destruct (last l).
Qed.

Lemma note_overall l : foldl note_change None l = overall l.
Proof.
  destruct l as [|c l]; [done|]. simpl. rewrite note_from. unfold overall. rewrite last_cons. simpl.
  by destruct (last l).
Qed.

Definition diff_slot (addr : Addr) (slot : Z) (m : gmap Addr AccountStateDiffs) : option ValueDiff :=
  ad_state (default no_diffs (m !! addr)) !! slot.
Definition balance_diff (addr : Addr) (m : gmap Addr AccountStateDiffs) : option ValueDiff :=
  ad_balance (default no_diffs (m !! addr)).
Definition nonce_diff (addr : Addr) (m : gmap Addr AccountStateDiffs) : option ValueDiff :=
  ad_nonce (default no_diffs (m !! addr)).

Lemma default_update addr x f m :
  default no_diffs (update_diffs x f m !! addr) =
    if decide (x = addr) then f (default no_diffs (m !! addr)) else default no_diffs (m !! addr).
Proof.
  unfold update_diffs. destruct (decide (x = addr)) as [->|Hne];
    [by rewrite lookup_insert_eq|by rewrite lookup_insert_ne].
Qed.

Lemma storage_step addr m s :
  balance_diff addr (diff_storage m s) = balance_diff addr m ∧
  nonce_diff addr (diff_storage m s) = nonce_diff addr m ∧
  ∀ slot, diff_slot addr slot (diff_storage m s) =
    foldl note_change (diff_slot addr slot m) (slot_writes addr slot [s]).
Proof.
  assert (∀ slot, slot_writes addr slot [s] =
    if decide (sa_isWrite s = true ∧ sa_reverted s = false ∧ sa_account s = addr ∧ sa_slot s = slot)
    then [(sa_previousValue s, sa_newValue s)] else []) as Hw.
  { intros slot. unfold slot_writes. rewrite filter_cons. by case_decide. }
  setoid_rewrite Hw. clear Hw. unfold diff_storage.
  destruct (sa_isWrite s), (sa_reverted s); cbn [negb andb];
    try (split_and!; [done|done|]; intros slot; by rewrite decide_False by naive_solver).
  unfold balance_diff, nonce_diff, diff_slot. rewrite !default_update.
  split_and!; [by case_decide|by case_decide|]. intros slot.
  case_decide as Ha; [|by rewrite decide_False by naive_solver].
  cbn [ad_state]. destruct (decide (sa_slot s = slot)) as [<-|Hk].
  - rewrite decide_True by done. by rewrite lookup_partial_alter_eq.
  - rewrite decide_False by naive_solver. by rewrite lookup_partial_alter_ne.
Qed.

Lemma changes_app {A B} (f : A → B) (P : A → Prop) `{∀ x, Decision (P x)} l k :
  f <$> filter P (l ++ k) = (f <$> filter P l) ++ (f <$> filter P k).
Proof. by rewrite filter_app, fmap_app. Qed.

Lemma storage_fold addr m l :
  balance_diff addr (foldl diff_storage m l) = balance_diff addr m ∧
  nonce_diff addr (foldl diff_storage m l) = nonce_diff addr m ∧
  ∀ slot, diff_slot addr slot (foldl diff_storage m l) =
    foldl note_change (diff_slot addr slot m) (slot_writes addr slot l).
Proof.
  revert m. induction l as [|s l IH]; intros m; [done|]. cbn [foldl].
  destruct (IH (diff_storage m s)) as (-> & -> & Hs), (storage_step addr m s) as (-> & -> & H1).
  split_and!; [done|done|]. intros slot. rewrite Hs, H1, <- foldl_app. unfold slot_writes.
  by rewrite <- changes_app.
Qed.

Lemma access_diff addr m a :
  balance_diff addr (diff_access m a) = foldl note_change (balance_diff addr m) (balance_changes addr [a]) ∧
  nonce_diff addr (diff_access m a) = foldl note_change (nonce_diff addr m) (nonce_changes addr [a]) ∧
  ∀ slot, diff_slot addr slot (diff_access m a) =
    foldl note_change (diff_slot addr slot m) (slot_writes addr slot (aa_storageAccesses a)).
Proof.
  unfold diff_access. destruct (storage_fold addr (diff_nonce a (diff_balance a m)) (aa_storageAccesses a))
    as (-> & -> & Hs).
  unfold balance_changes, nonce_changes. rewrite !filter_cons, !filter_nil.
  assert (balance_diff addr (diff_nonce a (diff_balance a m)) = balance_diff addr (diff_balance a m) ∧
    nonce_diff addr (diff_balance a m) = nonce_diff addr m ∧
    ∀ slot, diff_slot addr slot (diff_nonce a (diff_balance a m)) = diff_slot addr slot m) as (-> & Hn & Hd).
  { unfold balance_diff, nonce_diff, diff_slot, diff_nonce, diff_balance.
    repeat case_bool_decide; rewrite ?default_update; repeat case_decide; done. }
  split_and!; [| |by intros slot; rewrite Hs, Hd].
  - unfold balance_diff, diff_balance. case_bool_decide; [by rewrite decide_False by naive_solver|].
    rewrite default_update. case_decide; [by rewrite decide_True|by rewrite decide_False by naive_solver].
  - unfold nonce_diff in Hn |- *. unfold diff_nonce. case_bool_decide; [by rewrite decide_False by naive_solver|].
    rewrite default_update.
    case_decide; [rewrite decide_True by done; simpl; by rewrite Hn|by rewrite decide_False by naive_solver].
Qed.

Lemma accesses_diff addr l m :
  balance_diff addr (foldl diff_access m l) = foldl note_change (balance_diff addr m) (balance_changes addr l) ∧
  nonce_diff addr (foldl diff_access m l) = foldl note_change (nonce_diff addr m) (nonce_changes addr l) ∧
  ∀ slot, diff_slot addr slot (foldl diff_access m l) =
    foldl note_change (diff_slot addr slot m) (slot_writes addr slot (l ≫= aa_storageAccesses)).
Proof.
  revert m. induction l as [|a l IH]; intros m; [done|]. cbn [foldl].
  destruct (IH (diff_access m a)) as (-> & -> & Hs), (access_diff addr m a) as (-> & -> & Ha).
  rewrite <- !foldl_app. unfold balance_changes, nonce_changes. rewrite <- !changes_app. split_and!; [done|done|].
  intros slot. rewrite Hs, Ha, <- foldl_app. unfold slot_writes. by rewrite <- changes_app.
Qed.

Lemma unchanged_access m a : ¬ changes_something a → diff_access m a = m.
Proof.
  unfold changes_something, diff_access, diff_nonce, diff_balance. intros H.
  rewrite !bool_decide_eq_true_2 by (apply dec_stable; tauto).
  destruct (aa_storageAccesses a) eqn:E; [done|]. exfalso. apply H. by left.
Qed.

Lemma filtered_diffs l m : foldl diff_access m (filter changes_something l) = foldl diff_access m l.
Proof.
  revert m. induction l as [|a l IH]; intros m; [done|]. rewrite filter_cons. case_decide as Hc; simpl.
  - apply IH.
  - by rewrite unchanged_access.
Qed.

(** the diffs report for every slot of every account the value before its
    first unreverted recorded write and the value of its last one, and nothing
    for a slot without such a write; and for every account the balance and the
    nonce before the first recorded access that changed it and after the last. *)
Theorem recorded_diffs_correct (st : option DiffStack) (addr : Addr) :
  let m := get_recorded_state_diffs st in
  let l := concat (default [] st) in
  (∀ slot, diff_slot addr slot m = overall (slot_writes addr slot (get_storage_accesses st))) ∧
  balance_diff addr m = overall (balance_changes addr l) ∧
  nonce_diff addr m = overall (nonce_changes addr l).
Proof.
  intros m l. unfold m, get_recorded_state_diffs. rewrite filtered_diffs.
  destruct (accesses_diff addr l ∅) as (Hb & Hn & Hs). fold l.
  split_and!; [intros slot; rewrite Hs|rewrite Hb|rewrite Hn]; apply note_overall.
Qed.

(** ** Concrete recordings *)

Definition sd_acc : AccountInfo := {| ai_exists := true; ai_balance := 5; ai_nonce := 1; ai_code := None |}.

(** Every slot holds 7. *)
Definition sd_ecx (d : nat) : Ecx :=
  {| ec_depth := d; ec_chain := {| ci_forkId := 0; ci_chainId := 1 |}; ec_account := λ _, Some sd_acc;
     ec_sload := λ _ _, Some 7; ec_balance := λ _, Some 5 |}.

Definition sd_call (target : Addr) : CallInputs :=
  {| ci_scheme := SchemeCall; ci_caller := 100; ci_target := target; ci_bytecode := target;
     ci_value := 0; ci_input := [] |}.

Definition sd_sstore (d : nat) (target key value : Z) : Item :=
  IOp (sd_ecx d) {| it_target := target; it_opcode := SSTORE; it_stack := [key; value] |}.

Definition sd_frame (d : nat) (target : Addr) (body : list Item) (r : InstructionResult) : Item :=
  ICall (sd_ecx d) (sd_call target) body (sd_ecx d) r.

(** The storage accesses of a recording, by account, slot and mark. *)
Definition sd_storages (st : option DiffStack) : list (Addr * Z * bool) :=
  (λ s, (sa_account s, sa_slot s, sa_reverted s)) <$> get_storage_accesses st.

(** A call that writes, makes a call that writes and reverts, and writes again. *)
Definition sd_events : list BaseEvent :=
  [BItem (sd_frame 1 20 [sd_sstore 2 20 0 1;
                         sd_frame 2 30 [sd_sstore 3 30 0 1] result_revert;
                         sd_sstore 2 20 0 2] result_return)].


Lemma recorded_diffs_example :
  let st' := foldl run_base (start_state_diff_recording None) sd_events in
  diff_slot 20 0 (get_recorded_state_diffs st') = Some {| vd_previous := 7; vd_new := 2 |} ∧
  diff_slot 30 0 (get_recorded_state_diffs st') = None.
Proof. by vm_compute. Qed.

(** A call that halts (out of gas, a failed assertion of an old compiler) has no
    effect either, but its accesses are not marked. *)
Lemma halt_not_marked :
  sd_storages (run_item (sd_frame 1 20 [sd_sstore 2 20 0 1] (Halted 32)) (Some [])) = [(20, 0, false)].
Proof. by vm_compute. Qed.

(** [call_end] returns early for a call whose revert was announced: its vector
    stays on the stack, and its accesses are not marked. *)
Lemma announced_revert_not_marked :
  sd_storages (run_items [sd_sstore 2 20 0 1] (record_call (sd_ecx 1) (sd_call 20) (Some []))) =
    [(20, 0, false)].
Proof. by vm_compute. Qed.

(** A mocked call is answered before it is recorded, but its end is recorded:
    one that reverts marks what its caller did. *)
Lemma mocked_revert_marks_caller :
  sd_storages
    (record_call_end (sd_ecx 2) 30 result_revert
       (run_items [sd_sstore 2 20 0 1] (record_call (sd_ecx 1) (sd_call 20) (Some [])))) =
    [(20, 0, true)].
Proof. by vm_compute. Qed.

(** After a call that resumed, the accesses of the caller are listed with the
    record of the callee. *)
Lemma resumed_for_caller :
  ∃ a, a ∈ (get_state_diff (run_item
      (sd_frame 1 20 [sd_frame 2 30 [sd_frame 3 40 [] result_return; sd_sstore 3 30 0 1] result_return;
                      sd_sstore 2 20 9 1] result_return) (Some []))).1 ∧
    aa_kind a = AkResume ∧ aa_account a = 30 ∧ (sa_account <$> aa_storageAccesses a) = [30; 20].
Proof.
  eexists. split; [|split; [|split]]; [vm_compute; right; right; right; left; reflexivity|..]; done.
Qed.

(** A balance that a reverted call changed is reported as changed, unlike a slot. *)
Lemma reverted_balance_reported :
  let paid := {| ec_depth := 2; ec_chain := {| ci_forkId := 0; ci_chainId := 1 |};
                 ec_account := λ _, Some {| ai_exists := true; ai_balance := 9; ai_nonce := 1; ai_code := None |};
                 ec_sload := λ _ _, None; ec_balance := λ _, None |} in
  let st := run_item (sd_frame 1 20 [ICall (sd_ecx 2) (sd_call 30) [sd_sstore 3 30 0 1] paid result_return]
                        result_revert) (Some []) in
  balance_diff 30 (get_recorded_state_diffs st) = Some {| vd_previous := 5; vd_new := 9 |} ∧
  diff_slot 30 0 (get_recorded_state_diffs st) = None.
Proof. by vm_compute. Qed.
