(* ===== verification/FuzzDict.v ===== *)
(** * The dictionary of the fuzzer (crates/evm/fuzz/src/strategies/state.rs, and
    [ignore_metadata_hash] of crates/common/src/utils.rs)

    The fuzzer draws inputs from values it has seen: accounts, storage and push
    constants of the contracts, logs and results of calls.  Values found during
    a run are removed at its end by cutting the sets back to their length after
    the setup.  Decoding (ABI, CBOR) is code of other crates and a class; the
    identification of typed slots (slot_identifier.rs) is an argument: what is
    stated holds for whatever types it finds. *)

From stdpp Require Import prelude gmap list sorting.
From S2P Require Import Prelude.

Open Scope Z_scope.

(** ** Data *)

Abbreviation Bytes := (list Z).
Abbreviation Address := Z.

(** A log of a call. *)
Record FuzzLog := { fl_topics : list Z; fl_data : Bytes }.

Class FuzzAbi := {
  DynSolType : Type;
  DynSolValue : Type;
  Function : Type;
  Event : Type;
  #[global] dyn_sol_type_eq_dec :: EqDecision DynSolType;
  #[global] dyn_sol_type_countable :: Countable DynSolType;
  as_type : DynSolValue → option DynSolType;
  as_word : DynSolValue → option Z;
  outputs_empty : Function → bool;
  abi_decode_output : Function → Bytes → option (list DynSolValue);
  decode_log : Event → FuzzLog → option (list DynSolValue * list DynSolValue);
  cbor_ok : Bytes → bool
}.

Record FuzzDictionaryConfig := {
  include_storage : bool;
  include_push_bytes : bool;
  max_fuzz_dictionary_addresses : nat;
  max_fuzz_dictionary_values : nat
}.

Section dictionary.
Context `{FuzzAbi}.

(** An [IndexSet] is the list of its elements in the order of insertion. *)
Definition index_insert {A} `{EqDecision A} (x : A) (l : list A) : list A * bool :=
  if decide (x ∈ l) then (l, false) else (l ++ [x], true).

Record FuzzDictionary := {
  state_values : list Z;
  addresses : list Address;
  dict_config : FuzzDictionaryConfig;
  db_state_values : nat;
  db_addresses : nat;
  sample_values : gmap DynSolType (list Z);
  no_zksync_reserved_addresses : bool;
  misses : Z;
  hits : Z
}.

Implicit Types d : FuzzDictionary.

Definition with_values d (values : list Z) (miss hit : Z) : FuzzDictionary :=
  {| state_values := values; addresses := addresses d; dict_config := dict_config d;
     db_state_values := db_state_values d; db_addresses := db_addresses d;
     sample_values := sample_values d; no_zksync_reserved_addresses := no_zksync_reserved_addresses d;
     misses := misses d +w[64] miss; hits := hits d +w[64] hit |}.

Definition with_addresses d (l : list Address) : FuzzDictionary :=
  {| state_values := state_values d; addresses := l; dict_config := dict_config d;
     db_state_values := db_state_values d; db_addresses := db_addresses d;
     sample_values := sample_values d; no_zksync_reserved_addresses := no_zksync_reserved_addresses d;
     misses := misses d; hits := hits d |}.

Definition with_samples d (m : gmap DynSolType (list Z)) : FuzzDictionary :=
  {| state_values := state_values d; addresses := addresses d; dict_config := dict_config d;
     db_state_values := db_state_values d; db_addresses := db_addresses d;
     sample_values := m; no_zksync_reserved_addresses := no_zksync_reserved_addresses d;
     misses := misses d; hits := hits d |}.

(** ** Insertion *)

Definition insert_value d (value : Z) : FuzzDictionary :=
  if (length (state_values d) <? max_fuzz_dictionary_values (dict_config d))%nat then
    let '(values, new_value) := index_insert value (state_values d) in
    if new_value : bool then with_values d values 1 0 else with_values d values 0 1
  else d.

Definition insert_values d (values : list Z) : FuzzDictionary := foldl insert_value d values.

Definition insert_address d (address : Address) : FuzzDictionary :=
  if (length (addresses d) <? max_fuzz_dictionary_addresses (dict_config d))%nat then
    with_addresses d (index_insert address (addresses d)).1
  else d.

Definition insert_sample d (limit : nat) (sample : DynSolValue) : FuzzDictionary :=
  match as_type sample, as_word sample with
  | Some sample_type, Some sample_value =>
      match sample_values d !! sample_type with
      | Some values =>
          if (length values <? limit)%nat then
            with_samples d (<[sample_type := (index_insert sample_value values).1]> (sample_values d))
          else insert_value d sample_value
      | None => with_samples d (<[sample_type := [sample_value]]> (sample_values d))
      end
  | _, _ => d
  end.

Definition insert_sample_values d (samples : list DynSolValue) (limit : nat) : FuzzDictionary :=
  foldl (λ d, insert_sample d limit) d samples.

(** [usize] below the bound of a slice: positions are natural numbers. *)
Definition be_value (l : Bytes) : Z := le_value (rev l).

Definition PUSH_BYTE_ANALYSIS_LIMIT : nat := 24 * 1024.

(** The values of one push constant. *)
Definition push_values (push_value : Z) : list Z :=
  if push_value =? 0 then []
  else [push_value; push_value - 1] ++ (if push_value =? umax 256 then [] else [push_value + 1]).

(** One turn of the loop over the code, from [i]. *)
Definition push_body (code : Bytes) (st : FuzzDictionary * nat) : outcome (flow (FuzzDictionary * nat) FuzzDictionary) :=
  let '(d, i) := st in
  if (i <? length code `min` PUSH_BYTE_ANALYSIS_LIMIT)%nat then
    op ← expect (code !! i);
    if (0x60 <=? op) && (op <=? 0x7f) then
      let push_size := Z.to_nat (op - 0x60 + 1) in
      let push_start := (i + 1)%nat in
      let push_end := (push_start + push_size)%nat in
      if (length code <? push_start)%nat || (length code <? push_end)%nat then Ret (Break d)
      else
        let push_value := be_value (take push_size (drop push_start code)) in
        Ret (Continue (insert_values d (push_values push_value), i + push_size + 1)%nat)
    else Ret (Continue (d, i + 1)%nat)
  else Ret (Break d).

Definition collect_push_bytes d (code : Bytes) : outcome FuzzDictionary :=
  run (S (length code)) (push_body code) (d, 0%nat).

Definition find_metadata_start (bytecode : Bytes) : option nat :=
  if (length bytecode <? 2)%nat then None
  else
    let rest := take (length bytecode - 2) bytecode in
    let metadata_len := Z.to_nat (be_value (drop (length bytecode - 2) bytecode)) in
    if (length rest <? metadata_len)%nat then None
    else if cbor_ok (drop (length rest - metadata_len) rest) then Some (length rest - metadata_len)%nat
    else None.

Definition ignore_metadata_hash (bytecode : Bytes) : Bytes :=
  match find_metadata_start bytecode with
  | Some metadata => take metadata bytecode
  | None => bytecode
  end.

Definition insert_push_bytes_values d (address : Address) (code : option Bytes) : outcome FuzzDictionary :=
  if include_push_bytes (dict_config d) && negb (bool_decide (address ∈ addresses d)) then
    match code with
    | Some code => collect_push_bytes (insert_address d address) (ignore_metadata_hash code)
    | None => Ret d
    end
  else Ret d.

(** [typed] is the type the layout of the contract gives the slot and value. *)
Definition insert_storage_value (typed : option DynSolType) d (slot value : Z) : FuzzDictionary :=
  let d := insert_value d slot in
  match typed with
  | Some t =>
      with_samples d (<[t := (index_insert value (default [] (sample_values d !! t))).1]> (sample_values d))
  | None =>
      let d := insert_value d value in
      let d := if value =? 0 then d else insert_value d (value - 1) in
      if value =? umax 256 then d else insert_value d (value + 1)
  end.

(** ** Sources of values *)

Record FuzzAccount := { fa_code : option Bytes; fa_storage : list (Z * Z) }.

(** What is inserted for an account of the database or of a state change. *)
Definition insert_account (identify : Z → Z → option DynSolType) d (x : Address * FuzzAccount)
    : outcome FuzzDictionary :=
  let '(address, account) := x in
  d ← insert_push_bytes_values (insert_value d address) address (fa_code account);
  Ret (if include_storage (dict_config d) then
         foldl (λ d '(slot, value), insert_storage_value (identify slot value) d slot value) d
           (fa_storage account)
       else d).

(** In the order in which the hash maps of the state changes are traversed. *)
Definition insert_new_state_values (identify : Address → Z → Z → option DynSolType) d
    (changes : list (Address * FuzzAccount)) : outcome FuzzDictionary :=
  foldM (λ d x, insert_account (identify x.1) d x) d changes.

Definition by_key {A} (x y : Z * A) : Prop := x.1 ≤ y.1.

#[local] Instance by_key_dec {A} (x y : Z * A) : Decision (by_key x y).
Proof. unfold by_key. apply _. Defined.

(** Accounts and slots of the database are inserted in order.  [random] is the
    address for an empty database. *)
Definition insert_db_values d (db : gmap Address (option Bytes * gmap Z Z)) (random : Address)
    : outcome FuzzDictionary :=
  let accs := merge_sort by_key (map_to_list db) in
  d ← foldM (λ d '(address, (code, storage)),
        insert_account (λ _ _, None) d
          (address, {| fa_code := code; fa_storage := merge_sort by_key (map_to_list storage) |})) d accs;
  let d := match state_values d with [] => insert_value d random | _ => d end in
  Ret {| state_values := state_values d; addresses := addresses d; dict_config := dict_config d;
         db_state_values := length (state_values d); db_addresses := length (addresses d);
         sample_values := sample_values d;
         no_zksync_reserved_addresses := no_zksync_reserved_addresses d;
         misses := misses d; hits := hits d |}.

Definition dictionary_new (config : FuzzDictionaryConfig) (no_reserved : bool) : FuzzDictionary :=
  insert_value
    {| state_values := []; addresses := []; dict_config := config; db_state_values := 0;
       db_addresses := 0; sample_values := ∅; no_zksync_reserved_addresses := no_reserved;
       misses := 0; hits := 0 |} 0.

Definition fuzz_state_new (db : gmap Address (option Bytes * gmap Z Z)) (config : FuzzDictionaryConfig)
    (no_reserved : bool) (random : Address) : outcome FuzzDictionary :=
  insert_db_values (dictionary_new config no_reserved) db random.

Definition insert_result_values d (function : option Function) (result : Bytes) (run_depth : nat)
    : FuzzDictionary :=
  match function with
  | Some f =>
      if outputs_empty f then d
      else match abi_decode_output f result with
           | Some decoded => insert_sample_values d decoded run_depth
           | None => d
           end
  | None => d
  end.

(** [data.chunks_exact(32)] and its remainder; one turn of fuel per byte. *)
Fixpoint chunks_exact (fuel : nat) (l : Bytes) : list Bytes * Bytes :=
  match fuel with
  | O => ([], l)
  | S fuel =>
      if (32 <=? length l)%nat then
        let '(chunks, rem) := chunks_exact fuel (drop 32 l) in (take 32 l :: chunks, rem)
      else ([], l)
  end.

(** What the data of a log that cannot be decoded consists of. *)
Definition raw_log_values (log : FuzzLog) : list Z :=
  let '(chunks, rem) := chunks_exact (length (fl_data log)) (fl_data log) in
  fl_topics log ++ (be_value <$> chunks) ++
  (match rem with [] => [] | _ => [be_value (rem ++ replicate (32 - length rem) 0)] end).

Definition decode_with (events : list Event) (log : FuzzLog) : option (list DynSolValue) :=
  match list_find (λ e, is_Some (decode_log e log)) events with
  | Some (_, e) => (λ '(indexed, body), indexed ++ body) <$> decode_log e log
  | None => None
  end.

Definition insert_log (abi : option (list Event)) (st : FuzzDictionary * list DynSolValue) (log : FuzzLog)
    : FuzzDictionary * list DynSolValue :=
  let '(d, samples) := st in
  match abi ≫= λ events, decode_with events log with
  | Some decoded => (d, samples ++ decoded)
  | None => (insert_values d (raw_log_values log), samples)
  end.

Definition insert_logs_values d (abi : option (list Event)) (logs : list FuzzLog) (run_depth : nat)
    : FuzzDictionary :=
  let '(d, samples) := foldl (insert_log abi) (d, []) logs in
  insert_sample_values d samples run_depth.

Definition collect_values d (values : list Z) : FuzzDictionary := insert_values d values.

(** [target] is what the fuzzed contracts know about the call. *)
Definition collect_values_from_call d (target : option (list Event) * option Function)
    (identify : Address → Z → Z → option DynSolType) (result : Bytes) (logs : list FuzzLog)
    (changes : list (Address * FuzzAccount)) (run_depth : nat) : outcome FuzzDictionary :=
  let d := insert_logs_values d target.1 logs run_depth in
  let d := insert_result_values d target.2 result run_depth in
  insert_new_state_values identify d changes.

Definition revert d : FuzzDictionary :=
  {| state_values := take (db_state_values d) (state_values d);
     addresses := take (db_addresses d) (addresses d);
     dict_config := dict_config d; db_state_values := db_state_values d; db_addresses := db_addresses d;
     sample_values := sample_values d; no_zksync_reserved_addresses := no_zksync_reserved_addresses d;
     misses := misses d; hits := hits d |}.

(** What a run does with the dictionary. *)
Inductive RunOp : Type :=
| OpCollect (values : list Z)
| OpCall (target : option (list Event) * option Function)
    (identify : Address → Z → Z → option DynSolType) (result : Bytes) (logs : list FuzzLog)
    (changes : list (Address * FuzzAccount)) (run_depth : nat).

Definition run_op d (o : RunOp) : outcome FuzzDictionary :=
  match o with
  | OpCollect values => Ret (collect_values d values)
  | OpCall target identify result logs changes depth =>
      collect_values_from_call d target identify result logs changes depth
  end.
End dictionary.

(** ** Specification *)

(** The sets hold no value twice and stay within the limits. *)
Record dict_wf `{FuzzAbi} (d : FuzzDictionary) : Prop := {
  dw_values : NoDup (state_values d);
  dw_addresses : NoDup (addresses d);
  dw_max_values : (length (state_values d) ≤ max_fuzz_dictionary_values (dict_config d))%nat;
  dw_max_addresses : (length (addresses d) ≤ max_fuzz_dictionary_addresses (dict_config d))%nat
}.

(** What every insertion does: it adds at the end. *)
Record dict_extends `{FuzzAbi} (d d' : FuzzDictionary) : Prop := {
  de_values : state_values d `prefix_of` state_values d';
  de_addresses : addresses d `prefix_of` addresses d';
  de_config : dict_config d' = dict_config d;
  de_db_values : db_state_values d' = db_state_values d;
  de_db_addresses : db_addresses d' = db_addresses d;
  de_wf : dict_wf d → dict_wf d'
}.

Definition full `{FuzzAbi} (d : FuzzDictionary) : Prop :=
  (max_fuzz_dictionary_values (dict_config d) ≤ length (state_values d))%nat.

(** The number of bytes that belong to an instruction besides its opcode. *)
Definition operand_size (op : Z) : nat :=
  if (0x60 <=? op) && (op <=? 0x7f) then Z.to_nat (op - 0x5f) else 0%nat.

(** The starts of the instructions of a code. *)
Inductive instruction_at (code : Bytes) : nat → Prop :=
| instruction_first : instruction_at code 0
| instruction_next i op : instruction_at code i → code !! i = Some op →
    instruction_at code (S i + operand_size op)%nat.

(** The constant of a complete push instruction within the limit. *)
Definition pushes (code : Bytes) (v : Z) : Prop :=
  ∃ i op, instruction_at code i ∧ (i < PUSH_BYTE_ANALYSIS_LIMIT)%nat ∧ code !! i = Some op ∧
    0x60 ≤ op ≤ 0x7f ∧ (S i + Z.to_nat (op - 0x5f) ≤ length code)%nat ∧
    v = be_value (take (Z.to_nat (op - 0x5f)) (drop (S i) code)).

(** ** Insertion adds at the end *)

Section proofs.
Context `{FuzzAbi}.
Implicit Types d : FuzzDictionary.

#[local] Instance extends_preorder : PreOrder dict_extends.
Proof.
  split.
  - by intros d; split.
  - intros d1 d2 d3 [V1 A1 C1 D1 E1 W1] [V2 A2 C2 D2 E2 W2].
    split; [by etrans|by etrans|congruence|congruence|congruence|auto].
Qed.

Lemma index_insert_spec {A} `{EqDecision A} (x : A) l :
  l `prefix_of` (index_insert x l).1 ∧ (NoDup l → NoDup (index_insert x l).1) ∧
  x ∈ (index_insert x l).1 ∧ (length (index_insert x l).1 ≤ S (length l))%nat.
Proof.
  unfold index_insert. destruct (decide (x ∈ l)) as [Hx|Hx]; simpl; [eauto with lia|].
  split_and!; [by eexists| |set_solver|rewrite length_app; simpl; lia].
  intros Hl. apply NoDup_app. split_and!; [done|set_solver|apply NoDup_singleton].
Qed.

Lemma insert_value_eq d v :
  state_values (insert_value d v) =
    (if decide (length (state_values d) < max_fuzz_dictionary_values (dict_config d))%nat
     then (index_insert v (state_values d)).1 else state_values d) ∧
  addresses (insert_value d v) = addresses d ∧ dict_config (insert_value d v) = dict_config d ∧
  db_state_values (insert_value d v) = db_state_values d ∧ db_addresses (insert_value d v) = db_addresses d ∧
  sample_values (insert_value d v) = sample_values d.
Proof.
  unfold insert_value. destruct (Nat.ltb_spec (length (state_values d)) (max_fuzz_dictionary_values (dict_config d)));
    [rewrite decide_True by done|by rewrite decide_False by lia].
  destruct (index_insert v (state_values d)) as [values []]; done.
Qed.

Lemma insert_value_extends d v : dict_extends d (insert_value d v).
Proof.
  destruct (insert_value_eq d v) as (Ev & Ea & Ec & Ed & Ee & _).
  destruct (index_insert_spec v (state_values d)) as (Hp & Hn & _ & Hl).
  split; [rewrite Ev; by case_decide|by rewrite Ea|done|done|done|].
  intros [Wv Wa Wm Wn]. split; rewrite ?Ea, ?Ec, ?Ev; [| |case_decide; lia|]; [|done|done].
  case_decide; auto.
Qed.

Lemma insert_value_in d v : v ∈ state_values (insert_value d v) ∨ full (insert_value d v).
Proof.
  destruct (insert_value_eq d v) as (Ev & _ & Ec & _). unfold full. rewrite Ec, Ev.
  destruct (index_insert_spec v (state_values d)) as (_ & _ & Hi & _). case_decide; [by left|right; lia].
Qed.

(** A set that is full stays so, and keeps what it holds. *)
Lemma extends_keeps d d' v :
  dict_extends d d' → v ∈ state_values d ∨ full d → v ∈ state_values d' ∨ full d'.
Proof.
  intros [Hp _ Hc _ _ _] [Hv|Hf]; [left; by eapply elem_of_prefix|right].
  unfold full in *. rewrite Hc. apply prefix_length in Hp. lia.
Qed.

Lemma insert_values_extends d l : dict_extends d (insert_values d l).
Proof.
  revert d. induction l as [|v l IH]; intros d; [done|]. etrans; [apply insert_value_extends|apply IH].
Qed.

Lemma insert_values_in d l v : v ∈ l → v ∈ state_values (insert_values d l) ∨ full (insert_values d l).
Proof.
  revert d. induction l as [|w l IH]; intros d; [by intros ?%elem_of_nil|]. simpl.
  intros [->|Hv]%elem_of_cons; [|by apply IH].
  eapply extends_keeps; [apply insert_values_extends|apply insert_value_in].
Qed.

Lemma with_samples_extends d m : dict_extends d (with_samples d m).
Proof. split; try done. by intros [? ? ? ?]. Qed.

Lemma insert_address_extends d a : dict_extends d (insert_address d a).
Proof.
  unfold insert_address. destruct (Nat.ltb_spec (length (addresses d)) (max_fuzz_dictionary_addresses (dict_config d)));
    [|done].
  destruct (index_insert_spec a (addresses d)) as (Hp & Hn & _ & Hl).
  split; try done. intros [? ? ? ?]. split; simpl; auto. lia.
Qed.

Lemma insert_sample_extends d limit s : dict_extends d (insert_sample d limit s).
Proof.
  unfold insert_sample. destruct (as_type s), (as_word s); try done.
  destruct (sample_values d !! _); [|apply with_samples_extends].
  destruct (_ <? _)%nat; [apply with_samples_extends|apply insert_value_extends].
Qed.

Lemma foldl_extends {A} (f : FuzzDictionary → A → FuzzDictionary) d l :
  (∀ d x, dict_extends d (f d x)) → dict_extends d (foldl f d l).
Proof. intros Hf. revert d. induction l as [|x l IH]; intros d; [done|]. simpl. etrans; [apply Hf|apply IH]. Qed.

Lemma foldM_extends {A} (f : FuzzDictionary → A → outcome FuzzDictionary) d l :
  (∀ d x, ∃ d', f d x = Ret d' ∧ dict_extends d d') → ∃ d', foldM f d l = Ret d' ∧ dict_extends d d'.
Proof.
  intros Hf. revert d. induction l as [|x l IH]; intros d; [by exists d|]. simpl.
  destruct (Hf d x) as (d1 & -> & H1). rewrite bind_Ret. destruct (IH d1) as (d2 & -> & H2).
  exists d2. split; [done|by etrans].
Qed.

(** ** Push constants *)

Lemma push_step code d i op :
  code !! i = Some op → (i < PUSH_BYTE_ANALYSIS_LIMIT)%nat →
  push_body code (d, i) =
    (if decide (0x60 ≤ op ≤ 0x7f) then
       if decide (S i + Z.to_nat (op - 0x5f) ≤ length code)%nat then
         Ret (Continue (insert_values d (push_values (be_value (take (Z.to_nat (op - 0x5f)) (drop (S i) code)))),
                        S i + Z.to_nat (op - 0x5f))%nat)
       else Ret (Break d)
     else Ret (Continue (d, S i))).
Proof.
  intros Hop Hlim. assert (i < length code)%nat as Hlt by (by eapply lookup_lt_Some).
  unfold push_body. rewrite (proj2 (Nat.ltb_lt _ _)) by lia. rewrite Hop; simpl.
  replace (Z.to_nat (op - 0x60 + 1)) with (Z.to_nat (op - 0x5f)) by (f_equal; lia).
  replace (i + 1)%nat with (S i) by lia.
  destruct (Z.leb_spec 0x60 op), (Z.leb_spec op 0x7f); simpl;
    [rewrite decide_True by lia|by rewrite decide_False by lia..].
  destruct (Nat.ltb_spec (length code) (S i)); [lia|]. simpl.
  destruct (Nat.ltb_spec (length code) (S (i + Z.to_nat (op - 95)))).
  - by rewrite decide_False by lia.
  - rewrite decide_True by lia. do 3 f_equal. lia.
Qed.

Lemma instructions_apart code n i j op :
  (i + j < n)%nat → instruction_at code i → instruction_at code j → (j < i)%nat → code !! j = Some op →
  (S j + operand_size op ≤ i)%nat.
Proof.
  revert i j op. induction n as [|n IH]; intros i j op Hn Hi Hj Hlt Hop; [lia|].
  destruct Hi as [|i0 op0 Hi0 Hop0]; [lia|]. destruct (Nat.lt_trichotomy j i0) as [Hc|[->|Hc]].
  - specialize (IH i0 j op ltac:(lia) Hi0 Hj Hc Hop). lia.
  - rewrite Hop in Hop0. by injection Hop0 as ->.
  - specialize (IH j i0 op0 ltac:(lia) Hj Hi0 Hc Hop0). lia.
Qed.

Lemma operand_push op : 0x60 ≤ op ≤ 0x7f → operand_size op = Z.to_nat (op - 0x5f).
Proof.
  intros Ho. unfold operand_size. by destruct (Z.leb_spec 0x60 op), (Z.leb_spec op 0x7f); simpl; try lia.
Qed.

Lemma operand_other op : ¬ (0x60 ≤ op ≤ 0x7f) → operand_size op = 0%nat.
Proof.
  intros Ho. unfold operand_size. by destruct (Z.leb_spec 0x60 op), (Z.leb_spec op 0x7f); simpl; try lia.
Qed.

(** The constants found before position [i]. *)
Definition pushes_before (code : Bytes) (i : nat) (v : Z) : Prop :=
  ∃ j op, instruction_at code j ∧ (j < i)%nat ∧ (j < PUSH_BYTE_ANALYSIS_LIMIT)%nat ∧ code !! j = Some op ∧
    0x60 ≤ op ≤ 0x7f ∧ (S j + Z.to_nat (op - 0x5f) ≤ length code)%nat ∧
    v = be_value (take (Z.to_nat (op - 0x5f)) (drop (S j) code)).

Lemma pushes_before_pushes code i v : pushes_before code i v → pushes code v.
Proof. intros (j & op & ? & ? & ? & ? & ? & ? & ?). exists j, op. eauto 10. Qed.

(** One step further, at an instruction. *)
Lemma pushes_before_next code i op v :
  instruction_at code i → code !! i = Some op → (i < PUSH_BYTE_ANALYSIS_LIMIT)%nat →
  pushes_before code (S i + operand_size op) v ↔
    pushes_before code i v ∨
    (0x60 ≤ op ≤ 0x7f ∧ (S i + operand_size op ≤ length code)%nat ∧
     v = be_value (take (operand_size op) (drop (S i) code))).
Proof.
  intros Hi Hop Hlim. split.
  - intros (j & opj & Hj & Hji & Hlj & Hoj & Hpj & Hcj & ->).
    destruct (Nat.lt_trichotomy j i) as [Hc|[->|Hc]].
    + left. exists j, opj. eauto 10.
    + right. rewrite Hop in Hoj. injection Hoj as ->. by rewrite operand_push in * by done.
    + pose proof (instructions_apart code (S (j + i)) j i op ltac:(lia) Hj Hi Hc Hop). lia.
  - intros [(j & opj & ? & ? & ? & ? & ? & ? & ?)|(Ho & Hc & ->)].
    + exists j, opj. split_and!; first [done|lia].
    + exists i, op. rewrite operand_push in * by done. split_and!; first [done|lia].
Qed.

(** At the end of the walk nothing is missing. *)
Lemma pushes_before_end code i v :
  (length code `min` PUSH_BYTE_ANALYSIS_LIMIT ≤ i)%nat → pushes_before code i v ↔ pushes code v.
Proof.
  intros Hi. split; [apply pushes_before_pushes|]. intros (j & op & Hj & Hl & Ho & Hp & Hc & ->).
  exists j, op. apply lookup_lt_Some in Ho as Hlo. split_and!; first [done|lia].
Qed.

Lemma pushes_before_cut code i op v :
  instruction_at code i → code !! i = Some op → 0x60 ≤ op ≤ 0x7f →
  (length code < S i + operand_size op)%nat → pushes_before code i v ↔ pushes code v.
Proof.
  intros Hi Hop Hp Hc. split; [apply pushes_before_pushes|]. intros (j & opj & Hj & Hl & Ho & Hpj & Hcj & ->).
  destruct (Nat.lt_trichotomy j i) as [Hji|[->|Hji]].
  - exists j, opj. eauto 10.
  - rewrite Hop in Ho. injection Ho as ->. rewrite operand_push in Hc by done. lia.
  - pose proof (instructions_apart code (S (j + i)) j i op ltac:(lia) Hj Hi Hji Hop).
    apply lookup_lt_Some in Ho. lia.
Qed.

Lemma insert_values_app d l k : insert_values d (l ++ k) = insert_values (insert_values d l) k.
Proof. apply foldl_app. Qed.

(** The walk inserts, for exactly the push constants, their values. *)
Lemma collect_push_spec d code :
  ∃ vs, collect_push_bytes d code = Ret (insert_values d (vs ≫= push_values)) ∧ ∀ v, v ∈ vs ↔ pushes code v.
Proof.
  unfold collect_push_bytes.
  destruct (run_spec
    (λ s : FuzzDictionary * nat, instruction_at code s.2 ∧
       ∃ vs, s.1 = insert_values d (vs ≫= push_values) ∧ ∀ v, v ∈ vs ↔ pushes_before code s.2 v)
    (λ d' : FuzzDictionary, ∃ vs, d' = insert_values d (vs ≫= push_values) ∧ ∀ v, v ∈ vs ↔ pushes code v)
    (λ s, length code - s.2)%nat (push_body code)) with (fuel := S (length code)) (s := (d, 0%nat))
    as (d' & E & vs & -> & Hvs); [| |simpl; lia|by eauto].
  - intros [d1 i] (Hi & vs & E & Hvs). cbn [fst snd] in *.
    destruct (decide (i < length code `min` PUSH_BYTE_ANALYSIS_LIMIT)%nat) as [Hlt|Hge].
    2: { right. unfold push_body. rewrite (proj2 (Nat.ltb_ge _ _)) by lia. eexists. split; [done|].
         exists vs. split; [done|]. intros v. by rewrite Hvs, pushes_before_end by lia. }
    destruct (lookup_lt_is_Some_2 code i) as [op Hop]; [lia|].
    rewrite (push_step code d1 i op Hop) by lia. case_decide as Ho; [rewrite <- operand_push by done; case_decide as Hc|].
    + left. eexists. split; [done|]. split; [|simpl; lia].
      split; [by constructor|]. exists (vs ++ [be_value (take (operand_size op) (drop (S i) code))]). cbn [fst snd].
      split; [by rewrite bind_app, insert_values_app, E; simpl; rewrite app_nil_r|].
      intros v. rewrite pushes_before_next by (done || lia). rewrite elem_of_app, Hvs, list_elem_of_singleton. naive_solver.
    + right. eexists. split; [done|]. exists vs. split; [done|]. intros v. rewrite Hvs.
      eapply pushes_before_cut; [done..|lia].
    + left. eexists. split; [done|]. split; [|simpl; lia]. cbn [fst snd].
      replace (S i) with (S i + operand_size op)%nat by (rewrite operand_other by done; lia).
      split; [by constructor|]. exists vs. split; [done|]. intros v. rewrite Hvs.
      rewrite pushes_before_next by (done || lia). naive_solver.
  - split; [constructor|]. exists []. split; [done|]. intros v. split; [by intros ?%elem_of_nil|].
    intros (j & op & _ & Hj & _). simpl in Hj. lia.
Qed.

(** ** The operations *)

Lemma collect_push_extends d code :
  ∃ d', collect_push_bytes d code = Ret d' ∧ dict_extends d d'.
Proof.
  destruct (collect_push_spec d code) as (vs & E & _). eexists. split; [exact E|]. apply insert_values_extends.
Qed.

Lemma push_bytes_extends d address code :
  ∃ d', insert_push_bytes_values d address code = Ret d' ∧ dict_extends d d'.
Proof.
  unfold insert_push_bytes_values. destruct (_ && _); [|by eexists]. destruct code as [code|]; [|by eexists].
  destruct (collect_push_extends (insert_address d address) (ignore_metadata_hash code)) as (d' & E & He).
  exists d'. split; [done|]. etrans; [apply insert_address_extends|exact He].
Qed.

Lemma storage_value_extends typed d slot value : dict_extends d (insert_storage_value typed d slot value).
Proof.
  unfold insert_storage_value. destruct typed.
  - etrans; [apply insert_value_extends|apply with_samples_extends].
  - set (d1 := insert_value (insert_value d slot) value).
    set (d2 := if value =? 0 then d1 else _).
    assert (dict_extends d d2) as H2.
    { trans d1; [unfold d1; etrans; apply insert_value_extends|].
      unfold d2. destruct (value =? 0); [reflexivity|apply insert_value_extends]. }
    clearbody d2. destruct (value =? umax 256); [exact H2|]. etrans; [exact H2|apply insert_value_extends].
Qed.

Lemma account_extends identify d x :
  ∃ d', insert_account identify d x = Ret d' ∧ dict_extends d d'.
Proof.
  destruct x as [address account]. unfold insert_account.
  destruct (push_bytes_extends (insert_value d address) address (fa_code account)) as (d1 & -> & H1).
  simpl. eexists. split; [done|]. assert (dict_extends d d1) as Hd by (etrans; [apply insert_value_extends|done]).
  destruct (include_storage _); [|done]. etrans; [exact Hd|].
  apply foldl_extends. intros ? [? ?]. apply storage_value_extends.
Qed.

Lemma logs_extend abi logs d run_depth : dict_extends d (insert_logs_values d abi logs run_depth).
Proof.
  unfold insert_logs_values.
  assert (∀ samples, dict_extends d (foldl (insert_log abi) (d, samples) logs).1) as Hl.
  { revert d. induction logs as [|log logs IH]; intros d samples; [done|]. simpl.
    destruct (abi ≫= _); [apply IH|]. etrans; [apply insert_values_extends|apply IH]. }
  specialize (Hl []). destruct (foldl _ _ _) as [d1 samples]. etrans; [exact Hl|].
  apply foldl_extends. intros. apply insert_sample_extends.
Qed.

Lemma result_extends d function result run_depth : dict_extends d (insert_result_values d function result run_depth).
Proof.
  unfold insert_result_values. destruct function as [f|]; [|done].
  destruct (outputs_empty f), (abi_decode_output f result); try done.
  apply foldl_extends. intros. apply insert_sample_extends.
Qed.

Lemma run_op_extends d o : ∃ d', run_op d o = Ret d' ∧ dict_extends d d'.
Proof.
  destruct o as [values|[abi function] identify result logs changes depth]; simpl.
  - eexists. split; [done|apply insert_values_extends].
  - unfold collect_values_from_call, insert_new_state_values; simpl.
    destruct (foldM_extends (λ d x, insert_account (identify x.1) d x)
      (insert_result_values (insert_logs_values d abi logs depth) function result depth) changes) as (d' & E & H').
    { intros. apply account_extends. }
    exists d'. split; [exact E|]. etrans; [|exact H']. etrans; [apply logs_extend|apply result_extends].
Qed.

Lemma run_ops_extend d ops : ∃ d', foldM run_op d ops = Ret d' ∧ dict_extends d d'.
Proof. apply foldM_extends, run_op_extends. Qed.

Lemma run_ops_collect d ops d' values v :
  foldM run_op d ops = Ret d' → OpCollect values ∈ ops → v ∈ values → v ∈ state_values d' ∨ full d'.
Proof.
  intros E (l1 & l2 & ->)%list_elem_of_split Hv. rewrite foldM_app in E.
  destruct (run_ops_extend d l1) as (d1 & E1 & _). rewrite E1, bind_Ret in E. simpl in E.
  destruct (run_ops_extend (insert_values d1 values) l2) as (d2 & E2 & H2).
  unfold collect_values in E. rewrite E2 in E. injection E as <-.
  eapply extends_keeps; [exact H2|]. by apply insert_values_in.
Qed.

Lemma dictionary_new_spec config reserved :
  dict_wf (dictionary_new config reserved) ∧
  ((0 < max_fuzz_dictionary_values config)%nat → state_values (dictionary_new config reserved) = [0]) ∧
  dict_config (dictionary_new config reserved) = config.
Proof.
  unfold dictionary_new. set (d0 := Build_FuzzDictionary _ _ _ _ _ _ _ _ _).
  assert (dict_wf d0) as Hw by (split; simpl; try constructor; lia).
  split_and!; [by apply (insert_value_extends d0 0)| |by apply (insert_value_extends d0 0)].
  intros Hm. destruct (insert_value_eq d0 0) as [-> _]. by rewrite decide_True.
Qed.

(** After the setup the lengths recorded are those of the sets. *)
Lemma fuzz_state_new_spec db config reserved random :
  ∃ d, fuzz_state_new db config reserved random = Ret d ∧ dict_wf d ∧
    db_state_values d = length (state_values d) ∧ db_addresses d = length (addresses d) ∧
    ((0 < max_fuzz_dictionary_values config)%nat → 0 ∈ state_values d) ∧ dict_config d = config.
Proof.
  destruct (dictionary_new_spec config reserved) as (Hw & H0 & Hc).
  unfold fuzz_state_new, insert_db_values. set (d0 := dictionary_new config reserved) in *.
  edestruct (foldM_extends (A := Address * (option Bytes * gmap Z Z))) as (d1 & -> & H1); [intros d [a [code st]]; apply account_extends|].
  simpl. set (d2 := match state_values d1 with [] => _ | _ => d1 end).
  assert (dict_extends d0 d2) as H2.
  { etrans; [exact H1|]. unfold d2. destruct (state_values d1); [apply insert_value_extends|done]. }
  eexists. split; [done|]. destruct (de_wf _ _ H2 Hw) as [? ? ? ?]. split_and!; [by split|done|done| |].
  - intros Hm. simpl. eapply elem_of_prefix; [|apply H2]. rewrite (H0 Hm). set_solver.
  - simpl. rewrite <- Hc. apply H2.
Qed.


(** from the code of a contract, cut at its metadata, the values inserted are
    exactly the constants of its complete push instructions that start within
    the first 24 KiB, other than zero, with their neighbours; walking the code
    ends and never reads beyond it. *)
Theorem push_bytes_correct (d : FuzzDictionary) (code : Bytes) :
  ∃ values, collect_push_bytes d code = Ret (insert_values d values) ∧
    (∀ w, w ∈ values ↔ ∃ v, pushes code v ∧ v ≠ 0 ∧ (w = v ∨ w = v - 1 ∨ (w = v + 1 ∧ v ≠ umax 256))) ∧
    (∀ w, w ∈ values → w ∈ state_values (insert_values d values) ∨ full (insert_values d values)).
Proof.
  destruct (collect_push_spec d code) as (vs & E & Hvs). eexists. split; [exact E|].
  split; [|intros w; apply insert_values_in]. intros w. rewrite list_elem_of_bind.
  assert (∀ v, w ∈ push_values v ↔ v ≠ 0 ∧ (w = v ∨ w = v - 1 ∨ (w = v + 1 ∧ v ≠ umax 256))) as Hpv.
  { intros v. unfold push_values. destruct (Z.eqb_spec v 0); [set_solver|].
    destruct (Z.eqb_spec v (umax 256)); set_solver. }
  setoid_rewrite Hpv. setoid_rewrite Hvs. naive_solver.
Qed.
End proofs.

(** ** Concrete runs *)

#[export] Instance fd_abi : FuzzAbi := {|
  DynSolType := nat; DynSolValue := nat * Z; Function := unit; Event := unit;
  as_type v := Some v.1; as_word v := Some v.2; outputs_empty _ := false;
  abi_decode_output _ b := Some ((λ x, (0%nat, x)) <$> b); decode_log _ _ := None; cbor_ok _ := false
|}.

Definition fd_config (addresses values : nat) : FuzzDictionaryConfig :=
  {| include_storage := true; include_push_bytes := true; max_fuzz_dictionary_addresses := addresses;
     max_fuzz_dictionary_values := values |}.

(** Account 9 runs PUSH1 7, PUSH2 0x0100, and an incomplete PUSH4. *)
Definition fd_db : gmap Address (option Bytes * gmap Z Z) :=
  {[9 := (Some [0x60; 7; 0x61; 1; 0; 0x63; 1], {[3 := 50]})]}.

Lemma setup_example :
  (λ d, (state_values d, addresses d)) <$> fuzz_state_new fd_db (fd_config 10 100) false 0 =
    Ret ([0; 9; 7; 6; 8; 256; 255; 257; 3; 50; 49; 51], [9]).
Proof. by vm_compute. Qed.


(** What a run is told to collect is removed at its end, but a storage value whose
    type is known stays, and there is no limit to those. *)
Lemma typed_values_stay :
  (λ d, (state_values (revert d), sample_values (revert d) !! 1%nat)) <$>
    (fuzz_state_new ∅ (fd_config 10 100) false 0 ≫= λ d,
     foldM run_op d [OpCall (None, None) (λ _ _ _, Some 1%nat) [] []
                       [(9, {| fa_code := None; fa_storage := [(1, 70); (2, 71); (3, 72)] |})] 1]) =
    Ret ([0], Some [70; 71; 72]).
Proof. by vm_compute. Qed.

(** A dictionary at its limit takes no more values; nothing is evicted. *)
Lemma full_takes_nothing :
  (λ d, state_values d) <$> (fuzz_state_new ∅ (fd_config 10 2) false 0 ≫= λ d,
     foldM run_op d [OpCollect [5; 6; 7]]) = Ret [0; 5].
Proof. by vm_compute. Qed.
