(* ===== verification/GasMeter.v ===== *)
(** * Gas metering by cheatcodes ([GasMetering] and its hooks in
    crates/cheatcodes/src/inspector.rs, the cheatcodes in
    crates/cheatcodes/src/evm.rs)

    While metering is paused, the gas of every open frame is kept on a stack and
    put back before each instruction.  A gas snapshot adds up the gas spent
    between the instructions of the frame that started it. *)

From stdpp Require Import prelude gmap list strings sorting.
From S2P Require Import Prelude.

Open Scope Z_scope.

(** ** Data *)

(** revm's [Gas]: what was given, what is left, the refund counter, and the size
    and cost of memory. *)
Record Gas := {
  g_limit : Z;
  g_remaining : Z;
  g_refunded : Z;
  g_words : Z;
  g_expansion_cost : Z
}.

Definition gas_new (limit : Z) : Gas :=
  {| g_limit := limit; g_remaining := limit; g_refunded := 0; g_words := 0; g_expansion_cost := 0 |}.

Definition gas_spent (g : Gas) : Z := g_limit g - g_remaining g.

Record GasRecord := { gr_group : string; gr_name : string; gr_gas_used : Z; gr_depth : nat }.

(** Without the gas of the last call, which these operations do not touch. *)
Record GasMetering := {
  paused : bool;
  touched : bool;
  gm_reset : bool;
  paused_frames : list Gas;
  active_gas_snapshot : option (string * string);
  recording : bool;
  last_gas_used : Z;
  gas_records : list GasRecord
}.

Definition metering_default : GasMetering :=
  {| paused := false; touched := false; gm_reset := false; paused_frames := [];
     active_gas_snapshot := None; recording := false; last_gas_used := 0; gas_records := [] |}.

Implicit Types m : GasMetering.

Definition with_frames m (frames : list Gas) : GasMetering :=
  {| paused := paused m; touched := touched m; gm_reset := gm_reset m; paused_frames := frames;
     active_gas_snapshot := active_gas_snapshot m; recording := recording m;
     last_gas_used := last_gas_used m; gas_records := gas_records m |}.

Definition with_flags m (p t r : bool) (frames : list Gas) : GasMetering :=
  {| paused := p; touched := t; gm_reset := r; paused_frames := frames;
     active_gas_snapshot := active_gas_snapshot m; recording := recording m;
     last_gas_used := last_gas_used m; gas_records := gas_records m |}.

Definition with_records m (active : option (string * string)) (rec : bool) (last : Z)
    (records : list GasRecord) : GasMetering :=
  {| paused := paused m; touched := touched m; gm_reset := gm_reset m; paused_frames := paused_frames m;
     active_gas_snapshot := active; recording := rec; last_gas_used := last; gas_records := records |}.

(** ** Pausing *)

Definition pause_metering m : GasMetering :=
  with_flags m true (touched m) (gm_reset m) (paused_frames m).

Definition resume_metering m : GasMetering :=
  if paused m then with_flags m false true (gm_reset m) []
  else with_flags m (paused m) (touched m) (gm_reset m) [].

Definition reset_metering m : GasMetering := with_flags m false true true [].

(** The start of a frame. *)
Definition meter_initialize m (gas : Gas) : GasMetering :=
  if paused m then with_frames m (paused_frames m ++ [gas]) else m.

(** Before an instruction: the memory of the frame is not paused. *)
Definition meter_gas m (gas : Gas) : GasMetering * Gas :=
  match last (paused_frames m) with
  | Some paused_gas =>
      (m, {| g_limit := g_limit paused_gas; g_remaining := g_remaining paused_gas;
             g_refunded := g_refunded paused_gas; g_words := g_words gas;
             g_expansion_cost := g_expansion_cost gas |})
  | None => (with_frames m (paused_frames m ++ [gas]), gas)
  end.

Definition meter_gas_reset m (gas : Gas) : GasMetering * Gas :=
  (with_flags m (paused m) (touched m) false (paused_frames m), gas_new (g_limit gas)).

Definition meter_step m (gas : Gas) : GasMetering * Gas :=
  let '(m, gas) := if paused m then meter_gas m gas else (m, gas) in
  if gm_reset m then meter_gas_reset m gas else (m, gas).

(** After an instruction; [exits] says that it ends the frame. *)
Definition meter_gas_end m (exits : bool) : GasMetering :=
  if exits then with_frames m (List.removelast (paused_frames m)) else m.

Definition meter_gas_check (gas : Gas) (exits : bool) : Gas :=
  if exits && (gas_spent gas <? (if g_refunded gas <? 0 then 0 else g_refunded gas))
  then gas_new (g_limit gas) else gas.

Definition meter_step_end m (gas : Gas) (exits : bool) : GasMetering * Gas :=
  let m := if paused m then meter_gas_end m exits else m in
  (m, if touched m then meter_gas_check gas exits else gas).

(** ** Snapshots *)

(** One record, at an instruction at [depth] with [spent] gas. *)
Definition record_one (depth : nat) (spent : Z) (st : Z * list GasRecord) (r : GasRecord)
    : Z * list GasRecord :=
  let '(last_used, done) := st in
  if Nat.eqb depth (gr_depth r) then
    let r :=
      if last_used =? 0 then r
      else {| gr_group := gr_group r; gr_name := gr_name r;
              gr_gas_used := gr_gas_used r +s[64] saturating_sub spent last_used;
              gr_depth := gr_depth r |} in
    (spent, done ++ [r])
  else (last_used, done ++ [r]).

(** [acting] says that the interpreter already has an instruction result. *)
Definition meter_gas_record m (depth : nat) (spent : Z) (acting : bool) : GasMetering :=
  if recording m && negb acting then
    let '(last_used, records) := foldl (record_one depth spent) (last_gas_used m, []) (gas_records m) in
    with_records m (active_gas_snapshot m) (recording m) last_used records
  else m.

Inductive SnapshotError : Type :=
| AlreadyStarted (group name : string)
| NotStarted (name group : string).

(** Group and name are those [derive_snapshot_name] gives. *)
Definition start_gas_snapshot m (group name : string) (depth : nat) : result GasMetering SnapshotError :=
  match active_gas_snapshot m with
  | Some (g, n) => Err (AlreadyStarted g n)
  | None =>
      Ok (with_records m (Some (group, name)) true (last_gas_used m)
            (gas_records m ++ [{| gr_group := group; gr_name := name; gr_gas_used := 0; gr_depth := depth |}]))
  end.

(** The cost of the snapshot itself. *)
Definition snapshot_overhead : Z := 171.

(** The values by group and name; the code stores their decimal text. *)
Abbreviation Snapshots := (gmap string (gmap string Z)).

(** Without group and name, those of the active snapshot ([unwrap]). *)
Definition stop_gas_snapshot m (snapshots : Snapshots) (given : option (string * string))
    : outcome (GasMetering * Snapshots * result Z SnapshotError) :=
  '(group, name) ← expect (match given with Some x => Some x | None => active_gas_snapshot m end);
  match List.find (λ r, bool_decide (gr_group r = group ∧ gr_name r = name)) (gas_records m) with
  | Some record =>
      let value := saturating_sub (gr_gas_used record) snapshot_overhead in
      let snapshots := <[group := <[name := value]> (default ∅ (snapshots !! group))]> snapshots in
      let records := filter (λ r, gr_group r ≠ group ∧ gr_name r ≠ name) (gas_records m) in
      let active := if bool_decide (active_gas_snapshot m = Some (group, name)) then None
                    else active_gas_snapshot m in
      Ret (with_records m active false (last_gas_used m) records, snapshots, Ok value)
  | None => Ret (m, snapshots, Err (NotStarted name group))
  end.

(** ** Specification of pausing *)

(** What a frame does: instructions, and calls with the frame they open.  The gas
    before an instruction is what the interpreter has by then; [after] is what
    the instruction leaves. *)
Inductive Instr : Type :=
| INormal (before after : Gas)
| ICalls (before : Gas) (start : Gas) (body : list Instr) (exit_before exit_after : Gas).

Section instr_induction.
Context (P : Instr → Prop).
Context (Hn : ∀ b a, P (INormal b a)).
Context (Hc : ∀ b s body eb ea, Forall P body → P (ICalls b s body eb ea)).

Fixpoint instr_induction (x : Instr) : P x :=
  let go := fix go (l : list Instr) : Forall P l :=
    match l with
    | [] => Forall_nil_2 P
    | y :: l => Forall_cons_2 P y l (instr_induction y) (go l)
    end in
  match x with
  | INormal b a => Hn b a
  | ICalls b s body eb ea => Hc b s body eb ea (go body)
  end.
End instr_induction.

(** The hooks of one instruction; the gas each instruction really runs with is
    collected, with the depth below the frame. *)
Definition hook_step (d : nat) (st : GasMetering * list (nat * Gas)) (before after : Gas) (exits : bool)
    : GasMetering * list (nat * Gas) :=
  let '(m, gas) := meter_step st.1 before in
  ((meter_step_end m after exits).1, st.2 ++ [(d, gas)]).

(** A call: its instruction, the start of the frame, the body, and an instruction
    that ends the frame. *)
Fixpoint run_instr (d : nat) (x : Instr) (st : GasMetering * list (nat * Gas)) : GasMetering * list (nat * Gas) :=
  let fix go (l : list Instr) (st : GasMetering * list (nat * Gas)) : GasMetering * list (nat * Gas) :=
    match l with
    | [] => st
    | y :: l => go l (run_instr (S d) y st)
    end in
  match x with
  | INormal b a => hook_step d st b a false
  | ICalls b s body eb ea =>
      let st := hook_step d st b b false in
      let st := go body (meter_initialize st.1 s, st.2) in
      hook_step (S d) st eb ea true
  end.

Definition run_instrs (d : nat) :=
  fix go (l : list Instr) (st : GasMetering * list (nat * Gas)) : GasMetering * list (nat * Gas) :=
    match l with
    | [] => st
    | y :: l => go l (run_instr d y st)
    end.

(** The gas of a paused frame, whatever its memory. *)
Definition same_gas (g g' : Gas) : Prop :=
  g_limit g' = g_limit g ∧ g_remaining g' = g_remaining g ∧ g_refunded g' = g_refunded g.

(** Every instruction of the frame runs with the gas [g]; those of a frame it
    opens with the gas that frame was given. *)
Fixpoint pinned (d : nat) (g : Gas) (x : Instr) : list (nat * Gas) :=
  match x with
  | INormal _ _ => [(d, g)]
  | ICalls _ s body _ _ =>
      let fix go (l : list Instr) : list (nat * Gas) :=
        match l with
        | [] => []
        | y :: l => pinned (S d) s y ++ go l
        end in
      (d, g) :: go body ++ [(S d, s)]
  end.

Definition pinned_all (d : nat) (g : Gas) (l : list Instr) : list (nat * Gas) := l ≫= pinned d g.

Definition agrees (x y : nat * Gas) : Prop := x.1 = y.1 ∧ same_gas x.2 y.2.

(** ** Proofs *)

Lemma with_frames_id m : with_frames m (paused_frames m) = m.
Proof. by destruct m. Qed.

Lemma run_calls_eq d b s body eb ea st :
  run_instr d (ICalls b s body eb ea) st =
    let st1 := hook_step d st b b false in
    hook_step (S d) (run_instrs (S d) body (meter_initialize st1.1 s, st1.2)) eb ea true.
Proof. done. Qed.

Lemma pinned_calls_eq d g b s body eb ea :
  pinned d g (ICalls b s body eb ea) = (d, g) :: pinned_all (S d) s body ++ [(S d, s)].
Proof. done. Qed.

(** The gas an instruction of a paused frame runs with. *)
Definition kept (g gas : Gas) : Gas :=
  {| g_limit := g_limit g; g_remaining := g_remaining g; g_refunded := g_refunded g;
     g_words := g_words gas; g_expansion_cost := g_expansion_cost gas |}.

Lemma hook_paused d m tr frames g before after exits :
  paused m = true → gm_reset m = false → paused_frames m = frames ++ [g] →
  hook_step d (m, tr) before after exits =
    (if exits then with_frames m frames else m, tr ++ [(d, kept g before)]).
Proof.
  intros Hp Hr Hf. unfold hook_step, meter_step, meter_gas; simpl. rewrite Hp, Hf, last_snoc, Hr; simpl.
  rewrite Hp. destruct exits; simpl; [|done]. by rewrite Hf, List.removelast_last.
Qed.

(** In a paused frame the hooks leave the state as it is, and every instruction
    runs with the gas of its frame. *)
Definition keeps_gas (x : Instr) : Prop := ∀ d m tr frames g,
  paused m = true → gm_reset m = false → paused_frames m = frames ++ [g] →
  ∃ l, run_instr d x (m, tr) = (m, tr ++ l) ∧ Forall2 agrees (pinned d g x) l.

Lemma instrs_keep d body m tr frames g :
  Forall keeps_gas body → paused m = true → gm_reset m = false → paused_frames m = frames ++ [g] →
  ∃ l, run_instrs d body (m, tr) = (m, tr ++ l) ∧ Forall2 agrees (pinned_all d g body) l.
Proof.
  intros Hb Hp Hr Hf. revert tr. induction Hb as [|x body Hx _ IH]; intros tr.
  { exists []. split; [by rewrite app_nil_r|constructor]. }
  destruct (Hx d m tr frames g Hp Hr Hf) as (l1 & E1 & H1). simpl. rewrite E1.
  destruct (IH (tr ++ l1)) as (l2 & E2 & H2). exists (l1 ++ l2).
  split; [by rewrite E2, app_assoc|]. by apply Forall2_app.
Qed.

Lemma agrees_kept d g gas : agrees (d, g) (d, kept g gas).
Proof. by split. Qed.

Lemma instr_keeps x : keeps_gas x.
Proof.
  induction x as [b a|b s body eb ea IH] using instr_induction; intros d m tr frames g Hp Hr Hf.
  - eexists. split; [by simpl; erewrite hook_paused|]. constructor; [apply agrees_kept|constructor].
  - rewrite run_calls_eq, pinned_calls_eq. erewrite hook_paused by done. simpl.
    unfold meter_initialize. rewrite Hp.
    set (m1 := with_frames m (paused_frames m ++ [s])).
    destruct (instrs_keep (S d) body m1 (tr ++ [(d, kept g b)]) (paused_frames m) s) as (l & E & Hl);
      [done|done|done|done|].
    rewrite E. erewrite (hook_paused _ m1 _ (paused_frames m) s) by done.
    eexists. split.
    + f_equal; [by destruct m|]. rewrite <- !app_assoc. reflexivity.
    + simpl. constructor; [apply agrees_kept|]. apply Forall2_app; [done|].
      constructor; [apply agrees_kept|constructor].
Qed.

(** The first instruction after pausing fixes the gas of its frame. *)
Definition gas_before (x : Instr) : Gas := match x with INormal b _ => b | ICalls b _ _ _ _ => b end.

Lemma hook_first d m tr before after :
  paused m = true → gm_reset m = false → paused_frames m = [] →
  hook_step d (m, tr) before after false = hook_step d (with_frames m [before], tr) before after false.
Proof.
  intros Hp Hr Hf. rewrite (hook_paused d (with_frames m [before]) tr [] before) by done.
  unfold hook_step, meter_step, meter_gas; simpl. rewrite Hp, Hf; simpl. rewrite Hr; simpl. rewrite ?Hp; simpl.
  do 3 f_equal. by destruct before.
Qed.

Lemma run_first d m tr x :
  paused m = true → gm_reset m = false → paused_frames m = [] →
  run_instr d x (m, tr) = run_instr d x (with_frames m [gas_before x], tr).
Proof.
  intros Hp Hr Hf. destruct x as [b a|b s body eb ea]; [by apply hook_first|].
  rewrite !run_calls_eq. by rewrite hook_first.
Qed.

(** Once metering is paused, with nothing paused before, every instruction of
    the frame runs with the gas its first one had, and those of every frame
    opened below with the gas that frame was given, however deep calls nest and
    however they end; and [resume] leaves no frame behind. *)
Theorem paused_gas_constant m (x : Instr) (l : list Instr) :
  paused_frames m = [] → gm_reset m = false →
  ∃ m' tr, run_instrs 0 (x :: l) (pause_metering m, []) = (m', tr) ∧
    paused_frames m' = [gas_before x] ∧
    Forall2 agrees (pinned_all 0 (gas_before x) (x :: l)) tr ∧
    paused_frames (resume_metering m') = [] ∧ paused (resume_metering m') = false.
Proof.
  intros Hf Hr. set (m1 := with_frames (pause_metering m) [gas_before x]).
  destruct (instrs_keep 0 (x :: l) m1 [] [] (gas_before x)) as (tr & E & Htr); [|done|done|done|].
  { apply Forall_forall. intros y _. apply instr_keeps. }
  exists m1, tr. split; [|done]. change tr with ([] ++ tr). rewrite <- E.
  change (run_instrs 0 l (run_instr 0 x (pause_metering m, [])) = run_instrs 0 l (run_instr 0 x (m1, []))).
  by rewrite run_first.
Qed.

(** *** Snapshots *)

(** Instructions while a snapshot runs: depth, gas spent, and whether the
    interpreter is already returning. *)
Definition record_steps m (steps : list (nat * Z * bool)) : GasMetering :=
  foldl (λ m '(d, spent, acting), meter_gas_record m d spent acting) m steps.

(** What the frame at [depth] had spent, instruction by instruction. *)
Definition own_spent (depth : nat) (steps : list (nat * Z * bool)) : list Z :=
  omap (λ '(d, spent, acting), if bool_decide (d = depth ∧ acting = false) then Some spent else None) steps.

(** From the first to the last. *)
Definition span (l : list Z) : Z :=
  match l, last l with first :: _, Some final => final - first | _, _ => 0 end.

Lemma span_snoc l x y : last l = Some x → span (l ++ [y]) = span l + (y - x).
Proof.
  intros Hl. destruct l as [|z l]; [done|]. unfold span. rewrite Hl.
  change ((z :: l) ++ [y]) with (z :: (l ++ [y])). cbv beta iota.
  change (z :: (l ++ [y])) with ((z :: l) ++ [y]). rewrite last_snoc. lia.
Qed.

Lemma span_bounds l :
  StronglySorted Z.le l → Forall (λ s, 0 < s < 2 ^ 64) l → 0 ≤ span l < 2 ^ 64.
Proof.
  intros Hs Hb. unfold span. destruct l as [|x l]; [lia|].
  destruct (last (x :: l)) as [y|] eqn:E; [|lia].
  assert (y ∈ x :: l) as Hy by by apply last_Some_elem_of.
  rewrite Forall_forall in Hb. pose proof (Hb x ltac:(by left)). pose proof (Hb y Hy).
  apply StronglySorted_inv in Hs as [_ Hx]. rewrite Forall_forall in Hx.
  apply elem_of_cons in Hy as [->|Hy]; [lia|]. specialize (Hx y Hy). lia.
Qed.

(** The state of the meter after the steps [own] of the frame. *)
Definition measured (group name : string) (depth : nat) (own : list Z) m : Prop :=
  recording m = true ∧ active_gas_snapshot m = Some (group, name) ∧
  last_gas_used m = default 0 (last own) ∧
  gas_records m = [{| gr_group := group; gr_name := name; gr_gas_used := span own; gr_depth := depth |}].

Lemma measured_step group name depth own m d spent acting :
  measured group name depth own m → StronglySorted Z.le (own ++ own_spent depth [(d, spent, acting)]) →
  Forall (λ s, 0 < s < 2 ^ 64) (own ++ own_spent depth [(d, spent, acting)]) →
  measured group name depth (own ++ own_spent depth [(d, spent, acting)]) (meter_gas_record m d spent acting).
Proof.
  intros (Hr & Ha & Hl & Hg) Hs Hb. unfold meter_gas_record. rewrite Hr. unfold own_spent in *; simpl in *.
  destruct acting; simpl.
  { rewrite bool_decide_eq_false_2 in * by naive_solver. simpl in *. by rewrite app_nil_r. }
  rewrite Hg, Hl. simpl. destruct (Nat.eqb_spec d depth) as [->|Hd].
  2: { rewrite bool_decide_eq_false_2 in * by naive_solver. simpl in *. rewrite app_nil_r.
       unfold measured; simpl. by rewrite Ha. }
  rewrite bool_decide_eq_true_2 in * by done. simpl in *.
  destruct (last own) as [x|] eqn:Ex; simpl.
  - apply Forall_app in Hb as [Hb Hspent].
    assert (x ∈ own) as Hx by by apply last_Some_elem_of.
    pose proof (proj1 (Forall_forall _ _) Hb x Hx) as Hpx. simpl in Hpx.
    destruct (Z.eqb_spec x 0); [lia|].
    assert (x ≤ spent) as Hle.
    { eapply StronglySorted_app_1_elem_of; [exact Hs|done|set_solver]. }
    assert (0 ≤ span (own ++ [spent]) < 2 ^ 64) as Hspan.
    { apply span_bounds; [done|]. apply Forall_app. by split. }
    rewrite (span_snoc own x) in Hspan by done.
    unfold measured; simpl. rewrite Ha, last_snoc, (span_snoc own x) by done. split_and!; [done|done|done|]. do 2 f_equal.
    unfold saturating_add, saturating_sub, umax. lia.
  - apply last_None in Ex as ->. simpl. unfold measured; simpl. rewrite Ha. split_and!; [done|done|done|].
    do 2 f_equal. unfold span; simpl. lia.
Qed.

Lemma own_spent_cons depth step steps : own_spent depth (step :: steps) = own_spent depth [step] ++ own_spent depth steps.
Proof. unfold own_spent. simpl. destruct step as [[d s] a]. by destruct (bool_decide _). Qed.

Lemma measured_run group name depth own m steps :
  measured group name depth own m → StronglySorted Z.le (own ++ own_spent depth steps) →
  Forall (λ s, 0 < s < 2 ^ 64) (own ++ own_spent depth steps) →
  measured group name depth (own ++ own_spent depth steps) (record_steps m steps).
Proof.
  revert own m. induction steps as [|[[d s] a] steps IH]; intros own m Hm Hs Hb; [by rewrite app_nil_r in *|].
  rewrite own_spent_cons, app_assoc in *. simpl. apply IH; [|done|done].
  apply measured_step; [done| |].
  - by eapply StronglySorted_app_1_l.
  - by apply Forall_app in Hb as [? _].
Qed.

(** The first snapshot of a test reports what its frame spent from its first
    to its last instruction, less the overhead, however deep the calls in
    between go; it is stored under its name and group, and afterwards another
    snapshot can be started. *)
Theorem gas_snapshot_correct m (snapshots : Snapshots) (group name : string) (depth : nat)
    (steps : list (nat * Z * bool)) :
  last_gas_used m = 0 → gas_records m = [] → active_gas_snapshot m = None →
  StronglySorted Z.le (own_spent depth steps) → Forall (λ s, 0 < s < 2 ^ 64) (own_spent depth steps) →
  ∃ m1 m2 snapshots', start_gas_snapshot m group name depth = Ok m1 ∧
    let value := Z.max (span (own_spent depth steps) - snapshot_overhead) 0 in
    stop_gas_snapshot (record_steps m1 steps) snapshots None = Ret (m2, snapshots', Ok value) ∧
    (snapshots' !! group ≫= λ g, g !! name) = Some value ∧
    (∀ g n, (g, n) ≠ (group, name) → (snapshots' !! g ≫= λ x, x !! n) = (snapshots !! g ≫= λ x, x !! n)) ∧
    gas_records m2 = [] ∧ recording m2 = false ∧ active_gas_snapshot m2 = None.
Proof.
  intros Hl Hr Ha Hs Hb. unfold start_gas_snapshot. rewrite Ha. set (m1 := with_records _ _ _ _ _). exists m1.
  assert (measured group name depth (own_spent depth steps) (record_steps m1 steps)) as (Mr & Ma & Ml & Mg).
  { apply (measured_run group name depth []); [|done|done]. unfold measured, m1; simpl. by rewrite Hl, Hr. }
  remember (record_steps m1 steps) as m' eqn:Em. clear Em.
  unfold stop_gas_snapshot. rewrite Ma. cbn [expect]. rewrite bind_Ret, Mg. simpl.
  rewrite !bool_decide_eq_true_2 by done. do 2 eexists. split; [done|]. split; [done|].
  simpl. split_and!.
  - rewrite lookup_insert_eq; simpl. by rewrite lookup_insert_eq.
  - intros g n Hne. destruct (decide (g = group)) as [->|Hg].
    + rewrite lookup_insert_eq; simpl. rewrite lookup_insert_ne by naive_solver.
      by destruct (snapshots !! group); simpl; [|rewrite lookup_empty].
    + by rewrite lookup_insert_ne.
  - rewrite filter_cons_False by naive_solver. apply filter_nil.
  - done.
  - done.
Qed.

(** ** Concrete runs *)

Definition gm_gas (remaining : Z) : Gas :=
  {| g_limit := 1000; g_remaining := remaining; g_refunded := 0; g_words := 0; g_expansion_cost := 0 |}.

(** Two instructions, and a call whose frame starts with 500 gas. *)
Lemma paused_gas_constant_witness :
  let body := [ICalls (gm_gas 880) (gm_gas 500) [INormal (gm_gas 500) (gm_gas 400)] (gm_gas 400) (gm_gas 390)] in
  ∃ m' tr, run_instrs 0 (INormal (gm_gas 900) (gm_gas 880) :: body) (pause_metering metering_default, []) = (m', tr) ∧
    (g_remaining ∘ snd <$> tr) = [900; 900; 500; 500].
Proof.
  destruct (paused_gas_constant metering_default (INormal (gm_gas 900) (gm_gas 880))
    [ICalls (gm_gas 880) (gm_gas 500) [INormal (gm_gas 500) (gm_gas 400)] (gm_gas 400) (gm_gas 390)])
    as (m' & tr & E & _); [reflexivity|reflexivity|].
  exists m', tr. split; [exact E|]. vm_compute in E. injection E as <- <-. reflexivity.
Defined.

Lemma gas_snapshot_correct_witness :
  let steps := [(1%nat, 100, false); (2%nat, 7, false); (1%nat, 900, false)] in
  ∃ m1 m2 snapshots, start_gas_snapshot metering_default "g" "a" 1 = Ok m1 ∧
    stop_gas_snapshot (record_steps m1 steps) ∅ None = Ret (m2, snapshots, Ok 629).
Proof.
  destruct (gas_snapshot_correct metering_default ∅ "g" "a" 1
    [(1%nat, 100, false); (2%nat, 7, false); (1%nat, 900, false)]) as (m1 & m2 & sn & E1 & E2 & _);
    [reflexivity|reflexivity|reflexivity| | |].
  - change (StronglySorted Z.le [100; 900]). repeat (constructor; try lia).
  - change (Forall (λ s, 0 < s < 2 ^ 64) [100; 900]). repeat (constructor; try lia).
  - exists m1, m2, sn. split; [exact E1|exact E2].
Defined.

(** The gas of the last recorded instruction is not reset: a second snapshot also
    counts what was spent between the two. *)
Definition snapshot_value m (name : string) (steps : list (nat * Z * bool)) : outcome (GasMetering * result Z SnapshotError) :=
  match start_gas_snapshot m "g" name 1 with
  | Ok m1 => '(m2, _, r) ← stop_gas_snapshot (record_steps m1 steps) ∅ None; Ret (m2, r)
  | Err e => Ret (m, Err e)
  end.

Lemma second_snapshot_counts_gap :
  snd <$> snapshot_value metering_default "a" [(1%nat, 9300, false); (1%nat, 9500, false)] = Ret (Ok 29) ∧
  snd <$> ('(m, _) ← snapshot_value metering_default "a" [(1%nat, 100, false); (1%nat, 300, false)];
           snapshot_value m "b" [(1%nat, 9300, false); (1%nat, 9500, false)]) = Ret (Ok 9029).
Proof. by vm_compute. Qed.

(** Stopping without an active snapshot and without a name panics. *)
Lemma stop_without_snapshot_panics sn : stop_gas_snapshot metering_default sn None = Panic.
Proof. done. Qed.
