(* ===== verification/SafeMemory.v ===== *)
(** * Safe memory ([expectSafeMemory] of crates/cheatcodes/src/test/expect.rs and
    [check_mem_opcodes] of crates/cheatcodes/src/inspector.rs)

    A test names the ranges of memory the code at a depth may change; before each
    instruction the inspector compares the memory it writes, or expands, with
    these ranges and fails the test if it lies outside. *)

From stdpp Require Import prelude gmap list.
From S2P Require Import Prelude.

Open Scope Z_scope.

(** ** The ranges *)

(** [Range<u64>], the end excluded. *)
Record MemRange := { mr_start : Z; mr_end : Z }.

Definition range_contains (r : MemRange) (x : Z) : bool := (mr_start r <=? x) && (x <? mr_end r).

Abbreviation MemWrites := (gmap Z (list MemRange)).

Definition expect_safe_memory (allowed : MemWrites) (start stop depth : Z) : result MemWrites (Z * Z) :=
  if start <? stop then
    let offsets := default [{| mr_start := 0; mr_end := 0x60 |}] (allowed !! depth) in
    Ok (<[depth := offsets ++ [{| mr_start := start; mr_end := stop |}]]> allowed)
  else Err (start, stop).

(** The cheatcodes, called at [depth]. *)
Definition expect_safe_memory_here (allowed : MemWrites) (min max depth : Z) := expect_safe_memory allowed min max depth.
Definition expect_safe_memory_call (allowed : MemWrites) (min max depth : Z) :=
  expect_safe_memory allowed min max (depth + 1).
Definition stop_expect_safe_memory (allowed : MemWrites) (depth : Z) : MemWrites := delete depth allowed.

(** ** The check *)

Inductive MemOpcode : Type :=
| MSTORE | MSTORE8 | MLOAD | CALL
| CALLDATACOPY | CODECOPY | RETURNDATACOPY | EXTCODECOPY | CALLCODE | STATICCALL | DELEGATECALL
| KECCAK256 | LOG0 | LOG1 | LOG2 | LOG3 | LOG4 | CREATE | CREATE2 | RETURN | REVERT
| OtherMemOpcode.

(** The table of the macro: the places of offset and size on the stack, and
    whether the memory is written. *)
Definition mem_table (o : MemOpcode) : option (nat * nat * bool) :=
  match o with
  | CALLDATACOPY | CODECOPY | RETURNDATACOPY => Some (0, 2, true)
  | EXTCODECOPY => Some (1, 3, true)
  | CALLCODE => Some (5, 6, true)
  | STATICCALL | DELEGATECALL => Some (4, 5, true)
  | KECCAK256 | LOG0 | LOG1 | LOG2 | LOG3 | LOG4 => Some (0, 1, false)
  | CREATE | CREATE2 => Some (1, 2, false)
  | RETURN | REVERT => Some (0, 1, false)
  | _ => None
  end%nat.

(** The interpreter before an instruction: the stack, top first, the size of the
    memory and its slices by offset and length; a slice outside of it panics. *)
Record MemInterp := {
  mi_opcode : MemOpcode;
  mi_stack : list Z;
  mi_size : Z;
  mi_slice : Z → Z → option (list Z)
}.

Inductive MemVerdict : Type := MemAllowed | MemDisallowed (dest_offset size : Z).

Definition saturating_to (w x : Z) : Z := Z.min x (umax w).

(** [range.contains(&offset) && range.contains(&(offset + len))] for some range;
    the sum wraps around. *)
Definition in_ranges (ranges : list MemRange) (offset last : Z) : bool :=
  existsb (λ r, range_contains r offset && range_contains r last) ranges.

Section check.
Context (stop_selector : list Z) (CHEATCODE_ADDRESS : Z).

(** The first four bytes; a slice that is shorter panics. *)
Definition selector_of (data : list Z) : outcome (list Z) :=
  if (length data <? 4)%nat then Panic else Ret (take 4 data).

(** A call of [stopExpectSafeMemory] may read its arguments from anywhere. *)
Definition stops_by_call (i : MemInterp) : outcome bool :=
  match mi_stack i !! 1%nat with
  | None => Ret true                    (* the check returns *)
  | Some to =>
      if to mod 2 ^ 160 =? CHEATCODE_ADDRESS then
        match mi_stack i !! 3%nat, mi_stack i !! 4%nat with
        | Some args_offset, Some args_size =>
            memory_word ← expect (mi_slice i (saturating_to 64 args_offset) (saturating_to 64 args_size));
            s ← selector_of memory_word;
            Ret (bool_decide (s = stop_selector))
        | _, _ => Ret true
        end
      else Ret false
  end.

Definition check_call (ranges : list MemRange) (i : MemInterp) : outcome MemVerdict :=
  match mi_stack i !! 5%nat, mi_stack i !! 6%nat with
  | Some dest, Some size =>
      let dest_offset := saturating_to 64 dest in
      let size := saturating_to 64 size in
      if in_ranges ranges dest_offset (dest_offset +w[64] saturating_sub size 1) then Ret MemAllowed
      else
        stops ← stops_by_call i;
        Ret (if stops : bool then MemAllowed else MemDisallowed dest_offset size)
  | _, _ => Ret MemAllowed
  end.

Definition check_region (ranges : list MemRange) (i : MemInterp) (offset_depth size_depth : nat) (writes : bool)
    : MemVerdict :=
  match mi_stack i !! offset_depth, mi_stack i !! size_depth with
  | Some dest, Some size =>
      let dest_offset := saturating_to 64 dest in
      let size := saturating_to 64 size in
      let expands := (mi_size i <=? dest_offset) ||
                     (mi_size i <=? saturating_sub (dest_offset +w[64] size) 1) in
      if negb (in_ranges ranges dest_offset (dest_offset +w[64] saturating_sub size 1)) && (writes || expands)
      then MemDisallowed dest_offset size
      else MemAllowed
  | _, _ => MemAllowed
  end.

(** [SELECTOR_LEN] bytes of the word that is stored. *)
Definition word_selector (value : Z) : list Z := take 4 (be_bytes 32 value).

Definition check_mem_opcodes (allowed : MemWrites) (depth : Z) (i : MemInterp) : outcome MemVerdict :=
  match allowed !! depth with
  | None => Ret MemAllowed
  | Some ranges =>
      match mi_opcode i with
      | MSTORE =>
          match mi_stack i !! 0%nat with
          | None => Ret MemAllowed
          | Some w =>
              let offset := saturating_to 64 w in
              if in_ranges ranges offset (offset +w[64] 31) then Ret MemAllowed
              else match mi_stack i !! 1%nat with
                   | None => Ret MemAllowed
                   | Some value =>
                       Ret (if bool_decide (word_selector value = stop_selector) then MemAllowed
                            else MemDisallowed offset 32)
                   end
          end
      | MSTORE8 =>
          Ret (match mi_stack i !! 0%nat with
               | None => MemAllowed
               | Some w =>
                   let offset := saturating_to 64 w in
                   if existsb (λ r, range_contains r offset) ranges then MemAllowed
                   else MemDisallowed offset 1
               end)
      | MLOAD =>
          Ret (match mi_stack i !! 0%nat with
               | None => MemAllowed
               | Some w =>
                   let offset := saturating_to 64 w in
                   if (mi_size i <=? offset) && negb (in_ranges ranges offset (offset +w[64] 31))
                   then MemDisallowed offset 32 else MemAllowed
               end)
      | CALL => check_call ranges i
      | o =>
          match mem_table o with
          | Some (offset_depth, size_depth, writes) =>
              Ret (check_region ranges i offset_depth size_depth writes)
          | None => Ret MemAllowed
          end
      end
  end.

(** ** Specification *)

(** The memory an instruction writes, other than by a call: offset and length. *)
Definition writes_memory (i : MemInterp) : option (Z * Z) :=
  match mi_opcode i with
  | MSTORE => offset ← mi_stack i !! 0%nat; Some (offset, 32)
  | MSTORE8 => offset ← mi_stack i !! 0%nat; Some (offset, 1)
  | CALL => dest ← mi_stack i !! 5%nat; size ← mi_stack i !! 6%nat; Some (dest, size)
  | o => '(p, q, writes) ← mem_table o;
         if writes : bool then dest ← mi_stack i !! p; size ← mi_stack i !! q; Some (dest, size) else None
  end.

(** Every byte lies in one allowed range. *)
Definition covered (ranges : list MemRange) (offset len : Z) : Prop :=
  ∃ r, r ∈ ranges ∧ ∀ x, offset ≤ x < offset + len → mr_start r ≤ x < mr_end r.

Definition ends_expectation (i : MemInterp) : Prop :=
  match mi_opcode i with
  | MSTORE => ∃ value, mi_stack i !! 1%nat = Some value ∧ word_selector value = stop_selector
  | CALL => stops_by_call i = Ret true
  | _ => False
  end.

Lemma in_ranges_covered ranges offset len :
  0 ≤ offset → 0 < len → offset + len ≤ 2 ^ 64 →
  in_ranges ranges offset (offset +w[64] (len - 1)) = true ↔ covered ranges offset len.
Proof.
  intros Ho Hl Hb. unfold in_ranges, covered. rewrite wrap_small by (unfold is_u, umax; lia).
  rewrite existsb_exists. setoid_rewrite <- list_elem_of_In. unfold range_contains. split.
  - intros (r & Hr & Hc). exists r. split; [done|]. intros x Hx.
    apply andb_true_iff in Hc as [[?%Z.leb_le ?%Z.ltb_lt]%andb_true_iff [?%Z.leb_le ?%Z.ltb_lt]%andb_true_iff]. lia.
  - intros (r & Hr & Hc). exists r. split; [done|].
    pose proof (Hc offset). pose proof (Hc (offset + (len - 1))).
    rewrite !andb_true_iff, !Z.leb_le, !Z.ltb_lt. lia.
Qed.

Lemma contains_covered ranges offset :
  existsb (λ r, range_contains r offset) ranges = true ↔ covered ranges offset 1.
Proof.
  unfold covered. rewrite existsb_exists. setoid_rewrite <- list_elem_of_In. unfold range_contains. split.
  - intros (r & Hr & [?%Z.leb_le ?%Z.ltb_lt]%andb_true_iff). exists r. split; [done|]. lia.
  - intros (r & Hr & Hc). exists r. split; [done|]. pose proof (Hc offset). rewrite andb_true_iff, Z.leb_le, Z.ltb_lt. lia.
Qed.

Lemma saturating_to_small x : 0 ≤ x < 2 ^ 64 → saturating_to 64 x = x.
Proof. unfold saturating_to, umax. lia. Qed.

Lemma region_verdict ranges i p q dest size :
  mi_stack i !! p = Some dest → mi_stack i !! q = Some size → 0 ≤ dest → 0 < size → dest + size < 2 ^ 64 →
  check_region ranges i p q true = MemAllowed ↔ covered ranges dest size.
Proof.
  intros Ed Es Hd Hs Hb. unfold check_region. rewrite Ed, Es, !saturating_to_small by lia.
  rewrite <- in_ranges_covered by lia. unfold saturating_sub. rewrite (Z.max_l (size - 1) 0) by lia.
  destruct (in_ranges ranges dest (dest +w[64] (size - 1))); by simpl.
Qed.

Lemma stops_by_call_runs i : stops_by_call i ≠ OutOfFuel.
Proof.
  unfold stops_by_call, selector_of.
  destruct (mi_stack i !! 1%nat) as [to|]; [|done]. destruct (_ =? _); [|done].
  destruct (mi_stack i !! 3%nat), (mi_stack i !! 4%nat); try done.
  destruct (mi_slice i _ _) as [data|]; [|done]. simpl. by destruct (_ <? _)%nat.
Qed.

Lemma call_verdict ranges i dest size :
  mi_stack i !! 5%nat = Some dest → mi_stack i !! 6%nat = Some size →
  0 ≤ dest → 0 < size → dest + size < 2 ^ 64 → stops_by_call i ≠ Panic →
  ∃ v, check_call ranges i = Ret v ∧
    (v = MemAllowed ↔ covered ranges dest size ∨ stops_by_call i = Ret true).
Proof.
  intros Ed Es Hd Hs Hb Hp. unfold check_call. rewrite Ed, Es, !saturating_to_small by lia.
  pose proof (in_ranges_covered ranges dest size Hd Hs) as Hc. specialize (Hc ltac:(lia)).
  unfold saturating_sub. rewrite (Z.max_l (size - 1) 0) by lia.
  destruct (in_ranges ranges dest (dest +w[64] (size - 1))); [by eexists; split; [|naive_solver]|].
  pose proof (stops_by_call_runs i). destruct (stops_by_call i) as [[]| |]; [| |done..]; eexists; (split; [done|]); naive_solver.
Qed.

Lemma mstore_verdict allowed depth ranges i dest value :
  allowed !! depth = Some ranges → mi_opcode i = MSTORE →
  mi_stack i !! 0%nat = Some dest → mi_stack i !! 1%nat = Some value → 0 ≤ dest → dest + 32 < 2 ^ 64 →
  ∃ v, check_mem_opcodes allowed depth i = Ret v ∧
    (v = MemAllowed ↔ covered ranges dest 32 ∨ word_selector value = stop_selector).
Proof.
  intros Ea Eo E0 E1 Hd Hb. unfold check_mem_opcodes. rewrite Ea, Eo, E0, E1. cbv zeta.
  rewrite !saturating_to_small by lia.
  pose proof (in_ranges_covered ranges dest 32 Hd) as Hc. specialize (Hc ltac:(lia) ltac:(lia)). change (32 - 1) with 31 in Hc.
  destruct (in_ranges ranges dest (dest +w[64] 31)); [by eexists; split; [|naive_solver]|].
  eexists. split; [done|]. case_bool_decide; naive_solver.
Qed.

(** An instruction that writes at least one byte of memory, below 2^64, passes the
    check exactly when what it writes lies in one of the ranges allowed at its
    depth, or it belongs to the call that ends the expectation. *)
Theorem safe_memory_correct (allowed : MemWrites) (depth : Z) (i : MemInterp) (ranges : list MemRange) (dest size : Z) :
  allowed !! depth = Some ranges → writes_memory i = Some (dest, size) →
  0 ≤ dest → 0 < size → dest + size < 2 ^ 64 → (1 < length (mi_stack i))%nat → stops_by_call i ≠ Panic →
  ∃ v, check_mem_opcodes allowed depth i = Ret v ∧
    (v = MemAllowed ↔ covered ranges dest size ∨ ends_expectation i).
Proof.
  intros Ea Hw Hd Hs Hb Hlen Hnp. unfold writes_memory in Hw. unfold ends_expectation.
  destruct (mi_opcode i) eqn:Eo; simpl in Hw; try done;
    simplify_option_eq;
    try (unfold check_mem_opcodes; rewrite Ea, Eo; eexists; split; [done|];
         rewrite (region_verdict _ _ _ _ dest size) by done; naive_solver).
  - destruct (lookup_lt_is_Some_2 (mi_stack i) 1) as [value E1]; [lia|]. rewrite E1.
    destruct (mstore_verdict allowed depth ranges i dest value) as (v & -> & Hv); try done.
    exists v. split; [done|]. rewrite Hv. naive_solver.
  - unfold check_mem_opcodes; rewrite Ea, Eo. simplify_option_eq. eexists. split; [done|].
    rewrite <- contains_covered, !saturating_to_small by lia. destruct (existsb _ _); naive_solver.
  - unfold check_mem_opcodes; rewrite Ea, Eo. by apply call_verdict.
Qed.

(** An instruction of the table that only reads passes exactly when the memory it
    reads is there already or lies in one of the ranges: it may not expand memory
    elsewhere. *)
Theorem safe_reads_correct (allowed : MemWrites) (depth : Z) (i : MemInterp) (ranges : list MemRange)
    (p q : nat) (dest size : Z) :
  allowed !! depth = Some ranges → mem_table (mi_opcode i) = Some (p, q, false) →
  mi_stack i !! p = Some dest → mi_stack i !! q = Some size →
  0 ≤ dest → 0 < size → dest + size < 2 ^ 64 →
  ∃ v, check_mem_opcodes allowed depth i = Ret v ∧
    (v = MemAllowed ↔ covered ranges dest size ∨ dest + size ≤ mi_size i).
Proof.
  intros Ea Ht Ed Es Hd Hs Hb.
  assert (check_mem_opcodes allowed depth i = Ret (check_region ranges i p q false)) as ->.
  { unfold check_mem_opcodes. rewrite Ea. destruct (mi_opcode i) eqn:Eo; simpl in Ht; simplify_eq; done. }
  eexists. split; [done|]. unfold check_region. rewrite Ed, Es, !saturating_to_small by lia. cbv zeta.
  pose proof (in_ranges_covered ranges dest size Hd Hs) as Hc. specialize (Hc ltac:(lia)).
  unfold saturating_sub. rewrite (Z.max_l (size - 1) 0) by lia.
  rewrite (wrap_small 64 (dest + size)) by (unfold is_u, umax; lia). rewrite Z.max_l by lia.
  destruct (in_ranges ranges dest (dest +w[64] (size - 1))); simpl; [naive_solver|].
  destruct (Z.leb_spec (mi_size i) dest), (Z.leb_spec (mi_size i) (dest + size - 1)); simpl; split;
    first [done | intros [?%Hc|?]; [done|lia] | intros _; right; lia].
Qed.

(** ** Where the check is not what its comments say *)

(** A load that starts inside the memory and ends behind it expands memory outside
    the ranges, and passes. *)
Theorem load_across_end_passes (allowed : MemWrites) (depth : Z) (i : MemInterp) (offset : Z) :
  mi_opcode i = MLOAD → mi_stack i !! 0%nat = Some offset → 0 ≤ offset < 2 ^ 64 → offset < mi_size i →
  check_mem_opcodes allowed depth i = Ret MemAllowed.
Proof.
  intros Eo E0 Hb Hlt. unfold check_mem_opcodes. destruct (allowed !! depth) as [ranges|]; [|done].
  rewrite Eo, E0. cbv zeta. rewrite saturating_to_small by lia.
  by destruct (Z.leb_spec (mi_size i) offset); [lia|].
Qed.

(** An instruction of the table that writes nothing is refused unless its offset
    lies in a range. *)
Theorem empty_write_judged (ranges : list MemRange) (i : MemInterp) (p q : nat) (dest : Z) :
  mi_stack i !! p = Some dest → mi_stack i !! q = Some 0 → 0 ≤ dest < 2 ^ 64 →
  check_region ranges i p q true = MemAllowed ↔ existsb (λ r, range_contains r dest) ranges = true.
Proof.
  intros Ed Es Hd. unfold check_region. rewrite Ed, Es. rewrite (saturating_to_small dest) by lia.
  change (saturating_to 64 0) with 0. unfold saturating_sub. simpl.
  rewrite Z.add_0_r, (wrap_small 64 dest) by (unfold is_u, umax; lia).
  assert (in_ranges ranges dest dest = existsb (λ r, range_contains r dest) ranges) as ->.
  { induction ranges as [|r rs IH]; [done|]. unfold in_ranges in *. simpl. by rewrite IH, andb_diag. }
  by destruct (existsb _ _).
Qed.

(** A call of the cheatcode address whose result would be written outside the
    ranges panics when its arguments have fewer than four bytes, or are not all in
    memory before the call. *)
Theorem short_cheatcode_call_panics (allowed : MemWrites) (depth : Z) (i : MemInterp) (ranges : list MemRange)
    (to args_offset args_size dest size : Z) :
  allowed !! depth = Some ranges → mi_opcode i = CALL →
  mi_stack i !! 1%nat = Some to → to mod 2 ^ 160 = CHEATCODE_ADDRESS →
  mi_stack i !! 3%nat = Some args_offset → mi_stack i !! 4%nat = Some args_size →
  (∀ data, mi_slice i (saturating_to 64 args_offset) (saturating_to 64 args_size) = Some data → (length data < 4)%nat) →
  mi_stack i !! 5%nat = Some dest → mi_stack i !! 6%nat = Some size →
  0 ≤ dest → 0 < size → dest + size < 2 ^ 64 → ~ covered ranges dest size →
  check_mem_opcodes allowed depth i = Panic.
Proof.
  intros Ea Eo E1 Eto E3 E4 Hl E5 E6 Hd Hs Hb Hc. unfold check_mem_opcodes. rewrite Ea, Eo. unfold check_call.
  rewrite E5, E6, !saturating_to_small by lia. cbv zeta.
  rewrite <- in_ranges_covered in Hc by lia. unfold saturating_sub. rewrite Z.max_l by lia.
  destruct (in_ranges ranges dest (dest +w[64] (size - 1))); [done|].
  unfold stops_by_call, selector_of. rewrite E1, E3, E4, Eto, Z.eqb_refl.
  destruct (mi_slice i (saturating_to 64 args_offset) (saturating_to 64 args_size)) as [data|]; [|done]. simpl.
  specialize (Hl data eq_refl). by destruct (Nat.ltb_spec (length data) 4); [|lia].
Qed.
End check.

(** A store at 0x80 into [0x80, 0xa0) passes, one at 0x90 does not. *)
Definition sample_store (offset : Z) : MemInterp :=
  {| mi_opcode := MSTORE; mi_stack := [offset; 7]; mi_size := 0xa0; mi_slice := λ _ _, None |}.
Definition sample_allowed : MemWrites := {[ 1 := [{| mr_start := 0; mr_end := 0x60 |}; {| mr_start := 0x80; mr_end := 0xa0 |}] ]}.

Lemma safe_memory_correct_witness :
  expect_safe_memory_here ∅ 0x80 0xa0 1 = Ok sample_allowed ∧
  check_mem_opcodes [1; 2; 3; 4] 5 sample_allowed 1 (sample_store 0x80) = Ret MemAllowed ∧
  ∃ v, check_mem_opcodes [1; 2; 3; 4] 5 sample_allowed 1 (sample_store 0x90) = Ret v ∧
    (v = MemAllowed ↔ covered [{| mr_start := 0; mr_end := 0x60 |}; {| mr_start := 0x80; mr_end := 0xa0 |}] 0x90 32
                      ∨ ends_expectation [1; 2; 3; 4] 5 (sample_store 0x90)).
Proof.
  split; [vm_compute; reflexivity|]. split; [vm_compute; reflexivity|].
  apply (safe_memory_correct [1; 2; 3; 4] 5 sample_allowed 1 (sample_store 0x90)
    [{| mr_start := 0; mr_end := 0x60 |}; {| mr_start := 0x80; mr_end := 0xa0 |}] 0x90 32); vm_compute; first [reflexivity | lia | done | discriminate].
Defined.
