(* ===== verification/ZkLinker.v ===== *)
(** * The linker for zkSync (crates/linking/src/zksync.rs)

    A contract of EraVM also carries the codes of the contracts it creates, its
    factory dependencies.  The linker collects the libraries a contract needs
    along its own references and those of all its factory dependencies, chooses
    their addresses, and has [zksolc --link] link the bytecodes.  The compiler is
    not part of the repository: its answer is an operation of the class [ZkOps],
    as are the hashes and the encodings. *)

From stdpp Require Import prelude gmap list strings relations.
From S2P Require Import Prelude Containers Linker.

Open Scope Z_scope.

(** ** Data *)

(** What the linker reads of a [ZkContractArtifact]: the references of its
    bytecode, and its factory dependencies, by hash those that are linked. *)
Record ZkArtifact := {
  za_references : option (gmap string (gset string));
  factory_dependencies : option (gmap string string);
  factory_dependencies_unlinked : option (gset string)
}.

(** [MissingLibrary]: file and name. *)
Abbreviation MissingLibrary := (string * string)%type.

(** The answer of [zksolc --link], by the identifier of the bytecode. *)
Record Unlinked := { ul_symbols : gset MissingLibrary; ul_factory_deps : gset MissingLibrary }.
Record ZkSolcOutput := {
  zo_linked : gmap string string;
  zo_unlinked : gmap string Unlinked;
  zo_ignored : gmap string string
}.

Class ZkOps {ops : BytecodeOps} := {
  raw_bytes : Code → option (list Z);      (* the bytes, also of an unlinked object; [None] if malformed *)
  code_of_bytes : list Z → Code;
  hex_decode : string → option (list Z);
  addr_from_hex : string → option Z;
  hash_bytecode : list Z → Z;
  zk_compute_create_address : Z → Z → Z;
  zk_compute_create2_address : Z → Z → Z → list Z → Z;
  zksolc_link : gmap string (list Z) → gset (string * string * Z) → option ZkSolcOutput
}.

Inductive ZkLinkerError {ops : BytecodeOps} : Type :=
| Inner (e : LinkerError)
| MissingLibraries (missing : gset MissingLibrary)
| MissingFactoryDeps (missing : gset MissingLibrary).

Record ZkLinker {ops : BytecodeOps} := {
  linker : Linker;
  zk_artifacts : list (ArtifactId * ZkArtifact)
}.

Definition colon : Ascii.ascii := Ascii.ascii_of_nat 58.

Section zk_linker.
Context {ops : BytecodeOps} {zops : ZkOps} {iorder : HashOrder ArtifactId} {sorder : HashOrder string}
  {porder : HashOrder Path} {morder : HashOrder MissingLibrary}.
(** [with_stripped_file_prefixes] of foundry-compilers, of libraries and of artifacts. *)
Context (strip_libraries : Path → Libraries → Libraries) (strip_id : Path → ArtifactId → ArtifactId).
Implicit Types (z : ZkLinker) (id target : ArtifactId) (libs : Libraries).

(** ** Collecting *)

Definition zk_find z target : option ZkArtifact :=
  snd <$> List.find (λ e, bool_decide (id_source e.1 = id_source target ∧ id_name e.1 = id_name target))
    (zk_artifacts z).

Definition unlinked_deps (a : ZkArtifact) : list string :=
  let already_linked := default [] ((λ m, (map_to_list m).*2) <$> factory_dependencies a) in
  filter (λ dep, dep ∉ already_linked) (default [] (set_iter <$> factory_dependencies_unlinked a)).

(** The path and the name of a dependency. *)
Definition split_dep (dep : string) : option (string * string) :=
  match split_on colon dep with
  | path :: name :: _ => Some (path, name)
  | _ => None
  end.

Abbreviation found := (outcome (result (gset ArtifactId) LinkerError)).

Fixpoint visit_factory_deps (collect : ArtifactId → gset ArtifactId → found) z
    (deps : list string) (factory_deps : gset ArtifactId) : found :=
  match deps with
  | [] => Ret (Ok factory_deps)
  | dep :: deps =>
      '(file, name) ← expect (split_dep dep);
      match find_artifact_id_by_library_path (linker z) file name None with
      | None => Ret (Err (MissingLibraryArtifact file name))
      | Some id =>
          if decide (id ∈ factory_deps) then visit_factory_deps collect z deps factory_deps
          else
            r ← collect id ({[id]} ∪ factory_deps);
            match r with
            | Err e => Ret (Err e)
            | Ok factory_deps => visit_factory_deps collect z deps factory_deps
            end
      end
  end.

Fixpoint zk_collect_factory_deps (fuel : nat) z target (factory_deps : gset ArtifactId) : found :=
  match fuel with
  | O => OutOfFuel
  | S fuel =>
      match zk_find z target with
      | None => Ret (Err MissingTargetArtifact)
      | Some a => visit_factory_deps (zk_collect_factory_deps fuel z) z (unlinked_deps a) factory_deps
      end
  end.

Definition artifact_references (a : ZkArtifact) : gmap string (gset string) := default ∅ (za_references a).

(** [extend] replaces the libraries of a file that was there. *)
Definition merged_references z (a : ZkArtifact) (factory_deps : gset ArtifactId) : gmap string (gset string) :=
  foldl (λ references fdep, artifact_references fdep ∪ references) (artifact_references a)
    (omap (zk_find z) (set_iter factory_deps)).

(** The libraries and the factory dependencies found. *)
Abbreviation found2 := (outcome (result (gset ArtifactId * gset ArtifactId) LinkerError)).

Fixpoint visit_libraries (collect : ArtifactId → gset ArtifactId → gset ArtifactId → found2) z
    (references : list (string * string)) (libraries factory_deps : gset ArtifactId) : found2 :=
  match references with
  | [] => Ret (Ok (libraries, factory_deps))
  | (file, contract) :: references =>
      match find_artifact_id_by_library_path (linker z) file contract None with
      | None => Ret (Err (MissingLibraryArtifact file contract))
      | Some id =>
          if decide (id ∈ libraries) then visit_libraries collect z references libraries factory_deps
          else
            r ← collect id ({[id]} ∪ libraries) factory_deps;
            match r with
            | Err e => Ret (Err e)
            | Ok (libraries, factory_deps) => visit_libraries collect z references libraries factory_deps
            end
      end
  end.

Fixpoint zk_collect_dependencies (fuel : nat) z target (libraries factory_deps : gset ArtifactId) : found2 :=
  match fuel with
  | O => OutOfFuel
  | S fuel =>
      match zk_find z target with
      | None => Ret (Err MissingTargetArtifact)
      | Some a =>
          r ← zk_collect_factory_deps (search_fuel (linker z)) z target factory_deps;
          match r with
          | Err e => Ret (Err e)
          | Ok factory_deps =>
              visit_libraries (zk_collect_dependencies fuel z) z
                (reference_list (merged_references z a factory_deps)) libraries factory_deps
          end
      end
  end.

(** Each target with an own set of factory dependencies. *)
Fixpoint zk_collect_all z (targets : list ArtifactId) (libraries : gset ArtifactId) : found :=
  match targets with
  | [] => Ret (Ok libraries)
  | target :: targets =>
      r ← zk_collect_dependencies (search_fuel (linker z)) z target libraries ∅;
      match r with
      | Err e => Ret (Err e)
      | Ok (libraries, _) => zk_collect_all z targets libraries
      end
  end.

(** ** Linking *)

Definition artifact_to_link_id id : string :=
  String.append (path_str (id_source id)) (String colon (id_name id)).

(** The bytecodes of all contracts; a malformed one panics. *)
Definition link_bytecodes (contracts : gmap ArtifactId Contract) : outcome (gmap string (list Z)) :=
  foldM (λ m '(id, c),
    match ct_bytecode c with
    | None => Ret m
    | Some b => bytes ← expect (raw_bytes b); Ret (<[artifact_to_link_id id := bytes]> m)
    end) ∅ (map_pairs contracts).

Definition link_libraries libs : outcome (gset (string * string * Z)) :=
  foldM (λ s '(file, name, address),
    a ← expect (addr_from_hex address); Ret ({[ (path_str file, name, a) ]} ∪ s)) ∅ (library_list libs).

Definition zk_link (contracts : gmap ArtifactId Contract) target libs
    : outcome (result Contract ZkLinkerError) :=
  bytecodes ← link_bytecodes contracts;
  libraries ← link_libraries libs;
  link_output ← expect (zksolc_link bytecodes libraries);
  let link_id := artifact_to_link_id target in
  match contracts !! target with
  | None => Ret (Err (Inner MissingTargetArtifact))
  | Some contract =>
      match zo_unlinked link_output !! link_id with
      | Some unlinked =>
          Ret (Err (if decide (ul_symbols unlinked = ∅) then MissingFactoryDeps (ul_factory_deps unlinked)
                    else MissingLibraries (ul_symbols unlinked)))
      | None =>
          match (match zo_linked link_output !! link_id with
                 | Some linked => Some linked
                 | None => zo_ignored link_output !! link_id
                 end) with
          | None => Ret (Ok contract)
          | Some linked =>
              bytes ← expect (hex_decode linked);
              Ret (Ok {| ct_bytecode := Some (code_of_bytes bytes);
                         ct_deployed := Some (Some (code_of_bytes bytes)) |})
          end
      end
  end.

(** The queue of artifacts to link. *)
Record LinkQueue := {
  lq_contracts : gmap ArtifactId Contract;
  lq_targets : list ArtifactId;
  lq_linked : list (ArtifactId * Contract)
}.

Definition stripped_contracts z : gmap ArtifactId Contract :=
  foldl (λ m '(id, c), <[strip_id (root (linker z)) id := c]> m) ∅ (map_pairs (contracts (linker z))).

(** The contract a missing factory dependency names. *)
Definition find_factory_dep z (contracts : gmap ArtifactId Contract) (fdep : MissingLibrary) : option ArtifactId :=
  List.find (λ id, let id := strip_id (root (linker z)) id in
    bool_decide (id_source id = path_of fdep.1 ∧ id_name id = fdep.2)) (map_pairs contracts).*1.

(** One turn of the loop. *)
Definition linked_body z libs (q : LinkQueue)
    : outcome (flow LinkQueue (result (gmap ArtifactId Contract) ZkLinkerError)) :=
  match lq_targets q with
  | [] => Ret (Break (Ok (list_to_map (rev (lq_linked q)))))
  | id :: targets =>
      if decide (id ∈ (lq_linked q).*1) then
        Ret (Continue {| lq_contracts := lq_contracts q; lq_targets := targets; lq_linked := lq_linked q |})
      else
        r ← zk_link (lq_contracts q) (strip_id (root (linker z)) id) libs;
        match r with
        | Ok linked =>
            Ret (Continue {| lq_contracts := <[id := linked]> (lq_contracts q); lq_targets := targets;
                             lq_linked := lq_linked q ++ [(id, linked)] |})
        | Err (MissingFactoryDeps fdeps) =>
            match omap (find_factory_dep z (lq_contracts q)) (set_iter fdeps) with
            | [] => Ret (Continue {| lq_contracts := lq_contracts q; lq_targets := targets;
                                     lq_linked := lq_linked q |})
            | (sample_dep :: _) as ids =>
                if decide (lq_contracts q !! sample_dep = None) then
                  Ret (Break (Err (MissingFactoryDeps fdeps)))
                else
                  Ret (Continue {| lq_contracts := lq_contracts q; lq_targets := targets ++ ids ++ [id];
                                   lq_linked := lq_linked q |})
            end
        | Err err => Ret (Break (Err err))
        end
  end.

Definition zk_get_linked_artifacts (fuel : nat) z (targets : list ArtifactId) libs
    : outcome (result (gmap ArtifactId Contract) ZkLinkerError) :=
  run fuel (linked_body z libs)
    {| lq_contracts := stripped_contracts z; lq_targets := targets; lq_linked := [] |}.

(** ** Addresses from the nonce: [nonce as u32] *)

Definition zk_assign_address z (sender : Z) (s : Libraries * list (ArtifactId * Z) * Z) id
    : Libraries * list (ArtifactId * Z) * Z :=
  let '(libs, to_deploy, nonce) := s in
  let key := convert_artifact_id_to_lib_path (linker z) id in
  if has_library libs key then s
  else
    let address := zk_compute_create_address sender (wrap 32 nonce) in
    (add_library libs key (to_checksum address), to_deploy ++ [(id, address)], nonce +w[64] 1).

(** The bytecodes of the linked artifacts; an unlinked one panics. *)
Definition bytecode_bytes (linked : gmap ArtifactId Contract) : outcome (list (list Z)) :=
  foldM (λ codes '(_, c), code ← expect (ct_bytecode c ≫= code_bytes); Ret (codes ++ [code]))
    [] (map_pairs linked).

Definition zk_link_with_nonce_or_address (fuel : nat) z libs (sender nonce : Z) (targets : list ArtifactId)
    : outcome (result LinkOutput ZkLinkerError) :=
  let libs := strip_libraries (root (linker z)) libs in
  r ← zk_collect_all z targets ∅;
  match r with
  | Err e => Ret (Err (Inner e))
  | Ok needed_libraries =>
      let '(libs, to_deploy, _) :=
        foldl (zk_assign_address z sender) (libs, [], nonce) (set_iter needed_libraries) in
      r ← zk_get_linked_artifacts fuel z to_deploy.*1 libs;
      match r with
      | Err e => Ret (Err e)
      | Ok linked =>
          codes ← bytecode_bytes linked;
          Ret (Ok {| libraries := libs; libs_to_deploy := codes |})
      end
  end.

(** ** CREATE2 *)

Record ZkCreate2 := {
  z2_contracts : gmap ArtifactId Contract;
  z2_needed : list (ArtifactId * Code);
  z2_libraries : Libraries;
  z2_deploy : list (list Z)
}.

(** Link a library as far as possible. *)
Definition attempt_link (contracts : gmap ArtifactId Contract) id libs
    : outcome (gmap ArtifactId Contract * Code) :=
  original ← expect (contracts !! id);
  r ← zk_link contracts id libs;
  match r with
  | Ok linked => b ← expect (ct_bytecode linked); Ret (<[id := linked]> contracts, b)
  | Err _ => b ← expect (ct_bytecode original); Ret (contracts, b)
  end.

Definition attempt_all (contracts : gmap ArtifactId Contract) (ids : list ArtifactId) libs
    : outcome (gmap ArtifactId Contract * list (ArtifactId * Code)) :=
  foldM (λ st id, '(contracts, b) ← attempt_link st.1 id libs; Ret (contracts, st.2 ++ [(id, b)]))
    (contracts, []) ids.

Definition zk_create2_body z (sender salt : Z) (s : ZkCreate2)
    : outcome (flow ZkCreate2 (result LinkOutput LinkerError)) :=
  match z2_needed s with
  | [] => Ret (Break (Ok {| libraries := z2_libraries s; libs_to_deploy := z2_deploy s |}))
  | _ =>
      match list_find (λ e : ArtifactId * Code, is_unlinked e.2 = false) (z2_needed s) with
      | None => Ret (Break (Err CyclicDependency))
      | Some (index, (id, bytecode)) =>
          code ← expect (code_bytes bytecode);
          let address := zk_compute_create2_address sender (hash_bytecode code) salt [] in
          let libs := add_library (z2_libraries s) (convert_artifact_id_to_lib_path (linker z) id)
                        (to_checksum address) in
          '(contracts, needed) ← attempt_all (z2_contracts s) (swap_remove index (z2_needed s)).*1 libs;
          Ret (Continue {| z2_contracts := contracts; z2_needed := needed; z2_libraries := libs;
                           z2_deploy := z2_deploy s ++ [code] |})
      end
  end.

Definition zk_link_with_create2 z libs (sender salt : Z) target : outcome (result LinkOutput LinkerError) :=
  let libs := strip_libraries (root (linker z)) libs in
  r ← zk_collect_dependencies (search_fuel (linker z)) z target ∅ ∅;
  match r with
  | Err e => Ret (Err e)
  | Ok (needed_libraries, _) =>
      let missing := filter (λ id, has_library libs (convert_artifact_id_to_lib_path (linker z) id) = false)
                       (set_iter needed_libraries) in
      '(contracts, needed) ← attempt_all (contracts (linker z)) missing libs;
      run (S (length needed)) (zk_create2_body z sender salt)
        {| z2_contracts := contracts; z2_needed := needed; z2_libraries := libs; z2_deploy := [] |}
  end.
End zk_linker.

(** ** Specification of collecting *)

Section collecting.
Context {ops : BytecodeOps} {iorder : HashOrder ArtifactId} {sorder : HashOrder string}.
Implicit Types (z : ZkLinker) (id target a b : ArtifactId) (F L : gset ArtifactId).

(** The artifact a file and a name stand for. *)
Definition zk_resolve z (ref : string * string) : option ArtifactId :=
  find_artifact_id_by_library_path (linker z) ref.1 ref.2 None.

(** [a] names an unlinked factory dependency, or its bytecode refers to a library. *)
Definition names_factory_dep z a (ref : string * string) : Prop :=
  ∃ art dep, zk_find z a = Some art ∧ dep ∈ unlinked_deps art ∧ split_dep dep = Some ref.

Definition has_reference (refs : gmap string (gset string)) (ref : string * string) : Prop :=
  ∃ names, refs !! ref.1 = Some names ∧ ref.2 ∈ names.

Definition names_library z a (ref : string * string) : Prop :=
  ∃ art, zk_find z a = Some art ∧ has_reference (artifact_references art) ref.

Definition creates z a b : Prop := ∃ ref, names_factory_dep z a ref ∧ zk_resolve z ref = Some b.
Definition uses z a b : Prop := ∃ ref, names_library z a ref ∧ zk_resolve z ref = Some b.
Definition needs z a b : Prop := creates z a b ∨ uses z a b.

(** Every factory dependency is written as a path and a name. *)
Definition deps_written z : Prop :=
  ∀ a art dep, zk_find z a = Some art → dep ∈ unlinked_deps art → is_Some (split_dep dep).

(** What an error reports, of an artifact reached from one of [from]. *)
Definition zk_fault z (from : ArtifactId → Prop) (e : LinkerError) : Prop :=
  match e with
  | MissingLibraryArtifact file name => ∃ s a, from s ∧ rtc (needs z) s a ∧
      (names_factory_dep z a (file, name) ∨ names_library z a (file, name)) ∧ zk_resolve z (file, name) = None
  | MissingTargetArtifact => ∃ s a, from s ∧ rtc (needs z) s a ∧ zk_find z a = None
  | _ => False
  end.

Lemma zk_fault_from z (from from' : ArtifactId → Prop) e :
  (∀ s, from s → ∃ s', from' s' ∧ rtc (needs z) s' s) → zk_fault z from e → zk_fault z from' e.
Proof.
  intros Hf. destruct e; try done; simpl.
  - intros (s & a & (s' & Hs' & Hr)%Hf & Ha & H). exists s', a. split; [done|]. split; [by etrans|done].
  - intros (s & a & (s' & Hs' & Hr)%Hf & Ha & H). exists s', a. split; [done|]. split; [by etrans|done].
Qed.

Lemma resolve_known z ref id : zk_resolve z ref = Some id → id ∈ dom (contracts (linker z)).
Proof. intros [H _]%find_known. done. Qed.

(** *** Factory dependencies *)

Definition deps_in z F (deps : list string) : Prop :=
  ∀ dep ref, dep ∈ deps → split_dep dep = Some ref → ∃ b, zk_resolve z ref = Some b ∧ b ∈ F.

Definition deps_of z a : list string := default [] (unlinked_deps <$> zk_find z a).

(** A search for the factory dependencies [deps] of [target]. *)
Definition factory_searched z target (deps : list string) F (r : result (gset ArtifactId) LinkerError) : Prop :=
  match r with
  | Ok F' => F ⊆ F' ∧ F' ⊆ dom (contracts (linker z)) ∧ deps_in z F' deps ∧
      (∀ a, a ∈ F' → a ∉ F → deps_in z F' (deps_of z a)) ∧
      (∀ a, a ∈ F' → a ∈ F ∨ tc (creates z) target a)
  | Err e => zk_fault z (eq target) e
  end.

Lemma deps_in_mono z F F' deps : deps_in z F deps → F ⊆ F' → deps_in z F' deps.
Proof. intros H Hsub dep ref Hin E. destruct (H dep ref Hin E) as (b & ? & ?). exists b. set_solver. Qed.

Lemma factory_step z target id dep deps F F1 F2 ref :
  creates z target id → split_dep dep = Some ref → zk_resolve z ref = Some id →
  factory_searched z id (deps_of z id) ({[id]} ∪ F) (Ok F1) →
  factory_searched z target deps F1 (Ok F2) → factory_searched z target (dep :: deps) F (Ok F2).
Proof.
  intros Hc Es Hr (A1 & A2 & A3 & A4 & A5) (B1 & B2 & B3 & B4 & B5). split_and!; [set_solver|done|..].
  - intros dep' ref' [->|Hin]%elem_of_cons E; [|by eapply B3]. exists id. split; [naive_solver|set_solver].
  - intros a Ha Hn. destruct (decide (a ∈ F1)) as [H1|H1]; [|by apply B4].
    apply (deps_in_mono _ F1); [|done].
    destruct (decide (a = id)) as [->|Hne]; [done|]. apply A4; [done|set_solver].
  - intros a [Ha|Ha]%B5; [|by right]. apply A5 in Ha as [Ha|Ha]; [|right; by eapply tc_l].
    apply elem_of_union in Ha as [->%elem_of_singleton|Ha]; [right; by apply tc_once|by left].
Qed.

Lemma visit_factory_spec z target deps :
  ∀ (collect : ArtifactId → gset ArtifactId → outcome (result (gset ArtifactId) LinkerError)) n F,
  (∀ dep, dep ∈ deps → ∃ ref, split_dep dep = Some ref ∧ names_factory_dep z target ref) →
  (∀ id F, F ⊆ dom (contracts (linker z)) → (size (dom (contracts (linker z)) ∖ F) < n)%nat →
     ∃ r, collect id F = Ret r ∧ factory_searched z id (deps_of z id) F r) →
  F ⊆ dom (contracts (linker z)) → (size (dom (contracts (linker z)) ∖ F) ≤ n)%nat →
  ∃ r, visit_factory_deps collect z deps F = Ret r ∧ factory_searched z target deps F r.
Proof.
  induction deps as [|dep deps IH]; intros collect n F Hdeps Hc Hsub Hn; cbn [visit_factory_deps].
  { eexists. split; [reflexivity|]. split_and!; try done; [by intros ? ? Hin%elem_of_nil|by left]. }
  destruct (Hdeps dep ltac:(by left)) as ([file name] & Es & Hnames). rewrite Es. cbn [expect]. rewrite bind_Ret.
  assert (∀ dep, dep ∈ deps → ∃ ref, split_dep dep = Some ref ∧ names_factory_dep z target ref) as Hdeps'
    by (intros; apply Hdeps; by right).
  destruct (find_artifact_id_by_library_path (linker z) file name None) as [id|] eqn:Ef.
  2: { eexists. split; [reflexivity|]. exists target, target. split_and!; [done..|by left|done]. }
  assert (zk_resolve z (file, name) = Some id) as Hres by done.
  pose proof (resolve_known _ _ _ Hres) as Hknown.
  assert (creates z target id) as Hcr by (by exists (file, name)).
  case_decide as Hin.
  - destruct (IH collect n F Hdeps' Hc Hsub Hn) as (r & -> & Hs). exists r. split; [done|].
    destruct r as [F'|]; [|done]. destruct Hs as (S1 & S2 & S3 & S4 & S5). split_and!; try done.
    intros dep' ref [->|Hb]%elem_of_cons E; [|by eapply S3]. exists id. split; [naive_solver|set_solver].
  - assert (size (dom (contracts (linker z)) ∖ ({[id]} ∪ F)) < size (dom (contracts (linker z)) ∖ F))%nat
      as Hlt by (apply subset_size; set_solver).
    destruct (Hc id ({[id]} ∪ F) ltac:(set_solver) ltac:(lia)) as (r1 & -> & Hs1).
    rewrite bind_Ret. destruct r1 as [F1|e].
    + pose proof Hs1 as (S1 & S2 & _).
      assert (size (dom (contracts (linker z)) ∖ F1) ≤ size (dom (contracts (linker z)) ∖ ({[id]} ∪ F)))%nat
        by (apply subseteq_size; set_solver).
      destruct (IH collect n F1 Hdeps' Hc S2 ltac:(lia)) as (r & -> & Hs).
      exists r. split; [done|]. destruct r as [F2|]; [|done]. by eapply factory_step.
    + eexists. split; [reflexivity|]. eapply zk_fault_from; [|exact Hs1].
      intros s <-. exists target. split; [done|]. apply rtc_once. by left.
Qed.

Lemma factory_spec z fuel : deps_written z → ∀ target F,
  F ⊆ dom (contracts (linker z)) → (size (dom (contracts (linker z)) ∖ F) < fuel)%nat →
  ∃ r, zk_collect_factory_deps fuel z target F = Ret r ∧ factory_searched z target (deps_of z target) F r.
Proof.
  intros Hw. induction fuel as [|fuel IH]; intros target F Hsub Hlt; [lia|].
  cbn [zk_collect_factory_deps]. unfold deps_of. destruct (zk_find z target) as [art|] eqn:E; simpl.
  - apply (visit_factory_spec z target _ _ fuel); [|by intros; apply IH|done|lia].
    intros dep Hin. destruct (Hw target art dep E Hin) as [ref Hr]. exists ref. split; [done|]. by exists art, dep.
  - eexists. split; [reflexivity|]. by exists target, target.
Qed.

(** *** Libraries *)

(** Two artifacts that refer to the same file refer to the same libraries in it,
    as they do when every file holds one library. *)
Definition references_agree z : Prop :=
  ∀ a b arta artb file names names',
    zk_find z a = Some arta → zk_find z b = Some artb →
    artifact_references arta !! file = Some names → artifact_references artb !! file = Some names' →
    names = names'.

Lemma reference_list_has refs ref : ref ∈ reference_list refs ↔ has_reference refs ref.
Proof.
  destruct ref as [file name]. unfold reference_list, has_reference; simpl. rewrite list_elem_of_bind. split.
  - intros ([f libs] & Hin & Hp%map_pairs_elem). apply list_elem_of_fmap in Hin as (n & [= -> ->] & Hn).
    exists libs. split; [done|]. by apply set_iter_elem_of.
  - intros (names & E & Hin). exists (file, names). split; [|by apply map_pairs_elem].
    apply list_elem_of_fmap. exists name. split; [done|]. by apply set_iter_elem_of.
Qed.

(** The artifacts whose references are merged. *)
Definition merged_from z (art : ZkArtifact) F (art' : ZkArtifact) : Prop :=
  art' = art ∨ ∃ a, a ∈ F ∧ zk_find z a = Some art'.

Lemma merged_sources z art F art' :
  merged_from z art F art' ↔ art' ∈ art :: omap (zk_find z) (set_iter F).
Proof.
  unfold merged_from. rewrite elem_of_cons, list_elem_of_omap. setoid_rewrite set_iter_elem_of. done.
Qed.

Lemma extended_lookup (arts : list ZkArtifact) base f :
  (foldl (λ references fdep, artifact_references fdep ∪ references) base arts !! f = base !! f ∧
     (∀ art, art ∈ arts → artifact_references art !! f = None)) ∨
  (∃ art names, art ∈ arts ∧ artifact_references art !! f = Some names ∧
     foldl (λ references fdep, artifact_references fdep ∪ references) base arts !! f = Some names).
Proof.
  revert base. induction arts as [|art arts IH]; intros base; simpl.
  { left. split; [done|]. by intros ? ?%elem_of_nil. }
  destruct (IH (artifact_references art ∪ base)) as [[-> Hn]|(art' & names & Hin & E & ->)].
  2: { right. exists art', names. split_and!; [by right|done|done]. }
  destruct (artifact_references art !! f) as [names|] eqn:E.
  - right. exists art, names. split_and!; [by left|done|]. by apply lookup_union_Some_l.
  - left. split; [by apply lookup_union_r|]. intros art' [->|Hin]%elem_of_cons; [done|by apply Hn].
Qed.

Lemma merged_sound z art F ref :
  has_reference (merged_references z art F) ref →
  ∃ art', merged_from z art F art' ∧ has_reference (artifact_references art') ref.
Proof.
  intros (names & E & Hin). unfold merged_references in E. setoid_rewrite merged_sources.
  destruct (extended_lookup (omap (zk_find z) (set_iter F)) (artifact_references art) ref.1)
    as [[E' _]|(art' & names' & Ha & E' & Em)].
  - exists art. split; [by left|]. exists names. by rewrite <- E'.
  - exists art'. split; [by right|]. exists names'. split; [done|]. by simplify_eq.
Qed.

Lemma merged_complete z target art F art' ref :
  references_agree z → zk_find z target = Some art → merged_from z art F art' →
  has_reference (artifact_references art') ref → has_reference (merged_references z art F) ref.
Proof.
  intros Ha Et Hf (names & E & Hin). exists names. split; [|done]. unfold merged_references.
  assert (∀ art'', merged_from z art F art'' → ∃ b, zk_find z b = Some art'') as Hknown.
  { intros ? [->|(b & _ & Eb)]; eauto. }
  destruct (Hknown art' Hf) as [b Eb].
  destruct (extended_lookup (omap (zk_find z) (set_iter F)) (artifact_references art) ref.1)
    as [[-> Hn]|(art2 & names2 & H2 & E2 & ->)].
  - apply merged_sources in Hf as [->|Hf]%elem_of_cons; [done|]. by rewrite (Hn _ Hf) in E.
  - destruct (Hknown art2) as [b2 Eb2]; [apply merged_sources; by right|]. f_equal. by eapply (Ha b2 b).
Qed.

Definition refs_in z L (refs : list (string * string)) : Prop :=
  ∀ ref, ref ∈ refs → ∃ b, zk_resolve z ref = Some b ∧ b ∈ L.
Definition libraries_in z L a : Prop := ∀ ref, names_library z a ref → ∃ b, zk_resolve z ref = Some b ∧ b ∈ L.
Definition factory_closed z F : Prop := F ⊆ dom (contracts (linker z)) ∧ ∀ a, a ∈ F → deps_in z F (deps_of z a).

(** [a] is done with: what it refers to and what it creates is collected. *)
Definition collected z L F a : Prop := libraries_in z L a ∧ deps_in z F (deps_of z a).

Lemma libraries_in_mono z L L' a : libraries_in z L a → L ⊆ L' → libraries_in z L' a.
Proof. intros H Hsub ref Hr. destruct (H ref Hr) as (b & ? & ?). exists b. set_solver. Qed.

Lemma collected_mono z L L' F F' a : collected z L F a → L ⊆ L' → F ⊆ F' → collected z L' F' a.
Proof. intros [H1 H2] ? ?. split; [by eapply libraries_in_mono|by eapply deps_in_mono]. Qed.

Section within.
(** A set of artifacts closed under what they need. *)
Context (z : ZkLinker) (P : ArtifactId → Prop).
Context (Pclosed : ∀ a b, P a → needs z a b → P b).

Record grown L F L' F' : Prop := {
  gw_libraries : L ⊆ L';
  gw_factory : F ⊆ F';
  gw_known : L' ⊆ dom (contracts (linker z));
  gw_closed : factory_closed z F';
  gw_collected : ∀ a, a ∈ L' → a ∉ L → collected z L' F' a;
  gw_used : ∀ a, a ∈ L' → a ∈ L ∨ ∃ c, P c ∧ uses z c a;
  gw_within : ∀ a, a ∈ F' → P a
}.

(** A search for the libraries of [target] and of all factory dependencies. *)
Definition lib_searched target L F (r : result (gset ArtifactId * gset ArtifactId) LinkerError) : Prop :=
  match r with
  | Ok (L', F') => grown L F L' F' ∧ collected z L' F' target ∧ ∀ a, a ∈ F' → libraries_in z L' a
  | Err e => zk_fault z P e
  end.

Definition refs_searched (refs : list (string * string)) L F
    (r : result (gset ArtifactId * gset ArtifactId) LinkerError) : Prop :=
  match r with
  | Ok (L', F') => grown L F L' F' ∧ refs_in z L' refs ∧ ∀ a, a ∈ F' → a ∉ F → libraries_in z L' a
  | Err e => zk_fault z P e
  end.

Lemma refs_step id ref refs L F L1 F1 L2 F2 c :
  P c → uses z c id → zk_resolve z ref = Some id →
  lib_searched id ({[id]} ∪ L) F (Ok (L1, F1)) → refs_searched refs L1 F1 (Ok (L2, F2)) →
  refs_searched (ref :: refs) L F (Ok (L2, F2)).
Proof.
  intros Hc Hu Hr ([G1 G2 G3 G4 G5 G6 G7] & A2 & A3) ([H1 H2 H3 H4 H5 H6 H7] & B2 & B3). split_and!.
  - split; [set_solver|set_solver|done|done| |..|done].
    + intros a Ha Hn. destruct (decide (a ∈ L1)) as [Hl|Hl]; [|by apply H5].
      apply (collected_mono _ L1 _ F1); [|done..].
      destruct (decide (a = id)) as [->|Hne]; [done|]. apply G5; [done|set_solver].
    + intros a [Ha|?]%H6; [|by right]. apply G6 in Ha as [Ha|?]; [|by right].
      apply elem_of_union in Ha as [->%elem_of_singleton|Ha]; [right; eauto|by left].
  - intros ref' [->|Hin]%elem_of_cons; [exists id; set_solver|by apply B2].
  - intros a Ha Hn. destruct (decide (a ∈ F1)) as [Hf|Hf]; [|by apply B3].
    eapply libraries_in_mono; [by apply A3|done].
Qed.

Lemma visit_libraries_spec refs :
  ∀ (collect : ArtifactId → gset ArtifactId → gset ArtifactId →
       outcome (result (gset ArtifactId * gset ArtifactId) LinkerError)) n L F,
  (∀ ref, ref ∈ refs → ∃ c, P c ∧ names_library z c ref) →
  (∀ id L F, P id → L ⊆ dom (contracts (linker z)) → (size (dom (contracts (linker z)) ∖ L) < n)%nat →
     factory_closed z F → (∀ a, a ∈ F → P a) →
     ∃ r, collect id L F = Ret r ∧ lib_searched id L F r) →
  L ⊆ dom (contracts (linker z)) → (size (dom (contracts (linker z)) ∖ L) ≤ n)%nat →
  factory_closed z F → (∀ a, a ∈ F → P a) →
  ∃ r, visit_libraries collect z refs L F = Ret r ∧ refs_searched refs L F r.
Proof.
  induction refs as [|[file name] refs IH]; intros collect n L F Hrefs Hc Hsub Hn Hcl HP; cbn [visit_libraries].
  { eexists. split; [reflexivity|]. split_and!; [|by intros ? Hin%elem_of_nil|done].
    split; try done; by left. }
  destruct (Hrefs (file, name) ltac:(by left)) as (c & Pc & Hnames).
  assert (∀ ref, ref ∈ refs → ∃ c, P c ∧ names_library z c ref) as Hrefs' by (intros; apply Hrefs; by right).
  destruct (find_artifact_id_by_library_path (linker z) file name None) as [id|] eqn:Ef.
  2: { eexists. split; [reflexivity|]. exists c, c. split_and!; [done..|by right|done]. }
  assert (zk_resolve z (file, name) = Some id) as Hres by done.
  pose proof (resolve_known _ _ _ Hres) as Hknown.
  assert (uses z c id) as Hu by (by exists (file, name)).
  case_decide as Hin.
  - destruct (IH collect n L F Hrefs' Hc Hsub Hn Hcl HP) as (r & -> & Hs). exists r. split; [done|].
    destruct r as [[L' F']|]; [|done]. destruct Hs as (G & S2 & S3). split_and!; [done| |done].
    intros ref [->|Hb]%elem_of_cons; [|by apply S2]. exists id. split; [done|]. by apply (gw_libraries _ _ _ _ G).
  - assert (size (dom (contracts (linker z)) ∖ ({[id]} ∪ L)) < size (dom (contracts (linker z)) ∖ L))%nat
      as Hlt by (apply subset_size; set_solver).
    destruct (Hc id ({[id]} ∪ L) F) as (r1 & -> & Hs1);
      [by eapply Pclosed; [|right]|set_solver|lia|done|done|].
    rewrite bind_Ret. destruct r1 as [[L1 F1]|e]; [|by eexists; split; [reflexivity|]].
    pose proof Hs1 as ([G1 G2 G3 G4 G5 G6 G7] & _).
    assert (size (dom (contracts (linker z)) ∖ L1) ≤ size (dom (contracts (linker z)) ∖ ({[id]} ∪ L)))%nat
      by (apply subseteq_size; set_solver).
    destruct (IH collect n L1 F1 Hrefs' Hc G3 ltac:(lia) G4 G7) as (r & -> & Hs).
    exists r. split; [done|]. destruct r as [[L2 F2]|]; [|done]. by eapply refs_step.
Qed.

Lemma tc_within a b : P a → tc (creates z) a b → P b.
Proof. intros Ha Hab. induction Hab as [x y H|x y w H _ IH]; [|apply IH]; (eapply Pclosed; [done|by left]). Qed.

(** The factory dependencies of an artifact, added to a closed set. *)
Lemma factory_grown target art F :
  deps_written z → P target → zk_find z target = Some art → factory_closed z F → (∀ a, a ∈ F → P a) →
  ∃ r, zk_collect_factory_deps (search_fuel (linker z)) z target F = Ret r ∧
  match r with
  | Ok F1 => F ⊆ F1 ∧ factory_closed z F1 ∧ (∀ a, a ∈ F1 → P a) ∧ deps_in z F1 (deps_of z target)
  | Err e => zk_fault z P e
  end.
Proof.
  intros Hw Pt Et [Hsub Hcl] HP.
  destruct (factory_spec z (search_fuel (linker z)) Hw target F Hsub (search_fuel_enough _ _)) as (r & E & Hs).
  exists r. split; [done|]. destruct r as [F1|e].
  2: { eapply zk_fault_from; [|exact Hs]. intros s <-. by exists target. }
  destruct Hs as (S1 & S2 & S3 & S4 & S5). split_and!; [done| |..|done].
  - split; [done|]. intros a Ha. destruct (decide (a ∈ F)) as [Hf|Hf]; [|by apply S4].
    by eapply deps_in_mono; [apply Hcl|].
  - intros a [Ha|Ha]%S5; [by apply HP|by eapply tc_within].
Qed.

Lemma zk_collect_spec fuel : deps_written z → references_agree z → ∀ target L F,
  P target → L ⊆ dom (contracts (linker z)) → (size (dom (contracts (linker z)) ∖ L) < fuel)%nat →
  factory_closed z F → (∀ a, a ∈ F → P a) →
  ∃ r, zk_collect_dependencies fuel z target L F = Ret r ∧ lib_searched target L F r.
Proof.
  intros Hw Hag. induction fuel as [|fuel IH]; intros target L F Pt Hsub Hlt Hcl HP; [lia|].
  cbn [zk_collect_dependencies]. destruct (zk_find z target) as [art|] eqn:Et.
  2: { eexists. split; [reflexivity|]. by exists target, target. }
  destruct (factory_grown target art F Hw Pt Et Hcl HP) as (r & -> & Hf). rewrite bind_Ret.
  destruct r as [F1|e]; [|by eexists; split; [reflexivity|]]. destruct Hf as (F0 & F2 & F3 & F4).
  assert (∀ art', merged_from z art F1 art' → ∃ c, P c ∧ zk_find z c = Some art') as Hfrom.
  { intros art' [->|(a & Ha & Ea)]; [by exists target|]. exists a. split; [by apply F3|done]. }
  destruct (visit_libraries_spec (reference_list (merged_references z art F1))
    (zk_collect_dependencies fuel z) fuel L F1) as (r & -> & Hs); [|by intros; apply IH|done|lia|done|done|].
  { intros ref Hin%reference_list_has. destruct (merged_sound _ _ _ _ Hin) as (art' & Hm & Hr).
    destruct (Hfrom art' Hm) as (c & Pc & Ec). exists c. split; [done|]. by exists art'. }
  eexists. split; [reflexivity|]. destruct r as [[L' F']|]; [|done]. destruct Hs as (G & S2 & S3).
  assert (∀ a art', zk_find z a = Some art' → merged_from z art F1 art' → libraries_in z L' a) as Hin.
  { intros a art' Ea Hm ref (art'' & E'' & Hr). simplify_eq.
    apply S2, reference_list_has. by eapply merged_complete. }
  pose proof G as [G1 G2 G3 G4 G5 G6 G7]. split_and!.
  - split; try done. by trans F1.
  - split; [by eapply Hin; [|left]|]. by eapply deps_in_mono.
  - intros a Ha. destruct (decide (a ∈ F1)) as [H1|H1]; [|by apply S3].
    destruct (zk_find z a) as [art'|] eqn:Ea; [|intros ref (? & ? & _); simplify_eq].
    eapply Hin; [done|]. right. by exists a.
Qed.
End within.

(** The libraries an artifact needs: those it or a factory dependency refers to,
    and those these need. *)
Definition zk_needed z a b : Prop := ∃ c, rtc (needs z) a c ∧ uses z c b.

Definition zk_closed z L : Prop :=
  L ⊆ dom (contracts (linker z)) ∧ ∀ a b, a ∈ L → zk_needed z a b → b ∈ L.

Lemma names_dep_of z a ref : names_factory_dep z a ref → ∃ dep, dep ∈ deps_of z a ∧ split_dep dep = Some ref.
Proof. intros (art & dep & E & Hin & Es). exists dep. split; [|done]. unfold deps_of. by rewrite E. Qed.

(** After a search everything the artifacts in it need is collected. *)
Lemma grown_closed z P target L L' F' a b :
  zk_closed z L → lib_searched z P target L ∅ (Ok (L', F')) →
  (a = target ∨ a ∈ L' ∨ a ∈ F') → zk_needed z a b → b ∈ L'.
Proof.
  intros [_ Hcl] ([G1 G2 G3 [_ G4] G5 G6 G7] & Ht & Hf) Ha (c & Hac & Hu). revert Ha.
  assert (∀ x, (x = target ∨ x ∈ L' ∨ x ∈ F') → x ∉ L → collected z L' F' x) as Hcol.
  { intros x [->|[Hx|Hx]] Hn; [done|by apply G5|]. split; [by apply Hf|by apply G4]. }
  induction Hac as [x|x y c Hxy Hyc IH]; intros Hx.
  - destruct (decide (x ∈ L)) as [Hl|Hl]; [apply G1, (Hcl x); [done|]; by exists x|].
    destruct (Hcol x Hx Hl) as [Hlib _]. destruct Hu as (ref & Hr & E).
    destruct (Hlib ref Hr) as (b' & E' & Hb). naive_solver.
  - destruct (decide (x ∈ L)) as [Hl|Hl].
    { apply G1, (Hcl x); [done|]. exists c. split; [by eapply rtc_l|done]. }
    destruct (Hcol x Hx Hl) as [Hlib Hdep]. apply IH; [done|]. destruct Hxy as [(ref & Hr & E)|(ref & Hr & E)].
    + destruct (names_dep_of _ _ _ Hr) as (dep & Hin & Es). destruct (Hdep dep ref Hin Es) as (y' & E' & Hy).
      simplify_eq. by right; right.
    + destruct (Hlib ref Hr) as (y' & E' & Hy). simplify_eq. by right; left.
Qed.

Lemma zk_collect_closed z target L :
  deps_written z → references_agree z → zk_closed z L →
  ∃ r, zk_collect_dependencies (search_fuel (linker z)) z target L ∅ = Ret r ∧
  match r with
  | Ok (L', F') => zk_closed z L' ∧ ∀ b, b ∈ L' ↔ b ∈ L ∨ zk_needed z target b
  | Err e => zk_fault z (eq target) e
  end.
Proof.
  intros Hw Hag Hcl. pose proof Hcl as [Hsub _].
  destruct (zk_collect_spec z (rtc (needs z) target) (λ a b Ha Hab, rtc_r target a b Ha Hab)
    (search_fuel (linker z)) Hw Hag target L ∅) as (r & E & Hs);
    [done|done|apply search_fuel_enough|by split; [set_solver|intros a Ha; set_solver]|set_solver|].
  exists r. split; [done|]. destruct r as [[L' F']|e].
  2: { eapply zk_fault_from; [|exact Hs]. intros s Hs'. by exists target. }
  pose proof Hs as ([G1 G2 G3 G4 G5 G6 G7] & _). split_and!.
  - split; [done|]. intros a b Ha. apply (grown_closed z _ target L L' F' a b Hcl Hs). by right; left.
  - intros b. split; [apply G6|]. intros [?|Hb]; [by apply G1|].
    apply (grown_closed z _ target L L' F' target b Hcl Hs); [by left|done].
Qed.

Lemma zk_closed_empty z : zk_closed z ∅.
Proof. split; [set_solver|]. intros a b Ha. set_solver. Qed.

(** [zk_fault] of one of several targets. *)
Lemma zk_collect_all_spec z targets : deps_written z → references_agree z → ∀ L, zk_closed z L →
  ∃ r, zk_collect_all z targets L = Ret r ∧
  match r with
  | Ok L' => zk_closed z L' ∧ ∀ b, b ∈ L' ↔ b ∈ L ∨ ∃ t, t ∈ targets ∧ zk_needed z t b
  | Err e => zk_fault z (.∈ targets) e
  end.
Proof.
  intros Hw Hag. induction targets as [|t targets IH]; intros L Hcl; cbn [zk_collect_all].
  { eexists. split; [reflexivity|]. split; [done|]. intros b. split; [by left|].
    intros [?|(? & []%elem_of_nil & _)]. done. }
  destruct (zk_collect_closed z t L Hw Hag Hcl) as (r & -> & Hr). rewrite bind_Ret.
  destruct r as [[L1 F1]|e].
  - destruct Hr as [C1 C2]. destruct (IH L1 C1) as (r & -> & Hr). eexists. split; [reflexivity|].
    destruct r as [L2|e].
    + destruct Hr as [D1 D2]. split; [done|]. intros b. rewrite D2, C2. setoid_rewrite elem_of_cons. naive_solver.
    + eapply zk_fault_from; [|exact Hr]. intros s Hs. exists s. split; [by right|done].
  - eexists. split; [reflexivity|]. eapply zk_fault_from; [|exact Hr]. intros s <-. exists t. split; [by left|done].
Qed.

(** Two collected libraries differ in file or name: one file and name stand for
    one artifact. *)
Lemma needed_key_inj z t t' a b :
  zk_needed z t a → zk_needed z t' b →
  convert_artifact_id_to_lib_path (linker z) a = convert_artifact_id_to_lib_path (linker z) b → a = b.
Proof.
  intros (c & _ & [f n] & _ & Ha) (c' & _ & [f' n'] & _ & Hb) Ek. unfold zk_resolve in *; simpl in *.
  pose proof (find_known _ _ _ _ _ Ha) as [_ Ka]. pose proof (find_known _ _ _ _ _ Hb) as [_ Kb].
  rewrite Ek, Kb in Ka. injection Ka as Hp ->. unfold find_artifact_id_by_library_path in *.
  rewrite Hp in Hb. naive_solver.
Qed.
End collecting.

(** ** Linking *)

(** What the operations outside the repository promise: addresses and linked
    codes read back, a linked object has its bytes, and the compiler answers with
    codes in hexadecimal. *)
Class ZkLaws {ops : BytecodeOps} {zops : ZkOps} := {
  hex_checksum : ∀ a, addr_from_hex (to_checksum a) = Some a;
  bytes_linked : ∀ bytes, is_unlinked (code_of_bytes bytes) = false;
  bytes_raw : ∀ bytes, raw_bytes (code_of_bytes bytes) = Some bytes;
  linked_code_bytes : ∀ c, is_unlinked c = false → is_Some (code_bytes c);
  zksolc_answers : ∀ bytecodes libs, ∃ out, zksolc_link bytecodes libs = Some out ∧
    ∀ k s, zo_linked out !! k = Some s ∨ zo_ignored out !! k = Some s → is_Some (hex_decode s)
}.

Section linking.
Context {ops : BytecodeOps} {zops : ZkOps} {zlaws : ZkLaws} {iorder : HashOrder ArtifactId}
  {sorder : HashOrder string} {porder : HashOrder Path}.
Implicit Types (z : ZkLinker) (id target : ArtifactId) (libs : Libraries) (m : gmap ArtifactId Contract).

Definition codes_readable m : Prop :=
  ∀ id c b, m !! id = Some c → ct_bytecode c = Some b → is_Some (raw_bytes b).
Definition hex_readable libs : Prop := ∀ key a, library_at libs key = Some a → is_Some (addr_from_hex a).
Definition has_code m id : Prop := ∃ c b, m !! id = Some c ∧ ct_bytecode c = Some b.

Lemma link_bytecodes_runs m : codes_readable m → ∃ bytecodes, link_bytecodes m = Ret bytecodes.
Proof.
  intros Hm. unfold link_bytecodes.
  assert (∀ id c b, (id, c) ∈ map_pairs m → ct_bytecode c = Some b → is_Some (raw_bytes b)) as H.
  { intros id c b Hin%map_pairs_elem. by eapply Hm. }
  clear Hm. revert H. generalize (∅ : gmap string (list Z)).
  induction (map_pairs m) as [|[id c] l IH]; intros acc H; simpl; [by eexists|].
  assert (∀ id c b, (id, c) ∈ l → ct_bytecode c = Some b → is_Some (raw_bytes b)) as H'.
  { intros ? ? ? ?. eapply H. by right. }
  destruct (ct_bytecode c) as [b|] eqn:Eb; [|by apply IH].
  destruct (H id c b ltac:(by left) Eb) as [bytes ->]. cbn [expect]. rewrite !bind_Ret. by apply IH.
Qed.

Lemma link_libraries_runs libs : hex_readable libs → ∃ l, link_libraries libs = Ret l.
Proof.
  intros Hl. unfold link_libraries.
  assert (∀ p n a, (p, n, a) ∈ library_list libs → is_Some (addr_from_hex a)) as H.
  { intros p n a Hin%library_at_list. by eapply Hl. }
  clear Hl. revert H. generalize (∅ : gset (string * string * Z)).
  induction (library_list libs) as [|[[p n] a] l IH]; intros acc H; simpl; [by eexists|].
  destruct (H p n a ltac:(by left)) as [x ->]. cbn [expect]. rewrite !bind_Ret. apply IH.
  intros ? ? ? ?. eapply H. by right.
Qed.

(** What linking an artifact can give. *)
Definition zk_link_result m target (r : result Contract ZkLinkerError) : Prop :=
  match r with
  | Ok c => ∃ c0, m !! target = Some c0 ∧ (c = c0 ∨ ∃ bytes, ct_bytecode c = Some (code_of_bytes bytes))
  | Err (Inner e) => e = MissingTargetArtifact ∧ m !! target = None
  | Err (MissingLibraries missing) => missing ≠ ∅
  | Err (MissingFactoryDeps _) => True
  end.

Lemma zk_link_runs m target libs :
  codes_readable m → hex_readable libs → ∃ r, zk_link m target libs = Ret r ∧ zk_link_result m target r.
Proof.
  intros Hm Hl. unfold zk_link. destruct (link_bytecodes_runs m Hm) as [bytecodes ->].
  destruct (link_libraries_runs libs Hl) as [ls ->]. rewrite !bind_Ret.
  destruct (zksolc_answers bytecodes ls) as (out & -> & Hout). cbn [expect]. rewrite bind_Ret.
  destruct (m !! target) as [c|] eqn:Ec; [|by eexists; split; [reflexivity|]].
  destruct (zo_unlinked out !! artifact_to_link_id target) as [u|].
  { eexists. split; [reflexivity|]. by case_decide. }
  assert (∀ s, is_Some (hex_decode s) → ∃ r, (bytes ← expect (hex_decode s);
      Ret (Ok (E:=ZkLinkerError) {| ct_bytecode := Some (code_of_bytes bytes);
                  ct_deployed := Some (Some (code_of_bytes bytes)) |})) = Ret r ∧ zk_link_result m target r) as Hlinked.
  { intros s [bytes ->]. eexists. split; [reflexivity|]. exists c. split; [done|]. right. by exists bytes. }
  destruct (zo_linked out !! artifact_to_link_id target) as [s|] eqn:E1; [eapply Hlinked, Hout; left; exact E1|].
  destruct (zo_ignored out !! artifact_to_link_id target) as [s|] eqn:E2; [eapply Hlinked, Hout; right; exact E2|].
  eexists. split; [reflexivity|]. exists c. split; [done|by left].
Qed.

Lemma codes_readable_insert m id c :
  codes_readable m → (∀ b, ct_bytecode c = Some b → is_Some (raw_bytes b)) → codes_readable (<[id := c]> m).
Proof. intros Hm Hc id' c' b [[-> ->]|[_ H]]%lookup_insert_Some Eb; [by apply Hc|by eapply Hm]. Qed.

(** A linked contract keeps its bytecode readable. *)
Lemma linked_readable m target c b :
  codes_readable m → zk_link_result m target (Ok c) → ct_bytecode c = Some b → is_Some (raw_bytes b).
Proof.
  intros Hm (c0 & E0 & [->|(bytes & Eb)]) E; [by eapply Hm|]. simplify_eq. by rewrite bytes_raw.
Qed.

Lemma attempt_runs m id libs :
  codes_readable m → hex_readable libs → has_code m id →
  ∃ m' b, attempt_link m id libs = Ret (m', b) ∧ codes_readable m' ∧ ∀ i, has_code m i → has_code m' i.
Proof.
  intros Hm Hl (c & b & Ec & Eb). unfold attempt_link. rewrite Ec. cbn [expect]. rewrite bind_Ret.
  destruct (zk_link_runs m id libs Hm Hl) as (r & -> & Hr). rewrite bind_Ret. destruct r as [c'|e].
  - assert (∃ b', ct_bytecode c' = Some b') as [b' Eb'].
    { destruct Hr as (c0 & E0 & [->|(bytes & E)]); [simplify_eq; by exists b|by eexists]. }
    rewrite Eb'. cbn [expect]. rewrite bind_Ret. do 2 eexists. split; [reflexivity|]. split.
    + apply codes_readable_insert; [done|]. intros ? ?. by eapply linked_readable.
    + intros i (ci & bi & Ei & Ebi). destruct (decide (i = id)) as [->|Hne].
      * exists c', b'. by rewrite lookup_insert_eq.
      * exists ci, bi. by rewrite lookup_insert_ne.
  - rewrite Eb. cbn [expect]. rewrite bind_Ret. by do 2 eexists.
Qed.

(** The code is what linking the library with [libs] gave. *)
Definition attempted libs (e : ArtifactId * Code) : Prop := ∃ m m', attempt_link m e.1 libs = Ret (m', e.2).

Lemma attempt_all_runs ids libs : ∀ m,
  codes_readable m → hex_readable libs → (∀ id, id ∈ ids → has_code m id) →
  ∃ m' needed, attempt_all m ids libs = Ret (m', needed) ∧ codes_readable m' ∧
    (∀ i, has_code m i → has_code m' i) ∧ needed.*1 = ids ∧ Forall (attempted libs) needed.
Proof.
  induction ids as [|id ids IH] using rev_ind; intros m Hm Hl Hids.
  { exists m, []. by repeat (split; [done|]). }
  destruct (IH m Hm Hl) as (m1 & l1 & E1 & H1 & H2 & H3 & H4); [intros; apply Hids; set_solver|].
  destruct (attempt_runs m1 id libs H1 Hl) as (m2 & b & E2 & R1 & R2); [apply H2, Hids; set_solver|].
  exists m2, (l1 ++ [(id, b)]). unfold attempt_all in *. rewrite foldM_app, E1, bind_Ret. simpl. rewrite E2.
  split_and!; [done|done|by intros i ?%H2%R2| |].
  - rewrite fmap_app, H3. done.
  - apply Forall_app. split; [done|]. constructor; [by exists m1, m2|constructor].
Qed.
End linking.

(** *** CREATE2 *)

Section create2.
Context {ops : BytecodeOps} {zops : ZkOps} {zlaws : ZkLaws} {iorder : HashOrder ArtifactId}
  {sorder : HashOrder string} {porder : HashOrder Path}.
Context (z : ZkLinker) (sender salt : Z) (needed0 : gset ArtifactId) (libs0 : Libraries).
Implicit Types (id : ArtifactId) (libs : Libraries).
Abbreviation zkey := (convert_artifact_id_to_lib_path (linker z)).

Definition code_address (code : list Z) : string :=
  to_checksum (zk_compute_create2_address sender (hash_bytecode code) salt []).

(** The given addresses stay, and every other one is that of a deployed code. *)
Definition extends_by libs (deploy : list (list Z)) : Prop :=
  (∀ k a, library_at libs0 k = Some a → library_at libs k = Some a) ∧
  (∀ k a, library_at libs k = Some a → library_at libs0 k = Some a ∨
     ∃ id code, id ∈ needed0 ∧ k = zkey id ∧ code ∈ deploy ∧ a = code_address code).

Record z2_inv (s : ZkCreate2) : Prop := {
  zi_codes : codes_readable (z2_contracts s);
  zi_has : ∀ id, id ∈ (z2_needed s).*1 → has_code (z2_contracts s) id;
  zi_readable : hex_readable (z2_libraries s);
  zi_missing : ∀ id, id ∈ (z2_needed s).*1 → id ∈ needed0 ∧ library_at libs0 (zkey id) = None;
  zi_split : ∀ id, id ∈ needed0 → id ∈ (z2_needed s).*1 ∨ is_Some (library_at (z2_libraries s) (zkey id));
  zi_extends : extends_by (z2_libraries s) (z2_deploy s);
  zi_attempted : Forall (attempted (z2_libraries s)) (z2_needed s)
}.

(** What the linker answers. *)
Definition z2_result (r : result LinkOutput LinkerError) : Prop :=
  match r with
  | Ok out =>
      (∀ id, id ∈ needed0 → is_Some (library_at (libraries out) (zkey id))) ∧
      extends_by (libraries out) (libs_to_deploy out)
  | Err CyclicDependency => ∃ (rest : list (ArtifactId * Code)) libs, rest ≠ [] ∧
      (∀ id, id ∈ needed0 → id ∈ rest.*1 ∨ is_Some (library_at libs (zkey id))) ∧
      ∀ id b, (id, b) ∈ rest → id ∈ needed0 ∧ library_at libs0 (zkey id) = None ∧
        attempted libs (id, b) ∧ is_unlinked b = true
  | Err _ => False
  end.

Lemma add_hex_readable libs k x : hex_readable libs → hex_readable (add_library libs k (to_checksum x)).
Proof.
  intros Hr k' a. rewrite add_library_at. case_decide; [|apply Hr]. intros [= <-]. by rewrite hex_checksum.
Qed.

(** Deploying a library that is linked. *)
Lemma z2_deployed s index id b code :
  z2_inv s → z2_needed s !! index = Some (id, b) →
  let libs := add_library (z2_libraries s) (zkey id) (code_address code) in
  ∃ m' needed, attempt_all (z2_contracts s) (swap_remove index (z2_needed s)).*1 libs = Ret (m', needed) ∧
    length needed = pred (length (z2_needed s)) ∧
    z2_inv {| z2_contracts := m'; z2_needed := needed; z2_libraries := libs; z2_deploy := z2_deploy s ++ [code] |}.
Proof.
  intros [C H R M S [X1 X2] A] Hi libs. pose proof (swap_remove_perm _ _ _ Hi) as Hp.
  remember (swap_remove index (z2_needed s)) as rest eqn:Erest. clear Erest.
  assert (∀ i, i ∈ (z2_needed s).*1 ↔ i = id ∨ i ∈ rest.*1) as Hin.
  { intros i. rewrite <- Hp. simpl. by rewrite elem_of_cons. }
  destruct (attempt_all_runs rest.*1 libs (z2_contracts s) C)
    as (m' & needed & E & C' & H' & Eids & A').
  { by apply add_hex_readable. } { intros i Hx. apply H, Hin. by right. }
  destruct (M id) as [Mid Mnone]; [apply Hin; by left|].
  exists m', needed. split_and!; [done| |].
  { rewrite <- (length_fmap fst needed), Eids, length_fmap, <- Hp. done. }
  split; cbn [z2_contracts z2_needed z2_libraries z2_deploy]; rewrite ?Eids; try done.
  - intros i Hx. apply H', H, Hin. by right.
  - by apply add_hex_readable.
  - intros i Hx. apply M, Hin. by right.
  - intros i Hx. unfold libs. rewrite add_library_at. case_decide as Hk; [by right; eexists|].
    destruct (S i Hx) as [[->|?]%Hin|?]; [done|by left|by right].
  - split; intros k a; unfold libs; rewrite add_library_at; case_decide as Hk.
    + intros Ha. subst k. congruence.
    + apply X1.
    + intros [= <-]. right. exists id, code. split_and!; try done. set_solver.
    + intros Ha. destruct (X2 k a Ha) as [?|(i & c & ? & ? & ? & ?)]; [by left|]. right. exists i, c. set_solver.
Qed.

Lemma z2_loop s : z2_inv s →
  ∃ r, run (S (length (z2_needed s))) (zk_create2_body z sender salt) s = Ret r ∧ z2_result r.
Proof.
  intros Hs. apply (run_spec z2_inv z2_result (λ s, length (z2_needed s))); [|done|lia].
  clear s Hs. intros s Hi. unfold zk_create2_body. destruct (z2_needed s) as [|e rest] eqn:En.
  { right. eexists. split; [reflexivity|]. destruct Hi as [_ _ _ _ S X _]. split; [|done].
    intros id Hid. destruct (S id Hid) as [Hin|?]; [|done]. by rewrite En in Hin; apply elem_of_nil in Hin. }
  rewrite <- En. destruct (list_find _ (z2_needed s)) as [[index [id b]]|] eqn:Ef.
  - left. apply list_find_Some in Ef as (Hix & Hl & _). simpl in Hl.
    destruct (linked_code_bytes b Hl) as [code Ec]. rewrite Ec. cbn [expect]. rewrite bind_Ret.
    destruct (z2_deployed s index id b code Hi Hix) as (m' & needed & E & Hlen & Hinv).
    fold (code_address code). rewrite E, bind_Ret. eexists. split; [reflexivity|]. split; [done|].
    cbn [z2_needed]. rewrite Hlen, En. simpl. lia.
  - right. eexists. split; [reflexivity|]. apply list_find_None in Ef. rewrite Forall_forall in Ef.
    destruct Hi as [_ _ _ M S _ A]. exists (z2_needed s), (z2_libraries s). split_and!; [by rewrite En|done|].
    intros id b Hin. destruct (M id) as [? ?]; [apply list_elem_of_fmap; by exists (id, b)|].
    rewrite Forall_forall in A. split_and!; [done|done|by apply A|]. apply not_false_is_true, (Ef _ Hin).
Qed.
End create2.

(** Linking for CREATE2 always ends and never panics, for readable codes and
    addresses: either every library the target or one of its factory
    dependencies needs has an address, the given ones kept and every other one
    that of a deployed code; or a cycle is reported, and then some libraries
    could not be linked with all others in place; or the search failed. *)
Theorem zk_link_with_create2_correct {ops : BytecodeOps} {zops : ZkOps} {zlaws : ZkLaws}
    {iorder : HashOrder ArtifactId} {sorder : HashOrder string} {porder : HashOrder Path}
    (strip : Path → Libraries → Libraries) (z : ZkLinker) (libs : Libraries) (sender salt : Z) (target : ArtifactId) :
  deps_written z → references_agree z → codes_readable (contracts (linker z)) →
  hex_readable (strip (root (linker z)) libs) →
  (∀ id, zk_needed z target id → has_code (contracts (linker z)) id) →
  ∃ r, zk_link_with_create2 strip z libs sender salt target = Ret r ∧
    match r with
    | Err MissingTargetArtifact => zk_fault z (eq target) MissingTargetArtifact
    | Err (MissingLibraryArtifact file name) => zk_fault z (eq target) (MissingLibraryArtifact file name)
    | r => ∃ needed, (∀ id, id ∈ needed ↔ zk_needed z target id) ∧
        z2_result z sender salt needed (strip (root (linker z)) libs) r
    end.
Proof.
  intros Hw Hag Hc Hr Hcode. unfold zk_link_with_create2.
  destruct (zk_collect_closed z target ∅ Hw Hag (zk_closed_empty z)) as (r & -> & Hcol). rewrite bind_Ret.
  destruct r as [[needed F]|e]; [|eexists; split; [reflexivity|]; by destruct e].
  destruct Hcol as [_ Hneeded].
  assert (∀ id, id ∈ needed ↔ zk_needed z target id) as Hn by (intros id; rewrite Hneeded; set_solver).
  set (libs1 := strip (root (linker z)) libs) in *.
  set (missing := filter _ (set_iter needed)).
  assert (∀ id, id ∈ missing ↔ id ∈ needed ∧ library_at libs1 (convert_artifact_id_to_lib_path (linker z) id) = None)
    as Hmiss.
  { intros id. unfold missing. rewrite list_elem_of_filter, set_iter_elem_of, eq_None_not_Some, <- has_library_spec.
    rewrite not_true_iff_false. naive_solver. }
  destruct (attempt_all_runs missing libs1 (contracts (linker z)) Hc Hr) as (m & todo & -> & C & H & E & A).
  { intros id [Hid _]%Hmiss. by apply Hcode, Hn. }
  rewrite bind_Ret.
  destruct (z2_loop z sender salt needed libs1
    {| z2_contracts := m; z2_needed := todo; z2_libraries := libs1; z2_deploy := [] |}) as (r & Er & Hres).
  { split; simpl; rewrite ?E; try done.
    - intros id [Hid _]%Hmiss. by apply H, Hcode, Hn.
    - intros id Hid%Hmiss. done.
    - intros id Hid. destruct (library_at libs1 (convert_artifact_id_to_lib_path (linker z) id)) eqn:El; [by right; eexists|].
      left. by apply Hmiss.
    - split; [done|]. intros k a Ha. by left. }
  exists r. split; [exact Er|]. destruct r as [out|[]]; try done; by exists needed.
Qed.

(** *** Addresses from the nonce *)

Section addresses.
Context {ops : BytecodeOps} {zops : ZkOps} {zlaws : ZkLaws} {iorder : HashOrder ArtifactId}.

(** The choice of addresses is the one of the other linker, with its own
    function from sender and nonce to an address; it does not read the codes. *)
#[local] Instance address_ops : BytecodeOps :=
  {| Code := unit; AddressError := unit; link_references := λ _, ∅; code_link := λ c _ _ _, c;
     is_unlinked := λ _, false; code_bytes := λ _, Some [];
     addr_from_str := λ s, match addr_from_hex s with Some a => Ok a | None => Err tt end;
     to_checksum := @to_checksum ops;
     create := λ sender nonce, zk_compute_create_address sender (wrap 32 nonce);
     create2_from_code := λ _ _ _, 0 |}.

#[local] Program Instance address_laws : BytecodeLaws := {| code_ok := λ _, True |}.
Next Obligation. done. Qed.
Next Obligation. intros ? ? ? ? ? _. split; [intros (? & H & _)|intros [(? & H & _) _]]; simpl in H; by rewrite lookup_empty in H. Qed.
Next Obligation. intros ? _. split; [done|]. intros (ref & ? & H & _). simpl in H. by rewrite lookup_empty in H. Qed.
Next Obligation. intros. by eexists. Qed.
Next Obligation. intros a. simpl. by rewrite hex_checksum. Qed.

Definition address_linker (z : ZkLinker (ops := ops)) : Linker (ops := address_ops) :=
  {| root := root (linker z); contracts := ∅ |}.

Lemma zk_assign_is (z : ZkLinker (ops := ops)) sender s id :
  zk_assign_address z sender s id = assign_address (ops := address_ops) (address_linker z) sender s id.
Proof. done. Qed.

Lemma readable_hex libs : readable (ops := address_ops) libs ↔ hex_readable (ops := ops) libs.
Proof.
  split; intros H k a Ha; destruct (H k a Ha) as [x Hx]; simpl in *.
  - destruct (addr_from_hex a); [by eexists|done].
  - rewrite Hx. by eexists.
Qed.

(** The libraries and the deployments of [ids]. *)
Record zk_assigned (z : ZkLinker (ops := ops)) (sender nonce : Z) (libs : Libraries) (ids : list ArtifactId) (libs' : Libraries)
    (to_deploy : list (ArtifactId * Z)) : Prop := {
  za_kept : ∀ k a, library_at libs k = Some a → library_at libs' k = Some a;
  za_all : ∀ id, id ∈ ids → is_Some (library_at libs' (convert_artifact_id_to_lib_path (linker z) id));
  za_deploy : ∀ i id x, to_deploy !! i = Some (id, x) →
    id ∈ ids ∧ x = zk_compute_create_address sender (wrap 32 (wrap 64 (nonce + Z.of_nat i))) ∧
    library_at libs (convert_artifact_id_to_lib_path (linker z) id) = None ∧
    library_at libs' (convert_artifact_id_to_lib_path (linker z) id) = Some (@to_checksum ops x);
  za_readable : hex_readable (ops := ops) libs → hex_readable (ops := ops) libs'
}.

Lemma zk_assign_spec (z : ZkLinker (ops := ops)) sender nonce libs ids :
  is_u 64 nonce →
  ∃ libs' to_deploy n,
    foldl (zk_assign_address z sender) (libs, [], nonce) ids = (libs', to_deploy, n) ∧
    zk_assigned z sender nonce libs ids libs' to_deploy.
Proof.
  intros Hn. destruct (assign_spec (ops := address_ops) (address_linker z) sender nonce libs ids Hn)
    as (libs' & dep & E & [K A _ D R]).
  exists libs', dep. eexists. split; [exact E|]. split; [exact K|exact A|exact D|].
  rewrite <- !readable_hex. exact R.
Qed.

(** No library is deployed twice. *)
Lemma zk_assign_NoDup (z : ZkLinker (ops := ops)) sender nonce libs ids libs' dep n :
  foldl (zk_assign_address z sender) (libs, [], nonce) ids = (libs', dep, n) → NoDup ids →
  NoDup dep.*1 ∧ ∀ id, id ∈ dep.*1 → id ∈ ids.
Proof.
  revert libs' dep n. induction ids as [|id ids IH] using rev_ind; intros libs' dep n E Hnd.
  { simpl in E. simplify_eq. split; [constructor|]. by intros ? ?%elem_of_nil. }
  rewrite foldl_app in E. destruct (foldl _ _ ids) as [[l1 d1] n1].
  apply NoDup_app in Hnd as (H1 & H2 & _). destruct (IH l1 d1 n1 eq_refl H1) as [I1 I2].
  cbn [foldl] in E. unfold zk_assign_address in E. destruct (has_library _ _); simplify_eq.
  { split; [done|]. intros i Hi. apply elem_of_app. left. by apply I2. }
  rewrite fmap_app. split.
  - apply NoDup_app. split_and!; [done| |apply NoDup_singleton]. intros i Hi%I2 Hx%list_elem_of_singleton. subst.
    apply (H2 _ Hi). by left.
  - intros i [Hi|Hi]%elem_of_app; apply elem_of_app; [left; by apply I2|by right].
Qed.
End addresses.

(** *** The queue *)

(** The compiler reports every bytecode it is given, and leaves none unlinked for
    its factory dependencies alone. *)
Record full_answers {ops : BytecodeOps} {zops : ZkOps} : Prop := {
  fa_all : ∀ bytecodes libs out k, zksolc_link bytecodes libs = Some out → is_Some (bytecodes !! k) →
    is_Some (zo_unlinked out !! k) ∨ is_Some (zo_linked out !! k) ∨ is_Some (zo_ignored out !! k);
  fa_symbols : ∀ bytecodes libs out k u, zksolc_link bytecodes libs = Some out →
    zo_unlinked out !! k = Some u → ul_symbols u ≠ ∅
}.

Section queue.
Context {ops : BytecodeOps} {zops : ZkOps} {zlaws : ZkLaws} {iorder : HashOrder ArtifactId}
  {sorder : HashOrder string} {porder : HashOrder Path} {morder : HashOrder MissingLibrary}.
Context (strip_id : Path → ArtifactId → ArtifactId) (z : ZkLinker).
Context (Hfull : full_answers).
Implicit Types (id target : ArtifactId) (libs : Libraries) (m : gmap ArtifactId Contract).

Lemma link_bytecodes_has m bytecodes id :
  link_bytecodes m = Ret bytecodes → has_code m id → is_Some (bytecodes !! artifact_to_link_id id).
Proof.
  intros E (c & b & Ec & Eb). unfold link_bytecodes in E.
  assert ((id, c) ∈ map_pairs m ∨ is_Some ((∅ : gmap string (list Z)) !! artifact_to_link_id id)) as H
    by (left; by apply map_pairs_elem).
  revert E H. generalize (∅ : gmap string (list Z)).
  induction (map_pairs m) as [|[id' c'] l IH]; intros acc E H; simpl in E.
  { simplify_eq. destruct H as [[]%elem_of_nil|?]. done. }
  apply bind_Ret_inv in E as (acc' & E1 & E). eapply IH; [exact E|].
  destruct H as [[[= <- <-]|H]%elem_of_cons|H]; [right|by left|right].
  - rewrite Eb in E1. apply bind_Ret_inv in E1 as (bytes & _ & E1). simplify_eq. by rewrite lookup_insert_eq.
  - destruct (ct_bytecode c') as [b'|]; [|by simplify_eq].
    apply bind_Ret_inv in E1 as (bytes & _ & E1). simplify_eq. by apply lookup_insert_is_Some'; right.
Qed.

(** A contract that was linked has the code the compiler gave. *)
Definition fully_linked (c : Contract) : Prop := ∃ bytes, ct_bytecode c = Some (code_of_bytes bytes).

Lemma zk_link_full m target libs :
  codes_readable m → hex_readable libs → has_code m target →
  ∃ r, zk_link m target libs = Ret r ∧
  match r with
  | Ok c => fully_linked c
  | Err (MissingLibraries missing) => missing ≠ ∅
  | Err _ => False
  end.
Proof.
  intros Hm Hl Hc. unfold zk_link. destruct (link_bytecodes_runs m Hm) as [bytecodes Eb]. rewrite Eb, bind_Ret.
  destruct (link_libraries_runs libs Hl) as [ls ->]. rewrite bind_Ret.
  destruct (zksolc_answers bytecodes ls) as (out & Eo & Hout). rewrite Eo. cbn [expect]. rewrite bind_Ret.
  pose proof (link_bytecodes_has m bytecodes target Eb Hc) as Hk. destruct Hc as (c & b & -> & _).
  pose proof (fa_all Hfull _ _ _ _ Eo Hk) as Hall.
  destruct (zo_unlinked out !! artifact_to_link_id target) as [u|] eqn:Eu.
  { pose proof (fa_symbols Hfull _ _ _ _ _ Eo Eu). eexists. split; [reflexivity|]. by rewrite decide_False. }
  assert (∃ s, (match zo_linked out !! artifact_to_link_id target with
                | Some linked => Some linked | None => zo_ignored out !! artifact_to_link_id target end) = Some s ∧
               is_Some (hex_decode s)) as (s & -> & [bytes ->]).
  { destruct (zo_linked out !! artifact_to_link_id target) as [s|] eqn:E1; [exists s; split; [done|]; eapply Hout; by left|].
    destruct Hall as [[? ?]|[[? ?]|[s Es]]]; [done|done|]. exists s. split; [done|]. eapply Hout. by right. }
  cbn [expect]. rewrite bind_Ret. eexists. split; [reflexivity|]. by exists bytes.
Qed.

(** The invariant of the loop over [targets0]. *)
Record queue_inv (targets0 : list ArtifactId) libs (q : LinkQueue) : Prop := {
  qi_codes : codes_readable (lq_contracts q);
  qi_has : ∀ id, id ∈ targets0 → has_code (lq_contracts q) (strip_id (root (linker z)) id);
  qi_split : ∀ id, id ∈ targets0 ↔ id ∈ lq_targets q ∨ id ∈ (lq_linked q).*1;
  qi_distinct : NoDup (lq_linked q).*1;
  qi_linked : ∀ id c, (id, c) ∈ lq_linked q → fully_linked c ∧
    ∃ m, zk_link m (strip_id (root (linker z)) id) libs = Ret (Ok c)
}.

Definition queue_result (targets0 : list ArtifactId) libs (r : result (gmap ArtifactId Contract) ZkLinkerError) : Prop :=
  match r with
  | Ok linked => (∀ id, id ∈ targets0 ↔ is_Some (linked !! id)) ∧
      ∀ id c, linked !! id = Some c → fully_linked c ∧
        ∃ m, zk_link m (strip_id (root (linker z)) id) libs = Ret (Ok c)
  | Err (MissingLibraries missing) => missing ≠ ∅
  | Err _ => False
  end.

Lemma queue_linked targets0 libs q id rest c :
  queue_inv targets0 libs q → lq_targets q = id :: rest → id ∉ (lq_linked q).*1 → fully_linked c →
  zk_link (lq_contracts q) (strip_id (root (linker z)) id) libs = Ret (Ok c) →
  queue_inv targets0 libs {| lq_contracts := <[id := c]> (lq_contracts q); lq_targets := rest;
                             lq_linked := lq_linked q ++ [(id, c)] |}.
Proof.
  intros [C H S D L] Et Hn [bytes Ec] Ez. split; cbn [lq_contracts lq_targets lq_linked].
  - apply codes_readable_insert; [done|]. intros b Eb. simplify_eq. by rewrite bytes_raw.
  - intros i Hi. destruct (decide (strip_id (root (linker z)) i = id)) as [->|Hne].
    + exists c, (code_of_bytes bytes). by rewrite lookup_insert_eq.
    + destruct (H i Hi) as (ci & bi & ? & ?). exists ci, bi. by rewrite lookup_insert_ne.
  - intros i. rewrite S, Et, fmap_app, elem_of_app, elem_of_cons. simpl. rewrite list_elem_of_singleton. naive_solver.
  - rewrite fmap_app. apply NoDup_app. split_and!; [done| |apply NoDup_singleton].
    intros i Hi Hx%list_elem_of_singleton. simpl in Hx. by subst.
  - intros i ci [Hi|Hi%list_elem_of_singleton]%elem_of_app; [by apply L|]. simplify_eq.
    split; [by exists bytes|by eexists].
Qed.

Lemma queue_loop targets0 libs q : hex_readable libs → queue_inv targets0 libs q →
  ∃ r, run (S (length (lq_targets q))) (linked_body strip_id z libs) q = Ret r ∧ queue_result targets0 libs r.
Proof.
  intros Hl Hq. apply (run_spec (queue_inv targets0 libs) (queue_result targets0 libs) (λ q, length (lq_targets q)));
    [|done|lia].
  clear q Hq. intros q Hi. unfold linked_body. destruct (lq_targets q) as [|id rest] eqn:Et.
  { right. eexists. split; [reflexivity|]. destruct Hi as [_ _ S D L].
    assert (∀ id c, (list_to_map (rev (lq_linked q)) : gmap ArtifactId Contract) !! id = Some c ↔ (id, c) ∈ lq_linked q) as Hm.
    { intros id c. assert (rev (lq_linked q) = reverse (lq_linked q)) as -> by apply rev_alt.
      rewrite <- elem_of_list_to_map; [by rewrite elem_of_reverse|].
      by rewrite fmap_reverse, reverse_Permutation. }
    split; [|by intros id c Hc%Hm; apply L]. intros id. rewrite S, Et. unfold is_Some.
    setoid_rewrite Hm. rewrite list_elem_of_fmap. split; [intros [[]%elem_of_nil|([i c] & -> & ?)]; by exists c|].
    intros [c Hc]. right. by exists (id, c). }
  case_decide as Hin.
  { left. eexists. split; [reflexivity|]. split; [|simpl; lia]. destruct Hi as [C H S D L]. split; try done.
    intros i. rewrite S, Et, elem_of_cons. simpl. naive_solver. }
  destruct (zk_link_full (lq_contracts q) (strip_id (root (linker z)) id) libs (qi_codes _ _ _ Hi) Hl) as (r & Ez & Hr).
  { apply (qi_has _ _ _ Hi), (qi_split _ _ _ Hi). rewrite Et. left. by left. }
  rewrite Ez, bind_Ret. destruct r as [c|[]]; try done.
  - left. eexists. split; [reflexivity|]. split; [by apply queue_linked|]. simpl. lia.
  - right. by eexists.
Qed.

(** The bytecodes of the linked artifacts. *)
Lemma bytecode_bytes_runs m :
  (∀ id c, m !! id = Some c → fully_linked c) →
  ∃ codes, bytecode_bytes m = Ret codes ∧ length codes = size m ∧
    ∀ id c, m !! id = Some c → ∃ code, (ct_bytecode c ≫= code_bytes) = Some code ∧ code ∈ codes.
Proof.
  clear Hfull. intros Hm. unfold bytecode_bytes.
  assert (∀ id c, (id, c) ∈ map_pairs m → ∃ code, (ct_bytecode c ≫= code_bytes) = Some code) as Hcode.
  { intros id c Hin%map_pairs_elem. destruct (Hm id c Hin) as [bytes ->]. simpl. apply linked_code_bytes, bytes_linked. }
  assert (size m = length (map_pairs m)) as -> by (rewrite map_pairs_perm; by rewrite length_map_to_list).
  setoid_rewrite <- (map_pairs_elem m). clear Hm. induction (map_pairs m) as [|[i ci] l IH] using rev_ind.
  { exists []. split_and!; [done|done|]. by intros ? ? ?%elem_of_nil. }
  destruct IH as (codes & E & Hlen & Hin); [intros i' c' ?; apply (Hcode i'); set_solver|].
  destruct (Hcode i ci ltac:(set_solver)) as [code Ec]. exists (codes ++ [code]).
  rewrite foldM_app, E, bind_Ret. simpl. rewrite Ec. cbn [expect]. split_and!; [done|rewrite !length_app; simpl; lia|].
  intros id c [Hx|Hx%list_elem_of_singleton]%elem_of_app; [|simplify_eq; exists code; set_solver].
  destruct (Hin id c Hx) as (code' & ? & ?). exists code'. set_solver.
Qed.
End queue.

Lemma stripped_codes {ops : BytecodeOps} {zops : ZkOps} {iorder : HashOrder ArtifactId}
    (strip_id : Path → ArtifactId → ArtifactId) (z : ZkLinker) :
  codes_readable (contracts (linker z)) → codes_readable (stripped_contracts strip_id z).
Proof.
  intros Hc. unfold stripped_contracts.
  assert (∀ id c b, (id, c) ∈ map_pairs (contracts (linker z)) → ct_bytecode c = Some b → is_Some (raw_bytes b)) as H.
  { intros id c b Hin%map_pairs_elem. by eapply Hc. }
  assert (codes_readable (∅ : gmap ArtifactId Contract)) as He by (intros id c b E; by rewrite lookup_empty in E).
  clear Hc. revert H He. generalize (∅ : gmap ArtifactId Contract).
  induction (map_pairs (contracts (linker z))) as [|[i ci] l IH]; intros acc H He; simpl; [done|].
  apply IH; [intros ? ? ? ?; eapply H; by right|]. apply codes_readable_insert; [done|]. intros b Eb.
  apply (H i ci); [by left|done].
Qed.

(** What the linker answers when the needed libraries are found. *)
Definition nonce_result {ops : BytecodeOps} {zops : ZkOps} {iorder : HashOrder ArtifactId}
    {sorder : HashOrder string} {porder : HashOrder Path}
    (strip_id : Path → ArtifactId → ArtifactId) (z : ZkLinker) (sender nonce : Z) (libs : Libraries)
    (targets : list ArtifactId) (out : LinkOutput) : Prop :=
  ∃ to_deploy,
    (∀ t id, t ∈ targets → zk_needed z t id →
       is_Some (library_at (libraries out) (convert_artifact_id_to_lib_path (linker z) id))) ∧
    (∀ k a, library_at libs k = Some a → library_at (libraries out) k = Some a) ∧
    (∀ i id x, to_deploy !! i = Some (id, x) →
       x = zk_compute_create_address sender (wrap 32 (wrap 64 (nonce + Z.of_nat i))) ∧
       library_at (libraries out) (convert_artifact_id_to_lib_path (linker z) id) = Some (to_checksum x)) ∧
    length (libs_to_deploy out) = length to_deploy ∧
    (∀ id, id ∈ to_deploy.*1 → ∃ m c code,
       zk_link m (strip_id (root (linker z)) id) (libraries out) = Ret (Ok c) ∧
       (ct_bytecode c ≫= code_bytes) = Some code ∧ code ∈ libs_to_deploy out).


(** ** Concrete runs *)

(** Codes are numbers that stand for lists of bytes; the compiler links whatever
    it is given. *)
#[export] Instance ex_zk : ZkOps (ops := ex_bytecode) :=
  {| raw_bytes := λ c : @Code ex_bytecode, decode (Z.to_pos (ec_id c));
     code_of_bytes := λ bytes, {| ec_refs := ∅; ec_id := Zpos (encode bytes) |};
     hex_decode := λ s, decode (string_pos s);
     addr_from_hex := λ s, decode (string_pos s);
     hash_bytecode := λ bytes, Zpos (encode bytes);
     zk_compute_create_address := λ sender nonce, sender * 1000 + nonce;
     zk_compute_create2_address := λ sender hash salt _, sender * 1000 + hash + salt;
     zksolc_link := λ bytecodes _,
       Some {| zo_linked := (λ bytes, pos_string (encode bytes)) <$> bytecodes; zo_unlinked := ∅; zo_ignored := ∅ |} |}.

#[export] Program Instance ex_zk_laws : ZkLaws (ops := ex_bytecode).
Next Obligation. intros a. simpl. by rewrite string_pos_string, decode_encode. Qed.
Next Obligation. intros bytes. simpl. by rewrite bool_decide_eq_true_2. Qed.
Next Obligation. intros bytes. simpl. by rewrite decode_encode. Qed.
Next Obligation. intros c. simpl. intros E%negb_false_iff. rewrite E. by eexists. Qed.
Next Obligation.
  intros bytecodes libs. eexists. split; [reflexivity|]. simpl. intros k s [E|E].
  - apply lookup_fmap_Some in E as (bytes & <- & _). by rewrite string_pos_string, decode_encode.
  - by rewrite lookup_empty in E.
Qed.

Lemma ex_full : full_answers (zops := ex_zk).
Proof.
  split.
  - intros bytecodes libs out k [= <-] [bytes Hk]. right; left. simpl. by rewrite lookup_fmap, Hk.
  - intros bytecodes libs out k u [= <-] H. simpl in H. by rewrite lookup_empty in H.
Qed.

Definition ex_code (n : Z) : ExCode := {| ec_refs := ∅; ec_id := Zpos (encode [n]) |}.

(** [T] refers to the library [A] and creates [D], whose code refers to the
    library [B] of the file [lib_file]. *)
Definition ex_zk_linker (lib_file : string) : ZkLinker (ops := ex_bytecode) :=
  let a r d := {| za_references := Some r; factory_dependencies := None; factory_dependencies_unlinked := d |} in
  {| linker := {| root := []; contracts :=
       <[ex_id "T.sol" "T" := ex_contract (ex_code 1)]> (<[ex_id "D.sol" "D" := ex_contract (ex_code 2)]>
       (<[ex_id "L.sol" "A" := ex_contract (ex_code 3)]>
       {[ex_id lib_file "B" := ex_contract (ex_code 4)]})) |};
     zk_artifacts :=
       [(ex_id "T.sol" "T", a {["src/L.sol" := {["A"]}]} (Some {["src/D.sol:D"]}));
        (ex_id "D.sol" "D", a {[String.append "src/" lib_file := {["B"]}]} None);
        (ex_id "L.sol" "A", a ∅ None); (ex_id lib_file "B", a ∅ None)] |}.

Definition ex_strip_id (_ : Path) (id : ArtifactId) : ArtifactId := id.

Lemma zk_find_elem {ops : BytecodeOps} (z : ZkLinker) a art : zk_find z a = Some art → art ∈ (zk_artifacts z).*2.
Proof.
  unfold zk_find. destruct (List.find _ _) as [e|] eqn:E; simpl; [|done]. intros [= <-].
  apply find_some in E as [E _]. apply list_elem_of_fmap. exists e. split; [done|]. by apply list_elem_of_In.
Qed.

Lemma ex_zk_written f : deps_written (ex_zk_linker f).
Proof.
  assert (Forall (λ art, ∀ dep, dep ∈ unlinked_deps art → is_Some (split_dep dep)) (zk_artifacts (ex_zk_linker f)).*2) as H.
  { unfold ex_zk_linker. cbn [zk_artifacts fmap list_fmap snd].
    apply Forall_cons_2; [|apply Forall_cons_2; [|apply Forall_cons_2; [|apply Forall_cons_2; [|apply Forall_nil_2]]]];
      unfold unlinked_deps; cbn [factory_dependencies factory_dependencies_unlinked fmap option_fmap option_map default];
      intros dep [_ Hd]%list_elem_of_filter;
      [unfold id in Hd; apply set_iter_elem_of, elem_of_singleton in Hd as ->; by eexists|by apply elem_of_nil in Hd..]. }
  intros a art dep Ha%zk_find_elem. rewrite Forall_forall in H. by apply H.
Qed.

Lemma ex_zk_agree : references_agree (ex_zk_linker "M.sol").
Proof.
  assert (Forall (λ art, ∀ f names, artifact_references art !! f = Some names →
    names = if decide (f = "src/L.sol") then {["A"]} else {["B"]}) (zk_artifacts (ex_zk_linker "M.sol")).*2) as H.
  { unfold ex_zk_linker. cbn [zk_artifacts fmap list_fmap snd].
    apply Forall_cons_2; [|apply Forall_cons_2; [|apply Forall_cons_2; [|apply Forall_cons_2; [|apply Forall_nil_2]]]];
      unfold artifact_references; cbn [za_references default from_option]; unfold id; intros f names;
      first [by intros [<- <-]%lookup_singleton_Some | by rewrite lookup_empty]. }
  rewrite Forall_forall in H. intros a b arta artb f names names' Ea%zk_find_elem Eb%zk_find_elem Ra Rb.
  by rewrite (H _ Ea _ _ Ra), (H _ Eb _ _ Rb).
Qed.

Definition has_code_b (m : gmap ArtifactId (Contract (ops := ex_bytecode))) (id : ArtifactId) : bool :=
  match m !! id with Some c => bool_decide (is_Some (raw_bytes <$> ct_bytecode c)) | None => false end.

Lemma has_code_dec m id : has_code_b m id = true → has_code m id.
Proof.
  unfold has_code_b. destruct (m !! id) as [c|] eqn:E; [|done]. intros [b Hb]%bool_decide_eq_true.
  destruct (ct_bytecode c) as [b'|] eqn:Eb; [|done]. by exists c, b'.
Qed.

Lemma ex_zk_codes t id :
  zk_needed (ex_zk_linker "M.sol") t id → has_code (stripped_contracts ex_strip_id (ex_zk_linker "M.sol")) id.
Proof.
  intros (c & _ & ref & _ & Hid%resolve_known). simpl in Hid. rewrite !dom_insert, dom_singleton in Hid.
  apply has_code_dec. rewrite !elem_of_union, !elem_of_singleton in Hid.
  destruct Hid as [->|[->|[->| ->]]]; vm_compute; reflexivity.
Qed.

Lemma ex_zk_readable f : codes_readable (contracts (linker (ex_zk_linker f))).
Proof.
  intros id c b. simpl. rewrite !lookup_insert_Some, lookup_singleton_Some. intros H Eb.
  assert (∃ n, c = ex_contract (ex_code n)) as [n ->] by naive_solver.
  cbn [ex_contract ct_bytecode] in Eb. injection Eb as <-. exists [n]. apply decode_encode.
Qed.


(** ** Where the linker falls short *)

(** [T] refers to the library [A], and its factory dependency to the library [B]
    of the same file: only [B] is collected. *)
Theorem factory_reference_lost :
  zk_needed (ex_zk_linker "L.sol") (ex_id "T.sol" "T") (ex_id "L.sol" "A") ∧
  ∃ libraries factory_deps,
    zk_collect_dependencies (search_fuel (linker (ex_zk_linker "L.sol"))) (ex_zk_linker "L.sol")
      (ex_id "T.sol" "T") ∅ ∅ = Ret (Ok (libraries, factory_deps)) ∧
    ex_id "L.sol" "B" ∈ libraries ∧ ex_id "L.sol" "A" ∉ libraries.
Proof.
  split.
  - exists (ex_id "T.sol" "T"). split; [done|]. exists ("src/L.sol", "A"). split.
    + eexists. split; [reflexivity|]. exists {["A"]}. split; [|by apply elem_of_singleton].
      apply lookup_singleton_eq.
    + apply (bool_decide_unpack _). vm_compute. exact I.
  - assert (match zk_collect_dependencies (search_fuel (linker (ex_zk_linker "L.sol"))) (ex_zk_linker "L.sol")
      (ex_id "T.sol" "T") ∅ ∅ with
      Ret (Ok (l, f)) => bool_decide (ex_id "L.sol" "B" ∈ l) && bool_decide (ex_id "L.sol" "A" ∉ l)
      | _ => false end = true) as H by (vm_compute; reflexivity).
    destruct (zk_collect_dependencies _ _ _ _ _) as [[[l f]|]| |]; try done.
    exists l, f. split; [done|]. by apply andb_true_iff in H as [?%bool_decide_eq_true ?%bool_decide_eq_true].
Qed.

(** The nonce is cut to 32 bits: 2^32 nonces apart, two libraries get the same
    address. *)
Theorem nonce_truncated {ops : BytecodeOps} {zops : ZkOps} (z : ZkLinker) (sender nonce : Z) libs d (id : ArtifactId) :
  (zk_assign_address z sender (libs, d, nonce + 2 ^ 32) id).1 = (zk_assign_address z sender (libs, d, nonce) id).1.
Proof.
  unfold zk_assign_address. destruct (has_library _ _); [done|]. cbn [fst].
  assert (wrap 32 (nonce + 2 ^ 32) = wrap 32 nonce) as ->; [|done].
  unfold wrap. rewrite <- (Z.mul_1_l (2 ^ 32)) at 1. apply Z.mod_add. lia.
Qed.

Section shortfalls.
Context {ops : BytecodeOps} {zops : ZkOps} {iorder : HashOrder ArtifactId}
  {sorder : HashOrder string} {porder : HashOrder Path} {morder : HashOrder MissingLibrary}.
Context (strip_id : Path → ArtifactId → ArtifactId) (z : ZkLinker) (libs : Libraries) (id : ArtifactId).
Context (fdeps : gset MissingLibrary).
Abbreviation m0 := (stripped_contracts strip_id z).
Abbreviation sid := (strip_id (root (linker z)) id).

(** A target whose missing factory dependencies no contract provides is left out
    of the result, without an error. *)
Theorem unlinked_target_dropped :
  zk_link m0 sid libs = Ret (Err (MissingFactoryDeps fdeps)) →
  (∀ fdep, fdep ∈ fdeps → find_factory_dep strip_id z m0 fdep = None) →
  zk_get_linked_artifacts strip_id 2 z [id] libs = Ret (Ok ∅).
Proof.
  intros E Hf.
  assert (omap (find_factory_dep strip_id z m0) (set_iter fdeps) = []) as Ho.
  2: { unfold zk_get_linked_artifacts. cbn [run].
       assert (linked_body strip_id z libs {| lq_contracts := m0; lq_targets := [id]; lq_linked := [] |} =
         Ret (Continue {| lq_contracts := m0; lq_targets := []; lq_linked := [] |})) as ->; [|done].
       unfold linked_body; cbn [lq_targets lq_linked lq_contracts]. rewrite decide_False by apply not_elem_of_nil.
       by rewrite E, bind_Ret, Ho. }
  assert (∀ fdep, fdep ∈ set_iter fdeps → find_factory_dep strip_id z m0 fdep = None) as H.
  { intros fdep Hin%set_iter_elem_of. by apply Hf. }
  clear Hf. induction (set_iter fdeps) as [|x l IH]; [done|]. cbn [omap list_omap].
  rewrite (H x) by (by left). apply IH. intros. apply H. by right.
Qed.

(** A target that stays unlinked for a factory dependency that is linked is put
    back into the queue forever. *)
Theorem requeue_diverges (dep : ArtifactId) (c : Contract) (fuel : nat) :
  id ≠ dep → is_Some (m0 !! dep) →
  (∀ m, m = m0 ∨ m = <[dep := c]> m0 →
     zk_link m sid libs = Ret (Err (MissingFactoryDeps fdeps)) ∧
     omap (find_factory_dep strip_id z m) (set_iter fdeps) = [dep]) →
  zk_link m0 (strip_id (root (linker z)) dep) libs = Ret (Ok c) →
  zk_get_linked_artifacts strip_id fuel z [id] libs = OutOfFuel.
Proof.
  intros Hne Hdep Hid Hd. unfold zk_get_linked_artifacts.
  set (I := λ q : LinkQueue, (lq_targets q = [id] ∨ lq_targets q = [dep; id]) ∧
    (lq_contracts q = m0 ∧ lq_linked q = [] ∨ lq_contracts q = <[dep := c]> m0 ∧ lq_linked q = [(dep, c)])).
  assert (∀ q, I q → ∃ q', linked_body strip_id z libs q = Ret (Continue q') ∧ I q') as Hstep.
  { intros [m ts l] [Ht Hm]. cbn [lq_targets lq_contracts lq_linked] in Ht, Hm.
    assert (m = m0 ∨ m = <[dep := c]> m0) as Hm' by tauto.
    destruct (Hid m Hm') as [E1 E2].
    assert (is_Some (m !! dep)) as Hsome by (destruct Hm' as [-> | ->]; [done|by rewrite lookup_insert_eq]).
    unfold linked_body; cbn [lq_targets lq_contracts lq_linked]. destruct Ht as [-> | ->].
    - rewrite decide_False by (destruct Hm as [[_ ->]|[_ ->]]; set_solver). rewrite E1, bind_Ret, E2.
      rewrite decide_False by (intros E; rewrite E in Hsome; by destruct Hsome).
      eexists. split; [reflexivity|]. split; [by right|done].
    - destruct Hm as [[-> ->]|[-> ->]].
      + rewrite decide_False by set_solver. rewrite Hd, bind_Ret. eexists. split; [reflexivity|]. split; [by left|by right].
      + rewrite decide_True by set_solver. eexists. split; [reflexivity|]. split; [by left|by right]. }
  assert (∀ n q, I q → run n (linked_body strip_id z libs) q = OutOfFuel) as Hrun.
  { induction n as [|n IH]; intros q Hq; [done|]. cbn [run]. destruct (Hstep q Hq) as (q' & -> & Hq'). rewrite bind_Ret.
    by apply IH. }
  apply Hrun. split; [by left|by left].
Qed.
End shortfalls.
