(* ===== verification/Broadcast.v ===== *)
(** * Broadcasting (crates/cheatcodes/src/script.rs, the hooks in inspector.rs and
    the recording in strategy.rs)

    After [startBroadcast] every call and creation a script makes at its own depth
    is recorded as a transaction of the broadcasting account, with its nonce, and
    runs as if it came from that account; what happens inside it is not recorded.
    [broadcast] does so for the next one only. *)

From stdpp Require Import prelude gmap list strings.
From S2P Require Import Prelude.

Open Scope Z_scope.

Abbreviation Account := Z.

(** ** Data *)

Record Broadcast := {
  new_origin : Account;
  original_caller : Account;
  original_origin : Account;
  bc_depth : nat;
  bc_single_call : bool
}.

(** A signed authorization: who signed it, with which nonce, for which code. *)
Record Delegation := { dl_authority : Account; dl_nonce : Z; dl_implementation : Account }.

(** What a transaction request carries. *)
Record BroadcastTx := {
  bt_rpc : option string;
  bt_from : Account;
  bt_to : option Account;
  bt_value : option Z;
  bt_input : list Z;
  bt_nonce : Z;
  bt_chain_id : option Z;
  bt_gas : option Z;
  bt_authorizations : option (list Delegation);
  bt_sidecar : option Z
}.

(** The parts of [CallInputs] and [CreateInputs] the hooks read. *)
Record CallIn := {
  ci_caller : Account;
  ci_target : Account;
  ci_value : option Z;                 (* [transfer_value] *)
  ci_input : list Z;
  ci_gas_limit : Z;
  ci_static : bool
}.

Record CreateIn := {
  cr_caller : Account;
  cr_value : Z;
  cr_init_code : list Z;
  cr_gas_limit : Z
}.

(** What stays the same during a script: the configuration, the environment, the
    fork, and whether an account can be loaded. *)
Record ScriptEnv := {
  se_isolate : bool;
  se_tx_gas_limit : Z;
  se_block_gas_limit : Z;
  se_chain_id : Z;
  se_rpc : option string;
  se_loads : Account → bool
}.

Record ScriptState := {
  ss_broadcast : option Broadcast;
  ss_transactions : list BroadcastTx;
  ss_delegations : list Delegation;
  ss_sidecar : option Z;
  ss_origin : Account;                 (* [ecx.tx.caller] *)
  ss_nonces : Account → Z
}.

Implicit Types (s : ScriptState) (b : Broadcast) (env : ScriptEnv).

Definition with_broadcast s (b : option Broadcast) : ScriptState :=
  {| ss_broadcast := b; ss_transactions := ss_transactions s; ss_delegations := ss_delegations s;
     ss_sidecar := ss_sidecar s; ss_origin := ss_origin s; ss_nonces := ss_nonces s |}.
Definition with_origin s (o : Account) : ScriptState :=
  {| ss_broadcast := ss_broadcast s; ss_transactions := ss_transactions s; ss_delegations := ss_delegations s;
     ss_sidecar := ss_sidecar s; ss_origin := o; ss_nonces := ss_nonces s |}.
Definition with_attached s (delegations : list Delegation) (sidecar : option Z) : ScriptState :=
  {| ss_broadcast := ss_broadcast s; ss_transactions := ss_transactions s; ss_delegations := delegations;
     ss_sidecar := sidecar; ss_origin := ss_origin s; ss_nonces := ss_nonces s |}.
Definition push_transaction s (t : BroadcastTx) : ScriptState :=
  {| ss_broadcast := ss_broadcast s; ss_transactions := ss_transactions s ++ [t]; ss_delegations := ss_delegations s;
     ss_sidecar := ss_sidecar s; ss_origin := ss_origin s; ss_nonces := ss_nonces s |}.
Definition increment_nonce s (a : Account) : ScriptState :=
  {| ss_broadcast := ss_broadcast s; ss_transactions := ss_transactions s; ss_delegations := ss_delegations s;
     ss_sidecar := ss_sidecar s; ss_origin := ss_origin s;
     ss_nonces := λ x, if decide (x = a) then ss_nonces s a +w[64] 1 else ss_nonces s x |}.

(** ** The cheatcodes *)

Inductive BroadcastError : Type := ActivePrank | BroadcastActive | NoBroadcast | WalletError | InvalidNonce (expected got : Z).

(** The wallets: the sender given on the command line, and the addresses of the
    signers, if they can be read. *)
Record Wallets := { wl_provided_sender : option Account; wl_signers : option (list Account) }.

Definition default_origin (w : Wallets) : result (option Account) BroadcastError :=
  match wl_provided_sender w with
  | Some sender => Ok (Some sender)
  | None =>
      match wl_signers w with
      | None => Err WalletError
      | Some [address] => Ok (Some address)
      | Some _ => Ok None
      end
  end.

(** Called by [caller] at [depth]; [prank] says that a prank is active there. *)
Definition broadcast s (w : Wallets) (prank : bool) (depth : nat) (caller : Account)
    (origin : option Account) (single_call : bool) : result ScriptState BroadcastError :=
  if prank then Err ActivePrank
  else if decide (is_Some (ss_broadcast s)) then Err BroadcastActive
  else
    and_then (match origin with Some o => Ok (Some o) | None => default_origin w end) (λ origin,
      Ok (with_broadcast s (Some
        {| new_origin := default (ss_origin s) origin; original_caller := caller;
           original_origin := ss_origin s; bc_depth := depth; bc_single_call := single_call |}))).

Definition stop_broadcast s : result ScriptState BroadcastError :=
  match ss_broadcast s with
  | None => Err NoBroadcast
  | Some _ => Ok (with_broadcast s None)
  end.

Definition next_delegation_nonce (active_delegations : list Delegation) (authority : Account)
    (broadcast : option Broadcast) (account_nonce : Z) : Z :=
  match List.find (λ auth, bool_decide (dl_authority auth = authority)) (rev active_delegations) with
  | Some auth => dl_nonce auth +w[64] 1
  | None =>
      match broadcast with
      | Some b => if decide (new_origin b = authority) then account_nonce +w[64] 1 else account_nonce
      | None => account_nonce
      end
  end.

Definition add_delegation s (auth : Delegation) : ScriptState :=
  with_attached s (ss_delegations s ++ [auth]) (ss_sidecar s).

(** The check of [write_delegation], and the delegation is kept for the next call. *)
Definition attach_delegation s (auth : Delegation) : result ScriptState BroadcastError :=
  let expected_nonce :=
    next_delegation_nonce (ss_delegations s) (dl_authority auth) (ss_broadcast s) (ss_nonces s (dl_authority auth)) in
  if expected_nonce =? dl_nonce auth
  then Ok (add_delegation s auth)
  else Err (InvalidNonce expected_nonce (dl_nonce auth)).

Definition attach_blob s (sidecar : Z) : ScriptState := with_attached s (ss_delegations s) (Some sidecar).

(** ** Recording *)

Definition check_if_fixed_gas_limit env (call_gas_limit : Z) : bool :=
  (se_block_gas_limit env <? se_tx_gas_limit env) &&
  (call_gas_limit <=? se_block_gas_limit env) && (2300 <? call_gas_limit).

Definition fixed_gas env (gas_limit : Z) : option Z :=
  if check_if_fixed_gas_limit env gas_limit then Some gas_limit else None.

Definition record_create_transaction env s b (input : CreateIn) : ScriptState :=
  push_transaction s
    {| bt_rpc := se_rpc env; bt_from := new_origin b; bt_to := None; bt_value := Some (cr_value input);
       bt_input := cr_init_code input; bt_nonce := ss_nonces s (new_origin b); bt_chain_id := None;
       bt_gas := fixed_gas env (cr_gas_limit input); bt_authorizations := None; bt_sidecar := None |}.

(** With a delegation and a blob nothing is recorded; a delegation takes a nonce. *)
Definition record_call_transaction env s b (call : CallIn) (delegations : list Delegation) (sidecar : option Z) : ScriptState :=
  let tx auth blob :=
    {| bt_rpc := se_rpc env; bt_from := new_origin b; bt_to := Some (ci_target call); bt_value := ci_value call;
       bt_input := ci_input call; bt_nonce := ss_nonces s (new_origin b); bt_chain_id := Some (se_chain_id env);
       bt_gas := fixed_gas env (ci_gas_limit call); bt_authorizations := auth; bt_sidecar := blob |} in
  match delegations, sidecar with
  | _ :: _, Some _ => s
  | _ :: _, None => push_transaction (increment_nonce s (new_origin b)) (tx (Some delegations) None)
  | [], Some blob => push_transaction s (tx None (Some blob))
  | [], None => push_transaction s (tx None None)
  end.

(** ** The hooks *)

Inductive Refusal : Type := LoadFailed | BothAttached | StaticBroadcast.

Definition set_call_caller (call : CallIn) (a : Account) : CallIn :=
  {| ci_caller := a; ci_target := ci_target call; ci_value := ci_value call; ci_input := ci_input call;
     ci_gas_limit := ci_gas_limit call; ci_static := ci_static call |}.
Definition set_create_caller (input : CreateIn) (a : Account) : CreateIn :=
  {| cr_caller := a; cr_value := cr_value input; cr_init_code := cr_init_code input; cr_gas_limit := cr_gas_limit input |}.

(** The start of a call that is not one of a cheatcode; a refusal ends it. *)
Definition call_broadcast env s (curr_depth : nat) (call : CallIn) : ScriptState * CallIn * option Refusal :=
  match ss_broadcast s with
  | Some b =>
      if Nat.eqb curr_depth (bc_depth b) && bool_decide (ci_caller call = original_caller b) then
        let s := with_origin s (new_origin b) in
        let call := set_call_caller call (new_origin b) in
        if negb (ci_static call) then
          if negb (se_loads env (new_origin b)) then (s, call, Some LoadFailed)
          else
            let delegations := ss_delegations s in
            let sidecar := ss_sidecar s in
            let s := record_call_transaction env (with_attached s [] None) b call delegations sidecar in
            if negb (bool_decide (delegations = [])) && bool_decide (is_Some sidecar)
            then (s, call, Some BothAttached)
            else (if se_isolate env then s else increment_nonce s (new_origin b), call, None)
        else if bc_single_call b then (s, call, Some StaticBroadcast)
        else (s, call, None)
      else (s, call, None)
  | None => (s, call, None)
  end.

(** The start of a creation. *)
Definition create_broadcast env s (curr_depth : nat) (input : CreateIn) : ScriptState * CreateIn * option Refusal :=
  match ss_broadcast s with
  | Some b =>
      if (bc_depth b <=? curr_depth)%nat && bool_decide (cr_caller input = original_caller b) then
        if negb (se_loads env (new_origin b)) then (s, input, Some LoadFailed)
        else
          let s := with_origin s (new_origin b) in
          if Nat.eqb curr_depth (bc_depth b) then
            let input := set_create_caller input (new_origin b) in
            (record_create_transaction env s b input, input, None)
          else (s, input, None)
      else (s, input, None)
  | None => (s, input, None)
  end.

(** The end of a call, not one of a cheatcode, or of a creation. *)
Definition end_broadcast s (curr_depth : nat) : ScriptState :=
  match ss_broadcast s with
  | Some b =>
      if Nat.eqb curr_depth (bc_depth b) then
        let s := with_origin s (original_origin b) in
        if bc_single_call b then with_broadcast s None else s
      else s
  | None => s
  end.

(** ** Scripts *)

(** What a frame does: calls and creations with what happens inside, and the
    cheatcodes that attach a delegation, already checked, or a blob.  A creation the EVM refuses
    does not take a nonce. *)
Inductive Action : Type :=
| ACall (call : CallIn) (body : list Action)
| ACreate (input : CreateIn) (refused : bool) (body : list Action)
| AAttachDelegation (auth : Delegation)
| AAttachBlob (blob : Z).

Section action_induction.
Context (P : Action → Prop).
Context (Hcall : ∀ c body, Forall P body → P (ACall c body)).
Context (Hcreate : ∀ i r body, Forall P body → P (ACreate i r body)).
Context (Hauth : ∀ a, P (AAttachDelegation a)).
Context (Hblob : ∀ x, P (AAttachBlob x)).

Fixpoint action_induction (x : Action) : P x :=
  let go := fix go (l : list Action) : Forall P l :=
    match l with
    | [] => Forall_nil_2 P
    | y :: l => Forall_cons_2 P y l (action_induction y) (go l)
    end in
  match x with
  | ACall c body => Hcall c body (go body)
  | ACreate i r body => Hcreate i r body (go body)
  | AAttachDelegation a => Hauth a
  | AAttachBlob x => Hblob x
  end.
End action_induction.

(** The frames that run: depth, caller and origin. *)
Abbreviation Frames := (list (nat * Account * Account)).

Fixpoint run_action env (d : nat) (x : Action) (st : ScriptState * Frames) : ScriptState * Frames :=
  let fix go (l : list Action) (st : ScriptState * Frames) : ScriptState * Frames :=
    match l with
    | [] => st
    | y :: l => go l (run_action env (S d) y st)
    end in
  match x with
  | ACall call body =>
      let '(s, call, refused) := call_broadcast env st.1 d call in
      let st := match refused with
                | Some _ => (s, st.2)
                | None => go body (s, st.2 ++ [(S d, ci_caller call, ss_origin s)])
                end in
      (end_broadcast st.1 d, st.2)
  | ACreate input refused body =>
      let '(s, input, refusal) := create_broadcast env st.1 d input in
      let st := match refusal with
                | Some _ => (s, st.2)
                | None =>
                    if refused then (s, st.2)
                    else go body (increment_nonce s (cr_caller input), st.2 ++ [(S d, cr_caller input, ss_origin s)])
                end in
      (end_broadcast st.1 d, st.2)
  | AAttachDelegation auth => (add_delegation st.1 auth, st.2)
  | AAttachBlob blob => (attach_blob st.1 blob, st.2)
  end.

Definition run_actions env (d : nat) :=
  fix go (l : list Action) (st : ScriptState * Frames) : ScriptState * Frames :=
    match l with
    | [] => st
    | y :: l => go l (run_action env d y st)
    end.

(** ** Specification *)

Section specification.
Context (env : ScriptEnv) (b : Broadcast).

(** Inside a recorded call: nothing is attached, and the broadcasting account, not
    being a contract, creates nothing. *)
Fixpoint inner (x : Action) : bool :=
  let fix go (l : list Action) : bool := match l with [] => true | y :: l => inner y && go l end in
  match x with
  | ACall _ body => go body
  | ACreate input _ body => negb (bool_decide (cr_caller input = new_origin b)) && go body
  | _ => false
  end.

(** An action of the script itself. *)
Definition own (x : Action) : bool :=
  match x with
  | ACall call body => bool_decide (ci_caller call = original_caller b) && forallb inner body
  | ACreate input _ body => bool_decide (cr_caller input = original_caller b) && forallb inner body
  | _ => true
  end.

Definition create_tx (n : Z) (input : CreateIn) : BroadcastTx :=
  {| bt_rpc := se_rpc env; bt_from := new_origin b; bt_to := None; bt_value := Some (cr_value input);
     bt_input := cr_init_code input; bt_nonce := n; bt_chain_id := None;
     bt_gas := fixed_gas env (cr_gas_limit input); bt_authorizations := None; bt_sidecar := None |}.
Definition call_tx (n : Z) (call : CallIn) (auth : option (list Delegation)) (blob : option Z) : BroadcastTx :=
  {| bt_rpc := se_rpc env; bt_from := new_origin b; bt_to := Some (ci_target call); bt_value := ci_value call;
     bt_input := ci_input call; bt_nonce := n; bt_chain_id := Some (se_chain_id env);
     bt_gas := fixed_gas env (ci_gas_limit call); bt_authorizations := auth; bt_sidecar := blob |}.

(** The transactions of a script, read off its own actions: the next nonce, and
    what is attached. *)
Record Pending := { pe_nonce : Z; pe_delegations : list Delegation; pe_sidecar : option Z }.

Definition plan_action (x : Action) (p : Pending) : list BroadcastTx * Pending :=
  let n := pe_nonce p in
  match x with
  | ACall call _ =>
      if ci_static call then ([], p)
      else match pe_delegations p, pe_sidecar p with
           | _ :: _, Some _ => ([], {| pe_nonce := n; pe_delegations := []; pe_sidecar := None |})
           | _ :: _, None =>
               ([call_tx n call (Some (pe_delegations p)) None],
                {| pe_nonce := (n +w[64] 1) +w[64] 1; pe_delegations := []; pe_sidecar := None |})
           | [], blob =>
               ([call_tx n call None blob], {| pe_nonce := n +w[64] 1; pe_delegations := []; pe_sidecar := None |})
           end
  | ACreate input refused _ =>
      ([create_tx n input],
       {| pe_nonce := if refused : bool then n else n +w[64] 1; pe_delegations := pe_delegations p;
          pe_sidecar := pe_sidecar p |})
  | AAttachDelegation auth =>
      ([], {| pe_nonce := n; pe_delegations := pe_delegations p ++ [auth]; pe_sidecar := pe_sidecar p |})
  | AAttachBlob blob => ([], {| pe_nonce := n; pe_delegations := pe_delegations p; pe_sidecar := Some blob |})
  end.

Fixpoint plan (l : list Action) (p : Pending) : list BroadcastTx * Pending :=
  match l with
  | [] => ([], p)
  | x :: l => let '(txs, p) := plan_action x p in let '(txs', p) := plan l p in (txs ++ txs', p)
  end.

(** What the recording has reached: [p] is what comes next. *)
Definition planned s (p : Pending) : Prop :=
  ss_broadcast s = Some b ∧ ss_nonces s (new_origin b) = pe_nonce p ∧
  ss_delegations s = pe_delegations p ∧ ss_sidecar s = pe_sidecar p.

(** *** What happens inside *)

(** Nothing the recording depends on changes, and the frames are deeper. *)
Definition unrecorded (d : nat) (st st' : ScriptState * Frames) : Prop :=
  ss_broadcast st'.1 = ss_broadcast st.1 ∧ ss_transactions st'.1 = ss_transactions st.1 ∧
  ss_delegations st'.1 = ss_delegations st.1 ∧ ss_sidecar st'.1 = ss_sidecar st.1 ∧
  ss_nonces st'.1 (new_origin b) = ss_nonces st.1 (new_origin b) ∧
  (ss_origin st.1 = new_origin b → ss_origin st'.1 = new_origin b) ∧
  ∃ fr, st'.2 = st.2 ++ fr ∧ Forall (λ f, (d < f.1.1)%nat) fr.

Lemma unrecorded_refl d st : unrecorded d st st.
Proof. unfold unrecorded. split_and!; try done. exists []. by rewrite app_nil_r. Qed.

Lemma unrecorded_trans d st1 st2 st3 : unrecorded d st1 st2 → unrecorded d st2 st3 → unrecorded d st1 st3.
Proof.
  intros (A1 & A2 & A3 & A4 & A5 & A6 & f1 & A7 & A8) (B1 & B2 & B3 & B4 & B5 & B6 & f2 & B7 & B8).
  unfold unrecorded. split_and!; try congruence; [auto|]. exists (f1 ++ f2).
  split; [by rewrite B7, A7, app_assoc|]. by apply Forall_app.
Qed.

Lemma unrecorded_deeper d d' st st' : (d' ≤ d)%nat → unrecorded d st st' → unrecorded d' st st'.
Proof.
  intros Hd (A1 & A2 & A3 & A4 & A5 & A6 & f1 & A7 & A8). unfold unrecorded. split_and!; try done.
  exists f1. split; [done|]. eapply Forall_impl; [done|]. simpl. lia.
Qed.

Lemma broadcast_call_eq d call body st :
  run_action env d (ACall call body) st =
    let '(s, call, refused) := call_broadcast env st.1 d call in
    let st := match refused with
              | Some _ => (s, st.2)
              | None => run_actions env (S d) body (s, st.2 ++ [(S d, ci_caller call, ss_origin s)])
              end in
    (end_broadcast st.1 d, st.2).
Proof. done. Qed.

Lemma broadcast_create_eq d input refused body st :
  run_action env d (ACreate input refused body) st =
    let '(s, input, refusal) := create_broadcast env st.1 d input in
    let st := match refusal with
              | Some _ => (s, st.2)
              | None =>
                  if refused then (s, st.2)
                  else run_actions env (S d) body
                         (increment_nonce s (cr_caller input), st.2 ++ [(S d, cr_caller input, ss_origin s)])
              end in
    (end_broadcast st.1 d, st.2).
Proof. done. Qed.

Lemma inner_call c body : inner (ACall c body) = forallb inner body.
Proof. done. Qed.
Lemma inner_create i r body :
  inner (ACreate i r body) = negb (bool_decide (cr_caller i = new_origin b)) && forallb inner body.
Proof. done. Qed.

Definition passes (x : Action) : Prop := ∀ d st,
  ss_broadcast st.1 = Some b → (bc_depth b < d)%nat → inner x = true → unrecorded d st (run_action env d x st).

Lemma body_unrecorded d body st :
  Forall passes body → ss_broadcast st.1 = Some b → (bc_depth b < d)%nat → forallb inner body = true →
  unrecorded d st (run_actions env d body st).
Proof.
  intros Hb. revert st. induction Hb as [|x body Hx _ IH]; intros st Hbc Hd Hin; [apply unrecorded_refl|].
  simpl in Hin. apply andb_true_iff in Hin as [H1 H2]. simpl.
  pose proof (Hx d st Hbc Hd H1) as Hux. eapply unrecorded_trans; [done|]. apply IH; [|done|done].
  destruct Hux as [-> _]. done.
Qed.

Lemma deeper_end s d : ss_broadcast s = Some b → (bc_depth b < d)%nat → end_broadcast s d = s.
Proof. intros Hb Hd. unfold end_broadcast. rewrite Hb. by destruct (Nat.eqb_spec d (bc_depth b)); [lia|]. Qed.

(** A frame with its body, started with the state [s]. *)
Lemma frame_unrecorded d body s fr caller :
  Forall passes body → ss_broadcast s = Some b → (bc_depth b ≤ d)%nat → forallb inner body = true →
  unrecorded d (s, fr) (run_actions env (S d) body (s, fr ++ [(S d, caller, ss_origin s)])).
Proof.
  intros Hb Hs Hd Hin. eapply unrecorded_trans.
  2: { eapply unrecorded_deeper; [|apply body_unrecorded; [done|exact Hs|lia|done]]. lia. }
  unfold unrecorded; simpl. split_and!; try done. eexists. split; [done|]. constructor; [simpl; lia|constructor].
Qed.

Lemma inner_passes x : passes x.
Proof.
  induction x as [call body IH|input refused body IH| |] using action_induction; intros d [s fr] Hb Hd Hin; try done;
    simpl in Hb.
  - rewrite broadcast_call_eq. rewrite inner_call in Hin. unfold call_broadcast. simpl. rewrite Hb.
    destruct (Nat.eqb_spec d (bc_depth b)); [lia|]. simpl.
    pose proof (frame_unrecorded d body s fr (ci_caller call) IH Hb ltac:(lia) Hin) as Hf.
    rewrite deeper_end; [by rewrite <- surjective_pairing| |done]. by destruct Hf as [-> _].
  - rewrite broadcast_create_eq. rewrite inner_create in Hin. apply andb_true_iff in Hin as [Hne Hin].
    apply negb_true_iff, bool_decide_eq_false in Hne.
    assert (∀ s1, unrecorded d (s, fr) (s1, fr) → let st := if refused then (s1, fr) else
        run_actions env (S d) body (increment_nonce s1 (cr_caller input), fr ++ [(S d, cr_caller input, ss_origin s1)]) in
      unrecorded d (s, fr) (end_broadcast st.1 d, st.2)) as Hrun.
    { intros s1 Hu. pose proof Hu as [Hb1 _]. simpl in Hb1. cbv zeta. destruct refused.
      { simpl. by rewrite deeper_end; [|congruence|]. }
      pose proof (frame_unrecorded d body (increment_nonce s1 (cr_caller input)) fr (cr_caller input) IH
        ltac:(simpl; congruence) ltac:(lia) Hin) as Hf. simpl in Hf.
      rewrite deeper_end; [|destruct Hf as [-> _]; simpl; congruence|done]. rewrite <- surjective_pairing.
      eapply unrecorded_trans; [exact Hu|]. eapply unrecorded_trans; [|exact Hf]. unfold unrecorded; simpl.
      split_and!; try done; [by rewrite decide_False|]. exists []. by rewrite app_nil_r. }
    unfold create_broadcast. simpl. rewrite Hb. destruct (_ && _); [|apply Hrun, unrecorded_refl].
    destruct (se_loads env (new_origin b)); simpl.
    2: { rewrite deeper_end by done. apply unrecorded_refl. }
    destruct (Nat.eqb_spec d (bc_depth b)); [lia|]. apply Hrun. unfold unrecorded; simpl. split_and!; try done.
    exists []. by rewrite app_nil_r.
Qed.

(** *** The script's own actions *)

Context (Hmany : bc_single_call b = false) (Hshared : se_isolate env = false)
  (Hloads : se_loads env (new_origin b) = true).
Abbreviation d := (bc_depth b).

Definition from_origin (f : nat * Account * Account) : Prop :=
  f.1.1 = S d → f.1.2 = new_origin b ∧ f.2 = new_origin b.

(** [s'] is reached from [s] by recording [txs], with [p'] to come. *)
Definition advanced s (fr : Frames) (txs : list BroadcastTx) (p' : Pending) (st' : ScriptState * Frames) : Prop :=
  planned st'.1 p' ∧ ss_transactions st'.1 = ss_transactions s ++ txs ∧ ss_origin st'.1 = original_origin b ∧
  ∃ new, st'.2 = fr ++ new ∧ Forall from_origin new.

Lemma top_end s : ss_broadcast s = Some b → end_broadcast s d = with_origin s (original_origin b).
Proof. intros Hb. unfold end_broadcast. by rewrite Hb, Nat.eqb_refl, Hmany. Qed.

(** A frame of the script's own, started as the broadcasting account. *)
Lemma top_frame body s s1 fr txs p' :
  forallb inner body = true → planned s1 p' → ss_transactions s1 = ss_transactions s ++ txs →
  ss_origin s1 = new_origin b →
  let st := run_actions env (S d) body (s1, fr ++ [(S d, new_origin b, ss_origin s1)]) in
  advanced s fr txs p' (end_broadcast st.1 d, st.2).
Proof.
  intros Hin (P1 & P2 & P3 & P4) Ht Ho st.
  assert (unrecorded (S d) (s1, fr ++ [(S d, new_origin b, ss_origin s1)]) st)
    as (U1 & U2 & U3 & U4 & U5 & U6 & f & U7 & U8).
  { apply body_unrecorded; [|done|simpl; lia|done]. apply Forall_forall. intros x _. apply inner_passes. }
  simpl in *. rewrite top_end by congruence. unfold advanced, planned; simpl. split_and!; try congruence.
  exists ([(S d, new_origin b, ss_origin s1)] ++ f). split; [by rewrite U7, app_assoc|].
  apply Forall_app. split; [constructor; [|constructor]; by intros _|].
  eapply Forall_impl; [exact U8|]. intros [[dd c] o]; simpl. unfold from_origin; simpl. lia.
Qed.

(** An action without a frame. *)
Lemma top_refused s s1 fr txs p' :
  planned s1 p' → ss_transactions s1 = ss_transactions s ++ txs → advanced s fr txs p' (end_broadcast s1 d, fr).
Proof.
  intros (P1 & P2 & P3 & P4) Ht. rewrite top_end by done. unfold advanced, planned; simpl. split_and!; try done.
  exists []. by rewrite app_nil_r.
Qed.

Lemma own_call call body s fr p :
  planned s p → own (ACall call body) = true →
  advanced s fr (plan_action (ACall call body) p).1 (plan_action (ACall call body) p).2
    (run_action env d (ACall call body) (s, fr)).
Proof.
  intros (P1 & P2 & P3 & P4) [Hc Hin]%andb_true_iff. apply bool_decide_eq_true in Hc.
  rewrite broadcast_call_eq. unfold call_broadcast. cbn [fst snd]. rewrite P1, Nat.eqb_refl, bool_decide_eq_true_2 by done.
  cbn [andb set_call_caller ci_static]. unfold plan_action. destruct (ci_static call) eqn:Es; cbn [negb].
  { rewrite Hmany. apply top_frame; [done|done| |done]. by rewrite app_nil_r. }
  rewrite Hloads, Hshared. cbn [negb with_origin ss_delegations ss_sidecar]. rewrite P3, P4.
  unfold record_call_transaction. destruct (pe_delegations p) as [|x dl] eqn:Edl, (pe_sidecar p) as [blob|] eqn:Ebl;
    cbn [bool_decide negb andb]; rewrite ?(bool_decide_eq_true_2 (is_Some (Some blob))), ?(bool_decide_eq_false_2 (is_Some None))
      by (first [by eexists|by intros [? ?]]); cbn [fst snd].
  - apply top_frame; [done| |simpl; by rewrite P2|done]. unfold planned; simpl. by rewrite decide_True, P2.
  - apply top_frame; [done| |simpl; by rewrite P2|done]. unfold planned; simpl. by rewrite decide_True, P2.
  - rewrite bool_decide_eq_false_2 by done. cbn [negb andb]. apply top_refused; [done|]. simpl. by rewrite app_nil_r.
  - rewrite andb_false_r. apply top_frame; [done| |simpl; by rewrite P2|done]. unfold planned; simpl.
    by rewrite !decide_True, P2.
Qed.

Lemma own_create input refused body s fr p :
  planned s p → own (ACreate input refused body) = true →
  advanced s fr (plan_action (ACreate input refused body) p).1 (plan_action (ACreate input refused body) p).2
    (run_action env d (ACreate input refused body) (s, fr)).
Proof.
  intros (P1 & P2 & P3 & P4) [Hc Hin]%andb_true_iff. apply bool_decide_eq_true in Hc.
  rewrite broadcast_create_eq. unfold create_broadcast. cbn [fst snd].
  rewrite P1, Nat.leb_refl, bool_decide_eq_true_2, Hloads, Nat.eqb_refl by done. cbn [andb negb plan_action fst snd].
  destruct refused.
  - apply top_refused; [done|]. simpl. by rewrite P2.
  - apply (top_frame body s (increment_nonce (record_create_transaction env (with_origin s (new_origin b)) b
      (set_create_caller input (new_origin b))) (new_origin b)) fr); [done| |simpl; by rewrite P2|done].
    unfold planned; simpl. by rewrite decide_True, P2.
Qed.

Lemma own_action x s fr p :
  planned s p → ss_origin s = original_origin b → own x = true →
  advanced s fr (plan_action x p).1 (plan_action x p).2 (run_action env d x (s, fr)).
Proof.
  intros Hp Ho Hx. destruct x as [call body|input refused body|auth|blob];
    [by apply own_call|by apply own_create|..]; destruct Hp as (P1 & P2 & P3 & P4);
    unfold advanced, planned; simpl; rewrite ?P3, ?P4, app_nil_r; split_and!; try done;
    exists []; by rewrite app_nil_r.
Qed.

Lemma own_actions l : ∀ s fr p,
  planned s p → ss_origin s = original_origin b → forallb own l = true →
  advanced s fr (plan l p).1 (plan l p).2 (run_actions env d l (s, fr)).
Proof.
  induction l as [|x l IH]; intros s fr p Hp Ho Hl; simpl.
  { unfold advanced; simpl. rewrite app_nil_r. split_and!; try done. exists []. by rewrite app_nil_r. }
  simpl in Hl. apply andb_true_iff in Hl as [Hx Hl].
  pose proof (own_action x s fr p Hp Ho Hx) as (A1 & A2 & A3 & new & A4 & A5).
  destruct (run_action env d x (s, fr)) as [s1 fr1]. destruct (plan_action x p) as [txs p1]. simpl in *.
  pose proof (IH s1 fr1 p1 A1 A3 Hl) as (B1 & B2 & B3 & new' & B4 & B5). destruct (plan l p1) as [txs' p2]. simpl in *.
  unfold advanced. split_and!; try done; [by rewrite B2, A2, app_assoc|].
  exists (new ++ new'). split; [by rewrite B4, A4, app_assoc|]. by apply Forall_app.
Qed.
End specification.

(** C16: without isolation, after a [startBroadcast] that succeeds for an account
    that loads, for the calls and creations that are the script's own (made by
    the contract and at the depth it was called from), if inside them no cheatcode
    starts or stops a broadcast or attaches a delegation or blob and the
    broadcasting account creates nothing: the transactions recorded are those
    read off the calls that are not static and are not refused (for having both
    delegations and a blob attached) and off the creations, in order, with the
    nonces the account has by then; nothing inside a call is recorded.
    Every frame the script opens has the broadcasting account as sender and
    origin, at the end the origin is the one before, and [stopBroadcast]
    succeeds and keeps the transactions. *)
Theorem broadcast_correct (env : ScriptEnv) (w : Wallets) (s : ScriptState) (caller : Account) (depth : nat)
    (origin : option Account) (l : list Action) (b : Broadcast) (s1 : ScriptState) :
  broadcast s w false depth caller origin false = Ok s1 → ss_broadcast s1 = Some b →
  se_isolate env = false → se_loads env (new_origin b) = true → forallb (own b) l = true →
  ∃ s2 fr, run_actions env depth l (s1, []) = (s2, fr) ∧
    let '(txs, p) := plan env b l {| pe_nonce := ss_nonces s (new_origin b); pe_delegations := ss_delegations s;
                                     pe_sidecar := ss_sidecar s |} in
    ss_transactions s2 = ss_transactions s ++ txs ∧
    (ss_nonces s2 (new_origin b) = pe_nonce p ∧ ss_delegations s2 = pe_delegations p ∧ ss_sidecar s2 = pe_sidecar p) ∧
    ss_origin s2 = ss_origin s ∧
    Forall (λ f, f.1.1 = S depth → f.1.2 = new_origin b ∧ f.2 = new_origin b) fr ∧
    ∃ s3, stop_broadcast s2 = Ok s3 ∧ ss_broadcast s3 = None ∧ ss_transactions s3 = ss_transactions s2.
Proof.
  intros Hs Hb Hi Hl Hown. unfold broadcast in Hs. case_decide; [done|].
  apply and_then_Ok in Hs as (o & _ & [= <-]). simpl in Hb. injection Hb as <-.
  set (b := {| new_origin := _ |}) in *. set (p := {| pe_nonce := _ |}).
  pose proof (own_actions env b eq_refl Hi Hl l (with_broadcast s (Some b)) [] p) as (A1 & A2 & A3 & new & A4 & A5);
    [done|done|done|]. simpl in A4. simpl bc_depth in *.
  destruct (run_actions env depth l (with_broadcast s (Some b), [])) as [s2 fr] eqn:E. simpl in *.
  exists s2, fr. split; [done|]. destruct (plan env b l p) as [txs p2]. simpl in *. destruct A1 as (P1 & P2 & P3 & P4).
  split_and!; try done; [by subst|]. eexists. unfold stop_broadcast. by rewrite P1.
Qed.

(** *** Nonces *)

(** Actions after which the nonce is the one of the next transaction. *)
Definition takes_one_nonce (x : Action) : bool :=
  match x with ACreate _ refused _ => negb refused | AAttachDelegation _ => false | _ => true end.

(** Without delegations and refused creations the nonces of the recorded
    transactions are consecutive. *)
Theorem nonces_consecutive (env : ScriptEnv) (b : Broadcast) (l : list Action) (p : Pending) :
  is_u 64 (pe_nonce p) → pe_delegations p = [] → forallb takes_one_nonce l = true →
  ∀ i tx, (plan env b l p).1 !! i = Some tx → bt_nonce tx = wrap 64 (pe_nonce p + Z.of_nat i).
Proof.
  revert p. induction l as [|x l IH]; intros p Hn Hd Hl i tx; [done|]. simpl in Hl.
  apply andb_true_iff in Hl as [Hx Hl]. simpl.
  assert (let '(txs, p1) := plan_action env b x p in
    pe_delegations p1 = [] ∧ (txs = [] ∧ pe_nonce p1 = pe_nonce p ∨
      ∃ t, txs = [t] ∧ bt_nonce t = pe_nonce p ∧ pe_nonce p1 = pe_nonce p +w[64] 1)) as Hstep.
  { destruct x as [call body|input refused body|auth|blob]; simpl in *; try done; rewrite ?Hd.
    - destruct (ci_static call); [naive_solver|]. split; [done|]. right. eexists. done.
    - destruct refused; [done|]. split; [done|]. right. by eexists.
    - split; [done|]. by left. }
  destruct (plan_action env b x p) as [txs p1]. destruct Hstep as [Hd1 [[-> Hp1]|(t & -> & Ht & Hp1)]].
  - specialize (IH p1). rewrite Hp1 in IH. specialize (IH Hn Hd1 Hl i tx). by destruct (plan env b l p1).
  - specialize (IH p1). destruct (plan env b l p1) as [txs' p2]; simpl in *. destruct i as [|i]; simpl.
    + intros [= <-]. by rewrite Z.add_0_r, wrap_small.
    + intros Hi. rewrite (IH ltac:(rewrite Hp1; apply wrap_is_u; lia) Hd1 Hl i tx Hi), Hp1, wrap_add_l by lia.
      f_equal. lia.
Qed.

(** *** A single call *)

Definition sender_of (x : Action) : option Account :=
  match x with ACall c _ => Some (ci_caller c) | ACreate i _ _ => Some (cr_caller i) | _ => None end.

Lemma unbroadcast_actions env l : ∀ d st,
  ss_broadcast st.1 = None →
  ss_broadcast (run_actions env d l st).1 = None ∧
  ss_transactions (run_actions env d l st).1 = ss_transactions st.1 ∧ ss_origin (run_actions env d l st).1 = ss_origin st.1.
Proof.
  set (Q := λ x, ∀ d st, ss_broadcast st.1 = None →
    ss_broadcast (run_action env d x st).1 = None ∧
    ss_transactions (run_action env d x st).1 = ss_transactions st.1 ∧ ss_origin (run_action env d x st).1 = ss_origin st.1).
  assert (∀ body, Forall Q body → ∀ d st, ss_broadcast st.1 = None →
    ss_broadcast (run_actions env d body st).1 = None ∧
    ss_transactions (run_actions env d body st).1 = ss_transactions st.1 ∧
    ss_origin (run_actions env d body st).1 = ss_origin st.1) as Hbody.
  { induction 1 as [|x body Hx _ IH]; intros d st Hst; [done|]. simpl. destruct (Hx d st Hst) as (H1 & H2 & H3).
    destruct (IH d _ H1) as (I1 & I2 & I3). by rewrite I1, I2, I3, H2, H3. }
  assert (∀ x, Q x) as Hall; [|apply Hbody, Forall_forall; auto].
  induction x as [call body IH|input refused body IH| |] using action_induction; intros d [s fr] Hst; try done;
    simpl in Hst; [rewrite broadcast_call_eq|rewrite broadcast_create_eq];
    unfold call_broadcast, create_broadcast; simpl; rewrite Hst; simpl.
  - destruct (Hbody body IH (S d) (s, fr ++ [(S d, ci_caller call, ss_origin s)]) Hst) as (H1 & H2 & H3).
    unfold end_broadcast. rewrite H1. done.
  - destruct refused; [unfold end_broadcast; simpl; by rewrite Hst|].
    destruct (Hbody body IH (S d) (increment_nonce s (cr_caller input), fr ++ [(S d, cr_caller input, ss_origin s)]) Hst)
      as (H1 & H2 & H3). unfold end_broadcast. rewrite H1. done.
Qed.

(** [broadcast] records the next call or creation and nothing else, and a static
    call is refused. *)
Theorem single_broadcast_correct (env : ScriptEnv) (s : ScriptState) (b : Broadcast) (call : CallIn) (body l : list Action) :
  ss_broadcast s = Some b → bc_single_call b = true → se_isolate env = false → se_loads env (new_origin b) = true →
  ci_caller call = original_caller b → forallb (inner b) body = true →
  ss_delegations s = [] → ss_sidecar s = None →
  let s' := (run_actions env (bc_depth b) (ACall call body :: l) (s, [])).1 in
  ss_broadcast s' = None ∧ ss_origin s' = original_origin b ∧
  ss_transactions s' = ss_transactions s ++
    (if ci_static call then [] else [call_tx env b (ss_nonces s (new_origin b)) call None None]).
Proof.
  intros Hb Hsingle Hiso Hload Hc Hin Hd Hbl s'. unfold s'. cbn [run_actions].
  assert (let s1 := (run_action env (bc_depth b) (ACall call body) (s, [])).1 in
    ss_broadcast s1 = None ∧ ss_origin s1 = original_origin b ∧ ss_transactions s1 = ss_transactions s ++
    (if ci_static call then [] else [call_tx env b (ss_nonces s (new_origin b)) call None None])) as (H1 & H2 & H3).
  2: { destruct (unbroadcast_actions env l (bc_depth b) (run_action env (bc_depth b) (ACall call body) (s, [])) H1)
         as (U1 & U2 & U3). split_and!; congruence. }
  rewrite broadcast_call_eq. unfold call_broadcast. cbn [fst snd]. rewrite Hb, Nat.eqb_refl, bool_decide_eq_true_2 by done.
  cbn [andb set_call_caller ci_static]. destruct (ci_static call); cbn [negb].
  { rewrite Hsingle. unfold end_broadcast; simpl. rewrite Hb, Nat.eqb_refl, Hsingle. by rewrite app_nil_r. }
  rewrite Hload, Hiso. cbn [negb with_origin ss_delegations ss_sidecar]. rewrite Hd, Hbl. simpl.
  assert (∀ s1, ss_broadcast s1 = Some b → ∀ fr, let st := run_actions env (S (bc_depth b)) body (s1, fr) in
    let e := end_broadcast st.1 (bc_depth b) in
    ss_broadcast e = None ∧ ss_origin e = original_origin b ∧ ss_transactions e = ss_transactions s1) as Hrun.
  { intros s1 Hs1 fr. assert (unrecorded b (S (bc_depth b)) (s1, fr) (run_actions env (S (bc_depth b)) body (s1, fr)))
      as (U1 & U2 & _).
    { apply body_unrecorded; [|done|lia|done]. apply Forall_forall. intros x _. apply inner_passes. }
    simpl in *. unfold end_broadcast. by rewrite U1, Hs1, Nat.eqb_refl, Hsingle. }
  apply Hrun. done.
Qed.

(** ** Deviations *)

(** A call another contract makes at the depth of a single broadcast ends it,
    although nothing was recorded. *)
Theorem other_caller_ends_broadcast (env : ScriptEnv) (s : ScriptState) (b : Broadcast) (call : CallIn) :
  ss_broadcast s = Some b → bc_single_call b = true → ci_caller call ≠ original_caller b →
  let s' := (run_action env (bc_depth b) (ACall call []) (s, [])).1 in
  ss_broadcast s' = None ∧ ss_transactions s' = ss_transactions s.
Proof.
  intros Hb Hs Hc. rewrite broadcast_call_eq. unfold call_broadcast. simpl.
  rewrite Hb, Nat.eqb_refl, bool_decide_eq_false_2 by done. simpl. unfold end_broadcast; simpl.
  by rewrite Hb, Nat.eqb_refl, Hs.
Qed.

(** A broadcast that is stopped inside a recorded call leaves the origin changed. *)
Theorem nested_stop_leaks_origin (env : ScriptEnv) (s s1 s2 : ScriptState) (b : Broadcast) (call call1 : CallIn) :
  ss_broadcast s = Some b → ci_caller call = original_caller b →
  call_broadcast env s (bc_depth b) call = (s1, call1, None) → stop_broadcast s1 = Ok s2 →
  ss_origin (end_broadcast s2 (bc_depth b)) = new_origin b.
Proof.
  intros Hb Hc. unfold call_broadcast. rewrite Hb, Nat.eqb_refl, bool_decide_eq_true_2 by done. simpl.
  intros E Hstop. assert (ss_origin s1 = new_origin b) as Ho.
  { unfold record_call_transaction in E. simpl in E.
    destruct (ci_static call), (bc_single_call b), (se_loads env (new_origin b)), (se_isolate env),
      (ss_delegations s), (ss_sidecar s); simpl in E; simplify_eq; done. }
  unfold stop_broadcast in Hstop. destruct (ss_broadcast s1); [|done]. injection Hstop as <-. done.
Qed.

(** A delegation signed by another account takes a nonce of the broadcasting one:
    the transactions around it are not consecutive. *)
Definition bc_example : Broadcast :=
  {| new_origin := 10; original_caller := 5; original_origin := 1; bc_depth := 1; bc_single_call := false |}.
Definition bc_call : CallIn :=
  {| ci_caller := 5; ci_target := 7; ci_value := None; ci_input := [1]; ci_gas_limit := 30000; ci_static := false |}.
Definition bc_env : ScriptEnv :=
  {| se_isolate := false; se_tx_gas_limit := 100; se_block_gas_limit := 100; se_chain_id := 31337; se_rpc := None;
     se_loads := λ _, true |}.
Definition bc_state : ScriptState :=
  {| ss_broadcast := None; ss_transactions := []; ss_delegations := []; ss_sidecar := None; ss_origin := 1;
     ss_nonces := λ _, 3 |}.
Definition bc_foreign : Delegation := {| dl_authority := 99; dl_nonce := 3; dl_implementation := 8 |}.

Lemma foreign_delegation_nonce_gap :
  is_ok (attach_delegation bc_state bc_foreign) = true ∧
  bt_nonce <$> ss_transactions (run_actions bc_env 1
    [AAttachDelegation bc_foreign; ACall bc_call []; ACall bc_call []]
    (with_broadcast bc_state (Some bc_example), [])).1 = [3; 5].
Proof. by vm_compute. Qed.

Lemma broadcast_correct_witness :
  ∃ s2 fr,
    run_actions bc_env 1
      [ACall bc_call [ACall bc_call []]; ACreate {| cr_caller := 5; cr_value := 0; cr_init_code := [2]; cr_gas_limit := 1 |} false []]
      (with_broadcast bc_state (Some bc_example), []) = (s2, fr) ∧
    (λ t, (bt_nonce t, bt_to t)) <$> ss_transactions s2 = [(3, Some 7); (4, None)].
Proof.
  destruct (broadcast_correct bc_env {| wl_provided_sender := None; wl_signers := None |} bc_state 5 1 (Some 10)
    [ACall bc_call [ACall bc_call []]; ACreate {| cr_caller := 5; cr_value := 0; cr_init_code := [2]; cr_gas_limit := 1 |} false []]
    bc_example (with_broadcast bc_state (Some bc_example))) as (s2 & fr & E & Ht & _);
    [reflexivity|reflexivity|reflexivity|reflexivity|vm_compute; reflexivity|].
  exists s2, fr. split; [exact E|]. rewrite Ht. vm_compute. reflexivity.
Defined.
