(* ===== verification/SlotRecording.v ===== *)
(** * Recorded slots (crates/cheatcodes/common/src/record.rs,
    crates/common/src/mapping_slots.rs, crates/cheatcodes/src/evm/mapping.rs)

    [record] notes the slots a contract reads and writes.  Mapping recording
    notes the hashes of 64 bytes a contract computes, and for each slot it writes
    whether the slot is the hash of a key and the slot of a mapping; then the
    mappings and their elements can be listed. *)

From stdpp Require Import prelude gmap list.
From S2P Require Import Prelude.

Open Scope Z_scope.

(** ** Reads and writes *)

Record RecordAccess := { ra_reads : gmap Z (list Z); ra_writes : gmap Z (list Z) }.

Implicit Types (target slot : Z).

Definition push_slot (m : gmap Z (list Z)) target slot : gmap Z (list Z) :=
  <[target := default [] (m !! target) ++ [slot]]> m.

Definition record_read (a : RecordAccess) target slot : RecordAccess :=
  {| ra_reads := push_slot (ra_reads a) target slot; ra_writes := ra_writes a |}.

Definition record_write (a : RecordAccess) target slot : RecordAccess :=
  let a := record_read a target slot in
  {| ra_reads := ra_reads a; ra_writes := push_slot (ra_writes a) target slot |}.

Definition record_clear : RecordAccess := {| ra_reads := ∅; ra_writes := ∅ |}.

(** The instructions the hooks look at, with the contract that runs and its
    stack, top first; [slice_len] of the memory. *)
Inductive SlotOp : Type := OpSload | OpSstore | OpKeccak | OpOther.
Record SlotStep := {
  sp_op : SlotOp;
  sp_target : Z;
  sp_stack : list Z;
  sp_slice : Z → Z → option (list Z)
}.

Definition record_accesses (a : RecordAccess) (i : SlotStep) : RecordAccess :=
  match sp_op i, sp_stack i !! 0%nat with
  | OpSload, Some key => record_read a (sp_target i) key
  | OpSstore, Some key => record_write a (sp_target i) key
  | _, _ => a
  end.

(** [accesses]: what a contract read and wrote. *)
Definition accesses (a : RecordAccess) target : list Z * list Z :=
  (default [] (ra_reads a !! target), default [] (ra_writes a !! target)).

(** ** Mappings *)

Record MappingSlots := {
  parent_slots : gmap Z Z;
  mapping_keys : gmap Z Z;
  mapping_children : gmap Z (list Z);
  seen_sha3 : gmap Z (Z * Z)
}.

Definition mapping_empty : MappingSlots :=
  {| parent_slots := ∅; mapping_keys := ∅; mapping_children := ∅; seen_sha3 := ∅ |}.

Implicit Types (m : MappingSlots).

(** [MappingSlots::insert]; a slot that has a key already keeps its place. *)
Fixpoint mapping_insert (fuel : nat) m slot : outcome (MappingSlots * bool) :=
  match fuel with
  | O => OutOfFuel
  | S fuel =>
      match seen_sha3 m !! slot with
      | Some (key, parent) =>
          let had_key := bool_decide (is_Some (mapping_keys m !! slot)) in
          let m := {| parent_slots := parent_slots m; mapping_keys := <[slot := key]> (mapping_keys m);
                      mapping_children := mapping_children m; seen_sha3 := seen_sha3 m |} in
          if had_key then Ret (m, false)
          else
            let m := {| parent_slots := <[slot := parent]> (parent_slots m); mapping_keys := mapping_keys m;
                        mapping_children := push_slot (mapping_children m) parent slot; seen_sha3 := seen_sha3 m |} in
            '(m, _) ← mapping_insert fuel m parent;
            Ret (m, true)
      | None => Ret (m, false)
      end
  end.

(** Each level of the recursion gives a hash a key. *)
Definition mapping_fuel m : nat := S (size (seen_sha3 m)).

Section mapping.
(** The hash of two words, and the word of 32 bytes. *)
Context (keccak256 : list Z → Z) (word_of : list Z → Z).

Definition see_sha3 m (result low high : Z) : MappingSlots :=
  {| parent_slots := parent_slots m; mapping_keys := mapping_keys m; mapping_children := mapping_children m;
     seen_sha3 := <[result := (low, high)]> (seen_sha3 m) |}.

(** [mapping_slots::step]. *)
Definition mapping_step (slots : gmap Z MappingSlots) (i : SlotStep) : outcome (gmap Z MappingSlots) :=
  match sp_op i with
  | OpKeccak =>
      if bool_decide (sp_stack i !! 1%nat = Some 0x40) then
        offset ← expect (sp_stack i !! 0%nat);
        data ← expect (sp_slice i (Z.min offset (umax 64)) 0x40);
        let low := word_of (take 32 data) in
        let high := word_of (drop 32 data) in
        let result := keccak256 data in
        Ret (<[sp_target i := see_sha3 (default mapping_empty (slots !! sp_target i)) result low high]> slots)
      else Ret slots
  | OpSstore =>
      match slots !! sp_target i, sp_stack i !! 0%nat with
      | Some m, Some slot =>
          '(m, _) ← mapping_insert (mapping_fuel m) m slot;
          Ret (<[sp_target i := m]> slots)
      | _, _ => Ret slots
      end
  | _ => Ret slots
  end.
End mapping.

(** The cheatcodes that start and stop the recording, and those that read it;
    [None] when it is not active. *)
Definition start_mapping_recording (state : option (gmap Z MappingSlots)) : option (gmap Z MappingSlots) :=
  Some (default ∅ state).
Definition stop_mapping_recording : option (gmap Z MappingSlots) := None.

Definition slot_child (state : option (gmap Z MappingSlots)) target slot : option (list Z) :=
  s ← state; m ← s !! target; mapping_children m !! slot.

Definition get_mapping_length state target slot : Z :=
  match slot_child state target slot with Some l => Z.of_nat (length l) | None => 0 end.

Definition get_mapping_slot_at state target slot (idx : Z) : Z :=
  match slot_child state target slot with
  | Some l => default 0 (l !! Z.to_nat (Z.min idx (umax 64)))
  | None => 0
  end.

(** The parent of a slot with a key is indexed; [Panic] if it were not there. *)
Definition get_mapping_key_and_parent_of (state : option (gmap Z MappingSlots)) target slot
    : outcome (bool * Z * Z) :=
  match (s ← state; s !! target) with
  | None => Ret (false, 0, 0)
  | Some m =>
      match mapping_keys m !! slot with
      | Some key => parent ← expect (parent_slots m !! slot); Ret (true, key, parent)
      | None =>
          match seen_sha3 m !! slot with
          | Some (key, parent) => Ret (true, key, parent)
          | None => Ret (false, 0, 0)
          end
      end
  end.

(** ** Specification *)

(** What a contract with recorded slots looks like. *)
Record mapping_wf m : Prop := {
  mw_known : ∀ slot key, mapping_keys m !! slot = Some key → ∃ parent,
    seen_sha3 m !! slot = Some (key, parent) ∧ parent_slots m !! slot = Some parent;
  mw_parent : ∀ slot, is_Some (parent_slots m !! slot) → is_Some (mapping_keys m !! slot);
  mw_children : ∀ parent slot, slot ∈ default [] (mapping_children m !! parent) ↔ parent_slots m !! slot = Some parent;
  mw_distinct : ∀ parent, NoDup (default [] (mapping_children m !! parent))
}.

(** [m'] records more of the same hashes. *)
Definition mapping_grows m m' : Prop :=
  seen_sha3 m' = seen_sha3 m ∧ (∀ slot, is_Some (mapping_keys m !! slot) → is_Some (mapping_keys m' !! slot)) ∧
  (∀ slot, is_Some (mapping_keys m' !! slot) → is_Some (seen_sha3 m !! slot)).

Lemma push_slot_lookup (mp : gmap Z (list Z)) p q s :
  default [] (push_slot mp p s !! q) = if decide (q = p) then default [] (mp !! p) ++ [s] else default [] (mp !! q).
Proof.
  unfold push_slot. case_decide as Hq; [subst; by rewrite lookup_insert_eq|by rewrite lookup_insert_ne].
Qed.

(** A slot that gets its key. *)
Lemma mapping_add m slot key parent :
  mapping_wf m → seen_sha3 m !! slot = Some (key, parent) → mapping_keys m !! slot = None →
  mapping_wf {| parent_slots := <[slot := parent]> (parent_slots m); mapping_keys := <[slot := key]> (mapping_keys m);
                mapping_children := push_slot (mapping_children m) parent slot; seen_sha3 := seen_sha3 m |}.
Proof.
  intros [K P C D] Hs Hk.
  assert (parent_slots m !! slot = None) as Hp.
  { apply eq_None_not_Some. intros H%P. rewrite Hk in H. by destruct H. }
  split; simpl.
  - intros s k [[-> ->]|[Hne Hs']]%lookup_insert_Some.
    + exists parent. split; [done|]. apply lookup_insert_eq.
    + destruct (K s k Hs') as (p & ? & ?). exists p. by rewrite lookup_insert_ne.
  - intros s [p Hs']. destruct (decide (s = slot)) as [->|Hne]; [rewrite lookup_insert_eq; by eexists|].
    rewrite lookup_insert_ne in Hs' |- * by done. apply P. by exists p.
  - intros q s. rewrite push_slot_lookup, lookup_insert_Some. case_decide as Hq.
    + subst q. rewrite elem_of_app, list_elem_of_singleton, C. split.
      * intros [Hin| ->]; [right|by left]. split; [|done]. intros ->. congruence.
      * intros [[-> _]|[_ Hin]]; [by right|by left].
    + rewrite C. split; [|naive_solver]. intros Hin. right. split; [|done]. intros ->. congruence.
  - intros q. rewrite push_slot_lookup. case_decide; [|done]. apply NoDup_app. split_and!; [done| |apply NoDup_singleton].
    intros s Hin%C Hx%list_elem_of_singleton. subst. congruence.
Qed.

Lemma mapping_insert_spec fuel : ∀ m slot,
  mapping_wf m → (size (dom (seen_sha3 m) ∖ dom (mapping_keys m)) < fuel)%nat →
  ∃ m' b, mapping_insert fuel m slot = Ret (m', b) ∧ mapping_wf m' ∧ mapping_grows m m' ∧
    (is_Some (seen_sha3 m !! slot) → is_Some (mapping_keys m' !! slot)).
Proof.
  induction fuel as [|fuel IH]; intros m slot Hw Hf; [lia|]. cbn [mapping_insert].
  assert (∀ s, is_Some (mapping_keys m !! s) → is_Some (seen_sha3 m !! s)) as Hks.
  { intros s [k Hk]. destruct (mw_known _ Hw s k Hk) as (p & -> & _). by eexists. }
  destruct (seen_sha3 m !! slot) as [[key parent]|] eqn:Es.
  2: { do 2 eexists. split; [reflexivity|]. split_and!; try done. }
  case_bool_decide as Hk; cbn [mapping_keys parent_slots mapping_children seen_sha3].
  { destruct Hk as [k Hk]. destruct (mw_known _ Hw slot k Hk) as (p & Es' & _). simplify_eq.
    rewrite insert_id by done. do 2 eexists. split; [by destruct m|]. split_and!; done. }
  apply eq_None_not_Some in Hk. pose proof (mapping_add m slot key parent Hw Es Hk) as Hw1.
  set (m1 := {| parent_slots := _ |}) in *.
  destruct (IH m1 parent Hw1) as (m' & b & -> & Hw' & (G1 & G2 & G3) & _).
  { enough (size (dom (seen_sha3 m) ∖ dom (mapping_keys m1)) < size (dom (seen_sha3 m) ∖ dom (mapping_keys m)))%nat
      by (change (seen_sha3 m1) with (seen_sha3 m); lia).
    apply subset_size. simpl. rewrite dom_insert. apply elem_of_dom_2 in Es. apply not_elem_of_dom in Hk. set_solver. }
  rewrite bind_Ret. do 2 eexists. split; [reflexivity|]. split_and!; [done| |].
  - split_and!; [done| |done]. intros s Hs. apply G2. simpl. apply lookup_insert_is_Some'. by right.
  - intros _. apply G2. simpl. rewrite lookup_insert_eq. by eexists.
Qed.

(** *** Runs *)

Section runs.
Context (keccak256 : list Z → Z) (word_of : list Z → Z).
Context (Hcollision : ∀ data data', keccak256 data = keccak256 data' → data = data').
Implicit Types (l : list SlotStep) (slots : gmap Z MappingSlots).

Definition low_of (data : list Z) : Z := word_of (take 32 data).
Definition high_of (data : list Z) : Z := word_of (drop 32 data).

(** A step of the contract [a] that hashes the 64 bytes [data]. *)
Definition hashes (a : Z) (data : list Z) (i : SlotStep) : Prop :=
  sp_op i = OpKeccak ∧ sp_target i = a ∧ sp_stack i !! 1%nat = Some 0x40 ∧
  ∃ offset, sp_stack i !! 0%nat = Some offset ∧ sp_slice i (Z.min offset (umax 64)) 0x40 = Some data.

(** A step that writes [slot]. *)
Definition writes (a slot : Z) (i : SlotStep) : Prop :=
  sp_op i = OpSstore ∧ sp_target i = a ∧ sp_stack i !! 0%nat = Some slot.

(** The memory that is hashed is there. *)
Definition hash_readable (i : SlotStep) : Prop :=
  sp_op i = OpKeccak → sp_stack i !! 1%nat = Some 0x40 → ∃ data, hashes (sp_target i) data i.

Record recorded l slots : Prop := {
  rc_wf : ∀ a m, slots !! a = Some m → mapping_wf m;
  rc_hashed : ∀ a data, Exists (hashes a data) l →
    ∃ m, slots !! a = Some m ∧ seen_sha3 m !! keccak256 data = Some (low_of data, high_of data);
  rc_seen : ∀ a m r p, slots !! a = Some m → seen_sha3 m !! r = Some p →
    ∃ data, Exists (hashes a data) l ∧ r = keccak256 data ∧ p = (low_of data, high_of data);
  rc_written : ∀ l1 i l2 a data, l = l1 ++ i :: l2 → Exists (hashes a data) l1 → writes a (keccak256 data) i →
    ∃ m, slots !! a = Some m ∧ is_Some (mapping_keys m !! keccak256 data)
}.

(** The steps before the last one. *)
Lemma written_snoc l i l1 j l2 a data :
  l ++ [i] = l1 ++ j :: l2 → Exists (hashes a data) l1 → writes a (keccak256 data) j →
  (∃ l2', l = l1 ++ j :: l2') ∨ l1 = l ∧ j = i.
Proof.
  intros E _ _. destruct l2 as [|k l2] using rev_ind.
  - right. apply app_inj_tail in E as [-> ->]. done.
  - left. exists l2. rewrite app_comm_cons, app_assoc in E. by apply app_inj_tail in E as [-> _].
Qed.

Lemma recorded_unchanged l slots i :
  recorded l slots → (∀ a data, ~ hashes a data i) → (∀ a slot, writes a slot i → slots !! a = None) →
  recorded (l ++ [i]) slots.
Proof.
  intros [W H S R] Hh Hw. split; [done|..].
  - intros a data [?|Hx]%Exists_app; [by apply H|]. apply Exists_cons in Hx as [Hx|Hx]; [by apply Hh in Hx|].
    by apply Exists_nil in Hx.
  - intros a m r p Hm Hr. destruct (S a m r p Hm Hr) as (data & ? & ?). exists data. split; [|done].
    apply Exists_app. by left.
  - intros l1 j l2 a data E Hl1 Hj. destruct (written_snoc _ _ _ _ _ _ _ E Hl1 Hj) as [[l2' ->]|[-> ->]]; [by eapply R|].
    destruct (H a data Hl1) as (m & Hm & _). rewrite (Hw _ _ Hj) in Hm. done.
Qed.

Lemma mapping_see m r lo hi :
  mapping_wf m → (∀ p, seen_sha3 m !! r = Some p → p = (lo, hi)) → mapping_wf (see_sha3 m r lo hi).
Proof.
  intros [K P C D] Hr. split; simpl; [|done..]. intros slot key Hk. destruct (K slot key Hk) as (p & Hs & Hp).
  exists p. split; [|done]. destruct (decide (slot = r)) as [->|Hne]; [|by rewrite lookup_insert_ne].
  rewrite lookup_insert_eq. specialize (Hr _ Hs). by simplify_eq.
Qed.

Lemma mapping_empty_wf : mapping_wf mapping_empty.
Proof.
  split; simpl; intros *; rewrite ?lookup_empty; try done; [|constructor].
  split; [by intros ?%elem_of_nil|done].
Qed.

Lemma recorded_hash l slots i a data :
  recorded l slots → hashes a data i →
  recorded (l ++ [i]) (<[a := see_sha3 (default mapping_empty (slots !! a)) (keccak256 data) (low_of data) (high_of data)]> slots).
Proof.
  intros [W H S R] Hi. set (m0 := default mapping_empty (slots !! a)).
  assert (∀ r p, seen_sha3 m0 !! r = Some p → ∃ d, Exists (hashes a d) l ∧ r = keccak256 d ∧ p = (low_of d, high_of d)) as Hm0.
  { intros r p Hr. unfold m0 in Hr. destruct (slots !! a) as [m|] eqn:Em; simpl in Hr; [by eapply S|].
    by rewrite lookup_empty in Hr. }
  assert (mapping_wf m0) as Hw0.
  { unfold m0. destruct (slots !! a) as [m|] eqn:Em; simpl; [by eapply W|apply mapping_empty_wf]. }
  split.
  - intros a' m [[-> <-]|[_ Hm]]%lookup_insert_Some; [|by eapply W]. apply mapping_see; [done|].
    intros p Hp. destruct (Hm0 _ _ Hp) as (d & _ & Hd%Hcollision & ->). by subst.
  - intros a' d [Hx|Hx]%Exists_app.
    + destruct (H a' d Hx) as (m & Hm & Hs). destruct (decide (a' = a)) as [->|Hne]; [|exists m; by rewrite lookup_insert_ne].
      eexists. split; [apply lookup_insert_eq|]. simpl. unfold m0. rewrite Hm. simpl.
      destruct (decide (keccak256 data = keccak256 d)) as [E|E]; [|by rewrite lookup_insert_ne].
      apply Hcollision in E as ->. apply lookup_insert_eq.
    + apply Exists_cons in Hx as [Hx|Hx]; [|by apply Exists_nil in Hx].
      destruct Hi as (_ & <- & _ & o & Ho & Hd), Hx as (_ & <- & _ & o' & Ho' & Hd'). simplify_eq.
      eexists. split; [apply lookup_insert_eq|]. simpl. apply lookup_insert_eq.
  - intros a' m r p [[-> <-]|[_ Hm]]%lookup_insert_Some Hr; simpl in Hr.
    + apply lookup_insert_Some in Hr as [[<- <-]|[_ Hr]].
      * exists data. split; [|done]. apply Exists_app. right. by left.
      * destruct (Hm0 r p Hr) as (d & ? & ?). exists d. split; [|done]. apply Exists_app. by left.
    + destruct (S a' m r p Hm Hr) as (d & ? & ?). exists d. split; [|done]. apply Exists_app. by left.
  - intros l1 j l2 a' d E Hl1 Hj. destruct (written_snoc _ _ _ _ _ _ _ E Hl1 Hj) as [[l2' ->]|[-> ->]].
    2: { destruct Hi as [Hi _], Hj as [Hj _]. congruence. }
    destruct (R l1 j l2' a' d eq_refl Hl1 Hj) as (m & Hm & Hk).
    destruct (decide (a' = a)) as [->|Hne]; [|exists m; by rewrite lookup_insert_ne].
    eexists. split; [apply lookup_insert_eq|]. simpl. unfold m0. by rewrite Hm.
Qed.

Lemma recorded_write l slots i a slot m m' :
  recorded l slots → writes a slot i → slots !! a = Some m → mapping_wf m' → mapping_grows m m' →
  (is_Some (seen_sha3 m !! slot) → is_Some (mapping_keys m' !! slot)) →
  recorded (l ++ [i]) (<[a := m']> slots).
Proof.
  intros [W H S R] Hi Hm Hw' (G1 & G2 & G3) Hslot. split.
  - intros a' x [[-> <-]|[_ Hx]]%lookup_insert_Some; [done|by eapply W].
  - intros a' d [Hx|Hx]%Exists_app.
    + destruct (H a' d Hx) as (x & Hx' & Hs). destruct (decide (a' = a)) as [->|Hne]; [|exists x; by rewrite lookup_insert_ne].
      simplify_eq. exists m'. by rewrite lookup_insert_eq, G1.
    + apply Exists_cons in Hx as [Hx|Hx]; [|by apply Exists_nil in Hx].
      destruct Hi as [Hi _], Hx as [Hx _]. congruence.
  - intros a' x r p [[-> <-]|[_ Hx]]%lookup_insert_Some Hr.
    + rewrite G1 in Hr. destruct (S a' m r p Hm Hr) as (d & ? & ?). exists d. split; [|done]. apply Exists_app. by left.
    + destruct (S a' x r p Hx Hr) as (d & ? & ?). exists d. split; [|done]. apply Exists_app. by left.
  - intros l1 j l2 a' d E Hl1 Hj. destruct (written_snoc _ _ _ _ _ _ _ E Hl1 Hj) as [[l2' ->]|[-> ->]].
    + destruct (R l1 j l2' a' d eq_refl Hl1 Hj) as (x & Hx & Hk).
      destruct (decide (a' = a)) as [->|Hne]; [|exists x; by rewrite lookup_insert_ne].
      simplify_eq. exists m'. rewrite lookup_insert_eq. split; [done|by apply G2].
    + destruct Hi as (_ & <- & Hs), Hj as (_ & <- & Hs'). simplify_eq. destruct (H _ d Hl1) as (x & Hx & Hd). simplify_eq.
      exists m'. rewrite lookup_insert_eq. split; [done|]. apply Hslot. by rewrite Hd.
Qed.

Lemma mapping_step_spec l slots i :
  recorded l slots → hash_readable i →
  ∃ slots', mapping_step keccak256 word_of slots i = Ret slots' ∧ recorded (l ++ [i]) slots'.
Proof.
  intros Hr Hh. unfold mapping_step. destruct (sp_op i) eqn:Eo.
  - eexists. split; [reflexivity|]. apply recorded_unchanged; [done|intros ? ? [? _]|intros ? ? [? _]]; congruence.
  - destruct (slots !! sp_target i) as [m|] eqn:Em.
    2: { eexists. split; [reflexivity|]. apply recorded_unchanged; [done|intros ? ? [? _]; congruence|].
         by intros a slot (_ & <- & _). }
    destruct (sp_stack i !! 0%nat) as [slot|] eqn:Es.
    2: { eexists. split; [reflexivity|]. apply recorded_unchanged; [done|intros ? ? [? _]; congruence|].
         intros a slot (_ & _ & ?). congruence. }
    pose proof (rc_wf _ _ Hr _ _ Em) as Hw.
    destruct (mapping_insert_spec (mapping_fuel m) m slot Hw) as (m' & b & -> & Hw' & Hg & Hk).
    { unfold mapping_fuel. apply Nat.lt_succ_r. rewrite <- size_dom. apply subseteq_size. set_solver. }
    rewrite bind_Ret. eexists. split; [reflexivity|]. by eapply recorded_write.
  - case_bool_decide as H1.
    2: { eexists. split; [reflexivity|]. apply recorded_unchanged; [done| |intros ? ? [? _]; congruence].
         by intros a data (_ & _ & ? & _). }
    destruct (Hh Eo H1) as [data Hd]. pose proof Hd as (_ & _ & _ & offset & Ho & Hsl).
    rewrite Ho. cbn [expect]. rewrite bind_Ret, Hsl. cbn [expect]. rewrite bind_Ret.
    eexists. split; [reflexivity|]. by apply recorded_hash.
  - eexists. split; [reflexivity|]. apply recorded_unchanged; [done|intros ? ? [? _]|intros ? ? [? _]]; congruence.
Qed.

Lemma recorded_nil : recorded [] ∅.
Proof.
  split.
  - intros a m Hm. by rewrite lookup_empty in Hm.
  - intros a data Hx. by apply Exists_nil in Hx.
  - intros a m r p Hm. by rewrite lookup_empty in Hm.
  - intros l1 i l2 a data E. by destruct l1.
Qed.

Lemma mapping_run_spec l :
  Forall hash_readable l → ∃ slots, foldM (mapping_step keccak256 word_of) ∅ l = Ret slots ∧ recorded l slots.
Proof.
  induction l as [|i l IH] using rev_ind; intros Hl; [eexists; split; [reflexivity|apply recorded_nil]|].
  apply Forall_app in Hl as [Hl Hi]. destruct (IH Hl) as (slots & E & Hr).
  destruct (mapping_step_spec l slots i Hr) as (slots' & Es & Hr'); [by apply Forall_singleton|].
  exists slots'. split; [|done]. rewrite foldM_app, E, bind_Ret. simpl. by rewrite Es.
Qed.
End runs.

(** Mapping recording never panics.  A slot that was written after its hash was
    computed is reported with its key and the slot of its mapping, and listed
    once among the elements of that mapping; and every listed element is the hash
    of a key and the mapping's slot that the contract computed. *)
Theorem mapping_recording_correct (keccak256 : list Z → Z) (word_of : list Z → Z) (l : list SlotStep) :
  (∀ data data', keccak256 data = keccak256 data' → data = data') → Forall hash_readable l →
  ∃ slots, foldM (mapping_step keccak256 word_of) ∅ l = Ret slots ∧
    (∀ l1 i l2 a data, l = l1 ++ i :: l2 → Exists (hashes a data) l1 → writes a (keccak256 data) i →
       get_mapping_key_and_parent_of (Some slots) a (keccak256 data) =
         Ret (true, low_of word_of data, high_of word_of data) ∧
       ∃ elements, slot_child (Some slots) a (high_of word_of data) = Some elements ∧
         NoDup elements ∧ keccak256 data ∈ elements) ∧
    (∀ a parent elements slot, slot_child (Some slots) a parent = Some elements → slot ∈ elements →
       ∃ data, Exists (hashes a data) l ∧ slot = keccak256 data ∧ parent = high_of word_of data).
Proof.
  intros Hc Hl. destruct (mapping_run_spec keccak256 word_of Hc l Hl) as (slots & E & [W H S R]).
  exists slots. split; [done|]. split.
  - intros l1 i l2 a data El Hl1 Hi. destruct (R l1 i l2 a data El Hl1 Hi) as (m & Hm & [k Hk]).
    destruct (mw_known _ (W a m Hm) _ k Hk) as (p & Hs & Hp).
    destruct (S a m _ _ Hm Hs) as (d & _ & Hd%Hc & Hpair). subst d. injection Hpair as -> ->.
    unfold get_mapping_key_and_parent_of, slot_child. simpl. rewrite Hm. simpl. rewrite Hk, Hp. split; [done|].
    pose proof (proj2 (mw_children _ (W a m Hm) _ _) Hp) as Hin.
    pose proof (mw_distinct _ (W a m Hm) (high_of word_of data)) as Hnd.
    destruct (mapping_children m !! high_of word_of data) as [elements|]; [|by apply elem_of_nil in Hin].
    by exists elements.
  - intros a parent elements slot He Hin. unfold slot_child in He. simpl in He.
    destruct (slots !! a) as [m|] eqn:Hm; [|done]. simpl in He.
    assert (parent_slots m !! slot = Some parent) as Hp by (apply (mw_children _ (W a m Hm)); by rewrite He).
    destruct (mw_parent _ (W a m Hm) slot) as [k Hk]; [by eexists|].
    destruct (mw_known _ (W a m Hm) _ k Hk) as (p & Hs & Hp'). simplify_eq.
    destruct (S a m _ _ Hm Hs) as (d & ? & -> & Hpair). injection Hpair as -> ->. by exists d.
Qed.

(** *** Reads and writes *)

(** What [accesses] lists: the slots of the instructions of the contract, in
    order; a write counts as a read. *)
Definition touched_slots (reads : bool) (target : Z) (l : list SlotStep) : list Z :=
  omap (λ i, if bool_decide (sp_target i = target) then
               match sp_op i with
               | OpSload => if reads then sp_stack i !! 0%nat else None
               | OpSstore => sp_stack i !! 0%nat
               | _ => None
               end
             else None) l.

Theorem accesses_correct (l : list SlotStep) (target : Z) :
  accesses (foldl record_accesses record_clear l) target = (touched_slots true target l, touched_slots false target l).
Proof.
  induction l as [|i l IH] using rev_ind; [done|]. rewrite foldl_app. simpl.
  remember (foldl record_accesses record_clear l) as a eqn:Ea. clear Ea. unfold touched_slots in *. rewrite !omap_app.
  unfold accesses in IH |- *. injection IH as <- <-.
  unfold record_accesses, record_write, record_read. cbn [omap list_omap]. case_bool_decide as Ht; [subst target|];
    destruct (sp_op i), (sp_stack i !! 0%nat) as [key|]; cbn [ra_reads ra_writes];
    rewrite ?push_slot_lookup, ?app_nil_r; try done;
    first [by rewrite !decide_True | by rewrite !decide_False by congruence].
Qed.
