(* ===== verification/ArbitraryStorage.v ===== *)
(** * Arbitrary storage and expected creations (crates/cheatcodes/src/utils.rs,
    inspector.rs and test/expect.rs)

    [setArbitraryStorage] makes the unset slots of a contract read as random
    values, which are generated at the first read and kept; [copyStorage] makes
    another contract read the same ones.  [expectCreate] demands that a contract
    is deployed. *)

From stdpp Require Import prelude gmap list.
From S2P Require Import Prelude Containers.

Open Scope Z_scope.

(** ** Data *)

Record ArbitraryStorage := {
  ar_values : gmap Z (gmap Z Z);
  ar_copies : gmap Z Z;
  ar_overwrites : gset Z
}.

Definition arbitrary_default : ArbitraryStorage := {| ar_values := ∅; ar_copies := ∅; ar_overwrites := ∅ |}.

(** The inspector's part and the journal: the slots of each account that were
    loaded in the transaction. *)
Record ArbState := {
  as_arbitrary : option ArbitraryStorage;
  as_journal : gmap Z (gmap Z Z)
}.

Implicit Types (s : ArbState) (r : ArbitraryStorage) (address slot : Z).

Definition with_arbitrary s (r : ArbitraryStorage) : ArbState :=
  {| as_arbitrary := Some r; as_journal := as_journal s |}.

(** [account.storage.insert]. *)
Definition set_slot s address slot (data : Z) : ArbState :=
  {| as_arbitrary := as_arbitrary s;
     as_journal := <[address := <[slot := data]> (default ∅ (as_journal s !! address))]> (as_journal s) |}.

Definition journal_slot s address slot : option Z := as_journal s !! address ≫= λ m, m !! slot.

(** ** The cheatcodes *)

Definition mark_arbitrary r address (overwrite : bool) : ArbitraryStorage :=
  {| ar_values := <[address := ∅]> (ar_values r); ar_copies := ar_copies r;
     ar_overwrites := if overwrite then {[address]} ∪ ar_overwrites r else ar_overwrites r ∖ {[address]} |}.

Definition mark_copy r (from to : Z) : ArbitraryStorage :=
  if decide (is_Some (ar_values r !! from))
  then {| ar_values := ar_values r; ar_copies := <[to := from]> (ar_copies r); ar_overwrites := ar_overwrites r |}
  else r.

Definition set_arbitrary_storage s address (overwrite : bool) : ArbState :=
  with_arbitrary s (mark_arbitrary (default arbitrary_default (as_arbitrary s)) address overwrite).

Definition has_arbitrary_storage s address : bool :=
  match as_arbitrary s with Some r => bool_decide (is_Some (ar_values r !! address)) | None => false end.

Definition is_arbitrary_storage_copy s address : bool :=
  match as_arbitrary s with Some r => bool_decide (is_Some (ar_copies r !! address)) | None => false end.

Definition should_overwrite_arbitrary_storage s address slot : bool :=
  match as_arbitrary s with
  | Some r => bool_decide (address ∈ ar_overwrites r) &&
              negb (bool_decide (is_Some (ar_values r !! address ≫= λ m, m !! slot)))
  | None => false
  end.

Section storage.
(** The database, and the accounts that can be loaded. *)
Context (db : Z → Z → Z) (loads : Z → bool).

Inductive ArbError : Type := TargetIsArbitrary.

Definition copy_storage s (from to : Z) : result ArbState ArbError :=
  if has_arbitrary_storage s to then Err TargetIsArbitrary
  else if loads from && loads to then
    let s := {| as_arbitrary := as_arbitrary s;
                as_journal := <[to := default ∅ (as_journal s !! from)]> (as_journal s) |} in
    Ok (match as_arbitrary s with Some r => with_arbitrary s (mark_copy r from to) | None => s end)
  else Ok s.

(** [ArbitraryStorage::save] and [copy], with the state they change. *)
Definition arbitrary_save s r address slot (data : Z) : outcome ArbState :=
  values ← expect (ar_values r !! address);
  let s := with_arbitrary s {| ar_values := <[address := <[slot := data]> values]> (ar_values r);
                               ar_copies := ar_copies r; ar_overwrites := ar_overwrites r |} in
  Ret (if loads address then set_slot s address slot data else s).

Definition arbitrary_copy s r target slot (new_value : Z) : outcome ArbState :=
  source ← expect (ar_copies r !! target);
  storage_cache ← expect (ar_values r !! source);
  let '(s, value) :=
    match storage_cache !! slot with
    | Some value => (s, value)
    | None =>
        let s := with_arbitrary s {| ar_values := <[source := <[slot := new_value]> storage_cache]> (ar_values r);
                                     ar_copies := ar_copies r; ar_overwrites := ar_overwrites r |} in
        (if loads source then set_slot s source slot new_value else s, new_value)
    end in
  Ret (if loads target then set_slot s target slot value else s).

(** [sload]: the value, and whether the slot was cold. *)
Definition sload s address slot : option (ArbState * Z * bool) :=
  if loads address then
    match journal_slot s address slot with
    | Some value => Some (s, value, false)
    | None => Some (set_slot s address slot (db address slot), db address slot, true)
    end
  else None.

(** Before an SLOAD of [target] runs; [random] is the next random word. *)
Definition arbitrary_storage_end s target key (random : Z) : outcome ArbState :=
  match as_arbitrary s with
  | None => Ret s
  | Some _ =>
      match sload s target key with
      | None => Ret s
      | Some (s, value, is_cold) =>
          if (is_cold && (value =? 0)) || should_overwrite_arbitrary_storage s target key then
            if has_arbitrary_storage s target then
              r ← expect (as_arbitrary s); arbitrary_save s r target key random
            else if is_arbitrary_storage_copy s target then
              r ← expect (as_arbitrary s); arbitrary_copy s r target key random
            else Ret s
          else Ret s
      end
  end.

(** The SLOAD with its hook. *)
Definition read_slot s target key (random : Z) : outcome (ArbState * option Z) :=
  s ← arbitrary_storage_end s target key random;
  Ret (match sload s target key with Some (s, value, _) => (s, Some value) | None => (s, None) end).

(** ** Specification *)

(** Every copy has a source with values. *)
Definition arb_wf s : Prop :=
  ∀ r to from, as_arbitrary s = Some r → ar_copies r !! to = Some from → is_Some (ar_values r !! from).

Lemma set_arbitrary_wf s address overwrite : arb_wf s → arb_wf (set_arbitrary_storage s address overwrite).
Proof.
  intros Hw r to from [= <-] Hc. simpl in *. apply lookup_insert_is_Some'. right.
  destruct (as_arbitrary s) as [r|] eqn:E; simpl in *; [by eapply Hw|by rewrite lookup_empty in Hc].
Qed.

Lemma copy_storage_wf s s' from to : arb_wf s → copy_storage s from to = Ok s' → arb_wf s'.
Proof.
  intros Hw. unfold copy_storage. destruct (has_arbitrary_storage s to); [done|].
  destruct (loads from && loads to); [|by intros [= <-]]. simpl. intros [= <-].
  destruct (as_arbitrary s) as [r|] eqn:E; intros r' t f; simpl; [|congruence]. intros [= <-]. unfold mark_copy.
  case_decide as Hv; [|by eapply Hw]. simpl. intros [[-> ->]|[_ Hc]]%lookup_insert_Some; [done|by eapply Hw].
Qed.

Lemma set_slot_arbitrary s address slot v : as_arbitrary (set_slot s address slot v) = as_arbitrary s.
Proof. done. Qed.

Lemma sload_arbitrary s address slot s' v c : sload s address slot = Some (s', v, c) → as_arbitrary s' = as_arbitrary s.
Proof. unfold sload. destruct (loads address); [|done]. destruct (journal_slot _ _ _); intros [= <- _ _]; done. Qed.

(** New values keep the sources. *)
Lemma arb_wf_values s s' r values :
  arb_wf s → as_arbitrary s = Some r → (∀ a, is_Some (ar_values r !! a) → is_Some (values !! a)) →
  as_arbitrary s' = Some {| ar_values := values; ar_copies := ar_copies r; ar_overwrites := ar_overwrites r |} →
  arb_wf s'.
Proof. intros Hw Hr Hv E r' to from Hr' Hc. rewrite E in Hr'. injection Hr' as <-. apply Hv. by eapply Hw. Qed.

(** Reading never panics: the entries the code expects are there. *)
Theorem read_slot_total s target key random :
  arb_wf s → ∃ s' v, read_slot s target key random = Ret (s', v) ∧ arb_wf s'.
Proof.
  intros Hw. unfold read_slot.
  assert (∃ s1, arbitrary_storage_end s target key random = Ret s1 ∧ arb_wf s1) as (s1 & -> & Hw1).
  { unfold arbitrary_storage_end. destruct (as_arbitrary s) as [r|] eqn:Er; [|by eexists].
    destruct (sload s target key) as [[[s1 v] c]|] eqn:El; [|by eexists].
    pose proof (sload_arbitrary _ _ _ _ _ _ El) as E1. rewrite Er in E1.
    assert (arb_wf s1) as Hw1 by (intros r' t f Hr'; eapply Hw; congruence).
    destruct (_ || _); [|by eexists]. unfold has_arbitrary_storage, is_arbitrary_storage_copy. rewrite E1.
    case_bool_decide as Hv; [|case_bool_decide as Hc]; [| |by eexists]; cbn [expect]; rewrite bind_Ret.
    - destruct Hv as [values Hv]. unfold arbitrary_save. rewrite Hv. cbn [expect]. rewrite bind_Ret.
      eexists. split; [reflexivity|]. eapply arb_wf_values; [exact Hw1|exact E1| |by destruct (loads target)].
      intros a Ha. apply lookup_insert_is_Some'. by right.
    - destruct Hc as [source Hc]. destruct (Hw1 r target source E1 Hc) as [cache Hcache].
      unfold arbitrary_copy. rewrite Hc. cbn [expect]. rewrite bind_Ret, Hcache. cbn [expect]. rewrite bind_Ret.
      destruct (cache !! key) as [value|].
      + eexists. split; [reflexivity|]. by destruct (loads target).
      + eexists. split; [reflexivity|]. eapply arb_wf_values; [exact Hw1|exact E1| |by destruct (loads target), (loads source)].
        intros a Ha. apply lookup_insert_is_Some'. by right. }
  rewrite bind_Ret. destruct (sload s1 target key) as [[[s2 v] c]|] eqn:El; [|by do 2 eexists].
  do 2 eexists. split; [reflexivity|]. intros r' t f Hr'. eapply Hw1. rewrite <- Hr'. symmetry. by eapply sload_arbitrary.
Qed.
End storage.

Lemma journal_set_slot s a k v a' k' :
  journal_slot (set_slot s a k v) a' k' = if decide ((a', k') = (a, k)) then Some v else journal_slot s a' k'.
Proof.
  unfold journal_slot, set_slot; simpl. destruct (decide (a' = a)) as [->|Ha].
  - rewrite lookup_insert_eq; simpl. case_decide; simplify_eq; [by rewrite lookup_insert_eq|].
    rewrite lookup_insert_ne by naive_solver. by destruct (as_journal s !! a); simpl; [|rewrite lookup_empty].
  - rewrite lookup_insert_ne by done. by rewrite decide_False by naive_solver.
Qed.

(** *** A contract and its copy *)

Section agreement.
Context (db : Z → Z → Z) (loads : Z → bool) (A B : Z).
Context (Hne : A ≠ B) (HA : loads A = true) (HB : loads B = true).
Context (Hzero : ∀ k, db A k = 0 ∧ db B k = 0).

(** [cache] holds the values of [A] that were read, by either contract. *)
Record in_step (cache : gmap Z Z) s : Prop := {
  is_arb : ∃ r, as_arbitrary s = Some r ∧ ar_values r !! A = Some cache ∧ ar_values r !! B = None ∧
    ar_copies r !! B = Some A ∧ B ∉ ar_overwrites r;
  is_source : ∀ k, journal_slot s A k = cache !! k;
  is_copy : ∀ k v, journal_slot s B k = Some v → cache !! k = Some v
}.

Lemma sload_warm s a k v : loads a = true → journal_slot s a k = Some v → sload db loads s a k = Some (s, v, false).
Proof. intros Hl Hj. unfold sload. by rewrite Hl, Hj. Qed.

Lemma sload_cold s a k : loads a = true → journal_slot s a k = None →
  sload db loads s a k = Some (set_slot s a k (db a k), db a k, true).
Proof. intros Hl Hj. unfold sload. by rewrite Hl, Hj. Qed.

(** A read of [a] gives [v], which is then the value of the slot. *)
Definition reads_as (cache : gmap Z Z) s (a k random : Z) : Prop :=
  ∃ s' v cache', read_slot db loads s a k random = Ret (s', Some v) ∧ in_step cache' s' ∧
    cache ⊆ cache' ∧ cache' !! k = Some v.

Lemma read_source cache s k random : in_step cache s → reads_as cache s A k random.
Proof.
  intros [(r & Er & Ev & Eb & Ec & Eo) Hs Hc]. unfold reads_as, read_slot, arbitrary_storage_end. rewrite Er.
  destruct (journal_slot s A k) as [v|] eqn:Ej.
  - rewrite (sload_warm _ _ _ v) by done. simpl. unfold should_overwrite_arbitrary_storage. rewrite Er, Ev. simpl.
    rewrite <- Hs, Ej. rewrite (bool_decide_eq_true_2 (is_Some (Some v))) by by eexists. rewrite andb_false_r. simpl.
    rewrite (sload_warm _ _ _ v) by done. exists s, v, cache. split_and!; try done; [|by rewrite <- Hs].
    split; [by exists r|done|done].
  - rewrite (sload_cold _ _ _) by done. destruct (Hzero k) as [-> _]. simpl.
    unfold has_arbitrary_storage; simpl. rewrite Er, Ev. simpl. unfold arbitrary_save. rewrite Ev. simpl. rewrite HA.
    set (s1 := set_slot (with_arbitrary _ _) A k random).
    assert (journal_slot s1 A k = Some random) as Hj by (unfold s1; by rewrite journal_set_slot, decide_True).
    rewrite (sload_warm _ _ _ random) by done. exists s1, random, (<[k := random]> cache).
    assert (∀ a' k', journal_slot s1 a' k' = if decide ((a', k') = (A, k)) then Some random else journal_slot s a' k') as Hj1.
    { intros a' k'. unfold s1. rewrite journal_set_slot. case_decide; [done|].
      change (journal_slot (set_slot s A k 0) a' k' = journal_slot s a' k'). by rewrite journal_set_slot, decide_False. }
    split_and!; [done| |by apply insert_subseteq; rewrite <- Hs|by rewrite lookup_insert_eq]. split.
    + eexists. split; [reflexivity|]. simpl. rewrite lookup_insert_eq, lookup_insert_ne by done. done.
    + intros k'. rewrite Hj1. case_decide; simplify_eq; [by rewrite lookup_insert_eq|].
      rewrite lookup_insert_ne by naive_solver. apply Hs.
    + intros k' v'. rewrite Hj1, decide_False by naive_solver. intros Hv%Hc.
      destruct (decide (k' = k)) as [->|]; [by rewrite <- Hs, Ej in Hv|]. by rewrite lookup_insert_ne.
Qed.

Lemma read_copy cache s k random : in_step cache s → reads_as cache s B k random.
Proof.
  intros [(r & Er & Ev & Eb & Ec & Eo) Hs Hc]. unfold reads_as, read_slot, arbitrary_storage_end. rewrite Er.
  destruct (journal_slot s B k) as [v|] eqn:Ej.
  - rewrite (sload_warm _ _ _ v) by done. simpl. unfold should_overwrite_arbitrary_storage.
    rewrite Er, bool_decide_eq_false_2 by done. simpl. rewrite (sload_warm _ _ _ v) by done.
    exists s, v, cache. split_and!; try done; [|by apply Hc]. split; [by exists r|done|done].
  - rewrite (sload_cold _ _ _) by done. destruct (Hzero k) as [_ ->]. simpl.
    unfold has_arbitrary_storage, is_arbitrary_storage_copy; simpl. rewrite Er, Eb, Ec. simpl.
    unfold arbitrary_copy. rewrite Ec. simpl. rewrite Ev. simpl. rewrite HA, HB.
    destruct (cache !! k) as [v|] eqn:Ek; cbv beta iota.
    + set (s1 := set_slot _ B k v).
      assert (∀ a' k', journal_slot s1 a' k' = if decide ((a', k') = (B, k)) then Some v else journal_slot s a' k') as Hj1.
      { intros a' k'. unfold s1. rewrite !journal_set_slot. by case_decide. }
      rewrite bind_Ret, (sload_warm s1 B k v) by (try done; by rewrite Hj1, decide_True). exists s1, v, cache.
      split_and!; try done. split; [by exists r| |].
      * intros k'. rewrite Hj1, decide_False by naive_solver. apply Hs.
      * intros k' v'. rewrite Hj1. case_decide; [naive_solver|apply Hc].
    + set (s1 := set_slot (set_slot (with_arbitrary _ _) A k random) B k random).
      assert (∀ a' k', journal_slot s1 a' k' = if decide ((a', k') = (B, k) ∨ (a', k') = (A, k)) then Some random
                       else journal_slot s a' k') as Hj1.
      { intros a' k'. unfold s1. rewrite !journal_set_slot.
        destruct (decide ((a', k') = (B, k))) as [E|E]; [by rewrite decide_True by tauto|].
        destruct (decide ((a', k') = (A, k))) as [E'|E']; [by rewrite decide_True by tauto|].
        rewrite decide_False by tauto.
        change (journal_slot (set_slot s B k 0) a' k' = journal_slot s a' k'). by rewrite journal_set_slot, decide_False. }
      rewrite bind_Ret, (sload_warm s1 B k random) by (try done; rewrite Hj1, decide_True; tauto).
      exists s1, random, (<[k := random]> cache).
      split_and!; [done| |by apply insert_subseteq|by rewrite lookup_insert_eq]. split.
      * eexists. split; [reflexivity|]. simpl. rewrite lookup_insert_eq, lookup_insert_ne by done. done.
      * intros k'. rewrite Hj1. case_decide as Hd.
        -- assert (k' = k) as -> by naive_solver. by rewrite lookup_insert_eq.
        -- rewrite lookup_insert_ne by naive_solver. apply Hs.
      * intros k' v'. rewrite Hj1. case_decide as Hd; [|intros Hv%Hc].
        -- intros [= <-]. assert (k' = k) as -> by naive_solver. by rewrite lookup_insert_eq.
        -- rewrite lookup_insert_ne; [done|]. intros <-. congruence.
Qed.

(** Reads of either contract, each with its random word. *)
Definition read_all s (l : list (bool * Z * Z)) : outcome (ArbState * list (Z * option Z)) :=
  foldM (λ st '(copy, k, random),
    '(s, v) ← read_slot db loads st.1 (if copy : bool then B else A) k random; Ret (s, st.2 ++ [(k, v)])) (s, []) l.

Lemma read_all_spec l : ∀ cache s, in_step cache s →
  ∃ s' vs cache', read_all s l = Ret (s', vs) ∧ in_step cache' s' ∧ cache ⊆ cache' ∧
    Forall (λ '(k, v), v = cache' !! k ∧ is_Some v) vs ∧ vs.*1 = (λ x : bool * Z * Z, x.1.2) <$> l.
Proof.
  induction l as [|[[copy k] random] l IH] using rev_ind; intros cache s Hs.
  { exists s, [], cache. split_and!; try done. }
  destruct (IH cache s Hs) as (s1 & vs & c1 & E & H1 & Hsub & Hvs & Hk).
  assert (reads_as c1 s1 (if copy then B else A) k random) as (s2 & v & c2 & E2 & H2 & Hsub2 & Hv)
    by (destruct copy; [by apply read_copy|by apply read_source]).
  exists s2, (vs ++ [(k, Some v)]), c2. unfold read_all in *. rewrite foldM_app, E, bind_Ret. simpl. rewrite E2, bind_Ret.
  split_and!; [done|done|by trans c1| |by rewrite !fmap_app, Hk].
  apply Forall_app. split; [|constructor; [|constructor]; split; [done|by eexists]].
  eapply Forall_impl; [exact Hvs|]. intros [k' v'] [-> [x Hx]]. rewrite Hx. split; [|by eexists].
  symmetry. by eapply lookup_weaken.
Qed.
End agreement.

(** Once a contract [A] that was not read has arbitrary storage and [B] a copy of
    it, every slot reads as one value: whichever of the two reads it, how often
    and in which order, all reads of a slot give the same. *)
Theorem arbitrary_copy_agrees (db : Z → Z → Z) (loads : Z → bool) (s : ArbState) (A B : Z) (overwrite : bool)
    (l : list (bool * Z * Z)) :
  A ≠ B → loads A = true → loads B = true → (∀ k, db A k = 0 ∧ db B k = 0) →
  has_arbitrary_storage s B = false → as_journal s !! A = None →
  (∀ r, as_arbitrary s = Some r → B ∉ ar_overwrites r) →
  ∃ s1 s2 vs, copy_storage loads (set_arbitrary_storage s A overwrite) A B = Ok s1 ∧
    read_all db loads A B s1 l = Ret (s2, vs) ∧
    vs.*1 = (λ x : bool * Z * Z, x.1.2) <$> l ∧
    ∀ k v v', (k, v) ∈ vs → (k, v') ∈ vs → v = v' ∧ is_Some v.
Proof.
  intros Hne HA HB Hz HhB Hj Ho.
  assert (has_arbitrary_storage (set_arbitrary_storage s A overwrite) B = false) as Hb.
  { unfold has_arbitrary_storage in *; simpl. rewrite lookup_insert_ne by done.
    destruct (as_arbitrary s) as [r|]; simpl; [done|by rewrite lookup_empty]. }
  unfold copy_storage. rewrite Hb, HA, HB. simpl. rewrite Hj. unfold mark_copy. simpl.
  rewrite decide_True by (rewrite lookup_insert_eq; by eexists). set (s1 := with_arbitrary _ _).
  destruct (read_all_spec db loads A B Hne HA HB Hz l ∅ s1) as (s2 & vs & c & E & _ & _ & Hvs & Hk).
  { split.
    - eexists. split; [reflexivity|]. simpl. rewrite lookup_insert_eq, lookup_insert_ne, lookup_insert_eq by done.
      split_and!; try done.
      + unfold has_arbitrary_storage in HhB. destruct (as_arbitrary s) as [r|]; simpl; [|by rewrite lookup_empty].
        apply bool_decide_eq_false in HhB. by apply eq_None_not_Some.
      + destruct (as_arbitrary s) as [r|]; simpl; [specialize (Ho r eq_refl)|]; destruct overwrite; set_solver.
    - intros k. unfold journal_slot; simpl. by rewrite lookup_insert_ne, Hj, lookup_empty.
    - intros k v. unfold journal_slot; simpl. rewrite lookup_insert_eq. simpl. by rewrite lookup_empty. }
  exists s1, s2, vs. split_and!; try done. rewrite Forall_forall in Hvs. intros k v v' H1 H2.
  destruct (Hvs _ H1) as [-> ?], (Hvs _ H2) as [-> ?]. done.
Qed.

(** A contract with the value 7 in each slot, and a copy of it: what the contract
    reads, and what it reads after the copy has read the slot. *)
Definition overwritten_run : outcome (option Z * option Z) :=
  let db a k := if a =? 1 then 7 else 0 in
  let s := set_arbitrary_storage {| as_arbitrary := None; as_journal := ∅ |} 1 false in
  match copy_storage (λ _, true) s 1 2 with
  | Ok s1 =>
      '(_, before) ← read_slot db (λ _, true) s1 1 5 99;
      '(s2, _) ← read_slot db (λ _, true) s1 2 5 99;
      '(_, after) ← read_slot db (λ _, true) s2 1 5 42;
      Ret (before, after)
  | Err _ => Panic
  end.

(** A value the source has but that was not generated is lost when a copy reads
    its slot first: the source is given the random word. *)
Lemma copy_read_overwrites_source : overwritten_run = Ret (Some 7, Some 99).
Proof. by vm_compute. Qed.

(** ** Expected creations *)

Inductive ExpectScheme : Type := ExpectCreate | ExpectCreate2.
#[export] Instance expect_scheme_eq : EqDecision ExpectScheme.
Proof. solve_decision. Defined.

Record ExpectedCreate := { ex_deployer : Z; ex_bytecode_of : list Z; ex_scheme : ExpectScheme }.
#[export] Instance expected_create_eq : EqDecision ExpectedCreate.
Proof. solve_decision. Defined.

Definition expect_create (expected_creates : list ExpectedCreate) (bytecode : list Z) (deployer : Z)
    (scheme : ExpectScheme) : list ExpectedCreate :=
  expected_creates ++ [{| ex_deployer := deployer; ex_bytecode_of := bytecode; ex_scheme := scheme |}].

(** The end of a creation: the account at its address, if there is one, with its
    code. *)
Definition match_create (expected_creates : list ExpectedCreate) (caller : Z) (scheme : ExpectScheme)
    (code : option (list Z)) : list ExpectedCreate :=
  match code with
  | Some bytecode =>
      match list_find (λ e, ex_deployer e = caller ∧ ex_scheme e = scheme ∧ ex_bytecode_of e = bytecode) expected_creates with
      | Some (index, _) => swap_remove index expected_creates
      | None => expected_creates
      end
  | None => expected_creates
  end.

(** The end of the test: the first expectation that is left. *)
Definition unmet_create (expected_creates : list ExpectedCreate) : option ExpectedCreate := head expected_creates.

(** A creation as an expectation that it meets. *)
Definition deployed (c : Z * ExpectScheme * option (list Z)) : option ExpectedCreate :=
  let '(caller, scheme, code) := c in
  (λ b, {| ex_deployer := caller; ex_bytecode_of := b; ex_scheme := scheme |}) <$> code.

Definition occurrences (e : ExpectedCreate) (l : list ExpectedCreate) : nat := length (filter (.= e) l).

Lemma occurrences_perm e l l' : l ≡ₚ l' → occurrences e l = occurrences e l'.
Proof. intros H. unfold occurrences. by rewrite H. Qed.

Lemma match_create_occurrences e expected caller scheme code :
  occurrences e (match_create expected caller scheme code) =
    (occurrences e expected - if decide (deployed (caller, scheme, code) = Some e) then 1 else 0)%nat.
Proof.
  unfold match_create, deployed. destruct code as [b|]; simpl; [|by rewrite Nat.sub_0_r].
  set (x := {| ex_deployer := caller; ex_bytecode_of := b; ex_scheme := scheme |}).
  assert (∀ y, ex_deployer y = caller ∧ ex_scheme y = scheme ∧ ex_bytecode_of y = b ↔ y = x) as Hx.
  { intros []; unfold x; simpl. naive_solver. }
  destruct (list_find _ expected) as [[index y]|] eqn:Ef.
  - apply list_find_Some in Ef as (Hi & Hy%Hx & _). subst y.
    rewrite <- (occurrences_perm e _ _ (swap_remove_perm _ _ _ Hi)). unfold occurrences.
    destruct (decide (x = e)) as [->|Hne].
    + rewrite decide_True, filter_cons_True by done. simpl. lia.
    + rewrite decide_False, filter_cons_False by naive_solver. lia.
  - apply list_find_None in Ef. case_decide as Hd; [|by rewrite Nat.sub_0_r]. injection Hd as <-.
    unfold occurrences. destruct (filter (.= x) expected) as [|y l] eqn:E; [done|]. exfalso.
    assert (y ∈ filter (.= x) expected) as [-> Hin]%list_elem_of_filter by (rewrite E; by left).
    rewrite Forall_forall in Ef. apply (Ef x Hin). by apply Hx.
Qed.

(** All expected creations are met exactly when each was made at least as often as
    it was expected: the order does not matter, and a creation meets one
    expectation. *)
Theorem expected_creates_correct (expected : list ExpectedCreate) (creations : list (Z * ExpectScheme * option (list Z))) :
  unmet_create (foldl (λ e c, match_create e c.1.1 c.1.2 c.2) expected creations) = None ↔
  ∀ e, (occurrences e expected ≤ occurrences e (omap deployed creations))%nat.
Proof.
  assert (∀ e, occurrences e (foldl (λ e c, match_create e c.1.1 c.1.2 c.2) expected creations) =
    (occurrences e expected - occurrences e (omap deployed creations))%nat) as Hocc.
  { intros e. induction creations as [|[[caller scheme] code] l IH] using rev_ind; [unfold occurrences; simpl; lia|].
    rewrite foldl_app, omap_app. simpl. rewrite match_create_occurrences, IH. unfold occurrences at 4.
    rewrite filter_app, length_app. fold (occurrences e (omap deployed l)).
    unfold deployed. destruct code as [b|]; simpl; [|simpl; lia].
    set (x := {| ex_deployer := caller; ex_bytecode_of := b; ex_scheme := scheme |}).
    destruct (decide (x = e)) as [->|Hne].
    - rewrite decide_True, filter_cons_True by done. simpl. lia.
    - rewrite decide_False, filter_cons_False by naive_solver. simpl. lia. }
  remember (foldl _ expected creations) as rest eqn:Er. clear Er. unfold unmet_create. rewrite head_None. split.
  - intros -> e. specialize (Hocc e). unfold occurrences at 1 in Hocc. simpl in Hocc. lia.
  - intros Hall. destruct rest as [|x rest]; [done|]. specialize (Hocc x). specialize (Hall x).
    unfold occurrences at 1 in Hocc. rewrite filter_cons_True in Hocc by done. simpl in Hocc. lia.
Qed.
