(* ===== verification/MineApi.v ===== *)
(** * Mining and clock handlers (crates/anvil/src/eth/api.rs)

    The requests that mine blocks by hand ([anvil_mine], [evm_mine]), that move
    the clock ([evm_increaseTime], [evm_setTime], [evm_setNextBlockTimestamp] and
    the interval) or set the block environment, and the summary of the pool
    ([txpool_inspect]).  A mining request draws all ready transactions, lets the
    backend mine them and hands the outcome back to the pool, once per block;
    [clock i] is the instant at which block [i] of a request is mined. *)

From stdpp Require Import prelude gmap list relations strings pretty.
From S2P Require Import Prelude Containers Transaction PendingPool ReadyPool PoolIter Pool PoolSpec Fees Env TimeManager Cheats Validate BlockStates Block Chain Executor Mine.

Open Scope Z_scope.

(** The errors of these handlers. *)
Inductive MineError : Type := MineTime (e : TimeError).

(** [MineOptions] of alloy. *)
Inductive MineOptions : Type :=
| MineTimestamp (timestamp : option Z)
| MineOptionsOf (timestamp blocks : option Z).

(** [Uint::to::<u64>] panics when the value does not fit. *)
Definition to_u64 (x : Z) : outcome Z := if x <=? umax 64 then Ret x else Panic.

(** [as i64]. *)
Definition as_i64 (x : Z) : Z :=
  let w := wrap 64 x in if w <? 2 ^ 63 then w else w - 2 ^ 64.

Section mine_api.
Context {order : HashOrder TxHash}.
Context {ext : TxExternals} {specs : SpecIds} {bext : BlockExternals} {rt : RevmTypes}
  {Db StateDb Snapshot Disk : Type} {evm : RevmDb Db} {sdb : StateDbOps StateDb Snapshot}
  {dc : FileSystem Disk Snapshot} {sops : StateOps Db StateDb} {kext : BackendExternals}
  {BlobError : Type} (blob_validate : TxEip4844Variant → result unit BlobError).
Context (txenv_default : TxEnv) (op_new : TxEnv → OpTransaction)
  (calculate_receipt_root : list TypedReceipt → B256) (c : BackendConfig).

(** The pool and the backend of the node. *)
Record MiningNode := {
  mn_pool : PoolInner;
  mn_backend : Backend Db StateDb Disk
}.
Implicit Types n : MiningNode.

(** ** The clock *)

Definition with_time (b : Backend Db StateDb Disk) (tm : TimeManager) : Backend Db StateDb Disk :=
  {| bk_env := bk_env b; bk_fees := bk_fees b; bk_time := tm; bk_cheats := bk_cheats b;
     bk_chain := bk_chain b; bk_states := bk_states b; bk_db := bk_db b;
     bk_disable_pool_balance_checks := bk_disable_pool_balance_checks b |}.

Definition node_with_time n (tm : TimeManager) : MiningNode :=
  {| mn_pool := mn_pool n; mn_backend := with_time (mn_backend n) tm |}.

Definition node_time n : TimeManager := bk_time (mn_backend n).

Definition evm_increase_time n (seconds : Z) : MiningNode * Z :=
  let '(tm, offset) := increase_time (node_time n) (Z.min seconds (umax 64)) in
  (node_with_time n tm, as_i64 offset).

Definition evm_set_next_block_timestamp n (seconds : Z) : MiningNode * result unit MineError :=
  let '(tm, r) := set_next_block_timestamp (node_time n) seconds in
  (node_with_time n tm, match r with Ok _ => Ok tt | Err e => Err (MineTime e) end).

(** The clock is read twice: for the current time and by the reset.  The answer
    is [Duration::from_millis(offset).as_secs()]. *)
Definition evm_set_time (now now' : Z) n (timestamp : Z) : MiningNode * Z :=
  let current := current_call_timestamp now (node_time n) in
  let tm := time_reset now' (node_time n) timestamp in
  let offset := Z.max 0 (timestamp - current) in
  (node_with_time n tm, offset / 1000).

Definition evm_set_block_timestamp_interval n (seconds : Z) : MiningNode :=
  node_with_time n (set_block_timestamp_interval (node_time n) seconds).

Definition evm_remove_block_timestamp_interval n : MiningNode * bool :=
  let '(tm, r) := remove_block_timestamp_interval (node_time n) in (node_with_time n tm, r).

(** ** The environment of the next block *)

Definition with_block_env n (f : BlockEnv → BlockEnv) : MiningNode :=
  let b := mn_backend n in
  {| mn_pool := mn_pool n;
     mn_backend :=
       {| bk_env := {| env_cfg := env_cfg (bk_env b); env_blk := f (env_blk (bk_env b)) |};
          bk_fees := bk_fees b; bk_time := bk_time b; bk_cheats := bk_cheats b;
          bk_chain := bk_chain b; bk_states := bk_states b; bk_db := bk_db b;
          bk_disable_pool_balance_checks := bk_disable_pool_balance_checks b |} |}.

Definition evm_set_block_gas_limit n (gas_limit : Z) : outcome (MiningNode * bool) :=
  gas_limit ← to_u64 gas_limit;
  Ret (with_block_env n (λ blk,
    {| blk_number := blk_number blk; blk_beneficiary := blk_beneficiary blk;
       blk_timestamp := blk_timestamp blk; blk_gas_limit := gas_limit;
       blk_basefee := blk_basefee blk; blk_difficulty := blk_difficulty blk;
       blk_prevrandao := blk_prevrandao blk;
       blk_blob_excess_gas_and_price := blk_blob_excess_gas_and_price blk |}), true).

Definition anvil_set_block n (block_number : Z) : MiningNode :=
  with_block_env n (λ blk,
    {| blk_number := block_number; blk_beneficiary := blk_beneficiary blk;
       blk_timestamp := blk_timestamp blk; blk_gas_limit := blk_gas_limit blk;
       blk_basefee := blk_basefee blk; blk_difficulty := blk_difficulty blk;
       blk_prevrandao := blk_prevrandao blk;
       blk_blob_excess_gas_and_price := blk_blob_excess_gas_and_price blk |}).

Definition anvil_set_coinbase n (address : Address) : MiningNode :=
  with_block_env n (λ blk,
    {| blk_number := blk_number blk; blk_beneficiary := address;
       blk_timestamp := blk_timestamp blk; blk_gas_limit := blk_gas_limit blk;
       blk_basefee := blk_basefee blk; blk_difficulty := blk_difficulty blk;
       blk_prevrandao := blk_prevrandao blk;
       blk_blob_excess_gas_and_price := blk_blob_excess_gas_and_price blk |}).

(** ** Mining *)

(** [mine_one]; [fuel] bounds the number of ready transactions drawn. *)
Definition mine_one (fuel : nat) (now : Z) n : outcome MiningNode :=
  transactions ← iter_collect fuel (get_transactions (pool_ready (mn_pool n)));
  '(b, o) ← do_mine_block blob_validate txenv_default op_new calculate_receipt_root c now
    (mn_backend n) transactions;
  '(p, _) ← on_mined_block (mn_pool n) o;
  Ret {| mn_pool := p; mn_backend := b |}.

(** One turn of the loop of [anvil_mine]. *)
Definition mine_turn (fuel : nat) (clock : Z → Z) (interval : option Z) n (i : Z)
    : outcome MiningNode :=
  let n :=
    match interval with
    | Some interval => node_with_time n (increase_time (node_time n) interval).1
    | None => n
    end in
  mine_one fuel (clock i) n.

(** The conversions of the interval and of the number of blocks panic beyond 64
    bits (a panic aborts the process in the [release] profile). *)
Definition anvil_mine (fuel : nat) (clock : Z → Z) n (num_blocks interval : option Z)
    : outcome (MiningNode * result unit MineError) :=
  interval ←
    match interval with
    | Some i => i ← to_u64 i; Ret (Some i)
    | None => Ret None
    end;
  let blocks := default 1 num_blocks in
  if blocks =? 0 then Ret (n, Ok tt)
  else
    blocks ← to_u64 blocks;
    n ← foldM (mine_turn fuel clock interval) n (seqZ 0 blocks);
    Ret (n, Ok tt).

Definition do_evm_mine (fuel : nat) (clock : Z → Z) n (opts : option MineOptions)
    : outcome (MiningNode * result Z MineError) :=
  let '(timestamp, blocks_to_mine) :=
    match opts with
    | None => (None, 1)
    | Some (MineTimestamp timestamp) => (timestamp, 1)
    | Some (MineOptionsOf timestamp blocks) => (timestamp, default 1 blocks)
    end in
  let '(n, r) :=
    match timestamp with
    | Some timestamp => evm_set_next_block_timestamp n timestamp
    | None => (n, Ok tt)
    end in
  match r with
  | Err e => Ret (n, Err e)
  | Ok _ =>
      n ← foldM (λ n i, mine_one fuel (clock i) n) n (seqZ 0 blocks_to_mine);
      Ret (n, Ok blocks_to_mine)
  end.

Definition evm_mine (fuel : nat) (clock : Z → Z) n (opts : option MineOptions)
    : outcome (MiningNode * result string MineError) :=
  '(n, r) ← do_evm_mine fuel clock n opts;
  Ret (n, match r with Ok _ => Ok "0x0"%string | Err e => Err e end).
End mine_api.
Arguments MiningNode {_} _ _ _.

(** ** The summary of the pool *)

Record InspectSummary := {
  is_to : option Address;
  is_value : Z;
  is_gas : Z;
  is_gas_price : Z
}.

Abbreviation Inspected := (gmap Address (gmap string InspectSummary)).

Record TxpoolInspect := { ti_pending : Inspected; ti_queued : Inspected }.

Definition inspect_convert (t : PoolTransaction) : InspectSummary :=
  let tx := mit_transaction (pt_transaction (pending_transaction t)) in
  {| is_to := to tx; is_value := value tx; is_gas := gas_limit tx; is_gas_price := gas_price tx |}.

Definition nonce_key (t : PoolTransaction) : string :=
  pretty (Z.to_N (pt_nonce (pending_transaction t))).

(** [entry(sender).or_default().insert(nonce, summary)], on the field
    [pending]. *)
Definition inspect_insert (s : TxpoolInspect) (t : PoolTransaction) : TxpoolInspect :=
  let sender := pt_sender (pending_transaction t) in
  {| ti_pending :=
       <[sender := <[nonce_key t := inspect_convert t]> (default ∅ (ti_pending s !! sender))]>
         (ti_pending s);
     ti_queued := ti_queued s |}.

Definition txpool_inspect {order : HashOrder TxHash} (fuel : nat) (p : PoolInner)
    : outcome TxpoolInspect :=
  ready ← iter_collect fuel (get_transactions (pool_ready p));
  Ret (foldl inspect_insert (foldl inspect_insert {| ti_pending := ∅; ti_queued := ∅ |} ready)
    (pending_transactions (pool_pending p))).

(** ** The clock of a request

    The instants of a request lie between [now0] and [hi] and do not go back.
    [clock_room lo k tm]: after the instant [lo], no timestamp of the clock [tm]
    exceeds [k] by more than its step. *)

Section clock_room.
Context (now0 hi : Z).

Record clock_room (lo k : Z) (tm : TimeManager) : Prop := {
  cr_wf : time_wf tm;
  cr_lo : 0 ≤ lo + tm_offset tm;
  cr_last : tm_last_timestamp tm ≤ k;
  cr_offset : hi + tm_offset tm ≤ k;
  cr_exact : ∀ e, tm_next_exact_timestamp tm = Some e →
    Z.max e (tm_last_timestamp tm) + (hi - now0) ≤ k
}.

Lemma clock_room_next lo k now tm :
  clock_room lo k tm → 0 ≤ now0 → now0 ≤ now → lo ≤ now ≤ hi → hi ≤ umax 64 →
  k + time_step tm ≤ umax 64 →
  clock_room now (k + time_step tm) (next_timestamp now tm).1 ∧
  time_step (next_timestamp now tm).1 = time_step tm.
Proof.
  intros [Hwf Hlo Hl Ho He] H0 Hn Hlohi Hhi Hk.
  assert (1 ≤ time_step tm) as Hs by (unfold time_step; lia).
  pose proof (next_timestamp_spec now tm Hwf ltac:(lia)) as Hx.
  destruct (tw_last _ Hwf) as [Hl0 _]. revert Hx.
  unfold next_timestamp, compute_next_timestamp, time_step in *. unfold umax in *.
  destruct (tm_next_exact_timestamp tm) as [e|] eqn:Ee;
    [specialize (He e eq_refl)|destruct (tm_interval tm) as [i|] eqn:Ei]; simpl in *;
    intros (X1 & X2 & _ & X4 & _); (split; [split; simpl in *; [exact X4|..|done]|done]);
    revert X1; try case_bool; try rewrite !wrap_small by (unfold is_u, umax; lia); try lia.
  - unfold saturating_add, umax. lia.
  - unfold i128_saturating_add. rewrite wrap_small by (unfold is_u, umax; lia). lia.
Qed.

Lemma clock_room_increase lo k tm i :
  clock_room lo k tm → 0 ≤ lo ≤ hi → now0 ≤ hi ≤ umax 64 → 0 ≤ i ≤ umax 64 → k ≤ umax 64 →
  clock_room lo (k + i) (increase_time tm i).1 ∧ time_step (increase_time tm i).1 = time_step tm.
Proof.
  intros [[W1 W2 W3] Hlo Hl Ho He] H0 Hhi Hi Hk. split; [|done].
  unfold umax in *. unfold increase_time, add_offset, i128_saturating_add. split; simpl; try lia.
  - by split.
  - intros e Hx. specialize (He e Hx). lia.
Qed.
End clock_room.

(** ** Specification of mining *)

Section mine_api_spec.
Context {order : HashOrder TxHash}.
Context {ext : TxExternals} {specs : SpecIds} {bext : BlockExternals} {rt : RevmTypes}
  {Db StateDb Snapshot Disk : Type} {evm : RevmDb Db} {sdb : StateDbOps StateDb Snapshot}
  {dc : FileSystem Disk Snapshot} {sops : StateOps Db StateDb} {kext : BackendExternals}
  {BlobError : Type} (blob_validate : TxEip4844Variant → result unit BlobError).
Context (txenv_default : TxEnv) (op_new : TxEnv → OpTransaction)
  (calculate_receipt_root : list TypedReceipt → B256) (c : BackendConfig).
Context (hrank : TxHash → nat) (mrank : TxMarker → nat).
Context {laws : RevmLaws (evm := evm)} {hh : HeaderHash}.
Implicit Types n : MiningNode Db StateDb Disk.
Abbreviation best n := (best_number (bk_chain (mn_backend n))).
Abbreviation last_time n := (tm_last_timestamp (node_time n)).
Abbreviation mining_one := (mine_one blob_validate txenv_default op_new calculate_receipt_root c).
Abbreviation mining_turn := (mine_turn blob_validate txenv_default op_new calculate_receipt_root c).

(** The jump of the clock before each block. *)
Definition jumped (interval : option Z) n : MiningNode Db StateDb Disk :=
  match interval with
  | Some i => node_with_time n (increase_time (node_time n) i).1
  | None => n
  end.

(** One block: the ready transactions are mined and the pool learns the
    outcome. *)
Definition block_step (interval : option Z) n n' : Prop :=
  ∃ fuel txs o res,
    iter_collect fuel (get_transactions (pool_ready (mn_pool n))) = Ret txs ∧
    block_mined blob_validate c (mn_backend (jumped interval n)) txs (mn_backend n') o ∧
    on_mined_block (mn_pool n) o = Ret (mn_pool n', res) ∧
    ∃ now, node_time n' = (next_timestamp now (node_time (jumped interval n))).1.

Record node_ok n : Prop := {
  no_pool : pool_inv (H := ranked_policy hrank mrank) (mn_pool n);
  no_backend : node_inv (mn_backend n)
}.

(** The node after [k] blocks. *)
Record mined_to (interval : option Z) n0 (k : Z) n : Prop := {
  mt_ok : node_ok n;
  mt_steps : nsteps (block_step interval) (Z.to_nat k) n0 n;
  mt_best : best n = best n0 + k;
  mt_old : ∀ m, m ≤ best n0 →
    hashes (bk_chain (mn_backend n)) !! m = hashes (bk_chain (mn_backend n0)) !! m;
  mt_linked : linked_above (best n0) (mn_backend n);
  mt_from : ∀ h, in_pool (mn_pool n) h → in_pool (mn_pool n0) h;
  mt_time : last_time n0 ≤ last_time n
}.

Lemma mine_one_spec now n :
  node_ok n → in_range c now (mn_backend n) →
  ∃ fuel n', (∀ m, (fuel ≤ m)%nat → mining_one m now n = Ret n') ∧ node_ok n' ∧
    (∃ txs o res, (∀ m, (fuel ≤ m)%nat →
        iter_collect m (get_transactions (pool_ready (mn_pool n))) = Ret txs) ∧
       block_mined blob_validate c (mn_backend n) txs (mn_backend n') o ∧
       on_mined_block (mn_pool n) o = Ret (mn_pool n', res)) ∧
    (∀ h, in_pool (mn_pool n') h → in_pool (mn_pool n) h) ∧
    node_time n' = (next_timestamp now (node_time n)).1.
Proof.
  intros [Hp Hb] Hr.
  destruct (ranked_iter_terminates hrank mrank (mn_pool n) Hp) as (fuel & txs & Hf).
  destruct (do_mine_block_spec blob_validate txenv_default op_new calculate_receipt_root c now
    (mn_backend n) txs Hb Hr) as (b' & o & E & Hm).
  destruct (on_mined_block_spec (mn_pool n) o Hp) as (p' & res & Eo & Hp' & Hfrom & _).
  exists fuel, {| mn_pool := p'; mn_backend := b' |}. split_and!; [| | | |].
  - intros m Hle. unfold mine_one. rewrite Hf by done. rewrite bind_Ret, E, bind_Ret. cbn beta iota.
    by rewrite Eo, bind_Ret.
  - split; [exact Hp'|apply Hm].
  - by exists txs, o, res.
  - done.
  - by eapply do_mine_block_time.
Qed.

Lemma jumped_ok interval n : node_ok n → node_ok (jumped interval n).
Proof.
  destruct interval as [i|]; [|done]. intros [Hp Hb]. split; [done|].
  destruct Hb as [H1 H2 H3 [] H5 H6 H7 H8 H9 H10 H11 H12]. by split.
Qed.

(** The turn with the jump of the clock. *)
Lemma mine_turn_eq m clock interval n i :
  mining_turn m clock interval n i = mining_one m (clock i) (jumped interval n).
Proof. by destruct interval. Qed.

(** Another block after [k]. *)
Lemma mined_to_step interval n0 k n now :
  mined_to interval n0 k n → 0 ≤ k → in_range c now (mn_backend (jumped interval n)) →
  ∃ fuel n', (∀ m, (fuel ≤ m)%nat → mining_one m now (jumped interval n) = Ret n') ∧
    mined_to interval n0 (k + 1) n' ∧
    node_time n' = (next_timestamp now (node_time (jumped interval n))).1.
Proof.
  intros [Hok Hst Hb Ho Hl Hfrom Ht] Hk Hr.
  assert (bk_chain (mn_backend (jumped interval n)) = bk_chain (mn_backend n) ∧
    mn_pool (jumped interval n) = mn_pool n ∧ last_time (jumped interval n) = last_time n)
    as (Ec & Ep & El) by (by destruct interval).
  pose proof (jumped_ok interval n Hok) as Hok'.
  destruct (mine_one_spec now _ Hok' Hr)
    as (fuel & n' & Hm & Hn' & (txs & o & res & Hf & Hbm & Hon) & Hfr & Etm).
  rewrite Ep in *. destruct (bm_number _ _ _ _ _ _ Hbm) as [_ En]. rewrite Ec in En.
  exists fuel, n'. split; [done|]. split; [|done]. split; [done|..].
  - replace (Z.to_nat (k + 1)) with (S (Z.to_nat k)) by lia.
    eapply nsteps_r; [done|]. exists fuel, txs, o, res. split_and!; [by apply Hf|done..|eauto].
  - lia.
  - intros m Hle. rewrite (bm_history _ _ _ _ _ _ Hbm), Ec by (rewrite Ec; lia). by apply Ho.
  - eapply linked_step; [apply node_inv_core, (no_backend _ Hok')| |].
    + unfold linked_above in *. rewrite Ec. exact Hl.
    + eapply mined_block_mono; [exact Hbm|]. apply node_inv_core.
  - auto.
  - pose proof (bm_timestamp _ _ _ _ _ _ Hbm). unfold node_time in *. lia.
Qed.

(** Later blocks leave the older ones alone. *)
Lemma block_steps_keep interval k n n' :
  nsteps (block_step interval) k n n' →
  best n ≤ best n' ∧
  (∀ m, m ≤ best n →
     hashes (bk_chain (mn_backend n')) !! m = hashes (bk_chain (mn_backend n)) !! m) ∧
  blk_header <$> blocks (bk_chain (mn_backend n)) ⊆ blk_header <$> blocks (bk_chain (mn_backend n')).
Proof.
  induction 1 as [n|k n n1 n2 (fuel & txs & o & res & _ & Hm & _) _ (I1 & I2 & I3)]; [done|].
  assert (bk_chain (mn_backend (jumped interval n)) = bk_chain (mn_backend n)) as Ec
    by (by destruct interval).
  destruct (bm_number _ _ _ _ _ _ Hm) as [_ En]. rewrite Ec in En. split_and!; [lia| |].
  - intros m Hle. rewrite I2 by lia. rewrite (bm_history _ _ _ _ _ _ Hm); by rewrite Ec.
  - etrans; [|exact I3]. rewrite <- Ec. apply (bm_headers _ _ _ _ _ _ Hm).
Qed.

(** The block mined with an exact timestamp has it. *)
Lemma exact_first_block k ts n n' :
  nsteps (block_step None) (S k) n n' → node_inv (mn_backend n) →
  tm_next_exact_timestamp (node_time n) = Some ts → last_time n ≤ ts →
  ∃ h hd, hashes (bk_chain (mn_backend n')) !! (best n + 1) = Some h ∧
    (blk_header <$> blocks (bk_chain (mn_backend n'))) !! h = Some hd ∧ h_timestamp hd = ts.
Proof.
  intros Hst Hi He Hle. inversion Hst as [|? ? n1 ? Hs Hrest]; subst.
  destruct Hs as (fuel & txs & o & res & _ & Hm & _ & now & Etm). simpl in *.
  destruct (block_steps_keep _ _ _ _ Hrest) as (_ & K2 & K3).
  destruct (bm_number _ _ _ _ _ _ Hm) as [_ En].
  destruct (bm_block _ _ _ _ _ _ Hm) as (r & _ & _ & _ & _ & (blk & Eb & Ehd) & _ & _ & Et & _).
  exists (best_hash (bk_chain (mn_backend n1))), (blk_header blk). split_and!.
  - rewrite K2, <- En by lia. apply (ch_best _ (ni_chain _ (bm_inv _ _ _ _ _ _ Hm))).
  - eapply lookup_weaken; [|exact K3]. by rewrite lookup_fmap, Eb.
  - rewrite Ehd, Et. change (bk_time (mn_backend n1)) with (node_time n1). rewrite Etm.
    unfold next_timestamp, compute_next_timestamp. rewrite He. simpl. case_bool; lia.
Qed.

(** Enough numbers, and timestamps chrono has a date for, are left for [blocks]
    blocks, mined at the instants [clock] between [now0] and [hi], after jumps of
    [jump]; and no precompile of a factory can fail. *)
Record room_to_mine (clock : Z → Z) (now0 hi k blocks jump : Z) n : Prop := {
  rm_number : 0 ≤ blocks ∧ best n + blocks ≤ umax 64;
  rm_instants : 0 ≤ now0 ∧ now0 ≤ hi ≤ umax 64 ∧
    (∀ i, 0 ≤ i < blocks → now0 ≤ clock i ≤ hi) ∧
    (∀ i j, 0 ≤ i ≤ j → j < blocks → clock i ≤ clock j);
  rm_clock : clock_room now0 hi now0 k (node_time n);
  rm_time : 0 ≤ jump ≤ umax 64 ∧ 0 ≤ k ∧ k + blocks * (time_step (node_time n) + jump) ≤ utc_max;
  rm_factory : bc_precompile_factory c = false
}.

(** The clock after [k] blocks; [clock_at] is its last reading. *)
Definition clock_at (clock : Z → Z) (now0 k : Z) : Z := if k =? 0 then now0 else clock (k - 1).

(** The loop after [j] blocks. *)
Record looping (clock : Z → Z) (now0 hi k step : Z) (interval : option Z) n0 (j : Z) n : Prop := {
  lp_mined : mined_to interval n0 j n;
  lp_clock : clock_room now0 hi (clock_at clock now0 j) (k + j * (step + default 0 interval))
    (node_time n);
  lp_step : time_step (node_time n) = step
}.

Lemma looping_jumped clock now0 hi k step interval n0 j n :
  looping clock now0 hi k step interval n0 j n → 0 ≤ now0 → now0 ≤ clock_at clock now0 j ≤ hi →
  hi ≤ umax 64 → 0 ≤ default 0 interval ≤ umax 64 → k + j * (step + default 0 interval) ≤ umax 64 →
  clock_room now0 hi (clock_at clock now0 j) (k + j * (step + default 0 interval) + default 0 interval)
    (node_time (jumped interval n)) ∧
  time_step (node_time (jumped interval n)) = step.
Proof.
  intros [_ Hr Es] N0 N1 Hhi J0 Hk. destruct interval as [i|]; simpl in *; [|by rewrite Z.add_0_r].
  rewrite <- Es at 2. apply clock_room_increase; try done; lia.
Qed.

Lemma looping_step clock now0 hi k blocks interval n0 j n :
  let step := time_step (node_time n0) in
  room_to_mine clock now0 hi k blocks (default 0 interval) n0 → 0 ≤ j < blocks →
  looping clock now0 hi k step interval n0 j n →
  ∃ fuel n', (∀ m, (fuel ≤ m)%nat → mining_turn m clock interval n j = Ret n') ∧
    looping clock now0 hi k step interval n0 (j + 1) n'.
Proof.
  intros step [[B0 B1] (N0 & N1 & N2 & N3) _ (J0 & K0 & K1) Hpf] Hj Hlp.
  fold step in K1. assert (1 ≤ step) as Hs by (unfold step, time_step; lia).
  pose proof utc_max_i64 as Hutc. assert (2 ^ 63 < umax 64) as Hu by done.
  assert (k + j * (step + default 0 interval) + step + default 0 interval ≤ utc_max) as Hroom by nia.
  assert (now0 ≤ clock_at clock now0 j ≤ clock j) as [L1 L2].
  { unfold clock_at. destruct (Z.eqb_spec j 0) as [->|]; [split; [lia|apply N2; lia]|].
    split; [apply N2; lia|apply N3; lia]. }
  pose proof (N2 j ltac:(lia)) as [M1 M2].
  destruct (looping_jumped _ _ _ _ _ _ _ _ _ Hlp) as [Hr Es]; [lia..|].
  destruct Hlp as [Hm _ _].
  destruct (clock_room_next now0 hi _ _ (clock j) _ Hr) as [Q1 Q2]; [lia..|].
  destruct (mined_to_step interval n0 j n (clock j) Hm ltac:(lia)) as (fuel & n' & H1 & H2 & H3).
  { split; split; [|pose proof (cr_last _ _ _ _ _ Hr); unfold node_time in *; lia|done|].
    - replace (best (jumped interval n)) with (best n) by (by destruct interval).
      rewrite (mt_best _ _ _ _ Hm). lia.
    - pose proof (cr_last _ _ _ _ _ Q1) as Hcall. rewrite Es in Hcall.
      unfold next_timestamp, current_call_timestamp, node_time in *.
      destruct (compute_next_timestamp _ _); simpl in *. lia. }
  exists fuel, n'. split; [intros m Hle; rewrite mine_turn_eq; by apply H1|].
  rewrite Es, <- H3 in Q1, Q2. split; [done| |done].
  unfold clock_at. rewrite (proj2 (Z.eqb_neq _ _)) by lia. replace (j + 1 - 1) with j by lia.
  by replace (k + (j + 1) * (step + default 0 interval))
    with (k + j * (step + default 0 interval) + default 0 interval + step) by lia.
Qed.

Lemma mine_blocks_spec clock now0 hi k blocks interval n0 :
  node_ok n0 → room_to_mine clock now0 hi k blocks (default 0 interval) n0 →
  ∃ fuel n, (∀ m, (fuel ≤ m)%nat →
      foldM (mining_turn m clock interval) n0 (seqZ 0 blocks) = Ret n) ∧
    mined_to interval n0 blocks n.
Proof.
  intros Hok Hroom. pose proof (proj1 (rm_number _ _ _ _ _ _ _ Hroom)) as B0.
  destruct (foldM_eventually (λ m, mining_turn m clock interval)
    (λ done, looping clock now0 hi k (time_step (node_time n0)) interval n0
       (Z.of_nat (length done))) (seqZ 0 blocks) n0) as (fuel & n & Hf & [Hn _ _]).
  - split; [|rewrite Z.add_0_r; apply Hroom|done].
    split; try done; [constructor|simpl; lia|]. intros m Hm. simpl in Hm. lia.
  - intros done x rest n El Hlp.
    destruct (seqZ_middle _ _ _ _ El) as [-> Hlt].
    rewrite length_app, Nat2Z.inj_add. by apply (looping_step _ _ _ _ blocks); [|lia|].
  - rewrite length_seqZ, Z2Nat.id in Hn by done. eauto.
Qed.
End mine_api_spec.

(** ** Properties *)

(** The timestamp and the number of blocks a request asks for. *)
Definition mine_request (opts : option MineOptions) : option Z * Z :=
  match opts with
  | None => (None, 1)
  | Some (MineTimestamp timestamp) => (timestamp, 1)
  | Some (MineOptionsOf timestamp blocks) => (timestamp, default 1 blocks)
  end.

Section mine_api_claims.
Context {order : HashOrder TxHash}.
Context {ext : TxExternals} {specs : SpecIds} {bext : BlockExternals} {rt : RevmTypes}
  {Db StateDb Snapshot Disk : Type} {evm : RevmDb Db} {sdb : StateDbOps StateDb Snapshot}
  {dc : FileSystem Disk Snapshot} {sops : StateOps Db StateDb} {kext : BackendExternals}
  {BlobError : Type} (blob_validate : TxEip4844Variant → result unit BlobError).
Context (txenv_default : TxEnv) (op_new : TxEnv → OpTransaction)
  (calculate_receipt_root : list TypedReceipt → B256) (c : BackendConfig).
Context (hrank : TxHash → nat) (mrank : TxMarker → nat).
Context {laws : RevmLaws (evm := evm)} {hh : HeaderHash}.
Implicit Types n : MiningNode Db StateDb Disk.

Abbreviation last_time n := (tm_last_timestamp (node_time n)).
Abbreviation mining := (evm_mine blob_validate txenv_default op_new calculate_receipt_root c).

(** The node once the timestamp of the next block is set. *)
Definition stamped (timestamp : option Z) n : MiningNode Db StateDb Disk :=
  match timestamp with Some ts => (evm_set_next_block_timestamp n ts).1 | None => n end.

Lemma stamped_ok timestamp n :
  node_ok hrank mrank n → time_wf (node_time (stamped timestamp n)) →
  node_ok hrank mrank (stamped timestamp n).
Proof.
  destruct timestamp as [ts|]; [|done]. simpl. unfold evm_set_next_block_timestamp.
  destruct (set_next_block_timestamp (node_time n) ts) as [tm r]; simpl.
  intros [Hp [H1 H2 H3 H4 H5 H6 H7 H8 H9 H10 H11 H12]] Hwf. by split; [|split].
Qed.

(** The request in terms of its timestamp and number of blocks. *)
Lemma do_evm_mine_eq m clock n opts :
  do_evm_mine blob_validate txenv_default op_new calculate_receipt_root c m clock n opts =
  let '(timestamp, count) := mine_request opts in
  match timestamp with
  | Some ts =>
      if ts <? last_time n then Ret (n, Err (MineTime (TimestampError ts)))
      else n ← foldM (mine_turn blob_validate txenv_default op_new calculate_receipt_root c m clock None)
             (stamped timestamp n) (seqZ 0 count); Ret (n, Ok count)
  | None =>
      n ← foldM (mine_turn blob_validate txenv_default op_new calculate_receipt_root c m clock None)
        n (seqZ 0 count); Ret (n, Ok count)
  end.
Proof.
  unfold do_evm_mine. change (match opts with Some _ => _ | None => _ end) with (mine_request opts).
  destruct (mine_request opts) as [[ts|] count]; [|done]. unfold stamped, evm_set_next_block_timestamp.
  unfold set_next_block_timestamp. case_bool; [|done]. by destruct n as [p []].
Qed.

(** C22: a mining request with no timestamp, or one after the last block's, ends
    once enough fuel is given and answers [0x0], on a node whose pool orders
    transactions by rank, without a precompile factory, with room for the block
    numbers in a [u64] and with all timestamps the clock allows within what chrono
    has a date for.  Exactly the requested number of blocks is appended, each
    executed from the transactions that were ready, on an unchanged chain below;
    node and pool stay consistent, no transaction enters the pool, and the first
    block has the requested timestamp. *)
Theorem evm_mine_correct (clock : Z → Z) n (opts : option MineOptions) (now0 hi k : Z) :
  let '(timestamp, count) := mine_request opts in
  node_ok hrank mrank n → room_to_mine c clock now0 hi k count 0 (stamped timestamp n) →
  match timestamp with
  | Some ts => last_time n < ts
  | None => True
  end →
  ∃ fuel n', (∀ m, (fuel ≤ m)%nat → mining m clock n opts = Ret (n', Ok "0x0"%string)) ∧
    mined_to blob_validate c hrank mrank None (stamped timestamp n) count n' ∧
    match timestamp with
    | Some ts => 0 < count →
        ∃ h hd, hashes (bk_chain (mn_backend n')) !! (best_number (bk_chain (mn_backend n)) + 1) = Some h ∧
          (blk_header <$> blocks (bk_chain (mn_backend n'))) !! h = Some hd ∧ h_timestamp hd = ts
    | None => True
    end.
Proof.
  destruct (mine_request opts) as [timestamp count] eqn:Eo. intros Hok Hroom Hts.
  pose proof (stamped_ok timestamp n Hok (cr_wf _ _ _ _ _ (rm_clock _ _ _ _ _ _ _ _ Hroom))) as Hok0.
  destruct (mine_blocks_spec blob_validate txenv_default op_new calculate_receipt_root c hrank mrank
    clock now0 hi k count None (stamped timestamp n) Hok0 Hroom) as (fuel & n' & Hf & Hn').
  exists fuel, n'. split; [|split; [done|]].
  - intros m Hm. unfold evm_mine. rewrite do_evm_mine_eq, Eo. specialize (Hf m Hm).
    destruct timestamp as [ts|]; [rewrite (proj2 (Z.ltb_ge _ _)) by lia|]; simpl in *;
      by rewrite Hf.
  - destruct timestamp as [ts|]; [|done]. intros Hc.
    pose proof (mt_steps _ _ _ _ _ _ _ _ Hn') as Hst.
    replace (Z.to_nat count) with (S (Z.to_nat (count - 1))) in Hst by lia.
    assert (best_number (bk_chain (mn_backend n)) =
      best_number (bk_chain (mn_backend (stamped (Some ts) n)))) as ->
      by (simpl; unfold evm_set_next_block_timestamp; by destruct set_next_block_timestamp).
    eapply exact_first_block; [exact Hst|apply Hok0|..]; simpl;
      unfold evm_set_next_block_timestamp, set_next_block_timestamp;
      rewrite (proj2 (Z.ltb_ge _ _)) by lia; simpl; first [done|lia].
Qed.

(** A timestamp before the last block's is refused and changes nothing. *)
Theorem evm_mine_refused (m : nat) (clock : Z → Z) n (opts : option MineOptions) (ts : Z) :
  (mine_request opts).1 = Some ts → ts < last_time n →
  mining m clock n opts = Ret (n, Err (MineTime (TimestampError ts))).
Proof.
  intros Ho Hlt. unfold evm_mine. rewrite do_evm_mine_eq.
  destruct (mine_request opts) as [? count]; simpl in Ho; subst.
  by rewrite (proj2 (Z.ltb_lt _ _)) by lia.
Qed.

(** [anvil_mine]: no blocks are no work, an interval or a number of blocks beyond
    64 bits panics, and otherwise the blocks are mined with the clock moved before
    each. *)
Theorem anvil_mine_correct (clock : Z → Z) n (num_blocks interval : option Z) (now0 hi k : Z) :
  let count := default 1 num_blocks in
  let run m := anvil_mine blob_validate txenv_default op_new calculate_receipt_root c m clock n
    num_blocks interval in
  if umax 64 <? default 0 interval then ∀ m, run m = Panic
  else if count =? 0 then ∀ m, run m = Ret (n, Ok tt)
  else if umax 64 <? count then ∀ m, run m = Panic
  else
    node_ok hrank mrank n → room_to_mine c clock now0 hi k count (default 0 interval) n →
    ∃ fuel n', (∀ m, (fuel ≤ m)%nat → run m = Ret (n', Ok tt)) ∧
      mined_to blob_validate c hrank mrank interval n count n'.
Proof.
  intros count run. unfold run, anvil_mine. fold count.
  assert ((match interval with Some i => i ← to_u64 i; Ret (Some i) | None => Ret None end) =
    if umax 64 <? default 0 interval then Panic else Ret interval) as ->.
  { destruct interval as [i|]; [|done]. simpl. unfold to_u64.
    repeat case_bool; try done; lia. }
  destruct (umax 64 <? default 0 interval); [done|].
  destruct (count =? 0); [done|]. unfold to_u64.
  destruct (Z.ltb_spec (umax 64) count) as [Hc|Hc];
    [by rewrite (proj2 (Z.leb_gt _ _))|rewrite (proj2 (Z.leb_le _ _)) by done]. intros Hok Hroom.
  destruct (mine_blocks_spec blob_validate txenv_default op_new calculate_receipt_root c hrank mrank
    clock now0 hi k count interval n Hok Hroom) as (fuel & n' & Hf & Hn').
  exists fuel, n'. split; [|done]. intros m Hm. rewrite !bind_Ret. by rewrite Hf.
Qed.

(** [evm_setTime] answers a thousandth of the seconds to the new time: the
    difference is taken for milliseconds. *)
Theorem set_time_answers_thousandth (now now' : Z) n (timestamp : Z) :
  current_call_timestamp now (node_time n) ≤ timestamp →
  (evm_set_time now now' n timestamp).2 =
    (timestamp - current_call_timestamp now (node_time n)) / 1000.
Proof. intros Hle. simpl. by rewrite Z.max_r by lia. Qed.
End mine_api_claims.

(** ** The summary of the pool *)

Definition listed (s : Inspected) (a : Address) (k : string) : option InspectSummary :=
  s !! a ≫= (.!! k).

(** The transactions of a sender with a nonce. *)
Definition keyed (a : Address) (k : string) (t : PoolTransaction) : Prop :=
  pt_sender (pending_transaction t) = a ∧ nonce_key t = k.
#[export] Instance keyed_dec a k t : Decision (keyed a k t).
Proof. unfold keyed. apply _. Defined.

(** Under a sender and a nonce stands the last transaction that has them. *)
Lemma inspect_fold (l : list PoolTransaction) s a k :
  listed (ti_pending (foldl inspect_insert s l)) a k =
    match last (filter (keyed a k) l) with
    | Some t => Some (inspect_convert t)
    | None => listed (ti_pending s) a k
    end.
Proof.
  induction l as [|t l IH] using rev_ind; [done|].
  rewrite foldl_snoc, filter_app, filter_cons, filter_nil. simpl. unfold listed in *.
  case_decide as Hk; [destruct Hk as [<- <-]|].
  - rewrite last_snoc, lookup_insert_eq. simpl. by rewrite lookup_insert_eq.
  - rewrite app_nil_r, <- IH. destruct (decide (pt_sender (pending_transaction t) = a)) as [<-|Hne].
    + rewrite lookup_insert_eq. simpl. rewrite lookup_insert_ne by (intros E; by apply Hk).
      by destruct (ti_pending _ !! _).
    + by rewrite lookup_insert_ne.
Qed.

Lemma inspect_queued (l : list PoolTransaction) s :
  ti_queued (foldl inspect_insert s l) = ti_queued s.
Proof. revert s. induction l as [|t l IH]; intros s; simpl; [done|by rewrite IH]. Qed.

(** [txpool_inspect] ends on every pool of ranked transactions and reports under
    [pending] the last of the ready and then the waiting transactions of a sender
    with a nonce; the transactions that wait are reported there too, and
    [queued] is always empty. *)
Theorem queued_listed_as_pending {order : HashOrder TxHash} (hrank : TxHash → nat)
    (mrank : TxMarker → nat) (p : PoolInner) :
  pool_inv (H := ranked_policy hrank mrank) p →
  ∃ fuel ready s,
    (∀ m, (fuel ≤ m)%nat → iter_collect m (get_transactions (pool_ready p)) = Ret ready ∧
       txpool_inspect m p = Ret s) ∧
    ti_queued s = ∅ ∧
    ∀ a k, listed (ti_pending s) a k =
      inspect_convert <$> last (filter (keyed a k) (ready ++ pending_transactions (pool_pending p))).
Proof.
  intros Hp. destruct (ranked_iter_terminates hrank mrank p Hp) as (fuel & ready & Hf).
  eexists fuel, ready, _. split_and!.
  - intros m Hm. unfold txpool_inspect. by rewrite Hf by done.
  - by rewrite !inspect_queued.
  - intros a k. rewrite <- foldl_app, inspect_fold. by destruct (last _).
Qed.

(** ** Runs *)

Definition ex_mining_node : MiningNode (rt := ex_revm_types) unit (option nat) (gmap Z (option nat)) :=
  {| mn_pool := pool_default; mn_backend := ex_node |}.

Lemma ex_room_to_mine :
  room_to_mine (kext := ex_backend_externals) ex_backend_config (λ i, 200 + i) 200 210 310 3 0 (stamped (Some 300) ex_mining_node).
Proof.
  split; vm_compute node_time; unfold umax; try (simpl; lia).
  - vm_compute. intuition congruence.
  - split_and!; intros; lia.
  - split; simpl; try lia; [split; simpl; [unfold is_u, umax; lia|..]|]; intros e; try done;
      intros [= <-]; unfold is_u, umax; lia.
  - unfold time_step. simpl. lia.
Qed.

Lemma ex_mining_ok :
  node_ok (specs := ex_specs) (bext := ex_block_externals) (kext := ex_backend_externals)
    (λ _, 0%nat) (λ _, 0%nat) ex_mining_node.
Proof. split; [apply pool_default_inv|apply ex_node_inv]. Qed.

(** Three blocks from the timestamp 300 on. *)
Lemma evm_mine_correct_witness :
  ∃ fuel n', (∀ m, (fuel ≤ m)%nat →
      evm_mine (ext := ex_externals) (specs := ex_specs) (bext := ex_block_externals)
        (rt := ex_revm_types) (evm := ex_revm) (kext := ex_backend_externals)
        (λ _, Ok tt : result unit unit) ex_txenv ex_op_new (λ l, Z.of_nat (length l))
        ex_backend_config m (λ i, 200 + i) ex_mining_node (Some (MineOptionsOf (Some 300) (Some 3)))
      = Ret (n', Ok "0x0"%string)) ∧
    best_number (bk_chain (mn_backend n')) = 3.
Proof.
  destruct (evm_mine_correct (ext := ex_externals) (specs := ex_specs) (bext := ex_block_externals)
    (rt := ex_revm_types) (evm := ex_revm) (kext := ex_backend_externals) (laws := ex_revm_laws)
    (hh := ex_header_hash) (λ _, Ok tt : result unit unit) ex_txenv ex_op_new
    (λ l, Z.of_nat (length l)) ex_backend_config (λ _, 0%nat) (λ _, 0%nat) (λ i, 200 + i)
    ex_mining_node (Some (MineOptionsOf (Some 300) (Some 3))) 200 210 310 ex_mining_ok
    ex_room_to_mine) as (fuel & n' & Hf & Hn & _).
  { vm_compute. reflexivity. }
  exists fuel, n'. split; [exact Hf|]. apply (mt_best _ _ _ _ _ _ _ _ Hn).
Defined.

(** [anvil_setBlock] sets the number the environment carries, not the one of the
    chain: after it, block 1 of the chain carries the number 42. *)
Example set_block_misnumbers :
  match mine_one (ext := ex_externals) (specs := ex_specs) (bext := ex_block_externals)
      (rt := ex_revm_types) (evm := ex_revm) (kext := ex_backend_externals)
      (λ _, Ok tt : result unit unit) ex_txenv ex_op_new (λ l, Z.of_nat (length l))
      ex_backend_config 5 105 (anvil_set_block ex_mining_node 41) with
  | Ret n =>
      let chain := bk_chain (mn_backend n) in
      best_number chain = 1 ∧
      (hashes chain !! 1 ≫= λ h, hd_number <$> blocks chain !! h) = Some 42
  | _ => False
  end.
Proof. vm_compute. by split. Qed.
