(* ===== verification/Digits.v ===== *)
(** * Numbers in positional notation

    The printing and reading of unsigned numbers in a base, as [to_string],
    [format!] with [b], [o] or [x] and [from_str_radix] do it: digits are
    characters ([0] to [9], then [a] to [z]), the most significant first, without
    leading zeros.  Shared by the formatting of console logs and by the number
    conversions of cast. *)

From stdpp Require Import prelude list.
From S2P Require Import Prelude FmtText.

Open Scope Z_scope.

(** The character of a digit, and the digit of a character ([char::to_digit]):
    letters of either case stand for the digits from ten on. *)
Definition digit_char (d : Z) : Char := if d <? 10 then 48 + d else 87 + d.

Definition char_digit (r : Z) (c : Char) : option Z :=
  let d :=
    if (48 <=? c) && (c <=? 57) then c - 48
    else if (97 <=? c) && (c <=? 122) then c - 87
    else if (65 <=? c) && (c <=? 90) then c - 55
    else r in
  if d <? r then Some d else None.

(** The number a list of digits stands for. *)
Definition digits_value (r : Z) (l : list Z) : Z := foldl (λ a d, a * r + d) 0 l.

(** The digits of a positive number, the least significant first; a number has
    at most one digit more than its binary logarithm. *)
Fixpoint digits_rev (fuel : nat) (r n : Z) : list Z :=
  match fuel with
  | O => []
  | S fuel => if n =? 0 then [] else (n mod r) :: digits_rev fuel r (n / r)
  end.

Definition digits (r n : Z) : list Z :=
  if n =? 0 then [0] else rev (digits_rev (Z.to_nat (Z.log2 n + 1)) r n).

(** Printing in base [r]. *)
Definition show_radix (r n : Z) : Str := digit_char <$> digits r n.

(** The digits of a string, if it has no other characters. *)
Definition read_digits (r : Z) (s : Str) : option (list Z) := mapM (char_digit r) s.

(** [trim_start_matches('0')]. *)
Fixpoint trim_start (s : Str) : Str :=
  match s with
  | [] => []
  | c :: rest => if c =? 48 then trim_start rest else s
  end.

(** ** Lemmas *)

Section digits.
Context (r : Z) (Hr : 2 ≤ r ≤ 36).

Lemma digits_value_snoc l d : digits_value r (l ++ [d]) = digits_value r l * r + d.
Proof. unfold digits_value. by rewrite foldl_snoc. Qed.

Lemma digits_value_from l a :
  foldl (λ a d, a * r + d) a l = a * r ^ Z.of_nat (length l) + digits_value r l.
Proof.
  unfold digits_value. induction l as [|d l IH] using rev_ind; simpl; [lia|].
  rewrite !foldl_snoc, IH, length_app, Nat2Z.inj_add. simpl.
  rewrite Z.pow_add_r by lia. simpl. lia.
Qed.

Lemma digits_value_cons d l :
  digits_value r (d :: l) = d * r ^ Z.of_nat (length l) + digits_value r l.
Proof. unfold digits_value at 1. simpl. by rewrite digits_value_from. Qed.

Lemma digits_value_app l l' :
  digits_value r (l ++ l') = digits_value r l * r ^ Z.of_nat (length l') + digits_value r l'.
Proof. unfold digits_value at 1. by rewrite foldl_app, digits_value_from. Qed.

(** Digits are below the base. *)
Definition in_base (l : list Z) : Prop := Forall (λ d, 0 ≤ d < r) l.

Lemma digits_value_bound l : in_base l → 0 ≤ digits_value r l < r ^ Z.of_nat (length l).
Proof.
  induction l as [|d l IH]; intros Hl; [unfold digits_value; simpl; lia|].
  inversion Hl as [|? ? Hd Hl']; subst. specialize (IH Hl'). rewrite digits_value_cons. simpl length.
  rewrite Nat2Z.inj_succ, Z.pow_succ_r by lia. nia.
Qed.

Lemma digits_rev_spec fuel n :
  0 ≤ n → n < 2 ^ Z.of_nat fuel →
  in_base (digits_rev fuel r n) ∧ digits_value r (rev (digits_rev fuel r n)) = n ∧
  (n ≠ 0 → ∃ l d, digits_rev fuel r n = l ++ [d] ∧ d ≠ 0).
Proof.
  revert n. induction fuel as [|fuel IH]; intros n H0 Hn.
  - simpl in *. assert (n = 0) as -> by lia. split_and!; [constructor|done|done].
  - rewrite Nat2Z.inj_succ, Z.pow_succ_r in Hn by lia. simpl.
    destruct (Z.eqb_spec n 0) as [->|Hne]; [split_and!; [constructor|done|done]|].
    assert (0 ≤ n / r) by (apply Z.div_pos; lia).
    assert (n / r < 2 ^ Z.of_nat fuel) by (apply Z.div_lt_upper_bound; nia).
    pose proof (Z.mod_pos_bound n r ltac:(lia)). pose proof (Z.div_mod n r ltac:(lia)).
    destruct (IH (n / r)) as (I1 & I2 & I3); [done..|]. split_and!.
    + by constructor.
    + simpl. rewrite digits_value_snoc, I2. lia.
    + intros _. destruct (decide (n / r = 0)) as [E|E].
      * exists [], (n mod r). rewrite E in *. destruct fuel; simpl; split; try done; lia.
      * destruct (I3 E) as (l & d & -> & Hd). by exists (n mod r :: l), d.
Qed.

(** A number and its digits. *)
Record is_digits (n : Z) (l : list Z) : Prop := {
  id_base : in_base l;
  id_value : digits_value r l = n;
  id_lead : ∃ d l', l = d :: l' ∧ (d = 0 → l' = [])
}.

Lemma digits_spec n : 0 ≤ n → is_digits n (digits r n).
Proof.
  intros H0. unfold digits. destruct (Z.eqb_spec n 0) as [->|Hne].
  - split; [repeat constructor; lia|done|by exists 0, []].
  - assert (n < 2 ^ Z.of_nat (Z.to_nat (Z.log2 n + 1))) as Hn.
    { pose proof (Z.log2_nonneg n). rewrite Z2Nat.id by lia. apply Z.log2_spec. lia. }
    destruct (digits_rev_spec _ n H0 Hn) as (I1 & I2 & I3).
    destruct (I3 Hne) as (l & d & El & Hd). split; [by apply Forall_rev|done|].
    rewrite El, rev_app_distr. by exists d, (rev l).
Qed.

Lemma digits_value_inj l l' :
  in_base l → in_base l' → length l = length l' → digits_value r l = digits_value r l' → l = l'.
Proof.
  revert l'. induction l as [|d l IH]; intros [|d' l'] H1 H2 Hlen Hv; simplify_eq/=; [done|].
  inversion H1 as [|? ? Hd Hl]; inversion H2 as [|? ? Hd' Hl']; subst.
  rewrite !digits_value_cons, Hlen in Hv.
  pose proof (digits_value_bound l Hl). pose proof (digits_value_bound l' Hl').
  rewrite Hlen in *. assert (d = d') as -> by nia. f_equal. apply IH; try done. nia.
Qed.

(** The digits of a number are the only ones without a leading zero. *)
Lemma is_digits_unique n l l' : is_digits n l → is_digits n l' → l = l'.
Proof.
  assert (∀ n l l', is_digits n l → is_digits n l' → (length l ≤ length l')%nat) as Hle.
  { clear n l l'. intros n l l' [B1 V1 (d & k & -> & Z1)] [B2 V2 (d2 & k2 & -> & _)].
    simpl length.
    pose proof (digits_value_bound _ B2) as [_ Hv2]. rewrite V2 in Hv2.
    inversion B1 as [|? ? Hd Hk]; subst. rewrite digits_value_cons in Hv2.
    destruct (decide (d = 0)) as [->|Hd0]; [rewrite (Z1 eq_refl); simpl; lia|].
    destruct (decide (S (length k) ≤ S (length k2))%nat) as [|Hn]; [done|exfalso].
    pose proof (digits_value_bound k Hk).
    assert (r ^ Z.of_nat (length (d2 :: k2)) ≤ r ^ Z.of_nat (length k))
      by (apply Z.pow_le_mono_r; simpl; lia).
    nia. }
  intros H1 H2. apply digits_value_inj; [apply H1|apply H2| |].
  - apply Nat.le_antisymm; eauto.
  - by rewrite (id_value _ _ H1), (id_value _ _ H2).
Qed.

Lemma is_digits_lower n l : is_digits n l → n ≠ 0 → r ^ (Z.of_nat (length l) - 1) ≤ n.
Proof.
  intros [B V (d & k & -> & Z0)] Hn. inversion B as [|? ? Hd Hk]; subst.
  pose proof (digits_value_bound k Hk). rewrite digits_value_cons in *.
  replace (Z.of_nat (length (d :: k)) - 1) with (Z.of_nat (length k)) by (simpl; lia).
  destruct (decide (d = 0)) as [->|Hd0]; [|nia]. rewrite (Z0 eq_refl) in Hn.
  unfold digits_value in Hn. simpl in Hn. lia.
Qed.

Lemma digits_zeros z l : digits_value r (l ++ replicate z 0) = digits_value r l * r ^ Z.of_nat z.
Proof.
  rewrite digits_value_app, length_replicate. enough (digits_value r (replicate z 0) = 0) by lia.
  induction z as [|z IH]; [done|]. simpl. rewrite digits_value_cons, IH. lia.
Qed.

Lemma digits_leading z l : digits_value r (replicate z 0 ++ l) = digits_value r l.
Proof. induction z as [|z IH]; [done|]. simpl. rewrite digits_value_cons, IH. lia. Qed.

Lemma char_digit_char d : 0 ≤ d < r → char_digit r (digit_char d) = Some d.
Proof.
  intros Hd. unfold char_digit, digit_char. destruct (Z.ltb_spec d 10).
  - rewrite (proj2 (Z.leb_le 48 _)), (proj2 (Z.leb_le _ 57)) by lia. simpl.
    rewrite (proj2 (Z.ltb_lt _ _)) by lia. f_equal. lia.
  - rewrite (proj2 (Z.leb_gt _ 57)), andb_false_r by lia.
    rewrite (proj2 (Z.leb_le 97 _)), (proj2 (Z.leb_le _ 122)) by lia. simpl.
    rewrite (proj2 (Z.ltb_lt _ _)) by lia. f_equal. lia.
Qed.

Lemma char_digit_bound c d : char_digit r c = Some d → 0 ≤ d < r.
Proof. unfold char_digit. repeat case_bool; intros; simplify_eq/=; lia. Qed.

(** Reading gives back what was printed. *)
Lemma read_shown l : in_base l → read_digits r (digit_char <$> l) = Some l.
Proof.
  unfold read_digits. intros Hl. apply mapM_Some. induction Hl as [|d l Hd _ IH]; csimpl; constructor; [|done].
  by apply char_digit_char.
Qed.

Lemma read_show n : 0 ≤ n → digits_value r <$> read_digits r (show_radix r n) = Some n.
Proof.
  intros H0. destruct (digits_spec n H0) as [B V _]. unfold show_radix.
  rewrite read_shown by done. simpl. by rewrite V.
Qed.

Lemma read_digits_base s l : read_digits r s = Some l → in_base l ∧ length l = length s.
Proof.
  unfold read_digits. intros Hs%mapM_Some. split.
  - induction Hs; constructor; [by eapply char_digit_bound|done].
  - symmetry. by eapply Forall2_length.
Qed.
End digits.

Lemma digit_char_zero d : 0 ≤ d → (digit_char d =? 48) = (d =? 0).
Proof. intros Hd. unfold digit_char. repeat case_bool; try done; lia. Qed.

(** Trimming at the front of digits. *)
Lemma trim_start_digits r l :
  in_base r l →
  ∃ z l', l = replicate z 0 ++ l' ∧ head l' ≠ Some 0 ∧
    trim_start (digit_char <$> l) = digit_char <$> l'.
Proof.
  induction 1 as [|d l Hd Hl (z & l' & -> & Hh & E)]; [by exists 0%nat, []|]. csimpl.
  rewrite digit_char_zero by lia. destruct (Z.eqb_spec d 0) as [->|Hne].
  - exists (S z), l'. by split_and!.
  - exists 0%nat, (d :: replicate z 0 ++ l'). split_and!; [done|by intros [= ->]|done].
Qed.
