(* ===== verification/ConsoleFmt.v ===== *)
(** * Formatting of console logs (crates/common/fmt/src/console.rs)

    [console.log] calls of a contract are printed with a format string: a parser
    cuts the string into literal pieces and format specifiers, and every specifier
    takes the next value.  [debug] says whether debug assertions are compiled in.
    Strings are lists of code points and positions are
    byte offsets, as in [FmtText].  Signed integers, whose arithmetic belongs to
    alloy, are not modelled; the text of an address and of bytes is a
    parameter. *)

From stdpp Require Import prelude list strings.
From S2P Require Import Prelude FmtText FmtConfig Digits.

Open Scope Z_scope.

Definition c_percent : Char := 37.

(** ** Slices

    [&s[a..b]] panics unless both ends are on character boundaries. *)
Definition is_boundary (s : Str) (x : nat) : bool :=
  bool_decide (x = str_len s) || bool_decide (x ∈ (char_indices s).*1).

Definition str_slice (s : Str) (a b : nat) : outcome Str :=
  if is_boundary s a && is_boundary s b && (a <=? b)%nat then
    Ret (filter (λ ic, (a ≤ ic.1)%nat ∧ (ic.1 < b)%nat) (char_indices s)).*2
  else Panic.

(** ** Pieces *)

Inductive FormatSpec : Type :=
| FsString
| FsNumber
| FsInteger
| FsObject
| FsExponential (precision : option Z)
| FsHexadecimal.

Inductive Piece : Type :=
| PieceString (s : Str)
| NextArgument (spec : FormatSpec).

Inductive ParseArgError : Type := ArgErr | ArgSkip.

(** [Display for FormatSpec]. *)
Definition show_spec (spec : FormatSpec) : Str :=
  c_percent ::
  match spec with
  | FsString => [115]
  | FsNumber => [100]
  | FsInteger => [105]
  | FsObject => [111]
  | FsExponential (Some n) => show_radix 10 n ++ [101]
  | FsExponential None => [101]
  | FsHexadecimal => [120]
  end.

Record Parser := { ps_input : Str; ps_chars : list (nat * Char) }.

Definition parser_new (input : Str) : Parser :=
  {| ps_input := input; ps_chars := char_indices input |}.

Definition with_chars (p : Parser) (chars : list (nat * Char)) : Parser :=
  {| ps_input := ps_input p; ps_chars := chars |}.

Definition peek (p : Parser) : option (nat * Char) := head (ps_chars p).
Definition current_pos (p : Parser) : nat := default (str_len (ps_input p)) (fst <$> peek p).

(** The loop of [string]: the characters left and the position of the [%] that
    ended it. *)
Fixpoint string_loop (skip : nat) (chars : list (nat * Char)) : list (nat * Char) * option nat :=
  match chars with
  | [] => ([], None)
  | (pos, c) :: rest =>
      if c =? c_percent then
        match skip with
        | O => (chars, Some pos)
        | S skip => string_loop skip rest
        end
      else string_loop skip rest
  end.

Definition parser_string (p : Parser) (start skip : nat) : outcome (Parser * Str) :=
  let '(chars, stop) := string_loop skip (ps_chars p) in
  s ← str_slice (ps_input p) start (default (str_len (ps_input p)) stop);
  Ret (with_chars p chars, s).

Definition is_ascii_digit (c : Char) : bool := (48 <=? c) && (c <=? 57).

(** The loop of [integer]: [end] stays at [start] when the input ends first. *)
Fixpoint integer_loop (start : nat) (chars : list (nat * Char)) : list (nat * Char) * nat :=
  match chars with
  | [] => ([], start)
  | (pos, c) :: rest => if is_ascii_digit c then integer_loop start rest else (chars, pos)
  end.

(** [parse::<usize>], for a string of digits. *)
Definition parse_usize (s : Str) : option Z :=
  match s with
  | [] => None
  | _ => l ← read_digits 10 s; if digits_value 10 l <=? umax 64 then Some (digits_value 10 l) else None
  end.

Definition parser_integer (p : Parser) (start : nat) : outcome (Parser * option Z) :=
  let '(chars, stop) := integer_loop start (ps_chars p) in
  s ← str_slice (ps_input p) start stop;
  Ret (with_chars p chars, parse_usize s).

Definition simple_spec (c : Char) : option FormatSpec :=
  if c =? 115 then Some FsString else if c =? 100 then Some FsNumber
  else if c =? 105 then Some FsInteger else if c =? 111 then Some FsObject
  else if c =? 101 then Some (FsExponential None) else if c =? 120 then Some FsHexadecimal
  else None.

(** [argument]: an error leaves the characters where they are. *)
Definition parser_argument (p : Parser) : outcome (Parser * result FormatSpec ParseArgError) :=
  match peek p with
  | None => Ret (p, Err ArgErr)
  | Some (start, ch) =>
      if ch =? c_percent then Ret (p, Err ArgSkip)
      else
        match simple_spec ch with
        | Some spec => Ret (with_chars p (tail (ps_chars p)), Ok spec)
        | None =>
            if is_ascii_digit ch then
              '(p, n) ← parser_integer p start;
              match peek p with
              | Some (_, c) =>
                  if c =? 101 then Ret (with_chars p (tail (ps_chars p)), Ok (FsExponential n))
                  else Ret (p, Err ArgErr)
              | None => Ret (p, Err ArgErr)
              end
            else Ret (p, Err ArgErr)
        end
  end.

Definition string_piece (r : Parser * Str) : Parser * option Piece := (r.1, Some (PieceString r.2)).

(** [debug_assert_eq!] on a specifier that was read from [start] on: with debug
    assertions, a specifier that is not printed as it was written panics. *)
Definition assert_printed (debug : bool) (p : Parser) (start : nat) (spec : FormatSpec) : outcome unit :=
  if debug then
    text ← str_slice (ps_input p) start (current_pos p);
    if decide (show_spec spec = text) then Ret tt else Panic
  else Ret tt.

(** [Iterator::next]. *)
Definition parser_next (debug : bool) (p : Parser) : outcome (Parser * option Piece) :=
  match peek p with
  | None => Ret (p, None)
  | Some (start, ch) =>
      if ch =? c_percent then
        let prev := ps_chars p in
        '(p, r) ← parser_argument (with_chars p (tail prev));
        match r with
        | Ok arg => _ ← assert_printed debug p start arg; Ret (p, Some (NextArgument arg))
        | Err ArgSkip => r ← parser_string p (current_pos p) 1; Ret (string_piece r)
        | Err ArgErr => r ← parser_string (with_chars p prev) start 1; Ret (string_piece r)
        end
      else r ← parser_string p start 0; Ret (string_piece r)
  end.

(** All pieces of a format string. *)
Definition pieces_body (debug : bool) (s : Parser * list Piece) : outcome (flow (Parser * list Piece) (list Piece)) :=
  let '(p, acc) := s in
  '(p, o) ← parser_next debug p;
  match o with
  | Some piece => Ret (Continue (p, acc ++ [piece]))
  | None => Ret (Break acc)
  end.

Definition pieces (debug : bool) (input : Str) : outcome (list Piece) :=
  run (S (length input)) (pieces_body debug) (parser_new input, []).

(** ** Values *)

Inductive ConsoleValue : Type :=
| CvString (s : Str)
| CvBool (b : bool)
| CvU256 (n : Z)
| CvAddress (a : Z)
| CvBytes (bytes : list Z).

Definition str_nan : Str := [78; 97; 78].
Definition str_bool (b : bool) : Str :=
  if b then [116; 114; 117; 101] else [102; 97; 108; 115; 101].
Definition quoted (s : Str) : Str := c_apostrophe :: s ++ [c_apostrophe].

(** [trim_end_matches('0')] and the padding of [{:0>width$}]. *)
Definition trim_end (s : Str) : Str := rev (trim_start (rev s)).
Definition pad_zeros (width : nat) (s : Str) : Str := replicate (width - length s) 48 ++ s.

Section console.
Context (pretty_address : Z → Str) (pretty_bytes : list Z → Str).

(** [{integer}.{decimal}], the decimals padded to [width] and without trailing
    zeros. *)
Definition decimal_notation (integer rest : Z) (width : nat) : Str :=
  let decimal := trim_end (pad_zeros width (show_radix 10 rest)) in
  match decimal with
  | [] => show_radix 10 integer
  | _ => show_radix 10 integer ++ 46 :: decimal
  end.

(** [ConsoleFmt for U256]; the power wraps at 256 bits, and a division by zero
    panics. *)
Definition fmt_u256 (n : Z) (spec : FormatSpec) : outcome Str :=
  match spec with
  | FsString | FsObject | FsNumber | FsInteger => Ret (show_radix 10 n)
  | FsHexadecimal => Ret (48 :: 120 :: trim_start (show_radix 16 n))
  | FsExponential None =>
      let log := (length (show_radix 10 n) - 1)%nat in
      let exp10 := wrap 256 (10 ^ Z.of_nat log) in
      if exp10 =? 0 then Panic
      else Ret (decimal_notation (n / exp10) (n mod exp10) log ++ 101 :: show_radix 10 (Z.of_nat log))
  | FsExponential (Some precision) =>
      let exp10 := wrap 256 (10 ^ precision) in
      if exp10 =? 0 then Panic
      else Ret (decimal_notation (n / exp10) (n mod exp10) (Z.to_nat precision))
  end.

(** What has no numeric reading: [pretty], quoted for [%o], or [NaN]. *)
Definition fmt_text (text : Str) (hexadecimal : bool) (spec : FormatSpec) : Str :=
  match spec with
  | FsString => text
  | FsObject => quoted text
  | FsHexadecimal => if hexadecimal then text else str_nan
  | FsNumber | FsInteger | FsExponential _ => str_nan
  end.

Definition fmt_value (v : ConsoleValue) (spec : FormatSpec) : outcome Str :=
  match v with
  | CvString s => Ret (fmt_text s false spec)
  | CvBool b =>
      match spec with
      | FsNumber => Ret (show_radix 10 (if b then 1 else 0))
      | _ => Ret (fmt_text (str_bool b) false spec)
      end
  | CvU256 n => fmt_u256 n spec
  | CvAddress a => Ret (fmt_text (pretty_address a) true spec)
  | CvBytes l => Ret (fmt_text (pretty_bytes l) true spec)
  end.

(** One piece of [format_spec]: the values left and the text so far. *)
Definition format_piece (s : list ConsoleValue * Str) (piece : Piece)
    : outcome (list ConsoleValue * Str) :=
  let '(values, text) := s in
  match piece with
  | PieceString t => Ret (values, text ++ t)
  | NextArgument spec =>
      match values with
      | v :: values => t ← fmt_value v spec; Ret (values, text ++ t)
      | [] => Ret ([], text ++ show_spec spec)
      end
  end.

Definition format_spec (debug : bool) (s : Str) (values : list ConsoleValue) : outcome (list ConsoleValue * Str) :=
  l ← pieces debug s; foldM format_piece (values, []) l.

(** The remaining values, each after a space except for the first one of an
    empty format string. *)
Definition append_value (s : bool * Str) (v : ConsoleValue) : outcome (bool * Str) :=
  t ← fmt_value v FsString;
  Ret (true, s.2 ++ (if s.1 then [32] else []) ++ t).

Definition console_format (debug : bool) (spec : Str) (values : list ConsoleValue) : outcome Str :=
  '(values, text) ← match spec with [] => Ret (values, []) | _ => format_spec debug spec values end;
  r ← foldM append_value (negb (bool_decide (spec = [])), text) values;
  Ret r.2.
End console.

(** ** The grammar of format strings *)

Definition no_percent (t : Str) : Prop := Forall (λ c, c ≠ c_percent) t.
(** Literal text reaches up to the next [%]. *)
Definition stops (rest : Str) : Prop := rest = [] ∨ head rest = Some c_percent.

(** The text of a specifier after its [%]. *)
Inductive spec_text : Str → FormatSpec → Prop :=
| spec_simple c spec : simple_spec c = Some spec → spec_text [c] spec
| spec_exponential ds :
    ds ≠ [] → Forall (λ c, is_ascii_digit c = true) ds →
    spec_text (ds ++ [101]) (FsExponential (parse_usize ds)).

(** The text [src], followed by [rest], is read as one piece. *)
Inductive piece_of : Str → Str → Piece → Prop :=
| of_text t rest : t ≠ [] → no_percent t → stops rest → piece_of t rest (PieceString t)
| of_escape t rest :
    no_percent t → stops rest →
    piece_of (c_percent :: c_percent :: t) rest (PieceString (c_percent :: t))
| of_spec body spec rest :
    spec_text body spec → piece_of (c_percent :: body) rest (NextArgument spec)
| of_literal t rest :
    no_percent t → stops rest → (t = [] → rest = []) →
    (∀ body spec k, spec_text body spec → t ++ rest ≠ body ++ k) →
    piece_of (c_percent :: t) rest (PieceString (c_percent :: t)).

Inductive parses : Str → list Piece → Prop :=
| parses_nil : parses [] []
| parses_cons src rest piece l :
    piece_of src rest piece → parses rest l → parses (src ++ rest) (piece :: l).

(** A specifier of the string is printed in another way than it is written. *)
Inductive misprinted : Str → Prop :=
| misprinted_here body spec rest :
    spec_text body spec → show_spec spec ≠ c_percent :: body → misprinted (c_percent :: body ++ rest)
| misprinted_later src rest piece :
    piece_of src rest piece → misprinted rest → misprinted (src ++ rest).

(** ** Slices and loops *)

Lemma indices_bound k s i c :
  (i, c) ∈ char_indices_from k s → (k ≤ i)%nat ∧ (i < k + str_len s)%nat.
Proof.
  revert k. induction s as [|d s IH]; intros k; simpl; [by intros ?%elem_of_nil|].
  rewrite str_len_cons. pose proof (len_utf8_pos d).
  intros [[= -> ->]|Hin]%elem_of_cons; [lia|]. apply IH in Hin. lia.
Qed.

Lemma indices_snd k s : (char_indices_from k s).*2 = s.
Proof. revert k. induction s as [|c s IH]; intros k; csimpl; [done|]. by rewrite IH. Qed.

Lemma boundary_app pre rest : is_boundary (pre ++ rest) (str_len pre) = true.
Proof.
  unfold is_boundary, char_indices. destruct rest as [|c rest].
  - rewrite app_nil_r, bool_decide_true by done. done.
  - rewrite (bool_decide_true (_ ∈ _)), orb_true_r; [done|].
    rewrite char_indices_app, fmap_app. apply elem_of_app. right. by constructor.
Qed.

Lemma filter_without {A} (P : A → Prop) `{∀ x, Decision (P x)} l :
  Forall (λ x, ¬ P x) l → filter P l = [].
Proof. induction 1; [done|]. by rewrite filter_cons_False. Qed.

Lemma slice_mid pre t rest :
  str_slice (pre ++ t ++ rest) (str_len pre) (str_len (pre ++ t)) = Ret t.
Proof.
  unfold str_slice. rewrite boundary_app.
  pose proof (boundary_app (pre ++ t) rest) as Hb. rewrite <- app_assoc in Hb. rewrite Hb.
  rewrite (proj2 (Nat.leb_le _ _)) by (rewrite str_len_app; lia). simpl. f_equal.
  unfold char_indices. rewrite !char_indices_app, !filter_app, !fmap_app, str_len_app.
  rewrite (filter_without _ (char_indices_from 0 pre)), (filter_all _ (char_indices_from _ t)),
    (filter_without _ (char_indices_from _ rest)).
  - simpl. by rewrite indices_snd, app_nil_r.
  - apply Forall_forall. intros [i c] Hin%indices_bound. simpl. lia.
  - apply Forall_forall. intros [i c] Hin%indices_bound. simpl. lia.
  - apply Forall_forall. intros [i c] Hin%indices_bound. simpl. lia.
Qed.

Lemma slice_end pre t : str_slice (pre ++ t) (str_len pre) (str_len (pre ++ t)) = Ret t.
Proof. pose proof (slice_mid pre t []) as H. by rewrite app_nil_r in H. Qed.

(** Text is cut at the next [%], and digits end before another character. *)
Lemma cut_text s : ∃ t rest, s = t ++ rest ∧ no_percent t ∧ stops rest.
Proof.
  induction s as [|c s (t & rest & -> & Ht & Hr)]; [exists [], []; split_and!; [done|constructor|by left]|].
  destruct (decide (c = c_percent)) as [->|Hc].
  - exists [], (c_percent :: t ++ rest). split_and!; [done|constructor|by right].
  - exists (c :: t), rest. split_and!; [done|by constructor|done].
Qed.

Definition ends_digits (rest : Str) : Prop :=
  match rest with [] => True | c :: _ => is_ascii_digit c = false end.

Lemma cut_digits s :
  ∃ ds rest, s = ds ++ rest ∧ Forall (λ c, is_ascii_digit c = true) ds ∧ ends_digits rest.
Proof.
  induction s as [|c s (ds & rest & -> & Hd & Hr)]; [by exists [], []|].
  destruct (is_ascii_digit c) eqn:Hc.
  - exists (c :: ds), rest. split_and!; [done|by constructor|done].
  - exists [], (c :: ds ++ rest). by split_and!.
Qed.

Lemma string_loop_text k t rest :
  no_percent t → stops rest →
  string_loop 0 (char_indices_from k (t ++ rest)) =
    (char_indices_from (k + str_len t) rest,
     match rest with [] => None | _ => Some (k + str_len t)%nat end).
Proof.
  intros Ht Hr. revert k. induction Ht as [|c t Hc _ IH]; intros k; simpl.
  - rewrite Nat.add_0_r. destruct Hr as [->|Hr]; [done|]. destruct rest as [|c rest]; [done|].
    injection Hr as ->. done.
  - rewrite (proj2 (Z.eqb_neq _ _)) by done. rewrite IH, str_len_cons, Nat.add_assoc. done.
Qed.

Lemma integer_loop_digits start k ds rest :
  Forall (λ c, is_ascii_digit c = true) ds → ends_digits rest →
  integer_loop start (char_indices_from k (ds ++ rest)) =
    (char_indices_from (k + str_len ds) rest,
     match rest with [] => start | _ => (k + str_len ds)%nat end).
Proof.
  intros Hd Hr. revert k. induction Hd as [|c ds Hc _ IH]; intros k; simpl.
  - rewrite Nat.add_0_r. destruct rest as [|c rest]; [done|]. simpl in *. by rewrite Hr.
  - rewrite Hc, IH, str_len_cons, Nat.add_assoc. done.
Qed.

(** ** The parser follows the grammar *)

(** The parser has read [pre] and [rest] is left. *)
Definition at_rest (p : Parser) (pre rest : Str) : Prop :=
  ps_input p = pre ++ rest ∧ ps_chars p = char_indices_from (str_len pre) rest.

Lemma at_rest_tail p pre c rest :
  at_rest p pre (c :: rest) →
  at_rest (with_chars p (char_indices_from (str_len pre + len_utf8 c) rest)) (pre ++ [c]) rest.
Proof.
  intros [E1 _]. split; simpl; [by rewrite E1, <- app_assoc|].
  rewrite str_len_app, (str_len_cons c []). simpl. by rewrite Nat.add_0_r.
Qed.

(** The text from [start] on to the next [%]; [skip] characters [%] of it are
    read over. *)
Lemma parser_string_spec p pre lead t rest skip :
  at_rest p pre (lead ++ t ++ rest) → no_percent t → stops rest →
  (lead = [] ∧ skip = 0%nat ∨ lead = [c_percent] ∧ skip = 1%nat) →
  ∃ p', parser_string p (str_len pre) skip = Ret (p', lead ++ t) ∧
    at_rest p' (pre ++ lead ++ t) rest.
Proof.
  intros [E1 E2] Ht Hr Hl. unfold parser_string.
  assert (string_loop skip (ps_chars p) =
    (char_indices_from (str_len (pre ++ lead ++ t)) rest,
     match rest with [] => None | _ => Some (str_len (pre ++ lead ++ t)) end)) as ->.
  { rewrite E2, !str_len_app. destruct Hl as [[-> ->]|[-> ->]]; simpl.
    - by rewrite string_loop_text.
    - rewrite string_loop_text by done. change (len_utf8 c_percent) with 1%nat.
      by replace (str_len pre + 1 + str_len t)%nat with (str_len pre + S (str_len t))%nat by lia. }
  rewrite E1.
  assert (str_slice (pre ++ lead ++ t ++ rest) (str_len pre)
    (default (str_len (pre ++ lead ++ t ++ rest))
       match rest with [] => None | _ => Some (str_len (pre ++ lead ++ t)) end) = Ret (lead ++ t)) as ->.
  { rewrite (app_assoc lead). destruct rest as [|c rest]; simpl; [|apply slice_mid].
    rewrite !app_nil_r. apply slice_end. }
  rewrite bind_Ret. eexists. split; [done|]. split; simpl; [|done]. by rewrite E1, <- !app_assoc.
Qed.

Lemma parser_integer_spec p pre ds rest :
  at_rest p pre (ds ++ rest) → Forall (λ c, is_ascii_digit c = true) ds → ends_digits rest →
  ∃ p', parser_integer p (str_len pre) = Ret (p', match rest with [] => None | _ => parse_usize ds end) ∧
    at_rest p' (pre ++ ds) rest.
Proof.
  intros [E1 E2] Hd Hr. unfold parser_integer. rewrite E2, integer_loop_digits, E1 by done.
  assert (str_slice (pre ++ ds ++ rest) (str_len pre)
    match rest with [] => str_len pre | _ => (str_len pre + str_len ds)%nat end =
    Ret (match rest with [] => [] | _ => ds end)) as ->.
  { rewrite <- str_len_app. destruct rest as [|c rest]; [|apply slice_mid].
    rewrite app_nil_r. pose proof (slice_mid pre [] ds) as H. by rewrite app_nil_r in H. }
  rewrite bind_Ret. eexists. split; [by destruct rest|].
  split; simpl; [by rewrite E1, <- app_assoc|by rewrite str_len_app].
Qed.

Lemma digit_not_e ds rest : Forall (λ c, is_ascii_digit c = true) ds → ends_digits rest →
  ∀ ds' k, Forall (λ c, is_ascii_digit c = true) ds' → ds ++ rest = ds' ++ 101 :: k →
  ds = ds' ∧ rest = 101 :: k.
Proof.
  intros Hd Hr. induction Hd as [|c ds Hc _ IH]; intros ds' k Hd' E; simpl in *.
  - destruct ds' as [|c' ds']; simplify_eq/=; [done|]. inversion Hd'; simplify_eq/=. congruence.
  - destruct ds' as [|c' ds']; simplify_eq/=.
    inversion Hd'; subst. destruct (IH ds' k) as [-> ->]; done.
Qed.

(** Reading a specifier after its [%]. *)
Lemma parser_argument_spec p pre s :
  at_rest p pre s →
  ∃ p' r, parser_argument p = Ret (p', r) ∧ ps_input p' = ps_input p ∧
    match r with
    | Ok spec => ∃ body rest, s = body ++ rest ∧ spec_text body spec ∧ at_rest p' (pre ++ body) rest
    | Err ArgSkip => p' = p ∧ head s = Some c_percent
    | Err ArgErr => head s ≠ Some c_percent ∧
        ∀ body spec k, spec_text body spec → s ≠ body ++ k
    end.
Proof.
  intros Hp. pose proof Hp as [E1 E2]. unfold parser_argument, peek. rewrite E2.
  destruct s as [|ch s]; simpl.
  { exists p, (Err ArgErr). split_and!; [done..|].
    intros ? ? k [c spec Hc|ds' Hne' Hds'] E; [done|]. by destruct ds'. }
  destruct (Z.eqb_spec ch c_percent) as [->|Hch]; [by eexists _, _|].
  destruct (simple_spec ch) as [spec|] eqn:Hs.
  { eexists _, _. split_and!; [done..|]. exists [ch], s. split_and!; [done|by constructor|].
    by apply at_rest_tail. }
  destruct (is_ascii_digit ch) eqn:Hd.
  - destruct (cut_digits (ch :: s)) as (ds & rest & Es & Hds & Hr).
    rewrite Es in Hp. destruct (parser_integer_spec p pre ds rest Hp Hds Hr) as (p' & -> & Hp').
    rewrite bind_Ret. cbn beta iota. unfold peek. rewrite (proj2 Hp').
    assert (ds ≠ []) as Hne by (intros ->; simpl in Es; subst rest; simpl in Hr; congruence).
    assert (ps_input p' = ps_input p) as Ei
      by (rewrite (proj1 Hp'), (proj1 Hp), <- app_assoc; done).
    assert (head rest ≠ Some 101 → head (ch :: s) ≠ Some c_percent ∧
      ∀ body spec k, spec_text body spec → ch :: s ≠ body ++ k) as Hno.
    { intros He. split; [simpl; congruence|]. intros ? ? k [c spec Hc|ds' Hne' Hds'] E.
      - by simplify_eq/=.
      - rewrite Es, <- app_assoc in E. simpl in E.
        destruct (digit_not_e ds rest Hds Hr ds' k Hds' E) as [-> ->]. done. }
    destruct rest as [|c rest]; simpl; [eexists _, _; split_and!; [done..|]; by apply Hno|].
    destruct (Z.eqb_spec c 101) as [->|Hc].
    + eexists _, _. split_and!; [done|done|]. exists (ds ++ [101]), rest. split_and!.
      * by rewrite Es, <- app_assoc.
      * by constructor.
      * rewrite app_assoc. by apply at_rest_tail.
    + eexists _, _. split_and!; [done..|]. apply Hno. simpl. congruence.
  - eexists _, _. split_and!; [done..|]. split; [simpl; congruence|].
    intros ? ? k [c spec Hc|ds' Hne' Hds'] E; [by simplify_eq/=|].
    destruct ds' as [|c ds']; [done|]. apply Forall_cons in Hds' as [Hc _].
    injection E as -> _. congruence.
Qed.

Lemma no_spec_text t rest :
  (∀ body spec k, spec_text body spec → t ++ rest ≠ body ++ k) → t = [] → head rest ≠ Some c_percent →
  stops rest → rest = [].
Proof. intros _ -> Hh [->|Hr]; done. Qed.

(** A piece that is a specifier is printed as its text. *)
Definition printed (piece : Piece) (src : Str) : Prop :=
  match piece with PieceString _ => True | NextArgument spec => show_spec spec = src end.

Lemma assert_printed_spec debug p start pre src rest spec :
  at_rest p (pre ++ src) rest → start = str_len pre →
  assert_printed debug p start spec =
    if debug then (if decide (show_spec spec = src) then Ret tt else Panic) else Ret tt.
Proof.
  intros [E1 E2] ->. unfold assert_printed. destruct debug; [|done].
  assert (current_pos p = str_len (pre ++ src)) as ->.
  { unfold current_pos, peek. rewrite E2, E1. destruct rest as [|c rest]; [by rewrite app_nil_r|done]. }
  rewrite E1, <- app_assoc, slice_mid. done.
Qed.

(** The next piece. *)
Lemma parser_next_spec debug p pre s :
  at_rest p pre s → s ≠ [] →
  ∃ p' src rest piece, s = src ++ rest ∧ src ≠ [] ∧ piece_of src rest piece ∧
    at_rest p' (pre ++ src) rest ∧
    (parser_next debug p = Ret (p', Some piece) ∧ (debug = true → printed piece src) ∨
     parser_next debug p = Panic ∧ debug = true ∧ ¬ printed piece src).
Proof.
  intros Hp Hne. pose proof Hp as [E1 E2]. destruct s as [|ch s]; [done|].
  unfold parser_next, peek. rewrite E2. simpl.
  destruct (Z.eqb_spec ch c_percent) as [->|Hch].
  - destruct (parser_argument_spec _ _ _ (at_rest_tail _ _ _ _ Hp)) as (p' & r & Er & Ei & Hr).
    rewrite Er, bind_Ret. cbn beta iota.
    destruct r as [spec|[|]].
    + destruct Hr as (body & rest & -> & Hb & Hp'). rewrite <- app_assoc in Hp'.
      exists p', (c_percent :: body), rest, (NextArgument spec). split_and!; try done; [by constructor|].
      rewrite (assert_printed_spec debug p' (str_len pre) pre (c_percent :: body) rest) by done.
      simpl. destruct debug; [|by left]. case_decide; [left|right]; by rewrite ?bind_Ret.
    + destruct Hr as [Hh Hno]. destruct (cut_text s) as (t & rest & -> & Ht & Hst).
      destruct (parser_string_spec (with_chars p' (ps_chars p)) pre [c_percent] t rest 1)
        as (p2 & Ep & Hp2); [split; simpl; [by rewrite Ei|exact E2]|done|done|by right|].
      rewrite E2 in Ep. simpl in Ep. rewrite Ep.
      exists p2, (c_percent :: t), rest, (PieceString (c_percent :: t)). split_and!; try done; [|by left].
      apply of_literal; try done. intros ->. by apply (no_spec_text [] rest Hno).
    + destruct Hr as [-> Hh]. destruct s as [|c s]; [done|]. injection Hh as ->.
      destruct (cut_text s) as (t & rest & -> & Ht & Hst). pose proof (at_rest_tail _ _ _ _ Hp) as Hq.
      assert (current_pos (with_chars p (char_indices_from (str_len pre + len_utf8 c_percent)
        (c_percent :: t ++ rest))) = str_len (pre ++ [c_percent])) as Ec.
      { unfold current_pos, peek. simpl. by rewrite str_len_app. }
      rewrite Ec.
      destruct (parser_string_spec _ _ [c_percent] t rest 1 Hq) as (p2 & -> & Hp2);
        [done|done|by right|]. rewrite <- app_assoc in Hp2.
      exists p2, (c_percent :: c_percent :: t), rest, (PieceString (c_percent :: t)).
      split_and!; try done; [by apply of_escape|by left].
  - destruct (cut_text (ch :: s)) as (t & rest & Es & Ht & Hst).
    destruct (parser_string_spec p pre [] t rest 0) as (p2 & -> & Hp2);
      [simpl; by rewrite <- Es|done|done|by left|].
    exists p2, t, rest, (PieceString t).
    assert (t ≠ []) as Hte.
    { intros ->. simpl in Es. subst rest. destruct Hst as [|Hst]; [done|]. simpl in Hst. congruence. }
    split_and!; try done; [by constructor|by left].
Qed.

(** ** A format string is read in one way *)

Lemma text_cut_unique t rest t' rest' :
  no_percent t → stops rest → no_percent t' → stops rest' → t ++ rest = t' ++ rest' →
  t = t' ∧ rest = rest'.
Proof.
  intros Ht Hr Ht' Hr'. revert t' Ht'. induction Ht as [|c t Hc Ht IH]; intros t' Ht' E.
  - destruct Ht' as [|c' t' Hc' Ht']; [done|]. simpl in E. subst rest.
    destruct Hr as [|Hr]; simplify_eq/=.
  - destruct Ht' as [|c' t' Hc' Ht']; simpl in E.
    + subst rest'. destruct Hr' as [|Hr']; simplify_eq/=.
    + injection E as -> E. by destruct (IH t' Ht' E) as [-> ->].
Qed.

Lemma digit_not_simple c : is_ascii_digit c = true → simple_spec c = None ∧ c ≠ c_percent.
Proof. unfold is_ascii_digit, simple_spec, c_percent. intros. repeat case_bool; lia || done || (split; [done|lia]). Qed.

Lemma spec_text_unique body spec body' spec' k k' :
  spec_text body spec → spec_text body' spec' → body ++ k = body' ++ k' →
  body = body' ∧ spec = spec'.
Proof.
  assert (∀ c spec ds k k', simple_spec c = Some spec → ds ≠ [] →
    Forall (λ c, is_ascii_digit c = true) ds → [c] ++ k = (ds ++ [101]) ++ k' → False) as Hmix.
  { intros c sp ds l l' Hc Hne Hd E. destruct Hd as [|d ds Hd _]; [done|]. simplify_eq/=.
    apply digit_not_simple in Hd as [Hd _]. congruence. }
  intros [c sp Hc|ds Hne Hd] [c' sp' Hc'|ds' Hne' Hd'] E.
  - by simplify_eq/=.
  - exfalso. by eapply Hmix.
  - exfalso. by eapply (Hmix c').
  - rewrite <- !app_assoc in E. simpl in E.
    by destruct (digit_not_e ds (101 :: k) Hd eq_refl ds' k' Hd' E) as [-> _].
Qed.

Lemma spec_text_head body spec : spec_text body spec → head body ≠ Some c_percent ∧ body ≠ [].
Proof.
  intros [c sp Hc|ds Hne Hd]; [split; [|done]; by intros [= ->]|].
  destruct Hd as [|d ds Hd _]; [done|]. split; [|done]. simpl. intros [= ->]. by vm_compute in Hd.
Qed.

Lemma piece_unique src rest piece src' rest' piece' :
  piece_of src rest piece → piece_of src' rest' piece' → src ++ rest = src' ++ rest' →
  src = src' ∧ rest = rest' ∧ piece = piece'.
Proof.
  assert (∀ src rest piece, piece_of src rest piece → ∀ src' rest' piece', piece_of src' rest' piece' →
    src ++ rest = src' ++ rest' → src = src' ∧ piece = piece') as H.
  { clear. intros ? ? ? [t rest Hn Ht Hr|t rest Ht Hr|b sp rest Hb|t rest Ht Hr Hn Hs];
      intros ? ? ? [t' rest' Hn' Ht' Hr'|t' rest' Ht' Hr'|b' sp' rest' Hb'|t' rest' Ht' Hr' Hn' Hs'] E;
      try (destruct Ht; [done|]; simplify_eq/=; done);
      try (destruct Ht'; [done|]; simplify_eq/=; done); simplify_eq/=.
    all: try (by destruct (text_cut_unique t rest t' rest') as [-> ->]).
    - apply spec_text_head in Hb' as [Hh He]. destruct b'; simplify_eq/=.
    - destruct Ht' as [|c t' Hc]; simplify_eq/=. by specialize (Hn' eq_refl).
    - apply spec_text_head in Hb as [Hh He]. destruct b; simplify_eq/=.
    - by destruct (spec_text_unique b sp b' sp' rest rest') as [-> ->].
    - by destruct (Hs' b sp rest Hb).
    - destruct Ht as [|c t Hc]; simplify_eq/=. by specialize (Hn eq_refl).
    - by destruct (Hs b' sp' rest' Hb'). }
  intros H1 H2 E. destruct (H _ _ _ H1 _ _ _ H2 E) as [-> ->]. split_and!; [done| |done].
  by simplify_list_eq.
Qed.

Lemma piece_nonempty src rest piece : piece_of src rest piece → src ≠ [].
Proof. by destruct 1. Qed.

Lemma parses_unique s l l' : parses s l → parses s l' → l = l'.
Proof.
  intros H. revert l'. induction H as [|src rest piece l Hp _ IH]; intros l' H'.
  - inversion H' as [|src ? ? ? Hp]; [done|]. apply piece_nonempty in Hp. by destruct src.
  - inversion H' as [E|src' rest' piece' l2 Hp' Hl2 E]; subst.
    + apply piece_nonempty in Hp. by destruct src.
    + destruct (piece_unique _ _ _ _ _ _ Hp Hp' (eq_sym E)) as (_ & -> & ->).
      f_equal. by apply IH.
Qed.

(** *** Misprinted specifiers *)

Lemma misprinted_app src rest piece :
  piece_of src rest piece → misprinted (src ++ rest) ↔ ¬ printed piece src ∨ misprinted rest.
Proof.
  intros Hp. split.
  - intros Hm. inversion Hm as [body spec rest' Hb Hn E|src' rest' piece' Hp' Hm' E].
    + destruct (piece_unique (c_percent :: body) rest' (NextArgument spec) src rest piece) as (<- & _ & <-);
        [by constructor|done|done|by left].
    + destruct (piece_unique _ _ _ _ _ _ Hp' Hp E) as (_ & -> & _). by right.
  - intros [Hn|Hm]; [|by eapply misprinted_later].
    destruct Hp as [t k _ _ _|t k _ _|body spec k Hs|t k _ _ _ _]; simpl in Hn; try tauto.
    by apply misprinted_here with spec.
Qed.

Lemma misprinted_nil : ¬ misprinted [].
Proof.
  intros Hm. inversion Hm as [|src rest piece Hp _ E]. apply piece_nonempty in Hp. by destruct src.
Qed.

Lemma pieces_loop debug fuel p pre s acc :
  at_rest p pre s → (length s < fuel)%nat →
  ∃ l, parses s l ∧
    (run fuel (pieces_body debug) (p, acc) = Ret (acc ++ l) ∧ (debug = true → ¬ misprinted s) ∨
     run fuel (pieces_body debug) (p, acc) = Panic ∧ debug = true ∧ misprinted s).
Proof.
  revert p pre s acc. induction fuel as [|fuel IH]; intros p pre s acc Hp Hf; [lia|]. simpl.
  destruct (decide (s = [])) as [->|Hne].
  - exists []. unfold parser_next, peek. rewrite (proj2 Hp). simpl. rewrite app_nil_r.
    split; [constructor|left]. split; [done|]. intros _. apply misprinted_nil.
  - destruct (parser_next_spec debug p pre s Hp Hne)
      as (p' & src & rest & piece & -> & Hsrc & Hpc & Hp' & Hnext).
    destruct (IH p' (pre ++ src) rest (acc ++ [piece]) Hp') as (l & Hl & Hrun).
    { rewrite length_app in Hf. destruct src; simpl in *; [done|lia]. }
    exists (piece :: l). split; [by constructor|]. rewrite (misprinted_app _ _ _ Hpc).
    destruct Hnext as [[-> Hpr]|(-> & Hd & Hpr)]; simpl; [|by auto].
    rewrite <- app_assoc in Hrun. simpl in Hrun. destruct Hrun as [[-> Hm]|(-> & Hd & Hm)]; [left|by auto].
    split; [done|]. intros Hd [H|H]; [by apply H, Hpr|by apply Hm].
Qed.

Lemma pieces_spec debug s :
  ∃ l, parses s l ∧ (pieces debug s = Ret l ∧ (debug = true → ¬ misprinted s) ∨
                     pieces debug s = Panic ∧ debug = true ∧ misprinted s).
Proof. apply (pieces_loop debug (S (length s)) (parser_new s) [] s []); [done|lia]. Qed.

(** ** Numbers *)

Lemma trim_end_digits r l :
  in_base r l →
  ∃ z l', l = l' ++ replicate z 0 ∧ last l' ≠ Some 0 ∧
    trim_end (digit_char <$> l) = digit_char <$> l'.
Proof.
  intros Hl. assert (∀ k : list Z, rev k = reverse k) as Hrev by (intros k; apply rev_alt).
  destruct (trim_start_digits r (reverse l)) as (z & l' & E & Hh & Et); [by apply Forall_reverse|].
  exists z, (reverse l'). split_and!.
  - by rewrite <- (reverse_involutive l), E, reverse_app, reverse_replicate.
  - by rewrite last_reverse.
  - unfold trim_end. by rewrite !Hrev, <- fmap_reverse, Et, fmap_reverse.
Qed.

Lemma pad_zeros_digits w l :
  pad_zeros w (digit_char <$> l) = digit_char <$> (replicate (w - length l) 0 ++ l).
Proof. unfold pad_zeros. by rewrite length_fmap, fmap_app, fmap_replicate. Qed.

(** Decimals padded to [w] places, without the zeros at their end. *)
Lemma decimals_spec w m :
  0 ≤ m < 10 ^ Z.of_nat w →
  ∃ d, trim_end (pad_zeros w (show_radix 10 m)) = digit_char <$> d ∧ in_base 10 d ∧
    last d ≠ Some 0 ∧ (length d ≤ w)%nat ∧
    digits_value 10 d * 10 ^ (Z.of_nat w - Z.of_nat (length d)) = m.
Proof.
  intros Hm. destruct (digits_spec 10 ltac:(lia) m) as [B V L]; [lia|].
  pose proof (is_digits_lower 10 ltac:(lia) m _ {| id_base := B; id_value := V; id_lead := L |}) as Hlow.
  unfold show_radix. rewrite pad_zeros_digits. set (l := digits 10 m) in *.
  assert (in_base 10 (replicate (w - length l) 0 ++ l)) as Hb.
  { apply Forall_app. split; [|done]. apply Forall_replicate. lia. }
  destruct (trim_end_digits 10 _ Hb) as (z & d & E & Hlast & Et). exists d.
  pose proof (digits_leading 10 (w - length l) l) as Hv. rewrite V, E, digits_zeros in Hv by lia.
  rewrite E in Hb. apply Forall_app in Hb as [Hb _]. pose proof (digits_value_bound 10 ltac:(lia) d Hb).
  assert (length (replicate (w - length l) 0 ++ l) = length (d ++ replicate z 0)) as Elen by (by f_equal).
  rewrite !length_app, !length_replicate in Elen.
  destruct (decide (m = 0)) as [->|Hm0].
  - assert (digits_value 10 d = 0) as Hd0 by nia. destruct d as [|x d _] using rev_ind.
    + rewrite Et. split_and!; try done. simpl. lia.
    + exfalso. rewrite digits_value_snoc in Hd0 by lia. rewrite last_snoc in Hlast.
      apply Forall_app in Hb as [Hb Hx]. inversion Hx; subst.
      pose proof (digits_value_bound 10 ltac:(lia) d Hb). apply Hlast. f_equal. lia.
  - assert (length l ≤ w)%nat as Hlw.
    { specialize (Hlow Hm0). assert (Z.of_nat (length l) - 1 < Z.of_nat w); [|lia].
      apply (Z.pow_lt_mono_r_iff 10); lia. }
    rewrite Et. split_and!; try done; [lia|].
    by replace (Z.of_nat w - Z.of_nat (length d)) with (Z.of_nat z) by lia.
Qed.

Lemma decimal_notation_spec i m w :
  0 ≤ i → 0 ≤ m < 10 ^ Z.of_nat w →
  ∃ d, decimal_notation i m w = show_radix 10 i ++ (if decide (d = []) then [] else 46 :: (digit_char <$> d)) ∧
    in_base 10 d ∧ last d ≠ Some 0 ∧ (length d ≤ w)%nat ∧
    digits_value 10 d * 10 ^ (Z.of_nat w - Z.of_nat (length d)) = m.
Proof.
  intros Hi Hm. destruct (decimals_spec w m Hm) as (d & Ed & Hd). exists d. split; [|done].
  unfold decimal_notation. rewrite Ed. destruct d; csimpl; by rewrite ?app_nil_r.
Qed.

(** Powers of ten that fit into 256 bits. *)
Lemma pow10_fits p : 0 ≤ p ≤ 77 → wrap 256 (10 ^ p) = 10 ^ p.
Proof.
  intros Hp. apply wrap_small. unfold is_u, umax.
  assert (10 ^ p ≤ 10 ^ 77) by (apply Z.pow_le_mono_r; lia).
  assert (10 ^ 77 ≤ 2 ^ 256 - 1) by (vm_compute; discriminate). pose proof (Z.pow_nonneg 10 p). lia.
Qed.

Lemma pow10_vanishes p : 256 ≤ p → wrap 256 (10 ^ p) = 0.
Proof.
  intros Hp. unfold wrap. replace (10 ^ p) with (2 ^ (p - 256) * 5 ^ p * 2 ^ 256).
  - by rewrite Z.mod_mul.
  - replace 10 with (2 * 5) by done. rewrite Z.pow_mul_l. replace p with (p - 256 + 256) at 3 by lia.
    rewrite Z.pow_add_r by lia. lia.
Qed.

(** ** Properties *)

(** C39: every format string has exactly one reading in the grammar: specifiers,
    escaped percent signs, text up to the next percent sign, and percent signs
    that start none of these.  The parser ends, and cuts the string into the
    pieces of that reading, but for one case: with debug assertions it panics
    exactly when a specifier of the reading would be printed differently than it
    is written, as one whose precision has leading zeros. *)
Theorem pieces_correct (debug : bool) (s : Str) :
  ∃ l, (∀ l', parses s l' ↔ l' = l) ∧
    (pieces debug s = Ret l ↔ ¬ (debug = true ∧ misprinted s)) ∧
    (pieces debug s = Panic ↔ debug = true ∧ misprinted s).
Proof.
  destruct (pieces_spec debug s) as (l & Hl & H). exists l. split.
  - intros l'. split; [|by intros ->]. intros H'. by eapply parses_unique.
  - destruct H as [[-> Hm]|(-> & Hd & Hm)]; (split; split); intuition congruence.
Qed.

Section console_claims.
Context (pretty_address : Z → Str) (pretty_bytes : list Z → Str).
Abbreviation formatted debug := (console_format pretty_address pretty_bytes debug).

(** Neither an escape nor a precision occurs. *)
Definition literal_spec (s : Str) : Prop :=
  ∀ a c b, s = a ++ c_percent :: c :: b → c ≠ c_percent ∧ is_ascii_digit c = false.

Lemma literal_suffix src rest : literal_spec (src ++ rest) → literal_spec rest.
Proof. intros H a c b E. apply (H (src ++ a) c b). by rewrite E, <- app_assoc. Qed.

Lemma literal_piece src rest piece :
  literal_spec (src ++ rest) → piece_of src rest piece →
  match piece with PieceString t => t = src | NextArgument spec => show_spec spec = src end.
Proof.
  intros Hl Hp. revert Hl. destruct Hp as [t k _ _ _|t k _ _|body spec k Hs|t k _ _ _ _]; intros Hl; try done.
  - destruct (Hl [] c_percent (t ++ k) eq_refl) as [? _]. done.
  - destruct Hs as [c spec Hc|ds Hne Hd].
    + unfold simple_spec in Hc.
      repeat match type of Hc with context [?a =? ?b] => destruct (Z.eqb_spec a b) as [->|?] end;
        by simplify_eq.
    + destruct Hd as [|d ds Hd _]; [done|].
      destruct (Hl [] d ((ds ++ [101]) ++ k) eq_refl) as [_ ?]. congruence.
Qed.

Lemma literal_fold s l text :
  parses s l → literal_spec s →
  foldM (format_piece pretty_address pretty_bytes) ([], text) l = Ret ([], text ++ s).
Proof.
  intros Hp. revert text. induction Hp as [|src rest piece l Hp _ IH]; intros text Hl; simpl.
  - by rewrite app_nil_r.
  - pose proof (literal_piece _ _ _ Hl Hp) as Hpc. apply literal_suffix in Hl.
    destruct piece; simpl; rewrite IH by done; by rewrite Hpc, <- app_assoc.
Qed.

Lemma literal_printed s : literal_spec s → ¬ misprinted s.
Proof.
  intros Hl Hm. revert Hl. induction Hm as [body spec rest Hb Hn|src rest piece Hp _ IH]; intros Hl.
  - apply Hn. apply (literal_piece (c_percent :: body) rest (NextArgument spec) Hl). by constructor.
  - by eapply IH, literal_suffix.
Qed.

(** Without values, a format string without escapes and precisions is printed
    as it is. *)
Theorem unused_specs_kept (debug : bool) (s : Str) : literal_spec s → formatted debug s [] = Ret s.
Proof.
  intros Hl. destruct (pieces_spec debug s) as (l & Hp & [[E _]|(_ & _ & Hm)]);
    [|by apply literal_printed in Hm]. unfold console_format.
  destruct s as [|c s]; [done|]. unfold format_spec. rewrite E, bind_Ret.
  by rewrite (literal_fold _ _ [] Hp Hl).
Qed.

End console_claims.

(** The text of a number with decimals [d]. *)
Definition decimal_text (i : Z) (d : list Z) : Str :=
  show_radix 10 i ++ (if decide (d = []) then [] else 46 :: (digit_char <$> d)).

(** The digits [i] and the decimals [d] denote [n] divided by ten to the [e], and
    no decimal is superfluous. *)
Record denotes (n e i : Z) (d : list Z) : Prop := {
  dn_base : in_base 10 d;
  dn_last : last d ≠ Some 0;
  dn_places : Z.of_nat (length d) ≤ e;
  dn_value : i * 10 ^ e + digits_value 10 d * 10 ^ (e - Z.of_nat (length d)) = n
}.

Lemma decimal_notation_denotes n w :
  0 ≤ n →
  ∃ d, decimal_notation (n / 10 ^ Z.of_nat w) (n mod 10 ^ Z.of_nat w) w =
      decimal_text (n / 10 ^ Z.of_nat w) d ∧ denotes n (Z.of_nat w) (n / 10 ^ Z.of_nat w) d.
Proof.
  intros Hn. assert (0 < 10 ^ Z.of_nat w) as Hpos by (apply Z.pow_pos_nonneg; lia).
  destruct (decimal_notation_spec (n / 10 ^ Z.of_nat w) (n mod 10 ^ Z.of_nat w) w)
    as (d & -> & D1 & D2 & D3 & D4); [apply Z.div_pos; lia|apply Z.mod_pos_bound; lia|].
  exists d. split; [done|]. split; try done; [lia|]. rewrite D4.
  pose proof (Z.div_mod n (10 ^ Z.of_nat w) ltac:(lia)). lia.
Qed.

(** The exponent of a 256-bit number. *)
Lemma exponent_bounds n :
  0 ≤ n < 2 ^ 256 →
  let w := Z.of_nat (length (show_radix 10 n) - 1) in
  0 ≤ w ≤ 77 ∧ n < 10 ^ w * 10 ∧ (n ≠ 0 → 10 ^ w ≤ n).
Proof.
  intros Hn. destruct (digits_spec 10 ltac:(lia) n) as [B V L]; [lia|].
  pose proof (is_digits_lower 10 ltac:(lia) n _ {| id_base := B; id_value := V; id_lead := L |}) as Hlow.
  pose proof (digits_value_bound 10 ltac:(lia) _ B) as [_ Hup]. rewrite V in Hup.
  unfold show_radix. rewrite length_fmap. set (l := digits 10 n) in *.
  assert (1 ≤ length l)%nat by (destruct L as (? & ? & -> & _); simpl; lia).
  replace (Z.of_nat (length l)) with (Z.of_nat (length l - 1) + 1) in * by lia.
  rewrite Z.add_simpl_r in Hlow. rewrite Z.pow_add_r in Hup by lia. split_and!; [lia| |lia|done].
  destruct (decide (n = 0)) as [->|Hn0]; [vm_compute; discriminate|]. specialize (Hlow Hn0).
  enough (Z.of_nat (length l - 1) < 78) by lia. apply (Z.pow_lt_mono_r_iff 10); [lia..|].
  assert (2 ^ 256 < 10 ^ 78) by (vm_compute; reflexivity). lia.
Qed.

(** What is printed for a number with [%<p>e], [p] at most 77, denotes the number
    divided by ten to the [p], exactly and without trailing zeros; with [%e], it
    is in scientific notation: one digit before the point, which is not zero
    unless the number is, and an exponent. *)
Theorem exponential_denotes (n : Z) :
  0 ≤ n < 2 ^ 256 →
  (∀ p, 0 ≤ p ≤ 77 →
     ∃ i d, fmt_u256 n (FsExponential (Some p)) = Ret (decimal_text i d) ∧ denotes n p i d) ∧
  (∃ i d e, fmt_u256 n (FsExponential None) = Ret (decimal_text i d ++ 101 :: show_radix 10 e) ∧
     denotes n e i d ∧ 0 ≤ i ≤ 9 ∧ (n ≠ 0 → i ≠ 0)).
Proof.
  intros Hn. split.
  - intros p Hp. simpl. rewrite pow10_fits by lia.
    assert (0 < 10 ^ p) by (apply Z.pow_pos_nonneg; lia). rewrite (proj2 (Z.eqb_neq _ 0)) by lia.
    destruct (decimal_notation_denotes n (Z.to_nat p)) as (d & E & Hd); [lia|].
    rewrite Z2Nat.id in E, Hd by lia. rewrite E. eauto.
  - simpl. destruct (exponent_bounds n Hn) as (Hw & Hup & Hlow).
    set (w := (length (show_radix 10 n) - 1)%nat) in *. rewrite pow10_fits by lia.
    assert (0 < 10 ^ Z.of_nat w) by (apply Z.pow_pos_nonneg; lia). rewrite (proj2 (Z.eqb_neq _ 0)) by lia.
    destruct (decimal_notation_denotes n w) as (d & -> & Hd); [lia|].
    exists (n / 10 ^ Z.of_nat w), d, (Z.of_nat w).
    pose proof (Z.div_mod n (10 ^ Z.of_nat w) ltac:(lia)).
    pose proof (Z.mod_pos_bound n (10 ^ Z.of_nat w) ltac:(lia)).
    split_and!; try done; [apply Z.div_pos; lia|apply Z.lt_succ_r, Z.div_lt_upper_bound; lia|].
    intros Hn0 E. rewrite E in *. specialize (Hlow Hn0). lia.
Qed.

(** A precision of 256 or more panics: ten to that power is zero in 256 bits. *)
Theorem large_precision_panics (n p : Z) : 256 ≤ p → fmt_u256 n (FsExponential (Some p)) = Panic.
Proof. intros Hp. simpl. by rewrite pow10_vanishes. Qed.

(** ** Runs *)

Definition ex_format (s : string) (values : list ConsoleValue) : outcome Str :=
  console_format (λ _, []) (λ _, []) false (str s) values.

Example format_examples :
  ex_format "foo %s %%s %s and %d foo %%" [CvString (str "bar"); CvBool true; CvU256 21]
    = Ret (str "foo bar %s true and 21 foo %") ∧
  ex_format "%5d%3e%2f%3f%e1" [CvU256 123456789] = Ret (str "%5d123456.789%2f%3f%e1") ∧
  ex_format "%e" [CvU256 1002300] = Ret (str "1.0023e6").
Proof. vm_compute. by split_and!. Qed.

(** A specifier without a value is not printed as it was when its precision has
    leading zeros or does not fit into 64 bits. *)
Example precision_rewritten :
  ex_format "%018e" [] = Ret (str "%18e") ∧
  ex_format "%99999999999999999999e" [] = Ret (str "%e").
Proof. vm_compute. by split. Qed.

(** With debug assertions such a specifier is a panic, without them the parser
    reads it. *)
Lemma pieces_correct_witness :
  pieces true (str "%018e") = Panic ∧
  pieces false (str "%018e") = Ret [NextArgument (FsExponential (Some 18))] ∧
  parses (str "%018e") [NextArgument (FsExponential (Some 18))].
Proof.
  destruct (pieces_correct true (str "%018e")) as (l & Hl & _ & Hp).
  assert (parses (str "%018e") [NextArgument (FsExponential (Some 18))]) as H.
  { apply (parses_cons (str "%018e") []); [|constructor].
    apply (of_spec (str "018e") (FsExponential (Some 18)) []).
    apply (spec_exponential (str "018")); [done|]. by repeat constructor. }
  split_and!; [|by vm_compute|exact H]. apply Hp. split; [done|].
  apply (misprinted_here (str "018e") (FsExponential (Some 18)) []).
  - apply (spec_exponential (str "018")); [done|]. by repeat constructor.
  - by vm_compute.
Defined.

(** Zero has no digits in hexadecimal. *)
Example zero_hex_empty : ex_format "%x" [CvU256 0] = Ret (str "0x").
Proof. by vm_compute. Qed.

Lemma exponential_denotes_witness :
  ∃ i d, fmt_u256 1002300 (FsExponential (Some 3)) = Ret (decimal_text i d) ∧ denotes 1002300 3 i d.
Proof.
  destruct (exponential_denotes 1002300 ltac:(split; [discriminate|reflexivity])) as [H _].
  apply H. split; discriminate.
Defined.
