(* ===== verification/CastBase.v ===== *)
(** * Numbers with a base (crates/cast/src/base.rs)

    [cast] reads numbers in base 2, 8, 10 or 16, with or without a prefix and a
    sign, and prints them in another base.  A number is kept as 256 bits, in two's
    complement if it is negative.  Strings are lists of code points; the reading
    of a 256-bit number in a base belongs to the crate ruint and is the parameter
    [ParseRadix]. *)

From stdpp Require Import prelude list strings.
From S2P Require Import Prelude FmtText FmtConfig Digits.

Open Scope Z_scope.

(** [U256::from_str_radix]: the digits of the base, letters of either case,
    underscores ignored.  [None] for an error. *)
Class ParseRadix := {
  u256_from_str_radix : Str → Z → option Z
}.

(** A number of the base is read if it fits into 256 bits, and another character
    is an error. *)
Class ParseRadixLaws {pr : ParseRadix} : Prop := {
  radix_reads : ∀ r s l, 2 ≤ r ≤ 36 → s ≠ [] → read_digits r s = Some l →
    u256_from_str_radix s r =
      if digits_value r l <? 2 ^ 256 then Some (digits_value r l) else None;
  radix_rejects : ∀ r s c, 2 ≤ r ≤ 36 → c ∈ s → char_digit r c = None → c ≠ 95 →
    u256_from_str_radix s r = None
}.

Inductive Base : Type := Binary | Octal | Decimal | Hexadecimal.

#[export] Instance base_eq_dec : EqDecision Base.
Proof. solve_decision. Defined.

(** [Base as u32]. *)
Definition radix (b : Base) : Z :=
  match b with Binary => 2 | Octal => 8 | Decimal => 10 | Hexadecimal => 16 end.

Definition prefix (b : Base) : Str :=
  match b with
  | Binary => str "0b" | Octal => str "0o" | Decimal => [] | Hexadecimal => str "0x"
  end.

(** [to_lowercase]: only letters of ASCII occur in the names it is compared
    with. *)
Definition to_lowercase (s : Str) : Str :=
  (λ c, if (65 <=? c) && (c <=? 90) then c + 32 else c) <$> s.

Definition base_from_str (s : Str) : option Base :=
  let s := to_lowercase s in
  let is_one_of l := bool_decide (s ∈ (str <$> l)) in
  if is_one_of ["2"; "b"; "bin"; "binary"]%string then Some Binary
  else if is_one_of ["8"; "o"; "oct"; "octal"]%string then Some Octal
  else if is_one_of ["10"; "d"; "dec"; "decimal"]%string then Some Decimal
  else if is_one_of ["16"; "h"; "hex"; "hexadecimal"]%string then Some Hexadecimal
  else None.

Definition base_try_from_u32 (n : Z) : option Base :=
  if n =? 2 then Some Binary else if n =? 8 then Some Octal
  else if n =? 10 then Some Decimal else if n =? 16 then Some Hexadecimal else None.

(** [low_u32] of a signed number, [saturating_to] of an unsigned one. *)
Definition base_try_from_i256 (n : Z) : option Base := base_try_from_u32 (wrap 32 n).
Definition base_try_from_u256 (n : Z) : option Base := base_try_from_u32 (Z.min n (umax 32)).

(** [u64::from_str_radix]: the kind of its error. *)
Inductive IntErrorKind : Type := KindEmpty | KindInvalidDigit | KindPosOverflow.

Fixpoint u64_digits (r acc : Z) (s : Str) : result Z IntErrorKind :=
  match s with
  | [] => Ok acc
  | c :: s =>
      match char_digit r c with
      | None => Err KindInvalidDigit
      | Some d =>
          if umax 64 <? acc * r + d then Err KindPosOverflow else u64_digits r (acc * r + d) s
      end
  end.

Definition c_plus : Char := 43.
Definition c_minus : Char := 45.

Definition u64_from_str_radix (s : Str) (r : Z) : result Z IntErrorKind :=
  match s with
  | [] => Err KindEmpty
  | [c] => if (c =? c_plus) || (c =? c_minus) then Err KindInvalidDigit else u64_digits r 0 s
  | c :: rest => u64_digits r 0 (if c =? c_plus then rest else s)
  end.

(** A value with a prefix has the base of the prefix if it has its digits; one
    that is too large counts as well. *)
Definition prefixed (b : Base) (s : Str) : option Base :=
  match u64_from_str_radix s (radix b) with
  | Ok _ | Err KindPosOverflow => Some b
  | Err _ => None
  end.

Section base.
Context {pr : ParseRadix}.

Definition detect_unsigned (s : Str) : option Base :=
  if bool_decide (take 2 s = prefix Binary) then prefixed Binary (drop 2 s)
  else if bool_decide (take 2 s = prefix Octal) then prefixed Octal (drop 2 s)
  else if bool_decide (take 2 s = prefix Hexadecimal) then prefixed Hexadecimal (drop 2 s)
  else
    match u256_from_str_radix s 10 with
    | Some _ => Some Decimal
    | None => match u256_from_str_radix s 16 with Some _ => Some Hexadecimal | None => None end
    end.

(** [detect] ignores all signs at the front. *)
Fixpoint detect (s : Str) : option Base :=
  match s with
  | c :: rest => if (c =? c_plus) || (c =? c_minus) then detect rest else detect_unsigned s
  | [] => detect_unsigned []
  end.

Definition unwrap_or_detect (base : option Str) (s : Str) : option Base :=
  match base with
  | Some base => base_from_str base
  | None => detect s
  end.

(** ** [NumberWithBase] *)

Record NumberWithBase := {
  number : Z;
  is_nonnegative : bool;
  nb_base : Base
}.

Definition from_u256 (n : Z) : NumberWithBase :=
  {| number := n; is_nonnegative := true; nb_base := Decimal |}.
Definition from_i256 (n : Z) : NumberWithBase :=
  {| number := wrap 256 n; is_nonnegative := 0 <=? n; nb_base := Decimal |}.
Definition with_base (n : NumberWithBase) (b : Base) : NumberWithBase :=
  {| number := number n; is_nonnegative := is_nonnegative n; nb_base := b |}.

Definition get_sign (s : Str) : Str * bool :=
  match s with
  | c :: rest =>
      if c =? c_plus then (rest, true) else if c =? c_minus then (rest, false) else (s, true)
  | [] => ([], true)
  end.

(** A prefix of any base is dropped, whatever the base. *)
Definition strip_prefix (s : Str) : Str :=
  if bool_decide (take 2 s ∈ str <$> ["0x"; "0X"; "0o"; "0O"; "0b"; "0B"]%string) then drop 2 s
  else s.

Definition parse_uint_in (s : Str) (b : Base) : option Z :=
  u256_from_str_radix (strip_prefix s) (radix b).

(** [(!n).overflowing_add(1)] for a negative sign. *)
Definition parse_int_in (s : Str) (b : Base) : option (Z * bool) :=
  let '(s, positive) := get_sign s in
  n ← parse_uint_in s b;
  Some (if positive then n else wrap 256 (umax 256 - n + 1), positive).

Definition parse_int (s : Str) (base : option Str) : option NumberWithBase :=
  b ← unwrap_or_detect base s;
  '(n, positive) ← parse_int_in s b;
  Some {| number := n; is_nonnegative := positive; nb_base := b |}.

Definition parse_uint (s : Str) (base : option Str) : option NumberWithBase :=
  b ← unwrap_or_detect base s;
  n ← parse_uint_in s b;
  Some {| number := n; is_nonnegative := true; nb_base := b |}.

(** [I256::from_raw(n).to_string()] without its sign. *)
Definition magnitude (n : Z) : Z := if n <? 2 ^ 255 then n else 2 ^ 256 - n.

Definition format (n : NumberWithBase) : Str :=
  let s :=
    match nb_base n with
    | Decimal => show_radix 10 (if is_nonnegative n then number n else magnitude (number n))
    | b => show_radix (radix b) (number n)
    end in
  trim_start s.

(** [Debug::fmt], with [alternate] for the flag [#]: [pad_integral] writes the
    sign, the prefix if the flag is set, and the digits. *)
Definition debug_fmt (alternate : bool) (n : NumberWithBase) : Str :=
  let pre := if alternate then prefix (nb_base n) else [] in
  if number n =? 0 then pre ++ str "0"
  else
    let nonnegative := match nb_base n with Decimal => is_nonnegative n | _ => true end in
    (if nonnegative then [] else [c_minus]) ++ pre ++ format n.

(** [ToBase]: of a number and of a string. *)
Definition to_base (n : NumberWithBase) (b : Base) (add_prefix : bool) : Str :=
  debug_fmt add_prefix (with_base n b).

Definition str_to_base (s : Str) (b : Base) (add_prefix : bool) : option Str :=
  n ← parse_int s None;
  Some (to_base n b add_prefix).
End base.

(** ** Reading what was printed *)

Section base_spec.
Context {pr : ParseRadix} {laws : ParseRadixLaws}.

Lemma radix_range b : 2 ≤ radix b ≤ 36.
Proof. destruct b; simpl; lia. Qed.

(** The characters of a number. *)
Lemma shown_chars r v c : 2 ≤ r ≤ 36 → 0 ≤ v → c ∈ show_radix r v →
  48 ≤ c ∧ c ≠ c_plus ∧ c ≠ c_minus ∧ (r ≤ 10 → c ≤ 57).
Proof.
  intros Hr Hv (d & -> & Hd)%list_elem_of_fmap. destruct (digits_spec r Hr v Hv) as [B _ _].
  apply (proj1 (Forall_forall _ _) B) in Hd. unfold digit_char, c_plus, c_minus. case_bool; lia.
Qed.

Lemma shown_nonempty r v : 2 ≤ r ≤ 36 → 0 ≤ v → ∃ c s, show_radix r v = c :: s.
Proof.
  intros Hr Hv. destruct (digits_spec r Hr v Hv) as [_ _ (d & l & E & _)]. unfold show_radix.
  rewrite E. csimpl. eauto.
Qed.

Lemma u64_digits_valid r s acc l :
  read_digits r s = Some l → (∃ n, u64_digits r acc s = Ok n) ∨ u64_digits r acc s = Err KindPosOverflow.
Proof.
  intros Hs%mapM_Some. revert acc. induction Hs as [|c d s l Hc _ IH]; intros acc; simpl; [eauto|].
  rewrite Hc. case_bool; [by right|apply IH].
Qed.

Lemma prefixed_shown b v : 0 ≤ v → prefixed b (show_radix (radix b) v) = Some b.
Proof.
  intros Hv. unfold prefixed, u64_from_str_radix. pose proof (radix_range b) as Hr.
  destruct (shown_nonempty (radix b) v Hr Hv) as (c & s & E).
  destruct (digits_spec (radix b) Hr v Hv) as [B _ _].
  pose proof (read_shown (radix b) Hr _ B) as Hread. fold (show_radix (radix b) v) in Hread.
  destruct (shown_chars (radix b) v c Hr Hv) as (_ & H1 & H2 & _); [rewrite E; by left|].
  rewrite E in *. rewrite (proj2 (Z.eqb_neq c c_plus)), (proj2 (Z.eqb_neq c c_minus)) by done.
  destruct (u64_digits_valid (radix b) (c :: s) 0 _ Hread) as [[n Hn]|Hn]; destruct s; simpl orb; cbv iota;
    by rewrite Hn.
Qed.

Lemma radix_shown b v :
  0 ≤ v < 2 ^ 256 → u256_from_str_radix (show_radix (radix b) v) (radix b) = Some v.
Proof.
  intros Hv. pose proof (radix_range b) as Hr. destruct (digits_spec (radix b) Hr v) as [B V _]; [lia|].
  destruct (shown_nonempty (radix b) v Hr ltac:(lia)) as (c & s & E).
  rewrite (radix_reads (radix b) _ (digits (radix b) v)); [|done|by rewrite E|by apply read_shown].
  rewrite V, (proj2 (Z.ltb_lt _ _)) by lia. done.
Qed.

(** No prefix in a decimal number. *)
Lemma decimal_prefix v c : 0 ≤ v → 57 < c → take 2 (show_radix 10 v) ≠ [48; c].
Proof.
  intros Hv Hc E. assert (c ∈ show_radix 10 v) as Hin.
  { apply (subseteq_take 2). rewrite E. by right; left. }
  apply shown_chars in Hin; lia.
Qed.

Lemma detect_shown b v :
  0 ≤ v < 2 ^ 256 → detect_unsigned (prefix b ++ show_radix (radix b) v) = Some b.
Proof.
  intros Hv. pose proof (prefixed_shown b v ltac:(lia)) as Hp. unfold detect_unsigned. destruct b; [done|done| |done].
  simpl app. rewrite !bool_decide_false by (apply decimal_prefix; [lia|by vm_compute]).
  by rewrite (radix_shown Decimal v Hv : u256_from_str_radix (show_radix 10 v) 10 = _).
Qed.

Lemma parse_shown b v :
  0 ≤ v < 2 ^ 256 → parse_uint_in (prefix b ++ show_radix (radix b) v) b = Some v.
Proof.
  intros Hv. pose proof (radix_shown b v Hv) as Hr. unfold parse_uint_in, strip_prefix.
  destruct b; [done|done| |done]. simpl app. rewrite bool_decide_false; [done|].
  intros (s & E & Hs)%list_elem_of_fmap.
  repeat (apply elem_of_cons in Hs as [->|Hs]; [by eapply decimal_prefix; [..|exact E]; [lia|by vm_compute]|]).
  by apply elem_of_nil in Hs.
Qed.

(** The text of an unsigned number starts with a digit. *)
Lemma unsigned_head b v :
  0 ≤ v → ∃ c s, prefix b ++ show_radix (radix b) v = c :: s ∧ c ≠ c_plus ∧ c ≠ c_minus.
Proof.
  intros Hv. destruct b; [by eexists _, _|by eexists _, _| |by eexists _, _]. simpl.
  destruct (shown_nonempty 10 v ltac:(lia) Hv) as (c & s & E). exists c, s. split; [done|].
  destruct (shown_chars 10 v c ltac:(lia) Hv) as (_ & H1 & H2 & _); [rewrite E; by left|]. done.
Qed.

Lemma parse_int_shown (positive : bool) b v :
  0 ≤ v < 2 ^ 256 →
  parse_int ((if positive then [] else [c_minus]) ++ prefix b ++ show_radix (radix b) v) None =
    Some {| number := if positive then v else wrap 256 (umax 256 - v + 1);
            is_nonnegative := positive; nb_base := b |}.
Proof.
  intros Hv. pose proof (detect_shown b v Hv) as Hd. pose proof (parse_shown b v Hv) as Hp.
  destruct (unsigned_head b v ltac:(lia)) as (c & s & E & H1 & H2). rewrite E in *.
  apply Z.eqb_neq in H1, H2. unfold parse_int, unwrap_or_detect, parse_int_in.
  destruct positive; simpl; rewrite H1, H2; simpl; rewrite Hd; simpl; by rewrite Hp.
Qed.
End base_spec.

(** ** Properties *)

(** A number that is printed faithfully: its 256 bits, and negative only in
    base 10 and in two's complement. *)
Record nb_wf (n : NumberWithBase) : Prop := {
  nw_bits : 0 ≤ number n < 2 ^ 256;
  nw_sign : is_nonnegative n = false → nb_base n = Decimal ∧ 2 ^ 255 ≤ number n
}.

Lemma trim_shown r v : 2 ≤ r ≤ 36 → 0 < v → trim_start (show_radix r v) = show_radix r v.
Proof.
  intros Hr Hv. destruct (digits_spec r Hr v) as [B V (d & l & E & Hd)]; [lia|]. unfold show_radix.
  rewrite E in *. csimpl. apply Forall_cons in B as [Hb _].
  rewrite digit_char_zero, (proj2 (Z.eqb_neq _ _)); [done| |lia].
  intros ->. rewrite (Hd eq_refl) in V. unfold digits_value in V. simpl in V. lia.
Qed.

Section base_claims.
Context {pr : ParseRadix} {laws : ParseRadixLaws}.

Lemma debug_roundtrip (n : NumberWithBase) :
  nb_wf n → parse_int (debug_fmt true n) None = Some n.
Proof.
  intros [Hb Hs]. destruct n as [v positive b]; simpl in *. unfold debug_fmt, format. simpl.
  pose proof (radix_range b) as Hr. destruct (Z.eqb_spec v 0) as [->|Hv].
  { destruct positive; [|specialize (Hs eq_refl); lia].
    apply (parse_int_shown true b 0). lia. }
  destruct positive.
  - replace (if match b with Decimal => true | _ => true end then [] else [c_minus]) with (@nil Char)
      by (by destruct b).
    replace (match b with Decimal => show_radix 10 v | _ => _ end) with (show_radix (radix b) v)
      by (by destruct b).
    rewrite trim_shown by lia. by apply (parse_int_shown true).
  - destruct (Hs eq_refl) as [-> Hneg]. unfold magnitude. rewrite (proj2 (Z.ltb_ge _ _)) by lia.
    rewrite trim_shown by lia. rewrite (parse_int_shown false Decimal) by lia. do 2 f_equal.
    unfold umax. rewrite wrap_small by (unfold is_u, umax; lia). lia.
Qed.

(** C38: a number that [cast] prints with the prefix of its base is read back as
    it was, base and sign included: every nonnegative 256-bit number in every
    base, decimal numbers having no prefix, and in base 10 also every negative
    number from [-2^255] on, through its two's complement.  (Negative numbers in
    other bases, and numbers marked negative below [-2^255], are left out.) *)
Theorem number_roundtrip (n : NumberWithBase) :
  nb_wf n → parse_int (debug_fmt true n) None = Some n.
Proof. apply debug_roundtrip. Qed.

(** In particular an unsigned number survives printing in any base and reading. *)
Theorem u256_roundtrip (v : Z) (b : Base) :
  0 ≤ v < 2 ^ 256 → number <$> parse_int (to_base (from_u256 v) b true) None = Some v.
Proof.
  intros Hv. unfold to_base. by rewrite debug_roundtrip.
Qed.

(** A signed one does in base 10. *)
Theorem i256_roundtrip (v : Z) :
  - 2 ^ 255 ≤ v < 2 ^ 255 →
  parse_int (to_base (from_i256 v) Decimal true) None = Some (from_i256 v).
Proof.
  intros Hv. apply debug_roundtrip. split; simpl.
  - pose proof (wrap_is_u 256 v ltac:(lia)) as [H1 H2]. unfold umax in H2. lia.
  - intros Hneg%Z.leb_gt. split; [done|].
    replace (wrap 256 v) with (v + 2 ^ 256); [lia|]. unfold wrap.
    apply (Z.mod_unique_pos _ _ (-1)); lia.
Qed.

(** A negative number below the least signed one is printed as another number. *)
Theorem large_negative_misread (m : Z) :
  2 ^ 255 < m < 2 ^ 256 →
  str_to_base (c_minus :: show_radix 10 m) Decimal false = Some (c_minus :: show_radix 10 (2 ^ 256 - m)).
Proof.
  intros Hm. unfold str_to_base. pose proof (parse_int_shown false Decimal m ltac:(lia)) as E.
  simpl in E. rewrite E. simpl. f_equal. unfold to_base, debug_fmt, format. simpl.
  replace (wrap 256 (umax 256 - m + 1)) with (2 ^ 256 - m).
  - rewrite (proj2 (Z.eqb_neq _ _)) by lia. simpl. unfold magnitude.
    rewrite (proj2 (Z.ltb_lt _ _)) by lia. by rewrite trim_shown by lia.
  - unfold umax. rewrite wrap_small by (unfold is_u, umax; lia). lia.
Qed.

(** [format] prints nothing for zero. *)
Theorem format_zero_empty (b : Base) (positive : bool) :
  format {| number := 0; is_nonnegative := positive; nb_base := b |} = [].
Proof. by destruct b, positive. Qed.

(** A prefix of another base is dropped from a number: [0B101] is taken for a
    hexadecimal number and read as 0x101. *)
Theorem other_prefix_dropped :
  number <$> parse_int (str "0B101") None = Some 257 ∧
  number <$> parse_int (str "0b12") (Some (str "hex")) = Some 18.
Proof.
  split.
  - unfold parse_int, unwrap_or_detect, parse_int_in. simpl detect. unfold detect_unsigned.
    rewrite !bool_decide_false by done. rewrite (radix_rejects 10 _ 66); [|lia|set_solver|done|done].
    rewrite (radix_reads 16 _ [0; 11; 1; 0; 1]) by (done || lia). simpl.
    unfold parse_uint_in. simpl. rewrite (radix_reads 16 _ [1; 0; 1]) by (done || lia). done.
  - unfold parse_int, unwrap_or_detect, parse_int_in, parse_uint_in. simpl.
    rewrite (radix_reads 16 _ [1; 2]) by (done || lia). done.
Qed.
End base_claims.

(** A signed base is cut to its low 32 bits, an unsigned one is not. *)
Example signed_base_truncated :
  base_try_from_i256 (2 ^ 32 + 2) = Some Binary ∧ base_try_from_u256 (2 ^ 32 + 2) = None.
Proof. done. Qed.

(** A reading of numbers as documented. *)
Definition ex_from_str_radix (s : Str) (r : Z) : option Z :=
  l ← read_digits r (filter (λ c, c ≠ 95) s);
  if digits_value r l <? 2 ^ 256 then Some (digits_value r l) else None.

Definition ex_parse_radix : ParseRadix := {| u256_from_str_radix := ex_from_str_radix |}.

Lemma underscore_no_digit r : r ≤ 36 → char_digit r 95 = None.
Proof. intros Hr. unfold char_digit. simpl. by rewrite Z.ltb_irrefl. Qed.

Lemma ex_radix_laws : ParseRadixLaws (pr := ex_parse_radix).
Proof.
  split; simpl; unfold ex_from_str_radix.
  - intros r s l Hr _ Hs. rewrite filter_all; [by rewrite Hs|].
    unfold read_digits in Hs. apply mapM_Some in Hs.
    induction Hs as [|c d s l Hc _ IH]; constructor; [|done]. intros ->.
    by rewrite underscore_no_digit in Hc by lia.
  - intros r s c Hr Hin Hc Hu. destruct (read_digits r _) as [l|] eqn:E; [|done]. exfalso.
    unfold read_digits in E. apply mapM_Some in E.
    assert (c ∈ filter (λ c, c ≠ 95) s) as Hf by (by apply list_elem_of_filter).
    clear Hin. induction E as [|c' d s' l' Hc' _ IH]; [by apply elem_of_nil in Hf|].
    apply elem_of_cons in Hf as [->|Hf]; [congruence|by apply IH].
Qed.

Lemma number_roundtrip_witness :
  let n := {| number := 2 ^ 256 - 5; is_nonnegative := false; nb_base := Decimal |} in
  debug_fmt true n = str "-5" ∧ parse_int (pr := ex_parse_radix) (debug_fmt true n) None = Some n.
Proof.
  split; [by vm_compute|]. apply (number_roundtrip (pr := ex_parse_radix) (laws := ex_radix_laws)).
  split; simpl; [lia|]. intros _. split; [done|lia].
Defined.
